(* ===== verification/_CoqProject ===== *)
-Q . S2P
Prelude.v
WorkQueue.v
Backoff.v
ProcMgr.v
ProcMgrInv.v
ProcMgrReconcile.v
ProcMgrSync.v
ProcMgrProv.v
ProcMgrRuns.v
Isolation.v
IsolationSpec.v
AdminTypes.v
Partition.v
AdminFsm.v
AdminFsmSpec.v
ControlPlane.v
GoStrings.v
AdminConfig.v
AdminRaft.v
AdminStorage.v
AdminStorageSpec.v
AdminServe.v
ControlPlaneSql.v
LauncherAdmin.v
Filter.v
Coordinator.v
CoordinatorSpec.v
MulticastMocks.v
Memstore.v
MemPubSub.v
Slots.v
Sqlite.v
Nats.v
SqliteSpec.v
SqliteDemo.v
MulticastBackends.v
Mailbox.v
MailboxSpec.v
Producer.v
ProducerSpec.v
Consumer.v
ConsumerSpec.v
Plugin.v
PluginControl.v
PluginControlSpec.v
Kafka.v
KafkaSpec.v
Redis.v
RedisRegistry.v
RedisRegistrySpec.v
RedisDemo.v
PrismctlStatus.v
ProcMgrMetrics.v
TestProcMgr.v
Postgres.v
PostgresSpec.v
S3.v
Operator.v
OperatorSpec.v
OperatorDemo.v
Runners.v
RunnersSpec.v
RunnersControl.v
ProducerRunner.v
PluginServe.v
Auth.v
Prismctl.v
PrismctlSpec.v
Watcher.v
Launcher.v
LauncherMetrics.v
LauncherService.v
LauncherSpec.v
LocalStack.v
LauncherOrphans.v
LauncherExport.v
LauncherMain.v
LoadMetrics.v
LoadTest.v
LoadTestSpec.v
