(* ===== verification/Prelude.v ===== *)
(** * A verification of the core of the Prism data layer

    Prism is a data access layer: an admin cluster assigns namespaces and patterns
    to proxies and launchers, launchers run pattern processes under a process
    manager, patterns such as the multicast registry use backends through narrow
    interfaces, and drivers implement those interfaces.  This library models the
    Go code that carries the logic of these parts and proves it correct.

    ** The parts, the files that model them, and how they interact

    - pkg/procmgr, the process manager.  [WorkQueue] models workqueue.go: the
      indexed binary heap, [Enqueue], [Dequeue], [Len], the notification channel,
      and the loops of container/heap that the methods drive.  It ends with the
      class [DelayQueue], the promise of the queue to its client, and the instance
      that discharges it.  [Backoff] models [Jitter] and [ExponentialBackoff] on
      IEEE binary64 numbers.  [ProcMgr] models types.go, options.go and manager.go
      against [DelayQueue]: the record [ProcessManager] has the maps, a store of
      status objects and one of channels (pointers are locations, since workers
      keep them while the maps change), and the goroutines as program counters.
      A label is one critical section or channel operation of a goroutine, a call
      of the public API, or an answer of the syncer; [exec] runs a label and
      [reachable] is the closure of its steps.  [ProcMgrInv] has the structural invariant and the
      lifecycle, [ProcMgrReconcile] [SyncKnownProcesses] and [Health],
      [ProcMgrSync] the concurrency invariant, [ProcMgrProv] where the
      configurations that reach the syncer and the channels it closes come from,
      [ProcMgrRuns] termination requests run to their end and concrete runs.
    - pkg/isolation, the isolation manager.  [Isolation] models types.go and
      manager.go on top of [ProcMgr]: each call of [GetOrCreateProcess] or
      [TerminateProcess] is a program counter whose steps interleave with other calls
      and with the goroutines of the process manager ([im_exec], [im_reachable]);
      [IsolationSpec] has its theorems.
    - cmd/prism-admin, the admin cluster.  [AdminTypes] has the messages of
      admin.proto and control_plane.proto, [Partition] partition_manager.go with
      CRC-32 written out, [AdminFsm] fsm.go, the state machine replicated by Raft,
      [AdminFsmSpec] its theorems, and [ControlPlane] the handlers of
      control_plane_raft.go, which compose the two: a handler proposes a command,
      the committed command runs through [Apply], and the answer is computed from
      the new state by the partition manager.
    - patterns/multicast_registry.  [Filter] models filter/ast.go and
      [Filter.Matches]; [Coordinator] models coordinator.go against the classes
      [RegistryBackend] and [MessagingBackend] (slots.go) and gives the instances
      of mocks.go; [CoordinatorSpec] has the theorems, with the deliveries of a
      multicast interleaved step by step, and [MulticastMocks] the mocks that fail.
    - pkg/drivers/memstore.  [Memstore] models memstore.go twice: the operations as
      they run alone, which discharge the class [KeyValueBasic], and [Set] and [Get]
      as sequences of the atomic operations on the two concurrent maps.
      [MemPubSub] models pubsub.go with its bounded channels.
    - patterns/producer and patterns/consumer.  [Slots] has the interfaces of
      pkg/plugin/interfaces.go that the patterns are bound to, as the classes
      [MessageSink], [StateStore] and [ObjectStore] with the laws the patterns rely
      on (every [KeyValueBasic] driver is a state store), reference instances, and
      pkg/patterns/common with SHA-256 written out.  [Producer] models producer.go
      and config.go, [Consumer] consumer.go and config.go, both against the classes;
      [ProducerSpec] and [ConsumerSpec] have the theorems.

    - patterns/mailbox and the drivers below it.  [Sqlite] models sqlite.go, the driver
      that stores mailbox events in a table: it builds SQL text and arguments, and the
      database engine is the class [SqlDB] with a law for each form of statement the
      driver sends; [SqliteSpec] has the theorems and [SqliteDemo] an engine that reads
      the SQL text and discharges the laws.  [Nats] models nats.go.  [Mailbox] models
      mailbox.go and config.go against the class [EventTable] (the table interfaces of
      pkg/plugin/interfaces.go), of which the sqlite driver is an instance, with the
      consuming goroutines as program counters; [MailboxSpec] has the theorems, among
      them two about the three parts composed.
    - cmd/prism-admin without Raft.  [AdminStorage] models storage.go, the tables of the
      admin database and the statements on them, [AdminStorageSpec] their theorems, and
      [ControlPlaneSql] the handlers of control_plane.go over the storage.
    - pkg/plugin.  [Plugin] models config_parser.go, lifecycle_service.go and the handlers
      of pattern_control_plane_client.go over the class [Plugin]; [PluginControl] the
      control plane between proxy and patterns (proxy_control_plane_server.go and the
      loop of the client) as a step relation over calls, goroutines and connections
      ([pcs_exec], [pcs_reachable]); [PluginControlSpec] has the theorems.
    - pkg/drivers/kafka, pkg/drivers/redis, patterns/keyvalue and the Redis registry.
      [Kafka] models kafka.go: the maps, the producer, and the goroutine of every
      subscription as a program counter ([kf_exec], [kf_reachable]), the answers of the
      client library being events of the run; [KafkaSpec] has the theorems.  [Redis]
      models redis.go over the class [RedisServer] (the commands of the server with their
      expiry), shows that the driver is a [StateStore], and models keyvalue.go on it.
      [RedisRegistry] models redis_registry.go and the key-value adapter of adapters.go,
      [RedisRegistrySpec] has their theorems, [RedisDemo] a concrete server.
    - prism-operator.  [Operator] models prismpattern_controller.go, hpa.go and keda.go in a
      state and error monad over the class [KubeAPI], the API server behind a client with a
      cache: a read may return what the cache still has, a change of the map of objects may
      fail, also after taking effect, and an update takes effect only if it was made from
      the current version.  [OperatorSpec] has the theorems, against [desired], the objects
      a pattern declares written out field by field; [OperatorDemo] a concrete API server,
      one with a lagging cache, and runs on them.
    - pkg/launcher.  [Launcher] models manifest.go, discovery.go (with the path functions
      of the standard library) and builder.go; [LauncherMetrics] metrics.go;
      [LauncherService] service.go, syncer.go and cleanup.go on top of three isolation
      managers: an RPC calls a manager, the process manager below it calls the syncer,
      and the syncer keeps its own table of operating system processes ([la_exec],
      [la_reachable]); [LauncherSpec] has the theorems about the composed service, and
      [LauncherOrphans] the scan of /proc for the orphan detector.  [LauncherExport] models
      the two text exports of metrics.go, with a reader of the Prometheus text, and in its
      module [Errors] errors.go; [LauncherMain] models cmd/pattern-launcher/main.go, which puts
      the service and the client of the control plane together.

    - pkg/drivers/postgres, pkg/drivers/s3 and the messaging backends of the multicast
      registry.  [Postgres] models postgres.go over the class [PgDB] (the statements the
      driver sends), [PostgresSpec] shows its theorems and that it is a [StateStore];
      [S3] models s3.go over the class [S3Server] and gives an [ObjectStore].
      [MulticastBackends] models nats_messaging.go and the pub/sub and queue adapters of
      adapters.go, with the goroutine of each subscription as labels ([nm_exec],
      [pipe_exec]).
    - cmd/prism-admin, configuration and Raft node.  [GoStrings] has the functions of
      strings and strconv the code uses, [AdminConfig] models config.go, [AdminRaft]
      raft.go (what the name service and the Raft library report are arguments) and the
      connection pool of
      control_plane_raft.go as labels ([pool_lookup], [pool_dial]).  [AdminServe]
      models serve.go, which composes configuration, storage, Raft node and control plane
      into the server process; its module [Forward] has the goroutine that forwards a
      heartbeat to the leader, whose context ends when the handler returns
      ([forward_exec]).
    - The runners of the patterns.  [Runners] models consumer-runner, keyvalue-runner and
      multicast-registry-runner in a state and error monad over the class [Drivers], the
      drivers a configuration can name, and composes them with [Consumer] and
      [Coordinator]; [RunnersSpec] has the theorems and [RunnersControl] the path of a
      configuration from the control plane ([Plugin]) to a runner.
      [ProducerRunner] models producer-runner on [Producer], with any drivers in its slots.
    - pkg/plugin, the serving part.  [PluginServe] models the key-value service of
      dataplane.go against the class [KeyValueLaws], of which the memory store, Redis and
      PostgreSQL are instances, the health reports of controlplane.go, the bootstrap of
      plugin.go as labels ([boot_exec]), and the configuration.  Its module
      [Observability] models observability.go.
    - pkg/launcher/admin_client.go.  [LauncherAdmin] models the client over the class of the
      control plane service and composes it with the Raft leader ([ControlPlane],
      [AdminFsm]).
    - cmd/prismctl and cmd/plugin-watcher.  [LocalStack] models local.go over a host of
      processes and pid files, and composes its request for a namespace with
      [ControlPlane] and [LauncherAdmin].  [Auth] models oidc.go and token.go,
      the callback server as labels ([flow_exec]); [Watcher] models main.go of the watcher,
      the event loop and the timer callbacks as labels ([watch_exec]), and
      its start: the walk over the directories, and the loop that receives the events.
      [Prismctl] models the HTTP client of prismctl and the commands namespace, session,
      health, publish, mailbox, login, logout and whoami in a monad over the token file,
      the requests that were sent and the lines that were shown; [PrismctlSpec] has the
      theorems, and composes login ([Auth]) with the other commands.  [PrismctlStatus]
      models admin.go over the storage ([AdminStorage]).
    - cmd/prism-loadtest.  [LoadMetrics] models root.go, the collector with its histogram, and proves it right;
      [LoadTest] register.go, enumerate.go, multicast.go and mixed.go as one step relation
      of the launching loop and its workers over [Coordinator] ([load_exec]), with the
      progress reporters; [LoadTestSpec] has the theorems.
    - pkg/procmgr/metrics.go and prometheus.go.  [ProcMgrMetrics] models the collector
      interface as a class, the Prometheus collector as an instance, and the reports of
      the manager, derived from the status functions of [ProcMgr].
    - pkg/testing/procmgr.  [TestProcMgr] models the process manager of the integration
      tests over an operating system in which a child stays until it is waited for.

    This file has what the others share: the result type of fallible functions with
    its notation, machine integers, times, and the tactics that split the conditions of
    the code.

    ** What the theorems show

    - The work queue refines an abstract delay queue on every history, and the
      backoff has the documented value where the float fits an [int64].
    - The process manager: every reachable step is a legal lifecycle transition;
      grace periods do not grow; finished is final; without [SyncKnownProcesses]
      the syncs of a process are serialized and no pending update loses its wakeup;
      a termination request completes when the syncer succeeds; reconciliation and
      the health report are what they say, whatever the map order.
    - Partitions: the two queries are inverse to each other, do not depend on the
      order of the proxies, and cover 0..255 exactly once; every proxy gets the same
      share, and the last one the remainder as well.
    - The state machine: it never panics on well-formed logs, rejected commands
      change nothing, a command replayed right after itself changes only timestamps, replicas with different clocks agree
      up to timestamps, a snapshot restores the answers of all queries.
    - The control plane answers [RegisterProxy] and [CreateNamespace] consistently
      with the state it leaves behind.
    - The isolation manager: a process is only ever run with configurations of the
      namespace or session it serves; [TerminateProcess] reports success only for a
      terminated process; a finished process can never be started again.
    - The producer: a call delivers between one and [MaxRetries + 1] copies or
      reports an error, without batching an id within its window is suppressed whatever is published
      in between, batching without deduplication keeps order and content, and [Stop] blocks exactly when a
      batch is pending.  The consumer: every message is accounted for, its position
      survives a restart, and a claim check gives back the payload the producer was
      handed.
    - The multicast registry: filters mean what their syntax says, an enumeration
      returns exactly the live matches, registry and coordinator stay in step, and
      a multicast terminates and accounts for every target and every message.
    - The launcher: discovery finds exactly the valid manifests, a builder reports the
      first error, percentiles have the rank they name; in every run of the service no
      termination of a launched pattern succeeds, processes are named after the default
      isolation level, the circuit breaker opens after the configured number of errors,
      and a restarted process is taken for an orphan.
    - The event table: a query returns the matching events, newest first and cut to the
      page that was asked for, on every engine with the laws; a written event is read
      back; retention deletes what is older.  The mailbox: its counters account for every
      message it received, and a message counted as stored is found under its id.
    - The admin database: keys and ids are unique whatever statements run and fail, an
      upsert changes one row, an audit query returns the matching entries; heartbeats
      erase what a registration stored.
    - The plugin control plane: an answer is the answer to the command of that very call,
      in every interleaving; a call in flight when the pattern leaves never returns; the
      configuration does not depend on the order of the fields.
    - The operator: a reconciliation that reports success leaves the declared objects as
      they are declared, whatever the API answered on the way and however stale the cache
      of the client is, and exactly the declared cluster when the cache is in step; it then succeeds when the API answers,
      doing it again changes nothing, no outcome touches objects or patterns of others,
      and editing the fields that make the selector blocks every later one.
    - Kafka: the subscriber gets the messages that were sent, in order, every message
      read is sent, dropped or in hand, offsets are committed only for messages sent, and
      a published message comes back with its parts.  Redis: what was registered is read
      back until it expires, a scan returns the registered identities that match, however
      the server pages its answers.
    - Postgres: a scan returns the keys with the prefix, up to the wildcards it does not
      escape; S3: what was put is read back.  The NATS backend hands over the messages in
      order and accounts for every one.
    - The configuration of the admin server is valid when it loads, peers written in the
      documented form are read back, and the pool keeps one connection per address.
    - The runners: a consumer that comes up is the consumer that its configuration
      describes, a fresh consumer or multicast runner that is stopped leaves no driver of its
      own running but one whose [Start] it still waits for, a multicast
      runner reports ready exactly with three drivers that have the interfaces, and the
      configuration survives the way over the control plane.
      A producer runner comes up exactly with NATS as its sink.
    - The key-value service is a map, whatever requests fail, on every driver with the
      laws; a plugin is initialized first, started at most once and stopped only on a
      signal.
    - What the cluster records of a launcher's capacity is a counter that a heartbeat
      resets.
    - Stopping the local stack reaches everything that starting it started, whatever went
      wrong; without a proxy every request for a namespace fails; the orphan detector
      signals exactly the untracked processes that name a pattern.
    - The login exchanges a code only for a callback with its state; the polling of a
      device login ends at the first answer that is not pending; a watcher builds every
      change that is not made during a build.
    - The load test: its percentiles are the buckets of the order statistics of the
      latencies it measured, whatever order they come in; at every point of every run the
      counters account for the requests; the identities it registers are all different, so
      no registration fails for that reason; and it ends.
    - prismctl: no command sends a request without a valid token, and every request
      carries it; what a login saved is what the next command sends; publishing sends one
      request per message.  The admin status adds up what the database holds.
    - The admin server comes up exactly when a leader is seen before the deadline, where
      bind addresses resolve to IPv4 addresses (with IPv6 addresses a follower never sees
      one); whatever fails, it releases what it opened.  A heartbeat that a follower
      acknowledged reaches the leader only if the forwarding was faster than the return.
    - The launcher's exports: counters whose labels have no quotes or newlines are read back from
      the Prometheus text under the names of their metrics; an
      error's code is read back from its text and nothing of its context is lost.  A
      launcher that is refused at its registration never calls the control plane again.
    - The Prometheus collector counts what the manager reports, and the transitions it
      reports are legal moves.
    - A backend that fails its first publishes makes at most that number, divided by the
      attempts of a delivery, of the deliveries fail.
    - The watcher watches the directories that no skipped name leads to, and attributes a
      change there to the plugin it watched.  The test processes: stopping all leaves
      none alive, none registered and no log open.
    - The drivers: set/get with expiry, cleanup, capacity, publishing; and the
      interleavings that break them (a [Get] that deletes a newer value, publishing
      after [Stop], two workers for one process, a restored replica with a nil map).

    ** Conventions, bounds and fuel

    A Go panic is a value ([Panic] of [result], or [None] where an operation has no
    errors).  [int32] and [int64] results that can leave their range are wrapped
    explicitly; times are integers (nanoseconds or Unix seconds).  The order in
    which Go iterates over a map is the order of [map_to_list], and the theorems are
    stated so that they do not depend on it, or quantify over permutations.  The
    only fuel is in the loops of container/heap: [up] gets [S j] for a start at [j]
    and [down] the length of the heap; each round at least halves the index or
    doubles it, and the heap lemmas, which establish the order after each
    operation, show that the fuel is enough.  [SHA256.blocks] gets one round per block of
    the padded message, and the known digests are checked.  [percentile_loop] gets eleven
    rounds for nine buckets, and its theorem shows the loop ends before them.  Everything
    else is structural.

    Code outside the repository is a parameter: protobuf, gob
    and JSON coding, gzip, the SQL engines, the Redis and S3 servers, the Kafka and NATS
    clients, the Kubernetes API server, the settings that viper reads, the answers of an
    identity provider, podman, the file system and the operating system below the launcher, a user's plugin, [time.ParseDuration], the outcome of a Raft proposal, the
    answers of the user's message processor, random numbers and the float conversion
    that Go leaves to the implementation.  What a theorem needs of it is a named
    hypothesis, and its witness instantiates it.

    ** What is not modelled

    Logging, the gRPC transport, the Rust proxy and the code that protoc and the
    Kubernetes generators write.  metrics.go of prism-admin only declares Prometheus
    metrics that nothing reads back; namespace.go and health.go of prism-admin print fixed
    text; ui.go of prismctl colours it; main and root files set up the command line.  The
    mailbox runner and the consumer plugins do not compile, so that there is no behaviour
    to model.  The test pattern and the acceptance tests are test code.  storage.go of
    prismctl is a copy of the one of prism-admin, of which it calls five operations.  The
    buckets of Prometheus histograms and gzip belong to libraries. *)

From stdpp Require Export base gmap strings list fin_maps sorting.
From Stdlib Require Export ZArith Lia.

(** ** Results *)

(** A Go function that returns [(T, error)] and may also panic. *)
Inductive result (E A : Type) : Type :=
  | Ok (a : A)
  | Err (e : E)
  | Panic.
Global Arguments Ok {E A} a.
Global Arguments Err {E A} e.
Global Arguments Panic {E A}.

Declare Scope go_scope.
Delimit Scope go_scope with go.

(** [x <-! c ; k]: run [c]; an error or a panic ends the whole body. *)
Notation "x '<-!' c ; k" :=
  (match c with Ok x => k | Err e => Err e | Panic => Panic end)
  (at level 100, c at next level, k at level 200, right associativity) : go_scope.

Definition is_ok {E A} (r : result E A) : bool :=
  match r with Ok _ => true | _ => false end.

(** ** Machine integers *)

(** The value a signed [w]-bit Go integer holds after an operation whose exact
    result is [z]. *)
Definition wrap_signed (w z : Z) : Z :=
  ((z + 2 ^ (w - 1)) mod 2 ^ w - 2 ^ (w - 1))%Z.

Definition wrap32 : Z → Z := wrap_signed 32.
Definition wrap64 : Z → Z := wrap_signed 64.

Definition min_int64 : Z := (- 2 ^ 63)%Z.
Definition max_int64 : Z := (2 ^ 63 - 1)%Z.

Definition in_int64 (z : Z) : Prop := (min_int64 ≤ z ≤ max_int64)%Z.
Definition in_int32 (z : Z) : Prop := (- 2 ^ 31 ≤ z < 2 ^ 31)%Z.

Lemma wrap_signed_id w z :
  (0 < w)%Z → (- 2 ^ (w - 1) ≤ z < 2 ^ (w - 1))%Z → wrap_signed w z = z.
Proof.
  intros Hw Hz. unfold wrap_signed.
  assert (2 ^ w = 2 * 2 ^ (w - 1))%Z as Hp.
  { rewrite <- Z.pow_succ_r by lia. f_equal. lia. }
  rewrite Z.mod_small; lia.
Qed.

Lemma wrap64_id z : in_int64 z → wrap64 z = z.
Proof.
  unfold in_int64, min_int64, max_int64, wrap64. intros ?.
  apply wrap_signed_id; simpl; lia.
Qed.

Lemma wrap32_id z : in_int32 z → wrap32 z = z.
Proof. unfold in_int32, wrap32. intros ?. apply wrap_signed_id; simpl; lia. Qed.

Lemma wrap_signed_range w z :
  (0 < w)%Z → (- 2 ^ (w - 1) ≤ wrap_signed w z < 2 ^ (w - 1))%Z.
Proof.
  intros Hw. unfold wrap_signed.
  assert (2 ^ w = 2 * 2 ^ (w - 1))%Z as Hp.
  { rewrite <- Z.pow_succ_r by lia. f_equal. lia. }
  assert (0 < 2 ^ (w - 1))%Z by (apply Z.pow_pos_nonneg; lia).
  pose proof (Z.mod_pos_bound (z + 2 ^ (w - 1)) (2 ^ w)). lia.
Qed.

(** Adding to a wrapped number wraps the sum. *)
Lemma wrap_signed_add w a b : wrap_signed w (wrap_signed w a + b) = wrap_signed w (a + b).
Proof.
  unfold wrap_signed. f_equal.
  replace ((a + 2 ^ (w - 1)) `mod` 2 ^ w - 2 ^ (w - 1) + b + 2 ^ (w - 1))%Z
    with ((a + 2 ^ (w - 1)) `mod` 2 ^ w + b)%Z by lia.
  rewrite Zplus_mod_idemp_l. f_equal. lia.
Qed.

Lemma wrap64_add a b : wrap64 (wrap64 a + b) = wrap64 (a + b).
Proof. apply wrap_signed_add. Qed.
Lemma wrap32_add a b : wrap32 (wrap32 a + b) = wrap32 (a + b).
Proof. apply wrap_signed_add. Qed.

(** ** Time *)

(** A [time.Time] is a number of nanoseconds since Go's zero time, which is what
    [IsZero] tests for; a [time.Duration] is a 64-bit number of nanoseconds. *)
Definition IsZero (t : Z) : bool := (t =? 0)%Z.
Definition Before (t u : Z) : bool := (t <? u)%Z.
Definition After (t u : Z) : bool := (u <? t)%Z.

Definition Second : Z := 1000000000%Z.
Definition Millisecond : Z := 1000000%Z.
Definition Minute : Z := (60 * Second)%Z.

Lemma IsZero_false t : IsZero t = false ↔ t ≠ 0%Z.
Proof. unfold IsZero. rewrite Z.eqb_neq. done. Qed.

Lemma IsZero_true t : IsZero t = true ↔ t = 0%Z.
Proof. unfold IsZero. rewrite Z.eqb_eq. done. Qed.

(** ** Strings *)

Lemma string_app_cons a s t : String a s +:+ t = String a (s +:+ t).
Proof. done. Qed.
Lemma string_nil_app s : "" +:+ s = s.
Proof. done. Qed.

Lemma string_app_assoc s1 s2 s3 : (s1 +:+ s2) +:+ s3 = s1 +:+ (s2 +:+ s3).
Proof. induction s1; [done|]. rewrite !string_app_cons. by f_equal. Qed.

Lemma string_app_nil s : s +:+ "" = s.
Proof. induction s; [done|]. rewrite string_app_cons. by f_equal. Qed.

(** ** Automation *)

(** Preservation lemmas of the components' invariants. *)
Create HintDb prism.

(** Break the [if]s and [match]es of the goal or of a hypothesis. *)
Ltac split_match :=
  repeat match goal with
  | |- context [match ?x with _ => _ end] => destruct x eqn:?; simplify_eq/=
  end.

Ltac split_match_in H :=
  repeat match type of H with
  | context [match ?x with _ => _ end] => destruct x eqn:?; simplify_eq/=
  end.

(** Turn boolean comparisons of the source into the propositions they decide. *)
Ltac bool_to_prop :=
  repeat match goal with
  | H : _ && _ = true |- _ => apply andb_true_iff in H; destruct H
  | H : _ && _ = false |- _ => apply andb_false_iff in H
  | H : _ || _ = true |- _ => apply orb_true_iff in H
  | H : _ || _ = false |- _ => apply orb_false_iff in H; destruct H
  | H : negb _ = true |- _ => apply negb_true_iff in H
  | H : negb _ = false |- _ => apply negb_false_iff in H
  | H : (_ =? _)%Z = true |- _ => apply Z.eqb_eq in H
  | H : (_ =? _)%Z = false |- _ => apply Z.eqb_neq in H
  | H : (_ <? _)%Z = true |- _ => apply Z.ltb_lt in H
  | H : (_ <? _)%Z = false |- _ => apply Z.ltb_ge in H
  | H : (_ <=? _)%Z = true |- _ => apply Z.leb_le in H
  | H : (_ <=? _)%Z = false |- _ => apply Z.leb_gt in H
  | H : IsZero _ = false |- _ => apply IsZero_false in H
  | H : IsZero _ = true |- _ => apply IsZero_true in H
  | H : bool_decide _ = true |- _ => apply bool_decide_eq_true in H
  | H : bool_decide _ = false |- _ => apply bool_decide_eq_false in H
  end.

(** ** Lists *)

Lemma filter_none {A} (P : A → Prop) `{∀ x, Decision (P x)} l :
  Forall (λ x, ¬ P x) l → filter P l = [].
Proof. induction 1; [done|]. by rewrite filter_cons_False. Qed.

Lemma filter_all {A} (P : A → Prop) `{∀ x, Decision (P x)} l : Forall P l → filter P l = l.
Proof. induction 1; [done|]. rewrite filter_cons_True by done. by f_equal. Qed.

Lemma filter_ext_elem {A} (P Q : A → Prop) `{∀ x, Decision (P x), ∀ x, Decision (Q x)} (l : list A) :
  (∀ x, x ∈ l → P x ↔ Q x) → filter P l = filter Q l.
Proof.
  induction l as [|x l IH]; intros HPQ; [done|]. rewrite !filter_cons.
  rewrite IH by set_solver. specialize (HPQ x ltac:(set_solver)). by repeat case_decide; try tauto.
Qed.

Lemma foldr_add_snoc (l : list Z) z : foldr Z.add 0%Z (l ++ [z]) = (foldr Z.add 0 l + z)%Z.
Proof. induction l as [|x l IH]; simpl; lia. Qed.

Lemma foldr_add_perm (l l' : list Z) : l ≡ₚ l' → foldr Z.add 0%Z l = foldr Z.add 0%Z l'.
Proof. induction 1; simpl; lia. Qed.

(** ** Runs *)

(** A system is a function that executes one label, where it is enabled; a run executes
    a list of them. *)
Section Runs.
Context {L S : Type} (exec : L → S → option S).

Fixpoint run_labels (ls : list L) (s : S) : option S :=
  match ls with
  | [] => Some s
  | l :: ls => s' ← exec l s; run_labels ls s'
  end.

(** What every step with labels in [Q] preserves, every run of them preserves. *)
Lemma run_labels_invariant_on (I : S → Prop) (Q : L → Prop) ls s s' :
  (∀ s l s', I s → Q l → exec l s = Some s' → I s') →
  I s → Forall Q ls → run_labels ls s = Some s' → I s'.
Proof.
  intros Hstep Hs Hall. revert s Hs. induction Hall as [|l ls Hl _ IH]; intros s Hs; simpl; [by intros [= <-]|].
  intros (s1 & H1 & H2)%bind_Some. eapply IH; [|done]. by eapply Hstep.
Qed.

Lemma run_labels_invariant (I : S → Prop) ls s s' :
  (∀ s l s', I s → exec l s = Some s' → I s') → I s → run_labels ls s = Some s' → I s'.
Proof.
  intros Hstep Hs. apply (run_labels_invariant_on I (λ _, True)); [eauto|done|by apply Forall_true].
Qed.
End Runs.
