(* ===== verification/WorkQueue.v ===== *)
(** * pkg/procmgr/workqueue.go: the delay queue of the process manager

    The queue is a binary min-heap on [readyAt], driven by Go's [container/heap]
    through the [heap.Interface] methods of [workItemHeap].  The heap algorithms
    ([up], [down], [Push], [Pop], [Fix]) are modelled over the methods the source
    gives, on a list of items whose [index] field the [Swap] of the source keeps
    up to date.  The loops of [up] and [down] carry fuel; [up] gets [S j] and
    [down] gets [n], and the ordering lemmas show that this is enough.

    The file ends with the abstract delay queue (a finite map from process to
    ready time), the interface class [DelayQueue] that the process manager is
    verified against, and the instance that discharges it. *)

From S2P Require Import Prelude.
Local Open Scope Z_scope.

Abbreviation ProcessID := string.

(** ** Items and the [heap.Interface] methods *)

Record workItem := mkWorkItem {
  wi_id : ProcessID;
  wi_readyAt : Z;
  wi_priority : Z;
  wi_index : Z }.

Definition set_index (i : Z) (it : workItem) : workItem :=
  mkWorkItem (wi_id it) (wi_readyAt it) (wi_priority it) i.

Definition set_readyAt (t : Z) (it : workItem) : workItem :=
  mkWorkItem (wi_id it) t (wi_priority it) (wi_index it).

Abbreviation workItemHeap := (list workItem).

Definition heap_Len (h : workItemHeap) : nat := length h.

(** [container/heap] only asks for indices below [Len]. *)
Definition heap_Less (h : workItemHeap) (i j : nat) : bool :=
  match h !! i, h !! j with
  | Some a, Some b => Before (wi_readyAt a) (wi_readyAt b)
  | _, _ => false
  end.

Definition heap_Swap (h : workItemHeap) (i j : nat) : workItemHeap :=
  match h !! i, h !! j with
  | Some a, Some b =>
      <[j := set_index (Z.of_nat j) a]> (<[i := set_index (Z.of_nat i) b]> h)
  | _, _ => h
  end.

Definition heap_iPush (h : workItemHeap) (x : workItem) : workItemHeap :=
  h ++ [set_index (Z.of_nat (length h)) x].

Definition heap_iPop (h : workItemHeap) : option (workItem * workItemHeap) :=
  match last h with
  | Some it => Some (set_index (-1) it, take (length h - 1) h)
  | None => None
  end.

(** ** [container/heap] over those methods *)

Definition parent (j : nat) : nat := ((j - 1) / 2)%nat.

Fixpoint heap_up (fuel : nat) (h : workItemHeap) (j : nat) : workItemHeap :=
  match fuel with
  | O => h
  | S fuel =>
      let i := parent j in
      if (i =? j)%nat || negb (heap_Less h j i) then h
      else heap_up fuel (heap_Swap h i j) i
  end.

Fixpoint heap_down_loop (fuel : nat) (h : workItemHeap) (i n : nat)
    : workItemHeap * nat :=
  match fuel with
  | O => (h, i)
  | S fuel =>
      let j1 := (2 * i + 1)%nat in
      if (n <=? j1)%nat then (h, i)
      else
        let j2 := (j1 + 1)%nat in
        let j := if (j2 <? n)%nat && heap_Less h j2 j1 then j2 else j1 in
        if negb (heap_Less h j i) then (h, i)
        else heap_down_loop fuel (heap_Swap h i j) j n
  end.

(** Returns the slice and whether the element moved. *)
Definition heap_down (h : workItemHeap) (i0 n : nat) : workItemHeap * bool :=
  let '(h', i) := heap_down_loop n h i0 n in (h', (i0 <? i)%nat).

Definition heap_Push (h : workItemHeap) (x : workItem) : workItemHeap :=
  let h' := heap_iPush h x in heap_up (length h') h' (length h' - 1).

Definition heap_Pop (h : workItemHeap) : option (workItem * workItemHeap) :=
  let n := (heap_Len h - 1)%nat in
  heap_iPop (fst (heap_down (heap_Swap h 0 n) 0 n)).

Definition heap_Fix (h : workItemHeap) (i : nat) : workItemHeap :=
  let '(h', moved) := heap_down h i (heap_Len h) in
  if moved then h' else heap_up (S i) h' i.

(** ** The queue *)

(** [wq_notify] is the one-slot [notifyCh]: whether it holds a signal. *)
Record workQueue := mkWorkQueue {
  wq_items : workItemHeap;
  wq_notify : bool }.

Definition NewWorkQueue : workQueue := mkWorkQueue [] false.

Definition wq_do_notify (h : workItemHeap) : workQueue := mkWorkQueue h true.

(** [now] is the result of the one [time.Now()] call of the body. *)
Definition wq_Enqueue (now : Z) (id : ProcessID) (delay : Z) (wq : workQueue)
    : workQueue :=
  let readyAt := now + delay in
  match list_find (λ it, wi_id it = id) (wq_items wq) with
  | Some (p, item) =>
      if Before readyAt (wi_readyAt item) then
        wq_do_notify
          (heap_Fix (<[p := set_readyAt readyAt item]> (wq_items wq))
                    (Z.to_nat (wi_index item)))
      else wq_do_notify (wq_items wq)
  | None => wq_do_notify (heap_Push (wq_items wq) (mkWorkItem id readyAt 0 0))
  end.

Definition wq_Dequeue (now : Z) (wq : workQueue) : option ProcessID * workQueue :=
  match wq_items wq with
  | [] => (None, wq)
  | item :: _ =>
      if Before now (wi_readyAt item) then (None, wq)
      else match heap_Pop (wq_items wq) with
           | Some (_, h) => (Some (wi_id item), mkWorkQueue h (wq_notify wq))
           | None => (None, wq)
           end
  end.

Definition wq_Len (wq : workQueue) : nat := heap_Len (wq_items wq).

(** ** Keys, order and the effect of a swap *)

Definition key (h : workItemHeap) (i : nat) : Z :=
  match h !! i with Some it => wi_readyAt it | None => 0 end.

(** The first [n] slots satisfy the heap order. *)
Definition heap_ordered (h : workItemHeap) (n : nat) : Prop :=
  ∀ j, (0 < j < n)%nat → key h (parent j) ≤ key h j.

Definition idx_ok (h : workItemHeap) : Prop :=
  ∀ i it, h !! i = Some it → wi_index it = Z.of_nat i.

Definition entry (it : workItem) : ProcessID * Z := (wi_id it, wi_readyAt it).
Definition entries (h : workItemHeap) : list (ProcessID * Z) := entry <$> h.

Lemma parent_lt j : (0 < j)%nat → (parent j < j)%nat.
Proof. unfold parent. intros. apply Nat.Div0.div_lt_upper_bound; lia. Qed.

Lemma parent_child j i :
  (0 < j)%nat → parent j = i ↔ (j = 2 * i + 1 ∨ j = 2 * i + 2)%nat.
Proof.
  unfold parent. intros Hj. split.
  - intros <-. pose proof (Nat.div_mod_eq (j - 1) 2).
    pose proof (Nat.mod_upper_bound (j - 1) 2). lia.
  - intros [->| ->].
    + symmetry. apply (Nat.div_unique _ _ _ 0); lia.
    + symmetry. apply (Nat.div_unique _ _ _ 1); lia.
Qed.

Lemma heap_Less_key h i j :
  (i < length h)%nat → (j < length h)%nat →
  heap_Less h i j = (key h i <? key h j).
Proof.
  intros [a Ha]%lookup_lt_is_Some [b Hb]%lookup_lt_is_Some.
  unfold heap_Less, key, Before. by rewrite Ha, Hb.
Qed.

Lemma length_heap_Swap h i j : length (heap_Swap h i j) = length h.
Proof.
  unfold heap_Swap. split_match; rewrite ?length_insert; done.
Qed.

Lemma lookup_heap_Swap h i j k a b :
  h !! i = Some a → h !! j = Some b →
  heap_Swap h i j !! k =
    (if decide (k = j) then Some (set_index (Z.of_nat j) a)
     else if decide (k = i) then Some (set_index (Z.of_nat i) b) else h !! k).
Proof.
  intros Ha Hb. unfold heap_Swap. rewrite Ha, Hb.
  pose proof (lookup_lt_Some _ _ _ Ha). pose proof (lookup_lt_Some _ _ _ Hb).
  case_decide as Hkj; subst.
  { rewrite list_lookup_insert_eq; [done|]. rewrite length_insert. done. }
  rewrite list_lookup_insert_ne by done.
  case_decide as Hki; subst.
  - by rewrite list_lookup_insert_eq.
  - by rewrite list_lookup_insert_ne.
Qed.

Lemma key_heap_Swap h i j k :
  (i < length h)%nat → (j < length h)%nat →
  key (heap_Swap h i j) k =
    (if decide (k = j) then key h i else if decide (k = i) then key h j else key h k).
Proof.
  intros [a Ha]%lookup_lt_is_Some [b Hb]%lookup_lt_is_Some.
  unfold key. rewrite (lookup_heap_Swap _ _ _ _ _ _ Ha Hb).
  repeat case_decide; by rewrite ?Ha, ?Hb.
Qed.

Lemma heap_Swap_idx_ok h i j : idx_ok h → idx_ok (heap_Swap h i j).
Proof.
  intros Hok k it Hk.
  destruct (h !! i) as [a|] eqn:Ha; [destruct (h !! j) as [b|] eqn:Hb|].
  - rewrite (lookup_heap_Swap _ _ _ _ _ _ Ha Hb) in Hk.
    repeat case_decide; simplify_eq/=; eauto.
  - unfold heap_Swap in Hk. rewrite Ha, Hb in Hk. eauto.
  - unfold heap_Swap in Hk. rewrite Ha in Hk. eauto.
Qed.

Lemma heap_Swap_entries h i j : entries (heap_Swap h i j) ≡ₚ entries h.
Proof.
  destruct (h !! i) as [a|] eqn:Ha; [|unfold heap_Swap; by rewrite Ha].
  destruct (h !! j) as [b|] eqn:Hb; [|unfold heap_Swap; by rewrite Ha, Hb].
  apply Permutation_inj. split.
  { unfold entries. by rewrite !length_fmap, length_heap_Swap. }
  exists (λ k, if decide (k = j) then i else if decide (k = i) then j else k). split.
  { intros x y. repeat case_decide; subst; congruence. }
  intros k. unfold entries. rewrite !list_lookup_fmap.
  rewrite (lookup_heap_Swap _ _ _ _ _ _ Ha Hb).
  repeat case_decide; subst; by rewrite ?Ha, ?Hb.
Qed.

Lemma heap_Swap_beyond h i j n k :
  (i < n)%nat → (j < n)%nat → (n ≤ k)%nat → heap_Swap h i j !! k = h !! k.
Proof.
  intros. unfold heap_Swap. split_match; rewrite ?list_lookup_insert_ne by lia; done.
Qed.

(** ** [up] *)

(** Everything but slot [k] against its parent is in order. *)
Definition up_pre (h : workItemHeap) (n k : nat) : Prop :=
  (∀ j, (0 < j < n)%nat → j ≠ k → key h (parent j) ≤ key h j) ∧
  (∀ j, (0 < j < n)%nat → parent j = k → (0 < k)%nat → key h (parent k) ≤ key h j).

Lemma up_pre_swap h k :
  (0 < k < length h)%nat → up_pre h (length h) k → key h k < key h (parent k) →
  up_pre (heap_Swap h (parent k) k) (length h) (parent k).
Proof.
  intros Hk [H1 H2] Hlt. pose proof (parent_lt k ltac:(lia)) as Hp.
  split; intros j Hj.
  - intros Hne. pose proof (parent_lt j ltac:(lia)) as Hpj.
    rewrite !key_heap_Swap by lia.
    destruct (decide (j = k)) as [->|Hjk].
    { rewrite (decide_False (P := parent k = k)) by lia.
      rewrite decide_True by done. lia. }
    rewrite (decide_False (P := j = parent k)) by done.
    destruct (decide (parent j = k)) as [Hpk|Hpk].
    { apply H2; [done|done|lia]. }
    destruct (decide (parent j = parent k)) as [Hpp|Hpp].
    { specialize (H1 j Hj Hjk). rewrite Hpp in H1. lia. }
    apply H1; done.
  - intros Hpar Hpos. rewrite !key_heap_Swap by lia.
    pose proof (parent_lt (parent k) Hpos) as Hpp.
    pose proof (parent_lt j ltac:(lia)) as Hpj.
    rewrite (decide_False (P := parent (parent k) = k)) by lia.
    rewrite (decide_False (P := parent (parent k) = parent k)) by lia.
    pose proof (H1 (parent k) ltac:(lia) ltac:(lia)) as Hgp.
    destruct (decide (j = k)) as [->|Hjk]; [lia|].
    rewrite (decide_False (P := j = parent k)) by lia.
    specialize (H1 j Hj Hjk). rewrite Hpar in H1. lia.
Qed.

Lemma heap_up_spec fuel h k :
  (k < length h)%nat → (k < fuel)%nat → up_pre h (length h) k →
  heap_ordered (heap_up fuel h k) (length h).
Proof.
  revert h k. induction fuel as [|fuel IH]; intros h k Hk Hf Hpre; [lia|]. simpl.
  destruct (decide (k = 0)%nat) as [->|Hk0].
  { intros j Hj. apply Hpre; lia. }
  pose proof (parent_lt k ltac:(lia)) as Hp.
  replace (parent k =? k)%nat with false by (symmetry; apply Nat.eqb_neq; lia).
  simpl. rewrite heap_Less_key by lia.
  destruct (Z.ltb_spec (key h k) (key h (parent k))) as [Hlt|Hge]; simpl.
  - rewrite <- (length_heap_Swap h (parent k) k). apply IH.
    + rewrite length_heap_Swap. lia.
    + lia.
    + rewrite length_heap_Swap. apply up_pre_swap; [lia|done|done].
  - intros j Hj. destruct (decide (j = k)) as [->|]; [lia|]. by apply Hpre.
Qed.

Lemma heap_up_inert fuel h k :
  length (heap_up fuel h k) = length h ∧
  entries (heap_up fuel h k) ≡ₚ entries h ∧
  (idx_ok h → idx_ok (heap_up fuel h k)).
Proof.
  revert h k. induction fuel as [|fuel IH]; intros h k; simpl; [done|].
  case_match; [done|].
  destruct (IH (heap_Swap h (parent k) k) (parent k)) as (Hl & He & Hi).
  rewrite Hl, length_heap_Swap, He, heap_Swap_entries.
  eauto using heap_Swap_idx_ok.
Qed.

(** ** [down] *)

(** Everything but slot [k] against its children is in order. *)
Definition down_pre (h : workItemHeap) (n k : nat) : Prop :=
  (∀ j, (0 < j < n)%nat → parent j ≠ k → key h (parent j) ≤ key h j) ∧
  (∀ j, (0 < j < n)%nat → parent j = k → (0 < k)%nat → key h (parent k) ≤ key h j).

(** The child the loop of [down] compares with. *)
Definition small_child (h : workItemHeap) (i n : nat) : nat :=
  let j1 := (2 * i + 1)%nat in
  let j2 := (j1 + 1)%nat in
  if (j2 <? n)%nat && heap_Less h j2 j1 then j2 else j1.

Lemma small_child_spec h i n :
  (n ≤ length h)%nat → (2 * i + 1 < n)%nat →
  (i < small_child h i n < n)%nat ∧ parent (small_child h i n) = i ∧
  (∀ j, (0 < j < n)%nat → parent j = i → key h (small_child h i n) ≤ key h j).
Proof.
  intros Hn Hi. unfold small_child.
  destruct (Nat.ltb_spec (2 * i + 1 + 1) n) as [Hlt|Hge]; cbn [andb].
  - rewrite heap_Less_key by lia.
    destruct (Z.ltb_spec (key h (2 * i + 1 + 1)) (key h (2 * i + 1))) as [Hs|Hs].
    + split; [lia|]. split; [apply parent_child; lia|].
      intros j Hj [->| ->]%parent_child; [lia| |lia].
      replace (2 * i + 2)%nat with (2 * i + 1 + 1)%nat by lia. lia.
    + split; [lia|]. split; [apply parent_child; lia|].
      intros j Hj [->| ->]%parent_child; [lia| |lia].
      replace (2 * i + 2)%nat with (2 * i + 1 + 1)%nat by lia. lia.
  - split; [lia|]. split; [apply parent_child; lia|].
    intros j Hj [->| ->]%parent_child; lia.
Qed.

Lemma down_pre_swap h n i j :
  (n ≤ length h)%nat → (i < j < n)%nat → parent j = i → down_pre h n i →
  key h j < key h i →
  (∀ j', (0 < j' < n)%nat → parent j' = i → key h j ≤ key h j') →
  down_pre (heap_Swap h i j) n j.
Proof.
  intros Hn Hij Hpar [H1 H2] Hlt Hmin. split; intros k Hk.
  - intros Hne. rewrite !key_heap_Swap by lia.
    pose proof (parent_lt k ltac:(lia)) as Hpk.
    rewrite (decide_False (P := parent k = j)) by done.
    destruct (decide (k = j)) as [->|Hkj].
    { rewrite decide_True by done. lia. }
    destruct (decide (k = i)) as [->|Hki].
    + rewrite decide_False by lia. apply H2; [lia|done|lia].
    + destruct (decide (parent k = i)) as [Hp|Hp]; [by apply Hmin|by apply H1].
  - intros Hp _. rewrite !key_heap_Swap by lia.
    pose proof (parent_lt k ltac:(lia)) as Hpk.
    rewrite Hpar, (decide_False (P := i = j)), (decide_True (P := i = i)) by lia.
    rewrite !decide_False by lia. rewrite <- Hp. apply H1; lia.
Qed.

Lemma heap_down_loop_spec fuel h i n :
  (n ≤ length h)%nat → (n - i ≤ fuel)%nat → down_pre h n i →
  heap_ordered (fst (heap_down_loop fuel h i n)) n.
Proof.
  revert h i. induction fuel as [|fuel IH]; intros h i Hn Hf Hpre; cbn [heap_down_loop].
  { simpl. intros j Hj. apply Hpre; [done|]. pose proof (parent_lt j ltac:(lia)). lia. }
  destruct (Nat.leb_spec n (2 * i + 1)) as [Hge|Hlt].
  { simpl. intros j Hj. apply Hpre; [done|]. intros Hp%parent_child; lia. }
  fold (small_child h i n).
  destruct (small_child_spec h i n) as (Hr & Hp & Hmin); [lia|lia|].
  rewrite heap_Less_key by lia.
  destruct (Z.ltb_spec (key h (small_child h i n)) (key h i)) as [Hs|Hs]; cbn [negb].
  - apply IH; [rewrite length_heap_Swap; lia|lia|]. apply down_pre_swap; auto with lia.
  - simpl. intros j Hj. destruct (decide (parent j = i)) as [Hpj|Hpj]; [|by apply Hpre].
    rewrite Hpj. specialize (Hmin j Hj Hpj). lia.
Qed.

Lemma heap_down_loop_inert fuel h i n :
  (n ≤ length h)%nat →
  let h' := fst (heap_down_loop fuel h i n) in
  length h' = length h ∧ entries h' ≡ₚ entries h ∧ (idx_ok h → idx_ok h') ∧
  (∀ k, (n ≤ k)%nat → h' !! k = h !! k).
Proof.
  revert h i. induction fuel as [|fuel IH]; intros h i Hn; cbn [heap_down_loop]; [done|].
  destruct (Nat.leb_spec n (2 * i + 1)) as [Hge|Hlt]; [done|].
  fold (small_child h i n).
  destruct (small_child_spec h i n) as (Hr & _ & _); [lia|lia|].
  case_match; simpl; [done|].
  destruct (IH (heap_Swap h i (small_child h i n)) (small_child h i n))
    as (Hl & He & Hi & Hb); [by rewrite length_heap_Swap|].
  rewrite Hl, length_heap_Swap, He, heap_Swap_entries.
  split_and!; [done|done|eauto using heap_Swap_idx_ok|].
  intros k Hk. rewrite Hb by done. apply (heap_Swap_beyond _ _ _ n); lia.
Qed.

(** An element no larger than its children stays where it is. *)
Lemma heap_down_stays h i :
  (i < length h)%nat →
  (∀ j, (0 < j < length h)%nat → parent j = i → key h i ≤ key h j) →
  heap_down h i (length h) = (h, false).
Proof.
  intros Hi Hle. unfold heap_down.
  destruct (length h) as [|n] eqn:El; [lia|]. cbn [heap_down_loop].
  destruct (Nat.leb_spec (S n) (2 * i + 1)) as [Hge|Hlt].
  { by rewrite (proj2 (Nat.ltb_ge _ _)) by lia. }
  fold (small_child h i (S n)).
  destruct (small_child_spec h i (S n)) as (Hr & Hp & _); [lia|lia|].
  specialize (Hle (small_child h i (S n)) ltac:(lia) Hp).
  rewrite heap_Less_key by lia. rewrite (proj2 (Z.ltb_ge _ _) Hle). simpl.
  by rewrite (proj2 (Nat.ltb_ge _ _)) by lia.
Qed.

(** ** [Push], [Pop] and [Fix] on an ordered heap *)

Definition heap_wf (h : workItemHeap) : Prop :=
  heap_ordered h (length h) ∧ idx_ok h ∧ NoDup (entries h).*1.

Lemma key_insert h p it k :
  (p < length h)%nat →
  key (<[p := it]> h) k = (if decide (k = p) then wi_readyAt it else key h k).
Proof.
  intros Hp. unfold key. case_decide as Hk; subst.
  - by rewrite list_lookup_insert_eq.
  - by rewrite list_lookup_insert_ne.
Qed.

Lemma key_app_l h x k : (k < length h)%nat → key (h ++ [x]) k = key h k.
Proof. intros. unfold key. by rewrite lookup_app_l. Qed.

Lemma heap_root_min h n j : heap_ordered h n → (j < n)%nat → key h 0 ≤ key h j.
Proof.
  intros Ho. induction (lt_wf j) as [j _ IH]. intros Hj.
  destruct (decide (j = 0)%nat) as [->|Hne]; [lia|].
  pose proof (parent_lt j ltac:(lia)). specialize (Ho j ltac:(lia)).
  specialize (IH (parent j)). lia.
Qed.

Lemma heap_Push_spec h x :
  heap_ordered h (length h) → idx_ok h →
  heap_ordered (heap_Push h x) (length (heap_Push h x)) ∧ idx_ok (heap_Push h x) ∧
  entries (heap_Push h x) ≡ₚ entry x :: entries h.
Proof.
  intros Ho Hi. unfold heap_Push, heap_iPush.
  set (h' := h ++ [set_index (Z.of_nat (length h)) x]).
  assert (length h' = S (length h)) as Hl by (unfold h'; rewrite length_app; simpl; lia).
  destruct (heap_up_inert (length h') h' (length h' - 1)) as (Hlen & He & Hidx).
  split_and!.
  - rewrite Hlen. apply heap_up_spec; [lia|lia|]. split; intros j Hj.
    + intros Hne. pose proof (parent_lt j ltac:(lia)).
      unfold h'. rewrite !key_app_l by lia. apply Ho. lia.
    + intros Hp _. pose proof (parent_lt j ltac:(lia)). lia.
  - apply Hidx. intros i it. unfold h'.
    intros [?|[? Hx]]%lookup_app_Some; [eauto|].
    apply list_lookup_singleton_Some in Hx as [? <-]. simpl. lia.
  - rewrite He. unfold h', entries. rewrite fmap_app. simpl.
    rewrite Permutation_app_comm. done.
Qed.

Lemma heap_Fix_decrease h p it t :
  heap_ordered h (length h) → idx_ok h → h !! p = Some it → t ≤ wi_readyAt it →
  let h' := heap_Fix (<[p := set_readyAt t it]> h) p in
  heap_ordered h' (length h') ∧ idx_ok h' ∧
  entries h' ≡ₚ <[p := (wi_id it, t)]> (entries h).
Proof.
  intros Ho Hi Hp Ht. pose proof (lookup_lt_Some _ _ _ Hp) as Hlt.
  set (h1 := <[p := set_readyAt t it]> h).
  assert (length h1 = length h) as Hl by (unfold h1; apply length_insert).
  assert (key h p = wi_readyAt it) as Hkp by (unfold key; by rewrite Hp).
  assert (heap_down h1 p (length h1) = (h1, false)) as Hd.
  { apply heap_down_stays; [lia|]. intros j Hj Hpar.
    pose proof (parent_lt j ltac:(lia)). specialize (Ho j ltac:(lia)).
    unfold h1. rewrite !key_insert, decide_True, decide_False by lia. simpl.
    rewrite Hpar in Ho. lia. }
  unfold heap_Fix, heap_Len. rewrite Hd.
  destruct (heap_up_inert (S p) h1 p) as (Hlen & He & Hidx). split_and!.
  - rewrite Hlen. apply heap_up_spec; [lia|lia|]. split; intros j Hj.
    + intros Hne. pose proof (Ho j ltac:(lia)).
      unfold h1. rewrite !key_insert by done. rewrite (decide_False (P := j = p)) by done.
      case_decide as Hjp; simpl; [rewrite Hjp in *; lia|done].
    + intros Hpar Hpos. pose proof (parent_lt j ltac:(lia)).
      pose proof (parent_lt p ltac:(lia)).
      unfold h1. rewrite !key_insert, !decide_False by lia.
      pose proof (Ho j ltac:(lia)) as Hj1. rewrite Hpar in Hj1.
      pose proof (Ho p ltac:(lia)). lia.
  - apply Hidx. intros i x. unfold h1.
    destruct (decide (i = p)) as [->|Hne].
    + rewrite list_lookup_insert_eq by done. intros [= <-]. simpl. eauto.
    + rewrite list_lookup_insert_ne by done. eauto.
  - rewrite He. unfold h1, entries. by rewrite list_fmap_insert.
Qed.

Lemma heap_Pop_spec h root rest :
  h = root :: rest → heap_ordered h (length h) → idx_ok h →
  ∃ it h', heap_Pop h = Some (it, h') ∧
    heap_ordered h' (length h') ∧ idx_ok h' ∧ entry root :: entries h' ≡ₚ entries h.
Proof.
  intros Eh Ho Hi. unfold heap_Pop, heap_Len, heap_down.
  set (n := (length h - 1)%nat). set (h1 := heap_Swap h 0 n).
  assert (length h = S n) as Hn by (unfold n; rewrite Eh; simpl; lia).
  assert (h !! 0%nat = Some root) as H0 by (by rewrite Eh).
  destruct (proj2 (lookup_lt_is_Some h n) ltac:(lia)) as [lst Hlst].
  assert (length h1 = S n) as Hl1 by (unfold h1; by rewrite length_heap_Swap).
  destruct (heap_down_loop_inert n h1 0 n) as (Hl & He & Hidx & Hb); [lia|].
  pose proof (heap_down_loop_spec n h1 0 n ltac:(lia) ltac:(lia)) as Hord.
  destruct (heap_down_loop n h1 0 n) as [h2 i2] eqn:E2. simpl in *.
  assert (h2 !! n = Some (set_index (Z.of_nat n) root)) as Hlast.
  { rewrite Hb by lia. unfold h1.
    rewrite (lookup_heap_Swap _ _ _ _ _ _ H0 Hlst). by rewrite decide_True. }
  assert (h2 = take n h2 ++ [set_index (Z.of_nat n) root]) as Hsplit.
  { rewrite <- (take_drop n h2) at 1. f_equal.
    rewrite (drop_S _ _ _ Hlast). f_equal. apply drop_ge. lia. }
  exists (set_index (-1) root), (take n h2). split_and!.
  - unfold heap_iPop. rewrite last_lookup.
    replace (pred (length h2)) with n by lia. rewrite Hlast.
    replace (length h2 - 1)%nat with n by lia. done.
  - rewrite length_take, Nat.min_l by lia. intros j Hj.
    pose proof (parent_lt j ltac:(lia)).
    assert (heap_ordered h2 n) as Ho2.
    { apply Hord. split; intros k Hk; [|lia]. intros Hpk.
      pose proof (parent_lt k ltac:(lia)). specialize (Ho k ltac:(lia)).
      unfold h1. rewrite !key_heap_Swap, !decide_False by lia. done. }
    specialize (Ho2 j Hj). unfold key in *. by rewrite !lookup_take_lt by lia.
  - intros i it [Hlk _]%lookup_take_Some. apply (Hidx (heap_Swap_idx_ok _ _ _ Hi)). done.
  - rewrite <- (heap_Swap_entries h 0 n). fold h1. rewrite <- He. rewrite Hsplit at 2.
    unfold entries. rewrite fmap_app. simpl. rewrite Permutation_app_comm. done.
Qed.

(** ** The abstract delay queue and the interface of the process manager *)

(** What a delay queue is: for each queued process, when it becomes ready. *)
Definition dq_spec_enqueue (id : ProcessID) (t : Z) (m : gmap ProcessID Z)
    : gmap ProcessID Z :=
  <[id := match m !! id with Some t0 => Z.min t t0 | None => t end]> m.

(** The Go interface [WorkQueue], with the contract its clients rely on. *)
Class DelayQueue (Q : Type) := {
  dq_new : Q;
  dq_enqueue : Z → ProcessID → Z → Q → Q;
  dq_dequeue : Z → Q → option ProcessID * Q;
  dq_len : Q → nat;
  dq_wf : Q → Prop;
  dq_abs : Q → gmap ProcessID Z;
  dq_new_wf : dq_wf dq_new;
  dq_new_abs : dq_abs dq_new = ∅;
  dq_enqueue_wf now id delay q : dq_wf q → dq_wf (dq_enqueue now id delay q);
  dq_enqueue_abs now id delay q :
    dq_wf q → dq_abs (dq_enqueue now id delay q) = dq_spec_enqueue id (now + delay) (dq_abs q);
  dq_dequeue_none now q q' :
    dq_wf q → dq_dequeue now q = (None, q') →
    q' = q ∧ ∀ id t, dq_abs q !! id = Some t → now < t;
  dq_dequeue_some now q q' id :
    dq_wf q → dq_dequeue now q = (Some id, q') →
    dq_wf q' ∧ dq_abs q' = delete id (dq_abs q) ∧
    ∃ t, dq_abs q !! id = Some t ∧ t ≤ now ∧ ∀ id' t', dq_abs q !! id' = Some t' → t ≤ t';
  dq_len_abs q : dq_wf q → dq_len q = size (dq_abs q) }.

(** ** The heap implements it *)

Definition wq_wf (wq : workQueue) : Prop := heap_wf (wq_items wq).

Definition wq_abs (wq : workQueue) : gmap ProcessID Z :=
  list_to_map (entries (wq_items wq)).

Lemma entries_lookup h i it :
  NoDup (entries h).*1 → h !! i = Some it →
  (list_to_map (entries h) : gmap ProcessID Z) !! wi_id it = Some (wi_readyAt it).
Proof.
  intros Hnd Hi. apply elem_of_list_to_map_1; [done|].
  unfold entries. apply list_elem_of_fmap. exists it. split; [done|].
  by eapply list_elem_of_lookup_2.
Qed.

Lemma entries_lookup_inv h id t :
  (list_to_map (entries h) : gmap ProcessID Z) !! id = Some t →
  ∃ i it, h !! i = Some it ∧ wi_id it = id ∧ wi_readyAt it = t.
Proof.
  intros Hm%elem_of_list_to_map_2. unfold entries in Hm.
  apply list_elem_of_fmap in Hm as (it & [= -> ->] & Hin).
  apply list_elem_of_lookup_1 in Hin as [i Hi]. eauto.
Qed.

Lemma entries_insert_map h p it t :
  NoDup (entries h).*1 → h !! p = Some it →
  (list_to_map (<[p := (wi_id it, t)]> (entries h)) : gmap ProcessID Z) =
  <[wi_id it := t]> (list_to_map (entries h)).
Proof.
  intros Hnd Hp.
  assert (entries h = take p (entries h) ++ entry it :: drop (S p) (entries h)) as Hs.
  { symmetry. apply take_drop_middle. unfold entries. by rewrite list_lookup_fmap, Hp. }
  assert (entries h ≡ₚ entry it :: take p (entries h) ++ drop (S p) (entries h)) as H1.
  { rewrite Hs at 1. by rewrite <- Permutation_middle. }
  assert (length (entries h) > p)%nat as Hlt.
  { unfold entries. rewrite length_fmap. by eapply lookup_lt_Some. }
  assert (<[p := (wi_id it, t)]> (entries h) ≡ₚ
          (wi_id it, t) :: take p (entries h) ++ drop (S p) (entries h)) as H2.
  { rewrite insert_take_drop by lia. by rewrite <- Permutation_middle. }
  rewrite (list_to_map_proper _ _ Hnd H1).
  rewrite (list_to_map_proper _ ((wi_id it, t) :: take p (entries h) ++ drop (S p) (entries h))).
  - simpl. by rewrite insert_insert_eq.
  - rewrite H2. rewrite H1 in Hnd. done.
  - done.
Qed.

Lemma wq_find_lookup (h : workItemHeap) id p item :
  list_find (λ it, wi_id it = id) h = Some (p, item) → h !! p = Some item ∧ wi_id item = id.
Proof. intros (? & ? & _)%list_find_Some. done. Qed.

Lemma wq_Enqueue_spec now id delay wq :
  wq_wf wq →
  wq_wf (wq_Enqueue now id delay wq) ∧
  wq_abs (wq_Enqueue now id delay wq) = dq_spec_enqueue id (now + delay) (wq_abs wq).
Proof.
  intros (Ho & Hi & Hnd). unfold wq_Enqueue, wq_wf, wq_abs, dq_spec_enqueue, heap_wf.
  destruct (list_find _ _) as [[p item]|] eqn:Hf.
  - apply wq_find_lookup in Hf as [Hp <-]. rewrite (entries_lookup _ _ _ Hnd Hp).
    unfold Before. destruct (Z.ltb_spec (now + delay) (wi_readyAt item)); simpl.
    + rewrite (Hi _ _ Hp), Nat2Z.id, Z.min_l by lia.
      destruct (heap_Fix_decrease _ _ _ (now + delay) Ho Hi Hp) as (Ho' & Hi' & He); [lia|].
      rewrite <- (entries_insert_map _ p) by done.
      assert (NoDup (<[p:=(wi_id item, now + delay)]> (entries (wq_items wq))).*1) as Hnd2.
      { rewrite list_fmap_insert. rewrite list_insert_id; [done|].
        unfold entries. by rewrite !list_lookup_fmap, Hp. }
      split_and!; [done|done|by rewrite He|].
      symmetry. apply list_to_map_proper; [done|by rewrite He].
    + split; [done|]. rewrite Z.min_r by lia. rewrite insert_id; [done|].
      by apply (entries_lookup _ p).
  - apply list_find_None in Hf. rewrite Forall_forall in Hf.
    assert ((list_to_map (entries (wq_items wq)) : gmap ProcessID Z) !! id = None) as Hnone.
    { apply eq_None_not_Some. intros [t (i & it & Hit & <- & _)%entries_lookup_inv].
      apply (Hf it); [by eapply list_elem_of_lookup_2|done]. }
    rewrite Hnone. simpl.
    destruct (heap_Push_spec (wq_items wq) (mkWorkItem id (now + delay) 0 0))
      as (Ho' & Hi' & He); [done|done|].
    assert (NoDup (entry (mkWorkItem id (now + delay) 0 0) :: entries (wq_items wq)).*1).
    { simpl. constructor; [|done]. by apply not_elem_of_list_to_map_2. }
    split_and!; [done|done|by rewrite He|].
    change (<[id := now + delay]> (list_to_map (entries (wq_items wq))))
      with (list_to_map (entry (mkWorkItem id (now + delay) 0 0) :: entries (wq_items wq))
             : gmap ProcessID Z).
    symmetry. apply list_to_map_proper; [done|by rewrite He].
Qed.

Lemma wq_Dequeue_spec now wq o wq' :
  wq_wf wq → wq_Dequeue now wq = (o, wq') →
  match o with
  | None => wq' = wq ∧ ∀ id t, wq_abs wq !! id = Some t → now < t
  | Some id =>
      wq_wf wq' ∧ wq_abs wq' = delete id (wq_abs wq) ∧
      ∃ t, wq_abs wq !! id = Some t ∧ t ≤ now ∧
           ∀ id' t', wq_abs wq !! id' = Some t' → t ≤ t'
  end.
Proof.
  intros (Ho & Hi & Hnd) Hd. unfold wq_Dequeue, Before in Hd.
  destruct (wq_items wq) as [|root rest] eqn:Eh.
  { injection Hd as <- <-. split; [done|]. unfold wq_abs. rewrite Eh. done. }
  assert (∀ id t, wq_abs wq !! id = Some t → wi_readyAt root ≤ t) as Hmin.
  { unfold wq_abs. rewrite Eh. intros id t (i & it & Hit & _ & <-)%entries_lookup_inv.
    pose proof (heap_root_min _ _ i Ho (lookup_lt_Some _ _ _ Hit)) as Hk.
    unfold key in Hk. rewrite Hit in Hk. done. }
  destruct (Z.ltb_spec now (wi_readyAt root)) as [Hlt|Hge].
  { injection Hd as <- <-. split; [done|]. intros id t Ht%Hmin. lia. }
  destruct (heap_Pop_spec _ _ _ eq_refl Ho Hi) as (it & h' & Hpop & Ho' & Hi' & He).
  rewrite Hpop in Hd. injection Hd as <- <-.
  assert (NoDup (entry root :: entries h').*1) as Hnd' by (by rewrite He).
  unfold wq_wf, wq_abs, heap_wf. simpl. rewrite Eh. split_and!; [done|done| | |].
  - simpl in Hnd'. by apply NoDup_cons in Hnd' as [_ ?].
  - rewrite <- (list_to_map_proper _ _ Hnd' He). simpl. rewrite delete_insert_id; [done|].
    apply not_elem_of_list_to_map_1. simpl in Hnd'. by apply NoDup_cons in Hnd' as [? _].
  - exists (wi_readyAt root). split; [|split; [done|]].
    + by apply (entries_lookup _ 0%nat).
    + unfold wq_abs in Hmin. rewrite Eh in Hmin. done.
Qed.

Lemma wq_Len_spec wq : wq_wf wq → wq_Len wq = size (wq_abs wq).
Proof.
  intros (_ & _ & Hnd). unfold wq_Len, heap_Len, wq_abs.
  rewrite map_size_list_to_map by done. unfold entries. by rewrite length_fmap.
Qed.

Lemma NewWorkQueue_wf : wq_wf NewWorkQueue.
Proof. split_and!; [intros j; simpl; lia|intros i it; simpl; done|constructor]. Qed.

#[export, refine] Instance workQueue_DelayQueue : DelayQueue workQueue := {
  dq_new := NewWorkQueue;
  dq_enqueue := wq_Enqueue;
  dq_dequeue := wq_Dequeue;
  dq_len := wq_Len;
  dq_wf := wq_wf;
  dq_abs := wq_abs }.
Proof.
  - apply NewWorkQueue_wf.
  - done.
  - intros. by apply wq_Enqueue_spec.
  - intros. by apply wq_Enqueue_spec.
  - intros now q q' Hwf Hd. apply (wq_Dequeue_spec _ _ _ _ Hwf Hd).
  - intros now q q' id Hwf Hd. apply (wq_Dequeue_spec _ _ _ _ Hwf Hd).
  - apply wq_Len_spec.
Defined.

(** ** Histories *)

Inductive wq_op :=
  | OpEnqueue (now : Z) (id : ProcessID) (delay : Z)
  | OpDequeue (now : Z).

(** Run a history on the heap and collect what the dequeues return. *)
Fixpoint wq_run (ops : list wq_op) (wq : workQueue) : list (option ProcessID) * workQueue :=
  match ops with
  | [] => ([], wq)
  | OpEnqueue now id delay :: ops => wq_run ops (wq_Enqueue now id delay wq)
  | OpDequeue now :: ops =>
      let '(o, wq1) := wq_Dequeue now wq in
      let '(os, wq2) := wq_run ops wq1 in (o :: os, wq2)
  end.

(** The same history on the abstract queue: a dequeue returns some process
    whose ready time has come and is minimal, or nothing when none is ready. *)
Inductive dq_history :
    gmap ProcessID Z → list wq_op → list (option ProcessID) → gmap ProcessID Z → Prop :=
  | dqh_nil m : dq_history m [] [] m
  | dqh_enqueue m now id delay ops os m' :
      dq_history (dq_spec_enqueue id (now + delay) m) ops os m' →
      dq_history m (OpEnqueue now id delay :: ops) os m'
  | dqh_empty m now ops os m' :
      (∀ id t, m !! id = Some t → now < t) →
      dq_history m ops os m' →
      dq_history m (OpDequeue now :: ops) (None :: os) m'
  | dqh_ready m now id t ops os m' :
      m !! id = Some t → t ≤ now → (∀ id' t', m !! id' = Some t' → t ≤ t') →
      dq_history (delete id m) ops os m' →
      dq_history m (OpDequeue now :: ops) (Some id :: os) m'.

Lemma wq_run_sim ops wq :
  wq_wf wq →
  wq_wf (wq_run ops wq).2 ∧
  dq_history (wq_abs wq) ops (wq_run ops wq).1 (wq_abs (wq_run ops wq).2).
Proof.
  revert wq. induction ops as [|[now id delay|now] ops IH]; intros wq Hwf; simpl.
  - split; [done|constructor].
  - destruct (wq_Enqueue_spec now id delay wq Hwf) as [Hwf' Habs].
    destruct (IH _ Hwf') as [? Hh]. split; [done|]. constructor. by rewrite <- Habs.
  - destruct (wq_Dequeue now wq) as [o wq1] eqn:Hd.
    pose proof (wq_Dequeue_spec _ _ _ _ Hwf Hd) as Hspec. destruct o as [id|].
    + destruct Hspec as (Hwf1 & Habs & t & Ht & Hle & Hmin).
      destruct (IH _ Hwf1) as [? Hh]. destruct (wq_run ops wq1). split; [done|].
      econstructor; [done|done|done|]. by rewrite <- Habs.
    + destruct Hspec as [-> Hnone]. destruct (IH _ Hwf) as [? Hh].
      destruct (wq_run ops wq). split; [done|]. by constructor.
Qed.

(** C6.  Every history of [Enqueue] and [Dequeue] on a new work queue keeps the heap
    well formed (min-heap order on ready times, every item's [index] equal to
    its slot, no process queued twice) and returns exactly what an abstract
    delay queue may return: [Enqueue] keeps the earlier of two ready times of a
    process, [Dequeue] hands out a process of minimal ready time that has come
    and removes it, and returns nothing exactly when no process is ready. *)
Theorem workqueue_refines_delay_queue (ops : list wq_op) :
  wq_wf (wq_run ops NewWorkQueue).2 ∧
  dq_history ∅ ops (wq_run ops NewWorkQueue).1 (wq_abs (wq_run ops NewWorkQueue).2).
Proof. apply (wq_run_sim ops NewWorkQueue), NewWorkQueue_wf. Qed.

(** A history whose second enqueue of ["a"] moves it forward, so that it comes
    out before ["b"]; the third dequeue comes too early for ["c"]. *)
Example wq_run_example :
  (wq_run [OpEnqueue 1 "b" 20; OpEnqueue 2 "a" 30; OpEnqueue 3 "c" 90; OpEnqueue 4 "a" 5;
           OpDequeue 50; OpDequeue 50; OpDequeue 50] NewWorkQueue).1
  = [Some "a"; Some "b"; None].
Proof. vm_compute. reflexivity. Qed.
