(* ===== verification/Backoff.v ===== *)
(** * Retry delays: [Jitter] and [ExponentialBackoff] of pkg/procmgr/workqueue.go

    The delays are computed in [float64].  Go's [float64] is IEEE 754 binary64,
    which the Standard Library's [SpecFloat] defines over integers, so the model
    computes the very bits of the program.  Two things are parameters: the
    random number, and what the conversion of a [float64] outside the range of
    [int64] yields, which the Go specification leaves to the implementation
    (amd64 gives the smallest [int64], arm64 saturates). *)

From S2P Require Import Prelude.
From Stdlib Require Import SpecFloat.
Local Open Scope Z_scope.

(** ** float64 *)

Module GoFloat.

Abbreviation float64 := spec_float.

Definition f64_of_int (z : Z) : float64 := binary_normalize 53 1024 z 0 false.
Definition f64_add : float64 → float64 → float64 := SFadd 53 1024.
Definition f64_sub : float64 → float64 → float64 := SFsub 53 1024.
Definition f64_mul : float64 → float64 → float64 := SFmul 53 1024.

(** Every comparison with a NaN is false. *)
Definition f64_eqb (x y : float64) : bool :=
  match SFcompare x y with Some Eq => true | _ => false end.
Definition f64_ltb (x y : float64) : bool :=
  match SFcompare x y with Some Lt => true | _ => false end.
Definition f64_leb (x y : float64) : bool :=
  match SFcompare x y with Some Lt | Some Eq => true | _ => false end.

(** The integer part of a finite number, rounded toward zero. *)
Definition f64_trunc (x : float64) : option Z :=
  match x with
  | S754_zero _ => Some 0
  | S754_finite s m e =>
      let a := if 0 <=? e then Z.pos m * 2 ^ e else Z.pos m / 2 ^ (- e) in
      Some (if s then - a else a)
  | _ => None
  end.

(** [int64(x)]; [ovf] is the implementation's answer out of range. *)
Definition f64_to_int64 (ovf : Z) (x : float64) : Z :=
  match f64_trunc x with
  | Some z => if (min_int64 <=? z) && (z <=? max_int64) then z else ovf
  | None => ovf
  end.

(** [math.Pow(2, float64(n))] for [0 <= n]: exact up to [2^1023], then [+Inf]. *)
Definition f64_pow2 (n : Z) : float64 :=
  if n <=? 1023 then S754_finite false 4503599627370496 (n - 52)
  else S754_infinity false.

Definition f64_zero : float64 := S754_zero false.
Definition f64_one : float64 := Eval vm_compute in f64_of_int 1.
Definition f64_two : float64 := Eval vm_compute in f64_of_int 2.
Definition f64_half : float64 := S754_finite false 4503599627370496 (-53).
Definition f64_quarter : float64 := S754_finite false 4503599627370496 (-54).
(** The double nearest to 0.1. *)
Definition f64_tenth : float64 := S754_finite false 7205759403792794 (-56).

Lemma digits_lower p : 2 ^ (Z.pos (digits2_pos p) - 1) ≤ Z.pos p.
Proof.
  induction p as [p IH|p IH|]; cbn [digits2_pos]; [..|done].
  all: replace (Z.pos (Pos.succ (digits2_pos p)) - 1) with (Z.succ (Z.pos (digits2_pos p) - 1)) by lia.
  all: rewrite Z.pow_succ_r by lia; lia.
Qed.

Lemma digits_shl p k : Z.pos (digits2_pos (Pos.iter xO p k)) = Z.pos (digits2_pos p) + Z.pos k.
Proof. induction k as [|k IH] using Pos.peano_ind; [simpl; lia|]. rewrite Pos.iter_succ. cbn [digits2_pos]. lia. Qed.

Lemma shl_value p k : Z.pos (Pos.iter xO p k) = Z.pos p * 2 ^ Z.pos k.
Proof.
  induction k as [|k IH] using Pos.peano_ind; [simpl; lia|]. rewrite Pos.iter_succ.
  rewrite Pos2Z.inj_succ, Z.pow_succ_r by lia. lia.
Qed.

(** A mantissa of 53 digits is not rounded. *)
Lemma shr_fexp_fit m e : -1021 ≤ e → Z.pos (digits2_pos m) = 53 →
  shr_fexp 53 1024 (Z.pos m) e loc_Exact = (Build_shr_record (Z.pos m) false false, e).
Proof.
  intros He Hd. unfold shr_fexp, shr, fexp, emin. cbn [Zdigits2]. rewrite Hd.
  replace ((53 + e - 53) `max` (3 - 1024 - 53) - e) with 0 by lia. done.
Qed.

(** The integers below [2^53] are doubles. *)
Lemma f64_int_exact n : 0 ≤ n < 2 ^ 53 → f64_trunc (f64_of_int n) = Some n.
Proof.
  intros Hn. destruct n as [|p|p]; [done| |lia].
  unfold f64_of_int, binary_normalize, binary_round, fexp, emin.
  pose proof (digits_lower p) as Hl. set (d := Z.pos (digits2_pos p)) in *.
  assert (d ≤ 53).
  { destruct (Z.le_gt_cases d 53); [done|]. pose proof (Z.pow_le_mono_r 2 53 (d - 1)). lia. }
  replace ((d + 0 - 53) `max` (3 - 1024 - 53)) with (d - 53) by lia.
  assert (∃ m, shl_align p 0 (d - 53) = (m, d - 53) ∧ Z.pos (digits2_pos m) = 53 ∧
               Z.pos m = Z.pos p * 2 ^ (53 - d)) as (m & -> & Hm & Hv).
  { unfold shl_align. destruct (d - 53 - 0) as [|k|k] eqn:E; [|lia|].
    - exists p. replace (d - 53) with 0 by lia. replace (53 - d) with 0 by lia.
      split_and!; [done|lia|lia].
    - exists (Pos.iter xO p k). rewrite digits_shl, shl_value.
      replace (53 - d) with (Z.pos k) by lia. split_and!; [done|lia|done]. }
  unfold binary_round_aux. rewrite shr_fexp_fit by lia. cbn [shr_m loc_of_shr_record round_nearest_even].
  rewrite shr_fexp_fit by lia. cbn [shr_m].
  rewrite (proj2 (Z.leb_le _ _)) by lia. unfold f64_trunc. rewrite Hv.
  f_equal. destruct (Z.leb_spec 0 (d - 53)).
  - replace d with 53 by lia. simpl. lia.
  - replace (- (d - 53)) with (53 - d) by lia. apply Z.div_mul. lia.
Qed.

Lemma f64_to_int64_exact ovf n : 0 ≤ n < 2 ^ 53 → f64_to_int64 ovf (f64_of_int n) = n.
Proof.
  intros Hn. unfold f64_to_int64. rewrite f64_int_exact by done. unfold min_int64, max_int64.
  by rewrite (proj2 (Z.leb_le _ _)), (proj2 (Z.leb_le _ _)) by lia.
Qed.

End GoFloat.
Import GoFloat.

Section Backoff.
(** What [int64(x)] gives for [x] out of range. *)
Context (ovf : Z).

(** [r] is the value of [r.Float64()]. *)
Definition Jitter (r : float64) (duration : Z) (jitterFraction : float64) : Z :=
  if f64_leb jitterFraction f64_zero then duration
  else
    let jitterFraction :=
      if f64_ltb f64_one jitterFraction then f64_one else jitterFraction in
    let jitter := f64_mul r jitterFraction in
    let multiplier :=
      f64_sub (f64_add f64_one (f64_mul jitter f64_two)) jitterFraction in
    f64_to_int64 ovf (f64_mul (f64_of_int duration) multiplier).

(** The delay of [ExponentialBackoff] before the jitter. *)
Definition backoff_delay (attempt baseDelay maxDelay : Z) : Z :=
  let attempt := if attempt <? 0 then 0 else attempt in
  let multiplier := f64_pow2 attempt in
  let delay := f64_to_int64 ovf (f64_mul (f64_of_int baseDelay) multiplier) in
  if maxDelay <? delay then maxDelay else delay.

Definition ExponentialBackoff (r : float64) (attempt baseDelay maxDelay : Z) : Z :=
  Jitter r (backoff_delay attempt baseDelay maxDelay) f64_quarter.

(** ** The one-second base of the process manager *)

Definition raw_ok (a : Z) : bool :=
  match f64_trunc (f64_mul (f64_of_int Second) (f64_pow2 a)) with
  | Some z => z =? Second * 2 ^ a
  | None => 994 <? a
  end.

Lemma raw_table : forallb raw_ok (seqZ 0 1024) = true.
Proof. vm_compute. reflexivity. Qed.

Lemma raw_exact a : 0 ≤ a ≤ 994 →
  f64_trunc (f64_mul (f64_of_int Second) (f64_pow2 a)) = Some (Second * 2 ^ a).
Proof.
  intros Ha. pose proof raw_table as Ht. rewrite forallb_forall in Ht.
  specialize (Ht a). rewrite <- list_elem_of_In, elem_of_seqZ in Ht.
  specialize (Ht ltac:(lia)). unfold raw_ok in Ht. case_match; bool_to_prop; [|lia].
  by subst.
Qed.

Lemma raw_overflow a : 34 ≤ a →
  f64_to_int64 ovf (f64_mul (f64_of_int Second) (f64_pow2 a)) = ovf.
Proof.
  intros Ha. unfold f64_to_int64.
  destruct (decide (a ≤ 1023)) as [Hle|Hgt].
  - pose proof raw_table as Ht. rewrite forallb_forall in Ht.
    specialize (Ht a). rewrite <- list_elem_of_In, elem_of_seqZ in Ht.
    specialize (Ht ltac:(lia)). unfold raw_ok in Ht. case_match; [|done]. bool_to_prop. subst.
    pose proof (Z.pow_le_mono_r 2 34 a ltac:(lia) Ha).
    rewrite (proj2 (Z.leb_gt (Second * 2 ^ a) max_int64)); [by rewrite andb_false_r|].
    unfold max_int64, Second. lia.
  - unfold f64_pow2. rewrite (proj2 (Z.leb_gt _ _)) by lia. done.
Qed.

(**  With the one-second base the process manager uses, the backoff before
    jitter is [min (2^attempt s) maxDelay] for up to 33 failed attempts.  From the
    34th on, [float64(baseDelay) * 2^attempt] no longer fits an [int64] and the
    delay is what the platform's conversion yields, capped: on amd64 that is the
    smallest [int64], so the "backoff" of a process that keeps failing becomes
    negative and the process is retried at once instead of after [maxDelay]. *)
Theorem backoff_delay_one_second (attempt maxDelay : Z) :
  backoff_delay attempt Second maxDelay =
  Z.min (if attempt <=? 33 then Second * 2 ^ Z.max 0 attempt else ovf) maxDelay.
Proof.
  unfold backoff_delay.
  assert ((if attempt <? 0 then 0 else attempt) = Z.max 0 attempt) as ->.
  { destruct (Z.ltb_spec attempt 0); lia. }
  destruct (Z.leb_spec attempt 33) as [Hle|Hgt].
  - unfold f64_to_int64. rewrite raw_exact by lia.
    pose proof (Z.pow_le_mono_r 2 (Z.max 0 attempt) 33 ltac:(lia) ltac:(lia)) as Hp.
    pose proof (Z.pow_nonneg 2 (Z.max 0 attempt) ltac:(lia)).
    rewrite (proj2 (Z.leb_le min_int64 _)), (proj2 (Z.leb_le _ max_int64));
      [|unfold max_int64, Second; lia|unfold min_int64, Second; lia].
    cbn [andb]. destruct (Z.ltb_spec maxDelay (Second * 2 ^ Z.max 0 attempt)); lia.
  - rewrite raw_overflow by lia. destruct (Z.ltb_spec maxDelay ovf); lia.
Qed.
End Backoff.

(** On amd64 the 34th consecutive failure is retried immediately. *)
Example backoff_amd64_negative :
  ExponentialBackoff min_int64 f64_half 33 Second (5 * Second) = 5 * Second ∧
  ExponentialBackoff min_int64 f64_half 34 Second (5 * Second) = min_int64.
Proof. vm_compute. done. Qed.
