(* ===== verification/ProcMgr.v ===== *)
(** * pkg/procmgr: types.go and manager.go, the process manager

    Each process has a status object, a one-slot update channel and a worker
    goroutine; a consumer goroutine drains the work queue; callers submit updates.
    Everything that touches the maps or a status object runs under [pm.mu], so the
    model's steps are the critical sections of the source, in the order in which
    a goroutine runs them.  Pointers are kept: [processStatuses] and
    [processUpdates] map an id to the location of a status object and of a
    channel, because a worker holds on to both across critical sections while
    [SyncKnownProcesses] may drop them from the maps.

    Parameters: the type [Cfg] of the opaque [Config] values, the work queue
    (through the interface [DelayQueue]), the float conversion of [Backoff], and
    what the [ProcessSyncer] answers, which is part of the labels.  [now] is the
    clock reading of a critical section, positive because [time.Now()] is never
    the zero time.  Log lines and metrics are left out: they do not touch the
    state. *)

From S2P Require Import Prelude WorkQueue Backoff.
Import GoFloat.
Local Open Scope Z_scope.

(** ** types.go *)

Inductive ProcessState :=
  | ProcessStateStarting
  | ProcessStateSyncing
  | ProcessStateTerminating
  | ProcessStateTerminated
  | ProcessStateFinished.

Inductive UpdateType :=
  | UpdateTypeCreate
  | UpdateTypeUpdate
  | UpdateTypeSync
  | UpdateTypeTerminate.

#[export] Instance ProcessState_eq_dec : EqDecision ProcessState.
Proof. solve_decision. Defined.
#[export] Instance UpdateType_eq_dec : EqDecision UpdateType.
Proof. solve_decision. Defined.

(** The errors the manager tells apart. *)
Inductive go_error :=
  | ErrCanceled
  | ErrDeadlineExceeded
  | ErrNoSyncer
  | ErrSync (msg : string).

#[export] Instance go_error_eq_dec : EqDecision go_error.
Proof. solve_decision. Defined.

Section ProcMgr.
Context {Cfg : Type} {Q : Type} `{!DelayQueue Q} (ovf : Z).

(** Channels are named by numbers; [StatusFunc] is a callback the manager only
    hands on to the syncer. *)
Record TerminateOptions := mkTerminateOptions {
  to_CompletedCh : option nat;
  to_Evict : bool;
  to_GracePeriodSecs : option Z }.

Record ProcessUpdate := mkProcessUpdate {
  pu_ID : ProcessID;
  pu_UpdateType : UpdateType;
  pu_StartTime : Z;
  pu_Config : option Cfg;
  pu_TerminateOptions : option TerminateOptions }.

Definition set_StartTime (t : Z) (u : ProcessUpdate) : ProcessUpdate :=
  mkProcessUpdate (pu_ID u) (pu_UpdateType u) t (pu_Config u) (pu_TerminateOptions u).

(** [ps_ctx]: [None] is the nil context (then [cancelFn] is nil too), [Some c] a
    context of the process, cancelled through [cancelFn] when [c]. *)
Record processStatus := mkProcessStatus {
  ps_ctx : option bool;
  ps_working : bool;
  ps_pending : option ProcessUpdate;
  ps_active : option ProcessUpdate;
  ps_syncedAt : Z;
  ps_startedAt : Z;
  ps_terminatingAt : Z;
  ps_terminatedAt : Z;
  ps_finishedAt : Z;
  ps_gracePeriod : Z;
  ps_evicted : bool;
  ps_finished : bool;
  ps_errorCount : Z;
  ps_lastError : option go_error;
  ps_restartCount : Z;
  ps_consecutiveFails : Z }.

Definition new_processStatus : processStatus :=
  mkProcessStatus None false None None 0 0 0 0 0 0 false false 0 None 0 0.

Definition set_ctx (v : option bool) (s : processStatus) : processStatus :=
  mkProcessStatus v (ps_working s) (ps_pending s) (ps_active s) (ps_syncedAt s) (ps_startedAt s) (ps_terminatingAt s) (ps_terminatedAt s) (ps_finishedAt s) (ps_gracePeriod s) (ps_evicted s) (ps_finished s) (ps_errorCount s) (ps_lastError s) (ps_restartCount s) (ps_consecutiveFails s).
Definition set_working (v : bool) (s : processStatus) : processStatus :=
  mkProcessStatus (ps_ctx s) v (ps_pending s) (ps_active s) (ps_syncedAt s) (ps_startedAt s) (ps_terminatingAt s) (ps_terminatedAt s) (ps_finishedAt s) (ps_gracePeriod s) (ps_evicted s) (ps_finished s) (ps_errorCount s) (ps_lastError s) (ps_restartCount s) (ps_consecutiveFails s).
Definition set_pending (v : option ProcessUpdate) (s : processStatus) : processStatus :=
  mkProcessStatus (ps_ctx s) (ps_working s) v (ps_active s) (ps_syncedAt s) (ps_startedAt s) (ps_terminatingAt s) (ps_terminatedAt s) (ps_finishedAt s) (ps_gracePeriod s) (ps_evicted s) (ps_finished s) (ps_errorCount s) (ps_lastError s) (ps_restartCount s) (ps_consecutiveFails s).
Definition set_active (v : option ProcessUpdate) (s : processStatus) : processStatus :=
  mkProcessStatus (ps_ctx s) (ps_working s) (ps_pending s) v (ps_syncedAt s) (ps_startedAt s) (ps_terminatingAt s) (ps_terminatedAt s) (ps_finishedAt s) (ps_gracePeriod s) (ps_evicted s) (ps_finished s) (ps_errorCount s) (ps_lastError s) (ps_restartCount s) (ps_consecutiveFails s).
Definition set_syncedAt (v : Z) (s : processStatus) : processStatus :=
  mkProcessStatus (ps_ctx s) (ps_working s) (ps_pending s) (ps_active s) v (ps_startedAt s) (ps_terminatingAt s) (ps_terminatedAt s) (ps_finishedAt s) (ps_gracePeriod s) (ps_evicted s) (ps_finished s) (ps_errorCount s) (ps_lastError s) (ps_restartCount s) (ps_consecutiveFails s).
Definition set_startedAt (v : Z) (s : processStatus) : processStatus :=
  mkProcessStatus (ps_ctx s) (ps_working s) (ps_pending s) (ps_active s) (ps_syncedAt s) v (ps_terminatingAt s) (ps_terminatedAt s) (ps_finishedAt s) (ps_gracePeriod s) (ps_evicted s) (ps_finished s) (ps_errorCount s) (ps_lastError s) (ps_restartCount s) (ps_consecutiveFails s).
Definition set_terminatingAt (v : Z) (s : processStatus) : processStatus :=
  mkProcessStatus (ps_ctx s) (ps_working s) (ps_pending s) (ps_active s) (ps_syncedAt s) (ps_startedAt s) v (ps_terminatedAt s) (ps_finishedAt s) (ps_gracePeriod s) (ps_evicted s) (ps_finished s) (ps_errorCount s) (ps_lastError s) (ps_restartCount s) (ps_consecutiveFails s).
Definition set_terminatedAt (v : Z) (s : processStatus) : processStatus :=
  mkProcessStatus (ps_ctx s) (ps_working s) (ps_pending s) (ps_active s) (ps_syncedAt s) (ps_startedAt s) (ps_terminatingAt s) v (ps_finishedAt s) (ps_gracePeriod s) (ps_evicted s) (ps_finished s) (ps_errorCount s) (ps_lastError s) (ps_restartCount s) (ps_consecutiveFails s).
Definition set_finishedAt (v : Z) (s : processStatus) : processStatus :=
  mkProcessStatus (ps_ctx s) (ps_working s) (ps_pending s) (ps_active s) (ps_syncedAt s) (ps_startedAt s) (ps_terminatingAt s) (ps_terminatedAt s) v (ps_gracePeriod s) (ps_evicted s) (ps_finished s) (ps_errorCount s) (ps_lastError s) (ps_restartCount s) (ps_consecutiveFails s).
Definition set_gracePeriod (v : Z) (s : processStatus) : processStatus :=
  mkProcessStatus (ps_ctx s) (ps_working s) (ps_pending s) (ps_active s) (ps_syncedAt s) (ps_startedAt s) (ps_terminatingAt s) (ps_terminatedAt s) (ps_finishedAt s) v (ps_evicted s) (ps_finished s) (ps_errorCount s) (ps_lastError s) (ps_restartCount s) (ps_consecutiveFails s).
Definition set_evicted (v : bool) (s : processStatus) : processStatus :=
  mkProcessStatus (ps_ctx s) (ps_working s) (ps_pending s) (ps_active s) (ps_syncedAt s) (ps_startedAt s) (ps_terminatingAt s) (ps_terminatedAt s) (ps_finishedAt s) (ps_gracePeriod s) v (ps_finished s) (ps_errorCount s) (ps_lastError s) (ps_restartCount s) (ps_consecutiveFails s).
Definition set_finished (v : bool) (s : processStatus) : processStatus :=
  mkProcessStatus (ps_ctx s) (ps_working s) (ps_pending s) (ps_active s) (ps_syncedAt s) (ps_startedAt s) (ps_terminatingAt s) (ps_terminatedAt s) (ps_finishedAt s) (ps_gracePeriod s) (ps_evicted s) v (ps_errorCount s) (ps_lastError s) (ps_restartCount s) (ps_consecutiveFails s).
Definition set_errorCount (v : Z) (s : processStatus) : processStatus :=
  mkProcessStatus (ps_ctx s) (ps_working s) (ps_pending s) (ps_active s) (ps_syncedAt s) (ps_startedAt s) (ps_terminatingAt s) (ps_terminatedAt s) (ps_finishedAt s) (ps_gracePeriod s) (ps_evicted s) (ps_finished s) v (ps_lastError s) (ps_restartCount s) (ps_consecutiveFails s).
Definition set_lastError (v : option go_error) (s : processStatus) : processStatus :=
  mkProcessStatus (ps_ctx s) (ps_working s) (ps_pending s) (ps_active s) (ps_syncedAt s) (ps_startedAt s) (ps_terminatingAt s) (ps_terminatedAt s) (ps_finishedAt s) (ps_gracePeriod s) (ps_evicted s) (ps_finished s) (ps_errorCount s) v (ps_restartCount s) (ps_consecutiveFails s).
Definition set_consecutiveFails (v : Z) (s : processStatus) : processStatus :=
  mkProcessStatus (ps_ctx s) (ps_working s) (ps_pending s) (ps_active s) (ps_syncedAt s) (ps_startedAt s) (ps_terminatingAt s) (ps_terminatedAt s) (ps_finishedAt s) (ps_gracePeriod s) (ps_evicted s) (ps_finished s) (ps_errorCount s) (ps_lastError s) (ps_restartCount s) v.

Definition State (s : processStatus) : ProcessState :=
  if negb (IsZero (ps_finishedAt s)) then ProcessStateFinished
  else if negb (IsZero (ps_terminatedAt s)) then ProcessStateTerminated
  else if negb (IsZero (ps_terminatingAt s)) then ProcessStateTerminating
  else if negb (IsZero (ps_syncedAt s)) then ProcessStateSyncing
  else ProcessStateStarting.

Definition IsTerminating (s : processStatus) : bool := negb (IsZero (ps_terminatingAt s)).
Definition IsTerminated (s : processStatus) : bool := negb (IsZero (ps_terminatedAt s)).
Definition IsFinished (s : processStatus) : bool := negb (IsZero (ps_finishedAt s)).

Definition Healthy (s : processStatus) : bool :=
  (ps_errorCount s <? 5) && bool_decide (State s = ProcessStateSyncing).

(** What [GetProcessStatus] and [SyncKnownProcesses] report. *)
Record ProcessStatus := mkProcessStatusView {
  pst_State : ProcessState;
  pst_Healthy : bool;
  pst_LastSync : Z;
  pst_ErrorCount : Z;
  pst_LastError : option go_error;
  pst_RestartCount : Z }.

Definition status_view (s : processStatus) : ProcessStatus :=
  mkProcessStatusView (State s) (Healthy s) (ps_syncedAt s) (ps_errorCount s)
    (ps_lastError s) (ps_restartCount s).

(** ** Goroutines *)

Inductive sync_kind := KSync | KTerminating | KTerminated.

(** Where a worker is in [processWorkerLoop]: waiting on its channel, before the lock
    of [processUpdate] with the signal taken out of the channel, inside [executeSync] with the values [processUpdate] copied under the lock, inside a
    syncer call, before [completeWork], or about to signal after it. *)
Inductive worker_pc :=
  | WIdle
  | WGot
  | WExec (loc : nat) (update : ProcessUpdate) (state : ProcessState)
  | WSync (kind : sync_kind) (loc : nat) (update : ProcessUpdate)
  | WComplete (err : option go_error)
  | WSignal (ch : nat)
  | WExited.

Record worker := mkWorker {
  w_id : ProcessID;
  w_ch : nat;
  w_pc : worker_pc }.

(** Where the work queue consumer is in [processWorkQueue]. *)
Inductive consumer_pc :=
  | CIdle
  | CGot (id : ProcessID)
  | CSignal (ch : nat)
  | CExited.

(** [pm_store] and [pm_chans] hold the status objects and the channel buffers;
    [pm_closed] the completion channels that were closed. *)
Record ProcessManager := mkProcessManager {
  pm_statuses : gmap ProcessID nat;
  pm_updates : gmap ProcessID nat;
  pm_store : gmap nat processStatus;
  pm_chans : gmap nat bool;
  pm_next : nat;
  pm_workers : list worker;
  pm_consumer : consumer_pc;
  pm_queue : Q;
  pm_shutdown : bool;
  pm_closed : gset nat;
  pm_panicked : bool }.

Definition set_statuses (v : gmap ProcessID nat) (pm : ProcessManager) : ProcessManager :=
  mkProcessManager v (pm_updates pm) (pm_store pm) (pm_chans pm) (pm_next pm) (pm_workers pm) (pm_consumer pm) (pm_queue pm) (pm_shutdown pm) (pm_closed pm) (pm_panicked pm).
Definition set_updates (v : gmap ProcessID nat) (pm : ProcessManager) : ProcessManager :=
  mkProcessManager (pm_statuses pm) v (pm_store pm) (pm_chans pm) (pm_next pm) (pm_workers pm) (pm_consumer pm) (pm_queue pm) (pm_shutdown pm) (pm_closed pm) (pm_panicked pm).
Definition set_store (v : gmap nat processStatus) (pm : ProcessManager) : ProcessManager :=
  mkProcessManager (pm_statuses pm) (pm_updates pm) v (pm_chans pm) (pm_next pm) (pm_workers pm) (pm_consumer pm) (pm_queue pm) (pm_shutdown pm) (pm_closed pm) (pm_panicked pm).
Definition set_chans (v : gmap nat bool) (pm : ProcessManager) : ProcessManager :=
  mkProcessManager (pm_statuses pm) (pm_updates pm) (pm_store pm) v (pm_next pm) (pm_workers pm) (pm_consumer pm) (pm_queue pm) (pm_shutdown pm) (pm_closed pm) (pm_panicked pm).
Definition set_next (v : nat) (pm : ProcessManager) : ProcessManager :=
  mkProcessManager (pm_statuses pm) (pm_updates pm) (pm_store pm) (pm_chans pm) v (pm_workers pm) (pm_consumer pm) (pm_queue pm) (pm_shutdown pm) (pm_closed pm) (pm_panicked pm).
Definition set_workers (v : list worker) (pm : ProcessManager) : ProcessManager :=
  mkProcessManager (pm_statuses pm) (pm_updates pm) (pm_store pm) (pm_chans pm) (pm_next pm) v (pm_consumer pm) (pm_queue pm) (pm_shutdown pm) (pm_closed pm) (pm_panicked pm).
Definition set_consumer (v : consumer_pc) (pm : ProcessManager) : ProcessManager :=
  mkProcessManager (pm_statuses pm) (pm_updates pm) (pm_store pm) (pm_chans pm) (pm_next pm) (pm_workers pm) v (pm_queue pm) (pm_shutdown pm) (pm_closed pm) (pm_panicked pm).
Definition set_queue (v : Q) (pm : ProcessManager) : ProcessManager :=
  mkProcessManager (pm_statuses pm) (pm_updates pm) (pm_store pm) (pm_chans pm) (pm_next pm) (pm_workers pm) (pm_consumer pm) v (pm_shutdown pm) (pm_closed pm) (pm_panicked pm).
Definition set_shutdown (v : bool) (pm : ProcessManager) : ProcessManager :=
  mkProcessManager (pm_statuses pm) (pm_updates pm) (pm_store pm) (pm_chans pm) (pm_next pm) (pm_workers pm) (pm_consumer pm) (pm_queue pm) v (pm_closed pm) (pm_panicked pm).
Definition set_closed (v : gset nat) (pm : ProcessManager) : ProcessManager :=
  mkProcessManager (pm_statuses pm) (pm_updates pm) (pm_store pm) (pm_chans pm) (pm_next pm) (pm_workers pm) (pm_consumer pm) (pm_queue pm) (pm_shutdown pm) v (pm_panicked pm).
Definition set_panicked (v : bool) (pm : ProcessManager) : ProcessManager :=
  mkProcessManager (pm_statuses pm) (pm_updates pm) (pm_store pm) (pm_chans pm) (pm_next pm) (pm_workers pm) (pm_consumer pm) (pm_queue pm) (pm_shutdown pm) (pm_closed pm) v.

(** ** Configuration (options.go, [NewProcessManager]) *)

(** Whether a syncer is set, the resync interval and the backoff period. *)
Record PMConfig := mkPMConfig {
  pmc_syncer : bool;
  pmc_resyncInterval : Z;
  pmc_backOffPeriod : Z }.

Definition default_PMConfig : PMConfig := mkPMConfig false (30 * Second) (5 * Second).

Definition Option := PMConfig → PMConfig.

Definition WithSyncer : Option := λ c,
  mkPMConfig true (pmc_resyncInterval c) (pmc_backOffPeriod c).
Definition WithResyncInterval (d : Z) : Option := λ c,
  mkPMConfig (pmc_syncer c) d (pmc_backOffPeriod c).
Definition WithBackOffPeriod (d : Z) : Option := λ c,
  mkPMConfig (pmc_syncer c) (pmc_resyncInterval c) d.

(** The options in order, and the manager with its consumer started. *)
Definition NewProcessManager (opts : list Option) : PMConfig * ProcessManager :=
  (foldl (λ c opt, opt c) default_PMConfig opts,
   mkProcessManager ∅ ∅ ∅ ∅ 0 [] CIdle dq_new false ∅ false).

Context (pmc : PMConfig).

(** ** Channels *)

(** A non-blocking send on a one-slot channel. *)
Definition chan_signal (ch : nat) (pm : ProcessManager) : ProcessManager :=
  set_chans (<[ch := true]> (pm_chans pm)) pm.

Definition status_put (loc : nat) (s : processStatus) (pm : ProcessManager) : ProcessManager :=
  set_store (<[loc := s]> (pm_store pm)) pm.

Definition worker_goto (w : nat) (pc : worker_pc) (pm : ProcessManager) : ProcessManager :=
  match pm_workers pm !! w with
  | Some wk => set_workers (<[w := mkWorker (w_id wk) (w_ch wk) pc]> (pm_workers pm)) pm
  | None => pm
  end.

(** ** Submitting updates *)

(** [status.cancelFn()] when [cancelFn] is set. *)
Definition cancel_status (s : processStatus) : processStatus :=
  match ps_ctx s with Some _ => set_ctx (Some true) s | None => s end.

Definition handleTerminationRequest (now : Z) (opts : option TerminateOptions)
    (s : processStatus) : processStatus :=
  let alreadyTerminating := IsTerminating s in
  let s := if IsZero (ps_terminatingAt s) then set_terminatingAt now s else s in
  let s :=
    match opts with
    | Some (mkTerminateOptions _ evict (Some gracePeriod)) =>
        let s :=
          if (ps_gracePeriod s =? 0) || (gracePeriod <? ps_gracePeriod s) then
            let s := set_gracePeriod gracePeriod s in
            if negb alreadyTerminating then cancel_status s else s
          else s in
        if evict then set_evicted true s else s
    | _ => if ps_gracePeriod s =? 0 then set_gracePeriod 10 s else s
    end in
  if negb alreadyTerminating then cancel_status s else s.

(** The status object of an id, created when there is none. *)
Definition get_or_create_status (id : ProcessID) (pm : ProcessManager)
    : nat * ProcessManager :=
  match pm_statuses pm !! id with
  | Some loc => (loc, pm)
  | None =>
      let loc := pm_next pm in
      (loc, set_next (S loc)
              (set_statuses (<[id := loc]> (pm_statuses pm))
                 (status_put loc new_processStatus pm)))
  end.

(** The channel of an id, created with its worker when there is none. *)
Definition get_or_create_chan (id : ProcessID) (pm : ProcessManager)
    : nat * ProcessManager :=
  match pm_updates pm !! id with
  | Some ch => (ch, pm)
  | None =>
      let ch := pm_next pm in
      (ch, set_next (S ch)
             (set_workers (pm_workers pm ++ [mkWorker id ch WIdle])
                (set_updates (<[id := ch]> (pm_updates pm))
                   (set_chans (<[ch := false]> (pm_chans pm)) pm))))
  end.

Definition UpdateProcess (now : Z) (update : ProcessUpdate) (pm : ProcessManager)
    : ProcessManager :=
  let update :=
    if IsZero (pu_StartTime update) then set_StartTime now update else update in
  let '(loc, pm) := get_or_create_status (pu_ID update) pm in
  match pm_store pm !! loc with
  | None => pm
  | Some s =>
      if IsFinished s then pm
      else
        let s :=
          if bool_decide (pu_UpdateType update = UpdateTypeTerminate)
          then handleTerminationRequest now (pu_TerminateOptions update) s
          else s in
        let pm := status_put loc (set_pending (Some update) s) pm in
        let '(ch, pm) := get_or_create_chan (pu_ID update) pm in
        chan_signal ch pm
  end.

(** ** The work queue consumer *)

(** One [Dequeue] of the loop of [processWorkQueue]. *)
Definition consumer_dequeue (now : Z) (pm : ProcessManager) : ProcessManager :=
  let '(o, q) := dq_dequeue now (pm_queue pm) in
  let pm := set_queue q pm in
  match o with
  | Some id => set_consumer (CGot id) pm
  | None => set_consumer CIdle pm
  end.

(** Its critical section for the dequeued id: a synthetic sync update when
    nothing is pending. *)
Definition consumer_lock (now : Z) (id : ProcessID) (pm : ProcessManager)
    : ProcessManager :=
  match pm_statuses pm !! id with
  | None => set_consumer CIdle pm
  | Some loc =>
      match pm_updates pm !! id, pm_store pm !! loc with
      | Some ch, Some s =>
          let s :=
            match ps_pending s with
            | None =>
                let config :=
                  match ps_active s with Some a => pu_Config a | None => None end in
                set_pending (Some (mkProcessUpdate id UpdateTypeSync now config None)) s
            | Some _ => s
            end in
          set_consumer (CSignal ch) (status_put loc s pm)
      | _, _ => set_consumer CIdle pm
      end
  end.

(** The send after the critical section. *)
Definition consumer_signal (ch : nat) (pm : ProcessManager) : ProcessManager :=
  set_consumer CIdle (chan_signal ch pm).

(** ** The worker *)

Definition ctx_live (pm : ProcessManager) (s : processStatus) : bool :=
  match ps_ctx s with Some c => negb (c || pm_shutdown pm) | None => false end.

(** The critical section of [processUpdate]: what the worker does next. *)
Definition processUpdate_lock (w : nat) (id : ProcessID) (pm : ProcessManager)
    : ProcessManager :=
  match pm_statuses pm !! id with
  | None => worker_goto w WExited pm
  | Some loc =>
      match pm_store pm !! loc with
      | None => worker_goto w WExited pm
      | Some s =>
          if IsFinished s then worker_goto w WExited pm
          else if ps_working s then worker_goto w WIdle pm
          else
            match ps_pending s with
            | None => worker_goto w WIdle pm
            | Some update =>
                let s := set_working true (set_pending None (set_active (Some update) s)) in
                let s := if ctx_live pm s then s else set_ctx (Some (pm_shutdown pm)) s in
                worker_goto w (WExec loc update (State s)) (status_put loc s pm)
            end
      end
  end.

(** [executeSync] up to the call of the syncer. *)
Definition executeSync (w : nat) (loc : nat) (update : ProcessUpdate) (state : ProcessState)
    (pm : ProcessManager) : ProcessManager :=
  if negb (pmc_syncer pmc) then worker_goto w (WComplete (Some ErrNoSyncer)) pm
  else
    match state with
    | ProcessStateStarting | ProcessStateSyncing =>
        let isTerminating :=
          match pm_store pm !! loc with Some s => IsTerminating s | None => false end in
        worker_goto w (WSync (if isTerminating then KTerminating else KSync) loc update) pm
    | ProcessStateTerminating => worker_goto w (WSync KTerminating loc update) pm
    | ProcessStateTerminated => worker_goto w (WSync KTerminated loc update) pm
    | ProcessStateFinished => worker_goto w (WComplete None) pm
    end.

(** [syncProcess] after [SyncProcess] returned [(terminal, err)]. *)
Definition syncProcess (now : Z) (terminal : bool) (err : option go_error)
    (s : processStatus) : processStatus :=
  let s :=
    match err with
    | Some e => set_lastError (Some e) (set_errorCount (wrap64 (ps_errorCount s + 1)) s)
    | None =>
        let s := set_syncedAt now (set_lastError None (set_errorCount 0 s)) in
        if IsZero (ps_startedAt s) then set_startedAt now s else s
    end in
  if terminal then
    let s := set_terminatingAt now s in
    if ps_gracePeriod s =? 0 then set_gracePeriod 10 s else s
  else s.

(** [syncTerminating] after [SyncTerminatingProcess] returned [err]. *)
Definition syncTerminating (now : Z) (id : ProcessID) (update : ProcessUpdate)
    (err : option go_error) (s : processStatus) : processStatus :=
  match err with
  | Some e => set_lastError (Some e) (set_errorCount (wrap64 (ps_errorCount s + 1)) s)
  | None =>
      let s := set_lastError None (set_errorCount 0 (set_terminatedAt now s)) in
      set_pending
        (Some (mkProcessUpdate id UpdateTypeSync now (pu_Config update) None)) s
  end.

(** Its [close(CompletedCh)]; closing a closed channel panics. *)
Definition close_completed (update : ProcessUpdate) (pm : ProcessManager) : ProcessManager :=
  match pu_TerminateOptions update with
  | Some (mkTerminateOptions (Some ch) _ _) =>
      if bool_decide (ch ∈ pm_closed pm) then set_panicked true pm
      else set_closed ({[ch]} ∪ pm_closed pm) pm
  | _ => pm
  end.

(** [syncTerminated] after [SyncTerminatedProcess] returned [err]. *)
Definition syncTerminated (now : Z) (err : option go_error) (s : processStatus)
    : processStatus :=
  match err with
  | Some e => set_lastError (Some e) (set_errorCount (wrap64 (ps_errorCount s + 1)) s)
  | None =>
      set_lastError None (set_errorCount 0 (set_finished true (set_finishedAt now s)))
  end.

(** The syncer call of a worker returns. *)
Definition sync_return (w : nat) (id : ProcessID) (now : Z) (terminal : bool) (err : option go_error)
    (kind : sync_kind) (loc : nat) (update : ProcessUpdate) (pm : ProcessManager)
    : ProcessManager :=
  match pm_store pm !! loc with
  | None => pm
  | Some s =>
      let pm :=
        match kind with
        | KSync => status_put loc (syncProcess now terminal err s) pm
        | KTerminating =>
            let pm := status_put loc (syncTerminating now id update err s) pm in
            match err with None => close_completed update pm | Some _ => pm end
        | KTerminated => status_put loc (syncTerminated now err s) pm
        end in
      worker_goto w (WComplete err) pm
  end.

(** The delay of [completeWork]; [r] is the random number of [Jitter]. *)
Definition requeue_delay (r : float64) (syncErr : option go_error) (s : processStatus) : Z :=
  match syncErr with
  | Some e =>
      if bool_decide (e = ErrCanceled ∨ e = ErrDeadlineExceeded)
      then Jitter ovf r (1 * Second) f64_half
      else ExponentialBackoff ovf r (ps_consecutiveFails s) (1 * Second)
             (pmc_backOffPeriod pmc)
  | None =>
      if bool_decide (State s = ProcessStateTerminated) then 0
      else Jitter ovf r (pmc_resyncInterval pmc) f64_tenth
  end.

(** [completeWork]: the critical section; the worker then signals itself when an
    update is pending, and goes back to its loop otherwise. *)
Definition completeWork (w : nat) (now : Z) (r : float64) (id : ProcessID)
    (syncErr : option go_error) (pm : ProcessManager) : ProcessManager :=
  match pm_statuses pm !! id with
  | None => worker_goto w WIdle pm
  | Some loc =>
      match pm_store pm !! loc with
      | None => worker_goto w WIdle pm
      | Some s =>
          let s := set_working false s in
          if IsFinished s then worker_goto w WIdle (status_put loc s pm)
          else
            let s :=
              match syncErr with
              | Some _ => set_consecutiveFails (wrap64 (ps_consecutiveFails s + 1)) s
              | None => set_consecutiveFails 0 s
              end in
            let pm := status_put loc s pm in
            let pm := set_queue (dq_enqueue now id (requeue_delay r syncErr s) (pm_queue pm)) pm in
            match ps_pending s, pm_updates pm !! id with
            | Some _, Some ch => worker_goto w (WSignal ch) pm
            | _, _ => worker_goto w WIdle pm
            end
      end
  end.

(** ** Queries, reconciliation and shutdown *)

Definition get_status (id : ProcessID) (pm : ProcessManager) : option processStatus :=
  match pm_statuses pm !! id with Some loc => pm_store pm !! loc | None => None end.

Definition GetProcessStatus (id : ProcessID) (pm : ProcessManager) : option ProcessStatus :=
  status_view <$> get_status id pm.

Definition IsProcessTerminated (id : ProcessID) (pm : ProcessManager) : bool :=
  match get_status id pm with Some s => IsTerminated s | None => false end.

Definition IsProcessFinished (id : ProcessID) (pm : ProcessManager) : bool :=
  match get_status id pm with Some s => IsFinished s | None => false end.

(** The body of the loop of [SyncKnownProcesses] for one entry of the map. *)
Definition sync_known_one (now : Z) (desired : gset ProcessID) (entry : ProcessID * nat)
    (acc : ProcessManager * gmap ProcessID ProcessStatus)
    : ProcessManager * gmap ProcessID ProcessStatus :=
  let '(id, loc) := entry in
  let '(pm, result) := acc in
  match pm_store pm !! loc with
  | None => (pm, result)
  | Some s =>
      let orphan := negb (bool_decide (id ∈ desired)) in
      if IsFinished s then
        if orphan then
          (set_updates (delete id (pm_updates pm))
             (set_statuses (delete id (pm_statuses pm)) pm), result)
        else (pm, result)
      else
        let s :=
          if orphan && negb (IsTerminating s)
          then handleTerminationRequest now None s else s in
        (status_put loc s pm, <[id := status_view s]> result)
  end.

(** Go iterates over the map in an unspecified order; an iteration only touches
    the entries of its own id. *)
Definition SyncKnownProcesses (now : Z) (desiredIDs : list ProcessID) (pm : ProcessManager)
    : ProcessManager * gmap ProcessID ProcessStatus :=
  foldr (sync_known_one now (list_to_set desiredIDs)) (pm, ∅) (map_to_list (pm_statuses pm)).

Record ProcessHealth := mkProcessHealth {
  ph_State : ProcessState;
  ph_Healthy : bool;
  ph_Uptime : Z;
  ph_LastSync : Z;
  ph_ErrorCount : Z;
  ph_RestartCount : Z }.

Record HealthCheck := mkHealthCheck {
  hc_TotalProcesses : Z;
  hc_RunningProcesses : Z;
  hc_TerminatingProcesses : Z;
  hc_FailedProcesses : Z;
  hc_WorkQueueDepth : Z;
  hc_Processes : gmap ProcessID ProcessHealth }.

Definition process_health (now : Z) (s : processStatus) : ProcessHealth :=
  let uptime :=
    if negb (IsZero (ps_startedAt s)) then
      if IsZero (ps_finishedAt s) then now - ps_startedAt s
      else ps_finishedAt s - ps_startedAt s
    else 0 in
  mkProcessHealth (State s) (Healthy s) uptime (ps_syncedAt s) (ps_errorCount s)
    (ps_restartCount s).

Definition health_one (now : Z) (pm : ProcessManager) (entry : ProcessID * nat)
    (h : HealthCheck) : HealthCheck :=
  let '(id, loc) := entry in
  match pm_store pm !! loc with
  | None => h
  | Some s =>
      let state := State s in
      mkHealthCheck (hc_TotalProcesses h + 1)
        (hc_RunningProcesses h
         + (if bool_decide (state = ProcessStateSyncing) then 1 else 0))
        (hc_TerminatingProcesses h
         + (if bool_decide (state = ProcessStateTerminating) then 1 else 0))
        (hc_FailedProcesses h + (if 5 <? ps_errorCount s then 1 else 0))
        (hc_WorkQueueDepth h)
        (<[id := process_health now s]> (hc_Processes h))
  end.

Definition Health (now : Z) (pm : ProcessManager) : HealthCheck :=
  let h := foldr (health_one now pm) (mkHealthCheck 0 0 0 0 0 ∅)
             (map_to_list (pm_statuses pm)) in
  mkHealthCheck (hc_TotalProcesses h) (hc_RunningProcesses h) (hc_TerminatingProcesses h)
    (hc_FailedProcesses h) (Z.of_nat (dq_len (pm_queue pm))) (hc_Processes h).

(** [Shutdown] up to its wait: cancel, then one termination request per process. *)
Definition Shutdown (now : Z) (pm : ProcessManager) : ProcessManager :=
  let pm := set_shutdown true pm in
  foldl (λ pm id, UpdateProcess now (mkProcessUpdate id UpdateTypeTerminate 0 None None) pm)
    pm (map_to_list (pm_statuses pm)).*1.

(** The wait of [Shutdown] is over. *)
Definition all_stopped (pm : ProcessManager) : bool :=
  forallb (λ w, match w_pc w with WExited => true | _ => false end) (pm_workers pm)
  && match pm_consumer pm with CExited => true | _ => false end.

(** ** The whole manager as a labelled transition system *)

Inductive label :=
  | LUpdate (now : Z) (update : ProcessUpdate)
  | LReceive (w : nat)
  | LLock (w : nat)
  | LExecute (w : nat)
  | LSyncReturn (w : nat) (now : Z) (terminal : bool) (err : option go_error)
  | LComplete (w : nat) (now : Z) (r : float64)
  | LSignal (w : nat)
  | LStop (w : nat)
  | LConsDequeue (now : Z)
  | LConsLock (now : Z)
  | LConsSignal
  | LConsStop
  | LSyncKnown (now : Z) (desired : list ProcessID)
  | LCancel.

(** Clock readings are after Go's zero time. *)
Definition label_now (l : label) : option Z :=
  match l with
  | LUpdate now _ | LSyncReturn _ now _ _ | LComplete _ now _
  | LConsDequeue now | LConsLock now | LSyncKnown now _ => Some now
  | _ => None
  end.

Definition clock_ok (l : label) : bool :=
  match label_now l with Some now => 0 <? now | None => true end.

(** The receive of a signal empties the channel. *)
Definition chan_take (ch : nat) (pm : ProcessManager) : ProcessManager :=
  set_chans (<[ch := false]> (pm_chans pm)) pm.

Definition exec_worker (l : label) (w : nat) (wk : worker) (pm : ProcessManager)
    : option ProcessManager :=
  match l, w_pc wk with
  | LReceive _, WIdle =>
      if pm_chans pm !! w_ch wk is Some true
      then Some (worker_goto w WGot (chan_take (w_ch wk) pm))
      else None
  | LLock _, WGot => Some (processUpdate_lock w (w_id wk) pm)
  | LExecute _, WExec loc update state => Some (executeSync w loc update state pm)
  | LSyncReturn _ now terminal err, WSync kind loc update =>
      Some (sync_return w (w_id wk) now terminal err kind loc update pm)
  | LComplete _ now r, WComplete err => Some (completeWork w now r (w_id wk) err pm)
  | LSignal _, WSignal ch => Some (worker_goto w WIdle (chan_signal ch pm))
  | LStop _, WIdle => if pm_shutdown pm then Some (worker_goto w WExited pm) else None
  | _, _ => None
  end.

Definition exec_any (l : label) (pm : ProcessManager) : option ProcessManager :=
  match l with
  | LUpdate now update => Some (UpdateProcess now update pm)
  | LReceive w | LLock w | LExecute w | LSyncReturn w _ _ _ | LComplete w _ _ | LSignal w | LStop w =>
      wk ← pm_workers pm !! w; exec_worker l w wk pm
  | LConsDequeue now =>
      if pm_consumer pm is CIdle then Some (consumer_dequeue now pm) else None
  | LConsLock now =>
      if pm_consumer pm is CGot id then Some (consumer_lock now id pm) else None
  | LConsSignal =>
      if pm_consumer pm is CSignal ch then Some (consumer_signal ch pm) else None
  | LConsStop =>
      if pm_consumer pm is CIdle
      then if pm_shutdown pm then Some (set_consumer CExited pm) else None else None
  | LSyncKnown now desired => Some (SyncKnownProcesses now desired pm).1
  | LCancel => Some (set_shutdown true pm)
  end.

Definition exec (l : label) (pm : ProcessManager) : option ProcessManager :=
  if pm_panicked pm || negb (clock_ok l) then None else exec_any l pm.

Definition run : list label → ProcessManager → option ProcessManager := run_labels exec.

Definition pm_init : ProcessManager := (NewProcessManager []).2.

Inductive reachable : ProcessManager → Prop :=
  | reach_init : reachable pm_init
  | reach_step pm l pm' : reachable pm → exec l pm = Some pm' → reachable pm'.

(** Reachable when [SyncKnownProcesses] is never called. *)
Inductive reachable_static : ProcessManager → Prop :=
  | reach_static_init : reachable_static pm_init
  | reach_static_step pm l pm' :
      reachable_static pm → (∀ now ids, l ≠ LSyncKnown now ids) →
      exec l pm = Some pm' → reachable_static pm'.
End ProcMgr.
