(* ===== verification/ProcMgrInv.v ===== *)
(** * Lifecycle and structure of the process manager

    The invariants that hold of every reachable state of [ProcMgr]: a status
    object only moves forward through its lifecycle, its timestamps are set in
    order, the maps and the store fit together, and a worker inside a syncer call
    is entitled to it. *)

From S2P Require Import Prelude WorkQueue Backoff ProcMgr.
Import GoFloat.
Local Open Scope Z_scope.

Section Lifecycle.
Context {Cfg : Type} {Q : Type} `{!DelayQueue Q} (ovf : Z) (pmc : PMConfig).

Implicit Types (pm : @ProcessManager Cfg Q) (s : @processStatus Cfg) (w loc ch : nat).

Abbreviation exec := (exec (Cfg := Cfg) (Q := Q) ovf pmc).
Abbreviation exec_any := (exec_any (Cfg := Cfg) (Q := Q) ovf pmc).
Abbreviation reachable := (reachable (Cfg := Cfg) (Q := Q) ovf pmc).

(** ** The order of the lifecycle *)

Definition rank (st : ProcessState) : Z :=
  match st with
  | ProcessStateStarting => 0
  | ProcessStateSyncing => 1
  | ProcessStateTerminating => 2
  | ProcessStateTerminated => 3
  | ProcessStateFinished => 4
  end.

(** No timestamp of [s] that is set is cleared in [s']. *)
Definition evolves s s' : Prop :=
  (ps_syncedAt s ≠ 0 → ps_syncedAt s' ≠ 0) ∧
  (ps_startedAt s ≠ 0 → ps_startedAt s' ≠ 0) ∧
  (ps_terminatingAt s ≠ 0 → ps_terminatingAt s' ≠ 0) ∧
  (ps_terminatedAt s ≠ 0 → ps_terminatedAt s' ≠ 0) ∧
  (ps_finishedAt s ≠ 0 → ps_finishedAt s' ≠ 0).

(** Only the termination of a process that terminates can finish it. *)
Definition ts_ok s : Prop :=
  (ps_finishedAt s ≠ 0 → ps_terminatedAt s ≠ 0) ∧
  (ps_terminatedAt s ≠ 0 → ps_terminatingAt s ≠ 0) ∧
  (ps_finished s = true ↔ ps_finishedAt s ≠ 0).

(** A grace period that is set is kept. *)
Definition grace_kept s s' : Prop :=
  ps_gracePeriod s ≠ 0 → ps_gracePeriod s' = ps_gracePeriod s.

#[local] Instance evolves_preorder : PreOrder evolves.
Proof. split; unfold evolves; [intros ?|intros ???]; tauto. Qed.

#[local] Instance grace_kept_preorder : PreOrder grace_kept.
Proof. split; unfold grace_kept; [done|]. intros ??? H1 H2 Hs.
  rewrite H2; [by apply H1|]. by rewrite H1. Qed.

Lemma IsTerminating_true s : IsTerminating s = true ↔ ps_terminatingAt s ≠ 0.
Proof. unfold IsTerminating. rewrite negb_true_iff. apply IsZero_false. Qed.
Lemma IsTerminated_true s : IsTerminated s = true ↔ ps_terminatedAt s ≠ 0.
Proof. unfold IsTerminated. rewrite negb_true_iff. apply IsZero_false. Qed.
Lemma IsFinished_true s : IsFinished s = true ↔ ps_finishedAt s ≠ 0.
Proof. unfold IsFinished. rewrite negb_true_iff. apply IsZero_false. Qed.

Lemma rank_State_mono s s' : evolves s s' → rank (State s) ≤ rank (State s').
Proof.
  intros (H1 & H2 & H3 & H4 & H5). unfold State.
  repeat case_match; bool_to_prop; simpl; try lia; tauto.
Qed.

Lemma State_finished s : State s = ProcessStateFinished ↔ ps_finishedAt s ≠ 0.
Proof.
  unfold State. repeat case_match; bool_to_prop; split; intros; try done; tauto.
Qed.

(** The timestamps a status transformer leaves alone. *)
Definition same_stamps s s' : Prop :=
  ps_syncedAt s' = ps_syncedAt s ∧ ps_startedAt s' = ps_startedAt s ∧
  ps_terminatingAt s' = ps_terminatingAt s ∧ ps_terminatedAt s' = ps_terminatedAt s ∧
  ps_finishedAt s' = ps_finishedAt s ∧ ps_finished s' = ps_finished s.

Lemma same_stamps_evolves s s' : same_stamps s s' → evolves s s'.
Proof. unfold same_stamps, evolves. intuition congruence. Qed.

Lemma same_stamps_ts_ok s s' : same_stamps s s' → ts_ok s → ts_ok s'.
Proof.
  unfold same_stamps, ts_ok. intros (_ & _ & -> & -> & -> & ->). done.
Qed.

(** ** The termination request *)

(** [handleTerminationRequest] only starts the termination; it touches no other
    timestamp, keeps the pending update and the [working] flag. *)
Lemma handleTerminationRequest_frame now opts s :
  0 < now →
  let s' := handleTerminationRequest now opts s in
  ps_syncedAt s' = ps_syncedAt s ∧ ps_startedAt s' = ps_startedAt s ∧
  ps_terminatingAt s' = (if IsTerminating s then ps_terminatingAt s else now) ∧
  ps_terminatedAt s' = ps_terminatedAt s ∧ ps_finishedAt s' = ps_finishedAt s ∧
  ps_finished s' = ps_finished s ∧ ps_working s' = ps_working s ∧
  ps_pending s' = ps_pending s.
Proof.
  intros Hnow. destruct s. unfold handleTerminationRequest, IsTerminating, cancel_status.
  destruct opts as [[? [] [g|]]|]; simpl; repeat (case_match; simpl in *); bool_to_prop;
    simplify_eq/=; by split_and!.
Qed.

Lemma handleTerminationRequest_evolves now opts s :
  0 < now → evolves s (handleTerminationRequest now opts s).
Proof.
  intros Hnow. unfold evolves. destruct (handleTerminationRequest_frame now opts s Hnow)
    as (-> & -> & -> & -> & -> & _).
  split_and!; try done. intros ?. case_match; lia.
Qed.

Lemma handleTerminationRequest_ts_ok now opts s :
  0 < now → ts_ok s → ts_ok (handleTerminationRequest now opts s).
Proof.
  intros Hnow (H1 & H2 & H3).
  destruct (handleTerminationRequest_frame now opts s Hnow)
    as (_ & _ & Ht & H4 & H5 & H6 & _). unfold ts_ok. rewrite Ht, H4, H5, H6.
  split_and!; [done|case_match; [done|lia]|done].
Qed.

Lemma handleTerminationRequest_grace now opts s :
  0 < now →
  ps_gracePeriod (handleTerminationRequest now opts s) =
  match opts with
  | Some (mkTerminateOptions _ _ (Some g)) =>
      if (ps_gracePeriod s =? 0) || (g <? ps_gracePeriod s) then g else ps_gracePeriod s
  | _ => if ps_gracePeriod s =? 0 then 10 else ps_gracePeriod s
  end.
Proof.
  intros Hnow. destruct s. unfold handleTerminationRequest, IsTerminating, cancel_status.
  destruct opts as [[? [] [g|]]|]; simpl; repeat (case_match; simpl in *); done.
Qed.

(** ** What a step does to the status objects *)

(** Every status object of [pm] is still there in [pm'], related by [R]. *)
Definition pm_rel (R : processStatus → processStatus → Prop) pm pm' : Prop :=
  ∀ loc s, pm_store pm !! loc = Some s → ∃ s', pm_store pm' !! loc = Some s' ∧ R s s'.

Lemma pm_rel_same_store (R : relation processStatus) `{!Reflexive R} pm pm' :
  pm_store pm' = pm_store pm → pm_rel R pm pm'.
Proof. intros E loc s Hs. exists s. rewrite E. done. Qed.

Lemma pm_rel_trans (R : relation processStatus) `{!Transitive R} pm1 pm2 pm3 :
  pm_rel R pm1 pm2 → pm_rel R pm2 pm3 → pm_rel R pm1 pm3.
Proof.
  intros H1 H2 loc s (s2 & Hs2 & HR)%H1. apply H2 in Hs2 as (s3 & Hs3 & HR').
  exists s3. split; [done|]. by transitivity s2.
Qed.

Lemma pm_rel_put (R : relation processStatus) `{!Reflexive R} pm pm' loc s s' :
  pm_store pm !! loc = Some s → R s s' → pm_store pm' = <[loc := s']> (pm_store pm) →
  pm_rel R pm pm'.
Proof.
  intros Hs HR E loc' s0 Hs0. rewrite E. destruct (decide (loc = loc')) as [<-|Hne].
  - rewrite lookup_insert_eq. simplify_eq. eauto.
  - rewrite lookup_insert_ne by done. eauto.
Qed.

Lemma store_worker_goto w pc pm : pm_store (worker_goto w pc pm) = pm_store pm.
Proof. unfold worker_goto. by case_match. Qed.

Lemma store_close_completed u pm : pm_store (close_completed u pm) = pm_store pm.
Proof. unfold close_completed. repeat case_match; done. Qed.

Definition is_update (l : @label Cfg) : bool :=
  match l with LUpdate _ _ => true | _ => false end.
Definition is_sync_return (l : @label Cfg) : bool :=
  match l with LSyncReturn _ _ _ _ => true | _ => false end.

(** The labels other than the submission of an update, for any preorder that
    contains the status transformers of the source. *)
Section Relation.
Context (R : relation (@processStatus Cfg)) `{!PreOrder R}.
Hypothesis R_pending : ∀ s o, R s (set_pending o s).
Hypothesis R_active : ∀ s o, R s (set_active o s).
Hypothesis R_working : ∀ s b, R s (set_working b s).
Hypothesis R_ctx : ∀ s o, R s (set_ctx o s).
Hypothesis R_fails : ∀ s n, R s (set_consecutiveFails n s).
Hypothesis R_sync : ∀ s now t e, 0 < now → R s (syncProcess now t e s).
Hypothesis R_terminating : ∀ s now id u e, 0 < now → R s (syncTerminating now id u e s).
Hypothesis R_terminated : ∀ s now e, 0 < now → R s (syncTerminated now e s).
Hypothesis R_orphan : ∀ s now, 0 < now → R s (handleTerminationRequest now None s).

Lemma rel_same pm pm' : pm_store pm' = pm_store pm → pm_rel R pm pm'.
Proof. apply (pm_rel_same_store R). Qed.
Lemma rel_put pm pm' loc s s' :
  pm_store pm !! loc = Some s → R s s' → pm_store pm' = <[loc := s']> (pm_store pm) →
  pm_rel R pm pm'.
Proof. apply (pm_rel_put R). Qed.
Lemma rel_trans pm1 pm2 pm3 : pm_rel R pm1 pm2 → pm_rel R pm2 pm3 → pm_rel R pm1 pm3.
Proof. apply (pm_rel_trans R). Qed.

Lemma rel_sync_known_one now desired e pm m :
  0 < now → pm_rel R pm (sync_known_one now desired e (pm, m)).1.
Proof.
  intros Hnow. destruct e as [id loc]. simpl.
  destruct (pm_store pm !! loc) as [s|] eqn:Hs; [|by apply rel_same].
  destruct (IsFinished s); [case_match; by apply rel_same|]. simpl.
  eapply rel_put; [done| |done]. case_match; [by apply R_orphan|done].
Qed.

Lemma rel_SyncKnown now ids pm :
  0 < now → pm_rel R pm (SyncKnownProcesses now ids pm).1.
Proof.
  intros Hnow. unfold SyncKnownProcesses. generalize (map_to_list (pm_statuses pm)).
  intros l. induction l as [|e l IH]; [by apply rel_same|].
  cbn [foldr]. destruct (foldr _ _ l) as [pm1 m1] eqn:E.
  eapply rel_trans; [exact IH|]. by apply rel_sync_known_one.
Qed.

Lemma rel_processUpdate w id pm : pm_rel R pm (processUpdate_lock w id pm).
Proof.
  unfold processUpdate_lock.
  destruct (pm_statuses pm !! id) as [loc|];
    [|apply rel_same, store_worker_goto].
  destruct (pm_store pm !! loc) as [s|] eqn:Hs;
    [|apply rel_same, store_worker_goto].
  repeat case_match; try (apply rel_same, store_worker_goto);
    (eapply rel_put; [done| |rewrite store_worker_goto; done]).
  - etrans; [apply R_active|]. etrans; [apply R_pending|]. apply R_working.
  - etrans; [apply R_active|]. etrans; [apply R_pending|].
    etrans; [apply R_working|]. apply R_ctx.
Qed.

Lemma rel_completeWork w now r id e pm :
  pm_rel R pm (completeWork ovf pmc w now r id e pm).
Proof.
  unfold completeWork.
  destruct (pm_statuses pm !! id) as [loc|];
    [|apply rel_same, store_worker_goto].
  destruct (pm_store pm !! loc) as [s|] eqn:Hs;
    [|apply rel_same, store_worker_goto].
  case_match.
  { eapply rel_put; [done| |rewrite store_worker_goto; done]. apply R_working. }
  destruct e; repeat case_match;
    (eapply rel_put; [done| |rewrite store_worker_goto; done]);
    (etrans; [apply R_working|apply R_fails]).
Qed.

Lemma rel_sync_return w id now t e k loc u pm :
  0 < now → pm_rel R pm (sync_return w id now t e k loc u pm).
Proof.
  intros Hnow. unfold sync_return.
  destruct (pm_store pm !! loc) as [s|] eqn:Hs; [|by apply rel_same].
  destruct k.
  - eapply rel_put; [done| |rewrite store_worker_goto; done]. by apply R_sync.
  - eapply rel_put; [done| |rewrite store_worker_goto; case_match;
      rewrite ?store_close_completed; done]. by apply R_terminating.
  - eapply rel_put; [done| |rewrite store_worker_goto; done]. by apply R_terminated.
Qed.

Lemma rel_consumer_lock now id pm : pm_rel R pm (consumer_lock now id pm).
Proof.
  unfold consumer_lock. repeat case_match; try by apply rel_same.
  all: eapply rel_put; [done| |done]; first [apply R_pending|done].
Qed.

(** The steps that neither submit an update nor return from the syncer. *)
Lemma rel_exec_quiet l pm pm' :
  clock_ok l = true → is_update l = false → is_sync_return l = false →
  exec_any l pm = Some pm' → pm_rel R pm pm'.
Proof.
  intros Hclk Hnu Hns He. unfold clock_ok in Hclk.
  destruct l; simpl in *; try done;
    try (destruct (pm_workers pm !! w) as [wk|]; simpl in He; [|done];
         unfold exec_worker in He; destruct (w_pc wk); try done).
  - case_match; [|done]. case_match; [|done]. simplify_eq.
    apply rel_same. by rewrite store_worker_goto.
  - simplify_eq. apply rel_processUpdate.
  - simplify_eq. apply rel_same.
    unfold executeSync. repeat case_match; by rewrite store_worker_goto.
  - simplify_eq. apply rel_completeWork.
  - simplify_eq. apply rel_same. by rewrite store_worker_goto.
  - case_match; [|done]. simplify_eq.
    apply rel_same. by rewrite store_worker_goto.
  - case_match; try done. simplify_eq. apply rel_same.
    unfold consumer_dequeue. by repeat case_match.
  - case_match; try done. simplify_eq. apply rel_consumer_lock.
  - case_match; try done. simplify_eq. by apply rel_same.
  - repeat case_match; try done. simplify_eq. by apply rel_same.
  - simplify_eq. apply rel_SyncKnown. by bool_to_prop.
  - simplify_eq. by apply rel_same.
Qed.

Lemma rel_exec_any l pm pm' :
  clock_ok l = true → is_update l = false → exec_any l pm = Some pm' → pm_rel R pm pm'.
Proof.
  intros Hclk Hnu He. destruct (is_sync_return l) eqn:Hr; [|by eapply rel_exec_quiet].
  unfold clock_ok in Hclk. destruct l; simpl in *; try done.
  destruct (pm_workers pm !! w) as [wk|]; simpl in He; [|done].
  unfold exec_worker in He. destruct (w_pc wk); try done. simplify_eq.
  apply rel_sync_return. by bool_to_prop.
Qed.
End Relation.

(** ** Structure *)

Definition pc_ok pm (pc : @worker_pc Cfg) : Prop :=
  match pc with
  | WExec loc _ st =>
      ∃ s, pm_store pm !! loc = Some s ∧ rank st ≤ rank (State s)
  | WSync k loc _ =>
      ∃ s, pm_store pm !! loc = Some s ∧
        match k with
        | KSync => True
        | KTerminating => ps_terminatingAt s ≠ 0
        | KTerminated => ps_terminatedAt s ≠ 0
        end
  | WSignal ch => is_Some (pm_chans pm !! ch)
  | _ => True
  end.

Record pm_wf pm : Prop := {
  wf_loc id loc : pm_statuses pm !! id = Some loc → is_Some (pm_store pm !! loc);
  wf_inj id1 id2 loc :
    pm_statuses pm !! id1 = Some loc → pm_statuses pm !! id2 = Some loc → id1 = id2;
  wf_store_fresh loc s : pm_store pm !! loc = Some s → (loc < pm_next pm)%nat;
  wf_dom id : is_Some (pm_statuses pm !! id) ↔ is_Some (pm_updates pm !! id);
  wf_chan id ch : pm_updates pm !! id = Some ch → is_Some (pm_chans pm !! ch);
  wf_chan_fresh ch b : pm_chans pm !! ch = Some b → (ch < pm_next pm)%nat;
  wf_ts loc s : pm_store pm !! loc = Some s → ts_ok s;
  wf_pc w wk : pm_workers pm !! w = Some wk → pc_ok pm (w_pc wk);
  wf_consumer ch : pm_consumer pm = CSignal ch → is_Some (pm_chans pm !! ch) }.

Lemma pc_ok_mono pm pm' pc :
  pm_rel evolves pm pm' →
  (∀ ch, is_Some (pm_chans pm !! ch) → is_Some (pm_chans pm' !! ch)) →
  pc_ok pm pc → pc_ok pm' pc.
Proof.
  intros Hrel Hch. destruct pc as [| |loc u st|k loc u|e|ch|]; simpl; try done.
  - intros (s & (s' & Hs' & Hev)%Hrel & Hr). exists s'. split; [done|].
    pose proof (rank_State_mono _ _ Hev). lia.
  - intros (s & (s' & Hs' & Hev)%Hrel & Hk). exists s'. split; [done|].
    destruct k; try done; by apply Hev.
  - apply Hch.
Qed.

Lemma ts_ok_terminating s : ts_ok s → 2 ≤ rank (State s) → ps_terminatingAt s ≠ 0.
Proof.
  intros (H1 & H2 & _). unfold State. repeat case_match; bool_to_prop; simpl; try lia; tauto.
Qed.

Lemma ts_ok_terminated s : ts_ok s → 3 ≤ rank (State s) → ps_terminatedAt s ≠ 0.
Proof.
  intros (H1 & H2 & _). unfold State. repeat case_match; bool_to_prop; simpl; try lia; tauto.
Qed.

(** A step that replaces status objects, keeps the maps and moves workers. *)
Lemma wf_mono pm pm' :
  pm_wf pm → pm_rel evolves pm pm' →
  pm_statuses pm' = pm_statuses pm → pm_updates pm' = pm_updates pm →
  pm_next pm' = pm_next pm →
  (∀ loc s', pm_store pm' !! loc = Some s' →
     ∃ s, pm_store pm !! loc = Some s ∧ (ts_ok s → ts_ok s')) →
  (∀ ch, is_Some (pm_chans pm' !! ch) ↔ is_Some (pm_chans pm !! ch)) →
  (∀ w wk, pm_workers pm' !! w = Some wk →
     pm_workers pm !! w = Some wk ∨ pc_ok pm' (w_pc wk)) →
  (∀ ch, pm_consumer pm' = CSignal ch →
     pm_consumer pm = CSignal ch ∨ is_Some (pm_chans pm !! ch)) →
  pm_wf pm'.
Proof.
  intros Hwf Hrel Es Eu En Hst Hch Hwk Hco. split.
  - intros id loc. rewrite Es. intros [s (s' & ? & _)%Hrel]%(wf_loc _ Hwf). eauto.
  - intros id1 id2 loc. rewrite Es. apply (wf_inj _ Hwf).
  - intros loc s (s0 & Hs0 & _)%Hst. rewrite En. by eapply (wf_store_fresh _ Hwf).
  - intros id. rewrite Es, Eu. apply (wf_dom _ Hwf).
  - intros id ch. rewrite Eu, Hch. apply (wf_chan _ Hwf).
  - intros ch b Hb. rewrite En.
    assert (is_Some (pm_chans pm !! ch)) as [? ?] by (apply Hch; eauto).
    by eapply (wf_chan_fresh _ Hwf).
  - intros loc s (s0 & Hs0 & Hts)%Hst. apply Hts. by eapply (wf_ts _ Hwf).
  - intros w wk [Hw|Hok]%Hwk; [|done].
    eapply pc_ok_mono; [done|apply Hch|]. by eapply (wf_pc _ Hwf).
  - intros ch [Hc|Hc]%Hco; apply Hch; [|done]. by apply (wf_consumer _ Hwf).
Qed.

(** Moving one worker. *)
Lemma worker_goto_lookup w pc pm w' wk :
  pm_workers (worker_goto w pc pm) !! w' = Some wk →
  pm_workers pm !! w' = Some wk ∨ w_pc wk = pc.
Proof.
  unfold worker_goto. case_match eqn:E; [|by left]. simpl.
  destruct (decide (w = w')) as [<-|Hne].
  - rewrite list_lookup_insert_eq by (by eapply lookup_lt_Some). intros [= <-]. by right.
  - rewrite list_lookup_insert_ne by done. by left.
Qed.

Lemma worker_goto_frame w pc pm :
  pm_statuses (worker_goto w pc pm) = pm_statuses pm ∧
  pm_updates (worker_goto w pc pm) = pm_updates pm ∧
  pm_next (worker_goto w pc pm) = pm_next pm ∧
  pm_chans (worker_goto w pc pm) = pm_chans pm ∧
  pm_queue (worker_goto w pc pm) = pm_queue pm ∧
  pm_shutdown (worker_goto w pc pm) = pm_shutdown pm ∧
  pm_consumer (worker_goto w pc pm) = pm_consumer pm.
Proof. unfold worker_goto. case_match; by split_and!. Qed.

Lemma wf_worker_goto w pc pm : pm_wf pm → pc_ok pm pc → pm_wf (worker_goto w pc pm).
Proof.
  intros Hwf Hpc. destruct (worker_goto_frame w pc pm) as (E1 & E2 & E3 & E4 & _ & _ & E5).
  pose proof (store_worker_goto w pc pm) as Es.
  eapply wf_mono; [done|apply (pm_rel_same_store evolves); done|done|done|done| | | |].
  - intros loc s. rewrite Es. eauto.
  - by rewrite E4.
  - intros w' wk [?|<-]%worker_goto_lookup; [by left|right].
    eapply pc_ok_mono; [by apply (pm_rel_same_store evolves)|by rewrite E4|done].
  - rewrite E5. by left.
Qed.

Lemma wf_status_put loc s s' pm :
  pm_wf pm → pm_store pm !! loc = Some s → evolves s s' → (ts_ok s → ts_ok s') →
  pm_wf (status_put loc s' pm).
Proof.
  intros Hwf Hs Hev Hts.
  eapply wf_mono; [done|by eapply (pm_rel_put evolves)|done|done|done| |done|by left|by left].
  intros loc' s0. simpl. destruct (decide (loc = loc')) as [<-|Hne].
  - rewrite lookup_insert_eq. intros [= <-]. eauto.
  - rewrite lookup_insert_ne by done. eauto.
Qed.

(** Fields the structure does not speak about. *)
Lemma wf_inert pm pm' :
  pm_statuses pm' = pm_statuses pm → pm_updates pm' = pm_updates pm →
  pm_next pm' = pm_next pm → pm_store pm' = pm_store pm →
  (∀ ch, is_Some (pm_chans pm' !! ch) ↔ is_Some (pm_chans pm !! ch)) →
  pm_workers pm' = pm_workers pm →
  (∀ ch, pm_consumer pm' = CSignal ch →
     pm_consumer pm = CSignal ch ∨ is_Some (pm_chans pm !! ch)) →
  pm_wf pm → pm_wf pm'.
Proof.
  intros ??? Es Hch Ew Hco Hwf.
  eapply wf_mono; [done|by apply (pm_rel_same_store evolves)|done|done|done| |done| |done].
  - intros loc s. rewrite Es. eauto.
  - intros w wk. rewrite Ew. by left.
Qed.

Lemma chan_insert_dom (m : gmap nat bool) ch b ch' :
  is_Some (m !! ch) → is_Some (<[ch := b]> m !! ch') ↔ is_Some (m !! ch').
Proof.
  intros Hch. destruct (decide (ch = ch')) as [<-|Hne].
  - rewrite lookup_insert_eq. split; eauto.
  - by rewrite lookup_insert_ne.
Qed.

Lemma wf_chan_signal ch pm :
  pm_wf pm → is_Some (pm_chans pm !! ch) → pm_wf (chan_signal ch pm).
Proof.
  intros Hwf Hch. eapply wf_inert; [..|exact Hwf]; try done; [|by left].
  intros ch'. by apply chan_insert_dom.
Qed.

(** ** Submitting an update *)

Definition stamped (now : Z) (u : ProcessUpdate) : @ProcessUpdate Cfg :=
  if IsZero (pu_StartTime u) then set_StartTime now u else u.

(** What [UpdateProcess] makes of a status that is not finished. *)
Definition submitted (now : Z) (u : ProcessUpdate) s : processStatus :=
  set_pending (Some (stamped now u))
    (if bool_decide (pu_UpdateType u = UpdateTypeTerminate)
     then handleTerminationRequest now (pu_TerminateOptions u) s else s).

Lemma stamped_frame now u :
  pu_ID (stamped now u) = pu_ID u ∧ pu_UpdateType (stamped now u) = pu_UpdateType u ∧
  pu_TerminateOptions (stamped now u) = pu_TerminateOptions u.
Proof. unfold stamped. by case_match. Qed.

Lemma submitted_evolves now u s : 0 < now → evolves s (submitted now u s).
Proof.
  intros Hnow. unfold submitted. case_match.
  - etrans; [by apply handleTerminationRequest_evolves|by apply same_stamps_evolves].
  - by apply same_stamps_evolves.
Qed.

Lemma submitted_ts_ok now u s : 0 < now → ts_ok s → ts_ok (submitted now u s).
Proof.
  intros Hnow Hts. unfold submitted. case_match; [|done].
  by apply (handleTerminationRequest_ts_ok now (pu_TerminateOptions u)) in Hts.
Qed.

Lemma UpdateProcess_existing now u pm loc ch s :
  pm_statuses pm !! pu_ID u = Some loc → pm_updates pm !! pu_ID u = Some ch →
  pm_store pm !! loc = Some s →
  UpdateProcess now u pm =
    if IsFinished s then pm
    else chan_signal ch (status_put loc (submitted now u s) pm).
Proof.
  intros Hl Hc Hs. destruct (stamped_frame now u) as (E1 & E2 & E3).
  unfold UpdateProcess, get_or_create_status. fold (stamped now u).
  rewrite E1, Hl, Hs, E2, E3. fold (submitted now u s).
  unfold get_or_create_chan. simpl. by rewrite Hc.
Qed.

(** The manager after the first update of an id. *)
Definition created (now : Z) (u : ProcessUpdate) pm : ProcessManager :=
  let loc := pm_next pm in
  let ch := S loc in
  mkProcessManager
    (<[pu_ID u := loc]> (pm_statuses pm)) (<[pu_ID u := ch]> (pm_updates pm))
    (<[loc := submitted now u new_processStatus]> (pm_store pm))
    (<[ch := true]> (pm_chans pm)) (S ch)
    (pm_workers pm ++ [mkWorker (pu_ID u) ch WIdle]) (pm_consumer pm) (pm_queue pm)
    (pm_shutdown pm) (pm_closed pm) (pm_panicked pm).

Lemma UpdateProcess_new now u pm :
  pm_statuses pm !! pu_ID u = None → pm_updates pm !! pu_ID u = None →
  UpdateProcess now u pm = created now u pm.
Proof.
  intros Hl Hc. destruct (stamped_frame now u) as (E1 & E2 & E3).
  destruct pm as [sts ups sto chs n ws co q sh cl pa]. cbn in Hl, Hc.
  unfold UpdateProcess, get_or_create_status. fold (stamped now u).
  rewrite E1. cbn -[handleTerminationRequest]. rewrite Hl. cbn -[handleTerminationRequest].
  rewrite lookup_insert_eq. change (IsFinished new_processStatus) with false.
  rewrite E2, E3. fold (submitted now u new_processStatus).
  unfold get_or_create_chan. cbn -[submitted]. rewrite Hc. cbn -[submitted].
  cbv [created chan_signal status_put set_chans set_next set_workers set_updates
    set_statuses set_store pm_statuses pm_updates pm_store pm_chans pm_next pm_workers
    pm_consumer pm_queue pm_shutdown pm_closed pm_panicked].
  by rewrite !insert_insert_eq.
Qed.

Lemma UpdateProcess_cases now u pm :
  pm_wf pm →
  (∃ loc ch s, pm_statuses pm !! pu_ID u = Some loc ∧ pm_updates pm !! pu_ID u = Some ch ∧
     pm_store pm !! loc = Some s ∧
     UpdateProcess now u pm =
       (if IsFinished s then pm
        else chan_signal ch (status_put loc (submitted now u s) pm))) ∨
  (pm_statuses pm !! pu_ID u = None ∧ pm_updates pm !! pu_ID u = None ∧
   UpdateProcess now u pm = created now u pm).
Proof.
  intros Hwf. destruct (pm_statuses pm !! pu_ID u) as [loc|] eqn:Hl.
  - left. destruct (wf_loc _ Hwf _ _ Hl) as [s Hs].
    destruct (proj1 (wf_dom _ Hwf (pu_ID u))) as [ch Hc]; [by eauto|].
    exists loc, ch, s. eauto using UpdateProcess_existing.
  - right. assert (pm_updates pm !! pu_ID u = None) as Hc.
    { apply eq_None_not_Some. intros [? Hsome]%(wf_dom _ Hwf). congruence. }
    eauto using UpdateProcess_new.
Qed.

Lemma store_fresh_None pm : pm_wf pm → pm_store pm !! pm_next pm = None.
Proof.
  intros Hwf. apply eq_None_not_Some. intros [s Hs]. pose proof (wf_store_fresh _ Hwf _ _ Hs). lia.
Qed.

Lemma created_rel (R : relation processStatus) `{!Reflexive R} now u pm :
  pm_wf pm → pm_rel R pm (created now u pm).
Proof.
  intros Hwf loc s Hs. exists s. split; [|done]. unfold created. cbn.
  rewrite lookup_insert_ne; [done|]. intros <-. by rewrite store_fresh_None in Hs.
Qed.

Lemma wf_created now u pm :
  0 < now → pm_wf pm →
  pm_statuses pm !! pu_ID u = None → pm_updates pm !! pu_ID u = None →
  pm_wf (created now u pm).
Proof.
  intros Hnow Hwf Hl Hc. pose proof (created_rel evolves now u pm Hwf) as Hrel.
  assert (∀ ch, is_Some (pm_chans pm !! ch) → is_Some (pm_chans (created now u pm) !! ch))
    as Hch.
  { intros ch Hs. unfold created. cbn. destruct (decide (S (pm_next pm) = ch)) as [<-|?].
    - rewrite lookup_insert_eq. eauto.
    - by rewrite lookup_insert_ne. }
  assert (∀ id loc, pm_statuses pm !! id = Some loc → loc ≠ pm_next pm) as Hnl.
  { intros id loc [s Hs]%(wf_loc _ Hwf) ->. by rewrite store_fresh_None in Hs. }
  split.
  - intros id loc. unfold created. cbn.
    intros [[<- <-]|[? [s Hs]%(wf_loc _ Hwf)]]%lookup_insert_Some.
    + rewrite lookup_insert_eq. eauto.
    + apply Hrel in Hs as (? & ? & _). eauto.
  - intros id1 id2 loc. unfold created. cbn.
    intros [[<- <-]|[? H1]]%lookup_insert_Some [[<- E]|[? H2]]%lookup_insert_Some; [done|..].
    + by apply Hnl in H2.
    + subst. by apply Hnl in H1.
    + by eapply (wf_inj _ Hwf).
  - intros loc s. unfold created. cbn.
    intros [[<- _]|[_ Hs]]%lookup_insert_Some; [lia|].
    pose proof (wf_store_fresh _ Hwf _ _ Hs). lia.
  - intros id. unfold created. cbn. destruct (decide (pu_ID u = id)) as [<-|Hne].
    + rewrite !lookup_insert_eq. split; eauto.
    + rewrite !lookup_insert_ne by done. apply (wf_dom _ Hwf).
  - intros id ch. unfold created at 1. cbn.
    intros [[<- <-]|[_ Hu]]%lookup_insert_Some.
    + unfold created. cbn. rewrite lookup_insert_eq. eauto.
    + apply Hch. by eapply (wf_chan _ Hwf).
  - intros ch b. unfold created. cbn. intros [[<- _]|[_ Hb]]%lookup_insert_Some; [lia|].
    pose proof (wf_chan_fresh _ Hwf _ _ Hb). lia.
  - intros loc s. unfold created. cbn.
    intros [[<- <-]|[_ Hs]]%lookup_insert_Some; [|by eapply (wf_ts _ Hwf)].
    by apply submitted_ts_ok.
  - intros w wk. unfold created at 1. cbn.
    intros [Hw|[_ Hw]]%lookup_app_Some.
    + eapply pc_ok_mono; [done|done|]. by eapply (wf_pc _ Hwf).
    + apply list_lookup_singleton_Some in Hw as [_ <-]. done.
  - intros ch. unfold created at 1. cbn. intros Hco. by apply Hch, (wf_consumer _ Hwf).
Qed.

Lemma wf_UpdateProcess now u pm : 0 < now → pm_wf pm → pm_wf (UpdateProcess now u pm).
Proof.
  intros Hnow Hwf.
  destruct (UpdateProcess_cases now u pm Hwf) as
    [(loc & ch & s & Hl & Hc & Hs & ->)|(Hl & Hc & ->)]; [|by apply wf_created].
  case_match; [done|]. apply wf_chan_signal.
  - eapply wf_status_put; [done|done|by apply submitted_evolves|by apply submitted_ts_ok].
  - by eapply (wf_chan _ Hwf).
Qed.

Lemma rel_UpdateProcess (R : relation processStatus) `{!Reflexive R} now u pm :
  pm_wf pm → (∀ s, IsFinished s = false → R s (submitted now u s)) →
  pm_rel R pm (UpdateProcess now u pm).
Proof.
  intros Hwf HR. destruct (UpdateProcess_cases now u pm Hwf) as
    [(loc & ch & s & Hl & Hc & Hs & ->)|(Hl & Hc & ->)]; [|by apply (created_rel R)].
  case_match; [by apply (pm_rel_same_store R)|].
  eapply (pm_rel_put R); [done|by apply HR|done].
Qed.

(** ** Every step keeps the structure *)

Lemma wf_processUpdate w id pm : pm_wf pm → pm_wf (processUpdate_lock w id pm).
Proof.
  intros Hwf. unfold processUpdate_lock.
  destruct (pm_statuses pm !! id) as [loc|]; [|by apply wf_worker_goto].
  destruct (pm_store pm !! loc) as [s|] eqn:Hs; [|by apply wf_worker_goto].
  case_match; [by apply wf_worker_goto|]. case_match; [by apply wf_worker_goto|].
  destruct (ps_pending s) as [u|]; [|by apply wf_worker_goto].
  set (s' := if ctx_live pm _ then _ else _).
  assert (same_stamps s s') as Hst by (unfold s'; case_match; done).
  apply wf_worker_goto.
  - eapply wf_status_put; [done|done|by apply same_stamps_evolves|by apply same_stamps_ts_ok].
  - exists s'. split; [|done]. simpl. by rewrite lookup_insert_eq.
Qed.

Lemma wf_executeSync w loc u st pm :
  pm_wf pm → pc_ok pm (WExec loc u st) → pm_wf (executeSync pmc w loc u st pm).
Proof.
  intros Hwf (s & Hs & Hr). pose proof (wf_ts _ Hwf _ _ Hs) as Hts. unfold executeSync.
  case_match; [by apply wf_worker_goto|].
  destruct st; apply wf_worker_goto; try done; rewrite ?Hs; exists s; (split; [done|]);
    simpl in Hr; auto using ts_ok_terminating, ts_ok_terminated.
  all: destruct (IsTerminating s) eqn:Ht; [by apply IsTerminating_true|done].
Qed.

Lemma wf_close_completed u pm : pm_wf pm → pm_wf (close_completed u pm).
Proof.
  intros Hwf. unfold close_completed. repeat case_match; try done;
    (eapply wf_inert; [..|exact Hwf]; try done; by left).
Qed.

Lemma syncProcess_evolves now t e s : 0 < now → evolves s (syncProcess now t e s).
Proof.
  intros Hnow. destruct s. unfold evolves, syncProcess.
  destruct e, t; simpl; repeat case_match; bool_to_prop; simplify_eq/=;
    split_and!; simpl; try done; intros ?; lia.
Qed.

Lemma syncProcess_ts_ok now t e s : 0 < now → ts_ok s → ts_ok (syncProcess now t e s).
Proof.
  intros Hnow (H1 & H2 & H3). destruct s; simpl in *. unfold ts_ok, syncProcess.
  destruct e, t; simpl; repeat case_match; bool_to_prop; simplify_eq/=;
    split_and!; simpl; try done; intros ?; lia.
Qed.

Lemma syncTerminating_evolves now id u e s :
  0 < now → evolves s (syncTerminating now id u e s).
Proof.
  intros Hnow. destruct s, e; unfold evolves; simpl; split_and!; try done; intros ?; lia.
Qed.

Lemma syncTerminating_ts_ok now id u e s :
  0 < now → ps_terminatingAt s ≠ 0 → ts_ok s → ts_ok (syncTerminating now id u e s).
Proof.
  intros Hnow Ht (H1 & H2 & H3). destruct s, e; unfold ts_ok; simpl in *;
    split_and!; try done; try (intros ?; lia).
Qed.

Lemma syncTerminated_evolves now e s : 0 < now → evolves s (syncTerminated now e s).
Proof.
  intros Hnow. destruct s, e; unfold evolves; simpl; split_and!; try done; intros ?; lia.
Qed.

Lemma syncTerminated_ts_ok now e s :
  0 < now → ps_terminatedAt s ≠ 0 → ts_ok s → ts_ok (syncTerminated now e s).
Proof.
  intros Hnow Ht (H1 & H2 & H3). destruct s, e; unfold ts_ok; simpl in *;
    split_and!; try done; try (intros ?; lia). split; [lia|done].
Qed.

Hint Resolve handleTerminationRequest_evolves syncProcess_evolves syncProcess_ts_ok
  syncTerminating_evolves syncTerminating_ts_ok syncTerminated_evolves
  syncTerminated_ts_ok : prism.

Lemma wf_sync_return w id now t e k loc u pm :
  0 < now → pm_wf pm → pc_ok pm (WSync k loc u) →
  pm_wf (sync_return w id now t e k loc u pm).
Proof.
  intros Hnow Hwf (s & Hs & Hk). unfold sync_return. rewrite Hs.
  apply wf_worker_goto; [|done]. destruct k.
  - eapply wf_status_put; eauto with prism.
  - assert (pm_wf (status_put loc (syncTerminating now id u e s) pm)).
    { eapply wf_status_put; eauto with prism. }
    case_match; [done|by apply wf_close_completed].
  - eapply wf_status_put; eauto with prism.
Qed.

Lemma wf_completeWork w now r id e pm :
  pm_wf pm → pm_wf (completeWork ovf pmc w now r id e pm).
Proof.
  intros Hwf. unfold completeWork.
  destruct (pm_statuses pm !! id) as [loc|]; [|by apply wf_worker_goto].
  destruct (pm_store pm !! loc) as [s|] eqn:Hs; [|by apply wf_worker_goto].
  case_match.
  { apply wf_worker_goto; [|done].
    eapply wf_status_put; [done|done|by apply same_stamps_evolves|by apply same_stamps_ts_ok]. }
  set (s' := match e with Some _ => _ | None => _ end).
  assert (same_stamps s s') as Hst by (unfold s'; case_match; done).
  assert (pm_wf (set_queue (dq_enqueue now id (requeue_delay ovf pmc r e s')
                  (pm_queue (status_put loc s' pm))) (status_put loc s' pm))) as Hwf'.
  { eapply (wf_inert (status_put loc s' pm)); try done; [by left|].
    eapply wf_status_put; [done|done|by apply same_stamps_evolves|by apply same_stamps_ts_ok]. }
  destruct (ps_pending s'); [|by apply wf_worker_goto].
  destruct (pm_updates _ !! id) as [ch|] eqn:Hc; [|by apply wf_worker_goto].
  apply wf_worker_goto; [done|]. simpl. by eapply (wf_chan _ Hwf').
Qed.

Lemma wf_consumer_lock now id pm : pm_wf pm → pm_wf (consumer_lock now id pm).
Proof.
  intros Hwf. unfold consumer_lock.
  destruct (pm_statuses pm !! id) as [loc|];
    [|by (eapply wf_inert; [..|exact Hwf])].
  destruct (pm_updates pm !! id) as [ch|] eqn:Hc; [|by (eapply wf_inert; [..|exact Hwf])].
  destruct (pm_store pm !! loc) as [s|] eqn:Hs; [|by (eapply wf_inert; [..|exact Hwf])].
  set (s' := match ps_pending s with Some _ => _ | None => _ end).
  assert (same_stamps s s') as Hst by (unfold s'; repeat case_match; done).
  eapply (wf_inert (status_put loc s' pm)); try done.
  - intros ch'. cbn. intros [= <-]. right. by apply (wf_chan _ Hwf _ _ Hc).
  - eapply wf_status_put; [done|done|by apply same_stamps_evolves|by apply same_stamps_ts_ok].
Qed.

Lemma wf_sync_known_one now desired e pm m :
  0 < now → pm_wf pm → pm_wf (sync_known_one now desired e (pm, m)).1.
Proof.
  intros Hnow Hwf. destruct e as [id loc]. simpl.
  destruct (pm_store pm !! loc) as [s|] eqn:Hs; [|done].
  destruct (IsFinished s); [case_match; [|done]|].
  - destruct Hwf as [W1 W2 W3 W4 W5 W6 W7 W8 W9].
    split; cbn; try done; [..|].
    + intros id' loc' [_ ?]%lookup_delete_Some. eauto.
    + intros id1 id2 loc' [_ ?]%lookup_delete_Some [_ ?]%lookup_delete_Some. eauto.
    + intros id'. destruct (decide (id = id')) as [<-|Hne].
      * rewrite !lookup_delete_eq. done.
      * by rewrite !lookup_delete_ne.
    + intros id' ch [_ ?]%lookup_delete_Some. eauto.
  - simpl. eapply wf_status_put; [done|done|..]; (case_match; [|done]).
    + by apply handleTerminationRequest_evolves.
    + by apply handleTerminationRequest_ts_ok.
Qed.

Lemma wf_SyncKnown now ids pm : 0 < now → pm_wf pm → pm_wf (SyncKnownProcesses now ids pm).1.
Proof.
  intros Hnow Hwf. unfold SyncKnownProcesses. generalize (map_to_list (pm_statuses pm)).
  intros l. induction l as [|e l IH]; [done|].
  cbn [foldr]. destruct (foldr _ _ l) as [pm1 m1] eqn:E. by apply wf_sync_known_one.
Qed.

Lemma wf_exec l pm pm' : pm_wf pm → exec l pm = Some pm' → pm_wf pm'.
Proof.
  intros Hwf. unfold ProcMgr.exec. case_match eqn:Hclk; [done|]. bool_to_prop.
  unfold clock_ok in *. intros He. destruct l; simpl in *; bool_to_prop;
    try (destruct (pm_workers pm !! w) as [wk|] eqn:Hw; simpl in He; [|done];
         pose proof (wf_pc _ Hwf _ _ Hw) as Hpc;
         unfold exec_worker in He; destruct (w_pc wk) eqn:Epc; try done).
  - simplify_eq. by apply wf_UpdateProcess.
  - destruct (pm_chans pm !! w_ch wk) as [[]|] eqn:Hch; try done. simplify_eq.
    apply wf_worker_goto; [|done]. eapply wf_inert; [..|exact Hwf]; try done; [|by left].
    intros ch'. apply chan_insert_dom. eauto.
  - simplify_eq. by apply wf_processUpdate.
  - simplify_eq. by apply wf_executeSync.
  - simplify_eq. by apply wf_sync_return.
  - simplify_eq. by apply wf_completeWork.
  - simplify_eq. apply wf_worker_goto; [|done]. by apply wf_chan_signal.
  - case_match; [|done]. simplify_eq. by apply wf_worker_goto.
  - case_match; try done. simplify_eq. unfold consumer_dequeue.
    repeat case_match; (eapply wf_inert; [..|exact Hwf]; done).
  - case_match; try done. simplify_eq. by apply wf_consumer_lock.
  - case_match eqn:Hco; try done. simplify_eq.
    eapply (wf_inert (chan_signal ch pm)); try done.
    apply wf_chan_signal; [done|]. by apply (wf_consumer _ Hwf).
  - repeat case_match; try done. simplify_eq. by (eapply wf_inert; [..|exact Hwf]).
  - simplify_eq. by apply wf_SyncKnown.
  - simplify_eq. eapply wf_inert; [..|exact Hwf]; try done. by left.
Qed.

Lemma wf_init : pm_wf pm_init.
Proof. split; done. Qed.

Lemma wf_reachable pm : reachable pm → pm_wf pm.
Proof. induction 1; eauto using wf_init, wf_exec. Qed.

Lemma evolves_exec l pm pm' : pm_wf pm → exec l pm = Some pm' → pm_rel evolves pm pm'.
Proof.
  intros Hwf. unfold ProcMgr.exec. case_match eqn:Hclk; [done|]. bool_to_prop. intros He.
  destruct (is_update l) eqn:Hn.
  - destruct l; try done. unfold clock_ok in *. simpl in *. simplify_eq. bool_to_prop.
    apply (rel_UpdateProcess evolves); [done|]. intros s _. by apply submitted_evolves.
  - eapply (rel_exec_any evolves); eauto with prism;
      intros; try by apply same_stamps_evolves.
Qed.

(** ** The lifecycle *)

Definition same_end s s' : Prop :=
  ps_terminatedAt s' = ps_terminatedAt s ∧ ps_finishedAt s' = ps_finishedAt s.

#[local] Instance same_end_preorder : PreOrder same_end.
Proof. split; unfold same_end; [done|]. intros ??? [-> ->] [-> ->]. done. Qed.

(** The end of a process is reached one stage at a time. *)
Definition staged s s' : Prop :=
  (ps_terminatedAt s' ≠ 0 → ps_terminatingAt s ≠ 0) ∧
  (ps_finishedAt s' ≠ 0 → ps_terminatedAt s ≠ 0).

Lemma same_end_staged s s' : ts_ok s → same_end s s' → staged s s'.
Proof. intros (H1 & H2 & _) [E1 E2]. unfold staged. by rewrite E1, E2. Qed.

Lemma handleTerminationRequest_same_end now opts s :
  0 < now → same_end s (handleTerminationRequest now opts s).
Proof.
  intros Hnow. destruct (handleTerminationRequest_frame now opts s Hnow)
    as (_ & _ & _ & E1 & E2 & _). by split.
Qed.

Lemma submitted_same_end now u s : 0 < now → same_end s (submitted now u s).
Proof.
  intros Hnow. unfold submitted. case_match; [|done].
  by apply (handleTerminationRequest_same_end now (pu_TerminateOptions u)).
Qed.

Lemma staged_sync_return w id now t e k loc u pm :
  pm_wf pm → pc_ok pm (WSync k loc u) →
  pm_rel staged pm (sync_return w id now t e k loc u pm).
Proof.
  intros Hwf (s & Hs & Hk) loc' s0 Hs0. unfold sync_return. rewrite Hs, store_worker_goto.
  pose proof (same_end_staged _ _ (wf_ts _ Hwf _ _ Hs0) (reflexivity s0)) as Hrefl.
  destruct (wf_ts _ Hwf _ _ Hs0) as (H1 & H2 & _).
  destruct (decide (loc = loc')) as [<-|Hne].
  - rewrite Hs in Hs0. injection Hs0 as ->.
    destruct k, e; simpl in *; rewrite ?store_close_completed; simpl;
      rewrite lookup_insert_eq; eexists; (split; [done|]);
      destruct s0; unfold staged; simpl in *;
      destruct t; simpl; repeat case_match; simpl; tauto.
  - exists s0. split; [|done].
    destruct k, e; simpl; rewrite ?store_close_completed; simpl;
      by rewrite lookup_insert_ne.
Qed.

Lemma staged_exec l pm pm' : pm_wf pm → exec l pm = Some pm' → pm_rel staged pm pm'.
Proof.
  intros Hwf. unfold ProcMgr.exec. case_match eqn:Hclk; [done|]. bool_to_prop. intros He.
  destruct (is_sync_return l) eqn:Hr.
  { destruct l; try done. unfold clock_ok in *. simpl in *. bool_to_prop.
    destruct (pm_workers pm !! w) as [wk|] eqn:Hw; simpl in He; [|done].
    pose proof (wf_pc _ Hwf _ _ Hw) as Hpc. unfold exec_worker in He.
    destruct (w_pc wk); try done. simplify_eq. by apply staged_sync_return. }
  cut (pm_rel same_end pm pm').
  { intros Hrel loc s Hs. destruct (Hrel loc s Hs) as (s' & Hs' & Hend).
    exists s'. split; [done|]. apply same_end_staged; [|done]. by eapply (wf_ts _ Hwf). }
  destruct (is_update l) eqn:Hn.
  - destruct l; try done. unfold clock_ok in *. simpl in *. simplify_eq. bool_to_prop.
    apply (rel_UpdateProcess same_end); [done|]. intros s _. by apply submitted_same_end.
  - eapply (rel_exec_quiet same_end); eauto using handleTerminationRequest_same_end;
      intros; done.
Qed.

Inductive lifecycle_step : ProcessState → ProcessState → Prop :=
  | life_stay st : lifecycle_step st st
  | life_synced : lifecycle_step ProcessStateStarting ProcessStateSyncing
  | life_stop_early : lifecycle_step ProcessStateStarting ProcessStateTerminating
  | life_stop : lifecycle_step ProcessStateSyncing ProcessStateTerminating
  | life_terminated : lifecycle_step ProcessStateTerminating ProcessStateTerminated
  | life_finished : lifecycle_step ProcessStateTerminated ProcessStateFinished.

Lemma lifecycle_step_intro s s' :
  ts_ok s → ts_ok s' → evolves s s' → staged s s' → lifecycle_step (State s) (State s').
Proof.
  intros (A1 & A2 & _) (B1 & B2 & _) (C1 & _ & C3 & C4 & C5) [D1 D2].
  unfold State. repeat case_match; bool_to_prop; try constructor; tauto.
Qed.

Lemma run_reachable ls pm pm' :
  reachable pm → ProcMgr.run ovf pmc ls pm = Some pm' → reachable pm'.
Proof. intros Hr. apply run_labels_invariant; [apply reach_step|done]. Qed.

(** C3. In every reachable state, every step of any goroutine moves the lifecycle
    state of each status object by a legal transition of [ProcessState] or leaves
    it alone: it never goes back, [Terminated] is only entered from [Terminating]
    and [Finished] only from [Terminated], whatever the syncer answers and
    whatever updates arrive in between. *)
Theorem lifecycle_legal pm l pm' loc s :
  reachable pm → exec l pm = Some pm' → pm_store pm !! loc = Some s →
  ∃ s', pm_store pm' !! loc = Some s' ∧ lifecycle_step (State s) (State s').
Proof.
  intros Hr%wf_reachable He Hs.
  destruct (evolves_exec l pm pm' Hr He loc s Hs) as (s' & Hs' & Hev).
  destruct (staged_exec l pm pm' Hr He loc s Hs) as (s'' & Hs'' & Hst). simplify_eq.
  exists s'. split; [done|].
  apply lifecycle_step_intro; [by eapply (wf_ts _ Hr)| |done|done].
  by eapply (wf_ts _ (wf_exec _ _ _ Hr He)).
Qed.

(** ** The grace period *)

Definition grace_le s s' : Prop :=
  ps_gracePeriod s ≠ 0 → ps_gracePeriod s' ≤ ps_gracePeriod s.

Lemma submitted_grace now u s :
  0 < now → grace_le s (submitted now u s).
Proof.
  intros Hnow Hg. unfold submitted. case_match; [|done].
  change (ps_gracePeriod (set_pending _ ?x)) with (ps_gracePeriod x).
  rewrite handleTerminationRequest_grace by done.
  repeat case_match; bool_to_prop; lia.
Qed.

Lemma syncProcess_grace now t e s : grace_kept s (syncProcess now t e s).
Proof.
  intros Hg. destruct s, e, t; simpl in *; unfold syncProcess; simpl;
    repeat (case_match; simpl in *); bool_to_prop; simplify_eq/=; done.
Qed.

Lemma grace_exec l pm pm' : pm_wf pm → exec l pm = Some pm' → pm_rel grace_le pm pm'.
Proof.
  intros Hwf. unfold ProcMgr.exec. case_match eqn:Hclk; [done|]. bool_to_prop. intros He.
  destruct (is_update l) eqn:Hn.
  { destruct l; try done. unfold clock_ok in *. simpl in *. simplify_eq. bool_to_prop.
    assert (Reflexive grace_le) by (intros ? ?; done).
    apply (rel_UpdateProcess grace_le); [done|]. intros s _. by apply submitted_grace. }
  cut (pm_rel grace_kept pm pm').
  { intros Hrel loc s Hs. destruct (Hrel loc s Hs) as (s' & Hs' & Hk).
    exists s'. split; [done|]. intros ?. by rewrite Hk. }
  eapply (rel_exec_any grace_kept); eauto using syncProcess_grace;
    try (by intros; destruct s; intros ?).
  - intros s now id u e Hnow ?. by destruct s, e.
  - intros s now e Hnow ?. by destruct s, e.
  - intros s now Hnow Hg. rewrite handleTerminationRequest_grace by done.
    case_match; bool_to_prop; lia.
Qed.

(** Once a process has a nonzero grace period, no step of the manager ever
    increases it: later termination requests can only shorten it. *)
Theorem grace_period_never_increases pm l pm' loc s :
  reachable pm → exec l pm = Some pm' → pm_store pm !! loc = Some s →
  ps_gracePeriod s ≠ 0 →
  ∃ s', pm_store pm' !! loc = Some s' ∧ ps_gracePeriod s' ≤ ps_gracePeriod s.
Proof.
  intros Hr%wf_reachable He Hs Hg.
  destruct (grace_exec l pm pm' Hr He loc s Hs) as (s' & Hs' & Hle). eauto.
Qed.

(** ** Finished processes *)

Definition is_sync_known (l : @label Cfg) : bool :=
  match l with LSyncKnown _ _ => true | _ => false end.

(** The maps only lose entries in [SyncKnownProcesses]. *)
Lemma maps_exec l pm pm' :
  pm_wf pm → is_sync_known l = false → exec l pm = Some pm' →
  pm_statuses pm ⊆ pm_statuses pm' ∧ pm_updates pm ⊆ pm_updates pm'.
Proof.
  intros Hwf Hk. unfold ProcMgr.exec. case_match; [done|]. intros He.
  assert (∀ w pc pm0, pm_statuses pm0 = pm_statuses pm → pm_updates pm0 = pm_updates pm →
            pm_statuses pm ⊆ pm_statuses (worker_goto w pc pm0) ∧
            pm_updates pm ⊆ pm_updates (worker_goto w pc pm0)) as Hgo.
  { intros w pc pm0 E1 E2. destruct (worker_goto_frame w pc pm0) as (-> & -> & _).
    by rewrite E1, E2. }
  destruct l; simpl in *; try done;
    try (destruct (pm_workers pm !! w) as [wk|] eqn:Hw; simpl in He; [|done];
         unfold exec_worker in He; destruct (w_pc wk) eqn:Epc; try done).
  - simplify_eq. destruct (UpdateProcess_cases now update pm Hwf) as
      [(loc & ch & s & Hl & Hc & Hs & ->)|(Hl & Hc & ->)]; [by case_match|].
    unfold created. simpl. by split; apply insert_subseteq.
  - destruct (pm_chans pm !! w_ch wk) as [[]|] eqn:Hch; try done. simplify_eq. by apply Hgo.
  - simplify_eq. unfold processUpdate_lock. repeat case_match; by apply Hgo.
  - simplify_eq. unfold executeSync. repeat case_match; by apply Hgo.
  - simplify_eq. unfold sync_return. case_match; [|done].
    apply Hgo; unfold close_completed; repeat case_match; done.
  - simplify_eq. unfold completeWork. repeat case_match; by apply Hgo.
  - simplify_eq. by apply Hgo.
  - case_match; [|done]. simplify_eq. by apply Hgo.
  - case_match; try done. simplify_eq. unfold consumer_dequeue. by repeat case_match.
  - case_match; try done. simplify_eq. unfold consumer_lock. by repeat case_match.
  - case_match; try done. by simplify_eq.
  - repeat case_match; try done. by simplify_eq.
  - by simplify_eq.
Qed.

Lemma IsProcessFinished_true id pm :
  IsProcessFinished id pm = true ↔
  ∃ loc s, pm_statuses pm !! id = Some loc ∧ pm_store pm !! loc = Some s ∧
           ps_finishedAt s ≠ 0.
Proof.
  unfold IsProcessFinished, get_status. split.
  - repeat case_match; try done. intros ?%IsFinished_true. eauto.
  - intros (loc & s & -> & -> & Hf). by apply IsFinished_true.
Qed.

Lemma finished_exec l pm pm' id :
  pm_wf pm → is_sync_known l = false → exec l pm = Some pm' →
  IsProcessFinished id pm = true → IsProcessFinished id pm' = true.
Proof.
  intros Hwf Hk He (loc & s & Hl & Hs & Hf)%IsProcessFinished_true.
  apply IsProcessFinished_true.
  destruct (evolves_exec l pm pm' Hwf He loc s Hs) as (s' & Hs' & Hev).
  exists loc, s'. split_and!; [|done|by apply Hev].
  destruct (maps_exec l pm pm' Hwf Hk He) as [Hsub _].
  by eapply lookup_weaken.
Qed.

(** A finished process is final: every further update for it is dropped
    without touching the manager, and along any run without a call of
    [SyncKnownProcesses] it stays known and finished. *)
Theorem finished_is_final pm id :
  reachable pm → IsProcessFinished id pm = true →
  (∀ now u, pu_ID u = id → UpdateProcess now u pm = pm) ∧
  (∀ ls pm', Forall (λ l, is_sync_known l = false) ls →
     ProcMgr.run ovf pmc ls pm = Some pm' → IsProcessFinished id pm' = true).
Proof.
  intros Hr Hf. split.
  - intros now u <-. apply wf_reachable in Hr as Hwf.
    apply IsProcessFinished_true in Hf as (loc & s & Hl & Hs & Hfin%IsFinished_true).
    destruct (UpdateProcess_cases now u pm Hwf) as
      [(loc' & ch & s' & Hl' & Hc & Hs' & ->)|(Hl' & Hc & ->)]; simplify_eq.
    by rewrite Hfin.
  - intros ls pm' Hall Hrun.
    eapply (run_labels_invariant_on _ (λ pm, reachable pm ∧ IsProcessFinished id pm = true)) in Hrun as [_ ?];
      [done| |done|exact Hall].
    intros pm0 l pm1 [Hr0 Hf0] Hl He. split; [by econstructor|].
    eapply finished_exec; eauto using wf_reachable.
Qed.
End Lifecycle.
