(* ===== verification/ProcMgrReconcile.v ===== *)
(** * Reconciliation and health of the process manager

    [SyncKnownProcesses] and [Health] iterate over the status map; their results are
    stated per process id, independently of the iteration order. *)

From S2P Require Import Prelude WorkQueue Backoff ProcMgr ProcMgrInv.
Local Open Scope Z_scope.

Section Reconcile.
Context {Cfg : Type} {Q : Type} `{!DelayQueue Q} (ovf : Z) (pmc : PMConfig).

Implicit Types (pm : @ProcessManager Cfg Q) (s : @processStatus Cfg).
Implicit Types (l : list (ProcessID * nat)).

(** What the reconciliation against [desired] makes of one process. *)
Definition reconcile (now : Z) (desired : gset ProcessID) (id : ProcessID)
    (s : @processStatus Cfg) : option (@processStatus Cfg) :=
  if IsFinished s then if bool_decide (id ∈ desired) then Some s else None
  else if bool_decide (id ∈ desired) || IsTerminating s then Some s
  else Some (handleTerminationRequest now None s).

(** What it reports about the process. *)
Definition report (s : @processStatus Cfg) : option ProcessStatus :=
  if IsFinished s then None else Some (status_view s).

Lemma IsFinished_handleTerminationRequest now opts s :
  0 < now → IsFinished (handleTerminationRequest now opts s) = IsFinished s.
Proof.
  intros Hnow. destruct (handleTerminationRequest_frame now opts s Hnow)
    as (_ & _ & _ & _ & E & _). unfold IsFinished. by rewrite E.
Qed.

(** One iteration on a process whose entry is still in place. *)
Lemma sync_known_one_spec now desired id loc s pm res :
  0 < now → pm_wf pm →
  pm_statuses pm !! id = Some loc → pm_store pm !! loc = Some s → res !! id = None →
  let '(pm', res') := sync_known_one now desired (id, loc) (pm, res) in
  get_status id pm' = reconcile now desired id s ∧
  res' !! id = reconcile now desired id s ≫= report ∧
  (∀ id' loc', id' ≠ id → pm_statuses pm !! id' = Some loc' →
     pm_statuses pm' !! id' = Some loc' ∧ pm_store pm' !! loc' = pm_store pm !! loc') ∧
  (∀ id', pm_statuses pm !! id' = None → pm_statuses pm' !! id' = None) ∧
  (∀ id', id' ≠ id → res' !! id' = res !! id').
Proof.
  intros Hnow Hwf Hl Hs Hres. unfold sync_known_one. rewrite Hs. unfold reconcile, get_status.
  assert (∀ id' loc', id' ≠ id → pm_statuses pm !! id' = Some loc' → loc' ≠ loc) as Hne.
  { intros id' loc' Hid Hl' ->. by eapply Hid, (wf_inj _ Hwf). }
  destruct (IsFinished s) eqn:Hf.
  - destruct (bool_decide (id ∈ desired)) eqn:Hd; simpl.
    + rewrite Hl, Hs. unfold report. rewrite Hf. by split_and!.
    + rewrite lookup_delete_eq. split_and!; try done.
      * intros id' loc' Hid Hl'. by rewrite lookup_delete_ne.
      * intros id' Hn. by rewrite lookup_delete_None; right.
  - set (s' := if negb _ && negb _ then _ else _). simpl. rewrite Hl, !lookup_insert_eq.
    assert ((if bool_decide (id ∈ desired) || IsTerminating s then Some s
             else Some (handleTerminationRequest now None s)) = Some s') as ->.
    { unfold s'. by destruct (bool_decide _), (IsTerminating s). }
    simpl. unfold report. assert (IsFinished s' = false) as ->.
    { unfold s'. case_match; [by rewrite IsFinished_handleTerminationRequest|done]. }
    split_and!; try done.
    + intros id' loc' Hid Hl'. split; [done|]. rewrite lookup_insert_ne; [done|].
      by apply not_eq_sym, (Hne id').
    + intros id' Hid. by rewrite lookup_insert_ne.
Qed.

Lemma wf_sync_known_fold now desired pm l :
  0 < now → pm_wf pm → pm_wf (foldr (sync_known_one now desired) (pm, ∅) l).1.
Proof.
  intros Hnow Hwf. induction l as [|e l IH]; [done|].
  cbn [foldr]. destruct (foldr _ _ l) as [pm1 m1]. by apply wf_sync_known_one.
Qed.

Lemma sync_known_fold now desired pm l :
  0 < now → pm_wf pm → NoDup l.*1 →
  (∀ id loc, (id, loc) ∈ l → pm_statuses pm !! id = Some loc) →
  let '(pm', res) := foldr (sync_known_one now desired) (pm, ∅) l in
  (∀ id loc s, (id, loc) ∈ l → pm_store pm !! loc = Some s →
     get_status id pm' = reconcile now desired id s ∧
     res !! id = reconcile now desired id s ≫= report) ∧
  (∀ id loc, id ∉ l.*1 → pm_statuses pm !! id = Some loc →
     pm_statuses pm' !! id = Some loc ∧ pm_store pm' !! loc = pm_store pm !! loc) ∧
  (∀ id, pm_statuses pm !! id = None → pm_statuses pm' !! id = None) ∧
  (∀ id, id ∉ l.*1 → res !! id = None).
Proof.
  intros Hnow Hwf. induction l as [|[id0 loc0] l IH]; intros Hnd Hin.
  { split_and!; try done. intros id loc s Hnil. by apply not_elem_of_nil in Hnil. }
  pose proof (wf_sync_known_fold now desired pm l Hnow Hwf) as Hwf1.
  inversion_clear Hnd as [|? ? Hni Hnd'].
  assert (∀ id loc, (id, loc) ∈ l → pm_statuses pm !! id = Some loc) as Hin'.
  { intros id loc ?. apply Hin. by apply list_elem_of_further. }
  specialize (IH Hnd' Hin'). cbn [foldr]. destruct (foldr _ _ l) as [pm1 res1].
  destruct IH as (I1 & I2 & I3 & I4). cbn [fst] in Hwf1.
  assert (pm_statuses pm !! id0 = Some loc0) as Hl0 by (apply Hin, list_elem_of_here).
  destruct (wf_loc _ Hwf _ _ Hl0) as [s0 Hs0].
  destruct (I2 id0 loc0 Hni Hl0) as [Hl1 Hs1]. rewrite Hs0 in Hs1.
  pose proof (sync_known_one_spec now desired id0 loc0 s0 pm1 res1 Hnow Hwf1 Hl1 Hs1
                (I4 id0 Hni)) as Hone.
  destruct (sync_known_one now desired (id0, loc0) (pm1, res1)) as [pm2 res2].
  destruct Hone as (J1 & J2 & J3 & J4 & J5). split_and!.
  - intros id loc s [[= -> ->]|Hel]%elem_of_cons Hs; [rewrite Hs0 in Hs; by simplify_eq|].
    assert (id ≠ id0) as Hid.
    { intros ->. apply Hni. apply list_elem_of_fmap. by exists (id0, loc). }
    destruct (I1 id loc s Hel Hs) as [G1 G2]. rewrite (J5 id Hid). split; [|done].
    rewrite <- G1. unfold get_status. destruct (pm_statuses pm1 !! id) as [loc1|] eqn:E1.
    + destruct (J3 id loc1 Hid E1) as [-> ->]. done.
    + by rewrite (J4 id E1).
  - intros id loc Hnin Hl. apply not_elem_of_cons in Hnin as [Hid Hnin].
    destruct (I2 id loc Hnin Hl) as [K1 <-]. by apply J3.
  - intros id Hn. by apply J4, I3.
  - intros id Hnin. apply not_elem_of_cons in Hnin as [Hid Hnin].
    rewrite (J5 id Hid). by apply I4.
Qed.

Lemma NoDup_map_keys (m : gmap ProcessID nat) : NoDup (map_to_list m).*1.
Proof. apply NoDup_fst_map_to_list. Qed.

(** [SyncKnownProcesses], process by process and whatever the iteration order:
    a finished process that is not desired is forgotten, any other process that
    is neither desired nor terminating gets a termination request with the
    default grace period, everything else keeps its status; the returned map
    holds the new view of exactly the known processes that are not finished. *)
Theorem SyncKnownProcesses_correct now ids pm :
  0 < now → reachable ovf pmc pm →
  let pm' := (SyncKnownProcesses now ids pm).1 in
  let res := (SyncKnownProcesses now ids pm).2 in
  ∀ id, get_status id pm' = get_status id pm ≫= reconcile now (list_to_set ids) id ∧
        res !! id = get_status id pm' ≫= report.
Proof.
  intros Hnow Hwf%wf_reachable. unfold SyncKnownProcesses.
  pose proof (sync_known_fold now (list_to_set ids) pm (map_to_list (pm_statuses pm)) Hnow Hwf
                (NoDup_map_keys _)) as Hfold.
  destruct (foldr _ _ _) as [pm' res]. destruct Hfold as (I1 & I2 & I3 & I4).
  { intros id loc. by rewrite elem_of_map_to_list. }
  cbn [fst snd]. intros id. unfold get_status at 2. destruct (pm_statuses pm !! id) as [loc|] eqn:Hl.
  - destruct (wf_loc _ Hwf _ _ Hl) as [s Hs]. rewrite Hs. simpl.
    destruct (I1 id loc s) as [-> ->]; [by apply elem_of_map_to_list|done|].
    split; [done|]. done.
  - assert (get_status id pm' = None) as Hg by (unfold get_status; by rewrite I3).
    rewrite Hg. simpl. split; [done|]. apply I4.
    intros ([id' loc] & -> & Hel%elem_of_map_to_list)%list_elem_of_fmap. simpl in *. congruence.
Qed.

(** ** Health *)

(** The statuses a list of map entries points to. *)
Definition pointed pm l : list (@processStatus Cfg) :=
  omap (λ e, pm_store pm !! e.2) l.

Definition count (f : @processStatus Cfg → bool) (ss : list (@processStatus Cfg)) : Z :=
  Z.of_nat (length (List.filter f ss)).

Lemma count_cons f s ss : count f (s :: ss) = (if f s then 1 else 0) + count f ss.
Proof. unfold count. simpl. case_match; simpl; lia. Qed.

Lemma health_fold now pm l h :
  let h' := foldr (health_one now pm) h l in
  let ss := pointed pm l in
  hc_TotalProcesses h' = hc_TotalProcesses h + count (λ _, true) ss ∧
  hc_RunningProcesses h' =
    hc_RunningProcesses h + count (λ s, bool_decide (State s = ProcessStateSyncing)) ss ∧
  hc_TerminatingProcesses h' =
    hc_TerminatingProcesses h + count (λ s, bool_decide (State s = ProcessStateTerminating)) ss ∧
  hc_FailedProcesses h' = hc_FailedProcesses h + count (λ s, 5 <? ps_errorCount s) ss.
Proof.
  induction l as [|[id loc] l (I1 & I2 & I3 & I4)]; simpl; [unfold count; simpl; lia|].
  set (h1 := foldr (health_one now pm) h l) in *. unfold health_one.
  destruct (pm_store pm !! loc) as [s|]; simpl; [|done].
  rewrite I1, I2, I3, I4, !count_cons. split_and!; lia.
Qed.

Lemma health_fold_processes now pm l h id :
  NoDup l.*1 → (∀ loc, (id, loc) ∈ l → pm_statuses pm !! id = Some loc) →
  hc_Processes (foldr (health_one now pm) h l) !! id =
    if bool_decide (id ∈ l.*1)
    then match process_health now <$> get_status id pm with
         | Some ph => Some ph | None => hc_Processes h !! id end
    else hc_Processes h !! id.
Proof.
  induction l as [|[id0 loc0] l IH]; intros Hnd Hin; [done|]. cbn [foldr].
  inversion_clear Hnd as [|? ? Hni Hnd'].
  assert (∀ loc, (id, loc) ∈ l → pm_statuses pm !! id = Some loc) as Hin'.
  { intros loc ?. apply Hin. by apply list_elem_of_further. }
  specialize (IH Hnd' Hin').
  set (h1 := foldr (health_one now pm) h l) in *. unfold health_one.
  rewrite (bool_decide_ext _ (id = id0 ∨ id ∈ l.*1))
    by (rewrite fmap_cons, elem_of_cons; done).
  destruct (decide (id = id0)) as [->|Hne].
  - rewrite bool_decide_eq_true_2 by (by left).
    rewrite bool_decide_eq_false_2 in IH by done.
    unfold get_status. rewrite (Hin loc0) by apply list_elem_of_here.
    destruct (pm_store pm !! loc0) as [s|]; simpl; [by rewrite lookup_insert_eq|done].
  - rewrite (bool_decide_ext _ (id ∈ l.*1)) by tauto. rewrite <- IH.
    destruct (pm_store pm !! loc0) as [s|]; simpl; [|done].
    by rewrite lookup_insert_ne.
Qed.

(** [Health] reports every known process exactly once, with its current state,
    and its four counters and the queue depth are the numbers of known, syncing,
    terminating and failing processes and of queued items. *)
Theorem Health_correct now pm :
  reachable ovf pmc pm →
  let ss := pointed pm (map_to_list (pm_statuses pm)) in
  let h := Health now pm in
  (∀ id, hc_Processes h !! id = process_health now <$> get_status id pm) ∧
  hc_TotalProcesses h = Z.of_nat (size (pm_statuses pm)) ∧
  hc_RunningProcesses h = count (λ s, bool_decide (State s = ProcessStateSyncing)) ss ∧
  hc_TerminatingProcesses h =
    count (λ s, bool_decide (State s = ProcessStateTerminating)) ss ∧
  hc_FailedProcesses h = count (λ s, 5 <? ps_errorCount s) ss ∧
  hc_WorkQueueDepth h = Z.of_nat (dq_len (pm_queue pm)).
Proof.
  intros Hwf%wf_reachable ss h.
  destruct (health_fold now pm (map_to_list (pm_statuses pm)) (mkHealthCheck 0 0 0 0 0 ∅))
    as (I1 & I2 & I3 & I4). simpl in *.
  split_and!; [| |done|done|done|done].
  - intros id. unfold h, Health. simpl.
    rewrite health_fold_processes; [|apply NoDup_map_keys|
      intros loc; by rewrite elem_of_map_to_list].
    simpl. unfold get_status. destruct (pm_statuses pm !! id) as [loc|] eqn:Hl.
    + destruct (wf_loc _ Hwf _ _ Hl) as [s Hs]. rewrite Hs. simpl.
      rewrite bool_decide_eq_true_2; [done|]. apply list_elem_of_fmap.
      exists (id, loc). by rewrite elem_of_map_to_list.
    + simpl. by case_match.
  - unfold h, Health. simpl. rewrite I1. unfold count. f_equal.
    rewrite <- length_map_to_list.
    assert (∀ id loc, (id, loc) ∈ map_to_list (pm_statuses pm) → is_Some (pm_store pm !! loc))
      as Hall.
    { intros id loc ?%elem_of_map_to_list. by eapply (wf_loc _ Hwf). }
    revert Hall. generalize (map_to_list (pm_statuses pm)). clear.
    induction l as [|[id loc] l IH]; intros Hall; [done|]. simpl.
    destruct (Hall id loc) as [s Hs]; [apply list_elem_of_here|]. rewrite Hs. simpl.
    rewrite !Nat2Z.inj_succ, <- IH; [lia|].
    intros id' loc' ?. eapply Hall. by apply list_elem_of_further.
Qed.
End Reconcile.
