(* ===== verification/ProcMgrSync.v ===== *)
(** * Concurrency of the process manager

    As long as [SyncKnownProcesses] is not called, each process has exactly one
    worker goroutine, at most one sync of a process is in flight, its [working]
    flag tells whether one is, and a pending update always has a wakeup on its
    way.  [ProcMgrRuns] shows what goes wrong once [SyncKnownProcesses] drops a
    finished process that is then created again. *)

From S2P Require Import Prelude WorkQueue Backoff ProcMgr ProcMgrInv.
Import GoFloat.
Local Open Scope Z_scope.

Section Sync.
Context {Cfg : Type} {Q : Type} `{!DelayQueue Q} (ovf : Z) (pmc : PMConfig).

Implicit Types (pm : @ProcessManager Cfg Q) (s : @processStatus Cfg) (w loc ch : nat).
Implicit Types (wk : @worker Cfg) (pc : @worker_pc Cfg).

Abbreviation exec := (exec (Cfg := Cfg) (Q := Q) ovf pmc).
Abbreviation exec_any := (exec_any (Cfg := Cfg) (Q := Q) ovf pmc).
Abbreviation reachable_static := (reachable_static (Cfg := Cfg) (Q := Q) ovf pmc).

(** Between taking up an update and [completeWork]. *)
Definition in_flight pc : bool :=
  match pc with WExec _ _ _ | WSync _ _ _ | WComplete _ => true | _ => false end.

Definition pc_loc pc : option nat :=
  match pc with WExec loc _ _ | WSync _ loc _ => Some loc | _ => None end.

(** A signal for the worker is buffered, taken by the worker, which is about to lock
    the manager and look for an update, or about to be sent. *)
Definition woken pm wk : Prop :=
  pm_chans pm !! w_ch wk = Some true ∨ w_pc wk = WGot ∨ in_flight (w_pc wk) = true ∨
  w_pc wk = WSignal (w_ch wk) ∨ pm_consumer pm = CSignal (w_ch wk).

Record wk_ok pm wk : Prop := {
  wk_updates : pm_updates pm !! w_id wk = Some (w_ch wk);
  wk_status : ∃ loc s,
    pm_statuses pm !! w_id wk = Some loc ∧ pm_store pm !! loc = Some s ∧
    (∀ l, pc_loc (w_pc wk) = Some l → l = loc) ∧
    ps_working s = in_flight (w_pc wk) ∧
    (IsFinished s = false → pm_shutdown pm = false →
       w_pc wk ≠ WExited ∧ (is_Some (ps_pending s) → woken pm wk)) }.

Record static_inv pm : Prop := {
  st_ok w wk : pm_workers pm !! w = Some wk → wk_ok pm wk;
  st_id w1 w2 wk1 wk2 :
    pm_workers pm !! w1 = Some wk1 → pm_workers pm !! w2 = Some wk2 →
    w_id wk1 = w_id wk2 → w1 = w2;
  st_ch w1 w2 wk1 wk2 :
    pm_workers pm !! w1 = Some wk1 → pm_workers pm !! w2 = Some wk2 →
    w_ch wk1 = w_ch wk2 → w1 = w2;
  st_has id : is_Some (pm_statuses pm !! id) →
    ∃ w wk, pm_workers pm !! w = Some wk ∧ w_id wk = id }.

(** ** What a worker does not notice *)

Lemma wk_ok_frame pm pm' wk :
  wk_ok pm wk →
  pm_statuses pm' !! w_id wk = pm_statuses pm !! w_id wk →
  pm_updates pm' !! w_id wk = pm_updates pm !! w_id wk →
  (∀ loc s, pm_statuses pm !! w_id wk = Some loc → pm_store pm !! loc = Some s →
     ∃ s', pm_store pm' !! loc = Some s' ∧ ps_working s' = ps_working s ∧
       (IsFinished s' = false → IsFinished s = false) ∧
       (is_Some (ps_pending s') → is_Some (ps_pending s) ∨ woken pm' wk)) →
  (woken pm wk → woken pm' wk) →
  (pm_shutdown pm' = false → pm_shutdown pm = false) →
  wk_ok pm' wk.
Proof.
  intros [Hu (loc & s & Hl & Hs & Hpc & Hwk & Hal)] El Eu Hst Hwoken Hsh.
  destruct (Hst loc s Hl Hs) as (s' & Hs' & Ewk & Hfin & Hpend).
  split; [by rewrite Eu|]. exists loc, s'. rewrite El, Ewk. split_and!; try done.
  intros Hf' Hsh'. destruct (Hal (Hfin Hf') (Hsh Hsh')) as [Hex Hw].
  split; [done|]. intros [?|?]%Hpend; auto.
Qed.

(** A step of one worker, on its own status object and channel. *)
Lemma static_worker pm pm' w wk wk' :
  pm_wf pm → static_inv pm → pm_workers pm !! w = Some wk →
  w_id wk' = w_id wk → w_ch wk' = w_ch wk →
  pm_workers pm' = <[w := wk']> (pm_workers pm) →
  pm_statuses pm' = pm_statuses pm → pm_updates pm' = pm_updates pm →
  pm_consumer pm' = pm_consumer pm → pm_shutdown pm' = pm_shutdown pm →
  (∀ loc, pm_statuses pm !! w_id wk ≠ Some loc → pm_store pm' !! loc = pm_store pm !! loc) →
  (∀ ch, ch ≠ w_ch wk → pm_chans pm !! ch = Some true → pm_chans pm' !! ch = Some true) →
  wk_ok pm' wk' → static_inv pm'.
Proof.
  intros Hwf [S1 S2 S3 S4] Hw Eid Ech Ew Es Eu Ec Esh Hst Hch Hok.
  assert (∀ w0 wk0, pm_workers pm' !! w0 = Some wk0 →
            (w0 = w ∧ wk0 = wk') ∨ (w0 ≠ w ∧ pm_workers pm !! w0 = Some wk0)) as Hsplit.
  { intros w0 wk0. rewrite Ew. intros [(<- & <- & _)|[? ?]]%list_lookup_insert_Some; auto. }
  split.
  - intros w0 wk0 [[-> ->]|[Hne H0]]%Hsplit; [done|].
    assert (w_id wk0 ≠ w_id wk) as Hid by (intros E; by eapply Hne, S2).
    assert (w_ch wk0 ≠ w_ch wk) as Hcne by (intros E; by eapply Hne, S3).
    eapply wk_ok_frame; [by eapply S1|by rewrite Es|by rewrite Eu| | |by rewrite Esh].
    + intros loc s Hl Hs. exists s. rewrite Hst; [by eauto|].
      intros Hl'. by eapply Hid, (wf_inj _ Hwf).
    + unfold woken. rewrite Ec. intros [?|?]; [|by auto]. left. by apply Hch.
  - intros w1 w2 wk1 wk2 [[-> ->]|[? H1]]%Hsplit [[-> ->]|[? H2]]%Hsplit; try done;
      rewrite ?Eid; intros E; eapply S2; eauto.
  - intros w1 w2 wk1 wk2 [[-> ->]|[? H1]]%Hsplit [[-> ->]|[? H2]]%Hsplit; try done;
      rewrite ?Ech; intros E; eapply S3; eauto.
  - intros id. rewrite Es. intros (w0 & wk0 & H0 & <-)%S4.
    destruct (decide (w0 = w)) as [->|Hne].
    + exists w, wk'. rewrite Ew, list_lookup_insert_eq by (by eapply lookup_lt_Some).
      split; [done|]. congruence.
    + exists w0, wk0. by rewrite Ew, list_lookup_insert_ne.
Qed.

(** A step that moves no worker. *)
Lemma static_others pm pm' :
  static_inv pm → pm_workers pm' = pm_workers pm →
  pm_statuses pm' = pm_statuses pm →
  (∀ w wk, pm_workers pm !! w = Some wk → wk_ok pm wk → wk_ok pm' wk) → static_inv pm'.
Proof.
  intros [S1 S2 S3 S4] Ew Es Hok. split; rewrite ?Ew, ?Es; eauto.
Qed.

Lemma workers_goto w wk pc pm :
  pm_workers pm !! w = Some wk →
  pm_workers (worker_goto w pc pm) =
    <[w := mkWorker (w_id wk) (w_ch wk) pc]> (pm_workers pm).
Proof. intros E. unfold worker_goto. by rewrite E. Qed.

Lemma wk_ok_goto w pc pm wk : wk_ok pm wk → wk_ok (worker_goto w pc pm) wk.
Proof.
  intros [Hu Hs]. destruct (worker_goto_frame w pc pm) as (E1 & E2 & _ & E4 & _ & E6 & E7).
  pose proof (store_worker_goto w pc pm) as Es.
  split; unfold woken in *; rewrite ?E1, ?E2, ?E4, ?E6, ?E7, ?Es; done.
Qed.

Lemma static_goto pm pm0 w wk pc :
  pm_wf pm → static_inv pm → pm_workers pm !! w = Some wk →
  pm_workers pm0 = pm_workers pm → pm_statuses pm0 = pm_statuses pm →
  pm_updates pm0 = pm_updates pm → pm_consumer pm0 = pm_consumer pm →
  pm_shutdown pm0 = pm_shutdown pm →
  (∀ loc, pm_statuses pm !! w_id wk ≠ Some loc → pm_store pm0 !! loc = pm_store pm !! loc) →
  (∀ ch, ch ≠ w_ch wk → pm_chans pm !! ch = Some true → pm_chans pm0 !! ch = Some true) →
  wk_ok pm0 (mkWorker (w_id wk) (w_ch wk) pc) →
  static_inv (worker_goto w pc pm0).
Proof.
  intros Hwf Hinv Hw Ew Es Eu Ec Esh Hst Hch Hok.
  destruct (worker_goto_frame w pc pm0) as (E1 & E2 & _ & E4 & _ & E6 & E7).
  eapply (static_worker pm _ w wk); [done|done|done|..|by apply wk_ok_goto]; try done.
  - rewrite (workers_goto w wk) by (by rewrite Ew). by rewrite Ew.
  - by rewrite E1.
  - by rewrite E2.
  - by rewrite E7.
  - by rewrite E6.
  - intros loc Hl. rewrite store_worker_goto. by apply Hst.
  - intros ch. rewrite E4. apply Hch.
Qed.

(** The status of a worker's process, with what [static_inv] says about it. *)
Lemma static_status pm w wk :
  static_inv pm → pm_workers pm !! w = Some wk →
  ∃ loc s, pm_statuses pm !! w_id wk = Some loc ∧ pm_updates pm !! w_id wk = Some (w_ch wk) ∧
    pm_store pm !! loc = Some s ∧
    (∀ l, pc_loc (w_pc wk) = Some l → l = loc) ∧
    ps_working s = in_flight (w_pc wk) ∧
    (IsFinished s = false → pm_shutdown pm = false →
       w_pc wk ≠ WExited ∧ (is_Some (ps_pending s) → woken pm wk)).
Proof.
  intros Hinv Hw. destruct (st_ok _ Hinv _ _ Hw) as [Hu (loc & s & ? & ? & ? & ? & ?)].
  exists loc, s. by split_and!.
Qed.

(** ** Every step of a worker *)

Lemma static_receive w wk pm :
  pm_wf pm → static_inv pm → pm_workers pm !! w = Some wk → w_pc wk = WIdle →
  static_inv (worker_goto w WGot (chan_take (w_ch wk) pm)).
Proof.
  intros Hwf Hinv Hw Hidle.
  destruct (static_status _ _ _ Hinv Hw) as (loc & s & Hl & Hu & Hs & _ & Hwk & Hal).
  rewrite Hidle in Hwk. eapply (static_goto pm (chan_take _ _)); try done.
  - intros ch ? ?. simpl. by rewrite lookup_insert_ne.
  - split; [done|]. exists loc, s. split_and!; try done.
    intros _ _. split; [done|]. intros _. right. by left.
Qed.

Lemma static_lock w wk pm :
  pm_wf pm → static_inv pm → pm_workers pm !! w = Some wk → w_pc wk = WGot →
  static_inv (processUpdate_lock w (w_id wk) pm).
Proof.
  intros Hwf Hinv Hw Hgot.
  destruct (static_status _ _ _ Hinv Hw) as (loc & s & Hl & Hu & Hs & _ & Hwk & Hal).
  rewrite Hgot in Hwk. simpl in Hwk.
  unfold processUpdate_lock. rewrite Hl, Hs, Hwk.
  destruct (IsFinished s) eqn:Hf; [|destruct (ps_pending s) as [u|] eqn:Hp].
  - eapply (static_goto pm pm); try done.
    split; [done|]. exists loc, s. split_and!; try done. congruence.
  - set (s' := if ctx_live _ _ then _ else _).
    assert (ps_working s' = true ∧ ps_pending s' = None) as [E1 E2]
      by (unfold s'; by case_match).
    eapply (static_goto pm (status_put loc s' pm)); try done.
    + intros loc' ?. simpl. rewrite lookup_insert_ne by congruence. done.
    + split; [done|]. exists loc, s'. simpl. rewrite lookup_insert_eq, E1, E2.
      split_and!; try done; congruence.
  - eapply (static_goto pm pm); try done.
    split; [done|]. exists loc, s. split_and!; try done.
    intros _ _. split; [done|]. rewrite Hp. by intros [? ?].
Qed.

Lemma static_execute w wk loc u st pm :
  pm_wf pm → static_inv pm → pm_workers pm !! w = Some wk → w_pc wk = WExec loc u st →
  static_inv (executeSync pmc w loc u st pm).
Proof.
  intros Hwf Hinv Hw Hpc.
  destruct (static_status _ _ _ Hinv Hw) as (loc' & s & Hl & Hu & Hs & Hloc & Hwk & Hal).
  rewrite Hpc in *. assert (loc = loc') as <- by (by apply Hloc).
  assert (∀ pc, in_flight pc = true → (∀ l, pc_loc pc = Some l → l = loc) →
            static_inv (worker_goto w pc pm)) as Hgo.
  { intros pc Hfl Hpl. eapply (static_goto pm pm); try done.
    split; [done|]. exists loc, s. simpl. rewrite Hfl. split_and!; try done.
    intros _ _. split; [by intros ->|]. intros _. right; right. by left. }
  unfold executeSync. case_match; [by apply Hgo|].
  destruct st; apply Hgo; try done; simpl; congruence.
Qed.

Lemma static_sync_return w wk now t e k loc u pm :
  0 < now → pm_wf pm → static_inv pm → pm_workers pm !! w = Some wk → w_pc wk = WSync k loc u →
  static_inv (sync_return w (w_id wk) now t e k loc u pm).
Proof.
  intros Hnow Hwf Hinv Hw Hpc.
  destruct (static_status _ _ _ Hinv Hw) as (loc' & s & Hl & Hu & Hs & Hloc & Hwk & Hal).
  rewrite Hpc in *. assert (loc = loc') as <- by (by apply Hloc). simpl in Hwk.
  unfold sync_return. rewrite Hs.
  assert (∀ s' pm0, ps_working s' = true → pm0 = status_put loc s' pm ∨
            pm0 = close_completed u (status_put loc s' pm) →
            static_inv (worker_goto w (WComplete e) pm0)) as Hgo.
  { intros s' pm0 Hs' Hpm0.
    assert (pm_store pm0 = <[loc := s']> (pm_store pm) ∧ pm_workers pm0 = pm_workers pm ∧
            pm_statuses pm0 = pm_statuses pm ∧ pm_updates pm0 = pm_updates pm ∧
            pm_consumer pm0 = pm_consumer pm ∧ pm_shutdown pm0 = pm_shutdown pm ∧
            pm_chans pm0 = pm_chans pm) as (E1 & E2 & E3 & E4 & E5 & E6 & E7).
    { destruct Hpm0 as [->| ->]; [done|]. unfold close_completed. by repeat case_match. }
    eapply (static_goto pm pm0); try done.
    - intros l ?. rewrite E1, lookup_insert_ne by congruence. done.
    - by rewrite E7.
    - split; [by rewrite E4|]. exists loc, s'. rewrite E3, E1, lookup_insert_eq.
      split_and!; try done. intros _ _. split; [done|]. intros _. right; right. by left. }
  destruct k.
  - apply (Hgo (syncProcess now t e s)); [|by left].
    unfold syncProcess. destruct s, e, t; simpl; repeat (case_match; simpl in *); done.
  - apply (Hgo (syncTerminating now (w_id wk) u e s)).
    + unfold syncTerminating. by destruct s, e.
    + case_match; auto.
  - apply (Hgo (syncTerminated now e s)); [|by left].
    unfold syncTerminated. by destruct s, e.
Qed.

Lemma static_complete w wk now r e pm :
  pm_wf pm → static_inv pm → pm_workers pm !! w = Some wk →
  static_inv (completeWork ovf pmc w now r (w_id wk) e pm).
Proof.
  intros Hwf Hinv Hw.
  destruct (static_status _ _ _ Hinv Hw) as (loc & s & Hl & Hu & Hs & _ & _ & _).
  unfold completeWork. rewrite Hl, Hs. case_match eqn:Hf.
  { eapply (static_goto pm (status_put _ _ _)); try done.
    - intros loc' ?. simpl. rewrite lookup_insert_ne by congruence. done.
    - split; [done|]. exists loc, (set_working false s). simpl. rewrite lookup_insert_eq.
      split_and!; try done. congruence. }
  set (s' := match e with Some _ => _ | None => _ end). simpl. rewrite Hu.
  assert (ps_working s' = false ∧ ps_pending s' = ps_pending s) as [E1 E2]
    by (unfold s'; by case_match).
  set (q := dq_enqueue _ _ _ _).
  assert (∀ pc, in_flight pc = false → pc_loc pc = None → pc ≠ WExited →
            (is_Some (ps_pending s) → pc = WSignal (w_ch wk)) →
            static_inv (worker_goto w pc (set_queue q (status_put loc s' pm)))) as Hgo.
  { intros pc Hfl Hpl Hex Hsig. eapply (static_goto pm (set_queue q (status_put loc s' pm)));
      try done.
    - intros loc' ?. simpl. rewrite lookup_insert_ne by congruence. done.
    - split; [done|]. exists loc, s'. simpl. rewrite lookup_insert_eq, E1, E2, Hfl, Hpl.
      split_and!; try done. intros _ _. split; [done|]. intros Hp%Hsig. right; right; right; by left. }
  destruct (ps_pending s') eqn:Hp; apply Hgo; try done; rewrite <- E2, ?Hp; by intros [? ?].
Qed.

Lemma static_signal w wk ch pm :
  pm_wf pm → static_inv pm → pm_workers pm !! w = Some wk → w_pc wk = WSignal ch →
  static_inv (worker_goto w WIdle (chan_signal ch pm)).
Proof.
  intros Hwf Hinv Hw Hpc.
  destruct (static_status _ _ _ Hinv Hw) as (loc & s & Hl & Hu & Hs & _ & Hwk & Hal).
  eapply (static_goto pm (chan_signal ch pm)); try done.
  - intros ch' _ Hch'. simpl. destruct (decide (ch = ch')) as [<-|Hne].
    + by rewrite lookup_insert_eq.
    + by rewrite lookup_insert_ne.
  - split; [done|]. exists loc, s. rewrite Hpc in *. split_and!; try done.
    intros Hf Hsh. split; [done|]. intros Hp. destruct (Hal Hf Hsh) as [_ Hwoken].
    destruct (Hwoken Hp) as [Hc|[Hc|[Hc|[Hc|Hc]]]].
    + left. simpl. destruct (decide (ch = w_ch wk)) as [<-|Hne];
        [by rewrite lookup_insert_eq|by rewrite lookup_insert_ne].
    + by rewrite Hpc in Hc.
    + by rewrite Hpc in Hc.
    + rewrite Hpc in Hc. injection Hc as ->. left. simpl. by rewrite lookup_insert_eq.
    + by do 4 right.
Qed.

Lemma static_stop w wk pm :
  pm_wf pm → static_inv pm → pm_workers pm !! w = Some wk → w_pc wk = WIdle →
  pm_shutdown pm = true → static_inv (worker_goto w WExited pm).
Proof.
  intros Hwf Hinv Hw Hpc Hsh.
  destruct (static_status _ _ _ Hinv Hw) as (loc & s & Hl & Hu & Hs & _ & Hwk & Hal).
  eapply (static_goto pm pm); try done.
  split; [done|]. exists loc, s. rewrite Hpc in Hwk. split_and!; try done. congruence.
Qed.

(** ** Steps of the callers and of the consumer *)

Lemma woken_signal ch pm wk : woken pm wk → woken (chan_signal ch pm) wk.
Proof.
  unfold woken. simpl. intros [Hc|?]; [|by auto]. left.
  destruct (decide (ch = w_ch wk)) as [<-|?];
    [by rewrite lookup_insert_eq|by rewrite lookup_insert_ne].
Qed.

Lemma woken_signalled pm wk : woken (chan_signal (w_ch wk) pm) wk.
Proof. left. simpl. by rewrite lookup_insert_eq. Qed.

Lemma submitted_working now u s :
  0 < now → ps_working (submitted now u s) = ps_working s ∧
  IsFinished (submitted now u s) = IsFinished s.
Proof.
  intros Hnow. unfold submitted. case_match; [|done].
  destruct (handleTerminationRequest_frame now (pu_TerminateOptions u) s Hnow)
    as (_ & _ & _ & _ & Hf & _ & Hwk & _).
  unfold IsFinished. simpl. by rewrite Hf, Hwk.
Qed.

Lemma static_created now u pm :
  0 < now → pm_wf pm → static_inv pm →
  pm_statuses pm !! pu_ID u = None → static_inv (created now u pm).
Proof.
  intros Hnow Hwf Hinv Hl.
  assert (∀ w wk, pm_workers pm !! w = Some wk →
            w_id wk ≠ pu_ID u ∧ (w_ch wk < S (pm_next pm))%nat) as Hfresh.
  { intros w wk Hw. destruct (static_status _ _ _ Hinv Hw) as (loc & s & Hl' & Hu & _).
    split; [congruence|]. destruct (wf_chan _ Hwf _ _ Hu) as [b Hb].
    pose proof (wf_chan_fresh _ Hwf _ _ Hb). lia. }
  assert (∀ w wk, pm_workers (created now u pm) !! w = Some wk →
    pm_workers pm !! w = Some wk ∨
    w = length (pm_workers pm) ∧ wk = mkWorker (pu_ID u) (S (pm_next pm)) WIdle) as Hsplit.
  { intros w wk. unfold created. simpl. intros [?|[Hlen Hw]]%lookup_app_Some; [by left|].
    apply list_lookup_singleton_Some in Hw as [? <-]. right. split; [lia|done]. }
  pose proof (submitted_working now u new_processStatus Hnow) as [E1 E2].
  split.
  - intros w wk [Hw|[-> ->]]%Hsplit.
    + destruct (Hfresh _ _ Hw) as [Hid Hch].
      eapply wk_ok_frame; [by eapply (st_ok _ Hinv)|..]; unfold created; simpl.
      * by rewrite lookup_insert_ne.
      * by rewrite lookup_insert_ne.
      * intros loc s _ Hs. exists s. rewrite lookup_insert_ne; [by auto|].
        intros <-. by rewrite store_fresh_None in Hs.
      * unfold woken. simpl. rewrite lookup_insert_ne by lia. done.
      * done.
    + split; unfold created, woken; simpl; [by rewrite lookup_insert_eq|].
      exists (pm_next pm), (submitted now u new_processStatus).
      rewrite !lookup_insert_eq. rewrite E1. split_and!; try done.
      intros _ _. split; [done|]. by left.
  - intros w1 w2 wk1 wk2 [H1|[-> ->]]%Hsplit [H2|[-> ->]]%Hsplit E; simpl in *; try done.
    + by eapply (st_id _ Hinv).
    + by destruct (Hfresh _ _ H1).
    + by destruct (Hfresh _ _ H2).
  - intros w1 w2 wk1 wk2 [H1|[-> ->]]%Hsplit [H2|[-> ->]]%Hsplit E; simpl in *; try done.
    + by eapply (st_ch _ Hinv).
    + destruct (Hfresh _ _ H1). lia.
    + destruct (Hfresh _ _ H2). lia.
  - intros id. unfold created. simpl. destruct (decide (pu_ID u = id)) as [<-|Hne].
    + intros _. eexists _, _. split; [by apply list_lookup_middle|done].
    + rewrite lookup_insert_ne by done. intros (w & wk & Hw & <-)%(st_has _ Hinv).
      exists w, wk. split; [|done]. by apply lookup_app_l_Some.
Qed.

Lemma static_UpdateProcess now u pm :
  0 < now → pm_wf pm → static_inv pm → static_inv (UpdateProcess now u pm).
Proof.
  intros Hnow Hwf Hinv. destruct (UpdateProcess_cases now u pm Hwf) as
    [(loc & ch & s & Hl & Hc & Hs & ->)|(Hl & Hc & ->)]; [|by apply static_created].
  case_match; [done|]. apply (static_others pm); try done. intros w wk Hw Hok.
  eapply wk_ok_frame; try done;
    [|exact (woken_signal ch (status_put loc (submitted now u s) pm) wk)].
  intros loc' s' Hl' Hs'. simpl. destruct (decide (loc = loc')) as [<-|Hne].
  - rewrite Hs in Hs'. injection Hs' as <-. exists (submitted now u s).
    rewrite lookup_insert_eq. destruct (submitted_working now u s Hnow) as [-> ->]. split_and!; try done.
    intros _. right. assert (w_id wk = pu_ID u) as Eid by (by eapply (wf_inj _ Hwf)).
    destruct Hok as [Hu _]. rewrite Eid, Hc in Hu. injection Hu as ->. apply woken_signalled.
  - exists s'. rewrite lookup_insert_ne by done. by split_and!; auto.
Qed.

Lemma static_consumer_lock now id pm :
  pm_wf pm → static_inv pm → pm_consumer pm = CGot id →
  static_inv (consumer_lock now id pm).
Proof.
  intros Hwf Hinv Hco. unfold consumer_lock.
  assert (∀ pm', pm' = set_consumer CIdle pm → static_inv pm') as Hidle.
  { intros pm' ->. apply (static_others pm); try done. intros w wk Hw Hok.
    eapply wk_ok_frame; try done.
    - intros loc s _ Hs. exists s. simpl. by split_and!; auto.
    - unfold woken. simpl. rewrite Hco. intuition done. }
  destruct (pm_statuses pm !! id) as [loc|] eqn:Hl; [|by apply Hidle].
  destruct (pm_updates pm !! id) as [ch|] eqn:Hc; [|by apply Hidle].
  destruct (pm_store pm !! loc) as [s|] eqn:Hs; [|by apply Hidle].
  set (s' := match ps_pending s with Some _ => _ | None => _ end).
  assert (ps_working s' = ps_working s ∧ IsFinished s' = IsFinished s) as [E1 E2]
    by (unfold s'; by repeat case_match).
  apply (static_others pm); try done. intros w wk Hw Hok.
  eapply wk_ok_frame; try done; simpl.
  - intros loc' s0 Hl' Hs0. destruct (decide (loc = loc')) as [<-|Hne].
    + rewrite Hs in Hs0. injection Hs0 as <-.
      exists s'. rewrite lookup_insert_eq, E1, E2. split_and!; try done.
      intros _. right. do 4 right. simpl.
      assert (w_id wk = id) as <- by (by eapply (wf_inj _ Hwf)).
      destruct Hok as [Hu _]. congruence.
    + exists s0. rewrite lookup_insert_ne by done. by split_and!; auto.
  - unfold woken. simpl. rewrite Hco. intuition done.
Qed.

(** A step that only changes the queue, the consumer or the shutdown flag. *)
Lemma static_quiet pm pm' :
  static_inv pm → pm_workers pm' = pm_workers pm → pm_statuses pm' = pm_statuses pm →
  pm_updates pm' = pm_updates pm → pm_store pm' = pm_store pm →
  (∀ wk, woken pm wk → woken pm' wk) →
  (pm_shutdown pm' = false → pm_shutdown pm = false) → static_inv pm'.
Proof.
  intros Hinv Ew Es Eu Est Hwoken Hsh. apply (static_others pm); try done.
  intros w wk Hw Hok. eapply wk_ok_frame; try done; [by rewrite Es|by rewrite Eu| |by auto].
  intros loc s _ Hs. exists s. rewrite Est. by split_and!; auto.
Qed.

Lemma static_exec l pm pm' :
  (∀ now ids, l ≠ LSyncKnown now ids) → pm_wf pm → static_inv pm →
  exec l pm = Some pm' → static_inv pm'.
Proof.
  intros Hns Hwf Hinv. unfold ProcMgr.exec. case_match eqn:Hclk; [done|]. bool_to_prop.
  unfold clock_ok in *. intros He. destruct l; simpl in *; bool_to_prop;
    try (destruct (pm_workers pm !! w) as [wk|] eqn:Hw; simpl in He; [|done];
         unfold exec_worker in He; destruct (w_pc wk) eqn:Epc; try done).
  - simplify_eq. by apply static_UpdateProcess.
  - destruct (pm_chans pm !! w_ch wk) as [[]|] eqn:Hch; try done. simplify_eq.
    by apply static_receive.
  - simplify_eq. by apply static_lock.
  - simplify_eq. by eapply static_execute.
  - simplify_eq. by eapply static_sync_return.
  - simplify_eq. by eapply static_complete.
  - simplify_eq. by eapply static_signal.
  - case_match; [|done]. simplify_eq. by eapply static_stop.
  - case_match eqn:Hco; try done. simplify_eq. unfold consumer_dequeue.
    repeat case_match; (apply (static_quiet pm); try done);
      unfold woken; simpl; rewrite Hco; intuition done.
  - case_match; try done. simplify_eq. by apply static_consumer_lock.
  - case_match eqn:Hco; try done. simplify_eq.
    apply (static_quiet pm); try done.
    intros wk [Hc|[Hc|[Hc|[Hc|Hc]]]].
    + left. simpl. destruct (decide (ch = w_ch wk)) as [<-|?];
        [by rewrite lookup_insert_eq|by rewrite lookup_insert_ne].
    + right. by left.
    + right; right; by left.
    + right; right; right; by left.
    + rewrite Hco in Hc. injection Hc as ->. left. simpl. by rewrite lookup_insert_eq.
  - repeat case_match; try done. simplify_eq. apply (static_quiet pm); try done.
    unfold woken. simpl. intuition congruence.
  - by exfalso; eapply Hns.
  - simplify_eq. by apply (static_quiet pm).
Qed.

Lemma static_init : static_inv pm_init.
Proof. split; try done. intros id. by intros [? ?]. Qed.

Lemma reachable_static_reachable pm : reachable_static pm → ProcMgr.reachable ovf pmc pm.
Proof. induction 1; by econstructor. Qed.

Lemma static_reachable pm : reachable_static pm → static_inv pm.
Proof.
  induction 1 as [|pm l pm' Hr IH Hns He]; [apply static_init|].
  eapply static_exec; eauto using wf_reachable, reachable_static_reachable.
Qed.

(** C1. Without [SyncKnownProcesses], the syncs of a process are serialized: no two
    workers with the same process id are between taking up an update and
    [completeWork], and the [working] flag of a known process is set exactly when
    its worker is. *)
Theorem syncs_are_serialized pm :
  reachable_static pm →
  (∀ w1 w2 wk1 wk2,
     pm_workers pm !! w1 = Some wk1 → pm_workers pm !! w2 = Some wk2 →
     w_id wk1 = w_id wk2 → in_flight (w_pc wk1) = true → in_flight (w_pc wk2) = true →
     w1 = w2) ∧
  (∀ id s, get_status id pm = Some s →
     ps_working s = true ↔
     ∃ w wk, pm_workers pm !! w = Some wk ∧ w_id wk = id ∧ in_flight (w_pc wk) = true).
Proof.
  intros Hinv%static_reachable. split.
  { intros w1 w2 wk1 wk2 H1 H2 E _ _. by eapply (st_id _ Hinv). }
  intros id s Hget. unfold get_status in Hget. case_match eqn:Hl; [|done]. split.
  - intros Hwk. destruct (st_has _ Hinv id) as (w & wk & Hw & <-); [by eauto|].
    destruct (static_status _ _ _ Hinv Hw) as (loc' & s' & ? & _ & ? & _ & Ewk & _).
    simplify_eq. exists w, wk. split_and!; congruence.
  - intros (w & wk & Hw & <- & Hfl).
    destruct (static_status _ _ _ Hinv Hw) as (loc' & s' & ? & _ & ? & _ & Ewk & _).
    simplify_eq. congruence.
Qed.

(** C2. No lost wakeup: without [SyncKnownProcesses], while the manager is not shut
    down, an update that is pending for a process that is not finished has a live
    worker, and that worker has a buffered signal, has taken its signal and is about
    to lock the manager and take up what is pending, is in a sync after which it
    signals itself, is about to signal itself, or is about to be signalled by the
    consumer of the work queue. *)
Theorem no_lost_wakeup pm id s :
  reachable_static pm → pm_shutdown pm = false →
  get_status id pm = Some s → IsFinished s = false → is_Some (ps_pending s) →
  ∃ w wk, pm_workers pm !! w = Some wk ∧ w_id wk = id ∧ w_pc wk ≠ WExited ∧ woken pm wk.
Proof.
  intros Hinv%static_reachable Hsh Hget Hf Hp. unfold get_status in Hget.
  case_match eqn:Hl; [|done]. destruct (st_has _ Hinv id) as (w & wk & Hw & <-); [by eauto|].
  destruct (static_status _ _ _ Hinv Hw) as (loc' & s' & ? & _ & ? & _ & _ & Hal).
  simplify_eq. destruct (Hal Hf Hsh) as [Hex Hwoken]. exists w, wk. auto.
Qed.
End Sync.
