(* ===== verification/ProcMgrProv.v ===== *)
(** * Where the data of a process comes from

    What the process manager keeps for a process id (pending and active updates, the
    update a worker is busy with) stems from updates submitted under that id: the
    configuration handed to the syncer was submitted for this process, and a
    completion channel that was closed belongs to a request for a process that has
    terminated.  The predicates [Cok id c] and [Hok id ch] say what was submitted;
    the clients of the manager choose them. *)

From S2P Require Import Prelude WorkQueue Backoff ProcMgr ProcMgrInv ProcMgrSync.
Import GoFloat.
Local Open Scope Z_scope.

Section Provenance.
Context {Cfg : Type} {Q : Type} `{!DelayQueue Q} (ovf : Z) (pmc : PMConfig).
Context (Cok : ProcessID → Cfg → Prop) (Hok : ProcessID → nat → Prop).

Implicit Types (pm : @ProcessManager Cfg Q) (s : @processStatus Cfg) (w loc ch : nat).
Implicit Types (wk : @worker Cfg) (pc : @worker_pc Cfg) (u : @ProcessUpdate Cfg).

Abbreviation exec := (exec (Cfg := Cfg) (Q := Q) ovf pmc).

(** The update is one for process [id]; one that carries a completion channel has no
    configuration. *)
Definition upd_ok (id : ProcessID) u : Prop :=
  pu_ID u = id ∧ (∀ c, pu_Config u = Some c → Cok id c) ∧
  (∀ o ch, pu_TerminateOptions u = Some o → to_CompletedCh o = Some ch →
     Hok id ch ∧ pu_Config u = None).

Definition pend_ok (id : ProcessID) s : Prop :=
  (∀ u, ps_pending s = Some u → upd_ok id u) ∧ (∀ u, ps_active s = Some u → upd_ok id u).

Definition pc_prov (id : ProcessID) pc : Prop :=
  match pc with WExec _ u _ | WSync _ _ u => upd_ok id u | _ => True end.

Record prov pm : Prop := {
  pv_status id loc s :
    pm_statuses pm !! id = Some loc → pm_store pm !! loc = Some s → pend_ok id s;
  pv_worker w wk : pm_workers pm !! w = Some wk → pc_prov (w_id wk) (w_pc wk) }.

(** A closed completion channel belongs to a terminated process. *)
Definition closed_ok pm : Prop :=
  ∀ ch, ch ∈ pm_closed pm → ∃ id, Hok id ch ∧ IsProcessTerminated id pm = true.

(** ** Moving workers and replacing status objects *)

Lemma prov_inert pm pm' :
  pm_statuses pm' = pm_statuses pm → pm_store pm' = pm_store pm →
  pm_workers pm' = pm_workers pm → prov pm → prov pm'.
Proof. intros E1 E2 E3 [P1 P2]. split; rewrite ?E1, ?E2, ?E3; eauto. Qed.

Lemma prov_goto w wk pc pm :
  prov pm → pm_workers pm !! w = Some wk → pc_prov (w_id wk) pc → prov (worker_goto w pc pm).
Proof.
  intros [P1 P2] Hw Hpc. destruct (worker_goto_frame w pc pm) as (E1 & _).
  split; rewrite ?E1, ?store_worker_goto; [eauto|].
  intros w' wk'. rewrite (workers_goto w wk) by done.
  intros [(<- & <- & _)|[_ ?]]%list_lookup_insert_Some; [done|eauto].
Qed.

Lemma prov_put id loc s pm :
  pm_wf pm → prov pm → pm_statuses pm !! id = Some loc → pend_ok id s →
  prov (status_put loc s pm).
Proof.
  intros Hwf [P1 P2] Hl Hs. split; simpl; [|eauto].
  intros id' loc' s' Hl' [[<- <-]|[_ ?]]%lookup_insert_Some; [|eauto].
  by rewrite (wf_inj _ Hwf _ _ _ Hl' Hl).
Qed.

(** A status transformer that only drops or keeps updates. *)
Lemma pend_ok_sub id s s' :
  (∀ u, ps_pending s' = Some u → ps_pending s = Some u ∨ ps_active s = Some u) →
  (∀ u, ps_active s' = Some u → ps_pending s = Some u ∨ ps_active s = Some u) →
  pend_ok id s → pend_ok id s'.
Proof. intros H1 H2 [P1 P2]. split; [intros u [?|?]%H1|intros u [?|?]%H2]; auto. Qed.

(** ** Every step *)

Lemma prov_lock w wk pm :
  pm_wf pm → prov pm → pm_workers pm !! w = Some wk →
  prov (processUpdate_lock w (w_id wk) pm).
Proof.
  intros Hwf Hp Hw. unfold processUpdate_lock.
  destruct (pm_statuses pm !! w_id wk) as [loc|] eqn:Hl; [|by eapply prov_goto].
  destruct (pm_store pm !! loc) as [s|] eqn:Hs; [|by eapply prov_goto].
  case_match; [by eapply prov_goto|]. case_match; [by eapply prov_goto|].
  destruct (ps_pending s) as [u|] eqn:Hu; [|by eapply prov_goto].
  destruct (pv_status _ Hp _ _ _ Hl Hs) as [P1 P2].
  set (s' := if ctx_live pm _ then _ else _).
  eapply prov_goto; [|done|by apply P1]. eapply prov_put; [done|done|done|].
  split; unfold s'; case_match; simpl; intros u' E; simplify_eq; auto.
Qed.

Lemma prov_execute w wk loc u st pm :
  prov pm → pm_workers pm !! w = Some wk → w_pc wk = WExec loc u st →
  prov (executeSync pmc w loc u st pm).
Proof.
  intros Hp Hw Hpc. pose proof (pv_worker _ Hp _ _ Hw) as Hu. rewrite Hpc in Hu. simpl in Hu.
  unfold executeSync. repeat case_match; by eapply prov_goto.
Qed.

Lemma prov_sync_return w wk now t e k loc u pm :
  pm_wf pm → static_inv pm → prov pm → pm_workers pm !! w = Some wk →
  w_pc wk = WSync k loc u → prov (sync_return w (w_id wk) now t e k loc u pm).
Proof.
  intros Hwf Hst Hp Hw Hpc. pose proof (pv_worker _ Hp _ _ Hw) as Hu. rewrite Hpc in Hu.
  simpl in Hu. destruct (static_status _ _ _ Hst Hw) as (loc' & s & Hl & _ & Hs & Hloc & _).
  rewrite Hpc in Hloc. specialize (Hloc loc eq_refl). subst loc'.
  pose proof (pv_status _ Hp _ _ _ Hl Hs) as Hps. unfold sync_return. rewrite Hs.
  assert (∀ s', pend_ok (w_id wk) s' →
            ∀ pm0, pm0 = status_put loc s' pm ∨ pm0 = close_completed u (status_put loc s' pm) →
            prov (worker_goto w (WComplete e) pm0)) as Hgo.
  { intros s' Hs' pm0 Hpm0. pose proof (prov_put _ _ _ _ Hwf Hp Hl Hs') as Hput.
    assert (pm_statuses pm0 = pm_statuses pm ∧ pm_workers pm0 = pm_workers pm ∧
            pm_store pm0 = pm_store (status_put loc s' pm)) as (E1 & E2 & E3).
    { destruct Hpm0 as [->| ->]; [done|]. unfold close_completed. by repeat case_match. }
    eapply (prov_goto w wk); [|by rewrite E2|done]. by eapply (prov_inert (status_put loc s' pm)). }
  destruct k.
  - eapply Hgo; [|by left]. eapply pend_ok_sub, Hps; unfold syncProcess;
      destruct s, e, t; simpl; repeat (case_match; simpl); auto.
  - eapply Hgo; [|case_match; auto]. destruct e; [by apply Hps|].
    split; simpl; [|by apply Hps]. intros u' [= <-]. split_and!; [done|apply Hu|done].
  - eapply Hgo; [|by left]. eapply pend_ok_sub, Hps; destruct s, e; simpl; auto.
Qed.

Lemma prov_complete w wk now r e pm :
  pm_wf pm → prov pm → pm_workers pm !! w = Some wk →
  prov (completeWork ovf pmc w now r (w_id wk) e pm).
Proof.
  intros Hwf Hp Hw. unfold completeWork.
  destruct (pm_statuses pm !! w_id wk) as [loc|] eqn:Hl; [|by eapply prov_goto].
  destruct (pm_store pm !! loc) as [s|] eqn:Hs; [|by eapply prov_goto].
  pose proof (pv_status _ Hp _ _ _ Hl Hs) as Hps.
  case_match; [by eapply prov_goto; [eapply prov_put|..]|].
  set (s' := match e with Some _ => _ | None => _ end).
  assert (prov (set_queue (dq_enqueue now (w_id wk) (requeue_delay ovf pmc r e s')
                  (pm_queue (status_put loc s' pm))) (status_put loc s' pm))) as Hq.
  { eapply (prov_inert (status_put loc s' pm)); try done. eapply prov_put; [done..|].
    unfold s'. by destruct e. }
  repeat case_match; by eapply prov_goto.
Qed.

Lemma prov_consumer_lock now id pm : pm_wf pm → prov pm → prov (consumer_lock now id pm).
Proof.
  intros Hwf Hp. unfold consumer_lock.
  destruct (pm_statuses pm !! id) as [loc|] eqn:Hl; [|by eapply (prov_inert pm)].
  destruct (pm_updates pm !! id) as [ch|]; [|by eapply (prov_inert pm)].
  destruct (pm_store pm !! loc) as [s|] eqn:Hs; [|by eapply (prov_inert pm)].
  pose proof (pv_status _ Hp _ _ _ Hl Hs) as Hps.
  eapply (prov_inert (status_put loc _ pm)); [done..|]. eapply prov_put; [done..|].
  destruct (ps_pending s) eqn:Hpe; [done|]. split; simpl; [|by apply Hps].
  intros u [= <-]. split; [done|]. split; [|done]. simpl.
  destruct (ps_active s) as [a|] eqn:Ha; [|done]. by apply Hps.
Qed.

Lemma prov_submitted id now u s :
  0 < now → upd_ok id u → pend_ok id s → pend_ok id (submitted now u s).
Proof.
  intros Hnow Hu Hs. assert (upd_ok id (stamped now u)) as Hst.
  { unfold stamped. by case_match. }
  unfold submitted. split; [by intros ? [= <-]|]. intros u' E. apply Hs. revert E. case_match; [|done]. destruct s.
  unfold handleTerminationRequest, cancel_status.
  destruct (pu_TerminateOptions u) as [[? [] [g|]]|]; simpl; repeat (case_match; simpl in *); done.
Qed.

Lemma prov_UpdateProcess now u pm :
  0 < now → pm_wf pm → prov pm → upd_ok (pu_ID u) u → prov (UpdateProcess now u pm).
Proof.
  intros Hnow Hwf Hp Hu. destruct (UpdateProcess_cases now u pm Hwf) as
    [(loc & ch & s & Hl & Hc & Hs & ->)|(Hl & Hc & ->)].
  - case_match; [done|]. eapply (prov_inert (status_put loc (submitted now u s) pm)); [done..|].
    eapply prov_put; [done..|]. apply prov_submitted; [done|done|]. by eapply (pv_status _ Hp).
  - unfold created. split; simpl.
    + intros id loc s [[<- <-]|[Hne Hl']]%lookup_insert_Some.
      * rewrite lookup_insert_eq. intros [= <-]. by apply prov_submitted.
      * rewrite lookup_insert_ne; [by apply (pv_status _ Hp)|]. intros <-.
        apply (wf_loc _ Hwf) in Hl' as [s0 Hs0]. by rewrite store_fresh_None in Hs0.
    + intros w wk [?|[_ Hw]]%lookup_app_Some; [by eapply (pv_worker _ Hp)|].
      by apply list_lookup_singleton_Some in Hw as [_ <-].
Qed.

(** The update of a label, when it is a submission. *)
Definition label_ok (l : @label Cfg) : Prop :=
  match l with
  | LUpdate _ u => upd_ok (pu_ID u) u
  | LSyncKnown _ _ => False
  | _ => True
  end.

Lemma prov_exec l pm pm' :
  label_ok l → pm_wf pm → static_inv pm → prov pm → exec l pm = Some pm' → prov pm'.
Proof.
  intros Hlok Hwf Hst Hp. unfold ProcMgr.exec. case_match eqn:Hclk; [done|]. bool_to_prop.
  unfold clock_ok in *. intros He. destruct l; simpl in *; bool_to_prop;
    try (destruct (pm_workers pm !! w) as [wk|] eqn:Hw; simpl in He; [|done];
         unfold exec_worker in He; destruct (w_pc wk) eqn:Epc; try done).
  - simplify_eq. by apply prov_UpdateProcess.
  - destruct (pm_chans pm !! w_ch wk) as [[]|] eqn:Hch; try done. simplify_eq.
    eapply (prov_goto w wk); [by eapply (prov_inert pm)|done|done].
  - simplify_eq. by apply prov_lock.
  - simplify_eq. by eapply prov_execute.
  - simplify_eq. by eapply prov_sync_return.
  - simplify_eq. by eapply prov_complete.
  - simplify_eq. eapply (prov_goto w wk); [by eapply (prov_inert pm)|done|done].
  - case_match; [|done]. simplify_eq. by eapply prov_goto.
  - case_match; try done. simplify_eq. unfold consumer_dequeue.
    repeat case_match; by eapply (prov_inert pm).
  - case_match; try done. simplify_eq. by apply prov_consumer_lock.
  - case_match; try done. simplify_eq. by eapply (prov_inert pm).
  - repeat case_match; try done. simplify_eq. by eapply (prov_inert pm).
  - done.
  - simplify_eq. by eapply (prov_inert pm).
Qed.

(** ** Closed channels *)

Lemma IsProcessTerminated_true id pm :
  IsProcessTerminated id pm = true ↔
  ∃ loc s, pm_statuses pm !! id = Some loc ∧ pm_store pm !! loc = Some s ∧
           ps_terminatedAt s ≠ 0.
Proof.
  unfold IsProcessTerminated, get_status. split.
  - repeat case_match; try done. intros ?%IsTerminated_true. eauto.
  - intros (loc & s & -> & -> & Hf). by apply IsTerminated_true.
Qed.

Lemma terminated_exec l pm pm' id :
  pm_wf pm → is_sync_known l = false → exec l pm = Some pm' →
  IsProcessTerminated id pm = true → IsProcessTerminated id pm' = true.
Proof.
  intros Hwf Hk He (loc & s & Hl & Hs & Hf)%IsProcessTerminated_true.
  apply IsProcessTerminated_true.
  destruct (evolves_exec _ _ l pm pm' Hwf He loc s Hs) as (s' & Hs' & Hev).
  exists loc, s'. split_and!; [|done|by apply Hev].
  destruct (maps_exec _ _ l pm pm' Hwf Hk He) as [Hsub _]. by eapply lookup_weaken.
Qed.

Lemma closed_worker_goto w pc pm : pm_closed (worker_goto w pc pm) = pm_closed pm.
Proof. unfold worker_goto. by case_match. Qed.

(** A returning syncer closes a channel only when it has completed the termination that
    an update without configuration asked for. *)
Lemma closed_sync_return w wk now t e k loc u pm ch :
  0 < now → static_inv pm → prov pm → pm_workers pm !! w = Some wk → w_pc wk = WSync k loc u →
  let pm' := sync_return w (w_id wk) now t e k loc u pm in
  ch ∈ pm_closed pm' →
  ch ∈ pm_closed pm ∨
  Hok (w_id wk) ch ∧ IsProcessTerminated (w_id wk) pm' = true ∧
    k = KTerminating ∧ e = None ∧ pu_Config u = None.
Proof.
  intros Hnow Hst Hp Hw Hpc. pose proof (pv_worker _ Hp _ _ Hw) as Hu. rewrite Hpc in Hu.
  destruct (static_status _ _ _ Hst Hw) as (loc' & s & Hl & _ & Hs & Hloc & _).
  rewrite Hpc in Hloc. specialize (Hloc loc eq_refl). subst loc'. destruct Hu as (_ & _ & Hu).
  intros pm'. rewrite IsProcessTerminated_true. unfold pm', sync_return. rewrite Hs.
  match goal with |- context [worker_goto w ?pc ?pm0] =>
    destruct (worker_goto_frame w pc pm0) as (-> & _) end.
  rewrite store_worker_goto, closed_worker_goto.
  destruct k, e; simpl; auto. unfold close_completed.
  destruct (pu_TerminateOptions u) as [[[ch'|] ev g]|] eqn:Ho; simpl; auto.
  case_bool_decide; simpl; auto.
  intros [->%elem_of_singleton|?]%elem_of_union; [right|by left].
  destruct (Hu _ ch' eq_refl eq_refl). split_and!; try done.
  exists loc. rewrite lookup_insert_eq. eexists. split_and!; [done|done|].
  simpl. lia.
Qed.

(** No other step closes a channel. *)
Lemma closed_exec_other l pm pm' :
  pm_wf pm → (∀ w now t e, l ≠ LSyncReturn w now t e) → is_sync_known l = false →
  exec l pm = Some pm' → pm_closed pm' = pm_closed pm.
Proof.
  intros Hwf Hl Hk. unfold ProcMgr.exec. case_match; [done|]. intros He.
  destruct l; simpl in *; try done;
    try (destruct (pm_workers pm !! w) as [wk|] eqn:Hw; simpl in He; [|done];
         unfold exec_worker in He; destruct (w_pc wk) eqn:Epc; try done).
  - simplify_eq. destruct (UpdateProcess_cases now update pm Hwf) as
      [(loc & ch' & s & _ & _ & _ & ->)|(_ & _ & ->)]; [case_match|]; auto.
  - destruct (pm_chans pm !! w_ch wk) as [[]|]; try done. simplify_eq.
    by rewrite closed_worker_goto.
  - simplify_eq. unfold processUpdate_lock. repeat case_match; rewrite closed_worker_goto; auto.
  - simplify_eq. unfold executeSync. repeat case_match; rewrite closed_worker_goto; auto.
  - exfalso. by eapply Hl.
  - simplify_eq. unfold completeWork. repeat case_match; rewrite closed_worker_goto; auto.
  - simplify_eq. rewrite closed_worker_goto. auto.
  - case_match; [|done]. simplify_eq. rewrite closed_worker_goto. auto.
  - case_match; try done. simplify_eq. unfold consumer_dequeue. repeat case_match; auto.
  - case_match; try done. simplify_eq. unfold consumer_lock. repeat case_match; auto.
  - case_match; try done. simplify_eq. auto.
  - repeat case_match; try done. simplify_eq. auto.
  - simplify_eq. auto.
Qed.

Lemma exec_return w now t e pm pm' :
  exec (LSyncReturn w now t e) pm = Some pm' →
  0 < now ∧ ∃ wk k loc u, pm_workers pm !! w = Some wk ∧ w_pc wk = WSync k loc u ∧
    pm' = sync_return w (w_id wk) now t e k loc u pm.
Proof.
  unfold ProcMgr.exec. case_match eqn:Hclk; [done|]. unfold clock_ok in *. simpl in *. bool_to_prop.
  destruct (pm_workers pm !! w) as [wk|] eqn:Hw; simpl; [|done].
  unfold exec_worker. destruct (w_pc wk) eqn:Epc; try done. intros [= <-].
  split; [done|]. by eexists _, _, _, _.
Qed.

(** Which channel a step can close, and that its process has terminated then. *)
Lemma closed_exec l pm pm' ch :
  label_ok l → pm_wf pm → static_inv pm → prov pm → exec l pm = Some pm' →
  ch ∈ pm_closed pm' →
  ch ∈ pm_closed pm ∨ ∃ id, Hok id ch ∧ IsProcessTerminated id pm' = true.
Proof.
  intros Hlok Hwf Hst Hp He.
  assert ((∃ w now t e, l = LSyncReturn w now t e) ∨ ∀ w now t e, l ≠ LSyncReturn w now t e)
    as [(w & now & t & e & ->)|Hl].
  { destruct l; try (by right). left. eauto. }
  - apply exec_return in He as (Hnow & wk & k & loc & u & Hw & Hpc & ->).
    intros [?|(? & ? & _)]%closed_sync_return; eauto.
  - intros Hch. left. by rewrite <- (closed_exec_other l pm pm') by (try done; by destruct l).
Qed.

Lemma closed_ok_exec l pm pm' :
  label_ok l → pm_wf pm → static_inv pm → prov pm → closed_ok pm →
  exec l pm = Some pm' → closed_ok pm'.
Proof.
  intros Hlok Hwf Hst Hp Hcl He ch Hch.
  destruct (closed_exec l pm pm' ch Hlok Hwf Hst Hp He Hch) as [Hold|?]; [|done].
  destruct (Hcl ch Hold) as (id & Hid & Ht). exists id. split; [done|].
  eapply terminated_exec; [done| |done|done]. by destruct l.
Qed.

Lemma prov_init : prov pm_init.
Proof. split; done. Qed.
Lemma closed_ok_init : closed_ok pm_init.
Proof. intros ch. set_solver. Qed.
End Provenance.

(** More submissions. *)
Lemma prov_mono {Cfg Q} (C C' : ProcessID → Cfg → Prop) (H H' : ProcessID → nat → Prop)
    (pm : @ProcessManager Cfg Q) :
  (∀ id c, C id c → C' id c) → (∀ id ch, H id ch → H' id ch) →
  (prov C H pm → prov C' H' pm) ∧ (closed_ok H pm → closed_ok H' pm).
Proof.
  intros HC HH. assert (∀ id u, upd_ok C H id u → upd_ok C' H' id u) as Hu.
  { intros id u (? & ? & ?). split_and!; naive_solver. }
  split.
  - intros [P1 P2]. split.
    + intros id loc s Hl Hs. destruct (P1 id loc s Hl Hs). split; eauto.
    + intros w wk Hw. specialize (P2 w wk Hw). destruct (w_pc wk); simpl in *; eauto.
  - intros Hcl ch (id & ? & ?)%Hcl. eauto.
Qed.
