(* ===== verification/ProcMgrRuns.v ===== *)
(** * Runs of the process manager

    A termination request carries a process through to [Finished] when the syncer
    succeeds; concrete runs of the manager on its own work queue: they instantiate
    the general theorems and show the behaviours that those theorems exclude only
    under their hypotheses. *)

From S2P Require Import Prelude WorkQueue Backoff ProcMgr ProcMgrInv ProcMgrReconcile ProcMgrSync.
Import GoFloat.
Local Open Scope Z_scope.

Section Termination.
Context {Cfg : Type} {Q : Type} `{!DelayQueue Q} (ovf : Z) (pmc : PMConfig).
Context (id : ProcessID) (loc w ch : nat).
Hypothesis has_syncer : pmc_syncer pmc = true.

Implicit Types (pm : @ProcessManager Cfg Q) (s : @processStatus Cfg).

Abbreviation exec := (exec (Cfg := Cfg) (Q := Q) ovf pmc).

(** The process [id], its status object, its channel and its worker. *)
Record view pm s (pc : @worker_pc Cfg) (closed : gset nat) : Prop := {
  v_status : pm_statuses pm !! id = Some loc;
  v_update : pm_updates pm !! id = Some ch;
  v_store : pm_store pm !! loc = Some s;
  v_worker : pm_workers pm !! w = Some (mkWorker id ch pc);
  v_shutdown : pm_shutdown pm = false;
  v_panicked : pm_panicked pm = false;
  v_closed : pm_closed pm = closed }.

(** A worker moves on after its status object changed. *)
Lemma view_goto pm pm0 s s' pc pc' cl cl' :
  view pm s pc cl →
  pm_statuses pm0 = pm_statuses pm → pm_updates pm0 = pm_updates pm →
  pm_store pm0 !! loc = Some s' → pm_workers pm0 = pm_workers pm →
  pm_shutdown pm0 = pm_shutdown pm → pm_panicked pm0 = pm_panicked pm →
  pm_closed pm0 = cl' →
  view (worker_goto w pc' pm0) s' pc' cl'.
Proof.
  intros [V1 V2 V3 V4 V5 V6 V7] E1 E2 E3 E4 E5 E6 E7. unfold worker_goto.
  rewrite E4, V4. split; simpl; rewrite ?E1, ?E2, ?E3, ?E5, ?E6; try done.
  by rewrite list_lookup_insert_eq by (by eapply lookup_lt_Some).
Qed.

Lemma same_stamps_State s s' : same_stamps s s' → State s' = State s.
Proof. unfold same_stamps, State. intros (-> & _ & -> & -> & -> & _). done. Qed.

Lemma step_receive pm s cl :
  view pm s WIdle cl → pm_chans pm !! ch = Some true →
  ∃ pm', exec (LReceive w) pm = Some pm' ∧ view pm' s WGot cl.
Proof.
  intros V Hch. destruct V as [V1 V2 V3 V4 V5 V6 V7] eqn:E. clear E.
  unfold ProcMgr.exec. rewrite V6. simpl. rewrite V4. simpl. rewrite Hch.
  eexists. split; [done|]. by eapply view_goto; [by split|..].
Qed.

Lemma step_lock pm s cl u :
  view pm s WGot cl →
  IsFinished s = false → ps_working s = false → ps_pending s = Some u →
  ∃ pm' s', exec (LLock w) pm = Some pm' ∧ view pm' s' (WExec loc u (State s)) cl ∧
    same_stamps s s' ∧ ps_pending s' = None.
Proof.
  intros V Hf Hwk Hp. destruct V as [V1 V2 V3 V4 V5 V6 V7] eqn:E. clear E.
  unfold ProcMgr.exec. rewrite V6. simpl. rewrite V4. simpl.
  unfold processUpdate_lock. rewrite V1, V3, Hf, Hwk, Hp.
  set (s' := if ctx_live _ _ then _ else _).
  assert (same_stamps s s' ∧ ps_pending s' = None) as [Hst Hpn]
    by (unfold s'; by case_match).
  rewrite <- (same_stamps_State _ _ Hst).
  eexists _, s'. split; [done|]. split_and!; try done.
  eapply view_goto; [by split|..]; try done. simpl. by rewrite lookup_insert_eq.
Qed.

Lemma step_execute pm s cl u st :
  view pm s (WExec loc u st) cl → st = ProcessStateTerminating ∨ st = ProcessStateTerminated →
  ∃ pm', exec (LExecute w) pm = Some pm' ∧
    view pm' s (WSync (if bool_decide (st = ProcessStateTerminating)
                       then KTerminating else KTerminated) loc u) cl.
Proof.
  intros V Hst. destruct V as [V1 V2 V3 V4 V5 V6 V7] eqn:E. clear E.
  unfold ProcMgr.exec. rewrite V6. simpl. rewrite V4. simpl.
  unfold executeSync. rewrite has_syncer. simpl.
  destruct Hst as [-> | ->]; eexists; (split; [done|]);
    (eapply view_goto; [by split|..]; done).
Qed.

(** [SyncTerminatingProcess] succeeds: the completion channel is closed. *)
Lemma step_terminating pm s cl u now c :
  0 < now → view pm s (WSync KTerminating loc u) cl →
  to_CompletedCh <$> pu_TerminateOptions u = Some (Some c) → c ∉ cl →
  ∃ pm', exec (LSyncReturn w now false None) pm = Some pm' ∧
    view pm' (syncTerminating now id u None s) (WComplete None) ({[c]} ∪ cl).
Proof.
  intros Hnow V Hopt Hc. destruct V as [V1 V2 V3 V4 V5 V6 V7] eqn:E. clear E.
  unfold ProcMgr.exec. rewrite V6. unfold clock_ok. simpl.
  destruct (0 <? now) eqn:Hn; bool_to_prop; [|lia]. simpl. rewrite V4. simpl.
  unfold sync_return. rewrite V3. eexists. split; [done|].
  destruct (pu_TerminateOptions u) as [[[c'|] ev g]|] eqn:Eo; simplify_eq/=.
  unfold close_completed. rewrite Eo. simpl. rewrite bool_decide_eq_false_2 by done.
  eapply view_goto; [by split|..]; simpl; try done. by rewrite lookup_insert_eq.
Qed.

Lemma step_terminated pm s cl u now :
  0 < now → view pm s (WSync KTerminated loc u) cl →
  ∃ pm', exec (LSyncReturn w now false None) pm = Some pm' ∧
    view pm' (syncTerminated now None s) (WComplete None) cl.
Proof.
  intros Hnow V. destruct V as [V1 V2 V3 V4 V5 V6 V7] eqn:E. clear E.
  unfold ProcMgr.exec. rewrite V6. unfold clock_ok. simpl.
  destruct (0 <? now) eqn:Hn; bool_to_prop; [|lia]. simpl. rewrite V4. simpl.
  unfold sync_return. rewrite V3. eexists. split; [done|].
  eapply view_goto; [by split|..]; simpl; try done. by rewrite lookup_insert_eq.
Qed.

(** [completeWork] after a success: with an update pending the worker signals
    itself, unless the process is finished. *)
Lemma step_complete pm s cl now r u :
  0 < now → view pm s (WComplete None) cl → (IsFinished s = false → ps_pending s = Some u) →
  ∃ pm' s', exec (LComplete w now r) pm = Some pm' ∧
    view pm' s' (if IsFinished s then WIdle else WSignal ch) cl ∧
    same_stamps s s' ∧ ps_working s' = false ∧ ps_pending s' = ps_pending s.
Proof.
  intros Hnow V Hp. destruct V as [V1 V2 V3 V4 V5 V6 V7] eqn:E. clear E.
  unfold ProcMgr.exec. rewrite V6. unfold clock_ok. simpl.
  destruct (0 <? now) eqn:Hn; bool_to_prop; [|lia]. simpl. rewrite V4. simpl.
  unfold completeWork. rewrite V1, V3.
  change (IsFinished (set_working false s)) with (IsFinished s).
  destruct (IsFinished s) eqn:Hf.
  - eexists _, (set_working false s). split; [done|]. split; [|by split_and!].
    eapply view_goto; [by split|..]; simpl; try done. by rewrite lookup_insert_eq.
  - simpl. rewrite (Hp eq_refl), V2.
    eexists _, (set_consecutiveFails 0 (set_working false s)). split; [done|].
    split; [|by split_and!; auto].
    eapply view_goto; [by split|..]; simpl; try done. by rewrite lookup_insert_eq.
Qed.

Lemma step_signal pm s cl :
  view pm s (WSignal ch) cl →
  ∃ pm', exec (LSignal w) pm = Some pm' ∧ view pm' s WIdle cl ∧
    pm_chans pm' !! ch = Some true.
Proof.
  intros V. destruct V as [V1 V2 V3 V4 V5 V6 V7] eqn:E. clear E.
  unfold ProcMgr.exec. rewrite V6. simpl. rewrite V4. simpl.
  eexists. split; [done|]. split.
  - eapply view_goto; [by split|..]; done.
  - destruct (worker_goto_frame w WIdle (chan_signal ch pm)) as (_ & _ & _ & -> & _).
    simpl. by rewrite lookup_insert_eq.
Qed.

Lemma step_update pm s pc cl now u :
  0 < now → view pm s pc cl → pu_ID u = id → IsFinished s = false →
  ∃ pm', exec (LUpdate now u) pm = Some pm' ∧ view pm' (submitted now u s) pc cl ∧
    pm_chans pm' !! ch = Some true.
Proof.
  intros Hnow V Hid Hf. destruct V as [V1 V2 V3 V4 V5 V6 V7].
  unfold ProcMgr.exec. rewrite V6. unfold clock_ok. simpl.
  destruct (0 <? now) eqn:Hn; bool_to_prop; [|lia]. simpl.
  rewrite <- Hid in V1, V2.
  rewrite (UpdateProcess_existing now u pm loc ch s V1 V2 V3), Hf.
  rewrite Hid in V1, V2. eexists. split; [done|].
  split; [split; simpl; try done; by rewrite lookup_insert_eq|].
  simpl. by rewrite lookup_insert_eq.
Qed.

Lemma State_submitted now u s :
  0 < now → rank (State s) ≤ 2 → pu_UpdateType u = UpdateTypeTerminate →
  State (submitted now u s) = ProcessStateTerminating ∧
  IsFinished s = false ∧ ps_working (submitted now u s) = ps_working s ∧
  IsFinished (submitted now u s) = false ∧
  ps_pending (submitted now u s) = Some (stamped now u).
Proof.
  intros Hnow Hr Ht.
  destruct (handleTerminationRequest_frame now (pu_TerminateOptions u) s Hnow)
    as (E1 & E2 & E3 & E4 & E5 & _ & E6 & _).
  assert (ps_finishedAt s = 0 ∧ ps_terminatedAt s = 0) as [F1 F2].
  { unfold State in Hr. repeat case_match; bool_to_prop; simpl in Hr; try lia; done. }
  unfold submitted. rewrite bool_decide_eq_true_2 by done.
  unfold State, IsFinished. cbn -[handleTerminationRequest]. rewrite E3, E4, E5, E6, F1, F2.
  split_and!; try done. simpl. unfold IsTerminating.
  destruct (IsZero (ps_terminatingAt s)) eqn:Hz; simpl; [|by rewrite Hz].
  unfold IsZero. destruct (now =? 0) eqn:?; bool_to_prop; [lia|done].
Qed.

Lemma State_syncTerminating now u s :
  0 < now → ps_finishedAt s = 0 →
  State (syncTerminating now id u None s) = ProcessStateTerminated.
Proof.
  intros Hnow Hf. destruct s; simpl in *; subst. unfold State. simpl.
  unfold IsZero. destruct (now =? 0) eqn:?; bool_to_prop; [lia|done].
Qed.

Lemma State_syncTerminated now s :
  0 < now → State (syncTerminated now None s) = ProcessStateFinished.
Proof. intros Hnow. apply State_finished. simpl. lia. Qed.

Lemma IsFinished_State s : IsFinished s = bool_decide (State s = ProcessStateFinished).
Proof.
  destruct (IsFinished s) eqn:Hf; symmetry.
  - by apply bool_decide_eq_true_2, State_finished, IsFinished_true.
  - apply bool_decide_eq_false_2. rewrite State_finished, <- IsFinished_true. congruence.
Qed.

(** From a pending termination to the end of the process. *)
Lemma terminate_run pm s cl u c t2 t3 t4 t5 r r' :
  0 < t2 → 0 < t3 → 0 < t4 → 0 < t5 →
  view pm s WIdle cl → pm_chans pm !! ch = Some true →
  State s = ProcessStateTerminating → ps_working s = false → ps_pending s = Some u →
  to_CompletedCh <$> pu_TerminateOptions u = Some (Some c) → c ∉ cl →
  ∃ pm' s', ProcMgr.run ovf pmc
      [LReceive w; LLock w; LExecute w; LSyncReturn w t2 false None; LComplete w t3 r; LSignal w;
       LReceive w; LLock w; LExecute w; LSyncReturn w t4 false None; LComplete w t5 r'] pm = Some pm' ∧
    view pm' s' WIdle ({[c]} ∪ cl) ∧ State s' = ProcessStateFinished.
Proof.
  intros Ht2 Ht3 Ht4 Ht5 V Hch Hst Hwk Hp Ho Hc.
  assert (IsFinished s = false) as Hf by (rewrite IsFinished_State, Hst; done).
  destruct (step_receive _ _ _ V Hch) as (pm0 & E0 & V0).
  destruct (step_lock _ _ _ _ V0 Hf Hwk Hp) as (pm1 & s1 & E1 & V1 & St1 & _).
  destruct (step_execute _ _ _ _ _ V1) as (pm2 & E2 & V2); [by left|].
  rewrite bool_decide_eq_true_2 in V2 by done.
  destruct (step_terminating _ _ _ _ t2 c Ht2 V2 Ho Hc) as (pm3 & E3 & V3).
  assert (State (syncTerminating t2 id u None s1) = ProcessStateTerminated) as S3.
  { apply State_syncTerminating; [done|]. destruct St1 as (_ & _ & _ & _ & -> & _).
    unfold IsFinished in Hf. by bool_to_prop. }
  destruct (step_complete _ _ _ t3 r (mkProcessUpdate id UpdateTypeSync t2 (pu_Config u) None)
              Ht3 V3) as (pm4 & s4 & E4 & V4 & St4 & W4 & P4); [done|].
  rewrite IsFinished_State, S3 in V4. simpl in V4.
  destruct (step_signal _ _ _ V4) as (pm5 & E5 & V5 & C5).
  pose proof (same_stamps_State _ _ St4) as S4. rewrite S3 in S4.
  destruct (step_receive _ _ _ V5 C5) as (pm5' & E5' & V5').
  destruct (step_lock _ _ _ (mkProcessUpdate id UpdateTypeSync t2 (pu_Config u) None) V5')
    as (pm6 & s6 & E6 & V6 & St6 & _); [by rewrite IsFinished_State, S4|done|by rewrite P4|].
  destruct (step_execute _ _ _ _ _ V6) as (pm7 & E7 & V7); [by right|]. rewrite S4 in V7.
  destruct (step_terminated _ _ _ _ t4 Ht4 V7) as (pm8 & E8 & V8).
  pose proof (State_syncTerminated t4 s6 Ht4) as S8.
  destruct (step_complete _ _ _ t5 r' u Ht5 V8) as (pm9 & s9 & E9 & V9 & St9 & _).
  { by rewrite IsFinished_State, S8. }
  rewrite IsFinished_State, S8 in V9.
  exists pm9, s9. split_and!; [|done|by rewrite (same_stamps_State _ _ St9)].
  unfold ProcMgr.run; cbn [run_labels]. rewrite E0; simpl. rewrite E1; simpl. rewrite E2; simpl. rewrite E3; simpl.
  rewrite E4; simpl. rewrite E5; simpl. rewrite E5'; simpl. rewrite E6; simpl. rewrite E7; simpl.
  rewrite E8; simpl. by rewrite E9.
Qed.

(** C7. A termination request completes when the syncer succeeds: from any state
    reached without [SyncKnownProcesses] in which the process has not terminated
    and its worker is idle, submitting the request and letting the worker run to
    the end of its loop twice finishes the process and closes the completion
    channel of the request. *)
Theorem termination_completes pm s u c t1 t2 t3 t4 t5 r r' :
  0 < t1 → 0 < t2 → 0 < t3 → 0 < t4 → 0 < t5 →
  reachable_static ovf pmc pm → view pm s WIdle (pm_closed pm) → rank (State s) ≤ 2 →
  pu_ID u = id → pu_UpdateType u = UpdateTypeTerminate →
  to_CompletedCh <$> pu_TerminateOptions u = Some (Some c) → c ∉ pm_closed pm →
  ∃ pm', ProcMgr.run ovf pmc
      [LUpdate t1 u;
       LReceive w; LLock w; LExecute w; LSyncReturn w t2 false None; LComplete w t3 r; LSignal w;
       LReceive w; LLock w; LExecute w; LSyncReturn w t4 false None; LComplete w t5 r'] pm = Some pm' ∧
    IsProcessFinished id pm' = true ∧ c ∈ pm_closed pm'.
Proof.
  intros Ht1 Ht2 Ht3 Ht4 Ht5 Hr V Hrank Hid Hty Ho Hc.
  destruct (State_submitted t1 u s Ht1 Hrank Hty) as (S1 & Hf & W1 & _ & P1).
  apply static_reachable in Hr.
  destruct (static_status _ _ _ Hr (v_worker _ _ _ _ V))
    as (loc' & s' & Hl & _ & Hs & _ & Hwk & _). cbn in Hl, Hwk.
  rewrite (v_status _ _ _ _ V) in Hl. injection Hl as <-.
  rewrite (v_store _ _ _ _ V) in Hs. injection Hs as <-.
  destruct (step_update _ _ _ _ t1 u Ht1 V Hid Hf) as (pm1 & E1 & V1 & C1).
  destruct (stamped_frame t1 u) as (_ & _ & Eo).
  destruct (terminate_run pm1 (submitted t1 u s) (pm_closed pm) (stamped t1 u) c
              t2 t3 t4 t5 r r') as (pm' & s' & Erun & V' & S'); try done.
  { by rewrite W1. }
  { by rewrite Eo. }
  exists pm'. split_and!.
  - change (ProcMgr.run ovf pmc (?l :: ?ls) pm) with
      (pm1 ← exec l pm; ProcMgr.run ovf pmc ls pm1). by rewrite E1.
  - apply IsProcessFinished_true. exists loc, s'.
    split_and!; [apply V'|apply V'|by apply State_finished].
  - rewrite (v_closed _ _ _ _ V'). set_solver.
Qed.
End Termination.

(** ** Concrete runs

    One process, a manager with a syncer and its own work queue. *)

Module Demo.
Definition cfg : PMConfig := WithSyncer default_PMConfig.
Definition overflowed : Z := 0.

Abbreviation manager := (@ProcessManager unit workQueue).
Abbreviation from_init ls := (run overflowed cfg ls (pm_init (Cfg := unit) (Q := workQueue))).

Definition upd (ty : UpdateType) (opts : option TerminateOptions) : @ProcessUpdate unit :=
  mkProcessUpdate "p"%string ty 0 None opts.

(** One turn of the worker in which the syncer succeeds. *)
Definition turn (w : nat) (t : Z) : list (@label unit) :=
  [LReceive w; LLock w; LExecute w; LSyncReturn w t false None; LComplete w t f64_half].

Definition create : list (@label unit) := [LUpdate 1 (upd UpdateTypeCreate None)].
Definition running : list (@label unit) := create ++ turn 0 2.
Definition terminate (opts : option TerminateOptions) : @label unit :=
  LUpdate 3 (upd UpdateTypeTerminate opts).
Definition terminating : list (@label unit) := running ++ [terminate None].
Definition finished : list (@label unit) :=
  terminating ++ turn 0 4 ++ [LSignal 0] ++ turn 0 5.

Definition after (ls : list (@label unit)) : manager := default pm_init (from_init ls).

Lemma after_reachable ls :
  is_Some (from_init ls) → reachable overflowed cfg (after ls).
Proof.
  intros [pm E]. unfold after. rewrite E. eapply run_reachable; [constructor|done].
Qed.

Lemma run_reachable_static ls pm pm' :
  reachable_static overflowed cfg pm → Forall (λ l, is_sync_known l = false) ls →
  run overflowed cfg ls pm = Some pm' →
  reachable_static (Cfg := unit) (Q := workQueue) overflowed cfg pm'.
Proof.
  intros Hr. apply run_labels_invariant_on; [|done]. intros pm0 l pm1 Hr0 Hl He.
  econstructor; [done| |done]. by intros ? ? ->.
Qed.

Lemma after_reachable_static ls :
  is_Some (from_init ls) → Forall (λ l, is_sync_known l = false) ls →
  reachable_static overflowed cfg (after ls).
Proof.
  intros [pm E] Hall. unfold after. rewrite E. eapply run_reachable_static; [|done|done].
  constructor.
Qed.

(** The status object of the process after a run. *)
Definition status_after (ls : list (@label unit)) : @processStatus unit :=
  default new_processStatus (pm_store (after ls) !! 0%nat).

Lemma lifecycle_legal_witness :
  ∃ s', pm_store (after finished) !! 0%nat = Some s' ∧
        lifecycle_step (State (status_after (terminating ++ turn 0 4 ++ [LSignal 0] ++
                                [LReceive 0; LLock 0; LExecute 0; LSyncReturn 0 5 false None])))
          (State s').
Proof.
  apply (lifecycle_legal overflowed cfg
           (after (terminating ++ turn 0 4 ++ [LSignal 0] ++
                     [LReceive 0; LLock 0; LExecute 0; LSyncReturn 0 5 false None]))
           (LComplete 0 5 f64_half) (after finished)).
  - apply after_reachable. vm_compute. eauto.
  - vm_compute. reflexivity.
  - vm_compute. reflexivity.
Defined.

Lemma grace_period_never_increases_witness :
  ∃ s', pm_store (after (terminating ++ [LUpdate 4 (upd UpdateTypeTerminate
                           (Some (mkTerminateOptions None false (Some 3))))])) !! 0%nat = Some s' ∧
        ps_gracePeriod s' ≤ ps_gracePeriod (status_after terminating).
Proof.
  apply (grace_period_never_increases overflowed cfg (after terminating)
           (LUpdate 4 (upd UpdateTypeTerminate (Some (mkTerminateOptions None false (Some 3)))))).
  - apply after_reachable. vm_compute. eauto.
  - vm_compute. reflexivity.
  - vm_compute. reflexivity.
  - vm_compute. done.
Defined.

Lemma finished_is_final_witness :
  UpdateProcess 9 (upd UpdateTypeCreate None) (after finished) = after finished.
Proof.
  apply (finished_is_final overflowed cfg (after finished) "p"%string).
  - apply after_reachable. vm_compute. eauto.
  - vm_compute. reflexivity.
  - reflexivity.
Defined.

Lemma syncs_are_serialized_witness :
  ps_working (status_after (create ++ [LReceive 0; LLock 0])) = true ↔
  ∃ w wk, pm_workers (after (create ++ [LReceive 0; LLock 0])) !! w = Some wk ∧ w_id wk = "p"%string ∧
          in_flight (w_pc wk) = true.
Proof.
  apply (syncs_are_serialized overflowed cfg (after (create ++ [LReceive 0; LLock 0]))).
  - apply after_reachable_static; [vm_compute; eauto|by repeat constructor].
  - vm_compute. reflexivity.
Defined.

Lemma no_lost_wakeup_witness :
  ∃ w wk, pm_workers (after create) !! w = Some wk ∧ w_id wk = "p"%string ∧ w_pc wk ≠ WExited ∧
          woken (after create) wk.
Proof.
  apply (no_lost_wakeup overflowed cfg (after create) "p"%string (status_after create)).
  - apply after_reachable_static; [vm_compute; eauto|by repeat constructor].
  - vm_compute. reflexivity.
  - vm_compute. reflexivity.
  - vm_compute. reflexivity.
  - vm_compute. eauto.
Defined.

(** An orphan that runs is asked to terminate and reported as terminating. *)
Lemma SyncKnownProcesses_correct_witness :
  get_status "p"%string (SyncKnownProcesses 9 [] (after running)).1 =
    get_status "p"%string (after running) ≫= reconcile 9 (list_to_set []) "p"%string ∧
  State <$> (get_status "p"%string (after running) ≫= reconcile 9 (list_to_set []) "p"%string) =
    Some ProcessStateTerminating.
Proof.
  split; [|vm_compute; reflexivity].
  apply (SyncKnownProcesses_correct overflowed cfg 9 [] (after running)); [lia|].
  apply after_reachable. vm_compute. eauto.
Defined.

Lemma Health_correct_witness :
  hc_RunningProcesses (Health 9 (after running)) =
  count (λ s, bool_decide (State s = ProcessStateSyncing))
    (pointed (after running) (map_to_list (pm_statuses (after running)))).
Proof.
  assert (reachable overflowed cfg (after running)) as Hr
    by (apply after_reachable; vm_compute; eauto).
  exact (proj1 (proj2 (proj2 (Health_correct overflowed cfg 9 (after running) Hr)))).
Defined.

Definition completion : option TerminateOptions :=
  Some (mkTerminateOptions (Some 7%nat) false None).

Lemma termination_completes_witness :
  ∃ pm', run overflowed cfg
           [LUpdate 3 (upd UpdateTypeTerminate completion);
            LReceive 0; LLock 0; LExecute 0; LSyncReturn 0 4 false None; LComplete 0 4 f64_half; LSignal 0;
            LReceive 0; LLock 0; LExecute 0; LSyncReturn 0 5 false None; LComplete 0 5 f64_half]
           (after running) = Some pm' ∧
         IsProcessFinished "p"%string pm' = true ∧ (7%nat ∈ pm_closed pm').
Proof.
  refine (termination_completes overflowed cfg "p"%string 0 0 1 eq_refl (after running)
            (status_after running) (upd UpdateTypeTerminate completion) 7 3 4 4 5 5
            f64_half f64_half _ _ _ _ _ _ _ _ _ _ _ _); try lia; try reflexivity.
  - apply after_reachable_static; [vm_compute; eauto|by repeat constructor].
  - split; vm_compute; reflexivity.
  - vm_compute. done.
  - vm_compute. intros Hin. inversion Hin.
Defined.

(** ** Behaviour outside the hypotheses *)

(** An update submitted while the process finishes leaves a signal in the channel
    of its worker. When [SyncKnownProcesses] then drops the process and it is
    created again, the old worker resets the [working] flag of the new status
    object, takes the stale signal, and a second sync of the same process starts
    while the first is still in flight. *)
Definition recreated : list (@label unit) :=
  terminating ++ turn 0 4 ++
  [LSignal 0; LReceive 0; LLock 0; LExecute 0; LUpdate 5 (upd UpdateTypeUpdate None);
   LSyncReturn 0 6 false None; LSyncKnown 7 []; LUpdate 8 (upd UpdateTypeCreate None);
   LReceive 1; LLock 1; LUpdate 8 (upd UpdateTypeUpdate None); LComplete 0 9 f64_half;
   LSignal 0; LReceive 0; LLock 0].

(** With [SyncKnownProcesses] the syncs of a process are not serialized: a run
      of the manager reaches a state in which two workers of the same id are inside
      [executeSync] for the same status object. *)
Theorem concurrent_syncs_after_recreate :
  ∃ pm wk0 wk1, from_init recreated = Some pm ∧
    pm_workers pm !! 0%nat = Some wk0 ∧ pm_workers pm !! 1%nat = Some wk1 ∧
    w_id wk0 = w_id wk1 ∧ in_flight (w_pc wk0) = true ∧ in_flight (w_pc wk1) = true ∧
    pc_loc (w_pc wk0) = pc_loc (w_pc wk1).
Proof.
  eexists _, _, _. split; [vm_compute; reflexivity|].
  split; [vm_compute; reflexivity|]. split; [vm_compute; reflexivity|]. by vm_compute.
Qed.

(** The completion channel of a termination request is lost when another update
      arrives before the worker takes the request up: the process finishes and the
      channel is never closed. *)
Theorem completion_channel_lost :
  ∃ pm, from_init (running ++ [terminate completion; LUpdate 3 (upd UpdateTypeUpdate None)]
                   ++ turn 0 4 ++ [LSignal 0] ++ turn 0 5) = Some pm ∧
    IsProcessFinished "p"%string pm = true ∧ pm_closed pm = ∅.
Proof. eexists. split; [vm_compute; reflexivity|]. by vm_compute. Qed.

(** A grace period of zero seconds is taken for an unset one and raised by the
    next request; an eviction without a grace period is not recorded. *)
Example grace_period_zero_is_raised :
  ps_gracePeriod (handleTerminationRequest 2 None
    (handleTerminationRequest 1 (Some (mkTerminateOptions None false (Some 0)))
       (new_processStatus (Cfg := unit)))) = 10.
Proof. reflexivity. Qed.

Example evict_without_grace_period :
  ps_evicted (handleTerminationRequest 1 (Some (mkTerminateOptions None true None))
                (new_processStatus (Cfg := unit))) = false.
Proof. reflexivity. Qed.
End Demo.
