(* ===== verification/Isolation.v ===== *)
(** * pkg/isolation: processes per namespace or session

    The isolation manager maps a request key to a process of its private process
    manager, according to the isolation level, so that requests of different
    namespaces (or sessions) never share a process.  Its calls block: they poll the
    status of the process, or wait for a completion channel.  A call is therefore a
    small state machine that is interleaved with the other calls and with the
    goroutines of the process manager: [GetOrCreateProcess] and [TerminateProcess]
    below are the next step of a call, one per critical section, submission, tick of
    the poll or wakeup; the timeout of the wait may strike at any point of it.

    The completion channel that call number [i] makes is channel [i].  [Cfg] of the
    process manager is the pointer to the [ProcessConfig], which may be nil. *)

From S2P Require Import Prelude WorkQueue Backoff ProcMgr ProcMgrInv ProcMgrSync ProcMgrProv.
Import GoFloat.
Local Open Scope Z_scope.

(** ** types.go *)

(** [IsolationOther] is any other value of the integer type. *)
Inductive IsolationLevel :=
  | IsolationNone
  | IsolationNamespace
  | IsolationSession
  | IsolationOther (n : Z).

Record IsolationKey := mkIsolationKey {
  ik_Namespace : string;
  ik_Session : string }.

(** The method [ProcessID] of a key. *)
Definition key_ProcessID (level : IsolationLevel) (key : IsolationKey) : ProcessID :=
  match level with
  | IsolationNone => "shared"%string
  | IsolationNamespace => ("ns:" +:+ ik_Namespace key)%string
  | IsolationSession => ("session:" +:+ ik_Session key)%string
  | IsolationOther _ => "shared"%string
  end.

Section Isolation.
Context {B : Type} {Q : Type} `{!DelayQueue Q} (ovf : Z) (pmc : PMConfig).

Record ProcessConfig := mkProcessConfig {
  pcf_Key : IsolationKey;
  pcf_BackendConfig : B;
  pcf_GracePeriodSec : Z }.

Abbreviation Cfg := (option ProcessConfig).

Record ProcessHandle := mkProcessHandle {
  hd_ID : ProcessID;
  hd_Key : IsolationKey;
  hd_Config : Cfg;
  hd_Health : bool }.

(** ** Calls *)

Inductive request :=
  | RGetOrCreate (key : IsolationKey) (config : Cfg)
  | RTerminate (key : IsolationKey) (gracePeriodSec : Z).

Inductive answer :=
  | Handle (h : ProcessHandle)
  | ErrStartTimeout (id : ProcessID)
  | ErrNotFound (id : ProcessID)
  | ErrTerminateTimeout (id : ProcessID)
  | TerminateOk.

(** Where a call is: before its first critical section, checking the process it
    found, before [UpdateProcess], waiting, before the removal from the map. *)
Inductive call_pc :=
  | GLock
  | GCheck (existing : Cfg)
  | GSubmit
  | GWait
  | TLock
  | TSubmit
  | TWait
  | TRemove
  | Returned (a : answer).

Record call := mkCall { cl_request : request; cl_pc : call_pc }.

Record IsolationManager := mkIsolationManager {
  im_level : IsolationLevel;
  im_pm : @ProcessManager Cfg Q;
  im_processes : gmap ProcessID Cfg;
  im_calls : list call }.

Definition NewIsolationManager (level : IsolationLevel) (opts : list Option)
    : PMConfig * IsolationManager :=
  let '(c, pm) := NewProcessManager (WithSyncer :: opts) in
  (c, mkIsolationManager level pm ∅ []).

Definition set_pm (pm : ProcessManager) (im : IsolationManager) : IsolationManager :=
  mkIsolationManager (im_level im) pm (im_processes im) (im_calls im).
Definition set_processes (m : gmap ProcessID Cfg) (im : IsolationManager) : IsolationManager :=
  mkIsolationManager (im_level im) (im_pm im) m (im_calls im).
Definition set_calls (cs : list call) (im : IsolationManager) : IsolationManager :=
  mkIsolationManager (im_level im) (im_pm im) (im_processes im) cs.

(** The health of a process that is syncing. *)
Definition syncing_health (id : ProcessID) (im : IsolationManager) : option bool :=
  match GetProcessStatus id (im_pm im) with
  | Some st =>
      if bool_decide (pst_State st = ProcessStateSyncing) then Some (pst_Healthy st) else None
  | None => None
  end.

Definition GetOrCreateProcess (now : Z) (key : IsolationKey) (config : Cfg) (pc : call_pc)
    (im : IsolationManager) : option (IsolationManager * call_pc) :=
  let processID := key_ProcessID (im_level im) key in
  match pc with
  | GLock =>
      match im_processes im !! processID with
      | Some existing => Some (im, GCheck existing)
      | None => Some (set_processes (<[processID := config]> (im_processes im)) im, GSubmit)
      end
  | GCheck existing =>
      match syncing_health processID im with
      | Some health => Some (im, Returned (Handle (mkProcessHandle processID key existing health)))
      | None => Some (im, GSubmit)
      end
  | GSubmit =>
      pm ← exec ovf pmc
             (LUpdate now (mkProcessUpdate processID UpdateTypeCreate now (Some config) None))
             (im_pm im);
      Some (set_pm pm im, GWait)
  | GWait =>
      match syncing_health processID im with
      | Some health => Some (im, Returned (Handle (mkProcessHandle processID key config health)))
      | None => Some (im, GWait)
      end
  | _ => None
  end.

Definition TerminateProcess (now : Z) (i : nat) (key : IsolationKey) (gracePeriodSec : Z)
    (pc : call_pc) (im : IsolationManager) : option (IsolationManager * call_pc) :=
  let processID := key_ProcessID (im_level im) key in
  match pc with
  | TLock =>
      match im_processes im !! processID with
      | Some _ => Some (im, TSubmit)
      | None => Some (im, Returned (ErrNotFound processID))
      end
  | TSubmit =>
      pm ← exec ovf pmc
             (LUpdate now (mkProcessUpdate processID UpdateTypeTerminate 0 None
                (Some (mkTerminateOptions (Some i) false (Some gracePeriodSec)))))
             (im_pm im);
      Some (set_pm pm im, TWait)
  | TWait => if bool_decide (i ∈ pm_closed (im_pm im)) then Some (im, TRemove) else None
  | TRemove =>
      Some (set_processes (delete processID (im_processes im)) im, Returned TerminateOk)
  | _ => None
  end.

(** [waitCtx.Done()] in the select of a waiting call. *)
Definition call_timeout (level : IsolationLevel) (c : call) : option call_pc :=
  match cl_request c, cl_pc c with
  | RGetOrCreate key _, GWait => Some (Returned (ErrStartTimeout (key_ProcessID level key)))
  | RTerminate key _, TWait => Some (Returned (ErrTerminateTimeout (key_ProcessID level key)))
  | _, _ => None
  end.

(** ** Queries *)

Definition GetProcess (key : IsolationKey) (im : IsolationManager) : option ProcessHandle :=
  let processID := key_ProcessID (im_level im) key in
  config ← im_processes im !! processID;
  st ← GetProcessStatus processID (im_pm im);
  Some (mkProcessHandle processID key config (pst_Healthy st)).

(** The loop of [ListProcesses]; [None] when a nil configuration is dereferenced. *)
Fixpoint list_processes (im : IsolationManager) (l : list (ProcessID * Cfg))
    : option (list ProcessHandle) :=
  match l with
  | [] => Some []
  | (id, config) :: l =>
      match GetProcessStatus id (im_pm im) with
      | None => list_processes im l
      | Some st =>
          match config with
          | None => None
          | Some c =>
              cons (mkProcessHandle id (pcf_Key c) config (pst_Healthy st)) <$> list_processes im l
          end
      end
  end.

Definition ListProcesses (im : IsolationManager) : option (list ProcessHandle) :=
  list_processes im (map_to_list (im_processes im)).

(** ** The system *)

Inductive im_label :=
  | ICall (r : request)
  | IStep (now : Z) (i : nat)
  | ITimeout (i : nat)
  | IManager (l : @label Cfg)
  | IShutdown (now : Z) (id : ProcessID).

Definition start_pc (r : request) : call_pc :=
  match r with RGetOrCreate _ _ => GLock | RTerminate _ _ => TLock end.

(** The goroutines of the process manager and the cancellation of [Shutdown]; its
    public operations are only called by the isolation manager. *)
Definition internal (l : @label Cfg) : bool :=
  match l with LUpdate _ _ | LSyncKnown _ _ => false | _ => true end.

Definition call_goto (i : nat) (c : call) (pc : call_pc) (im : IsolationManager)
    : IsolationManager :=
  set_calls (<[i := mkCall (cl_request c) pc]> (im_calls im)) im.

Definition call_step (now : Z) (i : nat) (c : call) (im : IsolationManager)
    : option (IsolationManager * call_pc) :=
  match cl_request c with
  | RGetOrCreate key config => GetOrCreateProcess now key config (cl_pc c) im
  | RTerminate key g => TerminateProcess now i key g (cl_pc c) im
  end.

(** [IShutdown]: a termination request that [Shutdown] sends. *)
Definition im_exec (l : im_label) (im : IsolationManager) : option IsolationManager :=
  match l with
  | ICall r => Some (set_calls (im_calls im ++ [mkCall r (start_pc r)]) im)
  | IStep now i =>
      c ← im_calls im !! i;
      '(im', pc) ← call_step now i c im;
      Some (call_goto i c pc im')
  | ITimeout i =>
      c ← im_calls im !! i;
      pc ← call_timeout (im_level im) c;
      Some (call_goto i c pc im)
  | IManager l =>
      if internal l then pm ← exec ovf pmc l (im_pm im); Some (set_pm pm im) else None
  | IShutdown now id =>
      pm ← exec ovf pmc (LUpdate now (mkProcessUpdate id UpdateTypeTerminate 0 None None)) (im_pm im);
      Some (set_pm pm im)
  end.

Definition im_run : list im_label → IsolationManager → option IsolationManager := run_labels im_exec.

Inductive im_reachable : IsolationManager → Prop :=
  | im_reach_init level opts : im_reachable (NewIsolationManager level opts).2
  | im_reach_step im l im' : im_reachable im → im_exec l im = Some im' → im_reachable im'.
End Isolation.
