(* ===== verification/IsolationSpec.v ===== *)
(** * Correctness of the isolation manager

    The bulkhead: a process only ever works on configurations that were requested
    for its own isolation class, one sync at a time, and a handle refers to the
    process of the key it was requested for.  A termination that reports success has
    terminated the process.  A process that has finished cannot be started again. *)

From S2P Require Import Prelude WorkQueue Backoff ProcMgr ProcMgrInv ProcMgrSync ProcMgrProv Isolation.
Import GoFloat.
Local Open Scope Z_scope.

(** The keys that share a process. *)
Definition same_class (level : IsolationLevel) (k1 k2 : IsolationKey) : Prop :=
  match level with
  | IsolationNamespace => ik_Namespace k1 = ik_Namespace k2
  | IsolationSession => ik_Session k1 = ik_Session k2
  | IsolationNone | IsolationOther _ => True
  end.

Lemma key_ProcessID_class level k1 k2 :
  key_ProcessID level k1 = key_ProcessID level k2 ↔ same_class level k1 k2.
Proof.
  destruct level; simpl; try done; (split; [apply (inj (String.append _))|by intros ->]).
Qed.

Section Spec.
Context {B : Type} {Q : Type} `{!DelayQueue Q} (ovf : Z) (pmc : PMConfig).

Abbreviation Cfg := (option (@ProcessConfig B)).
Abbreviation im_exec := (im_exec (B := B) (Q := Q) ovf pmc).
Abbreviation im_run := (im_run (B := B) (Q := Q) ovf pmc).
Abbreviation im_reachable := (im_reachable (B := B) (Q := Q) ovf pmc).

Implicit Types (im : @IsolationManager B Q) (c : @call B) (r : @request B).
Implicit Types (pm : @ProcessManager Cfg Q).

(** ** Invariant *)

Definition requests im : list request := cl_request <$> im_calls im.

(** A configuration that was requested for process [id]. *)
Definition requested (level : IsolationLevel) (rs : list (@request B)) (id : ProcessID) (cfg : Cfg)
    : Prop :=
  ∃ key, RGetOrCreate key cfg ∈ rs ∧ key_ProcessID level key = id.

(** The completion channel of a termination of process [id]. *)
Definition completion (level : IsolationLevel) (rs : list (@request B)) (id : ProcessID) (ch : nat)
    : Prop :=
  ∃ key g, rs !! ch = Some (RTerminate key g) ∧ key_ProcessID level key = id.

Definition call_ok im c : Prop :=
  match cl_request c, cl_pc c with
  | RGetOrCreate key cfg, GCheck existing =>
      requested (im_level im) (requests im) (key_ProcessID (im_level im) key) existing
  | RGetOrCreate key cfg, Returned (Handle h) =>
      hd_ID h = key_ProcessID (im_level im) key ∧ hd_Key h = key ∧
      requested (im_level im) (requests im) (hd_ID h) (hd_Config h)
  | RTerminate key _, (TRemove | Returned TerminateOk) =>
      IsProcessTerminated (key_ProcessID (im_level im) key) (im_pm im) = true
  | RTerminate key _, Returned (Handle _) => False
  | _, _ => True
  end.

Record im_inv im : Prop := {
  ii_static : reachable_static ovf pmc (im_pm im);
  ii_prov : prov (requested (im_level im) (requests im)) (completion (im_level im) (requests im))
              (im_pm im);
  ii_closed : closed_ok (completion (im_level im) (requests im)) (im_pm im);
  ii_processes id cfg :
    im_processes im !! id = Some cfg → requested (im_level im) (requests im) id cfg;
  ii_calls i c : im_calls im !! i = Some c → call_ok im c }.

(** ** Steps of the process manager *)

Lemma inv_manager l im pm :
  im_inv im → label_ok (requested (im_level im) (requests im))
                (completion (im_level im) (requests im)) l →
  exec ovf pmc l (im_pm im) = Some pm → im_inv (set_pm pm im).
Proof.
  intros [I1 I2 I3 I4 I5] Hl He.
  pose proof (wf_reachable _ _ _ (reachable_static_reachable _ _ _ I1)) as Hwf.
  pose proof (static_reachable _ _ _ I1) as Hst.
  assert (is_sync_known l = false) as Hk by (by destruct l).
  split; simpl; [|by eapply prov_exec|by eapply closed_ok_exec|done|].
  - econstructor; [done| |done]. intros ? ? ->. done.
  - intros i c Hc. specialize (I5 i c Hc). unfold call_ok in *. simpl.
    destruct (cl_request c), (cl_pc c) as [| | | | | | | |[]]; try done;
      by eapply terminated_exec.
Qed.

(** ** Steps of calls *)

Lemma requests_goto i c pc im :
  im_calls im !! i = Some c → requests (call_goto i c pc im) = requests im.
Proof.
  intros Hc. unfold requests, call_goto. simpl. rewrite list_fmap_insert. simpl.
  apply list_insert_id. by rewrite list_lookup_fmap, Hc.
Qed.

Lemma inv_goto i c pc im :
  im_inv im → im_calls im !! i = Some c → call_ok im (mkCall (cl_request c) pc) →
  im_inv (call_goto i c pc im).
Proof.
  intros [I1 I2 I3 I4 I5] Hc Hok. pose proof (requests_goto i c pc im Hc) as Er.
  assert (∀ c', call_ok im c' → call_ok (call_goto i c pc im) c') as Hsame.
  { intros c'. unfold call_ok. simpl. by rewrite Er. }
  split; simpl; rewrite ?Er; try done.
  intros j c' [(<- & <- & _)|[_ ?]]%list_lookup_insert_Some; [auto|]. eauto.
Qed.

Lemma inv_set_processes m im :
  im_inv im → (∀ id cfg, m !! id = Some cfg → requested (im_level im) (requests im) id cfg) →
  im_inv (set_processes m im).
Proof. intros [I1 I2 I3 I4 I5] Hm. by split. Qed.

Lemma requested_call i key cfg pc im :
  im_calls im !! i = Some (mkCall (RGetOrCreate key cfg) pc) →
  requested (im_level im) (requests im) (key_ProcessID (im_level im) key) cfg.
Proof.
  intros Hc. exists key. split; [|done]. apply list_elem_of_fmap.
  exists (mkCall (RGetOrCreate key cfg) pc). split; [done|]. by eapply list_elem_of_lookup_2.
Qed.

Lemma completion_call i key g pc im :
  im_calls im !! i = Some (mkCall (RTerminate key g) pc) →
  completion (im_level im) (requests im) (key_ProcessID (im_level im) key) i.
Proof. intros Hc. exists key, g. split; [|done]. unfold requests. by rewrite list_lookup_fmap, Hc. Qed.

Lemma inv_GetOrCreate now i key cfg pc im im' pc' :
  im_inv im → im_calls im !! i = Some (mkCall (RGetOrCreate key cfg) pc) →
  GetOrCreateProcess ovf pmc now key cfg pc im = Some (im', pc') →
  im_inv (call_goto i (mkCall (RGetOrCreate key cfg) pc) pc' im').
Proof.
  intros Hinv Hc. pose proof (requested_call _ _ _ _ _ Hc) as Hreq.
  pose proof (ii_calls _ Hinv _ _ Hc) as Hok. destruct pc; simpl; try done.
  - destruct (im_processes im !! _) as [ex|] eqn:Hp; intros [= <- <-].
    + apply inv_goto; [done|done|]. by apply (ii_processes _ Hinv).
    + apply inv_goto; [|done|done]. apply inv_set_processes; [done|].
      intros id cfg' [[<- <-]|[_ ?]]%lookup_insert_Some; [done|]. by apply (ii_processes _ Hinv).
  - destruct (syncing_health _ im) as [h|]; intros [= <- <-]; apply inv_goto; done.
  - destruct (exec _ _ _ _) as [pm|] eqn:He; simpl; [|done]. intros [= <- <-].
    apply inv_goto; [|done|done]. eapply inv_manager; [done| |exact He].
    simpl. split_and!; [done| |done]. by intros ? [= <-].
  - destruct (syncing_health _ im) as [h|]; intros [= <- <-]; apply inv_goto; done.
Qed.

Lemma inv_Terminate now i key g pc im im' pc' :
  im_inv im → im_calls im !! i = Some (mkCall (RTerminate key g) pc) →
  TerminateProcess ovf pmc now i key g pc im = Some (im', pc') →
  im_inv (call_goto i (mkCall (RTerminate key g) pc) pc' im').
Proof.
  intros Hinv Hc. pose proof (completion_call _ _ _ _ _ Hc) as Hcomp.
  pose proof (ii_calls _ Hinv _ _ Hc) as Hok. destruct pc; simpl; try done.
  - destruct (im_processes im !! _) as [ex|] eqn:Hp; intros [= <- <-]; by apply inv_goto.
  - destruct (exec _ _ _ _) as [pm|] eqn:He; simpl; [|done]. intros [= <- <-].
    apply inv_goto; [|done|done]. eapply inv_manager; [done| |exact He].
    simpl. split_and!; [done|done|]. intros o ch [= <-] [= <-]. done.
  - case_bool_decide as Hcl; [|done]. intros [= <- <-]. apply inv_goto; [done|done|].
    destruct (ii_closed _ Hinv _ Hcl) as (id & (k & g' & Hr & <-) & Ht).
    destruct Hcomp as (k' & g'' & Hr' & Ek). simplify_eq.
    unfold call_ok. simpl. by rewrite <- Ek.
  - intros [= <- <-]. apply inv_goto; [|done|done]. apply inv_set_processes; [done|].
    intros id cfg' [_ ?]%lookup_delete_Some. by apply (ii_processes _ Hinv).
Qed.

Lemma inv_timeout i c pc im :
  im_inv im → im_calls im !! i = Some c → call_timeout (im_level im) c = Some pc →
  im_inv (call_goto i c pc im).
Proof.
  intros Hinv Hc Ht. apply inv_goto; [done|done|]. unfold call_timeout in Ht. unfold call_ok. simpl.
  destruct (cl_request c), (cl_pc c); by simplify_eq.
Qed.

Lemma inv_call r im :
  im_inv im → im_inv (set_calls (im_calls im ++ [mkCall r (start_pc r)]) im).
Proof.
  intros [I1 I2 I3 I4 I5].
  assert (requests (set_calls (im_calls im ++ [mkCall r (start_pc r)]) im) = requests im ++ [r])
    as Er by (unfold requests; simpl; by rewrite fmap_app).
  assert (∀ id cfg, requested (im_level im) (requests im) id cfg →
            requested (im_level im) (requests im ++ [r]) id cfg) as Hreq.
  { intros id cfg (key & ? & ?). exists key. split; [|done]. apply elem_of_app. by left. }
  assert (∀ id ch, completion (im_level im) (requests im) id ch →
            completion (im_level im) (requests im ++ [r]) id ch) as Hcomp.
  { intros id ch (key & g & ? & ?). exists key, g. split; [|done]. by apply lookup_app_l_Some. }
  destruct (prov_mono _ _ _ _ (im_pm im) Hreq Hcomp) as [Hp Hcl].
  split; rewrite ?Er; simpl; auto.
  intros i c [Hc|[_ Hc]]%lookup_app_Some.
  - specialize (I5 i c Hc). unfold call_ok in *. rewrite Er. simpl.
    destruct (cl_request c), (cl_pc c) as [| | | | | | | |[]]; naive_solver.
  - apply list_lookup_singleton_Some in Hc as [_ <-]. by destruct r.
Qed.

Lemma inv_exec l im im' : im_inv im → im_exec l im = Some im' → im_inv im'.
Proof.
  intros Hinv. destruct l as [r|now i|i|l|now id]; simpl.
  - intros [= <-]. by apply inv_call.
  - destruct (im_calls im !! i) as [[r pc]|] eqn:Hc; simpl; [|done].
    destruct (call_step _ _ _ _ _ _) as [[im1 pc1]|] eqn:Hs; simpl; [|done]. intros [= <-].
    destruct r; [exact (inv_GetOrCreate _ _ _ _ _ _ _ _ Hinv Hc Hs)
               |exact (inv_Terminate _ _ _ _ _ _ _ _ Hinv Hc Hs)].
  - destruct (im_calls im !! i) as [c|] eqn:Hc; simpl; [|done].
    destruct (call_timeout _ _) as [pc|] eqn:Ht; simpl; [|done]. intros [= <-].
    by apply inv_timeout.
  - destruct (internal l) eqn:Hl; [|done]. destruct (exec _ _ _ _) as [pm|] eqn:He; simpl; [|done].
    intros [= <-]. eapply inv_manager; [done| |exact He]. by destruct l.
  - destruct (exec _ _ _ _) as [pm|] eqn:He; simpl; [|done].
    intros [= <-]. eapply inv_manager; [done| |exact He]. by split_and!.
Qed.

Lemma inv_init level opts : im_inv (NewIsolationManager level opts).2.
Proof. split; simpl; [constructor|split; done|intros ?; set_solver|done|done]. Qed.

Lemma inv_reachable im : im_reachable im → im_inv im.
Proof. induction 1; eauto using inv_init, inv_exec. Qed.

(** ** The bulkhead *)

Lemma requested_class level rs id cfg key :
  requested level rs id cfg → key_ProcessID level key = id →
  ∃ key', RGetOrCreate key' cfg ∈ rs ∧ same_class level key key'.
Proof.
  intros (key' & Hin & <-) Hid. exists key'. split; [done|]. by apply key_ProcessID_class.
Qed.

(** C11. Processes are isolated: whatever calls, timeouts and goroutine steps are
    interleaved, a process that serves some key is only ever synced with
    configurations that were passed in for keys of the same namespace (or session,
    according to the level), no two of its syncs overlap, and a handle that was
    returned for a key names the process of the key and carries a configuration of
    the same class. *)
Theorem processes_are_isolated im :
  im_reachable im →
  (∀ w wk k loc u cfg key,
     pm_workers (im_pm im) !! w = Some wk → w_pc wk = WSync k loc u →
     pu_Config u = Some cfg → key_ProcessID (im_level im) key = w_id wk →
     ∃ key', RGetOrCreate key' cfg ∈ requests im ∧ same_class (im_level im) key key') ∧
  (∀ w1 w2 wk1 wk2,
     pm_workers (im_pm im) !! w1 = Some wk1 → pm_workers (im_pm im) !! w2 = Some wk2 →
     w_id wk1 = w_id wk2 → w1 = w2) ∧
  (∀ i key cfg h,
     im_calls im !! i = Some (mkCall (RGetOrCreate key cfg) (Returned (Handle h))) →
     hd_ID h = key_ProcessID (im_level im) key ∧ hd_Key h = key ∧
     ∃ key', RGetOrCreate key' (hd_Config h) ∈ requests im ∧ same_class (im_level im) key key').
Proof.
  intros Hinv%inv_reachable. split_and!.
  - intros w wk k loc u cfg key Hw Hpc Hcfg Hid.
    pose proof (pv_worker _ _ _ (ii_prov _ Hinv) _ _ Hw) as Hu. rewrite Hpc in Hu.
    destruct Hu as (_ & Hc & _). by eapply requested_class; [apply Hc|].
  - intros w1 w2 wk1 wk2 H1 H2 E. eapply st_id; [|done..].
    by apply static_reachable with ovf pmc, (ii_static _ Hinv).
  - intros i key cfg h (Hid & Hk & Hreq)%(ii_calls _ Hinv). split_and!; [done|done|].
    by eapply requested_class.
Qed.

(** A call of [TerminateProcess] that reports success has terminated the process
    of its key: the completion channel it waits for is closed by no other process. *)
Theorem TerminateProcess_correct im i key g :
  im_reachable im →
  im_calls im !! i = Some (mkCall (RTerminate key g) (Returned TerminateOk)) →
  IsProcessTerminated (key_ProcessID (im_level im) key) (im_pm im) = true.
Proof. intros Hinv%inv_reachable Hc. exact (ii_calls _ Hinv _ _ Hc). Qed.

(** ** Finished processes *)

Record gone (id : ProcessID) (n : nat) im : Prop := {
  gn_inv : im_inv im;
  gn_finished : IsProcessFinished id (im_pm im) = true;
  gn_len : (n ≤ length (im_calls im))%nat;
  gn_calls i key cfg h : (n ≤ i)%nat →
    im_calls im !! i = Some (mkCall (RGetOrCreate key cfg) (Returned (Handle h))) →
    key_ProcessID (im_level im) key ≠ id }.

Lemma finished_not_syncing id im :
  IsProcessFinished id (im_pm im) = true → syncing_health id im = None.
Proof.
  unfold IsProcessFinished, syncing_health, GetProcessStatus. destruct (get_status _ _) as [s|]; [|done].
  simpl. intros Hf. assert (State s = ProcessStateFinished) as ->; [|done].
  by apply State_finished, IsFinished_true.
Qed.

(** A step leaves the level alone, keeps a finished process, and only moves the call
    it is about. *)
Lemma im_exec_frame l im im' id :
  im_inv im → im_exec l im = Some im' → IsProcessFinished id (im_pm im) = true →
  im_level im' = im_level im ∧ IsProcessFinished id (im_pm im') = true ∧
  (im_calls im' = im_calls im ∨
   (∃ r, im_calls im' = im_calls im ++ [mkCall r (start_pc r)]) ∨
   (∃ i c pc, im_calls im !! i = Some c ∧
      im_calls im' = <[i := mkCall (cl_request c) pc]> (im_calls im) ∧
      ∀ key cfg h, cl_request c = RGetOrCreate key cfg → pc = Returned (Handle h) →
        key_ProcessID (im_level im) key ≠ id)).
Proof.
  intros Hinv He Hf. pose proof (finished_not_syncing _ _ Hf) as Hns.
  assert (∀ l pm, is_sync_known l = false → exec ovf pmc l (im_pm im) = Some pm →
            IsProcessFinished id pm = true) as Hfin.
  { intros l0 pm Hk He0. eapply finished_exec; [|exact Hk|exact He0|done].
    by eapply wf_reachable, reachable_static_reachable, (ii_static _ Hinv). }
  destruct l as [r|now i|i|l|now pid]; simpl in He.
  - simplify_eq/=. split_and!; eauto.
  - destruct (im_calls im !! i) as [[r pc]|] eqn:Hc; simpl in He; [|done].
    destruct (call_step _ _ _ _ _ _) as [[im1 pc1]|] eqn:Hs; simpl in He; [|done].
    injection He as <-.
    assert (im_level im1 = im_level im ∧ IsProcessFinished id (im_pm im1) = true ∧
            im_calls im1 = im_calls im ∧
            ∀ key cfg h, r = RGetOrCreate key cfg → pc1 = Returned (Handle h) →
              key_ProcessID (im_level im) key ≠ id) as (E1 & E2 & E3 & E4).
    { unfold call_step in Hs. destruct r as [key cfg|key g], pc; simpl in Hs; try done.
      all: repeat case_match; simplify_eq/=; try by (split_and!; [done..|naive_solver]).
      all: match goal with H : ?x ≫= _ = Some _ |- _ =>
             destruct x as [pm|] eqn:Hx; simpl in H; [|done]; simplify_eq/= end.
      all: split_and!; [done|by eapply Hfin, Hx|done|naive_solver]. }
    unfold call_goto. simpl. rewrite E1, E3. split_and!; [done|done|].
    right; right. exists i, (mkCall r pc), pc1. split_and!; done.
  - destruct (im_calls im !! i) as [c|] eqn:Hc; simpl in He; [|done].
    destruct (call_timeout _ _) as [pc|] eqn:Ht; simpl in He; [|done]. injection He as <-.
    split_and!; [done|done|]. right; right. exists i, c, pc. split_and!; [done|done|].
    intros key cfg h Er ->. unfold call_timeout in Ht. by rewrite Er in Ht; case_match.
  - destruct (internal l) eqn:Hl; [|done]. destruct (exec _ _ _ _) as [pm|] eqn:Hx; simpl in He; [|done].
    injection He as <-. split_and!; [done| |by left]. eapply Hfin, Hx. by destruct l.
  - destruct (exec _ _ _ _) as [pm|] eqn:Hx; simpl in He; [|done].
    injection He as <-. split_and!; [done| |by left]. by eapply Hfin, Hx.
Qed.

Lemma gone_exec id n l im im' : gone id n im → im_exec l im = Some im' → gone id n im'.
Proof.
  intros [G1 G2 G3 G4] He. destruct (im_exec_frame l im im' id G1 He G2) as (El & Ef & Hcalls).
  split; [by eapply inv_exec|done| |]; destruct Hcalls as [->|[[r ->]|(j & c & pc & Hc & -> & Hh)]].
  - done.
  - rewrite length_app. simpl. lia.
  - by rewrite length_insert.
  - rewrite El. done.
  - rewrite El. intros i key cfg h Hi [?|[_ Hl]]%lookup_app_Some; [by eapply G4|].
    apply list_lookup_singleton_Some in Hl as [_ [= -> ?]]. done.
  - rewrite El. intros i key cfg h Hi [(<- & [= Er ->] & _)|[_ ?]]%list_lookup_insert_Some;
      [by eapply Hh|by eapply G4].
Qed.

(** A finished process cannot be started again: the isolation manager never
    removes it from its process manager, so no call of [GetOrCreateProcess] for a key
    of its class that is made afterwards ever returns a handle, however long the
    system runs. *)
Theorem finished_process_is_never_recreated im ls im' i key cfg h :
  im_reachable im → im_run ls im = Some im' →
  IsProcessFinished (key_ProcessID (im_level im) key) (im_pm im) = true →
  (length (im_calls im) ≤ i)%nat →
  im_calls im' !! i ≠ Some (mkCall (RGetOrCreate key cfg) (Returned (Handle h))).
Proof.
  intros Hinv%inv_reachable Hrun Hf Hi Hc.
  assert (gone (key_ProcessID (im_level im) key) (length (im_calls im)) im) as Hg.
  { split; [done..|]. intros i' key' cfg' h' Hi' ?%lookup_lt_Some. lia. }
  apply (run_labels_invariant _ (λ im0,
    gone (key_ProcessID (im_level im) key) (length (im_calls im)) im0 ∧ im_level im0 = im_level im))
    in Hrun as [Hg' El]; [| |done].
  2: { clear. intros im0 l im1 [Hg El] He. split; [by eapply gone_exec|]. rewrite <- El.
       by destruct (im_exec_frame _ _ _ _ (gn_inv _ _ _ Hg) He (gn_finished _ _ _ Hg)) as (-> & _). }
  eapply (gn_calls _ _ _ Hg'); [exact Hi|exact Hc|]. by rewrite El.
Qed.
End Spec.

Module IsolationDemo.
Definition cfg : PMConfig := (NewIsolationManager (B := nat) (Q := workQueue) IsolationNamespace []).1.
Definition start : @IsolationManager nat workQueue := (NewIsolationManager IsolationNamespace []).2.
Abbreviation from_start ls := (im_run 0 cfg ls start).
Definition after (ls : list (@im_label nat)) : @IsolationManager nat workQueue :=
  default start (from_start ls).

Definition alice : IsolationKey := mkIsolationKey "a" "s1".
Definition alice_again : IsolationKey := mkIsolationKey "a" "s2".
Definition config (n : nat) : option (@ProcessConfig nat) := Some (mkProcessConfig alice n 10).

(** One turn of worker 0 in which the syncer succeeds, up to the sync and after it. *)
Definition begin_turn : list (@im_label nat) := 
  [IManager (LReceive 0); IManager (LLock 0); IManager (LExecute 0)].
Definition end_turn (t : Z) : list (@im_label nat) :=
  [IManager (LSyncReturn 0 t false None); IManager (LComplete 0 t f64_half)].

Definition get_or_create (n : nat) (key : IsolationKey) (c : nat) (t : Z) : list (@im_label nat) :=
  [ICall (RGetOrCreate key (config c)); IStep t n; IStep t n].

Definition syncing : list (@im_label nat) := get_or_create 0 alice 1 1 ++ begin_turn.
Definition running : list (@im_label nat) := syncing ++ end_turn 2 ++ [IStep 3 0].
Definition terminated : list (@im_label nat) :=
  running ++ [ICall (RTerminate alice 5); IStep 4 1; IStep 4 1] ++ begin_turn ++ end_turn 5 ++
  [IStep 6 1; IStep 6 1].
Definition finished : list (@im_label nat) :=
  terminated ++ [IManager (LSignal 0)] ++ begin_turn ++ end_turn 7.
Definition again : list (@im_label nat) :=
  get_or_create 2 alice_again 1 8 ++ [IStep 9 2; IStep 10 2; ITimeout 2].

Lemma run_im_reachable ls im im' :
  im_reachable 0 cfg im → im_run 0 cfg ls im = Some im' →
  im_reachable (B := nat) (Q := workQueue) 0 cfg im'.
Proof. intros Hr. apply run_labels_invariant; [apply im_reach_step|done]. Qed.

Lemma after_im_reachable ls : is_Some (from_start ls) → im_reachable 0 cfg (after ls).
Proof.
  intros [im E]. unfold after. rewrite E. eapply run_im_reachable; [|done]. constructor.
Qed.

Lemma processes_are_isolated_witness :
  ∃ wk k loc u, pm_workers (im_pm (after syncing)) !! 0%nat = Some wk ∧ w_pc wk = WSync k loc u ∧
    pu_Config u = Some (config 1) ∧
    ∃ key', RGetOrCreate key' (config 1) ∈ requests (after syncing) ∧
            same_class IsolationNamespace alice_again key'.
Proof.
  eexists _, _, _, _. split; [vm_compute; reflexivity|]. split; [reflexivity|].
  split; [reflexivity|].
  refine (proj1 (processes_are_isolated 0 cfg (after syncing) _) 0%nat _ _ _ _ _ alice_again _ _ _ _).
  - apply after_im_reachable. eexists. vm_compute. reflexivity.
  - vm_compute. reflexivity.
  - reflexivity.
  - reflexivity.
  - reflexivity.
Defined.

Lemma TerminateProcess_correct_witness :
  IsProcessTerminated "ns:a" (im_pm (after terminated)) = true.
Proof.
  refine (TerminateProcess_correct 0 cfg (after terminated) 1 alice 5 _ _).
  - apply after_im_reachable. eexists. vm_compute. reflexivity.
  - vm_compute. reflexivity.
Defined.

Lemma finished_process_is_never_recreated_witness :
  ∃ im', im_run 0 cfg again (after finished) = Some im' ∧
    im_calls im' !! 2%nat ≠
      Some (mkCall (RGetOrCreate alice_again (config 1))
              (Returned (Handle (mkProcessHandle "ns:a" alice_again (config 1) true)))).
Proof.
  eexists. split; [vm_compute; reflexivity|].
  refine (finished_process_is_never_recreated 0 cfg (after finished) again _ 2 alice_again
            (config 1) _ _ _ _ _).
  - apply after_im_reachable. eexists. vm_compute. reflexivity.
  - vm_compute. reflexivity.
  - vm_compute. reflexivity.
  - vm_compute. lia.
Defined.

(** The call that asks for a finished process again runs into its timeout. *)
Example recreate_times_out :
  cl_pc <$> im_calls (after (finished ++ again)) !! 2%nat =
    Some (Returned (ErrStartTimeout "ns:a")).
Proof. vm_compute. reflexivity. Qed.

(** A second configuration for a process that is still starting is the one that is
    synced, while the first one stays on record and is handed out. *)
Definition reconfigured : list (@im_label nat) :=
  get_or_create 0 alice 1 1 ++ get_or_create 1 alice 2 2 ++ [IStep 2 1] ++
  begin_turn ++ end_turn 3.

Example stale_config_on_record :
  hd_Config <$> GetProcess alice (after reconfigured) = Some (config 1) ∧
  (get_status "ns:a" (im_pm (after reconfigured)) ≫= ps_active) ≫= pu_Config = Some (config 2).
Proof. vm_compute. done. Qed.
End IsolationDemo.
