(* ===== verification/AdminTypes.v ===== *)
(** * Messages of the admin cluster

    The protobuf messages of proto/prism/admin/admin.proto and the ones of
    proto/prism/control_plane.proto that cmd/prism-admin reads or builds.  A
    message field is an [option] (nil pointer), a map field of strings a [gmap]
    (the code never distinguishes a nil from an empty one).  The four maps of
    [AdminState] keep the difference, because the code assigns into them. *)

From S2P Require Import Prelude Backoff.
Import GoFloat.

Record PartitionRange := mkPartitionRange { pr_Start : Z; pr_End : Z }.

#[export] Instance PartitionRange_eq_dec : EqDecision PartitionRange.
Proof. solve_decision. Defined.

Record ProxyResources := mkProxyResources {
  pres_MemoryBytes : Z;
  pres_CpuPercent : float64;
  pres_ActiveNamespaces : Z;
  pres_RequestsPerSecond : Z }.

Record LauncherResources := mkLauncherResources {
  lres_MemoryBytes : Z;
  lres_CpuPercent : float64;
  lres_ActiveProcesses : Z;
  lres_AvailableSlots : Z }.

(** ** State entries *)

Record NamespaceEntry := mkNamespaceEntry {
  ne_Name : string;
  ne_Description : string;
  ne_PartitionId : Z;
  ne_AssignedProxy : string;
  ne_Config : gmap string string;
  ne_CreatedBy : string;
  ne_CreatedAt : Z;
  ne_UpdatedAt : Z }.

Record ProxyEntry := mkProxyEntry {
  pe_ProxyId : string;
  pe_Address : string;
  pe_Region : string;
  pe_Version : string;
  pe_Capabilities : list string;
  pe_Metadata : gmap string string;
  pe_Status : string;
  pe_RegisteredAt : Z;
  pe_LastSeen : Z;
  pe_Resources : option ProxyResources }.

Record LauncherEntry := mkLauncherEntry {
  le_LauncherId : string;
  le_Address : string;
  le_Region : string;
  le_Version : string;
  le_Capabilities : list string;
  le_ProcessTypes : list string;
  le_MaxProcesses : Z;
  le_Metadata : gmap string string;
  le_Status : string;
  le_RegisteredAt : Z;
  le_LastSeen : Z;
  le_AvailableSlots : Z;
  le_Resources : option LauncherResources }.

Record PatternEntry := mkPatternEntry {
  pat_PatternId : string;
  pat_Namespace : string;
  pat_PatternType : string;
  pat_LauncherId : string;
  pat_Config : gmap string string;
  pat_Status : string;
  pat_AssignedAt : Z;
  pat_UpdatedAt : Z }.

(** A Go map that may be nil. *)
Abbreviation go_map V := (option (gmap string V)).

Record AdminState := mkAdminState {
  as_Version : Z;
  as_Namespaces : go_map NamespaceEntry;
  as_Proxies : go_map ProxyEntry;
  as_Launchers : go_map LauncherEntry;
  as_Patterns : go_map PatternEntry;
  as_LastAppliedIndex : Z;
  as_LastAppliedTerm : Z;
  as_StateUpdatedAt : Z }.

(** Reading a nil map finds nothing; assigning into it panics. *)
Definition map_get {V} (k : string) (m : go_map V) : option V :=
  match m with Some m => m !! k | None => None end.
Definition map_values {V} (m : go_map V) : list V :=
  match m with Some m => (map_to_list m).*2 | None => [] end.
Definition map_set {E V} (k : string) (v : V) (m : go_map V) : result E (go_map V) :=
  match m with Some m => Ok (Some (<[k := v]> m)) | None => Panic end.

(** ** Commands *)

Inductive CommandType :=
  | COMMAND_TYPE_UNSPECIFIED
  | COMMAND_TYPE_CREATE_NAMESPACE
  | COMMAND_TYPE_REGISTER_PROXY
  | COMMAND_TYPE_REGISTER_LAUNCHER
  | COMMAND_TYPE_ASSIGN_PATTERN
  | COMMAND_TYPE_UPDATE_PROXY_STATUS
  | COMMAND_TYPE_UPDATE_LAUNCHER_STATUS
  | COMMAND_TYPE_OTHER (n : Z).

#[export] Instance CommandType_eq_dec : EqDecision CommandType.
Proof. solve_decision. Defined.

Record CreateNamespaceCommand := mkCreateNamespaceCommand {
  cn_Namespace : string;
  cn_PartitionId : Z;
  cn_AssignedProxy : string;
  cn_Config : gmap string string;
  cn_Principal : string }.

Record RegisterProxyCommand := mkRegisterProxyCommand {
  rp_ProxyId : string;
  rp_Address : string;
  rp_Region : string;
  rp_Version : string;
  rp_Capabilities : list string;
  rp_Metadata : gmap string string }.

Record RegisterLauncherCommand := mkRegisterLauncherCommand {
  rl_LauncherId : string;
  rl_Address : string;
  rl_Region : string;
  rl_Version : string;
  rl_Capabilities : list string;
  rl_ProcessTypes : list string;
  rl_MaxProcesses : Z;
  rl_Metadata : gmap string string }.

Record AssignPatternCommand := mkAssignPatternCommand {
  ap_PatternId : string;
  ap_Namespace : string;
  ap_PatternType : string;
  ap_LauncherId : string;
  ap_Config : gmap string string }.

Record UpdateProxyStatusCommand := mkUpdateProxyStatusCommand {
  ups_ProxyId : string;
  ups_Status : string;
  ups_LastSeen : Z;
  ups_Resources : option ProxyResources }.

Record UpdateLauncherStatusCommand := mkUpdateLauncherStatusCommand {
  uls_LauncherId : string;
  uls_Status : string;
  uls_LastSeen : Z;
  uls_AvailableSlots : Z;
  uls_Resources : option LauncherResources }.

Inductive Payload :=
  | Command_CreateNamespace (c : CreateNamespaceCommand)
  | Command_RegisterProxy (c : RegisterProxyCommand)
  | Command_RegisterLauncher (c : RegisterLauncherCommand)
  | Command_AssignPattern (c : AssignPatternCommand)
  | Command_UpdateProxyStatus (c : UpdateProxyStatusCommand)
  | Command_UpdateLauncherStatus (c : UpdateLauncherStatusCommand).

Record Command := mkCommand {
  cmd_Type : CommandType;
  cmd_Timestamp : Z;
  cmd_Issuer : string;
  cmd_Payload : option Payload }.

(** The getters of the oneof: nil when another payload is set. *)
Definition GetCreateNamespace (c : Command) : option CreateNamespaceCommand :=
  match cmd_Payload c with Some (Command_CreateNamespace p) => Some p | _ => None end.
Definition GetRegisterProxy (c : Command) : option RegisterProxyCommand :=
  match cmd_Payload c with Some (Command_RegisterProxy p) => Some p | _ => None end.
Definition GetRegisterLauncher (c : Command) : option RegisterLauncherCommand :=
  match cmd_Payload c with Some (Command_RegisterLauncher p) => Some p | _ => None end.
Definition GetAssignPattern (c : Command) : option AssignPatternCommand :=
  match cmd_Payload c with Some (Command_AssignPattern p) => Some p | _ => None end.
Definition GetUpdateProxyStatus (c : Command) : option UpdateProxyStatusCommand :=
  match cmd_Payload c with Some (Command_UpdateProxyStatus p) => Some p | _ => None end.
Definition GetUpdateLauncherStatus (c : Command) : option UpdateLauncherStatusCommand :=
  match cmd_Payload c with Some (Command_UpdateLauncherStatus p) => Some p | _ => None end.
