(* ===== verification/Partition.v ===== *)
(** * cmd/prism-admin/partition_manager.go: the partition manager

    256 partitions are dealt out to the proxies in the order of their ids; nothing
    is stored, every query recomputes the distribution from the proxy set.  The
    manager's lock protects no state and is left out. *)

From S2P Require Import Prelude AdminTypes.
Local Open Scope Z_scope.

(** ** hash/crc32 *)

(** One step of the reflected IEEE polynomial, then one byte, then the string. *)
Definition crc32_step (crc : Z) : Z :=
  if Z.testbit crc 0 then Z.lxor (Z.shiftr crc 1) 3988292384 else Z.shiftr crc 1.

Definition crc32_byte (crc : Z) (b : Ascii.ascii) : Z :=
  Nat.iter 8 crc32_step (Z.lxor crc (Z.of_N (Ascii.N_of_ascii b))).

Definition ChecksumIEEE (s : string) : Z :=
  Z.lxor (foldl crc32_byte (2 ^ 32 - 1) (String.list_ascii_of_string s)) (2 ^ 32 - 1).

Example crc32_check_value : ChecksumIEEE "123456789" = 3421780262.
Proof. vm_compute. reflexivity. Qed.

(** ** Operations *)

Definition HashNamespace (namespace : string) : Z :=
  let hash := ChecksumIEEE namespace in
  wrap32 (hash mod 256).

(** The ids of the proxies, sorted by [sort.Strings]. *)
Definition sorted_ids (allProxies : list ProxyEntry) : list string :=
  merge_sort String.le (pe_ProxyId <$> allProxies).

(** The index of the first occurrence. *)
Fixpoint find_index (target : string) (ids : list string) : option nat :=
  match ids with
  | [] => None
  | id :: ids =>
      if bool_decide (id = target) then Some 0%nat else S <$> find_index target ids
  end.

(** The range of the proxy at [index]: the last one takes what is left. *)
Definition range_at (proxyCount index : Z) : PartitionRange :=
  let rangeSize := 256 ÷ proxyCount in
  let start := wrap32 (index * rangeSize) in
  let end_ := wrap32 (wrap32 (start + wrap32 rangeSize) - 1) in
  let end_ := if index =? proxyCount - 1 then 255 else end_ in
  mkPartitionRange start end_.

Definition ComputeRangesFromProxySet (targetProxyID : string) (allProxies : list ProxyEntry)
    : list PartitionRange :=
  if bool_decide (length allProxies = 0%nat) then []
  else
    let proxyIDs := sorted_ids allProxies in
    match find_index targetProxyID proxyIDs with
    | None => []
    | Some targetIndex =>
        [range_at (Z.of_nat (length proxyIDs)) (Z.of_nat targetIndex)]
    end.

Inductive partition_error :=
  | ErrNoProxies
  | ErrInvalidPartition (id : Z)
  | ErrCoveredTwice (i : Z) (proxyID : string)
  | ErrNotCovered (i : Z).

(** Dividing by a zero [rangeSize] panics. *)
Definition GetProxyForPartitionFromSet (partitionID : Z) (allProxies : list ProxyEntry)
    : result partition_error string :=
  if bool_decide (length allProxies = 0%nat) then Err ErrNoProxies
  else if (partitionID <? 0) || (255 <? partitionID) then Err (ErrInvalidPartition partitionID)
  else
    let proxyIDs := sorted_ids allProxies in
    let proxyCount := Z.of_nat (length proxyIDs) in
    let rangeSize := 256 ÷ proxyCount in
    if rangeSize =? 0 then Panic
    else
      let proxyIndex := partitionID ÷ rangeSize in
      let proxyIndex := if proxyCount <=? proxyIndex then proxyCount - 1 else proxyIndex in
      match proxyIDs !! Z.to_nat proxyIndex with
      | Some id => Ok id
      | None => Panic
      end.

(** Later entries of the sorted list overwrite earlier ones with the same id. *)
Definition ComputeAllRanges (allProxies : list ProxyEntry)
    : gmap string (list PartitionRange) :=
  if bool_decide (length allProxies = 0%nat) then ∅
  else
    let proxyIDs := sorted_ids allProxies in
    let proxyCount := Z.of_nat (length proxyIDs) in
    foldl (λ m '(i, proxyID), <[proxyID := [range_at proxyCount (Z.of_nat i)]]> m) ∅
      (imap pair proxyIDs).

Definition RebalanceOnProxyJoin (existingProxies : list ProxyEntry) (newProxyID : string)
    : gmap string (list PartitionRange) * gmap string (list PartitionRange) :=
  let newProxy := mkProxyEntry newProxyID "" "" "" [] ∅ "healthy" 0 0 None in
  (ComputeAllRanges existingProxies, ComputeAllRanges (existingProxies ++ [newProxy])).

Definition RebalanceOnProxyLeave (allProxies : list ProxyEntry) (leavingProxyID : string)
    : gmap string (list PartitionRange) * gmap string (list PartitionRange) :=
  let remainingProxies := filter (λ p, pe_ProxyId p ≠ leavingProxyID) allProxies in
  (ComputeAllRanges allProxies, ComputeAllRanges remainingProxies).

Definition GetPartitionCount : Z := 256.

Definition GetNamespacesInPartition (partitionID : Z) (allNamespaces : list NamespaceEntry)
    : list NamespaceEntry :=
  filter (λ ns, ne_PartitionId ns = partitionID) allNamespaces.

(** The loops of [ValidatePartitionCoverage], over the entries of the map in the
    order in which the iteration meets them. *)
Definition cover_one (proxyID : string) (covered : result partition_error (list bool)) (i : Z)
    : result partition_error (list bool) :=
  match covered with
  | Ok covered =>
      if i <? 0 then Panic
      else
        match covered !! Z.to_nat i with
        | None => Panic
        | Some true => Err (ErrCoveredTwice i proxyID)
        | Some false => Ok (<[Z.to_nat i := true]> covered)
        end
  | e => e
  end.

Definition range_members (r : PartitionRange) : list Z :=
  seqZ (pr_Start r) (pr_End r - pr_Start r + 1).

Definition cover_entries (entries : list (string * list PartitionRange))
    (covered : result partition_error (list bool)) : result partition_error (list bool) :=
  foldl (λ covered '(proxyID, ranges),
           foldl (λ covered r, foldl (cover_one proxyID) covered (range_members r))
             covered ranges)
    covered entries.

Fixpoint first_gap (i : Z) (covered : list bool) : result partition_error unit :=
  match covered with
  | [] => Ok tt
  | b :: covered => if b then first_gap (i + 1) covered else Err (ErrNotCovered i)
  end.

Definition validate_entries (entries : list (string * list PartitionRange))
    : result partition_error unit :=
  match cover_entries entries (Ok (replicate 256 false)) with
  | Ok covered => first_gap 0 covered
  | Err e => Err e
  | Panic => Panic
  end.

Definition ValidatePartitionCoverage (allProxies : list ProxyEntry)
    : result partition_error unit :=
  if bool_decide (length allProxies = 0%nat) then Err ErrNoProxies
  else validate_entries (map_to_list (ComputeAllRanges allProxies)).

(** ** Arithmetic of the ranges *)

Section Ranges.
Context (n : Z) (Hn : 0 < n ≤ 256).

Lemma rangeSize_bounds : 1 ≤ 256 ÷ n ≤ 256 ∧ n * (256 ÷ n) ≤ 256.
Proof using Hn.
  rewrite Z.quot_div_nonneg by lia.
  pose proof (Z.mul_div_le 256 n). pose proof (Z.div_le_lower_bound 256 n 1). nia.
Qed.

Lemma range_at_eq i :
  0 ≤ i < n →
  range_at n i = mkPartitionRange (i * (256 ÷ n))
                   (if i =? n - 1 then 255 else (i + 1) * (256 ÷ n) - 1).
Proof using Hn.
  intros Hi. pose proof rangeSize_bounds as [Hk Hkn]. unfold range_at.
  set (k := 256 ÷ n) in *. assert (0 ≤ i * k ≤ 256) by nia.
  rewrite (wrap32_id k), (wrap32_id (i * k)) by (unfold in_int32; lia).
  rewrite (wrap32_id (i * k + k)) by (unfold in_int32; lia).
  rewrite wrap32_id by (unfold in_int32; lia).
  f_equal. case_match; lia.
Qed.

(** The index of the proxy that owns a partition. *)
Definition owner_index (p : Z) : Z :=
  let i := p ÷ (256 ÷ n) in if n <=? i then n - 1 else i.

Lemma owner_index_bounds p : 0 ≤ p ≤ 255 → 0 ≤ owner_index p < n.
Proof using Hn.
  intros Hp. pose proof rangeSize_bounds as [Hk Hkn]. unfold owner_index.
  set (k := 256 ÷ n) in *. rewrite Z.quot_div_nonneg by lia.
  pose proof (Z.div_pos p k). case_match; bool_to_prop; lia.
Qed.

Lemma range_at_owner i p :
  0 ≤ i < n → 0 ≤ p ≤ 255 →
  pr_Start (range_at n i) ≤ p ≤ pr_End (range_at n i) ↔ i = owner_index p.
Proof using Hn.
  intros Hi Hp. pose proof rangeSize_bounds as [Hk Hkn]. rewrite range_at_eq by done.
  unfold owner_index. set (k := 256 ÷ n) in *. rewrite Z.quot_div_nonneg by lia. simpl.
  pose proof (Z.mul_div_le p k). pose proof (Z.mul_succ_div_gt p k).
  set (q := p / k) in *. repeat case_match; bool_to_prop; split; intros; nia.
Qed.
End Ranges.

Lemma length_sorted_ids ps : length (sorted_ids ps) = length ps.
Proof. unfold sorted_ids. by rewrite merge_sort_Permutation, length_fmap. Qed.

Lemma sorted_ids_Permutation ps : sorted_ids ps ≡ₚ pe_ProxyId <$> ps.
Proof. apply merge_sort_Permutation. Qed.

Lemma sorted_ids_NoDup ps : NoDup (pe_ProxyId <$> ps) → NoDup (sorted_ids ps).
Proof. by rewrite sorted_ids_Permutation. Qed.

(** Sorting forgets the order of the proxies. *)
Lemma sorted_ids_perm ps1 ps2 : ps1 ≡ₚ ps2 → sorted_ids ps1 = sorted_ids ps2.
Proof.
  intros Hp. unfold sorted_ids. apply (Sorted_unique String.le).
  - apply Sorted_merge_sort, _.
  - apply Sorted_merge_sort, _.
  - by rewrite !merge_sort_Permutation, Hp.
Qed.

Lemma find_index_Some x ids i :
  NoDup ids → find_index x ids = Some i ↔ ids !! i = Some x.
Proof.
  intros Hnd. revert i. induction Hnd as [|id ids Hni Hnd IH]; intros i; [done|]. simpl.
  case_bool_decide as E; subst.
  - split; [by intros [= <-]|]. destruct i as [|i]; [done|]. simpl.
    intros ?%list_elem_of_lookup_2. done.
  - rewrite fmap_Some. split.
    + intros (j & Hj & ->). by apply IH.
    + destruct i as [|i]; simpl; [by intros [= ->]|]. intros Hi. exists i. by rewrite IH.
Qed.

(** ** The distribution *)

Section Distribution.
Context (ps : list ProxyEntry).
Hypothesis ps_bounds : (0 < length ps ≤ 256)%nat.
Hypothesis ps_NoDup : NoDup (pe_ProxyId <$> ps).

Abbreviation n := (Z.of_nat (length (sorted_ids ps))).

Lemma count_bounds : 0 < n ≤ 256.
Proof using ps_bounds. rewrite length_sorted_ids. lia. Qed.

Lemma ComputeRanges_lookup i id :
  sorted_ids ps !! i = Some id →
  ComputeRangesFromProxySet id ps = [range_at n (Z.of_nat i)].
Proof using ps_bounds ps_NoDup.
  intros Hi. unfold ComputeRangesFromProxySet.
  rewrite bool_decide_eq_false_2 by lia.
  apply find_index_Some in Hi; [|by apply sorted_ids_NoDup]. by rewrite Hi.
Qed.

Lemma ComputeRanges_elem id r :
  r ∈ ComputeRangesFromProxySet id ps →
  ∃ i, sorted_ids ps !! i = Some id ∧ r = range_at n (Z.of_nat i).
Proof using ps_bounds ps_NoDup.
  unfold ComputeRangesFromProxySet. rewrite bool_decide_eq_false_2 by lia.
  destruct (find_index _ _) as [i|] eqn:Hi; [|by intros ?%not_elem_of_nil].
  rewrite list_elem_of_singleton. intros ->. exists i.
  apply find_index_Some in Hi; [done|by apply sorted_ids_NoDup].
Qed.

Lemma GetProxy_owner p :
  0 ≤ p ≤ 255 →
  ∃ id, sorted_ids ps !! Z.to_nat (owner_index n p) = Some id ∧
        GetProxyForPartitionFromSet p ps = Ok id.
Proof using ps_bounds.
  intros Hp. pose proof (owner_index_bounds n count_bounds p Hp) as Hb.
  destruct (lookup_lt_is_Some_2 (sorted_ids ps) (Z.to_nat (owner_index n p)))
    as [id Hid]; [lia|].
  exists id. split; [done|]. unfold GetProxyForPartitionFromSet.
  rewrite bool_decide_eq_false_2 by lia.
  replace ((p <? 0) || (255 <? p)) with false
    by (symmetry; apply orb_false_iff; split; apply Z.ltb_ge; lia).
  pose proof (rangeSize_bounds n count_bounds) as [Hk _].
  destruct (256 ÷ n =? 0) eqn:E; bool_to_prop; [lia|].
  unfold owner_index in Hid. by rewrite Hid.
Qed.

Lemma owner_unique p id :
  0 ≤ p ≤ 255 →
  (∃ r, r ∈ ComputeRangesFromProxySet id ps ∧ pr_Start r ≤ p ≤ pr_End r) ↔
  GetProxyForPartitionFromSet p ps = Ok id.
Proof using ps_bounds ps_NoDup.
  intros Hp. destruct (GetProxy_owner p Hp) as (id' & Hid' & ->).
  pose proof (owner_index_bounds n count_bounds p Hp) as Hb. split.
  - intros (r & (i & Hi & ->)%ComputeRanges_elem & Hr). f_equal.
    apply lookup_lt_Some in Hi as Hlt.
    apply range_at_owner in Hr; [|apply count_bounds|lia|done].
    rewrite <- Hr, Nat2Z.id in Hid'. congruence.
  - intros [= ->]. exists (range_at n (owner_index n p)). split.
    + rewrite (ComputeRanges_lookup _ _ Hid'), Z2Nat.id by lia. by apply list_elem_of_here.
    + apply range_at_owner; [apply count_bounds|done|done|done].
Qed.
End Distribution.

(** ** All ranges at once *)

Lemma foldl_insert_lookup {V} (g : nat → V) (m : gmap string V) l id :
  NoDup l →
  foldl (λ m '(i, x), <[x := g i]> m) m (imap pair l) !! id =
    match find_index id l with Some i => Some (g i) | None => m !! id end.
Proof.
  intros Hnd. revert g m. induction Hnd as [|x l Hni Hnd IH]; intros g m; [done|].
  rewrite imap_cons. simpl.
  assert (imap (pair ∘ S) l = (λ '(i, y), (S i, y)) <$> imap pair l) as ->
    by (by rewrite fmap_imap).
  assert (∀ m' (q : list (nat * string)),
            foldl (λ m '(i, x), <[x := g i]> m) m' ((λ '(i, y), (S i, y)) <$> q) =
            foldl (λ m '(i, x), <[x := (g ∘ S) i]> m) m' q) as ->.
  { intros m' q. revert m'. induction q as [|[i y] q IHq]; intros m'; simpl; [done|].
    apply IHq. }
  rewrite IH. case_bool_decide as E; subst; simpl.
  - destruct (find_index id l) as [i|] eqn:Hi.
    + apply find_index_Some in Hi; [|done]. by apply list_elem_of_lookup_2 in Hi.
    + by rewrite lookup_insert_eq.
  - destruct (find_index id l) as [i|]; simpl; [done|]. by rewrite lookup_insert_ne.
Qed.

Lemma ComputeAllRanges_lookup ps id :
  NoDup (pe_ProxyId <$> ps) →
  ComputeAllRanges ps !! id =
    (λ i : nat, [range_at (Z.of_nat (length (sorted_ids ps))) (Z.of_nat i)]) <$>
      find_index id (sorted_ids ps).
Proof.
  intros Hnd. unfold ComputeAllRanges. case_bool_decide as E.
  - apply nil_length_inv in E as ->. done.
  - rewrite (foldl_insert_lookup (λ i, [range_at _ (Z.of_nat i)]))
      by (by apply sorted_ids_NoDup).
    by destruct (find_index id _).
Qed.

(** ** Coverage *)

(** The partitions of the entries, with the proxy that covers them. *)
Definition flat (entries : list (string * list PartitionRange)) : list (string * Z) :=
  entries ≫= λ e, e.2 ≫= λ r, pair e.1 <$> range_members r.

Lemma cover_entries_flat entries c :
  cover_entries entries c = foldl (λ c e, cover_one e.1 c e.2) c (flat entries).
Proof.
  unfold flat. revert c. induction entries as [|[id rs] es IH]; intros c; [done|].
  simpl. rewrite foldl_app. rewrite <- IH. unfold cover_entries. simpl. f_equal.
  clear. revert c. induction rs as [|r rs IH]; intros c; [done|]. simpl.
  rewrite foldl_app, <- IH. f_equal. generalize (range_members r). clear.
  intros l. revert c. induction l as [|i l IH]; intros c; [done|]. simpl. by rewrite IH.
Qed.

Lemma cover_disjoint (l : list (string * Z)) (c : list bool) :
  NoDup l.*2 → (∀ i, i ∈ l.*2 → 0 ≤ i ∧ c !! Z.to_nat i = Some false) →
  ∃ c', foldl (λ c e, cover_one e.1 c e.2) (Ok c) l = Ok c' ∧ length c' = length c ∧
    (∀ i, i ∈ l.*2 → c' !! Z.to_nat i = Some true) ∧
    (∀ j, c !! j = Some true → c' !! j = Some true).
Proof.
  revert c. induction l as [|[id i] l IH]; intros c Hnd Hin; simpl in *.
  { exists c. split_and!; try done. intros i Hi. by apply not_elem_of_nil in Hi. }
  inversion_clear Hnd as [|? ? Hni Hnd'].
  destruct (Hin i) as [Hi0 Hi]; [by apply list_elem_of_here|].
  destruct (i <? 0) eqn:E; bool_to_prop; [lia|]. rewrite Hi.
  assert (Z.to_nat i < length c)%nat by (by eapply lookup_lt_Some).
  destruct (IH (<[Z.to_nat i := true]> c) Hnd') as (c' & Hc' & Hlen & H1 & H2).
  { intros j Hj. destruct (Hin j) as [Hj0 Hjf]; [by apply list_elem_of_further|].
    split; [done|]. rewrite list_lookup_insert_ne; [done|].
    intros Heq%Z2Nat.inj; [|done|done]. by subst. }
  exists c'. rewrite length_insert in Hlen. split_and!; try done.
  - intros j [->|Hj]%elem_of_cons; [|by apply H1].
    apply H2. by rewrite list_lookup_insert_eq.
  - intros j Hj. apply H2. destruct (decide (Z.to_nat i = j)) as [<-|?].
    + by rewrite list_lookup_insert_eq.
    + by rewrite list_lookup_insert_ne.
Qed.

Lemma first_gap_ok c i : (∀ j, (j < length c)%nat → c !! j = Some true) → first_gap i c = Ok tt.
Proof.
  revert i. induction c as [|b c IH]; intros i H; [done|]. simpl.
  assert (b = true) as -> by (specialize (H 0%nat); simpl in H; assert (Some b = Some true)
    as [= ->]; [apply H; lia|done]).
  apply IH. intros j Hj. apply (H (S j)). simpl. lia.
Qed.

Lemma validate_exact entries :
  (flat entries).*2 ≡ₚ seqZ 0 256 → validate_entries entries = Ok tt.
Proof.
  intros Hp. unfold validate_entries. rewrite cover_entries_flat.
  assert (∀ i, i ∈ (flat entries).*2 ↔ 0 ≤ i < 256) as Hel.
  { intros i. rewrite Hp, elem_of_seqZ. lia. }
  destruct (cover_disjoint (flat entries) (replicate 256 false)) as (c & -> & Hlen & H1 & _).
  - rewrite Hp. apply NoDup_seqZ.
  - intros i Hi%Hel. split; [lia|]. apply lookup_replicate_2. lia.
  - rewrite length_replicate in Hlen. apply first_gap_ok. intros j Hj.
    rewrite <- (Nat2Z.id j). apply H1, Hel. lia.
Qed.

(** The ranges in the order of the ids, one after the other, are [0..255]. *)
Lemma ranges_concat n :
  0 < n ≤ 256 →
  (seqZ 0 n ≫= λ i, range_members (range_at n i)) = seqZ 0 256.
Proof.
  intros Hn. pose proof (rangeSize_bounds n Hn) as [Hk Hkn].
  assert (∀ m : nat, Z.of_nat m < n →
    (seqZ 0 (Z.of_nat m) ≫= λ i, range_members (range_at n i)) =
      seqZ 0 (Z.of_nat m * (256 ÷ n))) as Hpre.
  { induction m as [|m IH]; intros Hm; [done|].
    rewrite Nat2Z.inj_succ, <- Z.add_1_r, seqZ_app by lia.
    rewrite bind_app, IH by lia. rewrite Z.add_0_l. change (seqZ (Z.of_nat m) 1) with
      [Z.of_nat 0 + Z.of_nat m]. rewrite Z.add_0_l. simpl. rewrite app_nil_r.
    unfold range_members at 1. rewrite range_at_eq by lia. simpl.
    destruct (Z.of_nat m =? n - 1) eqn:E; bool_to_prop; [lia|].
    rewrite Z.mul_add_distr_r, (seqZ_app 0 (Z.of_nat m * (256 ÷ n))) by nia.
    f_equal. f_equal; lia. }
  replace n with (Z.of_nat (Z.to_nat (n - 1)) + 1) at 1 by lia.
  rewrite seqZ_app, bind_app, Hpre by lia. rewrite Z.add_0_l, Z2Nat.id by lia.
  change (seqZ (n - 1) 1) with [Z.of_nat 0 + (n - 1)]. rewrite Z.add_0_l. simpl.
  rewrite app_nil_r. unfold range_members. rewrite range_at_eq by lia. simpl.
  rewrite Z.eqb_refl.
  set (k := 256 ÷ n) in *.
  transitivity (seqZ 0 ((n - 1) * k + (256 - (n - 1) * k))); [|f_equal; lia].
  rewrite (seqZ_app 0 ((n - 1) * k)) by nia. f_equal. f_equal; lia.
Qed.

Section Coverage.
Context (ps : list ProxyEntry).
Hypothesis ps_bounds : (0 < length ps ≤ 256)%nat.
Hypothesis ps_NoDup : NoDup (pe_ProxyId <$> ps).

Abbreviation n := (Z.of_nat (length (sorted_ids ps))).

Definition ordered_entries : list (string * list PartitionRange) :=
  imap (λ i id, (id, [range_at n (Z.of_nat i)])) (sorted_ids ps).

Lemma ordered_entries_perm : map_to_list (ComputeAllRanges ps) ≡ₚ ordered_entries.
Proof using ps_NoDup.
  pose proof (sorted_ids_NoDup ps ps_NoDup) as Hnd.
  apply NoDup_Permutation.
  - apply NoDup_map_to_list.
  - apply (NoDup_fmap_1 fst). unfold ordered_entries. rewrite fmap_imap.
    rewrite (imap_ext _ (const (id (A := string)))) by done.
    by rewrite imap_const, list_fmap_id.
  - intros [id rs]. rewrite elem_of_map_to_list, ComputeAllRanges_lookup by done.
    unfold ordered_entries. rewrite elem_of_lookup_imap, fmap_Some. split.
    + intros (i & Hi%find_index_Some & ->); [|done]. by exists i, id.
    + intros (i & id' & [= -> ->] & Hi). exists i. by rewrite find_index_Some.
Qed.

Lemma ordered_entries_flat : (flat ordered_entries).*2 = seqZ 0 256.
Proof using ps_bounds.
  assert (0 < n ≤ 256) as Hn by (rewrite length_sorted_ids; lia).
  rewrite <- (ranges_concat n Hn). unfold flat, ordered_entries.
  assert (∀ (ids : list string) (off : nat),
    (imap (λ i id, (id, [range_at n (Z.of_nat (off + i))])) ids
       ≫= λ e, e.2 ≫= λ r, pair e.1 <$> range_members r).*2 =
    (seqZ (Z.of_nat off) (Z.of_nat (length ids)) ≫= λ i, range_members (range_at n i)))
    as Hgen.
  { induction ids as [|id ids IH]; intros off; [done|].
    rewrite imap_cons. cbn [length]. rewrite Nat2Z.inj_succ, seqZ_cons by lia.
    simpl. rewrite app_nil_r, fmap_app, <- list_fmap_compose.
    rewrite Nat.add_0_r. f_equal.
    - rewrite <- (list_fmap_id (range_members _)) at 2. by apply list_fmap_ext.
    - rewrite Z.pred_succ, <- Nat2Z.inj_succ, <- IH. f_equal. f_equal.
      apply imap_ext. intros i x _. simpl. by rewrite Nat.add_succ_r. }
  apply (Hgen (sorted_ids ps) 0%nat).
Qed.
End Coverage.

(** ** Properties *)

(** C4. For one to 256 proxies with distinct ids, every partition has exactly one
      owner and the two queries agree on it: [GetProxyForPartitionFromSet] returns
      a registered proxy, and the range [ComputeRangesFromProxySet] gives to a
      proxy contains the partition exactly when that proxy is the one returned. *)
Theorem ranges_and_owner_are_inverse ps p :
  (0 < length ps ≤ 256)%nat → NoDup (pe_ProxyId <$> ps) → 0 ≤ p ≤ 255 →
  ∃ owner, GetProxyForPartitionFromSet p ps = Ok owner ∧ owner ∈ pe_ProxyId <$> ps ∧
    ∀ id, (∃ r, r ∈ ComputeRangesFromProxySet id ps ∧ pr_Start r ≤ p ≤ pr_End r) ↔ id = owner.
Proof.
  intros Hlen Hnd Hp. destruct (GetProxy_owner ps Hlen p Hp) as (owner & Hl & Hget).
  exists owner. split_and!; [done| |].
  - rewrite <- sorted_ids_Permutation. by eapply list_elem_of_lookup_2.
  - intros id. rewrite owner_unique, Hget by done. split; [by intros [= ->]|by intros ->].
Qed.

(** The distribution does not depend on the order in which the proxies are
      listed (the order in which Go iterates over the proxy map). *)
Theorem distribution_order_independent ps1 ps2 :
  ps1 ≡ₚ ps2 →
  (∀ id, ComputeRangesFromProxySet id ps1 = ComputeRangesFromProxySet id ps2) ∧
  (∀ p, GetProxyForPartitionFromSet p ps1 = GetProxyForPartitionFromSet p ps2) ∧
  ComputeAllRanges ps1 = ComputeAllRanges ps2 ∧
  ValidatePartitionCoverage ps1 = ValidatePartitionCoverage ps2.
Proof.
  intros Hp. pose proof (sorted_ids_perm ps1 ps2 Hp) as Hs.
  pose proof (Permutation_length Hp) as Hl.
  assert (ComputeAllRanges ps1 = ComputeAllRanges ps2) as Hall
    by (unfold ComputeAllRanges; by rewrite Hs, Hl).
  split_and!; [| |done|].
  - intros id. unfold ComputeRangesFromProxySet. by rewrite Hs, Hl.
  - intros p. unfold GetProxyForPartitionFromSet. by rewrite Hs, Hl.
  - unfold ValidatePartitionCoverage. by rewrite Hall, Hl.
Qed.

(** [ComputeAllRanges] is the per-proxy computation done for all proxies: for
      distinct ids it holds exactly the registered ids, each with the result of
      [ComputeRangesFromProxySet]. *)
Theorem ComputeAllRanges_agrees ps id :
  NoDup (pe_ProxyId <$> ps) →
  ComputeAllRanges ps !! id =
    if bool_decide (id ∈ pe_ProxyId <$> ps) then Some (ComputeRangesFromProxySet id ps) else None.
Proof.
  intros Hnd. rewrite ComputeAllRanges_lookup by done.
  pose proof (sorted_ids_NoDup ps Hnd) as Hnd'.
  rewrite (bool_decide_ext (id ∈ pe_ProxyId <$> ps) (id ∈ sorted_ids ps))
    by (by rewrite sorted_ids_Permutation).
  unfold ComputeRangesFromProxySet. case_bool_decide as Hin.
  - apply list_elem_of_lookup in Hin as [i Hi].
    rewrite bool_decide_eq_false_2.
    + apply (find_index_Some id _ i Hnd') in Hi. by rewrite Hi.
    + intros E. apply nil_length_inv in E as ->. done.
  - destruct (find_index id (sorted_ids ps)) as [i|] eqn:Hi; [|done].
    apply find_index_Some in Hi; [|done]. by apply list_elem_of_lookup_2 in Hi.
Qed.

(** For one to 256 proxies with distinct ids the coverage check passes, in
      whatever order the iteration meets the entries of the range map: no
      partition is covered twice, none is left out, and no index is out of range. *)
Theorem coverage_is_complete ps entries :
  (0 < length ps ≤ 256)%nat → NoDup (pe_ProxyId <$> ps) →
  entries ≡ₚ map_to_list (ComputeAllRanges ps) →
  validate_entries entries = Ok tt.
Proof.
  intros Hlen Hnd Hp. apply validate_exact.
  rewrite (ordered_entries_perm ps Hnd) in Hp.
  rewrite <- (ordered_entries_flat ps Hlen). unfold flat. by rewrite Hp.
Qed.

(** How many partitions a proxy owns. *)
Definition share (ps : list ProxyEntry) (id : string) : Z :=
  Z.of_nat (length (ComputeRangesFromProxySet id ps ≫= range_members)).

Section Shares.
Context (ps : list ProxyEntry).
Context (Hlen : (0 < length ps ≤ 256)%nat) (Hnd : NoDup (pe_ProxyId <$> ps)).
Let n : Z := Z.of_nat (length ps).

(** The range of the proxy at place [i], and its size. *)
Lemma range_of_place i id :
  sorted_ids ps !! i = Some id →
  ComputeRangesFromProxySet id ps =
    [mkPartitionRange (Z.of_nat i * (256 / n))
       (if bool_decide (S i = length ps) then 255 else (Z.of_nat i + 1) * (256 / n) - 1)] ∧
  share ps id = 256 / n + (if bool_decide (S i = length ps) then 256 mod n else 0).
Proof using Hlen Hnd.
  intros Hi. pose proof (count_bounds ps Hlen) as Hn.
  pose proof (rangeSize_bounds _ Hn) as [Hk Hkn].
  pose proof (lookup_lt_Some _ _ _ Hi) as Hlt.
  unfold share. rewrite (ComputeRanges_lookup ps Hlen Hnd i id Hi), range_at_eq by lia.
  rewrite length_sorted_ids in Hn, Hk, Hkn, Hlt |- *. fold n in Hn, Hk, Hkn |- *.
  simpl. rewrite app_nil_r. unfold range_members. rewrite length_seqZ. simpl.
  rewrite Z.quot_div_nonneg in * by lia. pose proof (Z.div_mod 256 n). set (k := 256 / n) in *.
  assert (0 ≤ Z.of_nat i * k) by nia.
  destruct (Z.of_nat i =? n - 1) eqn:E; bool_to_prop;
    [rewrite bool_decide_eq_true_2 by lia|rewrite bool_decide_eq_false_2 by lia]; (split; [done|]).
  - assert (Z.of_nat i * k = n * k - k) by (rewrite E; lia).
    pose proof (Z.mod_pos_bound 256 n). lia.
  - assert ((Z.of_nat i + 1) * k ≤ n * k) by nia. lia.
Qed.

(** Some proxy is the last one, and with two of them some other is not. *)
Lemma place_exists i : (i < length ps)%nat → ∃ id, sorted_ids ps !! i = Some id.
Proof. intros Hi. apply lookup_lt_is_Some. by rewrite length_sorted_ids. Qed.
End Shares.

(** C33. How the partitions are shared out among one to 256 proxies: in the order of the
      ids, each proxy owns the next [256 / n] partitions, and the last one owns the
      remaining [256 mod n] as well.  So the shares are even, in that no two proxies differ
      by more than one partition, exactly when [256 mod n] is at most one; with 3 proxies
      the ranges are 0-84, 85-169 and 170-255.  The comments of the code say that the
      partitions are distributed evenly and give 0-85, 86-170 and 171-255. *)
Theorem partition_shares ps :
  (0 < length ps ≤ 256)%nat → NoDup (pe_ProxyId <$> ps) →
  let n := Z.of_nat (length ps) in
  (∀ i id, sorted_ids ps !! i = Some id →
     ComputeRangesFromProxySet id ps =
       [mkPartitionRange (Z.of_nat i * (256 / n))
          (if bool_decide (S i = length ps) then 255 else (Z.of_nat i + 1) * (256 / n) - 1)] ∧
     share ps id = 256 / n + (if bool_decide (S i = length ps) then 256 mod n else 0)) ∧
  ((∀ id1 id2, id1 ∈ sorted_ids ps → id2 ∈ sorted_ids ps → Z.abs (share ps id1 - share ps id2) ≤ 1) ↔
   256 mod n ≤ 1).
Proof.
  intros Hlen Hnd n. split; [by apply range_of_place|]. split.
  - intros Heven. destruct (decide (length ps = 1%nat)) as [H1|H1]; [unfold n; by rewrite H1|].
    destruct (place_exists ps 0) as [a Ha]; [lia|].
    destruct (place_exists ps (length ps - 1)) as [b Hb]; [lia|].
    pose proof (Heven b a (list_elem_of_lookup_2 _ _ _ Hb) (list_elem_of_lookup_2 _ _ _ Ha)) as H.
    apply range_of_place in Ha as [_ Ha]; [|done..]. apply range_of_place in Hb as [_ Hb]; [|done..].
    rewrite Ha, Hb in H. rewrite bool_decide_eq_true_2, bool_decide_eq_false_2 in H by lia.
    fold n in H. lia.
  - intros Hmod a b [i Ha]%list_elem_of_lookup [j Hb]%list_elem_of_lookup.
    apply range_of_place in Ha as [_ ->]; [|done..]. apply range_of_place in Hb as [_ ->]; [|done..].
    fold n. pose proof (Z.mod_pos_bound 256 n). unfold n in *. repeat case_bool_decide; lia.
Qed.

(** With more than 256 proxies no partition can be looked up any more: the range
      size is zero and the division by it panics for every valid partition. *)
Theorem too_many_proxies_panics ps p :
  (256 < length ps)%nat → 0 ≤ p ≤ 255 → GetProxyForPartitionFromSet p ps = Panic.
Proof.
  intros Hlen Hp. unfold GetProxyForPartitionFromSet.
  rewrite bool_decide_eq_false_2 by lia.
  replace ((p <? 0) || (255 <? p)) with false
    by (symmetry; apply orb_false_iff; split; apply Z.ltb_ge; lia).
  rewrite length_sorted_ids, Z.quot_small by lia. done.
Qed.

(** A namespace always hashes to a partition. *)
Lemma HashNamespace_bounds ns : 0 ≤ HashNamespace ns ≤ 255.
Proof.
  unfold HashNamespace. pose proof (Z.mod_pos_bound (ChecksumIEEE ns) 256).
  rewrite wrap32_id; unfold in_int32; lia.
Qed.

(** ** Witnesses *)

Module PartitionDemo.
Definition proxy (id : string) : ProxyEntry :=
  mkProxyEntry id "" "" "" [] ∅ "healthy" 0 0 None.

Definition three : list ProxyEntry := [proxy "proxy-02"; proxy "proxy-03"; proxy "proxy-01"].

(** The comment of [ComputeRangesFromProxySet] gives 0-85, 86-170 and 171-255. *)
Example three_ranges :
  (λ id, ComputeRangesFromProxySet id three) <$> ["proxy-01"; "proxy-02"; "proxy-03"]%string =
  [[mkPartitionRange 0 84]; [mkPartitionRange 85 169]; [mkPartitionRange 170 255]].
Proof. vm_compute. reflexivity. Qed.

Lemma three_NoDup : NoDup (pe_ProxyId <$> three).
Proof. apply (bool_decide_eq_true_1 _). vm_compute. reflexivity. Qed.

Lemma ranges_and_owner_are_inverse_witness :
  ∃ owner, GetProxyForPartitionFromSet 85 three = Ok owner ∧ owner ∈ pe_ProxyId <$> three ∧
    ∀ id, (∃ r, r ∈ ComputeRangesFromProxySet id three ∧ pr_Start r ≤ 85 ≤ pr_End r) ↔ id = owner.
Proof.
  apply (ranges_and_owner_are_inverse three 85); [simpl; lia|apply three_NoDup|lia].
Defined.

Lemma distribution_order_independent_witness :
  ComputeAllRanges three = ComputeAllRanges (reverse three).
Proof.
  apply (distribution_order_independent three (reverse three)). symmetry. apply reverse_Permutation.
Defined.

Lemma ComputeAllRanges_agrees_witness :
  ComputeAllRanges three !! "proxy-02"%string =
    if bool_decide ("proxy-02"%string ∈ pe_ProxyId <$> three)
    then Some (ComputeRangesFromProxySet "proxy-02" three) else None.
Proof. apply (ComputeAllRanges_agrees three "proxy-02"). apply three_NoDup. Defined.

Lemma coverage_is_complete_witness :
  validate_entries (reverse (map_to_list (ComputeAllRanges three))) = Ok tt.
Proof.
  apply (coverage_is_complete three); [simpl; lia|apply three_NoDup|apply reverse_Permutation].
Defined.

(** Three proxies: 85, 85 and 86 partitions. *)
Lemma partition_shares_witness :
  ComputeRangesFromProxySet "proxy-03" three = [mkPartitionRange 170 255] ∧ share three "proxy-03" = 86.
Proof.
  apply (proj1 (partition_shares three ltac:(simpl; lia) three_NoDup) 2%nat "proxy-03"%string).
  vm_compute. reflexivity.
Defined.

(** With 200 proxies the last one owns 57 partitions and every other one. *)
Example two_hundred_proxies : 256 / 200 = 1 ∧ 256 mod 200 = 56.
Proof. done. Qed.

Lemma too_many_proxies_panics_witness :
  GetProxyForPartitionFromSet 0 (replicate 257 (proxy "p")) = Panic.
Proof. apply (too_many_proxies_panics (replicate 257 (proxy "p")) 0); simpl; lia. Defined.
End PartitionDemo.
