(* ===== verification/AdminFsm.v ===== *)
(** * cmd/prism-admin/fsm.go: the replicated admin state machine

    [Apply] is run by Raft for every committed log entry, [Snapshot], [Persist] and
    [Restore] for log compaction.  Parameters: the protobuf decoder, the deep copy
    [proto.Clone] and the gob codec, which are library code; a clock reading per
    call of [time.Now] that ends up in the state.  The local database is a log of
    the calls issued to it (its errors are ignored by the state machine).  [None]
    of [Apply] is a panic. *)

From stdpp Require Import pretty.
From S2P Require Import Prelude Backoff AdminTypes.
Local Open Scope Z_scope.

(** ** State *)

(** The rows handed to the database: storage.go's [Namespace], [Proxy], [Launcher]. *)
Inductive storage_call :=
  | StCreateNamespace (name description : string)
  | StUpsertProxy (id address version status : string) (lastSeen : Z)
  | StUpsertLauncher (id address region version status : string)
      (maxProcesses availableSlots lastSeen : Z).

Record AdminStateMachine := mkFsm {
  fsm_state : AdminState;
  fsm_lastAppliedIndex : Z;
  fsm_lastAppliedTerm : Z;
  fsm_storage : option (list storage_call) }.

(** [hasStorage]: a database is attached. *)
Definition NewAdminStateMachine (hasStorage : bool) : AdminStateMachine :=
  mkFsm (mkAdminState 1 (Some ∅) (Some ∅) (Some ∅) (Some ∅) 0 0 0) 0 0
    (if hasStorage then Some [] else None).

Definition set_state (s : AdminState) (f : AdminStateMachine) : AdminStateMachine :=
  mkFsm s (fsm_lastAppliedIndex f) (fsm_lastAppliedTerm f) (fsm_storage f).

Definition set_Namespaces m (s : AdminState) : AdminState :=
  mkAdminState (as_Version s) m (as_Proxies s) (as_Launchers s) (as_Patterns s)
    (as_LastAppliedIndex s) (as_LastAppliedTerm s) (as_StateUpdatedAt s).
Definition set_Proxies m (s : AdminState) : AdminState :=
  mkAdminState (as_Version s) (as_Namespaces s) m (as_Launchers s) (as_Patterns s)
    (as_LastAppliedIndex s) (as_LastAppliedTerm s) (as_StateUpdatedAt s).
Definition set_Launchers m (s : AdminState) : AdminState :=
  mkAdminState (as_Version s) (as_Namespaces s) (as_Proxies s) m (as_Patterns s)
    (as_LastAppliedIndex s) (as_LastAppliedTerm s) (as_StateUpdatedAt s).
Definition set_Patterns m (s : AdminState) : AdminState :=
  mkAdminState (as_Version s) (as_Namespaces s) (as_Proxies s) (as_Launchers s) m
    (as_LastAppliedIndex s) (as_LastAppliedTerm s) (as_StateUpdatedAt s).

(** Issue a database call when a database is attached. *)
Definition storage_sync (c : storage_call) (f : AdminStateMachine) : AdminStateMachine :=
  mkFsm (fsm_state f) (fsm_lastAppliedIndex f) (fsm_lastAppliedTerm f)
    ((λ log, log ++ [c]) <$> fsm_storage f).

Inductive fsm_error :=
  | ErrUnmarshal
  | ErrUnknownCommand (t : CommandType)
  | ErrProxyNotRegistered (id : string)
  | ErrLauncherNotRegistered (id : string).

(** A handler leaves the state alone when it returns an error. *)
Abbreviation handled := (result fsm_error AdminStateMachine).

Local Open Scope go_scope.

(** ** Command handlers *)

Definition applyCreateNamespace (now : Z) (cmd : CreateNamespaceCommand)
    (f : AdminStateMachine) : handled :=
  let s := fsm_state f in
  match map_get (cn_Namespace cmd) (as_Namespaces s) with
  | Some e =>
      let e := mkNamespaceEntry (ne_Name e) (ne_Description e) (ne_PartitionId e)
                 (cn_AssignedProxy cmd) (cn_Config cmd) (ne_CreatedBy e) (ne_CreatedAt e) now in
      m <-! map_set (cn_Namespace cmd) e (as_Namespaces s);
      Ok (set_state (set_Namespaces m s) f)
  | None =>
      let e := mkNamespaceEntry (cn_Namespace cmd) ("Created by " +:+ cn_Principal cmd)
                 (cn_PartitionId cmd) (cn_AssignedProxy cmd) (cn_Config cmd)
                 (cn_Principal cmd) now now in
      m <-! map_set (cn_Namespace cmd) e (as_Namespaces s);
      let f := set_state (set_Namespaces m s) f in
      Ok (storage_sync
            (StCreateNamespace (cn_Namespace cmd)
               ("Created by " +:+ cn_Principal cmd +:+ " (partition " +:+
                  pretty (cn_PartitionId cmd) +:+ ", proxy " +:+ cn_AssignedProxy cmd +:+ ")")) f)
  end.

Definition applyRegisterProxy (now : Z) (cmd : RegisterProxyCommand)
    (f : AdminStateMachine) : handled :=
  let s := fsm_state f in
  let e :=
    match map_get (rp_ProxyId cmd) (as_Proxies s) with
    | Some e =>
        mkProxyEntry (pe_ProxyId e) (rp_Address cmd) (pe_Region e) (rp_Version cmd)
          (rp_Capabilities cmd) (rp_Metadata cmd) "healthy" (pe_RegisteredAt e) now
          (pe_Resources e)
    | None =>
        mkProxyEntry (rp_ProxyId cmd) (rp_Address cmd) (rp_Region cmd) (rp_Version cmd)
          (rp_Capabilities cmd) (rp_Metadata cmd) "healthy" now now None
    end in
  m <-! map_set (rp_ProxyId cmd) e (as_Proxies s);
  Ok (storage_sync
        (StUpsertProxy (rp_ProxyId cmd) (rp_Address cmd) (rp_Version cmd) "healthy" now)
        (set_state (set_Proxies m s) f)).

Definition applyRegisterLauncher (now : Z) (cmd : RegisterLauncherCommand)
    (f : AdminStateMachine) : handled :=
  let s := fsm_state f in
  let e :=
    match map_get (rl_LauncherId cmd) (as_Launchers s) with
    | Some e =>
        mkLauncherEntry (le_LauncherId e) (rl_Address cmd) (le_Region e) (rl_Version cmd)
          (rl_Capabilities cmd) (rl_ProcessTypes cmd) (rl_MaxProcesses cmd) (rl_Metadata cmd)
          "healthy" (le_RegisteredAt e) now (rl_MaxProcesses cmd) (le_Resources e)
    | None =>
        mkLauncherEntry (rl_LauncherId cmd) (rl_Address cmd) (rl_Region cmd) (rl_Version cmd)
          (rl_Capabilities cmd) (rl_ProcessTypes cmd) (rl_MaxProcesses cmd) (rl_Metadata cmd)
          "healthy" now now (rl_MaxProcesses cmd) None
    end in
  m <-! map_set (rl_LauncherId cmd) e (as_Launchers s);
  Ok (storage_sync
        (StUpsertLauncher (rl_LauncherId cmd) (rl_Address cmd) (rl_Region cmd) (rl_Version cmd)
           "healthy" (rl_MaxProcesses cmd) (rl_MaxProcesses cmd) now)
        (set_state (set_Launchers m s) f)).

Definition set_AvailableSlots (n : Z) (e : LauncherEntry) : LauncherEntry :=
  mkLauncherEntry (le_LauncherId e) (le_Address e) (le_Region e) (le_Version e)
    (le_Capabilities e) (le_ProcessTypes e) (le_MaxProcesses e) (le_Metadata e) (le_Status e)
    (le_RegisteredAt e) (le_LastSeen e) n (le_Resources e).

Definition applyAssignPattern (now : Z) (cmd : AssignPatternCommand)
    (f : AdminStateMachine) : handled :=
  let s := fsm_state f in
  match map_get (ap_PatternId cmd) (as_Patterns s) with
  | Some e =>
      let e := mkPatternEntry (pat_PatternId e) (pat_Namespace e) (pat_PatternType e)
                 (ap_LauncherId cmd) (ap_Config cmd) (pat_Status e) (pat_AssignedAt e) now in
      m <-! map_set (ap_PatternId cmd) e (as_Patterns s);
      Ok (set_state (set_Patterns m s) f)
  | None =>
      let e := mkPatternEntry (ap_PatternId cmd) (ap_Namespace cmd) (ap_PatternType cmd)
                 (ap_LauncherId cmd) (ap_Config cmd) "running" now now in
      m <-! map_set (ap_PatternId cmd) e (as_Patterns s);
      let s := set_Patterns m s in
      match map_get (ap_LauncherId cmd) (as_Launchers s) with
      | Some l =>
          if 0 <? le_AvailableSlots l then
            ls <-! map_set (ap_LauncherId cmd)
                     (set_AvailableSlots (le_AvailableSlots l - 1) l) (as_Launchers s);
            Ok (set_state (set_Launchers ls s) f)
          else Ok (set_state s f)
      | None => Ok (set_state s f)
      end
  end.

Definition applyUpdateProxyStatus (cmd : UpdateProxyStatusCommand)
    (f : AdminStateMachine) : handled :=
  let s := fsm_state f in
  match map_get (ups_ProxyId cmd) (as_Proxies s) with
  | None => Err (ErrProxyNotRegistered (ups_ProxyId cmd))
  | Some e =>
      let e := mkProxyEntry (pe_ProxyId e) (pe_Address e) (pe_Region e) (pe_Version e)
                 (pe_Capabilities e) (pe_Metadata e) (ups_Status cmd) (pe_RegisteredAt e)
                 (ups_LastSeen cmd)
                 (if ups_Resources cmd is Some r then Some r else pe_Resources e) in
      m <-! map_set (ups_ProxyId cmd) e (as_Proxies s);
      Ok (set_state (set_Proxies m s) f)
  end.

Definition applyUpdateLauncherStatus (cmd : UpdateLauncherStatusCommand)
    (f : AdminStateMachine) : handled :=
  let s := fsm_state f in
  match map_get (uls_LauncherId cmd) (as_Launchers s) with
  | None => Err (ErrLauncherNotRegistered (uls_LauncherId cmd))
  | Some e =>
      let e := mkLauncherEntry (le_LauncherId e) (le_Address e) (le_Region e) (le_Version e)
                 (le_Capabilities e) (le_ProcessTypes e) (le_MaxProcesses e) (le_Metadata e)
                 (uls_Status cmd) (le_RegisteredAt e) (uls_LastSeen cmd)
                 (uls_AvailableSlots cmd)
                 (if uls_Resources cmd is Some r then Some r else le_Resources e) in
      m <-! map_set (uls_LauncherId cmd) e (as_Launchers s);
      Ok (set_state (set_Launchers m s) f)
  end.

(** ** Apply *)

(** A getter that returns nil makes the handler dereference a nil pointer. *)
Definition with_payload {A} (p : option A) (k : A → handled) : handled :=
  match p with Some a => k a | None => Panic end.

(** The [switch] of [Apply]; [now] is the handler's clock reading. *)
Definition dispatch (now : Z) (cmd : Command) (f : AdminStateMachine) : handled :=
  match cmd_Type cmd with
  | COMMAND_TYPE_CREATE_NAMESPACE =>
      with_payload (GetCreateNamespace cmd) (λ c, applyCreateNamespace now c f)
  | COMMAND_TYPE_REGISTER_PROXY =>
      with_payload (GetRegisterProxy cmd) (λ c, applyRegisterProxy now c f)
  | COMMAND_TYPE_REGISTER_LAUNCHER =>
      with_payload (GetRegisterLauncher cmd) (λ c, applyRegisterLauncher now c f)
  | COMMAND_TYPE_ASSIGN_PATTERN =>
      with_payload (GetAssignPattern cmd) (λ c, applyAssignPattern now c f)
  | COMMAND_TYPE_UPDATE_PROXY_STATUS =>
      with_payload (GetUpdateProxyStatus cmd) (λ c, applyUpdateProxyStatus c f)
  | COMMAND_TYPE_UPDATE_LAUNCHER_STATUS =>
      with_payload (GetUpdateLauncherStatus cmd) (λ c, applyUpdateLauncherStatus c f)
  | t => Err (ErrUnknownCommand t)
  end.

(** The metadata [Apply] writes before it dispatches. *)
Definition stamp (index term now : Z) (f : AdminStateMachine) : AdminStateMachine :=
  let s := fsm_state f in
  mkFsm (mkAdminState (as_Version s) (as_Namespaces s) (as_Proxies s) (as_Launchers s)
           (as_Patterns s) (wrap64 index) (wrap64 term) now)
    index term (fsm_storage f).

Record Log (D : Type) := mkLog { log_Index : Z; log_Term : Z; log_Data : D }.
Global Arguments mkLog {D} _ _ _.
Global Arguments log_Index {D} _.
Global Arguments log_Term {D} _.
Global Arguments log_Data {D} _.

(** The clock readings of one [Apply]: for [StateUpdatedAt], and the handler's. *)
Record clock := mkClock { ck_updated : Z; ck_handler : Z }.

Record AdminSnapshot := mkAdminSnapshot {
  sn_LastAppliedIndex : Z;
  sn_LastAppliedTerm : Z;
  sn_SnapshotTime : Z;
  sn_State : AdminState }.

Section Fsm.
Context {D : Type} (unmarshal : D → option Command).

Definition Apply (ck : clock) (log : Log D) (f : AdminStateMachine)
    : option (AdminStateMachine * option fsm_error) :=
  match unmarshal (log_Data log) with
  | None => Some (f, Some ErrUnmarshal)
  | Some cmd =>
      let f := stamp (log_Index log) (log_Term log) (ck_updated ck) f in
      match dispatch (ck_handler ck) cmd f with
      | Ok f => Some (f, None)
      | Err e => Some (f, Some e)
      | Panic => None
      end
  end.

(** A replica applies the committed log in order. *)
Fixpoint apply_all (entries : list (clock * Log D)) (f : AdminStateMachine)
    : option AdminStateMachine :=
  match entries with
  | [] => Some f
  | (ck, log) :: entries => '(f, _) ← Apply ck log f; apply_all entries f
  end.

(** ** Snapshots *)

Context (clone : AdminState → AdminState).
Context {B : Type} (encode : AdminSnapshot → option B) (decode : B → option AdminSnapshot).

Definition Snapshot (now : Z) (f : AdminStateMachine) : AdminSnapshot :=
  mkAdminSnapshot (fsm_lastAppliedIndex f) (fsm_lastAppliedTerm f) now (clone (fsm_state f)).

(** [None]: the sink is cancelled and the error returned. *)
Definition Persist (s : AdminSnapshot) : option B := encode s.

(** [None]: the error is returned and the machine is left alone. *)
Definition Restore (b : B) (f : AdminStateMachine) : option AdminStateMachine :=
  snap ← decode b;
  Some (mkFsm (sn_State snap) (sn_LastAppliedIndex snap) (sn_LastAppliedTerm snap)
          (fsm_storage f)).
End Fsm.

(** ** Queries *)

Definition GetNamespace (name : string) (f : AdminStateMachine) : option NamespaceEntry :=
  map_get name (as_Namespaces (fsm_state f)).
Definition GetProxy (proxyID : string) (f : AdminStateMachine) : option ProxyEntry :=
  map_get proxyID (as_Proxies (fsm_state f)).

(** In the order in which Go iterates over the map, which is not specified. *)
Definition GetAllProxies (f : AdminStateMachine) : list ProxyEntry :=
  map_values (as_Proxies (fsm_state f)).

Definition GetHealthyLaunchers (f : AdminStateMachine) : list LauncherEntry :=
  List.filter (λ l, bool_decide (le_Status l = "healthy"%string) && (0 <? le_AvailableSlots l))
    (map_values (as_Launchers (fsm_state f))).

(** [count] is an int32. *)
Definition GetPatternCountForLauncher (launcherID : string) (f : AdminStateMachine) : Z :=
  foldl (λ count p,
           if bool_decide (pat_LauncherId p = launcherID) then wrap32 (count + 1) else count)
    0 (map_values (as_Patterns (fsm_state f))).

Definition LastAppliedIndex (f : AdminStateMachine) : Z := fsm_lastAppliedIndex f.
Definition LastAppliedTerm (f : AdminStateMachine) : Z := fsm_lastAppliedTerm f.
