(* ===== verification/AdminFsmSpec.v ===== *)
(** * Correctness of the admin state machine

    The invariant of the state, totality of [Apply] on well-formed commands,
    idempotence of commands, agreement of replicas that apply the same log with
    different clocks, and snapshots. *)

From S2P Require Import Prelude Backoff AdminTypes AdminFsm.
Local Open Scope Z_scope.

(** ** Invariant *)

(** The map is allocated and every entry carries its own key. *)
Definition keyed {V} (key : V → string) (m : go_map V) : Prop :=
  ∃ m', m = Some m' ∧ ∀ k v, m' !! k = Some v → key v = k.

Record fsm_ok (f : AdminStateMachine) : Prop := {
  ok_namespaces : keyed ne_Name (as_Namespaces (fsm_state f));
  ok_proxies : keyed pe_ProxyId (as_Proxies (fsm_state f));
  ok_launchers : keyed le_LauncherId (as_Launchers (fsm_state f));
  ok_patterns : keyed pat_PatternId (as_Patterns (fsm_state f)) }.

Lemma keyed_get {V} (key : V → string) m k v :
  keyed key m → map_get k m = Some v → key v = k.
Proof. intros (m' & -> & Hm). apply Hm. Qed.

Lemma keyed_set {V} (key : V → string) m k v :
  keyed key m → key v = k →
  ∃ m', map_set (E := fsm_error) k v m = Ok m' ∧ keyed key m' ∧ m' = Some (<[k := v]> (default ∅ m)).
Proof.
  intros (m' & -> & Hm) Hk. eexists. split; [done|]. split; [|done].
  eexists. split; [done|]. intros k' v' [[<- <-]|[? ?]]%lookup_insert_Some; [done|eauto].
Qed.

(** The payload of a command is the one its type announces. *)
Definition well_formed (cmd : Command) : bool :=
  match cmd_Type cmd, cmd_Payload cmd with
  | COMMAND_TYPE_CREATE_NAMESPACE, Some (Command_CreateNamespace _)
  | COMMAND_TYPE_REGISTER_PROXY, Some (Command_RegisterProxy _)
  | COMMAND_TYPE_REGISTER_LAUNCHER, Some (Command_RegisterLauncher _)
  | COMMAND_TYPE_ASSIGN_PATTERN, Some (Command_AssignPattern _)
  | COMMAND_TYPE_UPDATE_PROXY_STATUS, Some (Command_UpdateProxyStatus _)
  | COMMAND_TYPE_UPDATE_LAUNCHER_STATUS, Some (Command_UpdateLauncherStatus _)
  | COMMAND_TYPE_UNSPECIFIED, _ | COMMAND_TYPE_OTHER _, _ => true
  | _, _ => false
  end.

(** A handler succeeds in a good state, or returns an error. *)
Definition handled_ok (r : handled) : Prop :=
  match r with Ok f => fsm_ok f | Err _ => True | Panic => False end.

Ltac keyed_step H :=
  let m := fresh "m" in let E := fresh "E" in let K := fresh "K" in
  destruct H as (m & E & K & _); rewrite E; simpl.

Lemma applyCreateNamespace_ok now c f : fsm_ok f → handled_ok (applyCreateNamespace now c f).
Proof.
  intros [H1 H2 H3 H4]. unfold applyCreateNamespace.
  destruct (map_get _ _) as [e|] eqn:Hget.
  - keyed_step (keyed_set ne_Name _ (cn_Namespace c)
      (mkNamespaceEntry (ne_Name e) (ne_Description e) (ne_PartitionId e)
         (cn_AssignedProxy c) (cn_Config c) (ne_CreatedBy e) (ne_CreatedAt e) now)
      H1 (keyed_get _ _ _ _ H1 Hget)). by split.
  - keyed_step (keyed_set ne_Name _ (cn_Namespace c)
      (mkNamespaceEntry (cn_Namespace c) ("Created by " +:+ cn_Principal c)
         (cn_PartitionId c) (cn_AssignedProxy c) (cn_Config c) (cn_Principal c) now now)
      H1 eq_refl). by split.
Qed.

Lemma applyRegisterProxy_ok now c f : fsm_ok f → handled_ok (applyRegisterProxy now c f).
Proof.
  intros [H1 H2 H3 H4]. unfold applyRegisterProxy.
  set (e := match map_get _ _ with Some _ => _ | None => _ end).
  assert (pe_ProxyId e = rp_ProxyId c) as He.
  { unfold e. destruct (map_get _ _) eqn:Hget; [|done]. by apply (keyed_get _ _ _ _ H2 Hget). }
  keyed_step (keyed_set pe_ProxyId _ (rp_ProxyId c) e H2 He). by split.
Qed.

Lemma applyRegisterLauncher_ok now c f : fsm_ok f → handled_ok (applyRegisterLauncher now c f).
Proof.
  intros [H1 H2 H3 H4]. unfold applyRegisterLauncher.
  set (e := match map_get _ _ with Some _ => _ | None => _ end).
  assert (le_LauncherId e = rl_LauncherId c) as He.
  { unfold e. destruct (map_get _ _) eqn:Hget; [|done]. by apply (keyed_get _ _ _ _ H3 Hget). }
  keyed_step (keyed_set le_LauncherId _ (rl_LauncherId c) e H3 He). by split.
Qed.

Lemma applyAssignPattern_ok now c f : fsm_ok f → handled_ok (applyAssignPattern now c f).
Proof.
  intros [H1 H2 H3 H4]. unfold applyAssignPattern.
  destruct (map_get _ _) as [e|] eqn:Hget.
  - keyed_step (keyed_set pat_PatternId _ (ap_PatternId c)
      (mkPatternEntry (pat_PatternId e) (pat_Namespace e) (pat_PatternType e)
         (ap_LauncherId c) (ap_Config c) (pat_Status e) (pat_AssignedAt e) now)
      H4 (keyed_get _ _ _ _ H4 Hget)). by split.
  - keyed_step (keyed_set pat_PatternId _ (ap_PatternId c)
      (mkPatternEntry (ap_PatternId c) (ap_Namespace c) (ap_PatternType c)
         (ap_LauncherId c) (ap_Config c) "running" now now) H4 eq_refl).
    destruct (map_get (ap_LauncherId c) _) as [l|] eqn:Hl; [|by split].
    case_match; [|by split].
    keyed_step (keyed_set le_LauncherId _ (ap_LauncherId c)
      (set_AvailableSlots (le_AvailableSlots l - 1) l) H3 (keyed_get _ _ _ _ H3 Hl)).
    by split.
Qed.

Lemma applyUpdateProxyStatus_ok c f : fsm_ok f → handled_ok (applyUpdateProxyStatus c f).
Proof.
  intros [H1 H2 H3 H4]. unfold applyUpdateProxyStatus.
  destruct (map_get _ _) as [e|] eqn:Hget; [|done].
  set (e' := mkProxyEntry _ _ _ _ _ _ _ _ _ _).
  keyed_step (keyed_set pe_ProxyId _ (ups_ProxyId c) e' H2 (keyed_get _ _ _ _ H2 Hget)).
  by split.
Qed.

Lemma applyUpdateLauncherStatus_ok c f : fsm_ok f → handled_ok (applyUpdateLauncherStatus c f).
Proof.
  intros [H1 H2 H3 H4]. unfold applyUpdateLauncherStatus.
  destruct (map_get _ _) as [e|] eqn:Hget; [|done].
  set (e' := mkLauncherEntry _ _ _ _ _ _ _ _ _ _ _ _ _).
  keyed_step (keyed_set le_LauncherId _ (uls_LauncherId c) e' H3 (keyed_get _ _ _ _ H3 Hget)).
  by split.
Qed.

Lemma dispatch_ok now cmd f : fsm_ok f → well_formed cmd = true → handled_ok (dispatch now cmd f).
Proof.
  intros Hok Hwf. unfold dispatch, well_formed, GetCreateNamespace, GetRegisterProxy,
    GetRegisterLauncher, GetAssignPattern, GetUpdateProxyStatus, GetUpdateLauncherStatus in *.
  destruct (cmd_Type cmd); try done; destruct (cmd_Payload cmd) as [[]|]; try done; simpl.
  - by apply applyCreateNamespace_ok.
  - by apply applyRegisterProxy_ok.
  - by apply applyRegisterLauncher_ok.
  - by apply applyAssignPattern_ok.
  - by apply applyUpdateProxyStatus_ok.
  - by apply applyUpdateLauncherStatus_ok.
Qed.

Lemma stamp_ok i t now f : fsm_ok f → fsm_ok (stamp i t now f).
Proof. intros [H1 H2 H3 H4]. by split. Qed.

Lemma NewAdminStateMachine_ok b : fsm_ok (NewAdminStateMachine b).
Proof. split; by eexists. Qed.

Section Replica.
Context {D : Type} (unmarshal : D → option Command).

Definition log_ok (log : Log D) : Prop :=
  ∀ cmd, unmarshal (log_Data log) = Some cmd → well_formed cmd = true.

Lemma Apply_ok ck log f :
  fsm_ok f → log_ok log → ∃ f' r, Apply unmarshal ck log f = Some (f', r) ∧ fsm_ok f'.
Proof.
  intros Hok Hlog. unfold Apply. destruct (unmarshal _) as [cmd|] eqn:Hu; [|by eauto].
  set (f0 := stamp _ _ _ f). assert (fsm_ok f0) as Hok0 by (by apply stamp_ok).
  pose proof (dispatch_ok (ck_handler ck) cmd f0 Hok0 (Hlog _ Hu)) as Hd.
  destruct (dispatch _ _ f0); simpl in Hd; [by eauto|by eauto|done].
Qed.

Lemma apply_all_ok entries f :
  fsm_ok f → Forall (λ e, log_ok e.2) entries →
  ∃ f', apply_all unmarshal entries f = Some f' ∧ fsm_ok f'.
Proof.
  intros Hok Hall. revert f Hok. induction Hall as [|[ck log] es Hl Hall IH]; intros f Hok.
  { by eauto. }
  destruct (Apply_ok ck log f Hok Hl) as (f' & r & E & Hok'). simpl. rewrite E. simpl.
  by apply IH.
Qed.
End Replica.

(** The proxies of a good state have distinct ids. *)
Lemma GetAllProxies_NoDup f : fsm_ok f → NoDup (pe_ProxyId <$> GetAllProxies f).
Proof.
  intros [_ (m & E & Hm) _ _]. unfold GetAllProxies. rewrite E. simpl.
  assert (pe_ProxyId <$> (map_to_list m).*2 = (map_to_list m).*1) as ->.
  { rewrite <- list_fmap_compose. apply list_fmap_ext. intros i [k v] Hi. simpl.
    apply Hm. by apply elem_of_map_to_list, list_elem_of_lookup_2 with i. }
  apply NoDup_fst_map_to_list.
Qed.

(** ** Clock readings *)

(** A state without the fields that depend on the local clock. *)
Definition map_erase {V} (g : V → V) (m : go_map V) : go_map V :=
  match m with Some m => Some (g <$> m) | None => None end.

Definition erase_ns (e : NamespaceEntry) : NamespaceEntry :=
  mkNamespaceEntry (ne_Name e) (ne_Description e) (ne_PartitionId e) (ne_AssignedProxy e)
    (ne_Config e) (ne_CreatedBy e) 0 0.
Definition erase_proxy (e : ProxyEntry) : ProxyEntry :=
  mkProxyEntry (pe_ProxyId e) (pe_Address e) (pe_Region e) (pe_Version e) (pe_Capabilities e)
    (pe_Metadata e) (pe_Status e) 0 0 (pe_Resources e).
Definition erase_launcher (e : LauncherEntry) : LauncherEntry :=
  mkLauncherEntry (le_LauncherId e) (le_Address e) (le_Region e) (le_Version e)
    (le_Capabilities e) (le_ProcessTypes e) (le_MaxProcesses e) (le_Metadata e) (le_Status e)
    0 0 (le_AvailableSlots e) (le_Resources e).
Definition erase_pattern (e : PatternEntry) : PatternEntry :=
  mkPatternEntry (pat_PatternId e) (pat_Namespace e) (pat_PatternType e) (pat_LauncherId e)
    (pat_Config e) (pat_Status e) 0 0.
Definition erase_state (s : AdminState) : AdminState :=
  mkAdminState (as_Version s) (map_erase erase_ns (as_Namespaces s))
    (map_erase erase_proxy (as_Proxies s)) (map_erase erase_launcher (as_Launchers s))
    (map_erase erase_pattern (as_Patterns s)) (as_LastAppliedIndex s) (as_LastAppliedTerm s) 0.
Definition erase_call (c : storage_call) : storage_call :=
  match c with
  | StCreateNamespace _ _ => c
  | StUpsertProxy id a v st _ => StUpsertProxy id a v st 0
  | StUpsertLauncher id a r v st m s _ => StUpsertLauncher id a r v st m s 0
  end.
Definition log_erase (st : option (list storage_call)) : option (list storage_call) :=
  match st with Some l => Some (erase_call <$> l) | None => None end.
Definition erase (f : AdminStateMachine) : AdminStateMachine :=
  mkFsm (erase_state (fsm_state f)) (fsm_lastAppliedIndex f) (fsm_lastAppliedTerm f)
    (log_erase (fsm_storage f)).

(** Two replicas agree when they differ in clock readings only. *)
Definition agree (f1 f2 : AdminStateMachine) : Prop := erase f1 = erase f2.

#[export] Instance agree_equiv : Equivalence agree.
Proof. split; unfold agree; [by intros ?|by intros ??|intros ???; apply eq_trans]. Qed.

Definition handled_agree (r1 r2 : handled) : Prop :=
  match r1, r2 with
  | Ok f1, Ok f2 => agree f1 f2
  | Err e1, Err e2 => e1 = e2
  | Panic, Panic => True
  | _, _ => False
  end.

Lemma agree_intro s1 s2 i t st1 st2 :
  erase_state s1 = erase_state s2 → log_erase st1 = log_erase st2 →
  agree (mkFsm s1 i t st1) (mkFsm s2 i t st2).
Proof. unfold agree, erase. simpl. by intros -> ->. Qed.

Lemma agree_inv f1 f2 :
  agree f1 f2 →
  erase_state (fsm_state f1) = erase_state (fsm_state f2) ∧
  fsm_lastAppliedIndex f1 = fsm_lastAppliedIndex f2 ∧
  fsm_lastAppliedTerm f1 = fsm_lastAppliedTerm f2 ∧
  log_erase (fsm_storage f1) = log_erase (fsm_storage f2).
Proof.
  intros E. split_and!; [apply (f_equal fsm_state E)|apply (f_equal fsm_lastAppliedIndex E)|
    apply (f_equal fsm_lastAppliedTerm E)|apply (f_equal fsm_storage E)].
Qed.

Lemma map_get_agree {V} (g : V → V) k (m1 m2 : go_map V) :
  map_erase g m1 = map_erase g m2 → g <$> map_get k m1 = g <$> map_get k m2.
Proof.
  destruct m1 as [m1|], m2 as [m2|]; simpl; try done. intros [= E].
  by rewrite <- !lookup_fmap, E.
Qed.

Lemma map_set_agree {E V} (g : V → V) k v1 v2 (m1 m2 : go_map V) :
  map_erase g m1 = map_erase g m2 → g v1 = g v2 →
  (∃ m1' m2', map_set (E := E) k v1 m1 = Ok m1' ∧ map_set (E := E) k v2 m2 = Ok m2' ∧
     map_erase g m1' = map_erase g m2') ∨
  (map_set (E := E) k v1 m1 = Panic ∧ map_set (E := E) k v2 m2 = Panic).
Proof.
  destruct m1 as [m1|], m2 as [m2|]; simpl; try done; [|by right]. intros [= Em] Hv.
  left. eexists _, _. split_and!; [done..|]. simpl. by rewrite !fmap_insert, Hv, Em.
Qed.

Lemma storage_sync_agree c1 c2 f1 f2 :
  erase_call c1 = erase_call c2 → agree f1 f2 → agree (storage_sync c1 f1) (storage_sync c2 f2).
Proof.
  intros Hc (E1 & E2 & E3 & E4)%agree_inv. unfold storage_sync. rewrite E2, E3.
  apply agree_intro; [done|]. destruct (fsm_storage f1), (fsm_storage f2); simplify_eq/=; [|done].
  rewrite !fmap_app. simpl. congruence.
Qed.

Lemma set_state_agree s1 s2 f1 f2 :
  erase_state s1 = erase_state s2 → agree f1 f2 → agree (set_state s1 f1) (set_state s2 f2).
Proof.
  intros Hs (E1 & E2 & E3 & E4)%agree_inv. unfold set_state. rewrite E2, E3.
  by apply agree_intro.
Qed.

(** The maps of agreeing states, and the states with one map replaced. *)
Lemma erase_state_inv s1 s2 :
  erase_state s1 = erase_state s2 →
  map_erase erase_ns (as_Namespaces s1) = map_erase erase_ns (as_Namespaces s2) ∧
  map_erase erase_proxy (as_Proxies s1) = map_erase erase_proxy (as_Proxies s2) ∧
  map_erase erase_launcher (as_Launchers s1) = map_erase erase_launcher (as_Launchers s2) ∧
  map_erase erase_pattern (as_Patterns s1) = map_erase erase_pattern (as_Patterns s2).
Proof.
  intros E. split_and!; [apply (f_equal as_Namespaces E)|apply (f_equal as_Proxies E)|
    apply (f_equal as_Launchers E)|apply (f_equal as_Patterns E)].
Qed.

Ltac erase_field :=
  let E := fresh in let Em := fresh in
  intros E Em; unfold erase_state; simpl; rewrite Em; f_equal;
  first [apply (f_equal as_Version E)|apply (f_equal as_Namespaces E)|
    apply (f_equal as_Proxies E)|apply (f_equal as_Launchers E)|
    apply (f_equal as_Patterns E)|apply (f_equal as_LastAppliedIndex E)|
    apply (f_equal as_LastAppliedTerm E)].

Lemma erase_set_Namespaces m1 m2 s1 s2 :
  erase_state s1 = erase_state s2 → map_erase erase_ns m1 = map_erase erase_ns m2 →
  erase_state (set_Namespaces m1 s1) = erase_state (set_Namespaces m2 s2).
Proof. erase_field. Qed.
Lemma erase_set_Proxies m1 m2 s1 s2 :
  erase_state s1 = erase_state s2 → map_erase erase_proxy m1 = map_erase erase_proxy m2 →
  erase_state (set_Proxies m1 s1) = erase_state (set_Proxies m2 s2).
Proof. erase_field. Qed.
Lemma erase_set_Launchers m1 m2 s1 s2 :
  erase_state s1 = erase_state s2 → map_erase erase_launcher m1 = map_erase erase_launcher m2 →
  erase_state (set_Launchers m1 s1) = erase_state (set_Launchers m2 s2).
Proof. erase_field. Qed.
Lemma erase_set_Patterns m1 m2 s1 s2 :
  erase_state s1 = erase_state s2 → map_erase erase_pattern m1 = map_erase erase_pattern m2 →
  erase_state (set_Patterns m1 s1) = erase_state (set_Patterns m2 s2).
Proof. erase_field. Qed.

Lemma handled_agree_Ok f1 f2 : agree f1 f2 → handled_agree (Ok f1) (Ok f2).
Proof. done. Qed.

Create HintDb agree.
#[export] Hint Resolve handled_agree_Ok set_state_agree storage_sync_agree erase_set_Namespaces
  erase_set_Proxies erase_set_Launchers erase_set_Patterns : agree.

(** Look a key up in both states: absent in both, or present with entries that
    agree. *)
Ltac get_both g k M :=
  let Hk := fresh "Hget" in
  pose proof (map_get_agree g k _ _ M) as Hk;
  match type of Hk with _ <$> map_get k ?a = _ <$> map_get k ?b =>
    destruct (map_get k a) as [?e|] eqn:?, (map_get k b) as [?e|] eqn:? end;
  cbn in Hk; try done; try (injection Hk; clear Hk; intros).

(** Assign entries that agree into both states. *)
Ltac set_both g k M :=
  match goal with
  | |- handled_agree (match map_set k ?x _ with _ => _ end)
                     (match map_set k ?y _ with _ => _ end) =>
      let Hv := fresh in let E1 := fresh in let E2 := fresh in let M' := fresh "M" in
      assert (g x = g y) as Hv by (unfold g; simpl; repeat case_match; congruence);
      destruct (map_set_agree (E := fsm_error) g k x y _ _ M Hv) as
        [(? & ? & E1 & E2 & M')|[E1 E2]]; rewrite E1, E2; [simpl|exact I]
  end.

Section Agree.
Context (now1 now2 : Z) (f1 f2 : AdminStateMachine) (Hf : agree f1 f2).

Lemma agree_maps :
  map_erase erase_ns (as_Namespaces (fsm_state f1)) =
    map_erase erase_ns (as_Namespaces (fsm_state f2)) ∧
  map_erase erase_proxy (as_Proxies (fsm_state f1)) =
    map_erase erase_proxy (as_Proxies (fsm_state f2)) ∧
  map_erase erase_launcher (as_Launchers (fsm_state f1)) =
    map_erase erase_launcher (as_Launchers (fsm_state f2)) ∧
  map_erase erase_pattern (as_Patterns (fsm_state f1)) =
    map_erase erase_pattern (as_Patterns (fsm_state f2)).
Proof using Hf. by apply erase_state_inv, agree_inv. Qed.

Lemma agree_state : erase_state (fsm_state f1) = erase_state (fsm_state f2).
Proof using Hf. by apply agree_inv. Qed.
Hint Resolve agree_state : agree.

Lemma applyCreateNamespace_agree c :
  handled_agree (applyCreateNamespace now1 c f1) (applyCreateNamespace now2 c f2).
Proof using Hf.
  destruct agree_maps as (M & _). unfold applyCreateNamespace.
  get_both erase_ns (cn_Namespace c) M;
    (set_both erase_ns (cn_Namespace c) M; auto with agree).
Qed.

Lemma applyRegisterProxy_agree c :
  handled_agree (applyRegisterProxy now1 c f1) (applyRegisterProxy now2 c f2).
Proof using Hf.
  destruct agree_maps as (_ & M & _). unfold applyRegisterProxy.
  get_both erase_proxy (rp_ProxyId c) M;
    (set_both erase_proxy (rp_ProxyId c) M; auto with agree).
Qed.

Lemma applyRegisterLauncher_agree c :
  handled_agree (applyRegisterLauncher now1 c f1) (applyRegisterLauncher now2 c f2).
Proof using Hf.
  destruct agree_maps as (_ & _ & M & _). unfold applyRegisterLauncher.
  get_both erase_launcher (rl_LauncherId c) M;
    (set_both erase_launcher (rl_LauncherId c) M; auto with agree).
Qed.

Lemma applyAssignPattern_agree c :
  handled_agree (applyAssignPattern now1 c f1) (applyAssignPattern now2 c f2).
Proof using Hf.
  destruct agree_maps as (_ & _ & Ml & M). unfold applyAssignPattern.
  get_both erase_pattern (ap_PatternId c) M;
    (set_both erase_pattern (ap_PatternId c) M); [by auto with agree|].
  get_both erase_launcher (ap_LauncherId c) Ml; [|by auto with agree].
  match goal with H : le_AvailableSlots _ = le_AvailableSlots _ |- _ => rewrite H end.
  case_match; [|by auto with agree].
  set_both erase_launcher (ap_LauncherId c) Ml. auto with agree.
Qed.

Lemma applyUpdateProxyStatus_agree c :
  handled_agree (applyUpdateProxyStatus c f1) (applyUpdateProxyStatus c f2).
Proof using Hf.
  destruct agree_maps as (_ & M & _). unfold applyUpdateProxyStatus.
  get_both erase_proxy (ups_ProxyId c) M.
  set_both erase_proxy (ups_ProxyId c) M. auto with agree.
Qed.

Lemma applyUpdateLauncherStatus_agree c :
  handled_agree (applyUpdateLauncherStatus c f1) (applyUpdateLauncherStatus c f2).
Proof using Hf.
  destruct agree_maps as (_ & _ & M & _). unfold applyUpdateLauncherStatus.
  get_both erase_launcher (uls_LauncherId c) M.
  set_both erase_launcher (uls_LauncherId c) M. auto with agree.
Qed.

Lemma dispatch_agree cmd : handled_agree (dispatch now1 cmd f1) (dispatch now2 cmd f2).
Proof using Hf.
  unfold dispatch. destruct (cmd_Type cmd); simpl; try done; unfold with_payload;
    case_match; try done.
  - apply applyCreateNamespace_agree.
  - apply applyRegisterProxy_agree.
  - apply applyRegisterLauncher_agree.
  - apply applyAssignPattern_agree.
  - apply applyUpdateProxyStatus_agree.
  - apply applyUpdateLauncherStatus_agree.
Qed.
End Agree.

Lemma stamp_agree i t now1 now2 f1 f2 :
  agree f1 f2 → agree (stamp i t now1 f1) (stamp i t now2 f2).
Proof.
  intros Hf. unfold stamp. apply agree_intro; [|by apply agree_inv].
  destruct (agree_maps f1 f2 Hf) as (M1 & M2 & M3 & M4).
  unfold erase_state. simpl. rewrite M1, M2, M3, M4.
  by rewrite (f_equal as_Version (agree_state f1 f2 Hf) : as_Version (fsm_state f1) = _).
Qed.

Section Replicas.
Context {D : Type} (unmarshal : D → option Command).

Definition applied_agree (r1 r2 : option (AdminStateMachine * option fsm_error)) : Prop :=
  match r1, r2 with
  | Some (f1, e1), Some (f2, e2) => agree f1 f2 ∧ e1 = e2
  | None, None => True
  | _, _ => False
  end.

(** [Apply] respects agreement, whatever the two clocks say. *)
Lemma Apply_agree ck1 ck2 log f1 f2 :
  agree f1 f2 → applied_agree (Apply unmarshal ck1 log f1) (Apply unmarshal ck2 log f2).
Proof.
  intros Hf. unfold Apply. destruct (unmarshal _) as [cmd|]; [|done].
  set (g1 := stamp _ _ _ f1). set (g2 := stamp _ _ _ f2).
  assert (agree g1 g2) as Hg by (by apply stamp_agree).
  pose proof (dispatch_agree (ck_handler ck1) (ck_handler ck2) g1 g2 Hg cmd) as Hd.
  destruct (dispatch _ _ g1), (dispatch _ _ g2); simpl in *; try done; by subst.
Qed.

Lemma apply_all_agree entries1 entries2 f1 f2 f1' :
  entries1.*2 = entries2.*2 → agree f1 f2 →
  apply_all unmarshal entries1 f1 = Some f1' →
  ∃ f2', apply_all unmarshal entries2 f2 = Some f2' ∧ agree f1' f2'.
Proof.
  revert entries2 f1 f2. induction entries1 as [|[ck1 log] es IH];
    intros [|[ck2 log2] es2] f1 f2 He Hf Hrun; simplify_eq/=; [by eauto|].
  pose proof (Apply_agree ck1 ck2 log2 f1 f2 Hf) as Ha.
  destruct (Apply unmarshal ck1 log2 f1) as [[g1 e1]|]; [|done].
  destruct (Apply unmarshal ck2 log2 f2) as [[g2 e2]|]; [|done].
  destruct Ha as [Hg _]. simpl in *. by eapply IH.
Qed.
End Replicas.

(** ** Idempotence *)

(** Replacing an entry by one that differs in its clock fields only. *)
Lemma map_erase_insert {V} (g : V → V) k v v' (m : gmap string V) :
  g v' = g v → g <$> <[k := v']> (<[k := v]> m) = g <$> <[k := v]> m.
Proof. intros Hv. by rewrite insert_insert_eq, !fmap_insert, Hv. Qed.

Definition repeatable (h : Z → AdminStateMachine → handled) : Prop :=
  ∀ now now' f f1, h now f = Ok f1 →
    ∃ f2, h now' f1 = Ok f2 ∧ erase_state (fsm_state f2) = erase_state (fsm_state f1).

Ltac erase_again :=
  eexists; split; [reflexivity|]; unfold erase_state; simpl;
  rewrite map_erase_insert by done; reflexivity.

Lemma repeatable_CreateNamespace c : repeatable (λ now, applyCreateNamespace now c).
Proof.
  intros now now' [[v [ns|] px ls pt i t u] ix tm st] f1; unfold applyCreateNamespace; simpl;
    [|done]. destruct (ns !! cn_Namespace c) as [e|] eqn:Hget; intros [= <-]; simpl;
    rewrite lookup_insert_eq; erase_again.
Qed.

Lemma repeatable_RegisterProxy c : repeatable (λ now, applyRegisterProxy now c).
Proof.
  intros now now' [[v ns [px|] ls pt i t u] ix tm st] f1; unfold applyRegisterProxy; simpl;
    [|done]. destruct (px !! rp_ProxyId c) as [e|] eqn:Hget; intros [= <-]; simpl;
    rewrite lookup_insert_eq; erase_again.
Qed.

Lemma repeatable_RegisterLauncher c : repeatable (λ now, applyRegisterLauncher now c).
Proof.
  intros now now' [[v ns px [ls|] pt i t u] ix tm st] f1; unfold applyRegisterLauncher; simpl;
    [|done]. destruct (ls !! rl_LauncherId c) as [e|] eqn:Hget; intros [= <-]; simpl;
    rewrite lookup_insert_eq; erase_again.
Qed.

Lemma repeatable_AssignPattern c : repeatable (λ now, applyAssignPattern now c).
Proof.
  intros now now' [[v ns px ls [pt|] i t u] ix tm st] f1; unfold applyAssignPattern; simpl;
    [|done]. destruct (pt !! ap_PatternId c) as [e|] eqn:Hget; simpl.
  - intros [= <-]; simpl. rewrite lookup_insert_eq. erase_again.
  - destruct ls as [ls|]; simpl.
    + destruct (ls !! ap_LauncherId c) as [l|]; simpl; [case_match|]; intros [= <-]; simpl;
        rewrite lookup_insert_eq; erase_again.
    + intros [= <-]; simpl. rewrite lookup_insert_eq. erase_again.
Qed.

Lemma repeatable_UpdateProxyStatus c : repeatable (λ _, applyUpdateProxyStatus c).
Proof.
  intros now now' [[v ns [px|] ls pt i t u] ix tm st] f1; unfold applyUpdateProxyStatus; simpl;
    [|done]. destruct (px !! ups_ProxyId c) as [e|] eqn:Hget; [|done]. intros [= <-]; simpl.
  rewrite lookup_insert_eq. eexists; split; [reflexivity|]; unfold erase_state; simpl.
  rewrite map_erase_insert; [done|]. by destruct (ups_Resources c).
Qed.

Lemma repeatable_UpdateLauncherStatus c : repeatable (λ _, applyUpdateLauncherStatus c).
Proof.
  intros now now' [[v ns px [ls|] pt i t u] ix tm st] f1; unfold applyUpdateLauncherStatus;
    simpl; [|done]. destruct (ls !! uls_LauncherId c) as [e|] eqn:Hget; [|done].
  intros [= <-]; simpl.
  rewrite lookup_insert_eq. eexists; split; [reflexivity|]; unfold erase_state; simpl.
  rewrite map_erase_insert; [done|]. by destruct (uls_Resources c).
Qed.

Lemma repeatable_dispatch cmd : repeatable (λ now, dispatch now cmd).
Proof.
  intros now now' f f1. unfold dispatch. destruct (cmd_Type cmd); try done;
    unfold with_payload; case_match; try done.
  - apply (repeatable_CreateNamespace _ now now').
  - apply (repeatable_RegisterProxy _ now now').
  - apply (repeatable_RegisterLauncher _ now now').
  - apply (repeatable_AssignPattern _ now now').
  - apply (repeatable_UpdateProxyStatus _ now now').
  - apply (repeatable_UpdateLauncherStatus _ now now').
Qed.

(** The four maps up to timestamps. *)
Definition contents (f : AdminStateMachine) :=
  let s := fsm_state f in
  (map_erase erase_ns (as_Namespaces s), map_erase erase_proxy (as_Proxies s),
   map_erase erase_launcher (as_Launchers s), map_erase erase_pattern (as_Patterns s)).

Definition position (f : AdminStateMachine) : Z * Z :=
  (fsm_lastAppliedIndex f, fsm_lastAppliedTerm f).

Lemma contents_erase f g :
  erase_state (fsm_state f) = erase_state (fsm_state g) → contents f = contents g.
Proof. unfold erase_state, contents. intros [= _ -> -> -> ->]. done. Qed.

(** No handler reads or writes what [Apply] stamps. *)
Lemma stamp_dispatch i t u now cmd f :
  dispatch now cmd (stamp i t u f) =
  match dispatch now cmd f with Ok g => Ok (stamp i t u g) | Err e => Err e | Panic => Panic end.
Proof.
  unfold dispatch. destruct (cmd_Type cmd); try done; unfold with_payload; case_match; try done;
    unfold applyCreateNamespace, applyRegisterProxy, applyRegisterLauncher, applyAssignPattern,
      applyUpdateProxyStatus, applyUpdateLauncherStatus, map_get, map_set;
    destruct f as [[v [ns|] [px|] [ls|] [pt|] ? ? ?] ? ? ?]; simpl; by repeat case_match.
Qed.

Section Replay.
Context {D : Type} (unmarshal : D → option Command).

(** Every entry is applied with success. *)
Fixpoint apply_clean (entries : list (clock * Log D)) (f : AdminStateMachine)
    : option AdminStateMachine :=
  match entries with
  | [] => Some f
  | (ck, log) :: entries =>
      match Apply unmarshal ck log f with
      | Some (f, None) => apply_clean entries f
      | _ => None
      end
  end.

Definition log_position (log : Log D) : Z * Z := (log_Index log, log_Term log).

Lemma Apply_success ck log f f1 :
  Apply unmarshal ck log f = Some (f1, None) →
  ∃ cmd, unmarshal (log_Data log) = Some cmd ∧ ∃ now g, dispatch now cmd g = Ok f1.
Proof.
  unfold Apply. destruct (unmarshal _) as [cmd|]; [|done].
  destruct (dispatch _ _ _) eqn:Hd; intros; simplify_eq. eauto.
Qed.

(** One replay of a command that has just succeeded. *)
Lemma replay_step now cmd g f1 ck log :
  unmarshal (log_Data log) = Some cmd → dispatch now cmd g = Ok f1 →
  ∃ f2, Apply unmarshal ck log f1 = Some (f2, None) ∧ contents f2 = contents f1 ∧
        position f2 = log_position log ∧ ∃ now' g', dispatch now' cmd g' = Ok f2.
Proof.
  intros Hu Hd. destruct (repeatable_dispatch cmd now (ck_handler ck) g f1 Hd) as (f2 & Hd2 & He).
  pose proof (stamp_dispatch (log_Index log) (log_Term log) (ck_updated ck) (ck_handler ck) cmd f1)
    as Hs. rewrite Hd2 in Hs.
  exists (stamp (log_Index log) (log_Term log) (ck_updated ck) f2).
  unfold Apply. rewrite Hu. simpl. rewrite Hs. split_and!; [done| |done|eauto].
  by apply (contents_erase f2 f1).
Qed.

Lemma replay_run now cmd g f1 replays :
  dispatch now cmd g = Ok f1 →
  Forall (λ e, unmarshal (log_Data e.2) = Some cmd) replays →
  ∃ f2, apply_clean replays f1 = Some f2 ∧ contents f2 = contents f1 ∧
        position f2 = default (position f1) (log_position ∘ snd <$> last replays).
Proof.
  intros Hd Hall. revert now g f1 Hd. induction Hall as [|[ck log] es Hu Hall IH]; intros now g f1 Hd.
  { exists f1. done. }
  destruct (replay_step _ _ _ _ ck log Hu Hd) as (f2 & Ha & Hc & Hp & now' & g' & Hd').
  destruct (IH _ _ _ Hd') as (f3 & Hr & Hc3 & Hp3). exists f3. simpl. rewrite Ha.
  split_and!; [done|by rewrite Hc3|]. rewrite Hp3, Hp, last_cons. by destruct (last es).
Qed.
End Replay.

(** ** Snapshots *)

(** Equal as protobuf messages: a nil map is an empty one. *)
Definition map_equiv {V} (m1 m2 : go_map V) : Prop := default ∅ m1 = default ∅ m2.
Record state_equiv (s1 s2 : AdminState) : Prop := {
  se_version : as_Version s1 = as_Version s2;
  se_namespaces : map_equiv (as_Namespaces s1) (as_Namespaces s2);
  se_proxies : map_equiv (as_Proxies s1) (as_Proxies s2);
  se_launchers : map_equiv (as_Launchers s1) (as_Launchers s2);
  se_patterns : map_equiv (as_Patterns s1) (as_Patterns s2);
  se_index : as_LastAppliedIndex s1 = as_LastAppliedIndex s2;
  se_term : as_LastAppliedTerm s1 = as_LastAppliedTerm s2;
  se_updated : as_StateUpdatedAt s1 = as_StateUpdatedAt s2 }.

#[export] Instance state_equiv_equiv : Equivalence state_equiv.
Proof.
  split.
  - by intros s; split.
  - by intros s1 s2 []; split.
  - intros s1 s2 s3 [] []; split; unfold map_equiv in *; congruence.
Qed.

Lemma map_get_default {V} k (m : go_map V) : map_get k m = default ∅ m !! k.
Proof. destruct m; simpl; [done|by rewrite lookup_empty]. Qed.
Lemma map_values_default {V} (m : go_map V) : map_values m = (map_to_list (default ∅ m)).*2.
Proof. destruct m; simpl; [done|by rewrite map_to_list_empty]. Qed.

(** Every query gives the same answer on equivalent states. *)
Definition same_answers (f1 f2 : AdminStateMachine) : Prop :=
  (∀ k, GetNamespace k f1 = GetNamespace k f2) ∧ (∀ k, GetProxy k f1 = GetProxy k f2) ∧
  GetAllProxies f1 = GetAllProxies f2 ∧ GetHealthyLaunchers f1 = GetHealthyLaunchers f2 ∧
  (∀ l, GetPatternCountForLauncher l f1 = GetPatternCountForLauncher l f2) ∧
  LastAppliedIndex f1 = LastAppliedIndex f2 ∧ LastAppliedTerm f1 = LastAppliedTerm f2.

Lemma state_equiv_answers f1 f2 :
  state_equiv (fsm_state f1) (fsm_state f2) →
  fsm_lastAppliedIndex f1 = fsm_lastAppliedIndex f2 →
  fsm_lastAppliedTerm f1 = fsm_lastAppliedTerm f2 → same_answers f1 f2.
Proof.
  intros [_ E1 E2 E3 E4 _ _ _] Ei Et. unfold map_equiv in *. unfold same_answers, GetNamespace,
    GetProxy, GetAllProxies, GetHealthyLaunchers, GetPatternCountForLauncher.
  rewrite !map_values_default, E2, E3, E4. split_and!; try done; intros k;
    by rewrite !map_get_default, ?E1, ?E2.
Qed.

(** ** Properties *)

Section Properties.
Context {D : Type} (unmarshal : D → option Command).

(** On a log of well-formed commands a replica never panics: starting from the
      initial state, applying any committed log goes through, whatever the
      clocks say, and ends in a state whose maps are allocated and hold every
      entry under its own id. *)
Theorem admin_replica_never_panics storage entries :
  Forall (λ e, log_ok unmarshal e.2) entries →
  ∃ f, apply_all unmarshal entries (NewAdminStateMachine storage) = Some f ∧ fsm_ok f.
Proof. intros H. apply apply_all_ok; [apply NewAdminStateMachine_ok|done]. Qed.

(** A command that is rejected changes nothing but the applied index, term and
      time: the four maps and the database calls stay as they were, and an
      entry that does not decode leaves the machine untouched. *)
Theorem rejected_command_changes_nothing ck log f f' e :
  Apply unmarshal ck log f = Some (f', Some e) →
  as_Namespaces (fsm_state f') = as_Namespaces (fsm_state f) ∧
  as_Proxies (fsm_state f') = as_Proxies (fsm_state f) ∧
  as_Launchers (fsm_state f') = as_Launchers (fsm_state f) ∧
  as_Patterns (fsm_state f') = as_Patterns (fsm_state f) ∧
  fsm_storage f' = fsm_storage f ∧
  (e = ErrUnmarshal → f' = f).
Proof.
  unfold Apply. destruct (unmarshal _) as [cmd|]; [|intros [= -> <-]; by split_and!].
  destruct (dispatch _ _ _) as [?|e'|] eqn:Hd; intros; simplify_eq.
  split_and!; try done. intros ->. exfalso. unfold dispatch, with_payload in Hd.
  unfold applyCreateNamespace, applyRegisterProxy, applyRegisterLauncher, applyAssignPattern,
    applyUpdateProxyStatus, applyUpdateLauncherStatus, map_set in Hd.
  repeat case_match; done.
Qed.

(** C8. Commands are idempotent when they are replayed: after a log entry was applied
      with success, applying the same command again, any number of times in a row at
      whatever log positions and clock readings, succeeds each time and leaves the four
      maps as they are up to timestamps; the machine is then at the position of the last
      replay. Nothing is said of a replay after a different command. *)
Theorem commands_are_idempotent ck log f f1 replays :
  Apply unmarshal ck log f = Some (f1, None) →
  Forall (λ e, log_Data e.2 = log_Data log) replays →
  ∃ f2, apply_clean unmarshal replays f1 = Some f2 ∧ contents f2 = contents f1 ∧
        position f2 = default (position f1) (log_position ∘ snd <$> last replays).
Proof.
  intros (cmd & Hu & now & g & Hg)%Apply_success Hall. eapply replay_run; [exact Hg|].
  eapply Forall_impl; [exact Hall|]. by intros e ->.
Qed.

(** C5. Replicas agree: two replicas that start from states that differ in clock
      readings only and apply the same log entries with their own clocks end in
      states that differ in clock readings only; if one of them gets through the
      log, so does the other. *)
Theorem replicas_agree entries1 entries2 f1 f2 f1' :
  entries1.*2 = entries2.*2 → agree f1 f2 →
  apply_all unmarshal entries1 f1 = Some f1' →
  ∃ f2', apply_all unmarshal entries2 f2 = Some f2' ∧ agree f1' f2'.
Proof. apply apply_all_agree. Qed.

Context (clone : AdminState → AdminState).
Context {B : Type} (encode : AdminSnapshot → option B) (decode : B → option AdminSnapshot).
(** A clone is equal to the original as a protobuf message. *)
Hypothesis clone_equal : ∀ s, state_equiv (clone s) s.
(** What gob wrote it reads back. *)
Hypothesis decode_encode : ∀ s b, encode s = Some b → decode b = Some s.

(** C30. A snapshot that was persisted and is restored on any machine answers every
      query as the machine it was taken from, including the applied index and
      term. *)
Theorem snapshot_roundtrip now f g b :
  Persist encode (Snapshot clone now f) = Some b →
  ∃ g', Restore decode b g = Some g' ∧ state_equiv (fsm_state g') (fsm_state f) ∧
        same_answers g' f.
Proof using clone_equal decode_encode.
  intros Hb. unfold Restore. rewrite (decode_encode _ _ Hb). simpl. eexists.
  split; [done|]. simpl. split; [apply clone_equal|].
  apply state_equiv_answers; simpl; [apply clone_equal|done|done].
Qed.
End Properties.

(** ** Witnesses and examples *)

Module FsmDemo.
(** Commands as their own encoding. *)
Definition decoded : Command → option Command := Some.

Definition register (id : string) : Command :=
  mkCommand COMMAND_TYPE_REGISTER_LAUNCHER 0 "admin"
    (Some (Command_RegisterLauncher (mkRegisterLauncherCommand id "" "" "" [] [] 2 ∅))).
Definition assign (id launcher : string) : Command :=
  mkCommand COMMAND_TYPE_ASSIGN_PATTERN 0 "admin"
    (Some (Command_AssignPattern (mkAssignPatternCommand id "ns" "kv" launcher ∅))).
Definition heartbeat (id : string) : Command :=
  mkCommand COMMAND_TYPE_UPDATE_PROXY_STATUS 0 id
    (Some (Command_UpdateProxyStatus (mkUpdateProxyStatusCommand id "healthy" 5 None))).

Definition log_at (t : Z) (cmds : list Command) : list (clock * Log Command) :=
  imap (λ i c, (mkClock t t, mkLog (Z.of_nat i + 1) 1 c)) cmds.

Definition cmds : list Command := [register "l1"; register "l2"; assign "p1" "l1"].

Definition after_cmds (t : Z) : AdminStateMachine :=
  default (NewAdminStateMachine true)
    (apply_all decoded (log_at t cmds) (NewAdminStateMachine true)).

Lemma admin_replica_never_panics_witness :
  ∃ f, apply_all decoded (log_at 7 cmds) (NewAdminStateMachine true) = Some f ∧ fsm_ok f.
Proof.
  apply (admin_replica_never_panics decoded true).
  repeat constructor; intros ? [= <-]; reflexivity.
Defined.

Lemma rejected_command_changes_nothing_witness :
  as_Proxies (fsm_state (stamp 9 2 8 (after_cmds 7))) = as_Proxies (fsm_state (after_cmds 7)).
Proof.
  apply (rejected_command_changes_nothing decoded (mkClock 8 8)
           (mkLog 9 2 (heartbeat "unknown")) (after_cmds 7) _ (ErrProxyNotRegistered "unknown")).
  vm_compute. reflexivity.
Defined.

(** The assignment of the pattern is replayed twice. *)
Lemma commands_are_idempotent_witness :
  ∃ f2, apply_clean decoded [(mkClock 9 9, mkLog 4 1 (assign "p1" "l1"));
                             (mkClock 9 9, mkLog 5 2 (assign "p1" "l1"))] (after_cmds 7) = Some f2 ∧
        contents f2 = contents (after_cmds 7) ∧ position f2 = (5, 2).
Proof.
  apply (commands_are_idempotent decoded (mkClock 7 7) (mkLog 3 1 (assign "p1" "l1"))
           (default (NewAdminStateMachine true)
              (apply_all decoded (log_at 7 (take 2 cmds)) (NewAdminStateMachine true)))).
  - vm_compute. reflexivity.
  - repeat constructor.
Defined.

Lemma replicas_agree_witness :
  ∃ f2', apply_all decoded (log_at 9 cmds) (NewAdminStateMachine true) = Some f2' ∧
         agree (after_cmds 7) f2'.
Proof.
  apply (replicas_agree decoded (log_at 7 cmds) (log_at 9 cmds) (NewAdminStateMachine true)).
  - reflexivity.
  - reflexivity.
  - vm_compute. reflexivity.
Defined.

(** The states themselves differ: the clock of the replica ends up in them. *)
Example replicas_differ_in_timestamps :
  as_StateUpdatedAt (fsm_state (after_cmds 7)) ≠ as_StateUpdatedAt (fsm_state (after_cmds 9)).
Proof. vm_compute. done. Qed.

(** A clone that leaves empty maps unset. *)
Definition compact {V} (m : go_map V) : go_map V :=
  match m with Some m => if (size m =? 0)%nat then None else Some m | None => None end.
Definition clone_compact (s : AdminState) : AdminState :=
  mkAdminState (as_Version s)
    (compact (as_Namespaces s))
    (compact (as_Proxies s))
    (compact (as_Launchers s))
    (compact (as_Patterns s))
    (as_LastAppliedIndex s) (as_LastAppliedTerm s) (as_StateUpdatedAt s).

Lemma compact_equiv {V} (m : go_map V) : map_equiv (compact m) m.
Proof.
  destruct m as [m|]; [|done]. unfold map_equiv. simpl.
  destruct (size m =? 0)%nat eqn:E; [|done]. simpl.
  apply Nat.eqb_eq, map_size_empty_iff in E. by subst.
Qed.

Lemma clone_compact_equal s : state_equiv (clone_compact s) s.
Proof.
  split; try done; apply compact_equiv.
Qed.

Lemma snapshot_roundtrip_witness :
  ∃ g', Restore Some (Snapshot clone_compact 8 (after_cmds 7)) (NewAdminStateMachine true)
          = Some g' ∧
        state_equiv (fsm_state g') (fsm_state (after_cmds 7)) ∧ same_answers g' (after_cmds 7).
Proof.
  apply (snapshot_roundtrip clone_compact Some Some clone_compact_equal) with (now := 8).
  - by intros s b [= ->].
  - reflexivity.
Defined.

(** A replica restored from a snapshot without patterns panics on the first pattern
    assignment, when the clone leaves empty maps unset: the entry is assigned into
    a nil map. The replica the snapshot was taken from applies the command. *)
Definition no_patterns : AdminStateMachine :=
  default (NewAdminStateMachine true)
    (apply_all decoded (log_at 7 [register "l1"]) (NewAdminStateMachine true)).

(** Restoring a snapshot can make a replica panic on a well-formed command that
      its peers apply: with a clone that leaves empty maps unset, a state without
      patterns comes back with a nil pattern map. *)
Theorem restored_replica_panics :
  ∃ g, Restore Some (Snapshot clone_compact 8 no_patterns) (NewAdminStateMachine true) = Some g ∧
    same_answers g no_patterns ∧
    Apply decoded (mkClock 9 9) (mkLog 2 1 (assign "p1" "l1")) g = None ∧
    is_Some (Apply decoded (mkClock 9 9) (mkLog 2 1 (assign "p1" "l1")) no_patterns).
Proof.
  eexists. split; [reflexivity|]. split_and!.
  - apply state_equiv_answers; [apply clone_compact_equal|done|done].
  - vm_compute. reflexivity.
  - vm_compute. eauto.
Qed.

(** Moving a pattern to another launcher leaves both slot counts as they were. *)
Example reassignment_keeps_slots :
  (λ f, le_AvailableSlots <$> map_get "l1" (as_Launchers (fsm_state f))) <$>
    apply_all decoded (log_at 7 (cmds ++ [assign "p1" "l2"])) (NewAdminStateMachine false)
  = Some (Some 1) ∧
  (λ f, le_AvailableSlots <$> map_get "l2" (as_Launchers (fsm_state f))) <$>
    apply_all decoded (log_at 7 (cmds ++ [assign "p1" "l2"])) (NewAdminStateMachine false)
  = Some (Some 2).
Proof. vm_compute. done. Qed.
End FsmDemo.
