(* ===== verification/ControlPlane.v ===== *)
(** * cmd/prism-admin/control_plane_raft.go: the control plane on Raft

    The RPC handlers of the admin node, composed from the partition manager and the
    replicated state machine.  Parameters: the protobuf codec, what Raft does with a
    proposal ([Some (clock, index, term)]: committed and applied; [None]: an error),
    whether this node is the leader, and what the leader answers to a forwarded
    call.  [raft.Propose] does not look at the response of the state machine, and a
    heartbeat is proposed by a goroutine, whose data is part of the result. *)

From S2P Require Import Prelude Backoff AdminTypes Partition AdminFsm AdminFsmSpec.
Import GoFloat.
Local Open Scope Z_scope.

(** ** Messages *)

Record ProxyRegistration := mkProxyRegistration {
  preg_ProxyId : string;
  preg_Address : string;
  preg_Region : string;
  preg_Version : string;
  preg_Capabilities : list string;
  preg_Metadata : gmap string string }.

(** [NamespaceConfig] as far as the handlers look at it: its metadata. *)
Record NamespaceAssignment := mkNamespaceAssignment {
  na_Namespace : string;
  na_PartitionId : Z;
  na_Metadata : gmap string string;
  na_Version : Z }.

Record ProxyRegistrationAck := mkProxyRegistrationAck {
  pra_Success : bool;
  pra_Message : string;
  pra_InitialNamespaces : list NamespaceAssignment;
  pra_PartitionRanges : list PartitionRange }.

(** [cnr_Config]: the metadata of the config, if there is a config. *)
Record CreateNamespaceRequest := mkCreateNamespaceRequest {
  cnr_Namespace : string;
  cnr_RequestingProxy : string;
  cnr_Config : option (gmap string string);
  cnr_Principal : string }.

Record CreateNamespaceResponse := mkCreateNamespaceResponse {
  cnp_Success : bool;
  cnp_Message : string;
  cnp_AssignedPartition : Z;
  cnp_AssignedProxy : string }.

Record ResourceUsage := mkResourceUsage {
  ru_CpuPercent : float64;
  ru_MemoryMb : Z;
  ru_GoroutineCount : Z;
  ru_UptimeSeconds : Z }.

Record ProxyHeartbeat := mkProxyHeartbeat {
  phb_ProxyId : string;
  phb_Resources : option ResourceUsage;
  phb_Timestamp : Z }.

Record LauncherResourceUsage := mkLauncherResourceUsage {
  lru_ProcessCount : Z;
  lru_MaxProcesses : Z;
  lru_TotalMemoryMb : Z;
  lru_CpuPercent : float64;
  lru_AvailableSlots : Z }.

Record LauncherHeartbeatRequest := mkLauncherHeartbeatRequest {
  lhb_LauncherId : string;
  lhb_Resources : option LauncherResourceUsage;
  lhb_Timestamp : Z }.

Record HeartbeatAck := mkHeartbeatAck {
  ha_Success : bool;
  ha_Message : string;
  ha_ServerTimestamp : Z }.

Record LauncherRegistration := mkLauncherRegistration {
  lreg_LauncherId : string;
  lreg_Address : string;
  lreg_Region : string;
  lreg_Version : string;
  lreg_Capabilities : list string;
  lreg_MaxProcesses : Z;
  lreg_ProcessTypes : list string;
  lreg_Metadata : gmap string string }.

(** No process is assigned at registration. *)
Record LauncherRegistrationAck := mkLauncherRegistrationAck {
  lra_Success : bool;
  lra_Message : string;
  lra_AssignedCapacity : Z }.

Inductive rpc_error :=
  | ErrMarshal
  | ErrPropose
  | ErrNoProxyForPartition (p : Z) (e : partition_error)
  | ErrUnavailable
  | ErrForwarded.

(** ** Helpers *)

Definition computePartitionRanges (proxyID : string) (f : AdminStateMachine)
    : list PartitionRange :=
  ComputeRangesFromProxySet proxyID (GetAllProxies f).

Definition getProxyForPartition (partitionID : Z) (f : AdminStateMachine)
    : result partition_error string :=
  GetProxyForPartitionFromSet partitionID (GetAllProxies f).

Definition in_range (p : Z) (r : PartitionRange) : bool :=
  (pr_Start r <=? p) && (p <=? pr_End r).

Definition namespace_assignment (e : NamespaceEntry) : NamespaceAssignment :=
  mkNamespaceAssignment (ne_Name e) (ne_PartitionId e) (ne_Config e) 1.

(** The inner loop stops at the first range that contains the partition. *)
Definition getNamespacesForRanges (ranges : list PartitionRange) (f : AdminStateMachine)
    : list NamespaceAssignment :=
  namespace_assignment <$>
    List.filter (λ e, existsb (in_range (ne_PartitionId e)) ranges)
      (map_values (as_Namespaces (fsm_state f))).

(** The commands the handlers build. *)
Definition register_proxy_command (now : Z) (req : ProxyRegistration) : Command :=
  mkCommand COMMAND_TYPE_REGISTER_PROXY now "admin"
    (Some (Command_RegisterProxy
       (mkRegisterProxyCommand (preg_ProxyId req) (preg_Address req) (preg_Region req)
          (preg_Version req) (preg_Capabilities req) (preg_Metadata req)))).

Definition create_namespace_command (now partitionID : Z) (proxyID : string)
    (req : CreateNamespaceRequest) : Command :=
  let configMap := default ∅ (cnr_Config req) in
  mkCommand COMMAND_TYPE_CREATE_NAMESPACE now (cnr_Principal req)
    (Some (Command_CreateNamespace
       (mkCreateNamespaceCommand (cnr_Namespace req) partitionID proxyID configMap
          (cnr_Principal req)))).

Section ControlPlane.
Context {D : Type} (marshal : Command → option D) (unmarshal : D → option Command).

(** What happens to a proposal, and who leads. *)
Record raft_env := mkRaftEnv {
  re_leader : bool;
  re_leaderAddr : option string;
  re_commit : option (clock * Z * Z) }.

Context (env : raft_env).

(** [raft.Propose]: [Some f'] after the commit, [Err] when it fails, [Panic] when
    the state machine panics. *)
Definition Propose (data : D) (f : AdminStateMachine) : result rpc_error AdminStateMachine :=
  match re_commit env with
  | None => Err ErrPropose
  | Some (ck, index, term) =>
      match Apply unmarshal ck (mkLog index term data) f with
      | Some (f', _) => Ok f'
      | None => Panic
      end
  end.

(** A handler's answer with the state after it; [None] is a panic. *)
Definition answer (A : Type) : Type := option (AdminStateMachine * result rpc_error A).

(** Marshal, propose and continue in the new state. *)
Definition propose_then {A} (cmd : Command) (f : AdminStateMachine)
    (k : AdminStateMachine → A) : answer A :=
  match marshal cmd with
  | None => Some (f, Err ErrMarshal)
  | Some data =>
      match Propose data f with
      | Ok f' => Some (f', Ok (k f'))
      | Err e => Some (f, Err e)
      | Panic => None
      end
  end.

(** The [forward] methods: without a leader the call is unavailable, otherwise the
    leader's answer [reply] is returned. *)
Definition forward {A} (reply : result rpc_error A) (f : AdminStateMachine) : answer A :=
  match re_leaderAddr env with
  | None => Some (f, Err ErrUnavailable)
  | Some _ => Some (f, reply)
  end.

Definition RegisterProxy (now : Z) (reply : result rpc_error ProxyRegistrationAck)
    (req : ProxyRegistration) (f : AdminStateMachine) : answer ProxyRegistrationAck :=
  if negb (re_leader env) then forward reply f
  else
    propose_then (register_proxy_command now req) f (λ f,
      let ranges := computePartitionRanges (preg_ProxyId req) f in
      let namespaces := getNamespacesForRanges ranges f in
      mkProxyRegistrationAck true "Proxy registered successfully" namespaces ranges).

Definition CreateNamespace (now : Z) (reply : result rpc_error CreateNamespaceResponse)
    (req : CreateNamespaceRequest) (f : AdminStateMachine) : answer CreateNamespaceResponse :=
  if negb (re_leader env) then forward reply f
  else
    let partitionID := HashNamespace (cnr_Namespace req) in
    match getProxyForPartition partitionID f with
    | Panic => None
    | Err e => Some (f, Err (ErrNoProxyForPartition partitionID e))
    | Ok proxyID =>
        propose_then (create_namespace_command now partitionID proxyID req) f (λ _,
          mkCreateNamespaceResponse true "Namespace created successfully" partitionID proxyID)
    end.

(** The answer of a heartbeat and what its goroutine proposes or forwards. *)
Definition Heartbeat (now : Z) (req : ProxyHeartbeat) : HeartbeatAck * option D :=
  if negb (re_leader env) then
    (mkHeartbeatAck true "Heartbeat forwarded to leader" now, None)
  else
    let proxyResources :=
      (λ r, mkProxyResources (wrap64 (wrap64 (ru_MemoryMb r * 1024) * 1024))
              (ru_CpuPercent r) 0 0) <$> phb_Resources req in
    let cmd := mkCommand COMMAND_TYPE_UPDATE_PROXY_STATUS (phb_Timestamp req) (phb_ProxyId req)
      (Some (Command_UpdateProxyStatus
         (mkUpdateProxyStatusCommand (phb_ProxyId req) "healthy" (phb_Timestamp req)
            proxyResources))) in
    match marshal cmd with
    | None => (mkHeartbeatAck true "Heartbeat received (serialization error)" now, None)
    | Some data => (mkHeartbeatAck true "Heartbeat received" now, Some data)
    end.

Definition RegisterLauncher (now : Z) (reply : result rpc_error LauncherRegistrationAck)
    (req : LauncherRegistration) (f : AdminStateMachine) : answer LauncherRegistrationAck :=
  if negb (re_leader env) then forward reply f
  else
    let cmd := mkCommand COMMAND_TYPE_REGISTER_LAUNCHER now "admin"
      (Some (Command_RegisterLauncher
         (mkRegisterLauncherCommand (lreg_LauncherId req) (lreg_Address req)
            (lreg_Region req) (lreg_Version req) (lreg_Capabilities req)
            (lreg_ProcessTypes req) (lreg_MaxProcesses req) (lreg_Metadata req)))) in
    propose_then cmd f (λ _,
      mkLauncherRegistrationAck true "Launcher registered successfully" 0).

(** [req.Resources.AvailableSlots] is read whether or not [Resources] is nil. *)
Definition LauncherHeartbeat (now : Z) (req : LauncherHeartbeatRequest)
    : option (HeartbeatAck * option D) :=
  if negb (re_leader env) then
    Some (mkHeartbeatAck true "Heartbeat forwarded to leader" now, None)
  else
    let launcherResources :=
      (λ r, mkLauncherResources (wrap64 (wrap64 (lru_TotalMemoryMb r * 1024) * 1024))
              (lru_CpuPercent r) (lru_ProcessCount r) (lru_AvailableSlots r))
        <$> lhb_Resources req in
    match lhb_Resources req with
    | None => None
    | Some r =>
        let cmd := mkCommand COMMAND_TYPE_UPDATE_LAUNCHER_STATUS (lhb_Timestamp req)
          (lhb_LauncherId req)
          (Some (Command_UpdateLauncherStatus
             (mkUpdateLauncherStatusCommand (lhb_LauncherId req) "healthy"
                (lhb_Timestamp req) (lru_AvailableSlots r) launcherResources))) in
        match marshal cmd with
        | None => Some (mkHeartbeatAck true "Heartbeat received" now, None)
        | Some data => Some (mkHeartbeatAck true "Heartbeat received" now, Some data)
        end
    end.

(** ** Properties *)

(** What protobuf wrote it reads back. *)
Hypothesis unmarshal_marshal : ∀ cmd data, marshal cmd = Some data → unmarshal data = Some cmd.

(** Every stored namespace carries a valid partition. *)
Definition partitions_ok (f : AdminStateMachine) : Prop :=
  ∀ name e, GetNamespace name f = Some e → 0 ≤ ne_PartitionId e ≤ 255.

(** A committed command is dispatched in the stamped state. *)
Lemma propose_then_eq {A} cmd data ck i t f f' (k : AdminStateMachine → A) :
  marshal cmd = Some data → re_commit env = Some (ck, i, t) →
  dispatch (ck_handler ck) cmd (stamp i t (ck_updated ck) f) = Ok f' →
  propose_then cmd f k = Some (f', Ok (k f')).
Proof using unmarshal_marshal.
  intros Hm Hc Hd. unfold propose_then, Propose, Apply. rewrite Hm, Hc. simpl.
  by rewrite (unmarshal_marshal _ _ Hm), Hd.
Qed.

Lemma register_proxy_dispatch now handler req f :
  fsm_ok f →
  ∃ f' e, dispatch handler (register_proxy_command now req) f = Ok f' ∧ fsm_ok f' ∧
    GetProxy (preg_ProxyId req) f' = Some e ∧ pe_Status e = "healthy"%string ∧
    pe_Address e = preg_Address req ∧
    as_Namespaces (fsm_state f') = as_Namespaces (fsm_state f).
Proof.
  intros Hok. pose proof (dispatch_ok handler (register_proxy_command now req) f Hok eq_refl)
    as Hd. destruct (ok_proxies _ Hok) as (m & Hm & _).
  unfold dispatch, applyRegisterProxy, GetProxy in *. simpl in *. rewrite Hm in *. simpl in *.
  set (e := match m !! _ with Some _ => _ | None => _ end) in *.
  eexists _, e. split; [done|]. split; [done|]. simpl. rewrite lookup_insert_eq.
  split_and!; try done; unfold e; by case_match.
Qed.

Lemma existsb_in_range p ranges :
  existsb (in_range p) ranges = true ↔ ∃ r, r ∈ ranges ∧ pr_Start r ≤ p ≤ pr_End r.
Proof.
  rewrite existsb_exists. unfold in_range. setoid_rewrite <- list_elem_of_In.
  split; intros (r & Hr & Hp); exists r; (split; [done|]).
  - bool_to_prop. lia.
  - apply andb_true_iff. split; apply Z.leb_le; lia.
Qed.

(** The owner of a partition in a state with one to 256 proxies. *)
Lemma owned f id p :
  fsm_ok f → (0 < length (GetAllProxies f) ≤ 256)%nat → 0 ≤ p ≤ 255 →
  existsb (in_range p) (computePartitionRanges id f) = true ↔
  getProxyForPartition p f = Ok id.
Proof.
  intros Hok Hlen Hp. rewrite existsb_in_range. apply owner_unique; [done| |done].
  by apply GetAllProxies_NoDup.
Qed.

Lemma GetAllProxies_pos id e f : GetProxy id f = Some e → (0 < length (GetAllProxies f))%nat.
Proof.
  unfold GetProxy, GetAllProxies. destruct (as_Proxies (fsm_state f)) as [m|]; [|done]. simpl.
  intros Hl%elem_of_map_to_list. rewrite length_fmap.
  destruct (map_to_list m); [by apply not_elem_of_nil in Hl|]. simpl. lia.
Qed.

Lemma getNamespacesForRanges_elem ranges f a :
  keyed ne_Name (as_Namespaces (fsm_state f)) →
  a ∈ getNamespacesForRanges ranges f ↔
  ∃ e, GetNamespace (na_Namespace a) f = Some e ∧ a = namespace_assignment e ∧
       existsb (in_range (ne_PartitionId e)) ranges = true.
Proof.
  intros (m & Hm & Hkey). unfold getNamespacesForRanges, GetNamespace. rewrite Hm. simpl.
  rewrite list_elem_of_fmap. setoid_rewrite list_elem_of_In. setoid_rewrite filter_In.
  setoid_rewrite <- list_elem_of_In. setoid_rewrite list_elem_of_fmap. split.
  - intros (e & -> & ([k e'] & -> & Hk%elem_of_map_to_list) & Hin). simpl in *.
    exists e'. rewrite (Hkey _ _ Hk). done.
  - intros (e & Hl & -> & Hin). exists e. split_and!; try done.
    exists (ne_Name e, e). split; [done|]. by apply elem_of_map_to_list.
Qed.

(** Registering a proxy on the leader: when the command is committed, the call
      succeeds without a panic, the proxy is registered and healthy, and the
      answer is consistent with every other query of the new state: as long as
      there are at most 256 proxies, its partition ranges hold exactly the
      partitions whose owner it is, and its initial namespaces are exactly the
      stored namespaces in those partitions. *)
Theorem RegisterProxy_correct now reply req f data ck i t :
  fsm_ok f → partitions_ok f → re_leader env = true → re_commit env = Some (ck, i, t) →
  marshal (register_proxy_command now req) = Some data →
  ∃ f' ack e, RegisterProxy now reply req f = Some (f', Ok ack) ∧ fsm_ok f' ∧
    GetProxy (preg_ProxyId req) f' = Some e ∧ pe_Status e = "healthy"%string ∧
    pe_Address e = preg_Address req ∧
    ((length (GetAllProxies f') ≤ 256)%nat →
     (∀ p, 0 ≤ p ≤ 255 →
        existsb (in_range p) (pra_PartitionRanges ack) = true ↔
        getProxyForPartition p f' = Ok (preg_ProxyId req)) ∧
     (∀ a, a ∈ pra_InitialNamespaces ack ↔
        ∃ ns, GetNamespace (na_Namespace a) f' = Some ns ∧ a = namespace_assignment ns ∧
              getProxyForPartition (ne_PartitionId ns) f' = Ok (preg_ProxyId req))).
Proof using unmarshal_marshal.
  intros Hok Hparts Hlead Hc Hm.
  destruct (register_proxy_dispatch now (ck_handler ck) req (stamp i t (ck_updated ck) f)
              (stamp_ok _ _ _ _ Hok)) as (f' & e & Hd & Hok' & Hget & Hst & Had & Hns).
  eexists f', _, e. split.
  { unfold RegisterProxy. rewrite Hlead. simpl. by eapply propose_then_eq. }
  split_and!; try done. intros Hle. simpl.
  assert (0 < length (GetAllProxies f') ≤ 256)%nat as Hlen
    by (split; [by eapply GetAllProxies_pos|done]).
  split; [by intros p Hp; apply owned|]. intros a.
  rewrite getNamespacesForRanges_elem by apply Hok'.
  assert (∀ ns, GetNamespace (na_Namespace a) f' = Some ns → 0 ≤ ne_PartitionId ns ≤ 255) as Hp.
  { intros ns. unfold GetNamespace. rewrite Hns. apply Hparts. }
  split; intros (ns & Hl & -> & Hown); exists ns; (split_and!; [done|done|]);
    by apply (owned f' (preg_ProxyId req)) in Hown; [..|apply Hp].
Qed.

Lemma create_namespace_dispatch now handler p proxyID req f :
  fsm_ok f →
  ∃ f' e, dispatch handler (create_namespace_command now p proxyID req) f = Ok f' ∧
    fsm_ok f' ∧ as_Proxies (fsm_state f') = as_Proxies (fsm_state f) ∧
    as_Launchers (fsm_state f') = as_Launchers (fsm_state f) ∧
    as_Patterns (fsm_state f') = as_Patterns (fsm_state f) ∧
    GetNamespace (cnr_Namespace req) f' = Some e ∧ ne_AssignedProxy e = proxyID ∧
    ne_Config e = default ∅ (cnr_Config req) ∧
    ne_PartitionId e =
      match GetNamespace (cnr_Namespace req) f with Some e0 => ne_PartitionId e0 | None => p end ∧
    (∀ name, name ≠ cnr_Namespace req → GetNamespace name f' = GetNamespace name f).
Proof.
  intros Hok. pose proof (dispatch_ok handler (create_namespace_command now p proxyID req) f
    Hok eq_refl) as Hd. destruct (ok_namespaces _ Hok) as (m & Hm & _).
  unfold dispatch, applyCreateNamespace, GetNamespace in *. simpl in *. rewrite Hm in *.
  simpl in *. destruct (m !! cnr_Namespace req) as [e|] eqn:Hl; simpl in *;
    (eexists _, _; split; [done|]; split; [done|]; simpl; rewrite lookup_insert_eq;
     split_and!; try done; intros name Hne; by rewrite lookup_insert_ne).
Qed.

End ControlPlane.

(** ** Witnesses *)

Module ControlPlaneDemo.
Definition env1 : raft_env := mkRaftEnv true None (Some (mkClock 5 5, 1, 1)).
Definition req1 : ProxyRegistration := mkProxyRegistration "proxy-01" "a:1" "r" "v" [] ∅.
Definition nsreq : CreateNamespaceRequest :=
  mkCreateNamespaceRequest "orders" "proxy-01" None "alice".

Definition with_proxy : AdminStateMachine :=
  match RegisterProxy Some Some env1 4 (Err ErrForwarded) req1 (NewAdminStateMachine false) with
  | Some (f, _) => f
  | None => NewAdminStateMachine false
  end.

Lemma partitions_ok_new b : partitions_ok (NewAdminStateMachine b).
Proof. intros name e Hl. unfold GetNamespace in Hl. simpl in Hl. by rewrite lookup_empty in Hl. Qed.

Lemma RegisterProxy_correct_witness :
  ∃ f' ack e, RegisterProxy Some Some env1 4 (Err ErrForwarded) req1 (NewAdminStateMachine false)
      = Some (f', Ok ack) ∧ fsm_ok f' ∧
    GetProxy "proxy-01" f' = Some e ∧ pe_Status e = "healthy"%string ∧ pe_Address e = "a:1"%string ∧
    ((length (GetAllProxies f') ≤ 256)%nat →
     (∀ p, 0 ≤ p ≤ 255 →
        existsb (in_range p) (pra_PartitionRanges ack) = true ↔
        getProxyForPartition p f' = Ok "proxy-01"%string) ∧
     (∀ a, a ∈ pra_InitialNamespaces ack ↔
        ∃ ns, GetNamespace (na_Namespace a) f' = Some ns ∧ a = namespace_assignment ns ∧
              getProxyForPartition (ne_PartitionId ns) f' = Ok "proxy-01"%string)).
Proof.
  refine (RegisterProxy_correct Some Some env1 _ 4 (Err ErrForwarded) req1
           (NewAdminStateMachine false) (register_proxy_command 4 req1) (mkClock 5 5) 1 1
           _ _ _ _ _); try reflexivity.
  - by intros cmd data [= ->].
  - apply NewAdminStateMachine_ok.
  - apply partitions_ok_new.
Defined.

Lemma with_proxy_ok : fsm_ok with_proxy.
Proof.
  destruct (register_proxy_dispatch 4 5 req1 (stamp 1 1 5 (NewAdminStateMachine false)))
    as (f' & e & Hd & Hok & _); [apply stamp_ok, NewAdminStateMachine_ok|].
  by injection Hd as <-.
Qed.


(** A launcher heartbeat without resources is a nil dereference on the leader. *)
Example launcher_heartbeat_without_resources :
  LauncherHeartbeat (D := Command) Some env1 4 (mkLauncherHeartbeatRequest "l1" None 3) = None.
Proof. reflexivity. Qed.

(** A heartbeat that the state machine rejects is committed all the same, and the
    proposer sees no error. *)
Example rejected_heartbeat_is_no_error :
  let cmd := mkCommand COMMAND_TYPE_UPDATE_PROXY_STATUS 3 "ghost"
    (Some (Command_UpdateProxyStatus (mkUpdateProxyStatusCommand "ghost" "healthy" 3 None))) in
  is_ok (Propose Some env1 cmd (NewAdminStateMachine false)) = true.
Proof. vm_compute. reflexivity. Qed.
End ControlPlaneDemo.
