(* ===== verification/GoStrings.v ===== *)
(** * Strings, numbers and addresses of the Go standard library

    The functions of strings, strconv, fmt and net that the configuration code uses,
    with the lemmas about them: splitting, trimming, decimal numbers, host and port. *)

From Stdlib Require Import Ascii Decimal DecimalString DecimalPos DecimalN.
From S2P Require Import Prelude.
Local Open Scope Z_scope.

Definition char : Type := ascii.

(** The characters of a string satisfy [P]. *)
Fixpoint all_chars (P : char → bool) (s : string) : bool :=
  match s with EmptyString => true | String a s => P a && all_chars P s end.

Lemma all_chars_app P s t : all_chars P (s +:+ t) = all_chars P s && all_chars P t.
Proof. induction s as [|a s IH]; [done|]. simpl. by rewrite IH, andb_assoc. Qed.

Lemma all_chars_impl (P Q : char → bool) s :
  (∀ a, P a = true → Q a = true) → all_chars P s = true → all_chars Q s = true.
Proof. intros H. induction s as [|a s IH]; [done|]. simpl. rewrite !andb_true_iff. intros [??]; auto. Qed.

Definition is_char (c a : char) : bool := bool_decide (a = c).
Definition not_char (c a : char) : bool := negb (is_char c a).

(** ** strings *)

Module strings.
(** [Contains(s, sep)] of one character. *)
Definition Contains (c : char) (s : string) : bool := negb (all_chars (not_char c) s).

(** [Split(s, sep)]. *)
Fixpoint Split (c : char) (s : string) : list string :=
  match s with
  | EmptyString => [""%string]
  | String a s =>
      if is_char c a then ""%string :: Split c s
      else match Split c s with p :: ps => String a p :: ps | [] => [String a ""] end
  end.

(** [SplitN(s, sep, 2)] of a string that has the separator: before and after the first. *)
Fixpoint Cut (c : char) (s : string) : option (string * string) :=
  match s with
  | EmptyString => None
  | String a s =>
      if is_char c a then Some (""%string, s)
      else match Cut c s with Some (x, y) => Some (String a x, y) | None => None end
  end.

Definition HasPrefix (p s : string) : bool := String.prefix p s.
Definition TrimPrefix (p s : string) : string :=
  if HasPrefix p s then String.substring (String.length p) (String.length s - String.length p) s else s.

(** White space of ASCII. *)
Definition is_space (a : char) : bool :=
  bool_decide (a ∈ [" "; "009"; "010"; "011"; "012"; "013"]%char).

Fixpoint TrimLeft (s : string) : string :=
  match s with String a s' => if is_space a then TrimLeft s' else s | EmptyString => "" end.
Fixpoint TrimRight (s : string) : string :=
  match s with
  | EmptyString => ""
  | String a s =>
      match TrimRight s with
      | EmptyString => if is_space a then "" else String a ""
      | t => String a t
      end
  end.
Definition TrimSpace (s : string) : string := TrimRight (TrimLeft s).

Lemma Split_none c s : all_chars (not_char c) s = true → Split c s = [s].
Proof.
  induction s as [|a s IH]; [done|]. simpl. unfold not_char at 1. rewrite andb_true_iff, negb_true_iff.
  intros [-> Hs]. by rewrite IH.
Qed.

Lemma Split_app c s t :
  all_chars (not_char c) s = true → Split c (s +:+ String c t) = s :: Split c t.
Proof.
  induction s as [|a s IH]; simpl.
  - intros _. by unfold is_char; rewrite bool_decide_eq_true_2.
  - unfold not_char at 1. rewrite andb_true_iff, negb_true_iff. intros [-> Hs]. by rewrite IH.
Qed.

Lemma Cut_app c s t : all_chars (not_char c) s = true → Cut c (s +:+ String c t) = Some (s, t).
Proof.
  induction s as [|a s IH]; simpl.
  - intros _. by unfold is_char; rewrite bool_decide_eq_true_2.
  - unfold not_char at 1. rewrite andb_true_iff, negb_true_iff. intros [-> Hs]. by rewrite IH.
Qed.

Lemma Contains_app c s t : Contains c (s +:+ String c t) = true.
Proof.
  unfold Contains. rewrite all_chars_app. simpl. unfold not_char at 2, is_char.
  by rewrite bool_decide_eq_true_2, andb_false_r.
Qed.

(** A string without white space at its ends stays as it is. *)
Lemma TrimLeft_id a s : is_space a = false → TrimLeft (String a s) = String a s.
Proof. simpl. by intros ->. Qed.

Lemma TrimRight_id s : all_chars (λ a, negb (is_space a)) s = true → TrimRight s = s.
Proof.
  induction s as [|a s IH]; [done|]. simpl. rewrite andb_true_iff, negb_true_iff. intros [Ha Hs].
  rewrite IH by done. destruct s; by rewrite ?Ha.
Qed.

Lemma TrimSpace_id s : all_chars (λ a, negb (is_space a)) s = true → TrimSpace s = s.
Proof.
  intros H. unfold TrimSpace. destruct s as [|a s]; [done|]. rewrite TrimLeft_id; [by apply TrimRight_id|].
  simpl in H. by apply andb_true_iff in H as [?%negb_true_iff _].
Qed.

Lemma TrimPrefix_id p s : HasPrefix p s = false → TrimPrefix p s = s.
Proof. unfold TrimPrefix. by intros ->. Qed.
End strings.

(** ** Decimal numbers *)

Definition is_digit (a : char) : bool :=
  let n := N_of_ascii a in (48 <=? n)%N && (n <=? 57)%N.

(** [%d] of a number that is not negative. *)
Definition print_uint (n : Z) : string := NilZero.string_of_uint (N.to_uint (Z.to_N n)).

(** [strconv.ParseUint(s, 10, 64)]; [None] is an error. *)
Definition ParseUint (s : string) : option Z :=
  match NilZero.uint_of_string s with
  | Some d => let n := Z.of_N (N.of_uint d) in if n <? 2 ^ 64 then Some n else None
  | None => None
  end.

Lemma ParseUint_print n : 0 ≤ n < 2 ^ 64 → ParseUint (print_uint n) = Some n.
Proof.
  intros Hn. unfold ParseUint, print_uint. rewrite NilZero.usu.
  - rewrite DecimalN.Unsigned.of_to, Z2N.id by lia. destruct (n <? 2 ^ 64) eqn:E; [done|].
    apply Z.ltb_ge in E. lia.
  - destruct (Z.to_N n); [done|apply DecimalPos.Unsigned.to_uint_nonnil].
Qed.

(** The number consists of digits. *)
Lemma uint_string_digits d : all_chars is_digit (NilEmpty.string_of_uint d) = true.
Proof. induction d; simpl; auto. Qed.

Lemma print_uint_digits n : all_chars is_digit (print_uint n) = true.
Proof. unfold print_uint, NilZero.string_of_uint. case_match; [done|apply (uint_string_digits (_ _))..]. Qed.

(** ** fmt.Sscanf(s, "%d", &n) into an unsigned number *)

Fixpoint span_digits (s : string) : string :=
  match s with
  | String a s => if is_digit a then String a (span_digits s) else ""
  | EmptyString => ""
  end.

(** What [n] is afterwards, zero when nothing could be read. *)
Definition Sscanf_uint (s : string) : Z := default 0 (ParseUint (span_digits (strings.TrimLeft s))).

Lemma digit_not_space a : is_digit a = true → strings.is_space a = false.
Proof.
  intros H. unfold strings.is_space. apply bool_decide_eq_false. intros Hin.
  rewrite !elem_of_cons, elem_of_nil in Hin. naive_solver.
Qed.

Lemma span_digits_app s a t : all_chars is_digit s = true → is_digit a = false → span_digits (s +:+ String a t) = s.
Proof.
  intros Hs Ha. induction s as [|x s IH]; simpl in *; [by rewrite Ha|].
  apply andb_true_iff in Hs as [-> Hs]. by rewrite IH.
Qed.

(** A number is read back when something else than a digit follows it. *)
Lemma Sscanf_uint_print n a t : 0 ≤ n < 2 ^ 64 → is_digit a = false → Sscanf_uint (print_uint n +:+ String a t) = n.
Proof.
  intros Hn Ha. unfold Sscanf_uint. pose proof (print_uint_digits n) as Hd.
  assert (strings.TrimLeft (print_uint n +:+ String a t) = print_uint n +:+ String a t) as ->.
  { pose proof (ParseUint_print n Hn) as Hp. destruct (print_uint n) as [|x s] eqn:E; [done|]. simpl in *.
    apply andb_true_iff in Hd as [Hx _]. by apply strings.TrimLeft_id, digit_not_space. }
  by rewrite span_digits_app, ParseUint_print.
Qed.

(** ** net *)

Module net.
(** Before and after the last separator. *)
Fixpoint CutLast (c : char) (s : string) : option (string * string) :=
  match s with
  | EmptyString => None
  | String a s =>
      match CutLast c s with
      | Some (x, y) => Some (String a x, y)
      | None => if is_char c a then Some (""%string, s) else None
      end
  end.

Definition colon : char := ":"%char.
Definition open_bracket : char := "["%char.
Definition close_bracket : char := "]"%char.

(** A host in brackets ends where the port begins; without them it has no colon. *)
Definition SplitHostPort (hostport : string) : option (string * string) :=
  match CutLast colon hostport with
  | None => None
  | Some (before, port) =>
      match hostport with
      | String a tail =>
          if is_char open_bracket a then
            match strings.Cut close_bracket tail with
            | None => None
            | Some (host, rest) =>
                if bool_decide (rest ≠ String colon port) || strings.Contains open_bracket tail
                   || strings.Contains close_bracket rest
                then None else Some (host, port)
            end
          else if strings.Contains colon before || strings.Contains open_bracket hostport
                  || strings.Contains close_bracket hostport
          then None else Some (before, port)
      | EmptyString => None
      end
  end.

Lemma CutLast_app c s t : all_chars (not_char c) t = true → CutLast c (s +:+ String c t) = Some (s, t).
Proof.
  intros Ht. assert (CutLast c t = None) as Hn.
  { induction t as [|a t IH]; [done|]. simpl in *. unfold not_char in Ht at 1.
    apply andb_true_iff in Ht as [Ha%negb_true_iff Ht]. by rewrite IH, Ha. }
  induction s as [|a s IH]; simpl; [|by rewrite IH]. rewrite Hn. unfold is_char. by rewrite bool_decide_eq_true_2.
Qed.

(** A plain host and port. *)
Definition plain_host (s : string) : bool :=
  all_chars (λ a, not_char colon a && not_char open_bracket a && not_char close_bracket a) s.

Lemma SplitHostPort_plain host port :
  host ≠ ""%string → plain_host host = true → plain_host port = true →
  SplitHostPort (host +:+ String colon port) = Some (host, port).
Proof.
  intros Hne Hh Hp.
  assert (∀ s c, c ∈ [colon; open_bracket; close_bracket] → plain_host s = true → all_chars (not_char c) s = true) as Hc.
  { intros s c Hin. apply all_chars_impl. intros a. rewrite !andb_true_iff. intros [[??]?]. set_solver. }
  unfold SplitHostPort. rewrite CutLast_app by (apply Hc; [set_solver|done]).
  destruct host as [|a host]; [done|]. simpl. simpl in Hh. pose proof Hh as Ha.
  apply andb_true_iff in Ha as [Ha _]. rewrite !andb_true_iff in Ha. destruct Ha as [[_ Ho%negb_true_iff] _]. rewrite Ho.
  assert (∀ c, c ∈ [open_bracket; close_bracket] →
    strings.Contains c (String a (host +:+ String colon port)) = false) as Hb.
  { intros c Hin. unfold strings.Contains. change (String a (host +:+ String colon port)) with
      (String a host +:+ String colon port). rewrite all_chars_app, (Hc (String a host)) by (set_solver || done).
    simpl. rewrite (Hc port) by (set_solver || done). apply elem_of_cons in Hin as [->|Hin%list_elem_of_singleton];
      [done|by subst]. }
  unfold strings.Contains at 1. rewrite (Hc (String a host)) by (set_solver || done). rewrite !Hb by set_solver. done.
Qed.
End net.
