(* ===== verification/AdminConfig.v ===== *)
(** * cmd/prism-admin: the configuration of a node

    config.go.  What viper read from flags and files is the record [settings]; the
    environment is a function.  Go visits the peers in the order of a map, which is an
    argument. *)

From Stdlib Require Import Ascii.
From stdpp Require Import pretty.
From S2P Require Import Prelude GoStrings.
Local Open Scope Z_scope.

Abbreviation peer_map := (gmap Z string).

Record ClusterConfig := mkClusterConfig {
  cc_NodeID : Z;
  cc_BindAddr : string;
  cc_AdvertiseAddr : string;
  cc_Peers : peer_map;
  cc_HeartbeatTick : Z;
  cc_ElectionTick : Z;
  cc_SnapshotInterval : Z;
  cc_SnapshotThreshold : Z;
  cc_TrailingLogs : Z;
  cc_EnableFollowerReads : bool;
  cc_MaxStaleness : string;
  cc_LeaseDuration : string;
  cc_DataDir : string;
  cc_LogRetention : string }.

Record ControlPlaneConfig := mkControlPlaneConfig {
  cp_Listen : string;
  cp_ReadConsistency : gmap string string }.

Record AdminAPIConfig := mkAdminAPIConfig {
  aa_Listen : string;
  aa_DefaultReadConsistency : string }.

(** The keys of viper; a listen setting is read as a number and as a string.  The peers
    can be a list of strings or one string. *)
Record settings := mkSettings {
  st_node_id : Z;
  st_heartbeat_tick : Z;
  st_election_tick : Z;
  st_snapshot_interval : Z;
  st_snapshot_size_mb : Z;
  st_trailing_logs : Z;
  st_follower_reads : bool;
  st_max_staleness : string;
  st_lease_duration : string;
  st_data_dir : string;
  st_log_retention : string;
  st_raft_port : Z;
  st_bind_addr : string;
  st_advertise_addr : string;
  st_peers : option (list string * string);
  st_read_consistency : gmap string string;
  st_control_listen : Z * string;
  st_api_listen : Z * string;
  st_api_consistency : string }.

(** ** Peers *)

Definition comma : char := ","%char.
Definition equals_sign : char := "="%char.

Definition strip_http (addr : string) : string :=
  strings.TrimPrefix "https://" (strings.TrimPrefix "http://" addr).

(** One part: [id=addr], or an address that gets the number of the part. *)
Definition parse_peer (i : nat) (part : string) : option (Z * string) :=
  let part := strings.TrimSpace part in
  match strings.Cut equals_sign part with
  | Some (k, v) => match ParseUint k with Some id => Some (id, strip_http v) | None => None end
  | None => Some (Z.of_nat i + 1, strip_http part)
  end.

(** The loop; a later part with the same id replaces the earlier one. *)
Fixpoint parse_parts (i : nat) (parts : list string) (peers : peer_map) : peer_map :=
  match parts with
  | [] => peers
  | part :: parts =>
      parse_parts (S i) parts
        (match parse_peer i part with Some (id, addr) => <[id := addr]> peers | None => peers end)
  end.

Definition parsePeersFromEnv (peersStr : string) : peer_map :=
  parse_parts 0 (strings.Split comma peersStr) ∅.

(** ** Loading *)

Definition nonzero (v d : Z) : Z := if v =? 0 then d else v.
Definition nonempty (v d : string) : string := if bool_decide (v = ""%string) then d else v.

(** A list of peers: only its first element is looked at. *)
Definition peers_string (s : settings) : string :=
  match st_peers s with
  | None => ""
  | Some (first :: _, _) => first
  | Some ([], str) => str
  end.

Definition addr_port (host : string) (port : Z) : string := host +:+ ":" +:+ pretty port.

(** The address of a peer is one of the three that mean this node. *)
Definition is_local (raftAddr : string) (raftPort : Z) (peer : Z * string) : bool :=
  bool_decide (peer.2 = addr_port raftAddr raftPort)
  || bool_decide (peer.2 = addr_port "localhost" raftPort)
  || bool_decide (peer.2 = addr_port "127.0.0.1" raftPort).

(** [order], [order']: the peers in the order of the first and the second loop. *)
Definition auto_node_id (raftAddr : string) (raftPort : Z) (order order' : list (Z * string)) : Z :=
  match order' with
  | [] => 1
  | first :: _ =>
      let id := match List.find (is_local raftAddr raftPort) order with Some (id, _) => id | None => 0 end in
      if id =? 0 then first.1 else id
  end.

Definition advertise_addr (s : settings) (nodeID : Z) (peers : peer_map) (raftPort : Z) : string :=
  if bool_decide (st_advertise_addr s = ""%string) && (0 <? nodeID) then
    match peers !! nodeID with
    | Some addr => if bool_decide (addr = ""%string) then addr_port "localhost" raftPort else addr
    | None => addr_port "localhost" raftPort
    end
  else st_advertise_addr s.

(** Binding to all interfaces uses the host that is advertised. *)
Definition bind_addr (raftAddr : string) (raftPort : Z) (advertise : string) : string :=
  if bool_decide (raftAddr = "0.0.0.0"%string) && negb (bool_decide (advertise = ""%string)) then
    match net.SplitHostPort advertise with
    | Some (host, _) => addr_port host raftPort
    | None => addr_port raftAddr raftPort
    end
  else addr_port raftAddr raftPort.

Definition listen_addr (listen : Z * string) (dflt : Z) : string :=
  let port := nonzero listen.1 dflt in
  if port <? 65536 then addr_port "0.0.0.0" port
  else nonempty listen.2 (addr_port "0.0.0.0" dflt).

Definition default_consistency : gmap string string :=
  list_to_map
    [("proxy_heartbeat", "stale"); ("proxy_registration", "linearizable"); ("namespace_get", "stale");
     ("namespace_list", "stale"); ("namespace_create", "linearizable"); ("pattern_assignment", "linearizable");
     ("launcher_heartbeat", "stale"); ("launcher_registration", "linearizable")]%string.

Inductive config_error :=
  | ErrNodeID
  | ErrBindAddr
  | ErrNoAdvertise
  | ErrAdvertisePort
  | ErrNotInPeers (id : Z)
  | ErrEvenPeers (n : nat).

(** Without peers the node is the only one, under the address it advertises. *)
Definition validateClusterConfig (c : ClusterConfig) : result config_error ClusterConfig :=
  if cc_NodeID c =? 0 then Err ErrNodeID
  else if bool_decide (cc_BindAddr c = ""%string) then Err ErrBindAddr
  else if bool_decide (size (cc_Peers c) = 0%nat) then
    let addr := nonempty (cc_AdvertiseAddr c) (cc_BindAddr c) in
    Ok (mkClusterConfig (cc_NodeID c) (cc_BindAddr c) addr {[ cc_NodeID c := addr ]} (cc_HeartbeatTick c)
          (cc_ElectionTick c) (cc_SnapshotInterval c) (cc_SnapshotThreshold c) (cc_TrailingLogs c)
          (cc_EnableFollowerReads c) (cc_MaxStaleness c) (cc_LeaseDuration c) (cc_DataDir c) (cc_LogRetention c))
  else if bool_decide (cc_AdvertiseAddr c = ""%string) then Err ErrNoAdvertise
  else if negb (strings.Contains net.colon (cc_AdvertiseAddr c)) then Err ErrAdvertisePort
  else match cc_Peers c !! cc_NodeID c with
       | None => Err (ErrNotInPeers (cc_NodeID c))
       | Some _ => if Nat.even (size (cc_Peers c)) then Err (ErrEvenPeers (size (cc_Peers c))) else Ok c
       end.

(** The environment has the last word on identity, addresses and peers. *)
Definition overrides (env : string → string) (c : ClusterConfig) : ClusterConfig :=
  mkClusterConfig
    (default (cc_NodeID c) (ParseUint (env "PRISM_NODE_ID"%string)))
    (nonempty (env "PRISM_BIND_ADDR"%string) (cc_BindAddr c))
    (nonempty (env "PRISM_ADVERTISE_ADDR"%string) (cc_AdvertiseAddr c))
    (if bool_decide (env "PRISM_PEERS"%string = ""%string) then cc_Peers c
     else parsePeersFromEnv (env "PRISM_PEERS"%string))
    (cc_HeartbeatTick c) (cc_ElectionTick c) (cc_SnapshotInterval c) (cc_SnapshotThreshold c) (cc_TrailingLogs c)
    (cc_EnableFollowerReads c) (cc_MaxStaleness c) (cc_LeaseDuration c) (cc_DataDir c) (cc_LogRetention c).

Definition raft_addr (s : settings) : string := nonempty (st_bind_addr s) "127.0.0.1".
Definition raft_port (s : settings) : Z := nonzero (st_raft_port s) 8990.

(** The peers of the settings; an empty string means none. *)
Definition settings_peers (s : settings) : peer_map :=
  if bool_decide (peers_string s = ""%string) then ∅ else parsePeersFromEnv (peers_string s).

Definition cluster_of (s : settings) (order order' : list (Z * string)) : ClusterConfig :=
  let peers := settings_peers s in
  let nodeID := if st_node_id s =? 0 then auto_node_id (raft_addr s) (raft_port s) order order' else st_node_id s in
  let advertise := advertise_addr s nodeID peers (raft_port s) in
  mkClusterConfig nodeID (bind_addr (raft_addr s) (raft_port s) advertise) advertise peers
    (nonzero (st_heartbeat_tick s) 1) (nonzero (st_election_tick s) 10) (nonzero (st_snapshot_interval s) 10000)
    (nonzero (st_snapshot_size_mb s) 50) (nonzero (st_trailing_logs s) 10240) (st_follower_reads s)
    (nonempty (st_max_staleness s) "200ms") (nonempty (st_lease_duration s) "10s")
    (nonempty (st_data_dir s) "/var/lib/prism-admin/raft") (nonempty (st_log_retention s) "7d").

Definition LoadConfig (s : settings) (env : string → string) (order order' : list (Z * string))
    : result config_error (ClusterConfig * ControlPlaneConfig * AdminAPIConfig) :=
  let controlPlane := mkControlPlaneConfig (listen_addr (st_control_listen s) 8981)
    (if bool_decide (size (st_read_consistency s) = 0%nat) then default_consistency else st_read_consistency s) in
  let adminAPI := mkAdminAPIConfig (listen_addr (st_api_listen s) 8980) (nonempty (st_api_consistency s) "stale") in
  match validateClusterConfig (overrides env (cluster_of s order order')) with
  | Ok c => Ok (c, controlPlane, adminAPI)
  | Err e => Err e
  | Panic => Panic
  end.

Definition IsSingleNode (c : ClusterConfig) : bool := bool_decide (size (cc_Peers c) = 1%nat).

(** [RaftConfig] of raft.go. *)
Record RaftConfig := mkRaftConfig {
  rf_ID : Z;
  rf_Cluster : peer_map;
  rf_DataDir : string;
  rf_SnapCount : Z;
  rf_HeartbeatTick : Z;
  rf_ElectionTick : Z }.

Definition GetRaftConfig (c : ClusterConfig) : RaftConfig :=
  mkRaftConfig (cc_NodeID c) (cc_Peers c) (cc_DataDir c) (cc_SnapshotInterval c) (cc_HeartbeatTick c)
    (cc_ElectionTick c).

(** ** Reading back a list of peers *)

Definition print_peer (p : Z * string) : string := print_uint p.1 +:+ String equals_sign p.2.

Fixpoint print_peers (l : list (Z * string)) : string :=
  match l with
  | [] => ""
  | [p] => print_peer p
  | p :: l => print_peer p +:+ String comma (print_peers l)
  end.

(** An address that survives: no separator, no white space, no scheme. *)
Definition plain_addr (s : string) : bool :=
  all_chars (λ a, not_char comma a && negb (strings.is_space a)) s
  && negb (strings.HasPrefix "http://" s) && negb (strings.HasPrefix "https://" s).

Definition peers_ok (l : list (Z * string)) : Prop :=
  Forall (λ p, 0 ≤ p.1 < 2 ^ 64 ∧ plain_addr p.2 = true) l.

Lemma digit_plain a :
  is_digit a = true → not_char comma a = true ∧ negb (strings.is_space a) = true ∧ not_char equals_sign a = true.
Proof.
  intros Ha. unfold not_char, is_char, strings.is_space. rewrite !negb_true_iff, !bool_decide_eq_false.
  split_and!; intros H; [by subst| |by subst]. repeat (apply elem_of_cons in H as [->|H]; [done|]). by apply elem_of_nil in H.
Qed.

Lemma print_peer_plain p :
  plain_addr p.2 = true → all_chars (λ a, not_char comma a && negb (strings.is_space a)) (print_peer p) = true.
Proof.
  unfold plain_addr, print_peer. rewrite !andb_true_iff, all_chars_app. intros [[H _] _]. simpl. rewrite H.
  rewrite (all_chars_impl is_digit); [done| |apply print_uint_digits].
  intros a (-> & -> & _)%digit_plain. done.
Qed.

Lemma parse_print_peer i p :
  0 ≤ p.1 < 2 ^ 64 → plain_addr p.2 = true → parse_peer i (print_peer p) = Some p.
Proof.
  intros Hid Hp. unfold parse_peer. rewrite strings.TrimSpace_id.
  - unfold print_peer. rewrite strings.Cut_app.
    + rewrite ParseUint_print by done. unfold plain_addr in Hp. rewrite !andb_true_iff, !negb_true_iff in Hp.
      destruct Hp as [[_ H1] H2]. unfold strip_http. rewrite (strings.TrimPrefix_id "http://"), strings.TrimPrefix_id by done.
      by destruct p.
    + eapply all_chars_impl; [|apply print_uint_digits]. by intros a (_ & _ & ?)%digit_plain.
  - eapply all_chars_impl; [|by apply print_peer_plain]. intros a. by rewrite andb_true_iff; intros [_ ?].
Qed.

Lemma split_print_peers l :
  l ≠ [] → peers_ok l → strings.Split comma (print_peers l) = print_peer <$> l.
Proof.
  intros Hne Hok. assert (∀ p, plain_addr p.2 = true → all_chars (not_char comma) (print_peer p) = true) as Hc.
  { intros p Hp. eapply all_chars_impl; [|by apply print_peer_plain]. intros a. by rewrite andb_true_iff; intros [? _]. }
  induction Hok as [|p l [_ Hp] Hok IH]; [done|]. destruct l as [|q l].
  - simpl. by rewrite strings.Split_none by auto.
  - change (print_peers (p :: q :: l)) with (print_peer p +:+ String comma (print_peers (q :: l))).
    rewrite strings.Split_app, IH by auto. done.
Qed.

Lemma parse_parts_spec i l m :
  peers_ok l → NoDup l.*1 → parse_parts i (print_peer <$> l) m = list_to_map l ∪ m.
Proof.
  intros Hok. revert i m. induction Hok as [|p l [Hid Hp] Hok IH]; intros i m Hnd; csimpl; [by rewrite (left_id ∅ (∪))|].
  rewrite parse_print_peer by done. destruct p as [id addr]. csimpl in Hnd.
  apply NoDup_cons in Hnd as [Hn Hnd]. rewrite IH by done. simpl.
  rewrite <- insert_union_l, insert_union_r; [done|]. by apply not_elem_of_list_to_map_1.
Qed.

(** Peers written as [id=address] and separated by commas are read back as exactly
    those peers, whatever their number and order, as long as ids fit 64 bits and are
    distinct and addresses have neither separator, white space nor scheme. *)
Theorem peers_roundtrip l :
  l ≠ [] → peers_ok l → NoDup l.*1 → parsePeersFromEnv (print_peers l) = list_to_map l.
Proof.
  intros Hne Hok Hnd. unfold parsePeersFromEnv. rewrite split_print_peers, parse_parts_spec by done.
  apply (right_id ∅ (∪)).
Qed.

(** ** What a loaded configuration promises *)

Definition valid_cluster (c : ClusterConfig) : Prop :=
  cc_NodeID c ≠ 0 ∧ cc_BindAddr c ≠ ""%string ∧ cc_AdvertiseAddr c ≠ ""%string ∧
  is_Some (cc_Peers c !! cc_NodeID c) ∧ Nat.Odd (size (cc_Peers c)) ∧
  cc_HeartbeatTick c ≠ 0 ∧ cc_ElectionTick c ≠ 0 ∧
  (size (cc_Peers c) ≠ 1%nat → strings.Contains net.colon (cc_AdvertiseAddr c) = true).

Lemma validate_correct c c' :
  validateClusterConfig c = Ok c' →
  cc_NodeID c' ≠ 0 ∧ cc_BindAddr c' ≠ ""%string ∧ cc_AdvertiseAddr c' ≠ ""%string ∧
  is_Some (cc_Peers c' !! cc_NodeID c') ∧ Nat.Odd (size (cc_Peers c')) ∧
  cc_HeartbeatTick c' = cc_HeartbeatTick c ∧ cc_ElectionTick c' = cc_ElectionTick c ∧
  cc_NodeID c' = cc_NodeID c ∧ cc_BindAddr c' = cc_BindAddr c ∧
  (cc_Peers c ≠ ∅ → c' = c ∧ strings.Contains net.colon (cc_AdvertiseAddr c) = true) ∧
  (cc_Peers c = ∅ → size (cc_Peers c') = 1%nat).
Proof.
  unfold validateClusterConfig. destruct (cc_NodeID c =? 0) eqn:E0; [done|]. apply Z.eqb_neq in E0.
  case_bool_decide as Eb; [done|]. case_bool_decide as Es.
  - intros [= <-]. simpl. apply map_size_empty_iff in Es. rewrite Es, map_size_singleton.
    split_and!; try done.
    + unfold nonempty. by case_bool_decide.
    + by rewrite lookup_singleton_eq; eexists.
    + by exists 0%nat.
  - case_bool_decide as Ea; [done|]. destruct (strings.Contains _ _) eqn:Ec; [|done]. simpl.
    destruct (cc_Peers c !! cc_NodeID c) eqn:Ep; [|done]. destruct (Nat.even _) eqn:Ee; [done|]. intros [= <-].
    rewrite Ep. split_and!; try done.
    + apply Nat.odd_spec. unfold Nat.odd. by rewrite Ee.
    + intros He. by rewrite He, map_size_empty in Es.
Qed.

Lemma addr_port_nonempty host port : addr_port host port ≠ ""%string.
Proof. unfold addr_port. by destruct host. Qed.

Lemma bind_nonempty s env order order' : cc_BindAddr (overrides env (cluster_of s order order')) ≠ ""%string.
Proof.
  unfold overrides, cluster_of, nonempty, bind_addr. simpl. case_bool_decide; [|done].
  repeat case_match; apply addr_port_nonempty.
Qed.

Lemma nonzero_ne v d : d ≠ 0 → nonzero v d ≠ 0.
Proof. unfold nonzero. destruct (v =? 0) eqn:E; [done|]. intros _. by apply Z.eqb_neq. Qed.

(** C36. A configuration that loads is one the cluster can run with: the node has an
    identity, listed among an odd number of peers, and addresses; a cluster of several
    nodes advertises a port.  Loading never panics, and it fails only for a node without
    an identity, or one with peers that do not list it, are even in number, or whose own
    address is missing or has no port. *)
Theorem LoadConfig_correct s env order order' :
  let c0 := overrides env (cluster_of s order order') in
  match LoadConfig s env order order' with
  | Ok (c, _, _) => valid_cluster c ∧ cc_NodeID c = cc_NodeID c0 ∧ (cc_Peers c0 ≠ ∅ → c = c0)
  | Err _ => cc_NodeID c0 = 0 ∨
      cc_Peers c0 ≠ ∅ ∧ (cc_Peers c0 !! cc_NodeID c0 = None ∨ Nat.Even (size (cc_Peers c0)) ∨
                         strings.Contains net.colon (cc_AdvertiseAddr c0) = false)
  | Panic => False
  end.
Proof.
  intros c0. unfold LoadConfig. fold c0. destruct (validateClusterConfig c0) as [c|e|] eqn:E.
  - apply validate_correct in E as (H1 & H2 & H3 & H4 & H5 & H6 & H7 & H8 & H9 & H10 & H11).
    split; [|split; [done|intros Hp; by apply H10]]. unfold valid_cluster. rewrite H6, H7.
    split_and!; try done; [by apply nonzero_ne..|]. intros Hs. destruct (decide (cc_Peers c0 = ∅)) as [He|He].
    + by rewrite H11 in Hs.
    + by destruct (H10 He) as [-> ?].
  - revert E. unfold validateClusterConfig. destruct (cc_NodeID c0 =? 0) eqn:E0; [apply Z.eqb_eq in E0; by left|].
    rewrite bool_decide_eq_false_2 by apply bind_nonempty. case_bool_decide as Es; [done|]. intros E. right.
    split; [intros He; by rewrite He in Es|].
    case_bool_decide as Ea; [right; right; by rewrite Ea|]. destruct (strings.Contains _ _) eqn:Ec; [|by right; right].
    change (negb true) with false in E. cbv iota in E. destruct (cc_Peers c0 !! cc_NodeID c0); [|by left].
    destruct (Nat.even (size (cc_Peers c0))) eqn:Ee; [|done].
    right. left. by apply Nat.even_spec.
  - revert E. unfold validateClusterConfig. repeat case_match; done.
Qed.

(** When exactly one of the peers has an address of this node, the node finds its own id,
    in whatever order the map is visited. *)
Theorem node_finds_itself s env order order' id addr :
  st_node_id s = 0 → env "PRISM_NODE_ID"%string = ""%string →
  order ≡ₚ map_to_list (settings_peers s) → order' ≡ₚ map_to_list (settings_peers s) →
  settings_peers s !! id = Some addr → id ≠ 0 →
  (∀ p, p ∈ order → is_local (raft_addr s) (raft_port s) p = true ↔ p = (id, addr)) →
  cc_NodeID (overrides env (cluster_of s order order')) = id.
Proof.
  intros H0 He Ho Ho' Hid Hne Hloc. unfold overrides, cluster_of. simpl. rewrite H0, He. simpl.
  assert ((id, addr) ∈ order) as Hin by (rewrite Ho; by apply elem_of_map_to_list).
  assert (List.find (is_local (raft_addr s) (raft_port s)) order = Some (id, addr)) as Hf.
  { destruct (List.find _ order) as [p|] eqn:E.
    - apply List.find_some in E as [Hp%list_elem_of_In Hl]. f_equal. by apply Hloc.
    - pose proof (List.find_none _ _ E (id, addr)) as Hn. apply list_elem_of_In in Hin as Hin'. rewrite (proj2 (Hloc _ Hin) eq_refl) in Hn.
      by specialize (Hn Hin'). }
  unfold auto_node_id. rewrite Hf. destruct order' as [|q l].
  - rewrite Ho, <- Ho' in Hin. by apply elem_of_nil in Hin.
  - destruct (id =? 0) eqn:E; [by apply Z.eqb_eq in E|done].
Qed.

(** ** Runs *)

Module ConfigDemo.
Local Open Scope string_scope.
Local Open Scope Z_scope.

Definition base (peers : option (list string * string)) (addr : string) : settings :=
  mkSettings 0 0 0 0 0 0 false "" "" "" "" 0 addr "" peers ∅ (0, "") (0, "") "".
Definition no_env (_ : string) : string := "".

Definition three : list (Z * string) := [(1, "admin-01:8990"); (2, "admin-02:8990"); (3, "admin-03:8990")].

Lemma peers_roundtrip_witness :
  three ≠ [] ∧ parsePeersFromEnv (print_peers three) = list_to_map three.
Proof.
  split; [discriminate|]. apply (peers_roundtrip three).
  - discriminate.
  - repeat constructor; simpl; lia.
  - apply (bool_decide_unpack _). vm_compute. exact I.
Defined.

Definition by_addr : settings := base (Some ([print_peers three], "")) "admin-02".

Lemma node_finds_itself_witness :
  cc_NodeID (overrides no_env (cluster_of by_addr (map_to_list (settings_peers by_addr))
    (map_to_list (settings_peers by_addr)))) = 2.
Proof.
  apply (node_finds_itself by_addr no_env _ _ 2 "admin-02:8990").
  - reflexivity.
  - reflexivity.
  - reflexivity.
  - reflexivity.
  - vm_compute. reflexivity.
  - discriminate.
  - intros [i a] Hp%elem_of_map_to_list.
    assert (settings_peers by_addr = list_to_map three) as E by (vm_compute; reflexivity). rewrite E in Hp.
    apply elem_of_list_to_map_2 in Hp.
    repeat (apply elem_of_cons in Hp as [[= -> ->]|Hp]; [vm_compute; split; congruence|]). by apply elem_of_nil in Hp.
Defined.

(** None of the peers has an address of this node: which id it takes depends on the order
    of the map, and every node may take the same. *)
Example unknown_node_takes_any_id :
  let s := base (Some ([print_peers three], "")) "" in
  auto_node_id (raft_addr s) (raft_port s) three three = 1 ∧
  auto_node_id (raft_addr s) (raft_port s) (rev three) (rev three) = 3.
Proof. vm_compute. split; reflexivity. Qed.

(** A list of peers in the configuration file: all but the first are ignored, and the node
    runs a cluster of its own. *)
Example peer_list_is_cut :
  match LoadConfig (base (Some (["1=localhost:8990"; "2=b:8990"; "3=c:8990"], "")) "") no_env
          [(1, "localhost:8990")] [(1, "localhost:8990")] with
  | Ok (c, _, _) => IsSingleNode c = true
  | _ => False
  end.
Proof. vm_compute. reflexivity. Qed.

(** A trailing comma is a peer without an address; a blank before the equals sign makes
    the peer disappear. *)
Example trailing_comma : parsePeersFromEnv "a:1,b:2," = list_to_map [(1, "a:1"); (2, "b:2"); (3, "")].
Proof. vm_compute. reflexivity. Qed.
Example blank_drops_peer : parsePeersFromEnv "1 =a:1,2=b:2" = {[ 2 := "b:2" ]}.
Proof. vm_compute. reflexivity. Qed.

(** The port of the control plane in the form host:port is not a number for viper, which
    reads zero: the default is used. *)
Example listen_address_is_ignored : listen_addr (0, "10.0.0.1:7000") 8981 = "0.0.0.0:8981".
Proof. vm_compute. reflexivity. Qed.
End ConfigDemo.
