(* ===== verification/AdminRaft.v ===== *)
(** * cmd/prism-admin: the Raft node and the way to the leader

    raft.go around the consensus library, whose state and answers are arguments (what
    [State] and [LeaderWithID] report, whether a call succeeds), and the connection pool
    of control_plane_raft.go through which followers forward calls, as a step relation
    over concurrent calls. *)

From Stdlib Require Import Ascii.
From stdpp Require Import pretty.
From S2P Require Import Prelude GoStrings AdminConfig.
Local Open Scope Z_scope.

(** ** raft.go *)

Inductive RaftState := Follower | Candidate | Leader | RaftShutdown.
#[global] Instance RaftState_dec : EqDecision RaftState.
Proof. solve_decision. Defined.

(** What the library reports at some moment: the state, the leader's address and id. *)
Record observation := mkObservation { ob_State : RaftState; ob_LeaderAddr : string; ob_LeaderID : string }.

(** [rn_transport]: the address that the transport advertises, when there is one;
    [rn_started]: [raft] is not nil; [rn_stopped]: [stopMetrics] is closed. *)
Record RaftNode := mkRaftNode {
  rn_id : string;
  rn_bindAddr : string;
  rn_dataDir : string;
  rn_transport : option string;
  rn_started : bool;
  rn_lastLeaderID : string;
  rn_stopped : bool }.

Definition NewRaftNode (cfg : RaftConfig) (mkdir : bool) : option RaftNode :=
  if mkdir then Some (mkRaftNode (print_uint (rf_ID cfg)) "" (rf_DataDir cfg) None false "" false) else None.

Inductive start_step := ResolveAddr | NewTransport | NewBoltStore | NewSnapshotStore | NewRaft.

(** [resolve]: net.ResolveTCPAddr, the address as the TCPAddr prints it; it is what the
    transport advertises to the other nodes.  [steps]: whether the steps after it succeed;
    the first that does not is the error. *)
Definition Node_Start (bindAddr : string) (resolve : string → option string) (steps : start_step → bool)
    (rn : RaftNode) : RaftNode * option start_step :=
  let node transport started :=
    mkRaftNode (rn_id rn) bindAddr (rn_dataDir rn) transport started (rn_lastLeaderID rn) (rn_stopped rn) in
  match resolve bindAddr with
  | None => (node (rn_transport rn) (rn_started rn), Some ResolveAddr)
  | Some addr =>
      if negb (steps NewTransport) then (node (rn_transport rn) (rn_started rn), Some NewTransport)
      else match List.find (λ s, negb (steps s)) [NewBoltStore; NewSnapshotStore; NewRaft] with
           | Some s => (node (Some addr) (rn_started rn), Some s)
           | None => (node (Some addr) true, None)
           end
  end.

Inductive bootstrap_outcome := Bootstrapped | CantBootstrap | BootstrapFailed.

(** The servers of the first configuration; a cluster that has one is no error. *)
Definition bootstrap_servers (order : list (Z * string)) : list (string * string) :=
  (λ p, (print_uint p.1, p.2)) <$> order.
Definition Bootstrap (order : list (Z * string)) (outcome : list (string * string) → bootstrap_outcome)
    (rn : RaftNode) : result unit unit :=
  if rn_started rn then
    match outcome (bootstrap_servers order) with
    | Bootstrapped | CantBootstrap => Ok ()
    | BootstrapFailed => Err ()
    end
  else Panic.

Definition Node_Stop (shutdown : bool) (rn : RaftNode) : RaftNode * bool :=
  if rn_started rn
  then (mkRaftNode (rn_id rn) (rn_bindAddr rn) (rn_dataDir rn) (rn_transport rn) true (rn_lastLeaderID rn) true, shutdown)
  else (rn, true).

Definition IsLeader (o : observation) : bool := bool_decide (ob_State o = Leader).

(** The id is scanned from the beginning of the address. *)
Definition GetLeader (o : observation) : Z :=
  if bool_decide (ob_LeaderAddr o = ""%string) then 0 else Sscanf_uint (ob_LeaderAddr o).

Definition GetLeaderAddr (o : observation) : string :=
  if bool_decide (ob_LeaderAddr o = ""%string) then ""
  else match net.SplitHostPort (ob_LeaderAddr o) with
       | Some (host, _) => host +:+ ":8980"
       | None => ""
       end.

(** [polls]: what is observed at each poll before the deadline; [true] is no error. *)
Fixpoint WaitForLeader (polls : list observation) : bool :=
  match polls with
  | [] => false
  | o :: polls => if IsLeader o || negb (GetLeader o =? 0) then true else WaitForLeader polls
  end.

(** *** Metrics *)

Record raft_metrics := mkRaftMetrics {
  me_state : Z * Z * Z;
  me_changes : nat;
  me_elections : nat;
  me_cluster : option (Z * Z) }.

Definition state_number (s : RaftState) : Z :=
  match s with Follower => 0 | Candidate => 1 | Leader => 2 | RaftShutdown => 3 end.

(** One tick: [term], [index] of the statistics as text, the number of servers when the
    configuration can be read.  The state is read once more for the elections. *)
Definition collect_tick (o again : observation) (term index : string) (servers : option Z)
    (rn : RaftNode) (m : raft_metrics) : RaftNode * raft_metrics :=
  if negb (rn_started rn) then (rn, m)
  else
    (mkRaftNode (rn_id rn) (rn_bindAddr rn) (rn_dataDir rn) (rn_transport rn) (rn_started rn) (ob_LeaderID o) (rn_stopped rn),
     mkRaftMetrics (state_number (ob_State o), Sscanf_uint term, Sscanf_uint index)
       (me_changes m + (if bool_decide (ob_LeaderID o ≠ rn_lastLeaderID rn ∧ rn_lastLeaderID rn ≠ ""%string) then 1 else 0))
       (me_elections m + (if IsLeader again && (state_number (ob_State o) =? 2) then 1 else 0))
       (match servers with Some n => Some (n, n - 1) | None => me_cluster m end)).

(** Pairs of a key and a value; a key without a value is left out. *)
Fixpoint argsToAttrs {A} (args : list A) : list A :=
  match args with k :: v :: args => k :: v :: argsToAttrs args | _ => [] end.

(** ** A follower and its leader *)

(** A TCPAddr with an IPv4 address, as it is printed, and one with an IPv6 address, [ip6]
    being the eight groups in their short form. *)
Definition tcp4 (a b c d port : Z) : string :=
  print_uint a +:+ "." +:+ print_uint b +:+ "." +:+ print_uint c +:+ "." +:+ print_uint d +:+ ":" +:+ print_uint port.
Definition tcp6 (ip6 : string) (port : Z) : string := "[" +:+ ip6 +:+ "]:" +:+ print_uint port.

(** Bind addresses that resolve resolve to IPv4 addresses, not to those of network 0. *)
Definition resolves_ipv4 (resolve : string → option string) : Prop :=
  ∀ bindAddr addr, resolve bindAddr = Some addr → ∃ a b c d port, 1 ≤ a ≤ 255 ∧ addr = tcp4 a b c d port.

(** A node that was started where bind addresses resolve to IPv4 addresses. *)
Definition ipv4_node (rn : RaftNode) : Prop :=
  ∃ bindAddr resolve steps rn0, resolves_ipv4 resolve ∧ Node_Start bindAddr resolve steps rn0 = (rn, None).

(** No leader is known, or it is a node whose transport advertises the address. *)
Definition sees_ipv4_leader (o : observation) : Prop :=
  ob_LeaderAddr o = ""%string ∨ ∃ rn, ipv4_node rn ∧ rn_transport rn = Some (ob_LeaderAddr o).

Lemma Node_Start_transport bindAddr resolve steps rn rn' :
  Node_Start bindAddr resolve steps rn = (rn', None) →
  rn_started rn' = true ∧ rn_bindAddr rn' = bindAddr ∧ ∃ addr, resolve bindAddr = Some addr ∧ rn_transport rn' = Some addr.
Proof.
  unfold Node_Start. destruct (resolve bindAddr) as [addr|]; [|done]. destruct (steps NewTransport); [|done].
  cbn [negb]. destruct (List.find _ _); [done|]. intros [= <-]. by eauto.
Qed.

Lemma GetLeader_ipv4 o a b c d port : 1 ≤ a ≤ 255 → ob_LeaderAddr o = tcp4 a b c d port → GetLeader o = a.
Proof.
  intros Ha Ho. unfold GetLeader. rewrite Ho, bool_decide_false by (unfold tcp4; by destruct (print_uint a)).
  apply (Sscanf_uint_print a "."%char (print_uint b +:+ "." +:+ _)); [lia|done].
Qed.

(** A follower that sees an IPv4 leader takes the first number of its address for an id,
    which is not zero. *)
Lemma GetLeader_seen o : sees_ipv4_leader o → GetLeader o ≠ 0 ↔ ob_LeaderAddr o ≠ ""%string.
Proof.
  intros [E|(rn & (bind & resolve & steps & rn0 & Hr & Hst) & Ht)].
  - unfold GetLeader. by rewrite E.
  - apply Node_Start_transport in Hst as (_ & _ & addr & Hres & Ht'). rewrite Ht in Ht'. injection Ht' as <-.
    destruct (Hr _ _ Hres) as (a & b & c & d & port & Ha & E). rewrite (GetLeader_ipv4 o a b c d port) by done.
    split; [|lia]. intros _. rewrite E. unfold tcp4. by destruct (print_uint a).
Qed.

Lemma GetLeader_ipv6 o ip6 port : ob_LeaderAddr o = tcp6 ip6 port → GetLeader o = 0.
Proof. intros E. unfold GetLeader. rewrite E. reflexivity. Qed.

Lemma WaitForLeader_spec polls :
  WaitForLeader polls = true ↔ ∃ o, o ∈ polls ∧ (ob_State o = Leader ∨ GetLeader o ≠ 0).
Proof.
  induction polls as [|o polls IH]; simpl; [split; [done|intros (o & Ho & _); by apply elem_of_nil in Ho]|].
  unfold IsLeader. case_bool_decide as Hl; simpl.
  { split; [|done]. intros _. exists o. split; [apply list_elem_of_here|by left]. }
  destruct (GetLeader o =? 0) eqn:E; simpl; [apply Z.eqb_eq in E|apply Z.eqb_neq in E].
  - rewrite IH. split; intros (o' & Ho & H).
    + exists o'. split; [by apply list_elem_of_further|done].
    + apply elem_of_cons in Ho as [->|Ho]; [by destruct H|by exists o'].
  - split; [|done]. intros _. exists o. split; [apply list_elem_of_here|by right].
Qed.

(** With IPv4 addresses the wait ends exactly when a leader is known. *)
Lemma WaitForLeader_ipv4 polls : (∀ o, o ∈ polls → sees_ipv4_leader o) →
  WaitForLeader polls = true ↔ ∃ o, o ∈ polls ∧ (ob_State o = Leader ∨ ob_LeaderAddr o ≠ ""%string).
Proof.
  intros Hp. rewrite WaitForLeader_spec. split; intros (o & Ho & [H|H]); exists o; split; auto; right.
  - by apply GetLeader_seen; auto.
  - by apply GetLeader_seen; auto.
Qed.

(** A follower in a cluster with IPv6 addresses never gets past the wait: however often
    and however long it polls a cluster that has elected another node, it does not see that
    there is a leader. *)
Theorem ipv6_follower_waits_in_vain polls :
  (∀ o, o ∈ polls → ob_LeaderAddr o = ""%string ∨ ∃ ip6 port, ob_LeaderAddr o = tcp6 ip6 port) →
  WaitForLeader polls = true ↔ ∃ o, o ∈ polls ∧ ob_State o = Leader.
Proof.
  intros Hp. rewrite WaitForLeader_spec. split; intros (o & Ho & H); exists o; split; auto.
  destruct H as [H|H]; [done|]. destruct H. destruct (Hp o Ho) as [E|(ip6 & port & E)]; [|by eapply GetLeader_ipv6].
  unfold GetLeader. by rewrite E.
Qed.

(** What a follower forwards misses the leader's control plane: the address it
    forwards to has the port 8980, whatever port the leader's control plane was configured
    with; by default that is 8981. *)
Theorem forwarding_port s env order order' c cp api o host port :
  LoadConfig s env order order' = Ok (c, cp, api) →
  host ≠ ""%string → net.plain_host host = true → net.plain_host port = true →
  ob_LeaderAddr o = host +:+ String net.colon port →
  GetLeaderAddr o = host +:+ ":8980" ∧
  (st_control_listen s = (0, ""%string) → cp_Listen cp = "0.0.0.0:8981"%string).
Proof.
  intros Hl Hne Hh Hp Ho. split.
  - unfold GetLeaderAddr. rewrite Ho, net.SplitHostPort_plain by done. by destruct host.
  - intros Hs. unfold LoadConfig in Hl. destruct (validateClusterConfig _); try done. injection Hl as _ <- _.
    simpl. by rewrite Hs.
Qed.

(** ** The metrics over time *)

(** A tick with what it saw; both reads of the state agree. *)
Fixpoint collect (ticks : list observation) (rn : RaftNode) (m : raft_metrics) : RaftNode * raft_metrics :=
  match ticks with
  | [] => (rn, m)
  | o :: ticks => let '(rn, m) := collect_tick o o "" "" None rn m in collect ticks rn m
  end.

(** Changes of the leader between ticks: to another id, from one that was known. *)
Fixpoint leader_changes (last : string) (ticks : list observation) : nat :=
  match ticks with
  | [] => 0
  | o :: ticks =>
      (if bool_decide (ob_LeaderID o ≠ last ∧ last ≠ ""%string) then 1 else 0) + leader_changes (ob_LeaderID o) ticks
  end.

(** The counter of leader changes counts the changes; the counter of elections counts the
    ticks at which the node is the leader, not the elections it won. *)
Theorem election_counter_counts_ticks ticks rn m :
  rn_started rn = true →
  me_changes (collect ticks rn m).2 = (me_changes m + leader_changes (rn_lastLeaderID rn) ticks)%nat ∧
  me_elections (collect ticks rn m).2 = (me_elections m + length (List.filter IsLeader ticks))%nat.
Proof.
  revert rn m. induction ticks as [|o ticks IH]; intros rn m Hs; simpl; [lia|].
  unfold collect_tick. rewrite Hs. simpl.
  destruct (IH (mkRaftNode (rn_id rn) (rn_bindAddr rn) (rn_dataDir rn) (rn_transport rn) (rn_started rn) (ob_LeaderID o) (rn_stopped rn))
    (mkRaftMetrics (state_number (ob_State o), Sscanf_uint "", Sscanf_uint "")
      (me_changes m + (if bool_decide (ob_LeaderID o ≠ rn_lastLeaderID rn ∧ rn_lastLeaderID rn ≠ ""%string) then 1 else 0))
      (me_elections m + (if IsLeader o && (state_number (ob_State o) =? 2) then 1 else 0))
      (me_cluster m)) Hs) as [H1 H2]. rewrite Hs in H1, H2. split; [rewrite H1; simpl; lia|].
  rewrite H2. cbn [me_elections List.filter]. unfold IsLeader at 1 3. destruct (ob_State o); simpl; lia.
Qed.

(** ** The pool of connections to the leader *)

(** A call that found no connection, waiting for the write lock; a call that has its
    answer ([None]: dialling failed). *)
Inductive pool_call := CallWaiting (addr : string) | CallDone (addr : string) (conn : option nat).

(** [lp_dialled]: the address of each connection that was ever made, [lp_closed]: those
    that were closed. *)
Record LeaderConnectionPool := mkPool {
  lp_conns : gmap string nat;
  lp_dialled : list string;
  lp_closed : gset nat;
  lp_calls : list pool_call }.

Definition NewLeaderConnectionPool : LeaderConnectionPool := mkPool ∅ [] ∅ [].

(** The section under the read lock. *)
Definition pool_lookup (addr : string) (p : LeaderConnectionPool) : LeaderConnectionPool :=
  mkPool (lp_conns p) (lp_dialled p) (lp_closed p)
    (lp_calls p ++ [match lp_conns p !! addr with Some c => CallDone addr (Some c) | None => CallWaiting addr end]).

(** The section under the write lock: check again, dial. *)
Definition pool_dial (k : nat) (dial : bool) (p : LeaderConnectionPool) : option LeaderConnectionPool :=
  match lp_calls p !! k with
  | Some (CallWaiting addr) =>
      Some (match lp_conns p !! addr with
            | Some c => mkPool (lp_conns p) (lp_dialled p) (lp_closed p) (<[k := CallDone addr (Some c)]> (lp_calls p))
            | None =>
                if dial then
                  let c := length (lp_dialled p) in
                  mkPool (<[addr := c]> (lp_conns p)) (lp_dialled p ++ [addr]) (lp_closed p)
                    (<[k := CallDone addr (Some c)]> (lp_calls p))
                else mkPool (lp_conns p) (lp_dialled p) (lp_closed p) (<[k := CallDone addr None]> (lp_calls p))
            end)
  | _ => None
  end.

Definition Pool_Close (p : LeaderConnectionPool) : LeaderConnectionPool :=
  mkPool ∅ (lp_dialled p) (lp_closed p ∪ list_to_set (map_to_list (lp_conns p)).*2) (lp_calls p).

Inductive pool_label := PoolGet (addr : string) | PoolDial (k : nat) (dial : bool) | PoolClose.

Definition pool_exec (l : pool_label) (p : LeaderConnectionPool) : option LeaderConnectionPool :=
  match l with
  | PoolGet addr => Some (pool_lookup addr p)
  | PoolDial k dial => pool_dial k dial p
  | PoolClose => Some (Pool_Close p)
  end.

(** Every connection is to the address it is used for; a connection that is not in the map
    was closed, and one that is in the map was not. *)
Record pool_ok (p : LeaderConnectionPool) : Prop := {
  po_conns addr c : lp_conns p !! addr = Some c → lp_dialled p !! c = Some addr ∧ c ∉ lp_closed p;
  po_rest c addr : lp_dialled p !! c = Some addr → lp_conns p !! addr = Some c ∨ c ∈ lp_closed p;
  po_bound c : c ∈ lp_closed p → (c < length (lp_dialled p))%nat;
  po_calls k addr c : lp_calls p !! k = Some (CallDone addr (Some c)) → lp_dialled p !! c = Some addr }.

Lemma pool_ok_dial k dial p p' : pool_ok p → pool_dial k dial p = Some p' → pool_ok p'.
Proof.
  intros [H1 H2 H3 H4]. unfold pool_dial. destruct (lp_calls p !! k) as [[addr|]|] eqn:Hk; [|done..]. intros [= <-].
  pose proof (lookup_lt_Some _ _ _ Hk) as Hlt.
  destruct (lp_conns p !! addr) as [c|] eqn:Hc; [|destruct dial].
  - split; simpl; [done..|]. intros j a c' Hj. destruct (decide (j = k)) as [->|Hne].
    + rewrite list_lookup_insert_eq in Hj by done. injection Hj as <- <-. by apply H1.
    + rewrite list_lookup_insert_ne in Hj by done. by eapply H4.
  - assert (∀ c' a, lp_dialled p !! c' = Some a → (lp_dialled p ++ [addr]) !! c' = Some a) as Hext
      by (intros c' a Ha; by apply lookup_app_l_Some).
    assert ((lp_dialled p ++ [addr]) !! length (lp_dialled p) = Some addr) as Hlast
      by (by rewrite list_lookup_middle).
    assert (length (lp_dialled p) ∉ lp_closed p) as Hfresh by (intros ?%H3; lia).
    split; simpl.
    + intros a c [[<- <-]|[Hne Ha]]%lookup_insert_Some; [done|]. destruct (H1 _ _ Ha). auto.
    + intros c a [Ha|[Hle Ha]]%lookup_app_Some.
      * destruct (H2 _ _ Ha) as [?|?]; [|by right]. left. rewrite lookup_insert_ne; [done|]. intros ->. congruence.
      * apply list_lookup_singleton_Some in Ha as [Hz ->]. left. rewrite lookup_insert_eq. f_equal. lia.
    + intros c Hin%H3. rewrite length_app. lia.
    + intros j a c' Hj. destruct (decide (j = k)) as [->|Hne].
      * rewrite list_lookup_insert_eq in Hj by done. by injection Hj as <- <-.
      * rewrite list_lookup_insert_ne in Hj by done. apply Hext. by eapply H4.
  - split; simpl; [done..|]. intros j a c' Hj. destruct (decide (j = k)) as [->|Hne].
    + by rewrite list_lookup_insert_eq in Hj by done.
    + rewrite list_lookup_insert_ne in Hj by done. by eapply H4.
Qed.

Lemma pool_ok_exec p l p' : pool_ok p → pool_exec l p = Some p' → pool_ok p'.
Proof.
  intros Hok. destruct l as [addr|k dial|]; simpl; [|by apply pool_ok_dial|].
  - destruct Hok as [H1 H2 H3 H4]. intros [= <-]. split; simpl; [done..|].
    intros j a c [Hj|[_ Hj]]%lookup_app_Some; [by eapply H4|]. apply list_lookup_singleton_Some in Hj as [_ Hj].
    destruct (lp_conns p !! addr) eqn:E; [|done]. injection Hj as <- <-. by apply H1.
  - destruct Hok as [H1 H2 H3 H4]. intros [= <-]. split; simpl; [done| | |done].
    + intros c a Ha. right. destruct (H2 _ _ Ha) as [Hc|?]; [|set_solver]. apply elem_of_union_r, elem_of_list_to_set.
      rewrite list_elem_of_fmap. exists (a, c). by rewrite elem_of_map_to_list.
    + intros c [?|Hc]%elem_of_union; [by apply H3|]. apply elem_of_list_to_set, list_elem_of_fmap in Hc as ([a c'] & -> & Hc).
      apply elem_of_map_to_list, H1 in Hc as [Hc _]. by eapply lookup_lt_Some.
Qed.

(** However calls interleave, at any time there is at most one open connection per
    address, it is the one in the pool, and a call gets a connection to the address it
    asked for: two calls for one address that have open connections have the same. *)
Theorem pool_single_connection ls p :
  run_labels pool_exec ls NewLeaderConnectionPool = Some p →
  (∀ addr c, lp_dialled p !! c = Some addr → c ∉ lp_closed p → lp_conns p !! addr = Some c) ∧
  (∀ k k' addr c c', lp_calls p !! k = Some (CallDone addr (Some c)) →
     lp_calls p !! k' = Some (CallDone addr (Some c')) → c ∉ lp_closed p → c' ∉ lp_closed p → c = c').
Proof.
  intros Hrun. assert (pool_ok p) as [H1 H2 H3 H4].
  { revert Hrun. apply (run_labels_invariant pool_exec pool_ok); [intros ???; apply pool_ok_exec|]. by split. }
  assert (∀ addr c, lp_dialled p !! c = Some addr → c ∉ lp_closed p → lp_conns p !! addr = Some c) as H.
  { intros addr c Hd Hc. by destruct (H2 _ _ Hd). }
  split; [done|]. intros k k' addr c c' Hk%H4 Hk'%H4 Hc Hc'. apply H in Hk, Hk'; [|done..]. congruence.
Qed.

(** ** Runs *)

Module RaftDemo.
Local Open Scope string_scope.
Local Open Scope Z_scope.

Definition node : settings := ConfigDemo.by_addr.
Definition order : list (Z * string) := ConfigDemo.three.
Definition cluster : ClusterConfig := overrides ConfigDemo.no_env (cluster_of node order order).

(** The network resolves the hosts of the cluster; a cluster that elected its third node,
    as its second node sees it. *)
Definition resolve (bindAddr : string) : option string :=
  if bool_decide (bindAddr = "admin-02:8990") then Some "10.0.0.2:8990"
  else if bool_decide (bindAddr = "admin-03:8990") then Some "10.0.0.3:8990"
  else None.
Definition third : RaftNode := (Node_Start "admin-03:8990" resolve (λ _, true) (mkRaftNode "3" "" "" None false "" false)).1.
Definition polls : list observation :=
  [mkObservation Candidate "" ""; mkObservation Follower "" ""; mkObservation Follower "10.0.0.3:8990" "3"].

Lemma resolve_ipv4 : resolves_ipv4 resolve.
Proof.
  intros bind addr. unfold resolve. destruct (bool_decide _); [|destruct (bool_decide _); [|done]]; intros [= <-].
  - exists 10, 0, 0, 2, 8990. split; [lia|]. vm_compute. reflexivity.
  - exists 10, 0, 0, 3, 8990. split; [lia|]. vm_compute. reflexivity.
Qed.

Lemma polls_see o : o ∈ polls → sees_ipv4_leader o.
Proof.
  intros Ho. repeat (apply elem_of_cons in Ho as [->|Ho]; [try by left|]); [|by apply elem_of_nil in Ho].
  right. exists third. split; [|by vm_compute].
  exists "admin-03:8990", resolve, (λ _, true), (mkRaftNode "3" "" "" None false "" false).
  split; [apply resolve_ipv4|]. vm_compute. reflexivity.
Qed.

(** The third node is taken for node 10; with an IPv6 address it is not seen. *)
Example leader_id_of_an_address : GetLeader (mkObservation Follower "10.0.0.3:8990" "3") = 10.
Proof. vm_compute. reflexivity. Qed.

Lemma ipv6_follower_waits_in_vain_witness :
  let polls := replicate 50 (mkObservation Follower "[fd00::3]:8990" "3") in
  WaitForLeader polls = true ↔ ∃ o, o ∈ polls ∧ ob_State o = Leader.
Proof.
  intros ps. apply ipv6_follower_waits_in_vain. intros o [-> _]%elem_of_replicate. right. exists "fd00::3", 8990.
  vm_compute. reflexivity.
Defined.

Example ipv6_follower_times_out : WaitForLeader (replicate 50 (mkObservation Follower "[fd00::3]:8990" "3")) = false.
Proof. vm_compute. reflexivity. Qed.

Lemma forwarding_port_witness :
  ∃ c cp api, LoadConfig node ConfigDemo.no_env order order = Ok (c, cp, api) ∧
    GetLeaderAddr (mkObservation Follower "admin-03:8990" "3") = "admin-03:8980" ∧ cp_Listen cp = "0.0.0.0:8981".
Proof.
  assert (is_ok (LoadConfig node ConfigDemo.no_env order order) = true) as Hok by (vm_compute; reflexivity).
  destruct (LoadConfig node ConfigDemo.no_env order order) as [[[c cp] api]|e|] eqn:E; [|discriminate..].
  exists c, cp, api. split; [reflexivity|].
  assert (net.plain_host "admin-03" = true) as H1 by (vm_compute; reflexivity).
  assert (net.plain_host "8990" = true) as H2 by (vm_compute; reflexivity).
  destruct (forwarding_port node ConfigDemo.no_env order order c cp api
    (mkObservation Follower "admin-03:8990" "3") "admin-03" "8990" E ltac:(discriminate) H1 H2 eq_refl) as [H3 H4].
  split; [exact H3|exact (H4 eq_refl)].
Defined.

(** Two calls at once: the second finds the connection of the first. *)
Definition pooled : LeaderConnectionPool :=
  mkPool {[ "a" := 0%nat ]} ["a"] ∅ [CallDone "a" (Some 0%nat); CallDone "a" (Some 0%nat)].

Lemma pool_single_connection_witness :
  run_labels pool_exec [PoolGet "a"; PoolGet "a"; PoolDial 1 true; PoolDial 0 true] NewLeaderConnectionPool = Some pooled ∧
  lp_conns pooled !! "a" = Some 0%nat.
Proof.
  assert (run_labels pool_exec [PoolGet "a"; PoolGet "a"; PoolDial 1 true; PoolDial 0 true] NewLeaderConnectionPool
    = Some pooled) as E by (vm_compute; reflexivity).
  split; [exact E|]. apply (pool_single_connection _ _ E); [reflexivity|]. set_solver.
Defined.

Lemma election_counter_counts_ticks_witness :
  me_elections (collect (replicate 3 (mkObservation Leader "x" "1"))
    (mkRaftNode "1" "" "" None true "1" false) (mkRaftMetrics (0, 0, 0) 0 1 None)).2 = 4%nat.
Proof.
  rewrite (proj2 (election_counter_counts_ticks (replicate 3 (mkObservation Leader "x" "1"))
    (mkRaftNode "1" "" "" None true "1" false) (mkRaftMetrics (0, 0, 0) 0 1 None) eq_refl)). reflexivity.
Defined.
End RaftDemo.
