(* ===== verification/AdminStorage.v ===== *)
(** * cmd/prism-admin/storage.go: the SQL storage of the admin

    The tables of the migrations, and each method as what its SQL statement does to
    them, constraints included.  A statement may fail before it takes effect or after
    it ([fault]).  [CURRENT_TIMESTAMP] is the clock of the call; stored times are
    compared as times.  Foreign keys are checked on connections on which the pragma
    was run: [NewStorage] runs it on one connection of the pool, so whether the
    connection of a call checks them is an argument.

    Re-encoding a [json.RawMessage] (validated and compacted by [json.Marshal]) is a
    parameter. *)

From S2P Require Import Prelude.
Local Open Scope Z_scope.

(** ** Rows *)

Record NamespaceRow := mkNamespaceRow {
  nsr_ID : Z;
  nsr_Name : string;
  nsr_Description : string;
  nsr_CreatedAt : Z;
  nsr_UpdatedAt : Z;
  nsr_Metadata : string }.

Record ProxyRow := mkProxyRow {
  pxr_ID : Z;
  pxr_ProxyID : string;
  pxr_Address : string;
  pxr_Version : string;
  pxr_Status : string;
  pxr_LastSeen : option Z;
  pxr_CreatedAt : Z;
  pxr_UpdatedAt : Z;
  pxr_Metadata : string }.

Record LauncherRow := mkLauncherRow {
  lnr_ID : Z;
  lnr_LauncherID : string;
  lnr_Address : string;
  lnr_Region : string;
  lnr_Version : string;
  lnr_Status : string;
  lnr_MaxProcesses : Z;
  lnr_AvailableSlots : Z;
  lnr_Capabilities : string;
  lnr_LastSeen : option Z;
  lnr_CreatedAt : Z;
  lnr_UpdatedAt : Z;
  lnr_Metadata : string }.

Record PatternRow := mkPatternRow {
  ptr_ID : Z;
  ptr_PatternID : string;
  ptr_PatternType : string;
  ptr_ProxyID : string;
  ptr_Namespace : string;
  ptr_Status : string;
  ptr_Config : string;
  ptr_CreatedAt : Z;
  ptr_UpdatedAt : Z }.

Record AuditLog := mkAuditLog {
  al_ID : Z;
  al_Timestamp : Z;
  al_User : string;
  al_Action : string;
  al_ResourceType : string;
  al_ResourceID : string;
  al_Namespace : string;
  al_Method : string;
  al_Path : string;
  al_StatusCode : Z;
  al_RequestBody : string;
  al_ResponseBody : string;
  al_Error : string;
  al_DurationMs : Z;
  al_ClientIP : string;
  al_UserAgent : string }.

(** The tables in the order of their ids, and the next id of each. *)
Record Storage := mkStorage {
  s_namespaces : list NamespaceRow;
  s_proxies : list ProxyRow;
  s_launchers : list LauncherRow;
  s_patterns : list PatternRow;
  s_audit : list AuditLog;
  s_next_namespace : Z;
  s_next_proxy : Z;
  s_next_launcher : Z;
  s_next_pattern : Z;
  s_next_audit : Z }.

(** The tables after the migrations. *)
Definition empty_storage : Storage := mkStorage [] [] [] [] [] 1 1 1 1 1.

(** ** Configuration *)

Record DatabaseConfig := mkDatabaseConfig { dc_Type : string; dc_Path : string; dc_URN : string }.

Definition has_prefix (p s : string) : bool :=
  bool_decide (String.substring 0 (String.length p) s = p).
Definition trim_prefix (p s : string) : string :=
  if has_prefix p s then
    String.substring (String.length p) (String.length s - String.length p) s
  else s.

(** [None]: an unsupported URN.  [home]: the path below the home directory, when it can
    be had and made. *)
Definition ParseDatabaseURN (home : option string) (urn : string) : option DatabaseConfig :=
  if bool_decide (urn = ""%string) then
    Some (mkDatabaseConfig "sqlite" (default "./prism-admin.db"%string home) "")
  else if has_prefix "sqlite://" urn then
    Some (mkDatabaseConfig "sqlite" (trim_prefix "sqlite://" urn) "")
  else if has_prefix "postgres" urn then Some (mkDatabaseConfig "postgresql" "" urn)
  else None.

(** [opened]: directory, database, pragmas and migrations. *)
Definition NewStorage (cfg : DatabaseConfig) (opened : bool) : option Storage :=
  if bool_decide (dc_Type cfg = "sqlite"%string) then
    if opened then Some empty_storage else None
  else None.

(** ** Statements *)

Inductive fault := NoFault | Before | After.

(** A statement that has no error of its own: the tables afterwards, and whether the
    method returned no error. *)
Definition run {S} (f : fault) (s s' : S) : S * bool :=
  match f with NoFault => (s', true) | Before => (s, false) | After => (s', false) end.

Inductive query_error := ErrNotFound | ErrQueryFailed.

Section Storage.
Context (compact : string → option string).

(** [json.Marshal] of a [json.RawMessage], whose error is ignored. *)
Definition raw_json (raw : option string) : string :=
  match raw with
  | None => "null"
  | Some s => default ""%string (compact s)
  end.
(** The column back to a [json.RawMessage]. *)
Definition json_raw (column : string) : option string :=
  if bool_decide (column = ""%string) then None else Some column.

Definition set_namespaces (l : list NamespaceRow) (next : Z) (s : Storage) : Storage :=
  mkStorage l (s_proxies s) (s_launchers s) (s_patterns s) (s_audit s) next (s_next_proxy s)
    (s_next_launcher s) (s_next_pattern s) (s_next_audit s).
Definition set_proxies (l : list ProxyRow) (next : Z) (s : Storage) : Storage :=
  mkStorage (s_namespaces s) l (s_launchers s) (s_patterns s) (s_audit s) (s_next_namespace s) next
    (s_next_launcher s) (s_next_pattern s) (s_next_audit s).
Definition set_launchers (l : list LauncherRow) (next : Z) (s : Storage) : Storage :=
  mkStorage (s_namespaces s) (s_proxies s) l (s_patterns s) (s_audit s) (s_next_namespace s)
    (s_next_proxy s) next (s_next_pattern s) (s_next_audit s).
Definition set_patterns (l : list PatternRow) (next : Z) (s : Storage) : Storage :=
  mkStorage (s_namespaces s) (s_proxies s) (s_launchers s) l (s_audit s) (s_next_namespace s)
    (s_next_proxy s) (s_next_launcher s) next (s_next_audit s).
Definition set_audit (l : list AuditLog) (next : Z) (s : Storage) : Storage :=
  mkStorage (s_namespaces s) (s_proxies s) (s_launchers s) (s_patterns s) l (s_next_namespace s)
    (s_next_proxy s) (s_next_launcher s) (s_next_pattern s) next.

(** [ORDER BY t DESC] on a column without NULL. *)
Definition desc {A} (t : A → Z) (a b : A) : Prop := t b ≤ t a.
#[global] Instance desc_dec {A} (t : A → Z) a b : Decision (desc t a b) := decide (t b ≤ t a).

(** *** Namespaces *)

(** The name is UNIQUE. *)
Definition Storage_CreateNamespace (f : fault) (now : Z) (name description : string)
    (metadata : option string) (s : Storage) : Storage * bool :=
  if bool_decide (name ∈ (nsr_Name <$> s_namespaces s)) then (s, false)
  else
    let row := mkNamespaceRow (s_next_namespace s) name description now now (raw_json metadata) in
    run f s (set_namespaces (s_namespaces s ++ [row]) (s_next_namespace s + 1) s).

Definition find_row {A} (key : A → string) (k : string) (rows : list A) : option A :=
  head (filter (λ r, key r = k) rows).

Definition get_row {A} (up : bool) (key : A → string) (k : string) (rows : list A)
    : result query_error A :=
  if negb up then Err ErrQueryFailed
  else match find_row key k rows with Some r => Ok r | None => Err ErrNotFound end.

Definition Storage_GetNamespace (up : bool) (name : string) (s : Storage)
    : result query_error NamespaceRow :=
  get_row up nsr_Name name (s_namespaces s).

(** [ORDER BY name]. *)
Definition ListNamespaces (up : bool) (s : Storage) : option (list NamespaceRow) :=
  if up then Some (merge_sort (λ a b, String.le (nsr_Name a) (nsr_Name b)) (s_namespaces s)) else None.

(** *** Proxies *)

(** [INSERT ... ON CONFLICT(key) DO UPDATE]: replace the row of the key, or append. *)
Fixpoint upsert {A} (key : A → string) (k : string) (update : A → A) (rows : list A) : option (list A) :=
  match rows with
  | [] => None
  | r :: rows =>
      if bool_decide (key r = k) then Some (update r :: rows)
      else cons r <$> upsert key k update rows
  end.

(** The rows afterwards, and whether one was inserted. *)
Definition upsert_rows {A} (key : A → string) (k : string) (update : A → A) (new : A) (rows : list A)
    : list A * bool :=
  match upsert key k update rows with
  | Some rows => (rows, false)
  | None => (rows ++ [new], true)
  end.

(** The CHECK of the column [status]. *)
Definition status_ok (status : string) : bool :=
  bool_decide (status ∈ ["healthy"; "unhealthy"; "unknown"]%string).

Definition UpsertProxy (f : fault) (now : Z) (proxyID address version status : string)
    (lastSeen : option Z) (metadata : option string) (s : Storage) : Storage * bool :=
  if negb (status_ok status) then (s, false)
  else
    let row id created :=
      mkProxyRow id proxyID address version status lastSeen created now (raw_json metadata) in
    let '(rows, inserted) :=
      upsert_rows pxr_ProxyID proxyID (λ r, row (pxr_ID r) (pxr_CreatedAt r))
        (row (s_next_proxy s) now) (s_proxies s) in
    run f s (set_proxies rows (if inserted then s_next_proxy s + 1 else s_next_proxy s) s).

Definition Storage_GetProxy (up : bool) (proxyID : string) (s : Storage) : result query_error ProxyRow :=
  get_row up pxr_ProxyID proxyID (s_proxies s).

(** [ORDER BY last_seen DESC]: NULL is the smallest value. *)
Definition seen_before (a b : option Z) : Prop :=
  match b, a with
  | None, _ => True
  | Some _, None => False
  | Some tb, Some ta => tb ≤ ta
  end.
#[global] Instance seen_before_dec a b : Decision (seen_before a b).
Proof. destruct a, b; simpl; apply _. Defined.

Definition ListProxies (up : bool) (s : Storage) : option (list ProxyRow) :=
  if up then Some (merge_sort (λ a b, seen_before (pxr_LastSeen a) (pxr_LastSeen b)) (s_proxies s))
  else None.

(** *** Launchers *)

Definition UpsertLauncher (f : fault) (now : Z) (launcherID address region version status : string)
    (maxProcesses availableSlots : Z) (capabilities : option string) (lastSeen : option Z)
    (metadata : option string) (s : Storage) : Storage * bool :=
  if negb (status_ok status) then (s, false)
  else
    let row id created :=
      mkLauncherRow id launcherID address region version status maxProcesses availableSlots
        (raw_json capabilities) lastSeen created now (raw_json metadata) in
    let '(rows, inserted) :=
      upsert_rows lnr_LauncherID launcherID (λ r, row (lnr_ID r) (lnr_CreatedAt r))
        (row (s_next_launcher s) now) (s_launchers s) in
    run f s (set_launchers rows (if inserted then s_next_launcher s + 1 else s_next_launcher s) s).

Definition GetLauncher (up : bool) (launcherID : string) (s : Storage)
    : result query_error LauncherRow :=
  get_row up lnr_LauncherID launcherID (s_launchers s).

Definition ListLaunchers (up : bool) (s : Storage) : option (list LauncherRow) :=
  if up then Some (merge_sort (λ a b, seen_before (lnr_LastSeen a) (lnr_LastSeen b)) (s_launchers s))
  else None.

(** *** Patterns *)

(** [fk]: the connection checks foreign keys. *)
Definition CreatePattern (f : fault) (fk : bool) (now : Z)
    (patternID patternType proxyID namespace status : string) (config : option string) (s : Storage)
    : Storage * bool :=
  if negb (bool_decide (status ∈ ["active"; "stopped"; "error"]%string)) then (s, false)
  else if fk && negb (bool_decide (proxyID ∈ (pxr_ProxyID <$> s_proxies s)) &&
                      bool_decide (namespace ∈ (nsr_Name <$> s_namespaces s))) then (s, false)
  else
    let row := mkPatternRow (s_next_pattern s) patternID patternType proxyID namespace status
                 (raw_json config) now now in
    run f s (set_patterns (s_patterns s ++ [row]) (s_next_pattern s + 1) s).

Definition ListPatternsByNamespace (up : bool) (namespace : string) (s : Storage)
    : option (list PatternRow) :=
  if up then
    Some (merge_sort (desc ptr_CreatedAt)
            (filter (λ p, ptr_Namespace p = namespace) (s_patterns s)))
  else None.

(** *** Audit log *)

Definition LogAudit (f : fault) (log : AuditLog) (request response : option string) (s : Storage)
    : Storage * bool :=
  let row := mkAuditLog (s_next_audit s) (al_Timestamp log) (al_User log) (al_Action log)
               (al_ResourceType log) (al_ResourceID log) (al_Namespace log) (al_Method log)
               (al_Path log) (al_StatusCode log) (raw_json request) (raw_json response)
               (al_Error log) (al_DurationMs log) (al_ClientIP log) (al_UserAgent log) in
  run f s (set_audit (s_audit s ++ [row]) (s_next_audit s + 1) s).

(** A zero time is no bound. *)
Record AuditQueryOptions := mkAuditQueryOptions {
  aq_Namespace : string;
  aq_User : string;
  aq_StartTime : Z;
  aq_EndTime : Z;
  aq_Limit : Z }.

(** The conditions that the query collects. *)
Definition audit_conditions (opts : AuditQueryOptions) : list (AuditLog → bool) :=
  (if bool_decide (aq_Namespace opts = ""%string) then []
   else [λ l, bool_decide (al_Namespace l = aq_Namespace opts)]) ++
  (if bool_decide (aq_User opts = ""%string) then []
   else [λ l, bool_decide (al_User l = aq_User opts)]) ++
  (if IsZero (aq_StartTime opts) then [] else [λ l, aq_StartTime opts <=? al_Timestamp l]) ++
  (if IsZero (aq_EndTime opts) then [] else [λ l, al_Timestamp l <=? aq_EndTime opts]).

Definition QueryAuditLogs (up : bool) (opts : AuditQueryOptions) (s : Storage) : option (list AuditLog) :=
  if negb up then None
  else
    let rows := filter (λ l, forallb (λ c, c l) (audit_conditions opts) = true) (s_audit s) in
    let rows := merge_sort (desc al_Timestamp) rows in
    Some (if 0 <? aq_Limit opts then take (Z.to_nat (aq_Limit opts)) rows else rows).
End Storage.
