(* ===== verification/AdminStorageSpec.v ===== *)
(** * Correctness of the admin's storage

    The tables keep their keys and references in every history of calls; an upsert
    changes one row, whose id and creation time stay; queries return what they ask
    for. *)

From S2P Require Import Prelude AdminStorage.
Local Open Scope Z_scope.

(** ** Rows and keys *)

Section Rows.
Context {A : Type} (key : A → string).

Lemma find_row_Some k rows r :
  find_row key k rows = Some r → r ∈ rows ∧ key r = k.
Proof.
  unfold find_row. intros H. apply head_Some_elem_of in H.
  by apply list_elem_of_filter in H as [? ?].
Qed.

Lemma find_row_None k rows : find_row key k rows = None ↔ k ∉ (key <$> rows).
Proof.
  unfold find_row. rewrite list_elem_of_fmap. split.
  - intros H%head_None (r & -> & Hr). by eapply filter_nil_not_elem_of.
  - intros H. apply head_None. induction rows as [|r rows IH]; [done|].
    rewrite filter_cons_False; [apply IH; intros (r' & ? & ?); apply H; exists r'; split; [done|by right]|].
    intros <-. apply H. exists r. split; [done|by left].
Qed.

Lemma find_row_app k rows r :
  find_row key k (rows ++ [r]) =
    match find_row key k rows with
    | Some r' => Some r'
    | None => if bool_decide (key r = k) then Some r else None
    end.
Proof.
  unfold find_row. rewrite filter_app, filter_cons, filter_nil.
  destruct (filter (λ r, key r = k) rows); [simpl|done]. by destruct (decide (key r = k)); case_bool_decide.
Qed.

(** An update that keeps the key. *)
Lemma upsert_None k update rows : upsert key k update rows = None ↔ k ∉ (key <$> rows).
Proof.
  induction rows as [|r rows IH]; simpl; [by split; [intros _ ?%elem_of_nil|]|].
  rewrite not_elem_of_cons.
  case_bool_decide as Hk; [by split; [|intros []]|].
  destruct (upsert key k update rows); simpl; split; [done| | |done].
  - intros [_ H]. by apply IH in H.
  - intros _. split; [done|by apply IH].
Qed.

Lemma upsert_keys k update rows rows' :
  (∀ r, key (update r) = k) → upsert key k update rows = Some rows' →
  key <$> rows' = key <$> rows.
Proof.
  intros Hu. revert rows'. induction rows as [|r rows IH]; intros rows'; simpl; [done|].
  case_bool_decide as Hk.
  - intros [= <-]. simpl. by rewrite Hu, Hk.
  - intros (rs & Hrs & ->)%fmap_Some. simpl. f_equal. by apply IH.
Qed.

Lemma upsert_find k update rows rows' k' :
  (∀ r, key (update r) = k) → upsert key k update rows = Some rows' →
  find_row key k' rows' =
    if bool_decide (k' = k) then update <$> find_row key k rows else find_row key k' rows.
Proof.
  intros Hu. unfold find_row. revert rows'.
  induction rows as [|r rows IH]; intros rows'; cbn [upsert]; [done|].
  rewrite !filter_cons. destruct (decide (key r = k)) as [Hk|Hk].
  - rewrite (bool_decide_eq_true_2 (key r = k) Hk). intros [= <-]. rewrite filter_cons, Hu. subst k.
    case_bool_decide as Hk'; [by rewrite decide_True by done|].
    by rewrite !(decide_False (P := key r = k')) by congruence.
  - rewrite (bool_decide_eq_false_2 (key r = k) Hk). intros (rs & Hrs & ->)%fmap_Some.
    rewrite filter_cons. specialize (IH rs Hrs).
    destruct (decide (key r = k')) as [<-|Hne]; [by rewrite bool_decide_eq_false_2|done].
Qed.

(** Both outcomes of an upsert. *)
Lemma upsert_rows_keys k update new rows rows' b :
  (∀ r, key (update r) = k) → key new = k → upsert_rows key k update new rows = (rows', b) →
  NoDup (key <$> rows) → NoDup (key <$> rows') ∧ (∀ k', k' ∈ (key <$> rows) → k' ∈ (key <$> rows')).
Proof.
  intros Hu Hn. unfold upsert_rows. destruct (upsert key k update rows) as [rs|] eqn:E; intros [= <- <-] Hnd.
  - by rewrite (upsert_keys _ _ _ _ Hu E).
  - apply upsert_None in E. rewrite fmap_app. simpl. rewrite Hn. split.
    + apply NoDup_app. split_and!; [done| |apply NoDup_singleton].
      by intros y Hy ->%list_elem_of_singleton.
    + intros k' Hk'. apply elem_of_app. by left.
Qed.

Lemma upsert_rows_find k update new rows rows' b k' :
  (∀ r, key (update r) = k) → key new = k → upsert_rows key k update new rows = (rows', b) →
  find_row key k' rows' =
    if bool_decide (k' = k)
    then Some (match find_row key k rows with Some r => update r | None => new end)
    else find_row key k' rows.
Proof.
  intros Hu Hn. unfold upsert_rows. destruct (upsert key k update rows) as [rs|] eqn:E; intros [= <- <-].
  - rewrite (upsert_find _ _ _ _ k' Hu E). case_bool_decide; [|done].
    destruct (find_row key k rows) as [r|] eqn:Ef; [done|]. apply find_row_None in Ef.
    by apply (upsert_None k update) in Ef; rewrite E in Ef.
  - apply upsert_None, find_row_None in E. rewrite find_row_app, Hn.
    destruct (decide (k' = k)) as [->|Hk]; [by rewrite E, bool_decide_eq_true_2|].
    rewrite !bool_decide_eq_false_2 by congruence. by destruct (find_row key k' rows).
Qed.
End Rows.

Section Spec.
Context (compact : string → option string).

(** ** Invariant *)

(** The keys are unique; the ids are those given out so far, in order. *)
Record storage_ok (s : Storage) : Prop := {
  so_namespaces : NoDup (nsr_Name <$> s_namespaces s);
  so_proxies : NoDup (pxr_ProxyID <$> s_proxies s);
  so_launchers : NoDup (lnr_LauncherID <$> s_launchers s) }.

(** Every pattern belongs to a proxy and a namespace that are in the tables. *)
Definition references_ok (s : Storage) : Prop :=
  Forall (λ p, ptr_ProxyID p ∈ (pxr_ProxyID <$> s_proxies s) ∧
               ptr_Namespace p ∈ (nsr_Name <$> s_namespaces s)) (s_patterns s).

(** The calls that write. *)
Inductive call :=
  | CNamespace (f : fault) (now : Z) (name description : string) (metadata : option string)
  | CProxy (f : fault) (now : Z) (proxyID address version status : string) (lastSeen : option Z)
      (metadata : option string)
  | CLauncher (f : fault) (now : Z) (launcherID address region version status : string)
      (maxProcesses availableSlots : Z) (capabilities : option string) (lastSeen : option Z)
      (metadata : option string)
  | CPattern (f : fault) (fk : bool) (now : Z)
      (patternID patternType proxyID namespace status : string) (config : option string)
  | CAudit (f : fault) (log : AuditLog) (request response : option string).

Definition exec_call (c : call) (s : Storage) : Storage * bool :=
  match c with
  | CNamespace f now name d md => Storage_CreateNamespace compact f now name d md s
  | CProxy f now id a v st seen md => UpsertProxy compact f now id a v st seen md s
  | CLauncher f now id a r v st mx av caps seen md =>
      UpsertLauncher compact f now id a r v st mx av caps seen md s
  | CPattern f fk now id ty px ns st cfg => CreatePattern compact f fk now id ty px ns st cfg s
  | CAudit f log rq rs => LogAudit compact f log rq rs s
  end.

(** Every call that adds a pattern does so on a connection that checks foreign keys. *)
Definition checked (c : call) : Prop := match c with CPattern _ fk _ _ _ _ _ _ _ => fk = true | _ => True end.

Lemma run_either {S} (P : S → Prop) f s s' : P s → P s' → P (run f s s').1.
Proof. by destruct f. Qed.

Lemma NoDup_app_fresh {A} (l : list A) x : NoDup l → x ∉ l → NoDup (l ++ [x]).
Proof.
  intros Hl Hx. apply NoDup_app. split_and!; [done| |apply NoDup_singleton].
  by intros y Hy ->%list_elem_of_singleton.
Qed.

Lemma storage_ok_call c s : storage_ok s → storage_ok (exec_call c s).1.
Proof.
  intros Hok. pose proof Hok as [H1 H2 H3]. destruct c; simpl.
  - unfold Storage_CreateNamespace. case_bool_decide as Hn; [done|].
    apply run_either; [done|].
    split; simpl; try done. rewrite fmap_app. by apply NoDup_app_fresh.
  - unfold UpsertProxy. case_match; [done|]. destruct (upsert_rows _ _ _ _ _) as [rows b] eqn:E.
    apply run_either; [done|]. split; simpl; try done.
    by eapply upsert_rows_keys in E as [? _].
  - unfold UpsertLauncher. case_match; [done|]. destruct (upsert_rows _ _ _ _ _) as [rows b] eqn:E.
    apply run_either; [done|]. split; simpl; try done.
    by eapply upsert_rows_keys in E as [? _].
  - unfold CreatePattern. do 2 (case_match; [done|]). by apply run_either.
  - unfold LogAudit. by apply run_either.
Qed.

(** The keys that a pattern can refer to stay. *)
Definition keys_stay (s s' : Storage) : Prop :=
  (∀ k, k ∈ (pxr_ProxyID <$> s_proxies s) → k ∈ (pxr_ProxyID <$> s_proxies s')) ∧
  (∀ k, k ∈ (nsr_Name <$> s_namespaces s) → k ∈ (nsr_Name <$> s_namespaces s')).

Lemma references_mono s s' :
  keys_stay s s' → s_patterns s' = s_patterns s → references_ok s → references_ok s'.
Proof.
  intros [K1 K2] E. unfold references_ok. rewrite E. intros H. eapply Forall_impl; [exact H|]. intros p [? ?]. auto.
Qed.

Lemma references_ok_call c s :
  storage_ok s → references_ok s → checked c → references_ok (exec_call c s).1.
Proof.
  intros Hok Hr Hc. pose proof Hok as [H1 H2 H3]. destruct c; simpl in *.
  - unfold Storage_CreateNamespace. case_bool_decide as Hn; [done|].
    apply run_either; [done|]. apply (references_mono s); [|done|done].
    split; [done|]. simpl. intros k Hk. rewrite fmap_app. apply elem_of_app. by left.
  - unfold UpsertProxy. case_match; [done|]. destruct (upsert_rows _ _ _ _ _) as [rows b] eqn:E.
    apply run_either; [done|]. apply (references_mono s); [|done|done].
    split; [|done]. by eapply upsert_rows_keys in E as [_ ?].
  - unfold UpsertLauncher. case_match; [done|]. destruct (upsert_rows _ _ _ _ _) as [rows b].
    by apply run_either.
  - subst fk. unfold CreatePattern. case_match; [done|]. simpl.
    case_match eqn:Hfk; [done|]. bool_to_prop. apply run_either; [done|].
    unfold references_ok in *. simpl. apply Forall_app. split; [done|]. constructor; [|constructor]. by split.
  - unfold LogAudit. by apply run_either.
Qed.

Definition exec_calls (cs : list call) (s : Storage) : Storage :=
  foldl (λ s c, (exec_call c s).1) s cs.

Lemma exec_calls_ok cs s : storage_ok s → storage_ok (exec_calls cs s).
Proof.
  unfold exec_calls. revert s. induction cs as [|c cs IH]; intros s Hs; [done|].
  simpl. by apply IH, storage_ok_call.
Qed.

Lemma exec_calls_references cs s :
  storage_ok s → references_ok s → Forall checked cs → references_ok (exec_calls cs s).
Proof.
  unfold exec_calls. intros Hs Hr Hc. revert s Hs Hr. induction Hc as [|c cs Hc _ IH]; intros s Hs Hr; [done|].
  simpl. apply IH; [by apply storage_ok_call|by apply references_ok_call].
Qed.

(** The storage keeps its keys and references: after any history of calls, failing
    ones included, names, proxy ids and launcher ids are unique, and when every pattern
    was created on a connection that checks foreign keys, its proxy and its namespace
    are in the tables. *)
Theorem storage_invariant cs :
  storage_ok (exec_calls cs empty_storage) ∧
  (Forall checked cs → references_ok (exec_calls cs empty_storage)).
Proof.
  assert (storage_ok empty_storage) as H0 by (split; constructor).
  split; [by apply exec_calls_ok|]. apply exec_calls_references; [done|constructor].
Qed.

(** ** Upserts *)

Lemma UpsertProxy_get now id a v st seen md s k :
  status_ok st = true →
  let s' := (UpsertProxy compact NoFault now id a v st seen md s).1 in
  find_row pxr_ProxyID k (s_proxies s') =
    if bool_decide (k = id) then
      let old := find_row pxr_ProxyID id (s_proxies s) in
      Some (mkProxyRow (from_option pxr_ID (s_next_proxy s) old) id a v st seen
              (from_option pxr_CreatedAt now old) now (raw_json compact md))
    else find_row pxr_ProxyID k (s_proxies s).
Proof.
  intros Hst. cbv zeta. unfold UpsertProxy. rewrite Hst. cbn [negb].
  destruct (upsert_rows _ _ _ _ _) as [rows b] eqn:E. cbn [run fst set_proxies s_proxies].
  eapply (upsert_rows_find _ _ _ _ _ _ _ k) in E; [|done|done]. rewrite E.
  case_bool_decide; [|done]. by destruct (find_row pxr_ProxyID id (s_proxies s)).
Qed.

Lemma UpsertLauncher_get now id a rg v st mx av caps seen md s k :
  status_ok st = true →
  let s' := (UpsertLauncher compact NoFault now id a rg v st mx av caps seen md s).1 in
  find_row lnr_LauncherID k (s_launchers s') =
    if bool_decide (k = id) then
      let old := find_row lnr_LauncherID id (s_launchers s) in
      Some (mkLauncherRow (from_option lnr_ID (s_next_launcher s) old) id a rg v st mx av
              (raw_json compact caps) seen (from_option lnr_CreatedAt now old) now (raw_json compact md))
    else find_row lnr_LauncherID k (s_launchers s).
Proof.
  intros Hst. cbv zeta. unfold UpsertLauncher. rewrite Hst. cbn [negb].
  destruct (upsert_rows _ _ _ _ _) as [rows b] eqn:E. cbn [run fst set_launchers s_launchers].
  eapply (upsert_rows_find _ _ _ _ _ _ _ k) in E; [|done|done]. rewrite E.
  case_bool_decide; [|done]. by destruct (find_row lnr_LauncherID id (s_launchers s)).
Qed.

(** An upsert of a proxy is a map update: afterwards the proxy is answered with
    the new values under the id and creation time of its old row, if it had one, every
    other proxy is answered as before, and the same call again changes nothing but the
    time of the update. *)
Theorem UpsertProxy_correct now id a v st seen md s k :
  status_ok st = true →
  let s' := (UpsertProxy compact NoFault now id a v st seen md s).1 in
  Storage_GetProxy true k s' =
    (if bool_decide (k = id) then
       let old := find_row pxr_ProxyID id (s_proxies s) in
       Ok (mkProxyRow (from_option pxr_ID (s_next_proxy s) old) id a v st seen
             (from_option pxr_CreatedAt now old) now (raw_json compact md))
     else Storage_GetProxy true k s) ∧
  ∀ k', Storage_GetProxy true k' (UpsertProxy compact NoFault now id a v st seen md s').1 =
        Storage_GetProxy true k' s'.
Proof.
  intros Hst s'. split.
  - unfold Storage_GetProxy, get_row. subst s'. rewrite UpsertProxy_get by done. cbn [negb].
    by case_bool_decide.
  - intros k'. unfold Storage_GetProxy, get_row. cbn [negb]. rewrite UpsertProxy_get by done.
    case_bool_decide as Hk; [|done]. subst k'.
    assert (is_Some (find_row pxr_ProxyID id (s_proxies s'))) as [r Hr].
    { subst s'. rewrite UpsertProxy_get, bool_decide_eq_true_2 by done. by eexists. }
    rewrite Hr. subst s'. rewrite UpsertProxy_get, bool_decide_eq_true_2 in Hr by done. by injection Hr as <-.
Qed.

(** ** The audit log *)

Definition audit_match (opts : AuditQueryOptions) (l : AuditLog) : Prop :=
  (aq_Namespace opts = ""%string ∨ al_Namespace l = aq_Namespace opts) ∧
  (aq_User opts = ""%string ∨ al_User l = aq_User opts) ∧
  (aq_StartTime opts = 0 ∨ aq_StartTime opts ≤ al_Timestamp l) ∧
  (aq_EndTime opts = 0 ∨ al_Timestamp l ≤ aq_EndTime opts).

Lemma audit_conditions_match opts l :
  forallb (λ c, c l) (audit_conditions opts) = true ↔ audit_match opts l.
Proof.
  unfold audit_conditions, audit_match. rewrite !forallb_app, !andb_true_iff.
  assert (∀ (P : Prop) (b : bool) (c : AuditLog → bool) (R : Prop),
    (b = true ↔ P) → (c l = true ↔ R) →
    (forallb (λ c, c l) (if b then [] else [c]) = true ↔ P ∨ R)) as Hone.
  { intros P b c R Hb Hc. destruct b; simpl; rewrite ?andb_true_r.
    - split; [by left; apply Hb|done].
    - rewrite Hc. split; [by right|]. by intros [HP%Hb|HR]. }
  rewrite (Hone (aq_Namespace opts = ""%string) _ _ (al_Namespace l = aq_Namespace opts))
    by by rewrite bool_decide_eq_true.
  rewrite (Hone (aq_User opts = ""%string) _ _ (al_User l = aq_User opts)) by by rewrite bool_decide_eq_true.
  rewrite (Hone (aq_StartTime opts = 0) _ _ (aq_StartTime opts ≤ al_Timestamp l));
    [|apply IsZero_true|apply Z.leb_le].
  rewrite (Hone (aq_EndTime opts = 0) _ _ (al_Timestamp l ≤ aq_EndTime opts));
    [|apply IsZero_true|apply Z.leb_le]. done.
Qed.

#[global] Instance desc_total {A} (t : A → Z) : Total (desc t).
Proof. intros a b. unfold desc. lia. Qed.
#[global] Instance desc_trans {A} (t : A → Z) : Transitive (desc t).
Proof. intros a b c. unfold desc. lia. Qed.

(** A query of the audit log returns the entries that match every option that is
    set, latest first, and at most as many as the limit when there is one. *)
Theorem QueryAuditLogs_correct opts s :
  ∃ l, QueryAuditLogs true opts s = Some (if 0 <? aq_Limit opts then take (Z.to_nat (aq_Limit opts)) l else l) ∧
    StronglySorted (desc al_Timestamp) l ∧
    (∀ e, e ∈ l ↔ e ∈ s_audit s ∧ audit_match opts e).
Proof.
  eexists. split; [reflexivity|]. split; [apply (StronglySorted_merge_sort (desc al_Timestamp))|].
  intros e. rewrite merge_sort_Permutation, list_elem_of_filter, audit_conditions_match. tauto.
Qed.
End Spec.

(** ** Runs *)

Module StorageDemo.
(** JSON that needs no compaction. *)
Definition compact (s : string) : option string := Some s.
Definition calls : list call :=
  [CNamespace NoFault 1 "a" "" None; CProxy After 2 "p" "host" "v1" "healthy" (Some 2) None;
   CPattern NoFault true 3 "x" "kv" "p" "a" "active" None;
   CPattern NoFault true 4 "y" "kv" "q" "a" "active" None;
   CNamespace NoFault 5 "a" "again" None].

Lemma storage_invariant_witness :
  storage_ok (exec_calls compact calls empty_storage) ∧
  references_ok (exec_calls compact calls empty_storage).
Proof.
  destruct (storage_invariant compact calls) as [H1 H2]. split; [exact H1|]. apply H2. by repeat constructor.
Defined.

(** The pattern of an unknown proxy is refused, unless the connection does not check. *)
Example dangling_pattern :
  length (s_patterns (exec_calls compact calls empty_storage)) = 1%nat ∧
  ~ references_ok (exec_calls compact [CPattern NoFault false 4 "y" "kv" "q" "a" "active" None] empty_storage).
Proof.
  split; [done|]. intros H. apply Forall_cons in H as [[H _] _]. by apply elem_of_nil in H.
Qed.

Lemma UpsertProxy_correct_witness :
  let s := exec_calls compact calls empty_storage in
  Storage_GetProxy true "p" (UpsertProxy compact NoFault 9 "p" "new" "v2" "unknown" (Some 9) None s).1 =
    Ok (mkProxyRow 1 "p" "new" "v2" "unknown" (Some 9) 2 9 "null").
Proof.
  refine (proj1 (UpsertProxy_correct compact 9 "p" "new" "v2" "unknown" (Some 9) None
                   (exec_calls compact calls empty_storage) "p" _)).
  reflexivity.
Defined.

Example urns :
  dc_Path <$> ParseDatabaseURN None "sqlite:///var/admin.db" = Some "/var/admin.db"%string ∧
  dc_Type <$> ParseDatabaseURN None "postgresfoo" = Some "postgresql"%string ∧
  ParseDatabaseURN None "mysql://x" = None ∧
  (ParseDatabaseURN None "postgresql://x" ≫= λ cfg, NewStorage cfg true) = None.
Proof. vm_compute. done. Qed.
End StorageDemo.
