(* ===== verification/AdminServe.v ===== *)
(** * cmd/prism-admin/serve.go: the control plane server

    [runServe] puts the parts of prism-admin together: configuration, storage, Raft node,
    control plane, listener and metrics server, and takes them down again.  What the
    operating system, the consensus library and the servers answer is in [serve_env]; the
    acquisitions and releases are recorded in order.  What is printed on the way is left
    out, the banner's values excepted.
    The module [Forward] has the consistency levels and the forwarding of heartbeats of
    control_plane_raft.go. *)

From Stdlib Require Import Ascii.
From stdpp Require Import pretty.
From S2P Require Import Prelude GoStrings AdminTypes AdminConfig AdminRaft AdminStorage.
Local Open Scope Z_scope.

(** What ends the main select. *)
Inductive serve_end := OnSignal | OnServeError.

Record serve_env := mkServeEnv {
  se_settings : settings;
  se_vars : string → string;
  se_order : list (Z * string);        (* iterations over the peers *)
  se_order' : list (Z * string);
  se_db : string;                      (* storage.db *)
  se_home : option string;
  se_opened : bool;                    (* the database opens and migrates *)
  se_mkdir : bool;                     (* the data directory *)
  se_resolve : string → option string; (* the name service *)
  se_steps : start_step → bool;        (* the steps of the Raft node's start *)
  se_boot_order : list (Z * string);
  se_boot : list (string * string) → bootstrap_outcome;
  se_polls : list observation;         (* what is seen while waiting for a leader *)
  se_role : observation;               (* what is seen afterwards *)
  se_listen : bool;
  se_metrics_port : Z;                 (* server.metrics_port *)
  se_shutdown : bool;                  (* the Raft node shuts down *)
  se_end : serve_end }.

Inductive serve_error :=
  | ErrConfig (e : config_error)
  | ErrConfigPanic
  | ErrDatabaseURN
  | ErrStorage
  | ErrRaftNode
  | ErrRaftStart (s : start_step)
  | ErrBootstrap
  | ErrBootstrapPanic
  | ErrLeaderTimeout
  | ErrListen (addr : string)
  | ErrServe.

Inductive serve_act :=
  | OpenStorage (cfg : DatabaseConfig)
  | CloseStorage
  | StartRaft (id bindAddr : string)
  | StopRaft
  | BootstrapCluster (servers : list (string * string))
  | Listening (addr : string)
  | MetricsUp (addr : string)
  | Banner (role : option Z) (single : bool)  (* [None]: the leader *)
  | Serving
  | GracefulStop
  | MetricsShutdown.

(** displayStartupBanner: the role and the mode. *)
Definition displayStartupBanner (c : ClusterConfig) (role : observation) : serve_act :=
  Banner (if IsLeader role then None else Some (GetLeader role)) (IsSingleNode c).

(** From the listener on; [defers] runs at the return. *)
Definition serve_loop (e : serve_env) (c : ClusterConfig) (cp : ControlPlaneConfig) : list serve_act * option serve_error :=
  if negb (se_listen e) then ([], Some (ErrListen (cp_Listen cp)))
  else
    let up := [Listening (cp_Listen cp); MetricsUp (":" +:+ pretty (se_metrics_port e));
               displayStartupBanner c (se_role e); Serving] in
    match se_end e with
    | OnSignal => (up ++ [GracefulStop; MetricsShutdown], None)
    | OnServeError => (up, Some ErrServe)
    end.

(** With the Raft node running: [defer raftNode.Stop()]. *)
Definition serve_raft (e : serve_env) (c : ClusterConfig) (cp : ControlPlaneConfig) (rn : RaftNode)
    : list serve_act * option serve_error :=
  let '(acts, r) :=
    match Bootstrap (se_boot_order e) (se_boot e) rn with
    | Panic => ([], Some ErrBootstrapPanic)
    | Err _ => ([BootstrapCluster (bootstrap_servers (se_boot_order e))], Some ErrBootstrap)
    | Ok _ =>
        let '(acts, r) :=
          if WaitForLeader (se_polls e) then serve_loop e c cp else ([], Some ErrLeaderTimeout) in
        (BootstrapCluster (bootstrap_servers (se_boot_order e)) :: acts, r)
    end in
  (acts ++ [StopRaft], r).

(** With the storage open: [defer storage.Close()]. *)
Definition serve_storage (e : serve_env) (c : ClusterConfig) (cp : ControlPlaneConfig)
    : list serve_act * option serve_error :=
  let '(acts, r) :=
    match NewRaftNode (GetRaftConfig c) (se_mkdir e) with
    | None => ([], Some ErrRaftNode)
    | Some rn =>
        match Node_Start (cc_BindAddr c) (se_resolve e) (se_steps e) rn with
        | (_, Some s) => ([], Some (ErrRaftStart s))
        | (rn, None) =>
            let '(acts, r) := serve_raft e c cp rn in (StartRaft (rn_id rn) (rn_bindAddr rn) :: acts, r)
        end
    end in
  (acts ++ [CloseStorage], r).

Definition runServe (e : serve_env) : list serve_act * option serve_error :=
  match LoadConfig (se_settings e) (se_vars e) (se_order e) (se_order' e) with
  | Err err => ([], Some (ErrConfig err))
  | Panic => ([], Some ErrConfigPanic)
  | Ok (c, cp, _) =>
      match ParseDatabaseURN (se_home e) (se_db e) with
      | None => ([], Some ErrDatabaseURN)
      | Some db =>
          match NewStorage db (se_opened e) with
          | None => ([], Some ErrStorage)
          | Some _ => let '(acts, r) := serve_storage e c cp in (OpenStorage db :: acts, r)
          end
      end
  end.

(** ** Properties *)

(** What is open after the acts, the last acquired first. *)
Inductive held := HeldStorage | HeldRaft.
Fixpoint holding (acts : list serve_act) (h : list held) : option (list held) :=
  match acts with
  | [] => Some h
  | OpenStorage _ :: acts => holding acts (HeldStorage :: h)
  | CloseStorage :: acts => match h with HeldStorage :: h => holding acts h | _ => None end
  | StartRaft _ _ :: acts => holding acts (HeldRaft :: h)
  | StopRaft :: acts => match h with HeldRaft :: h => holding acts h | _ => None end
  | _ :: acts => holding acts h
  end.

Lemma holding_app acts acts' h : holding (acts ++ acts') h = h' ← holding acts h; holding acts' h'.
Proof.
  revert h. induction acts as [|a acts IH]; intros h; [done|].
  destruct a; simpl; try apply IH; destruct h as [|[] h]; done || apply IH.
Qed.

Lemma serve_loop_holds e c cp h : holding (serve_loop e c cp).1 h = Some h.
Proof. unfold serve_loop. destruct (se_listen e); [|done]. by destruct (se_end e). Qed.

Lemma serve_raft_holds e c cp rn h : holding (serve_raft e c cp rn).1 (HeldRaft :: h) = Some h.
Proof.
  unfold serve_raft. destruct (Bootstrap _ _ _); [|done..]. destruct (WaitForLeader _); [|done].
  pose proof (serve_loop_holds e c cp (HeldRaft :: h)) as H. destruct (serve_loop e c cp) as [acts r].
  simpl in *. rewrite holding_app, H. done.
Qed.

Lemma serve_storage_holds e c cp h : holding (serve_storage e c cp).1 (HeldStorage :: h) = Some h.
Proof.
  unfold serve_storage. destruct (NewRaftNode _ _) as [rn|]; [|done].
  destruct (Node_Start _ _ _ rn) as [rn' [s|]]; [done|].
  pose proof (serve_raft_holds e c cp rn' (HeldStorage :: h)) as H.
  destruct (serve_raft e c cp rn') as [acts r]. simpl in *. rewrite holding_app, H. done.
Qed.

(** On every path out of the server the Raft node is stopped before the storage is closed,
    and nothing stays open. *)
Theorem serve_releases e : holding (runServe e).1 [] = Some [].
Proof.
  unfold runServe. destruct (LoadConfig _ _ _ _) as [[[c cp] api]| |]; [|done..].
  destruct (ParseDatabaseURN _ _) as [db|]; [|done]. destruct (NewStorage _ _); [|done].
  pose proof (serve_storage_holds e c cp []) as H. by destruct (serve_storage e c cp).
Qed.

Lemma serving_inv e : Serving ∈ (runServe e).1 →
  ∃ c cp api db rn rn', LoadConfig (se_settings e) (se_vars e) (se_order e) (se_order' e) = Ok (c, cp, api) ∧
    ParseDatabaseURN (se_home e) (se_db e) = Some db ∧ dc_Type db = "sqlite"%string ∧
    NewRaftNode (GetRaftConfig c) (se_mkdir e) = Some rn ∧
    Node_Start (cc_BindAddr c) (se_resolve e) (se_steps e) rn = (rn', None) ∧ WaitForLeader (se_polls e) = true.
Proof.
  unfold runServe. destruct (LoadConfig _ _ _ _) as [[[c cp] api]| |]; [|by intros ?%elem_of_nil..].
  destruct (ParseDatabaseURN _ _) as [db|]; [|by intros ?%elem_of_nil].
  unfold NewStorage. case_bool_decide as Hdb; [|by intros ?%elem_of_nil].
  destruct (se_opened e); [|by intros ?%elem_of_nil]. unfold serve_storage.
  destruct (NewRaftNode _ _) as [rn|] eqn:Hrn; [|set_solver].
  destruct (Node_Start _ _ _ rn) as [rn' [s|]] eqn:Hst; [set_solver|]. unfold serve_raft.
  destruct (Bootstrap _ _ _); [|set_solver..].
  destruct (WaitForLeader (se_polls e)) eqn:Hw; [|set_solver].
  intros _. exists c, cp, api, db, rn, rn'. done.
Qed.

(** Everything but the election goes well. *)
Definition all_well (e : serve_env) (c : ClusterConfig) (db : DatabaseConfig) : Prop :=
  ParseDatabaseURN (se_home e) (se_db e) = Some db ∧ dc_Type db = "sqlite"%string ∧ se_opened e = true ∧
  se_mkdir e = true ∧ is_Some (se_resolve e (cc_BindAddr c)) ∧ (∀ s, se_steps e s = true) ∧
  se_boot e (bootstrap_servers (se_boot_order e)) ≠ BootstrapFailed ∧ se_listen e = true.

Lemma Node_Start_ok bind resolve steps rn : is_Some (resolve bind) → (∀ s, steps s = true) →
  ∃ rn', Node_Start bind resolve steps rn = (rn', None) ∧ rn_started rn' = true.
Proof. intros [addr Hr] Hs. unfold Node_Start. simpl. rewrite Hr, !Hs. simpl. by eexists. Qed.

(** What happens when everything but the election goes well. *)
Lemma runServe_well e c cp api db :
  LoadConfig (se_settings e) (se_vars e) (se_order e) (se_order' e) = Ok (c, cp, api) → all_well e c db →
  if WaitForLeader (se_polls e)
  then Serving ∈ (runServe e).1 ∧ (runServe e).2 = match se_end e with OnSignal => None | OnServeError => Some ErrServe end
  else Serving ∉ (runServe e).1 ∧ (runServe e).2 = Some ErrLeaderTimeout.
Proof.
  intros Hc (Hdb & Hty & Hop & Hmk & Hres & Hst & Hb & Hl).
  destruct (Node_Start_ok (cc_BindAddr c) (se_resolve e) (se_steps e)
    (mkRaftNode (print_uint (rf_ID (GetRaftConfig c))) "" (rf_DataDir (GetRaftConfig c)) None false "" false) Hres Hst)
    as (rn & Hrn & Hstarted).
  unfold runServe. rewrite Hc, Hdb. unfold NewStorage. rewrite Hty, bool_decide_true, Hop by done.
  unfold serve_storage, NewRaftNode. rewrite Hmk, Hrn. unfold serve_raft, Bootstrap. rewrite Hstarted.
  destruct (se_boot e _) eqn:Eb; [| |done].
  all: destruct (WaitForLeader (se_polls e)); simpl; [|by split; [set_solver|]].
  all: unfold serve_loop; rewrite Hl; simpl; destruct (se_end e); simpl; split; try done; set_solver.
Qed.


(** With IPv6 addresses the control plane comes up on the leader only: a follower does not
    recognize the leader and exits. *)
Theorem ipv6_serves_on_leader_only e c cp api db :
  LoadConfig (se_settings e) (se_vars e) (se_order e) (se_order' e) = Ok (c, cp, api) → all_well e c db →
  (∀ o, o ∈ se_polls e → ob_LeaderAddr o = ""%string ∨ ∃ ip6 port, ob_LeaderAddr o = tcp6 ip6 port) →
  Serving ∈ (runServe e).1 ↔ ∃ o, o ∈ se_polls e ∧ ob_State o = Leader.
Proof.
  intros Hc Hw Hp. pose proof (runServe_well e c cp api db Hc Hw) as H.
  rewrite <-(ipv6_follower_waits_in_vain _ Hp). destruct (WaitForLeader (se_polls e)), H; by split.
Qed.

(** The legacy flag [--port] does not reach the listener: the address served is that of
    the control plane section, whatever the other settings are. *)
Theorem listener_address e c cp api addr :
  LoadConfig (se_settings e) (se_vars e) (se_order e) (se_order' e) = Ok (c, cp, api) →
  Listening addr ∈ (runServe e).1 → addr = listen_addr (st_control_listen (se_settings e)) 8981.
Proof.
  intros Hc. assert (cp_Listen cp = listen_addr (st_control_listen (se_settings e)) 8981) as <-.
  { unfold LoadConfig in Hc. destruct (validateClusterConfig _); [|done..]. by simplify_eq/=. }
  unfold runServe. rewrite Hc. repeat case_match; simpl; try set_solver.
  unfold serve_storage, serve_raft, serve_loop in *. repeat case_match; simplify_eq/=; set_solver.
Qed.

(** ** Witness *)

Module ServeDemo.

(** The second node of a cluster that elects its third one. *)
Definition follower_env : serve_env :=
  mkServeEnv RaftDemo.node ConfigDemo.no_env RaftDemo.order RaftDemo.order "" (Some "/home/.prism/admin.db") true true
    RaftDemo.resolve (λ _, true) RaftDemo.order (λ _, Bootstrapped) RaftDemo.polls
    (mkObservation Follower "10.0.0.3:8990" "3") true 9090 true OnSignal.

End ServeDemo.

(** * cmd/prism-admin/control_plane_raft.go: consistency levels and forwarded heartbeats

    The constructor, the handlers that only acknowledge, and the goroutines that forward
    the heartbeat of a proxy or of a launcher to the leader.  Such a goroutine runs with
    the context of the request, which gRPC cancels when the handler has returned: the
    return and the steps of the goroutine are labels. *)

Module Forward.
Local Open Scope string_scope.

(** ** Read consistency *)

Inductive ReadConsistency := ReadStale | ReadLeaseCheck | ReadLinearizable.
#[export] Instance ReadConsistency_eq_dec : EqDecision ReadConsistency.
Proof. solve_decision. Defined.

Definition parse_consistency (level : string) : ReadConsistency :=
  if bool_decide (level = "stale") then ReadStale
  else if bool_decide (level = "lease-based") || bool_decide (level = "lease_based") then ReadLeaseCheck
  else if bool_decide (level = "linearizable") then ReadLinearizable
  else ReadStale.

Record ControlPlaneServiceRaft := mkControlPlane {
  cps_readConsistency : gmap string ReadConsistency;
  cps_pool : LeaderConnectionPool }.
Definition NewControlPlaneServiceRaft (readConsistencyConfig : gmap string string) : ControlPlaneServiceRaft :=
  mkControlPlane (parse_consistency <$> readConsistencyConfig) NewLeaderConnectionPool.

(** ** The handlers that only acknowledge *)

Record plain_ack := mkPlainAck { pa_Success : bool; pa_Message : string; pa_At : option Z }.
Definition AssignNamespace : plain_ack := mkPlainAck true "Namespace assignment acknowledged" None.
Definition RevokeNamespace (now : Z) : plain_ack := mkPlainAck true "Namespace revocation not yet implemented" (Some now).
Definition AssignProcess : plain_ack := mkPlainAck true "Process assignment not yet implemented" None.
Definition RevokeProcess (now : Z) : plain_ack := mkPlainAck true "Process revocation not yet implemented" (Some now).

(** ** Forwarding *)

(** Where the goroutine is. *)
Inductive forward_pc :=
  | FStart
  | FGet (addr : string)
  | FPool (addr : string) (k : nat)
  | FCall (addr : string) (conn : nat)
  | FDone (recorded : bool).

(** [fw_cancelled]: the handler has returned; [fw_received]: the calls that reached a
    server, by the address that was dialled. *)
Record forwarding := mkForwarding {
  fw_pc : forward_pc;
  fw_cancelled : bool;
  fw_pool : LeaderConnectionPool;
  fw_received : list string }.

Definition start_forward (pool : LeaderConnectionPool) : forwarding := mkForwarding FStart false pool [].

Inductive forward_label :=
  | Return                                 (* the handler returns, its context ends *)
  | Step (o : observation) (dial answer : bool)
  | Pool (l : pool_label).                 (* other calls of the pool *)

Definition goto (pc : forward_pc) (f : forwarding) : forwarding :=
  mkForwarding pc (fw_cancelled f) (fw_pool f) (fw_received f).
Definition with_pool (p : LeaderConnectionPool) (f : forwarding) : forwarding :=
  mkForwarding (fw_pc f) (fw_cancelled f) p (fw_received f).

(** forwardHeartbeat; forwardLauncherHeartbeat has the same steps.  A call on a context
    that has ended returns an error at once; [answer]: the server answers without an error. *)
Definition forwardHeartbeat (o : observation) (dial answer : bool) (f : forwarding) : option forwarding :=
  match fw_pc f with
  | FStart =>
      let addr := GetLeaderAddr o in
      Some (if bool_decide (addr = "") then goto (FDone false) f else goto (FGet addr) f)
  | FGet addr =>
      Some (goto (FPool addr (length (lp_calls (fw_pool f)))) (with_pool (pool_lookup addr (fw_pool f)) f))
  | FPool addr k =>
      match lp_calls (fw_pool f) !! k with
      | Some (CallDone _ (Some c)) => Some (goto (FCall addr c) f)
      | Some (CallDone _ None) => Some (goto (FDone false) f)
      | Some (CallWaiting _) => p ← pool_dial k dial (fw_pool f); Some (with_pool p f)
      | None => None
      end
  | FCall addr c =>
      Some (if fw_cancelled f then goto (FDone false) f
            else mkForwarding (FDone answer) false (fw_pool f) (fw_received f ++ [addr])%list)
  | FDone _ => None
  end.

Definition forward_exec (l : forward_label) (f : forwarding) : option forwarding :=
  match l with
  | Return => Some (mkForwarding (fw_pc f) true (fw_pool f) (fw_received f))
  | Step o dial answer => forwardHeartbeat o dial answer f
  | Pool l => p ← pool_exec l (fw_pool f); Some (with_pool p f)
  end.

(** ** Properties *)

(** The labels up to the first return. *)
Fixpoint before_return (ls : list forward_label) : list forward_label :=
  match ls with [] => [] | Return :: _ => [] | l :: ls => l :: before_return ls end.

Lemma forward_received o dial answer f f' : forwardHeartbeat o dial answer f = Some f' →
  fw_cancelled f' = fw_cancelled f ∧
  (fw_received f' = fw_received f ∧ fw_pc f' ≠ FDone true ∨
   ∃ addr c, fw_pc f = FCall addr c ∧ fw_cancelled f = false ∧ fw_received f' = (fw_received f ++ [addr])%list ∧ fw_pc f' = FDone answer).
Proof.
  unfold forwardHeartbeat. destruct (fw_pc f) as [|addr|addr k|addr c|r] eqn:Hpc; [| | | |done].
  - intros [= <-]. case_bool_decide; simpl; split; auto; left; by split.
  - intros [= <-]. split; [done|]. left. by split.
  - destruct (lp_calls (fw_pool f) !! k) as [[a|a [c|]]|]; [| | |done].
    + intros (p & _ & [= <-])%bind_Some. split; [done|]. left. simpl. by rewrite Hpc.
    + intros [= <-]. split; [done|]. left. by split.
    + intros [= <-]. split; [done|]. left. by split.
  - intros [= <-]. destruct (fw_cancelled f) eqn:Hc; simpl.
    + split; [done|]. left. by split.
    + split; [done|]. right. exists addr, c. by split_and!.
Qed.

(** After the return nothing reaches a server any more. *)
Lemma cancelled_run ls f f' : fw_cancelled f = true → run_labels forward_exec ls f = Some f' →
  fw_received f' = fw_received f ∧ (fw_pc f' = FDone true → fw_pc f = FDone true).
Proof.
  intros Hc Hr. assert (fw_cancelled f' = true ∧ fw_received f' = fw_received f ∧
    (fw_pc f' = FDone true → fw_pc f = FDone true)) as (_ & ? & ?); [|done].
  revert Hr. apply (run_labels_invariant forward_exec (λ f', fw_cancelled f' = true ∧ fw_received f' = fw_received f ∧
    (fw_pc f' = FDone true → fw_pc f = FDone true))); [|by split_and!].
  intros f1 [|o dial answer|l] f2 (H1 & H2 & H3) He; simpl in He.
  - by simplify_eq.
  - destruct (forward_received _ _ _ _ _ He) as (Hc2 & [[Hr Hp]|(a & c & _ & Hf & _)]); [|congruence].
    split_and!; congruence.
  - apply bind_Some in He as (p & _ & He). by simplify_eq.
Qed.

Definition received_once (f : forwarding) : Prop :=
  match fw_pc f with
  | FDone true => length (fw_received f) = 1%nat
  | FDone false => (length (fw_received f) ≤ 1)%nat
  | _ => fw_received f = []
  end.

Lemma received_once_step f l f' : received_once f → forward_exec l f = Some f' → received_once f'.
Proof.
  destruct l as [|o dial answer|l]; simpl; unfold received_once.
  - by intros H [= <-].
  - intros H He. unfold forwardHeartbeat in He. destruct (fw_pc f) as [|addr|addr k|addr c|r] eqn:Hpc; [| | | |done].
    + simplify_eq. case_bool_decide; simpl; rewrite H; simpl; [lia|done].
    + by simplify_eq/=.
    + destruct (lp_calls (fw_pool f) !! k) as [[a|a [c|]]|]; [| | |done].
      * apply bind_Some in He as (p & _ & He). simplify_eq/=. by rewrite Hpc.
      * by simplify_eq/=.
      * simplify_eq/=. rewrite H. simpl. lia.
    + simplify_eq. destruct (fw_cancelled f); simpl; rewrite H; simpl; [lia|]. by destruct answer.
  - intros H (p & _ & He)%bind_Some. by simplify_eq/=.
Qed.

(** A heartbeat that a follower has acknowledged reaches the leader only if the goroutine
    made its call before the handler returned: what the servers have received at the end
    of a run is what they had received at the return, at most one call; and success is
    only recorded for a call that was made. *)
Theorem forwarded_before_return ls pool f :
  run_labels forward_exec ls (start_forward pool) = Some f →
  received_once f ∧
  ∃ f0, run_labels forward_exec (before_return ls) (start_forward pool) = Some f0 ∧ fw_received f = fw_received f0 ∧
    (fw_pc f = FDone true → fw_pc f0 = FDone true).
Proof.
  intros Hr. split.
  { revert Hr. apply (run_labels_invariant forward_exec received_once); [apply received_once_step|done]. }
  revert Hr. generalize (start_forward pool) as s. induction ls as [|l ls IH]; intros s; simpl.
  { intros [= <-]. by exists s. }
  intros (s1 & H1 & H2)%bind_Some. destruct l as [|o dial answer|l].
  - injection H1 as <-. exists s. split; [done|]. apply cancelled_run in H2; done.
  - destruct (IH s1 H2) as (f0 & H0 & Hrest). exists f0. split; [|done]. simpl. simpl in H1. by rewrite H1.
  - destruct (IH s1 H2) as (f0 & H0 & Hrest). exists f0. split; [|done]. simpl. simpl in H1. by rewrite H1.
Qed.

(** ** Examples *)

Definition leader : observation := mkObservation Follower "admin-01:8990" "1".

(** The heartbeat is acknowledged, the goroutine is scheduled after the return: it is lost. *)
Example heartbeat_is_lost :
  fw_received <$> run_labels forward_exec
    [Return; Step leader true true; Step leader true true; Step leader true true; Step leader true true; Step leader true true]
    (start_forward NewLeaderConnectionPool) = Some [].
Proof. vm_compute. reflexivity. Qed.
Example heartbeat_arrives :
  fw_received <$> run_labels forward_exec
    [Step leader true true; Step leader true true; Step leader true true; Step leader true true; Step leader true true; Return]
    (start_forward NewLeaderConnectionPool) = Some ["admin-01:8980"].
Proof. vm_compute. reflexivity. Qed.

(** An unknown level is read as the weakest one. *)
Example misspelt_level_is_stale : parse_consistency "Linearizable" = ReadStale.
Proof. reflexivity. Qed.
End Forward.
