(* ===== verification/ControlPlaneSql.v ===== *)
(** * cmd/prism-admin/control_plane.go: the control plane without Raft

    The RPC handlers over the SQL storage.  The list of proxies that the handlers hand
    to the partition manager is not read from the storage; it is always empty.  Calls
    that the source marks as to be implemented answer success. *)

From S2P Require Import Prelude Backoff AdminTypes Partition ControlPlane AdminStorage AdminStorageSpec.
Local Open Scope Z_scope.

Section Service.
Context (compact : string → option string) (marshal_list : list string → string).

Inductive sql_error :=
  | ErrRegisterProxy
  | ErrNoProxy (partition : Z) (e : partition_error)
  | ErrCreateNamespace
  | ErrRegisterLauncher.

(** [break] at the first range that contains the partition. *)
Definition Sql_getNamespacesForRanges (up : bool) (ranges : list PartitionRange) (s : Storage)
    : option (list NamespaceAssignment) :=
  match ListNamespaces up s with
  | None => None
  | Some namespaces =>
      Some ((λ ns, mkNamespaceAssignment (nsr_Name ns) (HashNamespace (nsr_Name ns)) ∅ 1) <$>
            filter (λ ns, existsb (in_range (HashNamespace (nsr_Name ns))) ranges = true) namespaces)
  end.

(** [f]: what becomes of the statement; [up]: whether the query that follows answers. *)
Definition Sql_RegisterProxy (f : fault) (up : bool) (now : Z) (req : ProxyRegistration) (s : Storage)
    : Storage * result sql_error ProxyRegistrationAck :=
  let '(s, ok) := UpsertProxy compact f now (preg_ProxyId req) (preg_Address req) (preg_Version req)
                    "healthy" (Some now) None s in
  if negb ok then (s, Err ErrRegisterProxy)
  else
    let proxies := [] in
    let ranges := ComputeRangesFromProxySet (preg_ProxyId req) proxies in
    let namespaces := default [] (Sql_getNamespacesForRanges up ranges s) in
    (s, Ok (mkProxyRegistrationAck true "Proxy registered successfully" namespaces ranges)).

Definition Sql_CreateNamespace (f : fault) (now : Z) (req : CreateNamespaceRequest) (s : Storage)
    : Storage * result sql_error CreateNamespaceResponse :=
  let partitionID := HashNamespace (cnr_Namespace req) in
  let proxies := [] in
  match GetProxyForPartitionFromSet partitionID proxies with
  | Panic => (s, Panic)
  | Err e => (s, Err (ErrNoProxy partitionID e))
  | Ok proxyID =>
      let description :=
        ("Created via " +:+ cnr_RequestingProxy req +:+ " by " +:+ cnr_Principal req)%string in
      let '(s, ok) := Storage_CreateNamespace compact f now (cnr_Namespace req) description None s in
      (s, if ok then Ok (mkCreateNamespaceResponse true "Namespace created successfully" partitionID proxyID)
          else Err ErrCreateNamespace)
  end.

(** [req.Resources] is dereferenced in the log line; the outcome of the statement is not
    looked at. *)
Definition Sql_Heartbeat (f : fault) (now : Z) (req : ProxyHeartbeat) (s : Storage)
    : Storage * result sql_error HeartbeatAck :=
  match phb_Resources req with
  | None => (s, Panic)
  | Some _ =>
      ((UpsertProxy compact f now (phb_ProxyId req) "" "" "healthy" (Some now) None s).1,
       Ok (mkHeartbeatAck true "Heartbeat received" now))
  end.

Definition Sql_RegisterLauncher (f : fault) (now : Z) (req : LauncherRegistration) (s : Storage)
    : Storage * result sql_error LauncherRegistrationAck :=
  let '(s, ok) :=
    UpsertLauncher compact f now (lreg_LauncherId req) (lreg_Address req) (lreg_Region req)
      (lreg_Version req) "healthy" (lreg_MaxProcesses req) (lreg_MaxProcesses req)
      (Some (marshal_list (lreg_Capabilities req))) (Some now) None s in
  (s, if ok then Ok (mkLauncherRegistrationAck true "Launcher registered successfully" 0)
      else Err ErrRegisterLauncher).

Definition Sql_LauncherHeartbeat (f : fault) (now : Z) (req : LauncherHeartbeatRequest) (s : Storage)
    : Storage * result sql_error HeartbeatAck :=
  match lhb_Resources req with
  | None => (s, Panic)
  | Some r =>
      ((UpsertLauncher compact f now (lhb_LauncherId req) "" "" "" "healthy" 0 (lru_AvailableSlots r)
          None (Some now) None s).1,
       Ok (mkHeartbeatAck true "Heartbeat received" now))
  end.

(** ** The service *)

Inductive sql_rpc :=
  | QRegisterProxy (f : fault) (up : bool) (now : Z) (req : ProxyRegistration)
  | QCreateNamespace (f : fault) (now : Z) (req : CreateNamespaceRequest)
  | QHeartbeat (f : fault) (now : Z) (req : ProxyHeartbeat)
  | QRegisterLauncher (f : fault) (now : Z) (req : LauncherRegistration)
  | QLauncherHeartbeat (f : fault) (now : Z) (req : LauncherHeartbeatRequest).

Definition sql_exec (r : sql_rpc) (s : Storage) : Storage :=
  match r with
  | QRegisterProxy f up now req => (Sql_RegisterProxy f up now req s).1
  | QCreateNamespace f now req => (Sql_CreateNamespace f now req s).1
  | QHeartbeat f now req => (Sql_Heartbeat f now req s).1
  | QRegisterLauncher f now req => (Sql_RegisterLauncher f now req s).1
  | QLauncherHeartbeat f now req => (Sql_LauncherHeartbeat f now req s).1
  end.

Definition sql_run (rs : list sql_rpc) (s : Storage) : Storage := foldl (flip sql_exec) s rs.

(** ** Properties *)

(** The control plane without Raft gives nothing out: in every history of calls each
    [CreateNamespace] is refused because no proxy owns the partition, whatever proxies
    are registered, so that there never is a namespace, and each successful
    [RegisterProxy] answers with no partition range and no namespace. *)
Theorem sql_control_plane_assigns_nothing rs f up now preq creq :
  let s := sql_run rs empty_storage in
  s_namespaces s = [] ∧
  Sql_CreateNamespace f now creq s =
    (s, Err (ErrNoProxy (HashNamespace (cnr_Namespace creq)) ErrNoProxies)) ∧
  (∀ s' ack, Sql_RegisterProxy f up now preq s = (s', Ok ack) →
     pra_PartitionRanges ack = [] ∧ pra_InitialNamespaces ack = []).
Proof.
  cbv zeta. set (s := sql_run rs empty_storage).
  assert (s_namespaces s = []) as Hns.
  { subst s. unfold sql_run. assert (s_namespaces empty_storage = []) as H0 by done. revert H0.
    generalize empty_storage as s0. induction rs as [|r rs IH]; intros s0 H0; [done|]. apply IH.
    unfold flip. destruct r; simpl.
    - unfold Sql_RegisterProxy, UpsertProxy. simpl. destruct (upsert_rows _ _ _ _ _), f0; done.
    - done.
    - unfold Sql_Heartbeat, UpsertProxy. simpl. case_match; [|done].
      destruct (upsert_rows _ _ _ _ _), f0; done.
    - unfold Sql_RegisterLauncher, UpsertLauncher. simpl. destruct (upsert_rows _ _ _ _ _), f0; done.
    - unfold Sql_LauncherHeartbeat, UpsertLauncher. simpl. case_match; [|done].
      destruct (upsert_rows _ _ _ _ _), f0; done. }
  clearbody s. split_and!; [done|done|]. intros s' ack. unfold Sql_RegisterProxy.
  destruct (UpsertProxy _ _ _ _ _ _ _ _ _ _) as [s1 []]; simpl; [|done]. intros [= <- <-]. simpl.
  split; [done|]. unfold Sql_getNamespacesForRanges. destruct (ListNamespaces up s1) as [l|]; [|done]. simpl.
  induction l as [|x l IH]; [done|]. by rewrite filter_cons_False.
Qed.

(** A heartbeat erases what a registration recorded: after a heartbeat that reached
    the table, the row of the proxy has no address and no version and the row of the
    launcher no address, region, version or capacity, whatever they were before. *)
Theorem heartbeat_erases_registration now phb lhb s row lrow ru lru :
  phb_Resources phb = Some ru → lhb_Resources lhb = Some lru →
  Storage_GetProxy true (phb_ProxyId phb) s = Ok row →
  GetLauncher true (lhb_LauncherId lhb) s = Ok lrow →
  Storage_GetProxy true (phb_ProxyId phb) (Sql_Heartbeat NoFault now phb s).1 =
    Ok (mkProxyRow (pxr_ID row) (phb_ProxyId phb) "" "" "healthy" (Some now) (pxr_CreatedAt row) now "null") ∧
  GetLauncher true (lhb_LauncherId lhb) (Sql_LauncherHeartbeat NoFault now lhb s).1 =
    Ok (mkLauncherRow (lnr_ID lrow) (lhb_LauncherId lhb) "" "" "" "healthy" 0 (lru_AvailableSlots lru)
          "null" (Some now) (lnr_CreatedAt lrow) now "null").
Proof.
  intros Hru Hlru Hrow Hlrow. unfold Storage_GetProxy, GetLauncher, get_row in *. cbn [negb] in *.
  destruct (find_row pxr_ProxyID _ _) as [r|] eqn:Er; [|done]. injection Hrow as ->.
  destruct (find_row lnr_LauncherID _ _) as [l|] eqn:El; [|done]. injection Hlrow as ->.
  unfold Sql_Heartbeat, Sql_LauncherHeartbeat. rewrite Hru, Hlru. cbn [fst].
  rewrite UpsertProxy_get, UpsertLauncher_get by done. rewrite !bool_decide_eq_true_2 by done.
  by rewrite Er, El.
Qed.
End Service.

(** ** Runs *)

Module SqlDemo.
Definition compact (s : string) : option string := Some s.
Definition marshal_list (l : list string) : string := "[]".
Definition registered : Storage :=
  sql_run compact marshal_list
    [QRegisterProxy NoFault true 1 (mkProxyRegistration "p" "host:1" "r" "v1" [] ∅);
     QRegisterLauncher NoFault 2 (mkLauncherRegistration "l" "host:2" "r" "v1" ["kv"%string] 10 [] ∅)]
    empty_storage.
Definition beat : ProxyHeartbeat := mkProxyHeartbeat "p" (Some (mkResourceUsage GoFloat.f64_zero 1 1 1)) 5.
Definition lbeat : LauncherHeartbeatRequest :=
  mkLauncherHeartbeatRequest "l" (Some (mkLauncherResourceUsage 1 10 1 GoFloat.f64_zero 9)) 5.

Lemma heartbeat_erases_registration_witness :
  pxr_Address <$> find_row pxr_ProxyID "p" (s_proxies registered) = Some "host:1"%string ∧
  Storage_GetProxy true "p" (Sql_Heartbeat compact NoFault 5 beat registered).1 =
    Ok (mkProxyRow 1 "p" "" "" "healthy" (Some 5) 1 5 "null") ∧
  GetLauncher true "l" (Sql_LauncherHeartbeat compact NoFault 5 lbeat registered).1 =
    Ok (mkLauncherRow 1 "l" "" "" "" "healthy" 0 9 "null" (Some 5) 2 5 "null").
Proof.
  split; [reflexivity|].
  refine (heartbeat_erases_registration compact 5 beat lbeat registered
            (mkProxyRow 1 "p" "host:1" "v1" "healthy" (Some 1) 1 1 "null")
            (mkLauncherRow 1 "l" "host:2" "r" "v1" "healthy" 10 10 "[]" (Some 2) 2 2 "null")
            (mkResourceUsage GoFloat.f64_zero 1 1 1) (mkLauncherResourceUsage 1 10 1 GoFloat.f64_zero 9)
            _ _ _ _); reflexivity.
Defined.

Lemma sql_control_plane_assigns_nothing_witness :
  Sql_CreateNamespace compact NoFault 3 (mkCreateNamespaceRequest "n" "p" None "me") registered =
    (registered, Err (ErrNoProxy (HashNamespace "n") ErrNoProxies)).
Proof.
  exact (proj1 (proj2 (sql_control_plane_assigns_nothing compact marshal_list
    [QRegisterProxy NoFault true 1 (mkProxyRegistration "p" "host:1" "r" "v1" [] ∅);
     QRegisterLauncher NoFault 2 (mkLauncherRegistration "l" "host:2" "r" "v1" ["kv"%string] 10 [] ∅)]
    NoFault true 3 (mkProxyRegistration "p" "host:1" "r" "v1" [] ∅)
    (mkCreateNamespaceRequest "n" "p" None "me")))).
Defined.
End SqlDemo.
