(* ===== verification/LauncherAdmin.v ===== *)
(** * pkg/launcher/admin_client.go: the launcher as a client of the control plane

    The client registers the launcher and sends heartbeats; the server is an argument,
    the class [ControlPlaneClient], and the control plane of the Raft leader is one
    instance.  The goroutine of a heartbeat proposes after the answer was sent, so the
    server keeps what is still to be proposed. *)

From S2P Require Import Prelude Backoff AdminTypes AdminFsm AdminFsmSpec Partition ControlPlane.
Import GoFloat.
Local Open Scope Z_scope.

Record AdminClientConfig := mkAdminClientConfig {
  acc_AdminEndpoint : string;
  acc_LauncherID : string;
  acc_Address : string;
  acc_Region : string;
  acc_MaxProcesses : Z }.

Record AdminClient := mkAdminClient {
  ac_launcherID : string;
  ac_address : string;
  ac_region : string;
  ac_maxProcs : Z }.

(** [dialled]: whether the connection could be made. *)
Definition NewAdminClient (dialled : bool) (cfg : AdminClientConfig) : option AdminClient :=
  if dialled
  then Some (mkAdminClient (acc_LauncherID cfg) (acc_Address cfg) (acc_Region cfg) (acc_MaxProcesses cfg))
  else None.

(** The calls of the service; [None] is an error of the call. *)
Class ControlPlaneClient (S : Type) := {
  cp_RegisterLauncher : LauncherRegistration → S → S * option LauncherRegistrationAck;
  cp_LauncherHeartbeat : LauncherHeartbeatRequest → S → S * option HeartbeatAck }.

Inductive client_error :=
  | ErrRegistrationFailed
  | ErrRegistrationRejected (message : string)
  | ErrHeartbeatFailed
  | ErrHeartbeatRejected (message : string).

Section Client.
Context {S : Type} `{!ControlPlaneClient S}.

Definition registration (c : AdminClient) : LauncherRegistration :=
  mkLauncherRegistration (ac_launcherID c) (ac_address c) (ac_region c) "0.1.0"
    ["pattern"; "proxy"; "backend"; "utility"]%string (ac_maxProcs c) ["pattern"%string] ∅.

Definition Client_Register (c : AdminClient) (s : S) : S * (LauncherRegistrationAck + client_error) :=
  let '(s, r) := cp_RegisterLauncher (registration c) s in
  (s, match r with
      | None => inr ErrRegistrationFailed
      | Some resp => if lra_Success resp then inl resp else inr (ErrRegistrationRejected (lra_Message resp))
      end).

(** Every heartbeat reports an idle launcher. *)
Definition heartbeat_request (now : Z) (c : AdminClient) : LauncherHeartbeatRequest :=
  mkLauncherHeartbeatRequest (ac_launcherID c)
    (Some (mkLauncherResourceUsage 0 (ac_maxProcs c) 0 f64_zero (ac_maxProcs c))) now.

Definition sendHeartbeat (now : Z) (c : AdminClient) (s : S) : S * option client_error :=
  let '(s, r) := cp_LauncherHeartbeat (heartbeat_request now c) s in
  (s, match r with
      | None => Some ErrHeartbeatFailed
      | Some resp => if ha_Success resp then None else Some (ErrHeartbeatRejected (ha_Message resp))
      end).

(** The loop: one heartbeat per tick, errors are logged. *)
Fixpoint StartHeartbeatLoop (ticks : list Z) (c : AdminClient) (s : S) : S :=
  match ticks with
  | [] => s
  | now :: ticks => StartHeartbeatLoop ticks c (sendHeartbeat now c s).1
  end.
End Client.

(** ** The leader as the server *)

Section Leader.
Context {D : Type} (marshal : Command → option D) (unmarshal : D → option Command).

(** [sv_pending]: the proposals of heartbeats that were answered. *)
Record server := mkServer {
  sv_fsm : AdminStateMachine;
  sv_now : Z;
  sv_index : Z;
  sv_pending : list D }.

Definition leader_env (s : server) : raft_env :=
  mkRaftEnv true None (Some (mkClock (sv_now s) (sv_now s), sv_index s + 1, 1)).
Definition committed (f : AdminStateMachine) (s : server) : server :=
  mkServer f (sv_now s) (sv_index s + 1) (sv_pending s).

#[export] Instance leader_server : ControlPlaneClient server := {|
  cp_RegisterLauncher req s :=
    match RegisterLauncher marshal unmarshal (leader_env s) (sv_now s) (Err ErrForwarded) req (sv_fsm s) with
    | Some (f, Ok ack) => (committed f s, Some ack)
    | _ => (s, None)
    end;
  cp_LauncherHeartbeat req s :=
    match LauncherHeartbeat marshal (leader_env s) (sv_now s) req with
    | Some (ack, data) =>
        (mkServer (sv_fsm s) (sv_now s) (sv_index s) (sv_pending s ++ option_list data), Some ack)
    | None => (s, None)
    end |}.

(** A proposal is committed; [None] when the state machine panics. *)
Definition propose (data : D) (s : server) : option server :=
  match Propose unmarshal (leader_env s) data (sv_fsm s) with
  | Ok f => Some (committed f s)
  | Err _ => Some s
  | Panic => None
  end.

(** The client and the cluster: the launcher registers or sends a heartbeat, the [k]-th
    pending proposal is made, a pattern is assigned. *)
Inductive admin_event :=
  | EvRegister
  | EvHeartbeat (now : Z)
  | EvPropose (k : nat)
  | EvAssign (cmd : AssignPatternCommand).

Definition assign_command (now : Z) (cmd : AssignPatternCommand) : Command :=
  mkCommand COMMAND_TYPE_ASSIGN_PATTERN now "admin" (Some (Command_AssignPattern cmd)).

Definition admin_exec (c : AdminClient) (ev : admin_event) (s : server) : option server :=
  match ev with
  | EvRegister => Some (Client_Register c s).1
  | EvHeartbeat now => Some (sendHeartbeat now c s).1
  | EvPropose k =>
      data ← sv_pending s !! k;
      propose data (mkServer (sv_fsm s) (sv_now s) (sv_index s) (delete k (sv_pending s)))
  | EvAssign cmd =>
      match marshal (assign_command (sv_now s) cmd) with
      | Some data => propose data s
      | None => None
      end
  end.
End Leader.

(** ** What the cluster knows of the launcher's capacity *)

(** The free slots on record, once the launcher is registered; the patterns that were
    assigned; the heartbeats that were not yet proposed. *)
Record capacity := mkCapacity {
  ca_free : option Z;
  ca_patterns : gset string;
  ca_heartbeats : nat }.

Definition take_slot (free : option Z) : option Z := (λ n, if 0 <? n then n - 1 else n) <$> free.

Definition capacity_step (c : AdminClient) (ev : admin_event) (a : capacity) : option capacity :=
  match ev with
  | EvRegister => Some (mkCapacity (Some (ac_maxProcs c)) (ca_patterns a) (ca_heartbeats a))
  | EvHeartbeat _ => Some (mkCapacity (ca_free a) (ca_patterns a) (S (ca_heartbeats a)))
  | EvPropose k =>
      if (k <? ca_heartbeats a)%nat
      then Some (mkCapacity ((λ _, ac_maxProcs c) <$> ca_free a) (ca_patterns a) (pred (ca_heartbeats a)))
      else None
  | EvAssign cmd =>
      Some (if bool_decide (ap_PatternId cmd ∈ ca_patterns a) then a
            else mkCapacity
                   (if bool_decide (ap_LauncherId cmd = ac_launcherID c) then take_slot (ca_free a) else ca_free a)
                   ({[ ap_PatternId cmd ]} ∪ ca_patterns a) (ca_heartbeats a))
  end.

Definition free_slots (id : string) (f : AdminStateMachine) : option Z :=
  le_AvailableSlots <$> map_get id (as_Launchers (fsm_state f)).
Definition assigned (f : AdminStateMachine) : gset string := dom (default ∅ (as_Patterns (fsm_state f))).

Definition heartbeat_command (now : Z) (c : AdminClient) : Command :=
  mkCommand COMMAND_TYPE_UPDATE_LAUNCHER_STATUS now (ac_launcherID c)
    (Some (Command_UpdateLauncherStatus
       (mkUpdateLauncherStatusCommand (ac_launcherID c) "healthy" now (ac_maxProcs c)
          (Some (mkLauncherResources 0 f64_zero 0 (ac_maxProcs c)))))).

Definition registration_command (now : Z) (c : AdminClient) : Command :=
  mkCommand COMMAND_TYPE_REGISTER_LAUNCHER now "admin"
    (Some (Command_RegisterLauncher
       (mkRegisterLauncherCommand (ac_launcherID c) (ac_address c) (ac_region c) "0.1.0"
          ["pattern"; "proxy"; "backend"; "utility"]%string ["pattern"%string] (ac_maxProcs c) ∅))).

Lemma registration_dispatch now handler c f : fsm_ok f →
  ∃ f', dispatch handler (registration_command now c) f = Ok f' ∧ fsm_ok f' ∧
    free_slots (ac_launcherID c) f' = Some (ac_maxProcs c) ∧ assigned f' = assigned f.
Proof.
  intros Hok. pose proof (dispatch_ok handler (registration_command now c) f Hok eq_refl) as Hd.
  destruct (ok_launchers _ Hok) as (m & Hm & _).
  unfold dispatch, applyRegisterLauncher, free_slots in *. simpl in *. rewrite Hm in *. simpl in *.
  eexists. split; [done|]. split; [done|]. simpl. rewrite lookup_insert_eq. split; [|done]. simpl. by case_match.
Qed.

Lemma heartbeat_dispatch now handler c f : fsm_ok f →
  match dispatch handler (heartbeat_command now c) f with
  | Ok f' => fsm_ok f' ∧ free_slots (ac_launcherID c) f' = (λ _, ac_maxProcs c) <$> free_slots (ac_launcherID c) f ∧
      assigned f' = assigned f
  | Err _ => free_slots (ac_launcherID c) f = None
  | Panic => False
  end.
Proof.
  intros Hok. pose proof (dispatch_ok handler (heartbeat_command now c) f Hok eq_refl) as Hd.
  destruct (ok_launchers _ Hok) as (m & Hm & _).
  unfold dispatch, applyUpdateLauncherStatus, free_slots in *. simpl in *. rewrite Hm in *. simpl in *.
  destruct (m !! ac_launcherID c) as [e|]; simpl in *; [|done]. split; [done|]. by rewrite lookup_insert_eq.
Qed.

Lemma assign_dispatch now handler id cmd f : fsm_ok f →
  ∃ f', dispatch handler (assign_command now cmd) f = Ok f' ∧ fsm_ok f' ∧
    assigned f' = {[ ap_PatternId cmd ]} ∪ assigned f ∧
    free_slots id f' =
      if bool_decide (ap_PatternId cmd ∈ assigned f) then free_slots id f
      else if bool_decide (ap_LauncherId cmd = id) then take_slot (free_slots id f) else free_slots id f.
Proof.
  intros Hok. pose proof (dispatch_ok handler (assign_command now cmd) f Hok eq_refl) as Hd.
  destruct (ok_launchers _ Hok) as (ml & Hl & _), (ok_patterns _ Hok) as (mp & Hp & _).
  unfold dispatch, applyAssignPattern, free_slots, assigned in *. simpl in *. rewrite Hp in *. simpl in *.
  destruct (mp !! ap_PatternId cmd) as [e|] eqn:Ep; simpl in *.
  - eexists. split; [done|]. split; [done|]. simpl. rewrite dom_insert_L, Hl.
    rewrite bool_decide_eq_true_2 by (by apply elem_of_dom). done.
  - rewrite (bool_decide_eq_false_2 (_ ∈ dom mp)) by (by apply not_elem_of_dom). rewrite Hl in *. simpl in *.
    destruct (ml !! ap_LauncherId cmd) as [l|] eqn:El; simpl in *.
    + destruct (0 <? le_AvailableSlots l) eqn:Ea; simpl in *; (eexists; split; [done|]; split; [done|]; simpl);
        rewrite dom_insert_L; (split; [done|]).
      * case_bool_decide as Hid; [subst; rewrite lookup_insert_eq, El; simpl; by rewrite Ea|].
        by rewrite lookup_insert_ne.
      * case_bool_decide as Hid; [|by rewrite Hl]. subst. rewrite Hl. simpl. rewrite El. simpl. by rewrite Ea.
    + eexists. split; [done|]. split; [done|]. simpl. rewrite dom_insert_L, Hl. split; [done|].
      case_bool_decide as Hid; [|done]. subst. simpl. by rewrite El.
Qed.

Section Refinement.
Context {D : Type} (marshal : Command → option D) (unmarshal : D → option Command).
(** Protobuf writes every command and reads back what it wrote. *)
Context (marshal_total : ∀ cmd, is_Some (marshal cmd)).
Context (unmarshal_marshal : ∀ cmd data, marshal cmd = Some data → unmarshal data = Some cmd).

Record capacity_of (c : AdminClient) (s : server) (a : capacity) : Prop := {
  co_ok : fsm_ok (sv_fsm s);
  co_free : ca_free a = free_slots (ac_launcherID c) (sv_fsm s);
  co_patterns : ca_patterns a = assigned (sv_fsm s);
  co_heartbeats : ca_heartbeats a = length (sv_pending s);
  co_pending : Forall (λ data, ∃ now, marshal (heartbeat_command now c) = Some data) (sv_pending s) }.

(** A proposal of a command, by what the dispatch of the command does. *)
Lemma propose_eq cmd data s : marshal cmd = Some data →
  propose unmarshal data s =
    match dispatch (sv_now s) cmd (stamp (sv_index s + 1) 1 (sv_now s) (sv_fsm s)) with
    | Ok f => Some (committed f s)
    | Err _ => Some (committed (stamp (sv_index s + 1) 1 (sv_now s) (sv_fsm s)) s)
    | Panic => None
    end.
Proof using unmarshal_marshal.
  intros Hm. unfold propose, Propose, Apply. simpl. rewrite (unmarshal_marshal _ _ Hm).
  by destruct (dispatch _ _ _).
Qed.

Lemma register_eq c s : fsm_ok (sv_fsm s) →
  ∃ f, dispatch (sv_now s) (registration_command (sv_now s) c) (stamp (sv_index s + 1) 1 (sv_now s) (sv_fsm s)) = Ok f ∧
    @Client_Register _ (leader_server marshal unmarshal) c s =
      (committed f s, inl (mkLauncherRegistrationAck true "Launcher registered successfully" 0)).
Proof using marshal_total unmarshal_marshal.
  intros Hok. destruct (marshal_total (registration_command (sv_now s) c)) as [data Hm].
  destruct (registration_dispatch (sv_now s) (sv_now s) c (stamp (sv_index s + 1) 1 (sv_now s) (sv_fsm s)))
    as (f & Hd & _); [by apply stamp_ok|]. exists f. split; [done|].
  unfold Client_Register, cp_RegisterLauncher, leader_server, RegisterLauncher. simpl negb. cbv iota.
  fold (registration_command (sv_now s) c).
  rewrite (propose_then_eq marshal unmarshal (leader_env s) unmarshal_marshal (registration_command (sv_now s) c) data
    (mkClock (sv_now s) (sv_now s)) (sv_index s + 1) 1 (sv_fsm s) f _ Hm eq_refl Hd). done.
Qed.

Lemma heartbeat_eq now c s : ∃ data, marshal (heartbeat_command now c) = Some data ∧
  @sendHeartbeat _ (leader_server marshal unmarshal) now c s =
    (mkServer (sv_fsm s) (sv_now s) (sv_index s) (sv_pending s ++ [data]), None).
Proof using marshal_total.
  destruct (marshal_total (heartbeat_command now c)) as [data Hm]. exists data. split; [done|].
  unfold sendHeartbeat, cp_LauncherHeartbeat, leader_server, LauncherHeartbeat. simpl.
  change (marshal _) with (marshal (heartbeat_command now c)). by rewrite Hm.
Qed.

(** One event: the cluster can take it when the specification can, with the same effect
    on the capacity. *)
Lemma capacity_simulation c ev s a : capacity_of c s a →
  match admin_exec marshal unmarshal c ev s, capacity_step c ev a with
  | Some s', Some a' => capacity_of c s' a'
  | None, None => True
  | _, _ => False
  end.
Proof using marshal_total unmarshal_marshal.
  intros [Hok Hf Hp Hh Hpend]. pose proof (stamp_ok (sv_index s + 1) 1 (sv_now s) _ Hok) as Hsok.
  destruct ev as [|now|k|cmd]; simpl.
  - destruct (register_eq c s Hok) as (f & Hd & ->).
    destruct (registration_dispatch (sv_now s) (sv_now s) c _ Hsok) as (f' & Hd' & Hok' & Hfree & Has).
    rewrite Hd in Hd'. injection Hd' as <-. by split; simpl; rewrite ?Hfree, ?Has.
  - destruct (heartbeat_eq now c s) as (data & Hm & ->). split; simpl; try done.
    + rewrite length_app. simpl. lia.
    + apply Forall_app. split; [done|]. constructor; [by eexists|constructor].
  - rewrite Hh. destruct (Nat.ltb_spec k (length (sv_pending s))) as [Hk|Hk].
    + destruct (lookup_lt_is_Some_2 _ _ Hk) as [data Hdata]. rewrite Hdata. simpl.
      destruct (proj1 (Forall_lookup _ _) Hpend _ _ Hdata) as [now Hm]. rewrite (propose_eq _ _ _ Hm). simpl.
      pose proof (heartbeat_dispatch now (sv_now s) c _ Hsok) as Hd.
      assert (Forall (λ data, ∃ now, marshal (heartbeat_command now c) = Some data) (delete k (sv_pending s)))
        as Hrest by (by apply Forall_delete).
      assert (pred (length (sv_pending s)) = length (delete k (sv_pending s))) as Hlen
        by (rewrite length_delete by done; lia).
      destruct (dispatch _ _ _) as [f'|e|]; [|split; try done|done].
      * destruct Hd as (Hok' & Hfree & Has). split; simpl; rewrite ?Hfree, ?Has, ?Hf; done.
      * simpl. rewrite Hf. change (free_slots _ (stamp _ _ _ _)) with (free_slots (ac_launcherID c) (sv_fsm s)) in Hd.
        by rewrite Hd.
    + by rewrite lookup_ge_None_2.
  - destruct (marshal_total (assign_command (sv_now s) cmd)) as [data Hm]. rewrite Hm, (propose_eq _ _ _ Hm).
    destruct (assign_dispatch (sv_now s) (sv_now s) (ac_launcherID c) cmd _ Hsok) as (f' & -> & Hok' & Has & Hfree).
    change (assigned (stamp _ _ _ _)) with (assigned (sv_fsm s)) in *.
    change (free_slots _ (stamp _ _ _ _)) with (free_slots (ac_launcherID c) (sv_fsm s)) in *.
    rewrite <- Hp in *. rewrite <- Hf in *. destruct (bool_decide (ap_PatternId cmd ∈ ca_patterns a)) eqn:Hin.
    + apply bool_decide_eq_true in Hin. split; simpl; try done. rewrite Has. set_solver.
    + by split.
Qed.

(** C17. What the cluster has on record about the capacity of a launcher refines a counter
    of free slots: a registration sets it to the maximum, the assignment of a new pattern
    to the launcher takes one slot while there are any, and a heartbeat, when it is
    proposed, sets it back to the maximum.  So the record counts the patterns assigned
    since the last heartbeat, not the patterns the launcher runs.  In every history, in
    any order of the proposals, the leader follows this counter step by step; it never
    panics. *)
Theorem launcher_capacity_refines c evs b now :
  match run_labels (admin_exec marshal unmarshal c) evs (mkServer (NewAdminStateMachine b) now 0 []),
        run_labels (capacity_step c) evs (mkCapacity None ∅ 0) with
  | Some s, Some a => capacity_of c s a
  | None, None => True
  | _, _ => False
  end.
Proof using marshal_total unmarshal_marshal.
  assert (capacity_of c (mkServer (NewAdminStateMachine b) now 0 []) (mkCapacity None ∅ 0)) as H0.
  { split; simpl; [apply NewAdminStateMachine_ok|by vm_compute|by vm_compute|done|constructor]. }
  revert H0. generalize (mkServer (D := D) (NewAdminStateMachine b) now 0 []) as s, (mkCapacity None ∅ 0) as a.
  induction evs as [|ev evs IH]; intros s a H; simpl; [done|].
  pose proof (capacity_simulation c ev s a H) as Hs.
  destruct (admin_exec _ _ c ev s), (capacity_step c ev a); simpl; try done. by apply IH.
Qed.
End Refinement.

(** ** Concrete histories *)

Module AdminClientDemo.

Definition l1_client : AdminClient := mkAdminClient "l1" "host:7070" "eu" 4.
Definition assign (id : string) : AssignPatternCommand := mkAssignPatternCommand id "orders" "keyvalue" "l1" ∅.
Definition history : list admin_event := [EvRegister; EvAssign (assign "p1"); EvAssign (assign "p2"); EvHeartbeat 7; EvPropose 0].
Definition run (evs : list admin_event) : option (option Z * Z) :=
  (λ s, (free_slots "l1" (sv_fsm s), GetPatternCountForLauncher "l1" (sv_fsm s))) <$>
    run_labels (admin_exec (D := Command) Some Some l1_client) evs (mkServer (NewAdminStateMachine false) 5 0 []).

(** Two patterns take two slots, and the next heartbeat gives them back. *)
Example heartbeat_frees_the_slots :
  run (take 3 history) = Some (Some 2, 2) ∧ run history = Some (Some 4, 2).
Proof. vm_compute. done. Qed.

(** A heartbeat of a launcher that is not registered is acknowledged and has no effect. *)
Example unknown_launcher_is_acknowledged :
  (@sendHeartbeat _ (leader_server (D := Command) Some Some) 7 l1_client (mkServer (NewAdminStateMachine false) 5 0 [])).2 = None ∧
  run [EvHeartbeat 7; EvPropose 0] = Some (None, 0).
Proof. vm_compute. done. Qed.

Lemma launcher_capacity_refines_witness :
  match run_labels (admin_exec (D := Command) Some Some l1_client) history (mkServer (NewAdminStateMachine false) 5 0 []),
        run_labels (capacity_step l1_client) history (mkCapacity None ∅ 0) with
  | Some s, Some a => capacity_of Some l1_client s a
  | None, None => True
  | _, _ => False
  end.
Proof.
  refine (launcher_capacity_refines Some Some _ _ l1_client history false 5).
  - intros cmd. by exists cmd.
  - by intros cmd data [= ->].
Defined.
End AdminClientDemo.
