(* ===== verification/Filter.v ===== *)
(** * patterns/multicast_registry: metadata filters

    filter/ast.go (the filter expressions) and backends/types.go ([Filter.Matches]).
    Metadata values are Go [interface{}] values: a value with its dynamic type.
    Comparing two values of the same uncomparable type (slices, maps) with [==]
    panics; an evaluation returns [None] then. *)

From S2P Require Import Prelude Backoff.
Import GoFloat.
Local Open Scope Z_scope.

(** ** Values *)

(** [VOpaque ty v]: a comparable value of some other type; [VRef ty]: a value of an
    uncomparable type. *)
Inductive value :=
  | VNil
  | VString (s : string)
  | VInt (n : Z)
  | VInt64 (n : Z)
  | VFloat64 (x : float64)
  | VBool (b : bool)
  | VOpaque (ty v : Z)
  | VRef (ty : Z).

Abbreviation metadata := (gmap string value).

Definition string_eqb (a b : string) : bool := bool_decide (a = b).

(** Go's [a == b] on interfaces. *)
Definition iface_eq (a b : value) : option bool :=
  match a, b with
  | VNil, VNil => Some true
  | VString x, VString y => Some (string_eqb x y)
  | VInt x, VInt y | VInt64 x, VInt64 y => Some (x =? y)
  | VFloat64 x, VFloat64 y => Some (f64_eqb x y)
  | VBool x, VBool y => Some (Bool.eqb x y)
  | VOpaque t x, VOpaque u y => Some ((t =? u) && (x =? y))
  | VRef t, VRef u => if t =? u then None else Some false
  | _, _ => Some false
  end.

(** ** ast.go *)

Definition equals (a b : value) : option bool :=
  match a with
  | VString av => Some (match b with VString bv => string_eqb av bv | _ => false end)
  | VInt av => Some (match b with VInt bv => av =? bv | _ => false end)
  | VInt64 av => Some (match b with VInt64 bv => av =? bv | _ => false end)
  | VFloat64 av => Some (match b with VFloat64 bv => f64_eqb av bv | _ => false end)
  | VBool av => Some (match b with VBool bv => Bool.eqb av bv | _ => false end)
  | _ => iface_eq a b
  end.

Definition lessThan (a b : value) : bool :=
  match a, b with
  | VInt av, VInt bv => av <? bv
  | VInt64 av, VInt64 bv => av <? bv
  | VFloat64 av, VFloat64 bv => f64_ltb av bv
  | VString av, VString bv => String.ltb av bv
  | _, _ => false
  end.

Definition greaterThan (a b : value) : bool :=
  match a, b with
  | VInt av, VInt bv => bv <? av
  | VInt64 av, VInt64 bv => bv <? av
  | VFloat64 av, VFloat64 bv => f64_ltb bv av
  | VString av, VString bv => String.ltb bv av
  | _, _ => false
  end.

(** Slices of strings, [s[i:i+n]]. *)
Abbreviation slice s i n := (String.substring i n s).

(** The loop of [findSubstring], [k] positions from [i] on. *)
Fixpoint find_from (s substr : string) (i k : nat) : bool :=
  match k with
  | O => false
  | S k =>
      if string_eqb (slice s i (String.length substr)) substr then true
      else find_from s substr (S i) k
  end.

Definition findSubstring (s substr : string) : bool :=
  if (String.length substr =? 0)%nat then true
  else find_from s substr 0 (S (String.length s) - String.length substr).

Definition contains (s substr : string) : bool :=
  (String.length substr <=? String.length s)%nat && findSubstring s substr.

Local Set Warnings "-register-all".

Inductive FilterNode :=
  | EqualityNode (Field : string) (Value : value)
  | NotEqualNode (Field : string) (Value : value)
  | LessThanNode (Field : string) (Value : value)
  | LessOrEqualNode (Field : string) (Value : value)
  | GreaterThanNode (Field : string) (Value : value)
  | GreaterOrEqualNode (Field : string) (Value : value)
  | StartsWithNode (Field Prefix : string)
  | EndsWithNode (Field Suffix : string)
  | ContainsNode (Field Substring : string)
  | AndNode (Children : list FilterNode)
  | OrNode (Children : list FilterNode)
  | NotNode (Child : FilterNode)
  | ExistsNode (Field : string).

(** The field, absent fields failing the comparison. *)
Definition with_field (f : string) (md : metadata) (k : value → option bool) : option bool :=
  match md !! f with Some actual => k actual | None => Some false end.

(** The field when it is a string. *)
Definition with_string (f : string) (md : metadata) (k : string → bool) : option bool :=
  with_field f md (λ v, Some (match v with VString s => k s | _ => false end)).

Definition or_else (a : bool) (b : option bool) : option bool := if a then Some true else b.

Fixpoint Evaluate (n : FilterNode) (md : metadata) {struct n} : option bool :=
  match n with
  | EqualityNode f v => with_field f md (λ actual, equals actual v)
  | NotEqualNode f v => with_field f md (λ actual, negb <$> equals actual v)
  | LessThanNode f v => with_field f md (λ actual, Some (lessThan actual v))
  | LessOrEqualNode f v =>
      with_field f md (λ actual, or_else (lessThan actual v) (equals actual v))
  | GreaterThanNode f v => with_field f md (λ actual, Some (greaterThan actual v))
  | GreaterOrEqualNode f v =>
      with_field f md (λ actual, or_else (greaterThan actual v) (equals actual v))
  | StartsWithNode f p =>
      with_string f md (λ s,
        (String.length p <=? String.length s)%nat
        && string_eqb (slice s 0 (String.length p)) p)
  | EndsWithNode f p =>
      with_string f md (λ s,
        (String.length p <=? String.length s)%nat
        && string_eqb (slice s (String.length s - String.length p) (String.length p)) p)
  | ContainsNode f p => with_string f md (λ s, contains s p)
  | AndNode children =>
      (fix all (l : list FilterNode) : option bool :=
         match l with
         | [] => Some true
         | c :: l =>
             match Evaluate c md with
             | Some true => all l
             | r => r
             end
         end) children
  | OrNode children =>
      (fix any (l : list FilterNode) : option bool :=
         match l with
         | [] => Some false
         | c :: l =>
             match Evaluate c md with
             | Some false => any l
             | r => r
             end
         end) children
  | NotNode c => negb <$> Evaluate c md
  | ExistsNode f => Some (bool_decide (is_Some (md !! f)))
  end.

(** ** backends/types.go *)

(** [AST] is carried along and never looked at. *)
Record Filter := mkFilter {
  fl_Conditions : gmap string value;
  fl_AST : option FilterNode }.

Definition NewFilter (conditions : gmap string value) : Filter := mkFilter conditions None.

(** The loop over the conditions, in the order of the iteration. *)
Fixpoint match_conditions (conds : list (string * value)) (md : metadata) : option bool :=
  match conds with
  | [] => Some true
  | (key, expected) :: conds =>
      match md !! key with
      | None => Some false
      | Some actual =>
          match iface_eq actual expected with
          | Some true => match_conditions conds md
          | r => r
          end
      end
  end.

(** A nil filter matches everything. *)
Definition Matches (f : option Filter) (md : metadata) : option bool :=
  match f with
  | None => Some true
  | Some f => match_conditions (map_to_list (fl_Conditions f)) md
  end.

(** ** Meaning of filters *)

(** Values that can be compared with [==]. *)
Definition comparable (v : value) : bool := match v with VRef _ => false | _ => true end.

(** Equal values of the same type. *)
Definition same_value (a b : value) : Prop := iface_eq a b = Some true.

(** The meaning of a filter expression. *)
Fixpoint holds (n : FilterNode) (md : metadata) {struct n} : Prop :=
  match n with
  | EqualityNode f v => ∃ a, md !! f = Some a ∧ same_value a v
  | NotEqualNode f v => ∃ a, md !! f = Some a ∧ ¬ same_value a v
  | LessThanNode f v => ∃ a, md !! f = Some a ∧ lessThan a v = true
  | LessOrEqualNode f v => ∃ a, md !! f = Some a ∧ (lessThan a v = true ∨ same_value a v)
  | GreaterThanNode f v => ∃ a, md !! f = Some a ∧ lessThan v a = true
  | GreaterOrEqualNode f v => ∃ a, md !! f = Some a ∧ (lessThan v a = true ∨ same_value a v)
  | StartsWithNode f p => ∃ rest, md !! f = Some (VString (p +:+ rest))
  | EndsWithNode f p => ∃ front, md !! f = Some (VString (front +:+ p))
  | ContainsNode f p => ∃ front rest, md !! f = Some (VString (front +:+ p +:+ rest))
  | AndNode children =>
      (fix all (l : list FilterNode) : Prop :=
         match l with [] => True | c :: l => holds c md ∧ all l end) children
  | OrNode children =>
      (fix any (l : list FilterNode) : Prop :=
         match l with [] => False | c :: l => holds c md ∨ any l end) children
  | NotNode c => ¬ holds c md
  | ExistsNode f => is_Some (md !! f)
  end.

(** ** Strings *)

Lemma substring_all s : slice s 0 (String.length s) = s.
Proof. induction s as [|a s IH]; simpl; [done|]. by rewrite IH. Qed.

Lemma substring_app_front p s : slice (p +:+ s) 0 (String.length p) = p.
Proof. induction p as [|a p IH]; [by destruct s|]. rewrite string_app_cons. simpl. by rewrite IH. Qed.

Lemma substring_app_skip p s n : slice (p +:+ s) (String.length p) n = slice s 0 n.
Proof. induction p as [|a p IH]; [done|]. rewrite string_app_cons. apply IH. Qed.

(** A slice splits its string. *)
Lemma substring_split s i n :
  (i + n ≤ String.length s)%nat →
  ∃ front rest, s = front +:+ slice s i n +:+ rest ∧ String.length front = i.
Proof.
  revert i n. induction s as [|a s IH]; intros i n Hle; simpl in *.
  - assert (i = 0%nat) as -> by lia. assert (n = 0%nat) as -> by lia. by exists "", "".
  - destruct i as [|i].
    + destruct n as [|n]; [by exists "", (String a s)|].
      destruct (IH 0%nat n) as (fr & re & E & Hf); [lia|]. destruct fr; [|done].
      exists "", re. split; [|done]. rewrite string_nil_app in *. simpl.
      rewrite string_app_cons. by f_equal.
    + destruct (IH i n) as (fr & re & E & Hf); [lia|].
      exists (String a fr), re. split; [simpl; rewrite string_app_cons; by f_equal|simpl; lia].
Qed.

Lemma length_append s1 s2 : String.length (s1 +:+ s2) = (String.length s1 + String.length s2)%nat.
Proof. induction s1; [done|]. rewrite string_app_cons. simpl. lia. Qed.

Lemma string_eqb_true a b : string_eqb a b = true ↔ a = b.
Proof. unfold string_eqb. apply bool_decide_eq_true. Qed.

Lemma startswith_true s p :
  (String.length p <=? String.length s)%nat && string_eqb (slice s 0 (String.length p)) p = true ↔
  ∃ rest, s = p +:+ rest.
Proof.
  rewrite andb_true_iff, Nat.leb_le, string_eqb_true. split.
  - intros [Hle E]. destruct (substring_split s 0 (String.length p)) as (fr & re & Es & Hf); [lia|].
    destruct fr; [|done]. exists re. rewrite Es at 1. by rewrite E.
  - intros [re ->]. rewrite length_append. split; [lia|apply substring_app_front].
Qed.

Lemma endswith_true s p :
  (String.length p <=? String.length s)%nat
  && string_eqb (slice s (String.length s - String.length p) (String.length p)) p = true ↔
  ∃ front, s = front +:+ p.
Proof.
  rewrite andb_true_iff, Nat.leb_le, string_eqb_true. split.
  - intros [Hle E].
    destruct (substring_split s (String.length s - String.length p) (String.length p))
      as (fr & re & Es & Hf); [lia|]. rewrite E in Es. exists fr.
    assert (String.length re = 0%nat) as Hre.
    { apply (f_equal String.length) in Es. rewrite !length_append in Es. lia. }
    destruct re; [|done]. by rewrite Es, string_app_nil at 1.
  - intros [fr ->]. rewrite length_append. split; [lia|].
    replace (String.length fr + String.length p - String.length p)%nat
      with (String.length fr) by lia.
    rewrite substring_app_skip. apply substring_all.
Qed.

Lemma find_from_true s p i k :
  find_from s p i k = true ↔ ∃ j, (i ≤ j < i + k)%nat ∧ slice s j (String.length p) = p.
Proof.
  revert i. induction k as [|k IH]; intros i; simpl.
  { split; [done|]. intros (j & Hj & _). lia. }
  destruct (string_eqb _ _) eqn:E.
  - apply string_eqb_true in E. split; [|done]. intros _. exists i. split; [lia|done].
  - rewrite IH. split; intros (j & Hj & Ej).
    + exists j. split; [lia|done].
    + exists j. split; [|done]. destruct (decide (j = i)) as [->|]; [|lia].
      apply string_eqb_true in Ej. congruence.
Qed.

Lemma contains_true s p : contains s p = true ↔ ∃ front rest, s = front +:+ p +:+ rest.
Proof.
  unfold contains, findSubstring. rewrite andb_true_iff, Nat.leb_le. split.
  - intros [Hle Hfind]. destruct (String.length p =? 0)%nat eqn:Hz.
    { apply Nat.eqb_eq in Hz. destruct p; [|done]. by exists "", s. }
    apply find_from_true in Hfind as (j & Hj & E).
    destruct (substring_split s j (String.length p)) as (fr & re & Es & _); [lia|].
    exists fr, re. by rewrite E in Es.
  - intros (fr & re & ->). rewrite !length_append. split; [lia|].
    destruct (String.length p =? 0)%nat eqn:Hz; [done|].
    apply find_from_true. exists (String.length fr). split; [lia|].
    rewrite substring_app_skip. apply substring_app_front.
Qed.

(** ** Evaluation computes the meaning *)

Definition all_comparable (md : metadata) : Prop :=
  ∀ k v, md !! k = Some v → comparable v = true.

Lemma iface_eq_comparable a b : comparable a = true → is_Some (iface_eq a b).
Proof. intros Ha. destruct a, b; try done; eexists; done. Qed.

Lemma equals_iface_eq a b : equals a b = iface_eq a b.
Proof. by destruct a, b. Qed.

Lemma greaterThan_lessThan a b : greaterThan a b = lessThan b a.
Proof. by destruct a, b. Qed.

(** [o] is a defined answer that decides [P]. *)
Definition decides (o : option bool) (P : Prop) : Prop :=
  ∃ b, o = Some b ∧ (b = true ↔ P).

Lemma decides_equals a b : comparable a = true → decides (equals a b) (same_value a b).
Proof.
  intros Ha. rewrite equals_iface_eq. destruct (iface_eq_comparable a b Ha) as [r Hr].
  exists r. split; [done|]. unfold same_value. rewrite Hr. split; [by intros ->|by intros [= ->]].
Qed.

Lemma decides_negb o P : decides o P → decides (negb <$> o) (¬ P).
Proof.
  intros (b & -> & Hb). exists (negb b). split; [done|]. rewrite negb_true_iff, <- Hb.
  by destruct b.
Qed.

Lemma decides_or a o P : decides o P → decides (or_else a o) (a = true ∨ P).
Proof.
  intros (b & -> & Hb). unfold or_else. destruct a; eexists; (split; [done|]).
  - split; [by left|done].
  - rewrite Hb. split; [by right|by intros [?|?]].
Qed.

Lemma decides_Some b P : (b = true ↔ P) → decides (Some b) P.
Proof. intros H. by exists b. Qed.

Lemma decides_field f md k (P : value → Prop) :
  (∀ a, md !! f = Some a → decides (k a) (P a)) →
  decides (with_field f md k) (∃ a, md !! f = Some a ∧ P a).
Proof.
  intros H. unfold with_field. destruct (md !! f) as [a|].
  - destruct (H a eq_refl) as (b & -> & Hb). exists b. split; [done|]. rewrite Hb.
    split; [by eauto|]. by intros (? & [= ->] & ?).
  - exists false. split; [done|]. split; [done|]. by intros (? & ? & ?).
Qed.

Lemma decides_iff o P Q : (P ↔ Q) → decides o P → decides o Q.
Proof. intros HPQ (b & -> & Hb). exists b. split; [done|]. by rewrite Hb. Qed.

(** String conditions. *)
Lemma decides_string f md k {A} (g : A → string) :
  (∀ s, k s = true ↔ ∃ x, s = g x) →
  decides (with_string f md k) (∃ x, md !! f = Some (VString (g x))).
Proof.
  intros H. eapply decides_iff; [|apply (decides_field f md _
    (λ a, match a with VString s => ∃ x, s = g x | _ => False end))].
  - split.
    + intros (a & Ha & Hs). destruct a; try done. destruct Hs as [x ->]. by exists x.
    + intros [x Hx]. exists (VString (g x)). split; [done|]. by exists x.
  - intros a _. apply decides_Some. destruct a; first [apply H|done].
Qed.

Lemma Evaluate_decides md : all_comparable md → ∀ n, decides (Evaluate n md) (holds n md).
Proof.
  intros Hmd. fix IH 1. intros n.
  destruct n as [f v|f v|f v|f v|f v|f v|f p|f p|f p|cs|cs|c|f]; simpl.
  - apply decides_field. intros a Ha. apply decides_equals. by eapply Hmd.
  - apply decides_field. intros a Ha. apply decides_negb, decides_equals. by eapply Hmd.
  - apply decides_field. intros a Ha. by apply decides_Some.
  - apply decides_field. intros a Ha. apply decides_or, decides_equals. by eapply Hmd.
  - apply decides_field. intros a Ha. apply decides_Some. by rewrite greaterThan_lessThan.
  - apply decides_field. intros a Ha. rewrite greaterThan_lessThan.
    apply decides_or, decides_equals. by eapply Hmd.
  - apply (decides_string f md _ (λ rest, p +:+ rest)). intros s. apply startswith_true.
  - apply (decides_string f md _ (λ front, front +:+ p)). intros s. apply endswith_true.
  - eapply decides_iff; [|apply (decides_string f md _ (λ '(front, rest), front +:+ p +:+ rest))].
    + split; [intros [[x y] ?]; by exists x, y|intros (x & y & ?); by exists (x, y)].
    + intros s. rewrite contains_true.
      split; [intros (x & y & ->); by exists (x, y)|intros [[x y] ->]; by exists x, y].
  - induction cs as [|c cs IHcs]; [by apply decides_Some|].
    destruct (IH c) as ([] & -> & Hc).
    + eapply decides_iff; [|apply IHcs]. split; [|by intros [_ ?]]. split; [by apply Hc|done].
    + apply decides_Some. split; [done|]. intros [?%Hc _]. done.
  - induction cs as [|c cs IHcs]; [by apply decides_Some|].
    destruct (IH c) as ([] & -> & Hc).
    + apply decides_Some. split; [|done]. intros _. left. by apply Hc.
    + eapply decides_iff; [|apply IHcs]. split; [by right|]. intros [?%Hc|?]; done.
  - apply decides_negb, IH.
  - apply decides_Some. apply bool_decide_eq_true.
Qed.

(** C31. Filter expressions are evaluated according to their meaning: on metadata whose
      values are comparable, evaluation never panics and returns true exactly when
      the expression holds (substring, prefix and suffix tests as decompositions of
      the string, comparisons within one type, AND, OR and NOT as the logical
      connectives, comparisons with absent fields failing). *)
Theorem filter_evaluation_correct n md :
  all_comparable md → ∃ b, Evaluate n md = Some b ∧ (b = true ↔ holds n md).
Proof. intros H. apply Evaluate_decides, H. Qed.

Lemma match_conditions_decides conds md :
  all_comparable md →
  decides (match_conditions conds md)
    (∀ k v, (k, v) ∈ conds → ∃ a, md !! k = Some a ∧ same_value a v).
Proof.
  intros Hmd. induction conds as [|[k v] conds IH]; simpl.
  { apply decides_Some. split; [|done]. intros _ k v Hin. by apply not_elem_of_nil in Hin. }
  destruct (md !! k) as [a|] eqn:Ha.
  - destruct (iface_eq_comparable a v (Hmd _ _ Ha)) as [[] E]; rewrite E.
    + eapply decides_iff; [|exact IH]. split.
      * intros H k' v' [[= -> ->]|Hin]%elem_of_cons; [by exists a|by apply H].
      * intros H k' v' Hin. apply H. by apply list_elem_of_further.
    + apply decides_Some. split; [done|]. intros H.
      destruct (H k v (list_elem_of_here _ _)) as (a' & Ha' & Hs). unfold same_value in Hs.
      congruence.
  - apply decides_Some. split; [done|]. intros H.
    destruct (H k v (list_elem_of_here _ _)) as (a' & Ha' & _). congruence.
Qed.

Lemma Matches_decides f md :
  all_comparable md →
  decides (Matches (Some f) md)
    (∀ k v, fl_Conditions f !! k = Some v → ∃ a, md !! k = Some a ∧ same_value a v).
Proof.
  intros Hmd. eapply decides_iff; [|by apply match_conditions_decides].
  split; intros H k v Hk; apply H; by apply elem_of_map_to_list.
Qed.

(** [Filter.Matches] is the conjunction of its equality conditions; the filter
      expression in [AST] has no influence, so a filter that only has an expression
      matches everything. *)
Theorem Matches_correct f md :
  all_comparable md →
  (∃ b, Matches (Some f) md = Some b ∧
     (b = true ↔ ∀ k v, fl_Conditions f !! k = Some v →
                    ∃ a, md !! k = Some a ∧ same_value a v)) ∧
  (∀ ast, Matches (Some (mkFilter (fl_Conditions f) ast)) md = Matches (Some f) md) ∧
  (∀ ast, Matches (Some (mkFilter ∅ ast)) md = Some true).
Proof. intros H. split_and!; [by apply Matches_decides|done|done]. Qed.

Module FilterDemo.
Definition md : metadata :=
  {[ "status"%string := VString "online"; "age"%string := VInt 7 ]}.

Lemma md_comparable : all_comparable md.
Proof.
  intros k v. unfold md. rewrite lookup_insert_Some, lookup_singleton_Some.
  intros [[_ <-]|[_ [_ <-]]]; done.
Qed.

Lemma filter_evaluation_correct_witness :
  ∃ b, Evaluate (AndNode [ContainsNode "status" "nli"; NotNode (LessThanNode "age" (VInt 3))]) md
       = Some b ∧
       (b = true ↔
        holds (AndNode [ContainsNode "status" "nli"; NotNode (LessThanNode "age" (VInt 3))]) md).
Proof.
  apply (filter_evaluation_correct
    (AndNode [ContainsNode "status" "nli"; NotNode (LessThanNode "age" (VInt 3))]) md).
  apply md_comparable.
Defined.

Definition online : Filter := NewFilter {[ "status"%string := VString "online" ]}.

Lemma Matches_correct_witness :
  ∃ b, Matches (Some online) md = Some b ∧
    (b = true ↔ ∀ k v, fl_Conditions online !! k = Some v →
                  ∃ a, md !! k = Some a ∧ same_value a v).
Proof. apply (Matches_correct online md). apply md_comparable. Defined.

(** Comparing two slices of the same type panics. *)
Example uncomparable_values_panic :
  Matches (Some (NewFilter {[ "tags"%string := VRef 1 ]})) {[ "tags"%string := VRef 1 ]} = None.
Proof. vm_compute. reflexivity. Qed.

(** An [int] in the filter never equals the [float64] that JSON decodes to. *)
Example int_and_float_differ :
  Evaluate (EqualityNode "age" (VInt 7)) {[ "age"%string := VFloat64 (f64_of_int 7) ]} = Some false.
Proof. vm_compute. reflexivity. Qed.
End FilterDemo.
