(* ===== verification/Coordinator.v ===== *)
(** * patterns/multicast_registry/coordinator.go: the multicast registry

    The coordinator keeps the registered identities in memory and in a registry
    backend, and fans a message out to the ones a filter selects.  The backends are
    used through the interfaces of slots.go: [RegistryBackend] and
    [MessagingBackend] below; mocks.go provides the instances.  Registration,
    removal and cleanup hold the coordinator's lock, so they are single steps; the
    deliveries of a multicast run in parallel and are interleaved attempt by
    attempt.  [now] is a clock reading; an enumeration reads the clock for each
    identity it meets, so its [clock] gives the reading per identity. *)

From S2P Require Import Prelude Filter.
Local Open Scope Z_scope.

(** ** backends/types.go and config.go *)

Record Identity := mkIdentity {
  id_ID : string;
  id_Metadata : metadata;
  id_RegisteredAt : Z;
  id_ExpiresAt : option Z;
  id_TTL : Z }.

(** The settings the coordinator reads. *)
Record Config := mkConfig {
  cf_MaxIdentities : Z;
  cf_TopicPrefix : string;
  cf_RetryAttempts : Z }.

Definition DefaultConfig : Config := mkConfig 0 "" 3.

(** A record of [identity] registered at [now]. *)
Definition new_identity (now : Z) (identity : string) (md : metadata) (ttl : Z) : Identity :=
  mkIdentity identity md now (if 0 <? ttl then Some (now + ttl) else None) ttl.

Definition expired (now : Z) (i : Identity) : bool :=
  match id_ExpiresAt i with Some t => After now t | None => false end.

(** ** slots.go *)

(** What a registry backend promises: the set of the identities it stores. The
    boolean of an operation is whether it returned no error; an operation that
    failed may have taken effect. [rb_Enumerate] is [None] when the backend has
    no native filtering. *)
Class RegistryBackend (R : Type) := {
  rb_Set : Z → string → metadata → Z → R → R * bool;
  rb_Delete : string → R → R * bool;
  rb_Enumerate : option Filter → R → option (list Identity);
  rb_Close : R → bool;
  rb_ids : R → gset string;
  rb_Set_ids now id md ttl r r' ok :
    rb_Set now id md ttl r = (r', ok) →
    rb_ids r ⊆ rb_ids r' ⊆ {[id]} ∪ rb_ids r ∧ (ok = true → id ∈ rb_ids r');
  rb_Delete_ids id r r' ok :
    rb_Delete id r = (r', ok) →
    rb_ids r ∖ {[id]} ⊆ rb_ids r' ⊆ rb_ids r ∧ (ok = true → id ∉ rb_ids r') }.

(** What a messaging backend promises: the messages it accepted per topic.  A publish
    that fails may have taken effect all the same. *)
Class MessagingBackend (M : Type) := {
  mb_Publish : string → list Z → M → M * bool;
  mb_Close : M → bool;
  mb_published : M → string → list (list Z);
  mb_Publish_published topic payload m m' ok :
    mb_Publish topic payload m = (m', ok) →
    ∃ accepted : bool, (ok = true → accepted = true) ∧
      ∀ t, mb_published m' t =
        if accepted && bool_decide (t = topic) then mb_published m t ++ [payload] else mb_published m t }.

(** A backend whose failed publishes have no effect. *)
Definition exact_messaging (M : Type) `{!MessagingBackend M} : Prop :=
  ∀ topic payload (m m' : M), mb_Publish topic payload m = (m', false) →
    ∀ t, mb_published m' t = mb_published m t.

(** ** mocks.go *)

Definition MockRegistryBackend : Type := gmap string Identity.

Definition mock_Set (now : Z) (identity : string) (md : metadata) (ttl : Z)
    (data : MockRegistryBackend) : MockRegistryBackend * bool :=
  (<[identity := new_identity now identity md ttl]> (data : gmap string Identity), true).
Definition mock_Get (now : Z) (identity : string) (data : MockRegistryBackend) : option Identity :=
  match (data : gmap string Identity) !! identity with
  | Some id => if expired now id then None else Some id
  | None => None
  end.
Definition mock_Scan (now : Z) (data : MockRegistryBackend) : list Identity :=
  List.filter (λ id, negb (expired now id)) (map_to_list (data : gmap string Identity)).*2.
Definition mock_Delete (identity : string) (data : MockRegistryBackend)
    : MockRegistryBackend * bool :=
  (delete identity (data : gmap string Identity), true).

#[export, refine] Instance MockRegistryBackend_RegistryBackend
    : RegistryBackend MockRegistryBackend := {|
  rb_Set := mock_Set;
  rb_Delete := mock_Delete;
  rb_Enumerate := λ _ _, None;
  rb_Close := λ _, true;
  rb_ids := λ data, dom (data : gmap string Identity) |}.
Proof.
  - intros now id md ttl r r' ok [= <- <-]. rewrite dom_insert_L. split_and!; set_solver.
  - intros id r r' ok [= <- <-]. rewrite dom_delete_L. split_and!; set_solver.
Defined.

Definition MockMessagingBackend : Type := gmap string (list (list Z)).

Definition mock_Publish (topic : string) (payload : list Z) (m : MockMessagingBackend)
    : MockMessagingBackend * bool :=
  let m : gmap string (list (list Z)) := m in
  (<[topic := default [] (m !! topic) ++ [payload]]> m, true).

#[export, refine] Instance MockMessagingBackend_MessagingBackend
    : MessagingBackend MockMessagingBackend := {|
  mb_Publish := mock_Publish;
  mb_Close := λ _, true;
  mb_published := λ m topic, default [] ((m : gmap string (list (list Z))) !! topic) |}.
Proof.
  intros topic payload m m' ok [= <- <-]. exists true. split; [done|]. intros t. simpl. case_bool_decide; subst.
  - by rewrite lookup_insert_eq.
  - by rewrite lookup_insert_ne.
Defined.

(** A messaging backend that fails the first publish attempts. *)
Record MockMessagingBackendWithFailures := mkMockFailures {
  mf_failuresRemaining : Z;
  mf_backend : MockMessagingBackend }.

Definition mock_failing_Publish (topic : string) (payload : list Z)
    (m : MockMessagingBackendWithFailures) : MockMessagingBackendWithFailures * bool :=
  if 0 <? mf_failuresRemaining m
  then (mkMockFailures (mf_failuresRemaining m - 1) (mf_backend m), false)
  else
    let '(b, ok) := mock_Publish topic payload (mf_backend m) in
    (mkMockFailures (mf_failuresRemaining m) b, ok).

#[export, refine] Instance MockMessagingBackendWithFailures_MessagingBackend
    : MessagingBackend MockMessagingBackendWithFailures := {|
  mb_Publish := mock_failing_Publish;
  mb_Close := λ _, true;
  mb_published := λ m, mb_published (mf_backend m) |}.
Proof.
  intros topic payload m m' ok. unfold mock_failing_Publish.
  case_match; [intros [= <- <-]; by exists false|].
  destruct (mock_Publish topic payload (mf_backend m)) as [b ok'] eqn:E. intros [= <- <-].
  simpl. exact (mb_Publish_published topic payload (mf_backend m) b ok' E).
Defined.

Lemma mock_failing_exact : exact_messaging MockMessagingBackendWithFailures.
Proof.
  intros topic payload m m'. simpl. unfold mock_failing_Publish. case_match; [by intros [= <-]|done].
Qed.

(** ** The coordinator *)

Inductive coordinator_error :=
  | ErrAlreadyRegistered (identity : string)
  | ErrMaxIdentities (n : Z)
  | ErrRegistrySet
  | ErrRegistryDelete
  | ErrRegistryRequired
  | ErrMessagingRequired.

(** The errors [Close] collects. *)
Inductive close_error :=
  | ErrRegistryClose
  | ErrMessagingClose
  | ErrDurabilityClose.

Section Coordinator.
Context {R : Type} `{!RegistryBackend R} (config : Config).

Record Coordinator := mkCoordinator {
  co_registry : R;
  co_identities : gmap string Identity;
  co_stopped : bool  (* [stopCleanup] is closed *) }.

Definition new_coordinator (registry : R) : Coordinator := mkCoordinator registry ∅ false.

Definition set_registry (registry : R) (c : Coordinator) : Coordinator :=
  mkCoordinator registry (co_identities c) (co_stopped c).
Definition set_identities (ids : gmap string Identity) (c : Coordinator) : Coordinator :=
  mkCoordinator (co_registry c) ids (co_stopped c).

Definition Register (now : Z) (identity : string) (md : metadata) (ttl : Z)
    (c : Coordinator) : Coordinator * option coordinator_error :=
  match co_identities c !! identity with
  | Some _ => (c, Some (ErrAlreadyRegistered identity))
  | None =>
      if (0 <? cf_MaxIdentities config)
         && (cf_MaxIdentities config <=? Z.of_nat (size (co_identities c)))
      then (c, Some (ErrMaxIdentities (cf_MaxIdentities config)))
      else
        let id := new_identity now identity md ttl in
        let '(registry, ok) := rb_Set now identity md ttl (co_registry c) in
        if negb ok then (set_registry registry c, Some ErrRegistrySet)
        else 
          (set_identities (<[identity := id]> (co_identities c)) (set_registry registry c), None)
  end.

(** The client-side loop of [Enumerate]. *)
Fixpoint select (clock : string → Z) (filter : option Filter) (ids : list Identity)
    : option (list Identity) :=
  match ids with
  | [] => Some []
  | i :: ids =>
      if expired (clock (id_ID i)) i then select clock filter ids
      else
        match Matches filter (id_Metadata i) with
        | None => None
        | Some true => cons i <$> select clock filter ids
        | Some false => select clock filter ids
        end
  end.

(** [None] is a panic of the filter. *)
Definition Enumerate (clock : string → Z) (filter : option Filter) (c : Coordinator)
    : option (list Identity) :=
  match rb_Enumerate filter (co_registry c) with
  | Some results => Some results
  | None => select clock filter (map_to_list (co_identities c)).*2
  end.

Definition Unregister (identity : string) (c : Coordinator)
    : Coordinator * option coordinator_error :=
  match co_identities c !! identity with
  | None => (c, None)
  | Some _ =>
      let '(registry, ok) := rb_Delete identity (co_registry c) in
      if negb ok then (set_registry registry c, Some ErrRegistryDelete)
      else 
        (set_identities (delete identity (co_identities c)) (set_registry registry c), None)
  end.

Definition cleanup_one (c : Coordinator) (id : string) : Coordinator :=
  set_identities (delete id (co_identities c)) (set_registry (rb_Delete id (co_registry c)).1 c).

Definition performCleanup (now : Z) (c : Coordinator) : Coordinator :=
  let expired_ids :=
    (List.filter (λ e, expired now e.2) (map_to_list (co_identities c))).*1 in
  foldl cleanup_one c expired_ids.

Definition identityTopic (identity : string) : string :=
  (if bool_decide (cf_TopicPrefix config = ""%string)
   then "prism.multicast."%string else cf_TopicPrefix config) +:+ identity.

(** *** Multicast *)

Inductive DeliveryStatus :=
  | DeliveryStatusDelivered
  | DeliveryStatusPending
  | DeliveryStatusFailed
  | DeliveryStatusTimeout.

Record DeliveryResult := mkDeliveryResult {
  dr_Identity : string;
  dr_Status : DeliveryStatus }.

Record MulticastResponse := mkMulticastResponse {
  mr_TargetCount : nat;
  mr_DeliveredCount : nat;
  mr_FailedCount : nat;
  mr_Results : list DeliveryResult }.

Context {M : Type} `{!MessagingBackend M} (payload : list Z).

(** A delivery goroutine: its identity and how many attempts it has left, [None]
    once it has sent its result. *)
Record delivery := mkDelivery { dl_id : string; dl_left : option nat }.

(** The fan-out: the goroutines, the results in the order they were sent, and the
    messaging backend. *)
Record fanout := mkFanout {
  fo_deliveries : list delivery;
  fo_results : list DeliveryResult;
  fo_messaging : M }.

(** Attempts [0..RetryAttempts]. *)
Definition attempts : nat := Z.to_nat (cf_RetryAttempts config + 1).

Definition start_fanout (targets : list Identity) (m : M) : fanout :=
  mkFanout ((λ i, mkDelivery (id_ID i) (Some attempts)) <$> targets) [] m.

(** The next step of goroutine [i]: an attempt, or the result after the last one. *)
Definition deliver (i : nat) (f : fanout) : option fanout :=
  match fo_deliveries f !! i with
  | Some (mkDelivery id (Some n)) =>
      match n with
      | O =>
          Some (mkFanout (<[i := mkDelivery id None]> (fo_deliveries f))
                  (fo_results f ++ [mkDeliveryResult id DeliveryStatusFailed])
                  (fo_messaging f))
      | S n =>
          let '(m, ok) := mb_Publish (identityTopic id) payload (fo_messaging f) in
          if ok then
            Some (mkFanout (<[i := mkDelivery id None]> (fo_deliveries f))
                    (fo_results f ++ [mkDeliveryResult id DeliveryStatusDelivered]) m)
          else
            Some (mkFanout (<[i := mkDelivery id (Some n)]> (fo_deliveries f))
                    (fo_results f) m)
      end
  | _ => None
  end.

Fixpoint deliver_all (schedule : list nat) (f : fanout) : option fanout :=
  match schedule with
  | [] => Some f
  | i :: schedule => f' ← deliver i f; deliver_all schedule f'
  end.

(** [wg.Wait()] returns. *)
Definition all_sent (f : fanout) : bool :=
  forallb (λ d, match dl_left d with None => true | Some _ => false end) (fo_deliveries f).

Definition is_delivered (r : DeliveryResult) : bool :=
  match dr_Status r with DeliveryStatusDelivered => true | _ => false end.

(** The aggregation loop. *)
Definition aggregate (n : nat) (results : list DeliveryResult) : MulticastResponse :=
  foldl (λ resp r,
           if is_delivered r
           then mkMulticastResponse (mr_TargetCount resp) (S (mr_DeliveredCount resp))
                  (mr_FailedCount resp) (mr_Results resp ++ [r])
           else mkMulticastResponse (mr_TargetCount resp) (mr_DeliveredCount resp)
                  (S (mr_FailedCount resp)) (mr_Results resp ++ [r]))
    (mkMulticastResponse n 0 0 []) results.

(** A multicast whose deliveries are interleaved by [schedule]; [None] when the
    filter panics or the schedule does not run the deliveries to their end. *)
Definition Multicast (clock : string → Z) (filter : option Filter) (schedule : list nat)
    (c : Coordinator) (m : M) : option (MulticastResponse * M) :=
  targets ← Enumerate clock filter c;
  f ← deliver_all schedule (start_fanout targets m);
  if all_sent f then Some (aggregate (length targets) (fo_results f), fo_messaging f)
  else None.

(** Closing [stopCleanup] a second time panics ([None]); otherwise the backends are
    closed one after the other, whatever errors occur.  [durability] is whether the
    optional durability backend, when there is one, closes without an error. *)
Definition Close (m : M) (durability : option bool) (c : Coordinator)
    : option (Coordinator * list close_error) :=
  if co_stopped c then None
  else
    Some (mkCoordinator (co_registry c) (co_identities c) true,
          (if rb_Close (co_registry c) then [] else [ErrRegistryClose]) ++
          (if mb_Close m then [] else [ErrMessagingClose]) ++
          match durability with Some false => [ErrDurabilityClose] | _ => [] end).
End Coordinator.

(** A missing configuration is replaced by the default one; the registry and the
    messaging backend are required. *)
Definition NewCoordinator {R M} (config : option Config) (registry : option R)
    (messaging : option M) : result coordinator_error (Config * @Coordinator R * M) :=
  let config := default DefaultConfig config in
  match registry, messaging with
  | None, _ => Err ErrRegistryRequired
  | Some _, None => Err ErrMessagingRequired
  | Some r, Some m => Ok (config, new_coordinator r, m)
  end.
