(* ===== verification/CoordinatorSpec.v ===== *)
(** * Correctness of the multicast registry

    The registered identities: uniqueness, the limit, expiry, agreement with the
    registry backend, and what an enumeration returns.  A multicast: it terminates
    under every schedule of its deliveries, accounts for every target once, and
    publishes exactly one message for every target it reports as delivered. *)

From S2P Require Import Prelude Filter Coordinator.
Local Open Scope Z_scope.

Section Registry.
Context {R : Type} `{!RegistryBackend R} (config : Config).
Implicit Types (c : @Coordinator R).

(** ** Invariant *)

Record co_inv c : Prop := {
  ci_key k i : co_identities c !! k = Some i → id_ID i = k;
  ci_expiry k i : co_identities c !! k = Some i →
    id_ExpiresAt i = if 0 <? id_TTL i then Some (id_RegisteredAt i + id_TTL i) else None;
  ci_max : 0 < cf_MaxIdentities config →
    Z.of_nat (size (co_identities c)) ≤ cf_MaxIdentities config }.

Inductive co_op :=
  | OpRegister (now : Z) (identity : string) (md : metadata) (ttl : Z)
  | OpUnregister (identity : string)
  | OpCleanup (now : Z).

Definition co_step c (op : co_op) : Coordinator :=
  match op with
  | OpRegister now identity md ttl => (Register config now identity md ttl c).1
  | OpUnregister identity => (Unregister identity c).1
  | OpCleanup now => performCleanup now c
  end.

Lemma inv_delete c r k :
  co_inv c → co_inv (set_identities (delete k (co_identities c)) (set_registry r c)).
Proof.
  intros [H1 H2 H3]. split; simpl.
  - intros k' i [_ ?]%lookup_delete_Some. eauto.
  - intros k' i [_ ?]%lookup_delete_Some. eauto.
  - intros Hm. pose proof (map_subseteq_size _ _ (delete_subseteq (co_identities c) k)).
    specialize (H3 Hm). lia.
Qed.

Lemma inv_registry c r : co_inv c → co_inv (set_registry r c).
Proof. by intros [H1 H2 H3]; split. Qed.

Lemma inv_Register now identity md ttl c :
  co_inv c → co_inv (Register config now identity md ttl c).1.
Proof.
  intros Hinv. unfold Register. destruct (co_identities c !! identity) eqn:Hl; [done|].
  case_match eqn:Hmax; [done|]. destruct (rb_Set _ _ _ _ _) as [r ok].
  destruct ok; simpl; [|by apply inv_registry]. destruct Hinv as [H1 H2 H3]. split; simpl.
  - intros k i [[<- <-]|[_ ?]]%lookup_insert_Some; [done|eauto].
  - intros k i [[<- <-]|[_ ?]]%lookup_insert_Some; [done|eauto].
  - intros Hm. rewrite map_size_insert_None by done. bool_to_prop.
    destruct Hmax as [?|?]; bool_to_prop; lia.
Qed.

Lemma inv_Unregister identity c : co_inv c → co_inv (Unregister identity c).1.
Proof.
  intros Hinv. unfold Unregister. case_match; [|done].
  destruct (rb_Delete _ _) as [r []]; simpl; [by apply inv_delete|by apply inv_registry].
Qed.

Lemma inv_cleanup now c : co_inv c → co_inv (performCleanup now c).
Proof.
  unfold performCleanup. generalize (List.filter (λ e, expired now e.2)
    (map_to_list (co_identities c))).*1. intros l. revert c.
  induction l as [|k l IH]; intros c Hinv; [done|]. simpl. apply IH.
  unfold cleanup_one. by apply inv_delete.
Qed.

Hint Resolve inv_Register inv_Unregister inv_cleanup : prism.

Lemma inv_new r : co_inv (new_coordinator r).
Proof.
  split; simpl; [intros ??; by rewrite lookup_empty..|]. rewrite map_size_empty. lia.
Qed.

Lemma inv_run c ops : co_inv c → co_inv (foldl co_step c ops).
Proof.
  revert c. induction ops as [|op ops IH]; intros c Hinv; [done|]. simpl. apply IH.
  destruct op; simpl; auto with prism.
Qed.

(** ** Cleanup *)

Lemma cleanup_lookup l c k :
  co_identities (foldl cleanup_one c l) !! k =
    if bool_decide (k ∈ l) then None else co_identities c !! k.
Proof.
  revert c. induction l as [|k' l IH]; intros c; [done|]. simpl. rewrite IH. simpl.
  destruct (decide (k = k')) as [->|Hne].
  - rewrite (bool_decide_eq_true_2 (k' ∈ k' :: l)) by apply list_elem_of_here.
    case_bool_decide; [done|]. apply lookup_delete_eq.
  - rewrite lookup_delete_ne by done.
    rewrite (bool_decide_ext (k ∈ k' :: l) (k ∈ l)) by (rewrite elem_of_cons; tauto). done.
Qed.

(** A cleanup removes exactly the expired identities, even when the registry
      backend fails to delete some of them. *)
Theorem performCleanup_correct now c k :
  co_identities (performCleanup now c) !! k =
    match co_identities c !! k with
    | Some i => if expired now i then None else Some i
    | None => None
    end.
Proof.
  unfold performCleanup. rewrite cleanup_lookup.
  assert (k ∈ (List.filter (λ e, expired now e.2) (map_to_list (co_identities c))).*1 ↔
          ∃ i, co_identities c !! k = Some i ∧ expired now i = true) as Hin.
  { rewrite list_elem_of_fmap. setoid_rewrite list_elem_of_In. setoid_rewrite filter_In.
    setoid_rewrite <- list_elem_of_In. split.
    - intros ([k' i] & -> & Hl%elem_of_map_to_list & He). eauto.
    - intros (i & Hl%elem_of_map_to_list & He). by exists (k, i). }
  case_bool_decide as Hk.
  - apply Hin in Hk as (i & -> & ->). done.
  - destruct (co_identities c !! k) as [i|] eqn:Hl; [|done].
    destruct (expired now i) eqn:He; [|done]. exfalso. apply Hk, Hin. eauto.
Qed.

(** ** Enumeration *)

Definition filter_holds (filter : option Filter) (md : metadata) : Prop :=
  match filter with
  | None => True
  | Some f => ∀ k v, fl_Conditions f !! k = Some v → ∃ a, md !! k = Some a ∧ same_value a v
  end.

Lemma filter_holds_decides filter md :
  all_comparable md → decides (Matches filter md) (filter_holds filter md).
Proof.
  intros Hmd. destruct filter as [f|]; [by apply Matches_decides|]. by apply decides_Some.
Qed.

Lemma select_spec clock filter ids :
  (∀ i, i ∈ ids → all_comparable (id_Metadata i)) →
  ∃ l, select clock filter ids = Some l ∧ l `sublist_of` ids ∧
    ∀ i, i ∈ l ↔ i ∈ ids ∧ expired (clock (id_ID i)) i = false ∧ filter_holds filter (id_Metadata i).
Proof.
  induction ids as [|i ids IH]; intros Hcmp.
  { exists []. split_and!; [done|done|]. intros i. split; [by intros ?%not_elem_of_nil|].
    by intros [? _]. }
  destruct IH as (l & Hl & Hsub & Hin).
  { intros j Hj. apply Hcmp. by apply list_elem_of_further. }
  assert (∀ j, ¬ (expired (clock (id_ID i)) i = false ∧ filter_holds filter (id_Metadata i)) →
    j ∈ l ↔ j ∈ i :: ids ∧ expired (clock (id_ID j)) j = false ∧ filter_holds filter (id_Metadata j)) as Hskip.
  { intros j Hno. rewrite Hin, elem_of_cons. split; [tauto|].
    intros [[->|?] ?]; [by apply Hno in H|tauto]. }
  simpl. destruct (expired (clock (id_ID i)) i) eqn:He.
  { exists l. split_and!; [done|by constructor|]. intros j. apply Hskip. by intros [? _]. }
  destruct (filter_holds_decides filter (id_Metadata i)) as ([] & -> & Hb).
  { apply Hcmp, list_elem_of_here. }
  - rewrite Hl. simpl. exists (i :: l). split_and!; [done|by constructor|].
    intros j. rewrite !elem_of_cons, Hin. split.
    + intros [->|?]; [|tauto]. split_and!; [by left|done|by apply Hb].
    + intros [[->|?] ?]; tauto.
  - exists l. split_and!; [done|by constructor|]. intros j. apply Hskip.
    intros [_ ?%Hb]. done.
Qed.

(** C26. Without native filtering in the backend, and with comparable metadata, an
      enumeration does not panic and returns exactly the registered identities
      that have not expired and whose metadata satisfies every condition of the
      filter, each of them once. *)
Theorem Enumerate_correct clock filter c :
  co_inv c → rb_Enumerate filter (co_registry c) = None →
  (∀ k i, co_identities c !! k = Some i → all_comparable (id_Metadata i)) →
  ∃ l, Enumerate clock filter c = Some l ∧ NoDup (id_ID <$> l) ∧
    ∀ i, i ∈ l ↔ co_identities c !! id_ID i = Some i ∧ expired (clock (id_ID i)) i = false ∧
                 filter_holds filter (id_Metadata i).
Proof.
  intros [Hkey _ _] Hnat Hcmp. unfold Enumerate. rewrite Hnat.
  assert (∀ i, i ∈ (map_to_list (co_identities c)).*2 ↔ co_identities c !! id_ID i = Some i)
    as Hel.
  { intros i. rewrite list_elem_of_fmap. split.
    - intros ([k i'] & -> & Hl%elem_of_map_to_list). simpl. by rewrite (Hkey _ _ Hl).
    - intros Hl. exists (id_ID i, i). split; [done|]. by apply elem_of_map_to_list. }
  destruct (select_spec clock filter (map_to_list (co_identities c)).*2) as (l & -> & Hsub & Hin).
  { intros i Hi%Hel. by eapply Hcmp. }
  exists l. split_and!; [done| |].
  - assert (id_ID <$> (map_to_list (co_identities c)).*2 = (map_to_list (co_identities c)).*1)
      as E.
    { rewrite <- list_fmap_compose. apply list_fmap_ext. intros n [k i] Hn. simpl.
      apply Hkey. by apply elem_of_map_to_list, list_elem_of_lookup_2 with n. }
    eapply sublist_NoDup; [|by apply (fmap_sublist id_ID)].
    rewrite E. apply NoDup_fst_map_to_list.
  - intros i. by rewrite Hin, Hel.
Qed.
End Registry.

(** A coordinator is created exactly when both backends are there, and then,
      whatever sequence of registrations, removals and cleanups runs, and whatever
      errors the backend returns: every identity is stored under its own id, its
      expiry is its registration time plus a positive TTL (none otherwise), and a
      configured limit on the number of identities is never exceeded. *)
Theorem coordinator_invariant {R M} `{!RegistryBackend R} cfg (reg : option R) (msg : option M) ops :
  match NewCoordinator cfg reg msg with
  | Ok (config, c, _) => co_inv config (foldl (co_step config) c ops)
  | Err _ => reg = None ∨ msg = None
  | Panic => False
  end.
Proof.
  unfold NewCoordinator. destruct reg, msg; simpl; [|tauto..]. apply inv_run, inv_new.
Qed.

(** ** Agreement with the registry *)

(** A backend whose operations do not fail. *)
Class ReliableRegistry (R : Type) `{!RegistryBackend R} := {
  rel_Set now id md ttl (r : R) : (rb_Set now id md ttl r).2 = true;
  rel_Delete id (r : R) : (rb_Delete id r).2 = true }.

#[export] Instance Mock_reliable : ReliableRegistry MockRegistryBackend.
Proof. by split. Qed.

Section Sync.
Context {R : Type} `{!RegistryBackend R, !ReliableRegistry R} (config : Config).
Implicit Types (c : @Coordinator R).

Definition in_sync c : Prop := rb_ids (co_registry c) = dom (co_identities c).

Lemma sync_delete c k :
  in_sync c → in_sync (cleanup_one c k).
Proof using ReliableRegistry0.
  unfold in_sync. intros Hs. simpl. rewrite dom_delete_L, <- Hs.
  pose proof (rel_Delete k (co_registry c)) as Hok.
  destruct (rb_Delete k (co_registry c)) as [r ok] eqn:E. simpl in *.
  apply rb_Delete_ids in E as [[H1 H2] H3]. specialize (H3 Hok). set_solver.
Qed.

Lemma sync_step c op : in_sync c → in_sync (co_step config c op).
Proof using ReliableRegistry0.
  intros Hs. destruct op as [now id md ttl|id|now]; simpl.
  - unfold Register. destruct (co_identities c !! id) eqn:Hl; [done|]. case_match; [done|].
    pose proof (rel_Set now id md ttl (co_registry c)) as Hok.
    destruct (rb_Set now id md ttl (co_registry c)) as [r ok] eqn:E. simpl in Hok. subst ok.
    simpl. unfold in_sync in *. simpl. rewrite dom_insert_L, <- Hs.
    apply rb_Set_ids in E as [[H1 H2] H3]. specialize (H3 eq_refl). set_solver.
  - unfold Unregister. case_match; [|done].
    pose proof (rel_Delete id (co_registry c)) as Hok. pose proof (sync_delete c id Hs) as Hd.
    unfold cleanup_one in Hd.
    destruct (rb_Delete id (co_registry c)) as [r ok]. simpl in *. by subst ok.
  - unfold performCleanup. generalize (List.filter (λ e, expired now e.2)
      (map_to_list (co_identities c))).*1. intros l. revert c Hs.
    induction l as [|k l IH]; intros c Hs; [done|]. simpl. apply IH. by apply sync_delete.
Qed.

(** With a backend whose operations do not fail, the registry holds exactly the
      identities the coordinator holds, after any sequence of operations. *)
Theorem registry_in_sync r ops :
  rb_ids r = ∅ → in_sync (foldl (co_step config) (new_coordinator r) ops).
Proof using ReliableRegistry0.
  intros Hr. assert (in_sync (new_coordinator r)) as Hs.
  { unfold in_sync. simpl. by rewrite dom_empty_L. }
  revert Hs. generalize (new_coordinator r). induction ops as [|op ops IH]; intros c Hs; [done|].
  simpl. by apply IH, sync_step.
Qed.
End Sync.

(** ** Multicast *)

Section Fanout.
Context {R : Type} `{!RegistryBackend R} (config : Config).
Context {M : Type} `{!MessagingBackend M} (payload : list Z).
Implicit Types (f : @fanout M) (d : delivery) (m : M).

Abbreviation deliver := (deliver config payload).
Abbreviation deliver_all := (deliver_all config payload).
Abbreviation start_fanout := (start_fanout config).

(** Steps a goroutine still has to make, at most. *)
Definition work d : nat := match dl_left d with Some n => S n | None => 0 end.
Definition total_work f : nat := sum_list_with work (fo_deliveries f).

Lemma sum_insert {A} (g : A → nat) (l : list A) i x y :
  l !! i = Some x → (sum_list_with g (<[i := y]> l) + g x = sum_list_with g l + g y)%nat.
Proof.
  revert i. induction l as [|a l IH]; intros [|i] Hi; simplify_eq/=; [lia|].
  specialize (IH i Hi). lia.
Qed.

(** What a step of goroutine [i] does: it sends a result or uses up an attempt. *)
Inductive delivered i f f' : Prop :=
  | dv_retry id n :
      fo_deliveries f !! i = Some (mkDelivery id (Some (S n))) →
      mb_Publish (identityTopic config id) payload (fo_messaging f) = (fo_messaging f', false) →
      fo_deliveries f' = <[i := mkDelivery id (Some n)]> (fo_deliveries f) →
      fo_results f' = fo_results f → delivered i f f'
  | dv_sent id n :
      fo_deliveries f !! i = Some (mkDelivery id (Some (S n))) →
      mb_Publish (identityTopic config id) payload (fo_messaging f) = (fo_messaging f', true) →
      fo_deliveries f' = <[i := mkDelivery id None]> (fo_deliveries f) →
      fo_results f' = fo_results f ++ [mkDeliveryResult id DeliveryStatusDelivered] →
      delivered i f f'
  | dv_failed id :
      fo_deliveries f !! i = Some (mkDelivery id (Some 0%nat)) →
      fo_messaging f' = fo_messaging f →
      fo_deliveries f' = <[i := mkDelivery id None]> (fo_deliveries f) →
      fo_results f' = fo_results f ++ [mkDeliveryResult id DeliveryStatusFailed] →
      delivered i f f'.

Lemma deliver_delivered i f f' : deliver i f = Some f' → delivered i f f'.
Proof.
  unfold Coordinator.deliver. destruct (fo_deliveries f !! i) as [[id [[|n]|]]|] eqn:Hi;
    try done.
  - intros [= <-]. by eapply dv_failed.
  - destruct (mb_Publish _ _ _) as [m []] eqn:E; intros [= <-].
    + by eapply dv_sent.
    + by eapply dv_retry.
Qed.

Lemma deliver_work i f f' : deliver i f = Some f' → (total_work f' < total_work f)%nat.
Proof.
  intros [id n Hi _ E _|id n Hi _ E _|id Hi _ E _]%deliver_delivered;
    unfold total_work; rewrite E.
  - pose proof (sum_insert work _ _ _ (mkDelivery id (Some n)) Hi) as Hw.
    cbn [work dl_left] in Hw. lia.
  - pose proof (sum_insert work _ _ _ (mkDelivery id None) Hi) as Hw.
    cbn [work dl_left] in Hw. lia.
  - pose proof (sum_insert work _ _ _ (mkDelivery id None) Hi) as Hw.
    cbn [work dl_left] in Hw. lia.
Qed.

Lemma deliver_all_work schedule f f' :
  deliver_all schedule f = Some f' → (length schedule + total_work f' ≤ total_work f)%nat.
Proof.
  revert f. induction schedule as [|i sch IH]; intros f; simpl; [intros [= ->]; lia|].
  destruct (deliver i f) as [f1|] eqn:E; [|done]. simpl. intros H%IH.
  apply deliver_work in E. lia.
Qed.

Lemma start_work targets m :
  total_work (start_fanout targets m) = (length targets * S (attempts config))%nat.
Proof.
  unfold total_work, Coordinator.start_fanout. cbn [fo_deliveries].
  induction targets as [|t ts IH]; [done|]. rewrite fmap_cons.
  cbn [sum_list_with length]. rewrite IH. unfold work. cbn [dl_left]. lia.
Qed.

(** A goroutine that has not sent its result can run. *)
Lemma deliver_progress f : all_sent f = false → ∃ i f', deliver i f = Some f'.
Proof.
  unfold all_sent. intros H.
  assert (∃ i id n, fo_deliveries f !! i = Some (mkDelivery id (Some n))) as (i & id & n & Hi).
  { induction (fo_deliveries f) as [|[id [n|]] ds IH]; simpl in *; [done| |].
    - by exists 0%nat, id, n.
    - destruct (IH H) as (i & id' & n & Hi). by exists (S i), id', n. }
  exists i. unfold Coordinator.deliver. rewrite Hi. destruct n; [by eauto|].
  destruct (mb_Publish _ _ _) as [m []]; eauto.
Qed.

Lemma run_to_end f : ∃ schedule f', deliver_all schedule f = Some f' ∧ all_sent f' = true.
Proof.
  remember (total_work f) as w eqn:Hw. revert f Hw. induction w as [w IH] using lt_wf_ind.
  intros f ->. destruct (all_sent f) eqn:Hs; [by exists [], f|].
  destruct (deliver_progress f Hs) as (i & f1 & E).
  destruct (IH (total_work f1) (deliver_work _ _ _ E) f1 eq_refl) as (sch & f' & Hrun & Hs').
  exists (i :: sch), f'. split; [|done]. simpl. by rewrite E.
Qed.

(** ** Accounting *)

Definition sent_ids (ds : list delivery) : list string :=
  dl_id <$> List.filter (λ d, match dl_left d with None => true | _ => false end) ds.

(** The messages published for the delivered results to a topic. *)
Definition deliveries_to (t : string) (rs : list DeliveryResult) : nat :=
  length (List.filter (λ r, is_delivered r
            && bool_decide (t = identityTopic config (dr_Identity r))) rs).

(** The attempts that the goroutines of a topic have left, and the targets of a topic. *)
Definition left_to (t : string) (ds : list delivery) : nat :=
  sum_list_with (λ d, if bool_decide (t = identityTopic config (dl_id d)) then default 0%nat (dl_left d) else 0%nat) ds.
Definition targets_to (t : string) (targets : list Identity) : nat :=
  length (List.filter (λ i, bool_decide (t = identityTopic config (id_ID i))) targets).

(** [n] messages were published to [t]: at least one per delivered target, at most the
    attempts that were made. *)
Definition published_to (targets : list Identity) m f (t : string) (n : nat) : Prop :=
  mb_published (fo_messaging f) t = mb_published m t ++ replicate n payload ∧
  (deliveries_to t (fo_results f) ≤ n)%nat ∧
  (n + left_to t (fo_deliveries f) ≤ targets_to t targets * attempts config)%nat ∧
  (exact_messaging M → n = deliveries_to t (fo_results f)).

Record fo_inv (targets : list Identity) m f : Prop := {
  fi_ids : dl_id <$> fo_deliveries f = id_ID <$> targets;
  fi_results : dr_Identity <$> fo_results f ≡ₚ sent_ids (fo_deliveries f);
  fi_published t : ∃ n, published_to targets m f t n }.

Lemma sent_ids_insert ds i d d' :
  ds !! i = Some d → dl_left d ≠ None →
  sent_ids (<[i := d']> ds) ≡ₚ
    (match dl_left d' with None => [dl_id d'] | Some _ => [] end) ++ sent_ids ds.
Proof.
  revert i. induction ds as [|a ds IH]; intros [|i] Hi Hd; simplify_eq/=.
  - unfold sent_ids. simpl. destruct (dl_left d); [|done]. by destruct (dl_left d').
  - unfold sent_ids in *. simpl. specialize (IH i Hi Hd).
    destruct (dl_left a); simpl; [done|]. rewrite IH. destruct (dl_left d'); simpl; [done|].
    by apply Permutation_swap.
Qed.

Lemma deliveries_to_app t rs1 rs2 :
  deliveries_to t (rs1 ++ rs2) = (deliveries_to t rs1 + deliveries_to t rs2)%nat.
Proof. unfold deliveries_to. by rewrite List.filter_app, length_app. Qed.

Lemma deliveries_to_single t r :
  deliveries_to t [r] =
    if is_delivered r && bool_decide (t = identityTopic config (dr_Identity r)) then 1%nat else 0%nat.
Proof. unfold deliveries_to. simpl. by case_match. Qed.

Lemma ids_insert (ds : list delivery) (i : nat) d d' :
  ds !! i = Some d → dl_id d' = dl_id d → dl_id <$> <[i := d']> ds = dl_id <$> ds.
Proof.
  intros Hi Hid. rewrite list_fmap_insert, Hid. apply list_insert_id.
  by rewrite list_lookup_fmap, Hi.
Qed.

Lemma left_to_insert t ds i id old new :
  ds !! i = Some (mkDelivery id old) →
  (left_to t (<[i := mkDelivery id new]> ds)
   + (if bool_decide (t = identityTopic config id) then default 0 old else 0)
   = left_to t ds + (if bool_decide (t = identityTopic config id) then default 0 new else 0))%nat.
Proof. intros Hi. exact (sum_insert _ _ _ _ (mkDelivery id new) Hi). Qed.

(** An attempt that is not the last word: the message may have been accepted. *)
Lemma published_retry targets m f f' i id k t n :
  published_to targets m f t n → fo_deliveries f !! i = Some (mkDelivery id (Some (S k))) →
  mb_Publish (identityTopic config id) payload (fo_messaging f) = (fo_messaging f', false) →
  fo_deliveries f' = <[i := mkDelivery id (Some k)]> (fo_deliveries f) → fo_results f' = fo_results f →
  ∃ n', published_to targets m f' t n'.
Proof.
  intros (E & Hlo & Hhi & Hex) Hi Hp Ed Er. pose proof (left_to_insert t _ _ _ _ (Some k) Hi) as Hl.
  destruct (mb_Publish_published _ _ _ _ _ Hp) as (acc & _ & Hpub). unfold published_to. rewrite Ed, Er, Hpub.
  case_bool_decide as Ht; simpl in Hl; [destruct acc; simpl|rewrite andb_false_r].
  - exists (S n). rewrite E, <- (assoc (++)), <- replicate_cons_app. split_and!; [done|lia..|].
    intros Hx. pose proof (Hx _ _ _ _ Hp t) as Hs. rewrite Hpub, bool_decide_eq_true_2 in Hs by done.
    simpl in Hs. apply (f_equal length) in Hs. rewrite length_app in Hs. simpl in Hs. lia.
  - exists n. split_and!; [done|lia..|done].
  - exists n. split_and!; [done|lia..|done].
Qed.

(** A successful attempt, and the end of a goroutine that has none left. *)
Lemma published_sent targets m f f' i id k t n :
  published_to targets m f t n → fo_deliveries f !! i = Some (mkDelivery id (Some (S k))) →
  mb_Publish (identityTopic config id) payload (fo_messaging f) = (fo_messaging f', true) →
  fo_deliveries f' = <[i := mkDelivery id None]> (fo_deliveries f) →
  fo_results f' = fo_results f ++ [mkDeliveryResult id DeliveryStatusDelivered] →
  ∃ n', published_to targets m f' t n'.
Proof.
  intros (E & Hlo & Hhi & Hex) Hi Hp Ed Er. pose proof (left_to_insert t _ _ _ _ None Hi) as Hl.
  destruct (mb_Publish_published _ _ _ _ _ Hp) as (acc & Hacc & Hpub). rewrite (Hacc eq_refl) in Hpub.
  unfold published_to. rewrite Ed, Er, Hpub, deliveries_to_app, deliveries_to_single. simpl in *.
  case_bool_decide as Ht; simpl in *.
  - exists (S n). rewrite E, <- (assoc (++)), <- replicate_cons_app. split_and!; [done|lia..|].
    intros Hx%Hex. lia.
  - exists n. split_and!; [done|lia..|]. intros Hx%Hex. lia.
Qed.

Lemma published_failed targets m f f' i id t n :
  published_to targets m f t n → fo_deliveries f !! i = Some (mkDelivery id (Some 0%nat)) →
  fo_messaging f' = fo_messaging f →
  fo_deliveries f' = <[i := mkDelivery id None]> (fo_deliveries f) →
  fo_results f' = fo_results f ++ [mkDeliveryResult id DeliveryStatusFailed] →
  published_to targets m f' t n.
Proof.
  intros (E & Hlo & Hhi & Hex) Hi Hm Ed Er. pose proof (left_to_insert t _ _ _ _ None Hi) as Hl.
  unfold published_to. rewrite Ed, Er, Hm, deliveries_to_app, deliveries_to_single. simpl in *.
  split_and!; [done|lia| |intros Hx%Hex; lia]. destruct (bool_decide _); lia.
Qed.

Lemma fo_inv_deliver targets m i f f' :
  fo_inv targets m f → deliver i f = Some f' → fo_inv targets m f'.
Proof.
  intros [H1 H2 H3]
    [id n Hi Hp Ed Er|id n Hi Hp Ed Er|id Hi Hm Ed Er]%deliver_delivered; split.
  - rewrite Ed. by erewrite ids_insert.
  - rewrite Ed, Er. by rewrite (sent_ids_insert _ _ _ _ Hi).
  - intros t. destruct (H3 t). by eapply published_retry.
  - rewrite Ed. by erewrite ids_insert.
  - rewrite Ed, Er, fmap_app. rewrite (sent_ids_insert _ _ _ _ Hi) by done. simpl.
    rewrite <- H2. by rewrite Permutation_app_comm.
  - intros t. destruct (H3 t). by eapply published_sent.
  - rewrite Ed. by erewrite ids_insert.
  - rewrite Ed, Er, fmap_app. rewrite (sent_ids_insert _ _ _ _ Hi) by done. simpl.
    rewrite <- H2. by rewrite Permutation_app_comm.
  - intros t. destruct (H3 t). eexists. by eapply published_failed.
Qed.

Lemma left_to_start t targets m :
  left_to t (fo_deliveries (start_fanout targets m)) = (targets_to t targets * attempts config)%nat.
Proof.
  unfold left_to, targets_to, Coordinator.start_fanout. cbn [fo_deliveries].
  induction targets as [|i ts IH]; [done|]. csimpl. rewrite IH. by case_bool_decide.
Qed.

Lemma fo_inv_start targets m : fo_inv targets m (start_fanout targets m).
Proof.
  split; simpl.
  - rewrite <- list_fmap_compose. done.
  - unfold sent_ids. induction targets; simpl; [done|]. done.
  - intros t. exists 0%nat. split_and!; [by rewrite app_nil_r|done| |done]. by rewrite left_to_start.
Qed.

Lemma fo_inv_run targets m schedule f f' :
  fo_inv targets m f → deliver_all schedule f = Some f' → fo_inv targets m f'.
Proof.
  revert f. induction schedule as [|i sch IH]; intros f Hinv; simpl; [by intros [= <-]|].
  destruct (deliver i f) as [f1|] eqn:E; [|done]. simpl. apply IH. by eapply fo_inv_deliver.
Qed.

Lemma sent_ids_all f : all_sent f = true → sent_ids (fo_deliveries f) = dl_id <$> fo_deliveries f.
Proof.
  unfold all_sent, sent_ids. induction (fo_deliveries f) as [|d ds IH]; [done|]. simpl.
  destruct (dl_left d); [done|]. simpl. intros H. f_equal. by apply IH.
Qed.

Lemma aggregate_spec n rs :
  aggregate n rs = mkMulticastResponse n (length (List.filter is_delivered rs))
    (length rs - length (List.filter is_delivered rs)) rs.
Proof.
  unfold aggregate.
  assert (∀ resp, foldl (λ resp r,
           if is_delivered r
           then mkMulticastResponse (mr_TargetCount resp) (S (mr_DeliveredCount resp))
                  (mr_FailedCount resp) (mr_Results resp ++ [r])
           else mkMulticastResponse (mr_TargetCount resp) (mr_DeliveredCount resp)
                  (S (mr_FailedCount resp)) (mr_Results resp ++ [r])) resp rs =
    mkMulticastResponse (mr_TargetCount resp)
      (mr_DeliveredCount resp + length (List.filter is_delivered rs))
      (mr_FailedCount resp + (length rs - length (List.filter is_delivered rs)))
      (mr_Results resp ++ rs)) as H.
  { induction rs as [|r rs IH]; intros [t dl fl res]; simpl.
    - by rewrite !Nat.add_0_r, app_nil_r.
    - rewrite IH. pose proof (filter_length_le is_delivered rs).
      destruct (is_delivered r); simpl; rewrite <- app_assoc; f_equal; simpl; lia. }
  by rewrite H.
Qed.

(** C24. A multicast accounts for its targets: however the deliveries are
      interleaved, once they have all sent their result the response has one
      result per target, its delivered and failed counts add up to the number of
      targets, and for each topic the backend holds at least one more message per
      target reported as delivered to it and at most one per attempt; exactly one
      per delivered target and none for the failed ones when a publish that fails
      has no effect. *)
Theorem multicast_accounting clock filter schedule (c : @Coordinator R) m resp m' :
  Multicast config payload clock filter schedule c m = Some (resp, m') →
  ∃ targets, Enumerate clock filter c = Some targets ∧
    mr_TargetCount resp = length targets ∧
    (mr_DeliveredCount resp + mr_FailedCount resp = length targets)%nat ∧
    dr_Identity <$> mr_Results resp ≡ₚ id_ID <$> targets ∧
    mr_DeliveredCount resp = length (List.filter is_delivered (mr_Results resp)) ∧
    ∀ t, ∃ n, mb_published m' t = mb_published m t ++ replicate n payload ∧
      (deliveries_to t (mr_Results resp) ≤ n ≤ targets_to t targets * attempts config)%nat ∧
      (exact_messaging M → n = deliveries_to t (mr_Results resp)).
Proof.
  unfold Multicast. destruct (Enumerate clock filter c) as [targets|]; [|done]. simpl.
  destruct (deliver_all schedule _) as [f|] eqn:Hrun; [|done]. simpl.
  destruct (all_sent f) eqn:Hs; [|done]. intros [= <- <-].
  destruct (fo_inv_run targets m schedule _ _ (fo_inv_start targets m) Hrun) as [H1 H2 H3].
  rewrite aggregate_spec. simpl. exists targets.
  rewrite (sent_ids_all f Hs), H1 in H2.
  assert (length (fo_results f) = length targets) as Hlen.
  { apply (Permutation_length) in H2. by rewrite !length_fmap in H2. }
  pose proof (filter_length_le is_delivered (fo_results f)).
  split_and!; try done; [lia|]. intros t. destruct (H3 t) as (n & E & Hlo & Hhi & Hex). exists n.
  split_and!; [done|done|lia|done].
Qed.

(** C32. A multicast terminates: every interleaving of its deliveries takes at most
      [targets * (RetryAttempts + 2)] steps, a delivery that has not sent its
      result can always go on, and so every multicast whose filter does not panic
      can be run to a response. *)
Theorem multicast_terminates clock filter (c : @Coordinator R) m targets :
  Enumerate clock filter c = Some targets →
  (∀ schedule f, deliver_all schedule (start_fanout targets m) = Some f →
     (length schedule ≤ length targets * S (attempts config))%nat ∧
     (all_sent f = false → ∃ i f', deliver i f = Some f')) ∧
  (∃ schedule resp m', Multicast config payload clock filter schedule c m = Some (resp, m')).
Proof.
  intros He. split.
  - intros schedule f Hrun. split; [|apply deliver_progress].
    apply deliver_all_work in Hrun. rewrite start_work in Hrun. lia.
  - destruct (run_to_end (start_fanout targets m)) as (schedule & f & Hrun & Hs).
    exists schedule. eexists _, _. unfold Multicast. rewrite He. simpl. rewrite Hrun. simpl.
    by rewrite Hs.
Qed.
End Fanout.

Module CoordinatorDemo.
Definition alice : metadata := {[ "room"%string := VString "eng" ]}.
Definition start : @Coordinator MockRegistryBackend := new_coordinator (∅ : gmap string Identity).
Definition ops : list co_op :=
  [OpRegister 10 "alice" alice 5; OpRegister 11 "bob" ∅ 0; OpUnregister "carol"].
Definition two : @Coordinator MockRegistryBackend := foldl (co_step DefaultConfig) start ops.

Lemma two_comparable k i :
  co_identities two !! k = Some i → all_comparable (id_Metadata i).
Proof.
  assert (co_identities two = {[ "alice"%string := new_identity 10 "alice" alice 5;
                                 "bob"%string := new_identity 11 "bob" ∅ 0 ]}) as ->
    by (vm_compute; reflexivity).
  rewrite lookup_insert_Some, lookup_singleton_Some. intros [[_ <-]|[_ [_ <-]]] k' v; simpl.
  - unfold alice. rewrite lookup_singleton_Some. by intros [_ <-].
  - by rewrite lookup_empty.
Qed.

Lemma Enumerate_correct_witness :
  ∃ l, Enumerate (λ _, 12) None two = Some l ∧ NoDup (id_ID <$> l) ∧
    ∀ i, i ∈ l ↔ co_identities two !! id_ID i = Some i ∧ expired ((λ _, 12) (id_ID i)) i = false ∧
                 filter_holds None (id_Metadata i).
Proof.
  apply (Enumerate_correct DefaultConfig (λ _, 12) None two).
  - apply inv_run, inv_new.
  - reflexivity.
  - apply two_comparable.
Defined.

Lemma registry_in_sync_witness : in_sync two.
Proof.
  apply (registry_in_sync DefaultConfig (∅ : gmap string Identity) ops).
  simpl. apply dom_empty_L.
Defined.

(** Two targets; the first publish attempt of the multicast fails. *)
Definition flaky : MockMessagingBackendWithFailures :=
  mkMockFailures 1 (∅ : gmap string (list (list Z))).
Definition sent : option (MulticastResponse * MockMessagingBackendWithFailures) :=
  Multicast DefaultConfig [1; 2] (λ _, 12) None [0; 1; 0]%nat two flaky.

Lemma multicast_accounting_witness :
  ∃ resp m', sent = Some (resp, m') ∧ mr_DeliveredCount resp = 2%nat ∧
  ∃ targets, Enumerate (λ _, 12) None two = Some targets ∧ mr_TargetCount resp = length targets ∧
    (mr_DeliveredCount resp + mr_FailedCount resp = length targets)%nat ∧
    dr_Identity <$> mr_Results resp ≡ₚ id_ID <$> targets ∧
    mr_DeliveredCount resp = length (List.filter is_delivered (mr_Results resp)) ∧
    ∀ t, ∃ n, mb_published m' t = mb_published flaky t ++ replicate n [1; 2] ∧
      (deliveries_to DefaultConfig t (mr_Results resp) ≤ n ≤ targets_to DefaultConfig t targets * attempts DefaultConfig)%nat ∧
      (exact_messaging MockMessagingBackendWithFailures → n = deliveries_to DefaultConfig t (mr_Results resp)).
Proof.
  eexists _, _. split; [vm_compute; reflexivity|]. split; [reflexivity|].
  apply (multicast_accounting DefaultConfig [1; 2] (λ _, 12) None [0; 1; 0]%nat two flaky).
  vm_compute. reflexivity.
Defined.

Lemma multicast_terminates_witness :
  ∃ schedule resp m', Multicast DefaultConfig [1; 2] (λ _, 12) None schedule two flaky = Some (resp, m').
Proof.
  eapply (multicast_terminates DefaultConfig [1; 2] (λ _, 12) None two flaky).
  vm_compute. reflexivity.
Defined.

(** An identity that has expired is not enumerated any more, but until the next
    cleanup it cannot be registered again. *)
Example expired_identity_blocks_registration :
  Enumerate (λ _, 100) (Some (NewFilter {[ "room"%string := VString "eng" ]})) two = Some [] ∧
  (Register DefaultConfig 100 "alice" alice 5 two).2 = Some (ErrAlreadyRegistered "alice") ∧
  (Register DefaultConfig 100 "alice" alice 5 (performCleanup 100 two)).2 = None.
Proof. vm_compute. done. Qed.

(** An error of a backend is reported; closing the coordinator twice panics. *)
Example close_twice_panics :
  ∃ c, Close flaky (Some false) two = Some (c, [ErrDurabilityClose]) ∧ Close flaky None c = None.
Proof. eexists. split; [vm_compute; reflexivity|reflexivity]. Qed.
End CoordinatorDemo.
