(* ===== verification/MulticastMocks.v ===== *)
(** * patterns/multicast_registry/mocks.go: the other mocks, and how retries use up failures

    Coordinator has the registry mock and Publish of the messaging mocks; this file has the
    constructors, the remaining methods and the two registry mocks that fail.  The mock
    that fails its first publishes is what the retries of a multicast are measured against. *)

From S2P Require Import Prelude Filter Coordinator CoordinatorSpec.
Local Open Scope Z_scope.

(** ** Constructors *)

Definition NewMockRegistryBackend : MockRegistryBackend := (∅ : gmap string Identity).
Definition NewMockMessagingBackend : MockMessagingBackend := (∅ : gmap string (list (list Z))).
Definition NewMockMessagingBackendWithFailures (failures : Z) : MockMessagingBackendWithFailures :=
  mkMockFailures failures NewMockMessagingBackend.

(** ** The messaging mock *)

(** Subscribe is not implemented; Unsubscribe does nothing. *)
Definition mock_Subscribe (topic : string) (m : MockMessagingBackend) : MockMessagingBackend * option (list (list Z)) :=
  (m, None).
Definition mock_Unsubscribe (topic : string) (m : MockMessagingBackend) : MockMessagingBackend * bool := (m, true).
Definition GetPublished (topic : string) (m : MockMessagingBackend) : list (list Z) :=
  default [] ((m : gmap string (list (list Z))) !! topic).
Definition GetPublishedCount (topic : string) (m : MockMessagingBackend) : nat := length (GetPublished topic m).

(** ** The registry mocks that fail *)

Record MockRegistryBackendWithCloseError := mkCloseError { ce_backend : MockRegistryBackend }.
Definition NewMockRegistryBackendWithCloseError : MockRegistryBackendWithCloseError :=
  mkCloseError NewMockRegistryBackend.

#[export, refine] Instance CloseError_RegistryBackend : RegistryBackend MockRegistryBackendWithCloseError := {|
  rb_Set now id md ttl r := let '(b, ok) := mock_Set now id md ttl (ce_backend r) in (mkCloseError b, ok);
  rb_Delete id r := let '(b, ok) := mock_Delete id (ce_backend r) in (mkCloseError b, ok);
  rb_Enumerate _ _ := None;
  rb_Close _ := false;
  rb_ids r := rb_ids (ce_backend r) |}.
Proof.
  - intros now id md ttl r r' ok [= <- <-]. exact (rb_Set_ids now id md ttl (ce_backend r) _ _ eq_refl).
  - intros id r r' ok [= <- <-]. exact (rb_Delete_ids id (ce_backend r) _ _ eq_refl).
Defined.

Record MockRegistryBackendWithSetError := mkSetError { se_backend : MockRegistryBackend }.
Definition NewMockRegistryBackendWithSetError : MockRegistryBackendWithSetError :=
  mkSetError NewMockRegistryBackend.

#[export, refine] Instance SetError_RegistryBackend : RegistryBackend MockRegistryBackendWithSetError := {|
  rb_Set _ _ _ _ r := (r, false);
  rb_Delete id r := let '(b, ok) := mock_Delete id (se_backend r) in (mkSetError b, ok);
  rb_Enumerate _ _ := None;
  rb_Close _ := true;
  rb_ids r := rb_ids (se_backend r) |}.
Proof.
  - intros now id md ttl r r' ok [= <- <-]. set_solver.
  - intros id r r' ok [= <- <-]. exact (rb_Delete_ids id (se_backend r) _ _ eq_refl).
Defined.

(** A registry that rejects every identity: nothing is ever registered. *)
Theorem set_error_registers_nothing config ops :
  co_identities (foldl (co_step config) (new_coordinator NewMockRegistryBackendWithSetError) ops) = ∅.
Proof.
  assert (∀ c : @Coordinator MockRegistryBackendWithSetError, co_identities c = ∅ →
    ∀ ops, co_identities (foldl (co_step config) c ops) = ∅) as H; [|by apply H].
  intros c Hc ops'. revert c Hc. induction ops' as [|op ops' IH]; intros c Hc; [done|]. apply IH.
  destruct op; simpl.
  - unfold Register. rewrite Hc, lookup_empty. by case_match.
  - unfold Unregister. by rewrite Hc, lookup_empty.
  - unfold performCleanup. rewrite Hc. by rewrite map_to_list_empty.
Qed.

(** ** Retries *)

Section Retries.
Context (config : Config) (payload : list Z).
Abbreviation fanout := (@fanout MockMessagingBackendWithFailures).

(** The attempts a delivery has used. *)
Definition used (d : delivery) : nat :=
  match dl_left d with Some n => attempts config - n | None => 0 end.
Definition failed (rs : list DeliveryResult) : nat := length (List.filter (negb ∘ is_delivered) rs).

(** Every delivery that was given up has used up its attempts, and so have, in part, those
    that are still trying. *)
Definition budget (failures : nat) (f : fanout) : Prop :=
  Forall (λ d, match dl_left d with Some n => (n ≤ attempts config)%nat | None => True end) (fo_deliveries f) ∧
  0 ≤ mf_failuresRemaining (fo_messaging f) ∧
  Z.of_nat (attempts config * failed (fo_results f) + sum_list_with used (fo_deliveries f)) ≤
    Z.of_nat failures - mf_failuresRemaining (fo_messaging f).

Lemma failed_app rs r : failed (rs ++ [r]) = (failed rs + if is_delivered r then 0 else 1)%nat.
Proof. unfold failed. rewrite List.filter_app, length_app. simpl. by destruct (is_delivered r). Qed.

Lemma failing_publish topic m m' ok : mb_Publish topic payload m = (m', ok) →
  mf_failuresRemaining m' = mf_failuresRemaining m - (if ok then 0 else 1) ∧
  (ok = false → 0 < mf_failuresRemaining m).
Proof.
  simpl. unfold mock_failing_Publish. case_match eqn:E; intros [= <- <-]; simpl; [|lia].
  split; [done|]. intros _. by apply Z.ltb_lt in E.
Qed.

Lemma budget_deliver failures i f f' : deliver config payload i f = Some f' → budget failures f → budget failures f'.
Proof.
  intros Hd (Hle & H0 & Hb). apply deliver_delivered in Hd.
  destruct Hd as [id n Hi Hp Hds Hrs|id n Hi Hp Hds Hrs|id Hi Hm Hds Hrs]; unfold budget; rewrite Hds, Hrs.
  - destruct (failing_publish _ _ _ _ Hp) as [Hr Hpos]. specialize (Hpos eq_refl).
    pose proof (Forall_lookup_1 _ _ _ _ Hle Hi) as Hn. simpl in Hn.
    pose proof (sum_insert used (fo_deliveries f) i _ (mkDelivery id (Some n)) Hi) as Hs. unfold used in Hs at 2 4. simpl in Hs.
    split; [apply Forall_insert; [done|simpl; lia]|]. lia.
  - destruct (failing_publish _ _ _ _ Hp) as [Hr _].
    pose proof (sum_insert used (fo_deliveries f) i _ (mkDelivery id None) Hi) as Hs. unfold used in Hs at 2 4. simpl in Hs.
    rewrite failed_app. simpl. split; [by apply Forall_insert|]. lia.
  - pose proof (sum_insert used (fo_deliveries f) i _ (mkDelivery id None) Hi) as Hs. unfold used in Hs at 2 4. simpl in Hs.
    rewrite failed_app, Hm. simpl. split; [by apply Forall_insert|]. lia.
Qed.

Lemma budget_deliver_all failures schedule f f' :
  deliver_all config payload schedule f = Some f' → budget failures f → budget failures f'.
Proof.
  revert f. induction schedule as [|i schedule IH]; intros f; simpl; [by intros [= <-]|].
  intros (f1 & H1 & H2)%bind_Some Hb. by eapply IH, budget_deliver.
Qed.

Lemma budget_start failures targets :
  budget failures (start_fanout config targets (NewMockMessagingBackendWithFailures (Z.of_nat failures))).
Proof.
  unfold budget, start_fanout. cbn [fo_deliveries fo_results fo_messaging NewMockMessagingBackendWithFailures mf_failuresRemaining].
  split; [apply Forall_fmap, Forall_true; intros; simpl; lia|]. split; [lia|].
  assert (sum_list_with used ((λ i, mkDelivery (id_ID i) (Some (attempts config))) <$> targets) = 0%nat) as ->.
  { induction targets as [|i l IH]; [done|]. rewrite fmap_cons. cbn [sum_list_with]. rewrite IH. unfold used. simpl. lia. }
  unfold failed. simpl. lia.
Qed.

(** C25. However the deliveries are interleaved, a backend that fails its first [failures]
    publishes makes at most [failures / (RetryAttempts + 1)] deliveries fail: in
    particular none as long as it fails no more than RetryAttempts times. *)
Theorem retries_bound_failures {R} `{!RegistryBackend R} (failures : nat) clock filter schedule (c : @Coordinator R) resp m :
  Multicast config payload clock filter schedule c (NewMockMessagingBackendWithFailures (Z.of_nat failures)) = Some (resp, m) →
  (attempts config * mr_FailedCount resp ≤ failures)%nat ∧
  ((failures < attempts config)%nat → mr_FailedCount resp = 0%nat).
Proof.
  unfold Multicast. intros (targets & _ & (f & Hf & H)%bind_Some)%bind_Some. destruct (all_sent f); [|done].
  injection H as <- <-. destruct (budget_deliver_all failures _ _ _ Hf (budget_start failures targets)) as (_ & H0 & Hb).
  rewrite aggregate_spec. cbn [mr_FailedCount].
  assert (length (fo_results f) - length (List.filter is_delivered (fo_results f)) = failed (fo_results f))%nat as ->.
  { unfold failed. clear. induction (fo_results f) as [|r rs IH]; [done|]. simpl. pose proof (filter_length_le is_delivered rs).
    destruct (is_delivered r); simpl; lia. }
  split; [lia|]. intros Hlt. nia.
Qed.
End Retries.

(** ** Examples *)

Definition one_target : @Coordinator MockRegistryBackend :=
  foldl (co_step DefaultConfig) (new_coordinator NewMockRegistryBackend) [OpRegister 10 "alice" ∅ 0].

Example three_failures_are_retried :
  match Multicast DefaultConfig [1] (λ _, 12) None [0; 0; 0; 0]%nat one_target (NewMockMessagingBackendWithFailures 3) with
  | Some (resp, m) => mr_DeliveredCount resp = 1%nat ∧ GetPublishedCount (identityTopic DefaultConfig "alice") (mf_backend m) = 1%nat
  | None => False
  end.
Proof. vm_compute. done. Qed.
Example four_failures_are_too_many :
  match Multicast DefaultConfig [1] (λ _, 12) None [0; 0; 0; 0; 0]%nat one_target (NewMockMessagingBackendWithFailures 4) with
  | Some (resp, m) => mr_FailedCount resp = 1%nat
  | None => False
  end.
Proof. vm_compute. done. Qed.

Lemma retries_bound_failures_witness : ∃ resp m,
  Multicast DefaultConfig [1] (λ _, 12) None [0; 0; 0; 0]%nat one_target
    (NewMockMessagingBackendWithFailures (Z.of_nat 3)) = Some (resp, m) ∧ mr_FailedCount resp = 0%nat.
Proof.
  eexists _, _. split; [vm_compute; reflexivity|].
  refine (proj2 (retries_bound_failures DefaultConfig [1] 3 (λ _, 12) None [0; 0; 0; 0]%nat one_target _ _ _) _).
  - vm_compute. reflexivity.
  - vm_compute. lia.
Defined.
