(* ===== verification/Memstore.v ===== *)
(** * pkg/drivers/memstore: the in-memory key-value driver

    memstore.go keeps the values and the expiry times in two concurrent maps
    without a common lock.  An operation is first modelled as it runs alone
    ([Set], [Get], ...), and then as the sequence of the atomic map operations it
    consists of, so that operations of several goroutines can be interleaved.
    Values are lists of bytes, times are in nanoseconds. *)

From S2P Require Import Prelude.
Local Open Scope Z_scope.

Abbreviation bytes := (list Z).

Record MemConfig := mkMemConfig {
  mc_MaxKeys : Z;
  mc_CleanupPeriod : Z }.

Record MemStore := mkMemStore {
  ms_data : gmap string bytes;
  ms_ttl : gmap string Z;
  ms_config : option MemConfig }.

Definition New : MemStore := mkMemStore ∅ ∅ None.

(** [Initialize] once the backend configuration is parsed. *)
Definition Initialize (cfg : MemConfig) (m : MemStore) : MemStore :=
  mkMemStore (ms_data m) (ms_ttl m)
    (Some (mkMemConfig (if mc_MaxKeys cfg =? 0 then 10000 else mc_MaxKeys cfg)
             (if mc_CleanupPeriod cfg =? 0 then 60 * Second else mc_CleanupPeriod cfg))).

Definition Stop (m : MemStore) : MemStore := mkMemStore ∅ ∅ (ms_config m).

(** ** Operations that run alone *)

Inductive mem_error := ErrCapacity (n : Z).

(** [time.Duration(ttlSeconds) * time.Second], a 64-bit product. *)
Definition ttl_duration (ttlSeconds : Z) : Z := wrap64 (ttlSeconds * Second).

Definition over_capacity (m : MemStore) (key : string) : option Z :=
  match ms_config m with
  | Some cfg =>
      if (mc_MaxKeys cfg <=? Z.of_nat (size (ms_data m)))
         && negb (bool_decide (is_Some (ms_data m !! key)))
      then Some (mc_MaxKeys cfg) else None
  | None => None
  end.

Definition Set_ (now : Z) (key : string) (value : bytes) (ttlSeconds : Z) (m : MemStore)
    : MemStore * option mem_error :=
  match over_capacity m key with
  | Some n => (m, Some (ErrCapacity n))
  | None =>
      (mkMemStore (<[key := value]> (ms_data m))
         (if 0 <? ttlSeconds then <[key := now + ttl_duration ttlSeconds]> (ms_ttl m)
          else delete key (ms_ttl m))
         (ms_config m), None)
  end.

(** The key has an expiry time that has passed. *)
Definition key_expired (now : Z) (key : string) (m : MemStore) : bool :=
  match ms_ttl m !! key with Some exp => After now exp | None => false end.

Definition remove (key : string) (m : MemStore) : MemStore :=
  mkMemStore (delete key (ms_data m)) (delete key (ms_ttl m)) (ms_config m).

Definition Get (now : Z) (key : string) (m : MemStore) : MemStore * option bytes :=
  if key_expired now key m then (remove key m, None) else (m, ms_data m !! key).

Definition Delete (key : string) (m : MemStore) : MemStore := remove key m.

Definition Exists (now : Z) (key : string) (m : MemStore) : MemStore * bool :=
  if key_expired now key m then (remove key m, false)
  else (m, bool_decide (is_Some (ms_data m !! key))).

(** One tick of [cleanupExpiredKeys]. *)
Definition cleanup_tick (now : Z) (m : MemStore) : MemStore :=
  foldr (λ '(key, expiration) m, if After now expiration then remove key m else m)
    m (map_to_list (ms_ttl m)).

Inductive HealthState := HealthHealthy | HealthDegraded.

Definition MemHealth (m : MemStore) : HealthState * Z :=
  let keyCount := Z.of_nat (size (ms_data m)) in
  (match ms_config m with
   | Some cfg => if mc_MaxKeys cfg <=? keyCount then HealthDegraded else HealthHealthy
   | None => HealthHealthy
   end, keyCount).

(** ** The interface of key-value drivers (pkg/plugin, KeyValueBasicInterface) *)

(** [kv_at t s k]: the value a client sees under [k] at time [t]. The laws hold for
    calls that do not overlap and a clock that does not go back. *)
Class KeyValueBasic (S : Type) := {
  kv_Set : Z → string → bytes → Z → S → S * bool;
  kv_Get : Z → string → S → S * option bytes;
  kv_Delete : string → S → S;
  kv_Exists : Z → string → S → S * bool;
  kv_at : Z → S → string → option bytes;
  kv_Set_at now k v ttl s s' t k' :
    kv_Set now k v ttl s = (s', true) → now ≤ t → ttl ≤ max_int64 / Second →
    kv_at t s' k' =
      if bool_decide (k' = k)
      then if (0 <? ttl) && (now + ttl * Second <? t) then None else Some v
      else kv_at t s k';
  kv_Set_failed now k v ttl s s' t k' :
    kv_Set now k v ttl s = (s', false) → kv_at t s' k' = kv_at t s k';
  kv_Get_at now k s s' r :
    kv_Get now k s = (s', r) →
    r = kv_at now s k ∧ ∀ t k', now ≤ t → kv_at t s' k' = kv_at t s k';
  kv_Exists_at now k s s' b :
    kv_Exists now k s = (s', b) →
    (b = true ↔ is_Some (kv_at now s k)) ∧ ∀ t k', now ≤ t → kv_at t s' k' = kv_at t s k';
  kv_Delete_at k s t k' :
    kv_at t (kv_Delete k s) k' = if bool_decide (k' = k) then None else kv_at t s k' }.

(** ** MemStore is such a driver *)

Definition ms_at (t : Z) (m : MemStore) (k : string) : option bytes :=
  if key_expired t k m then None else ms_data m !! k.

Lemma ms_at_remove t key m k :
  ms_at t (remove key m) k = if bool_decide (k = key) then None else ms_at t m k.
Proof.
  unfold ms_at, key_expired. simpl. case_bool_decide; subst.
  - by rewrite !lookup_delete_eq.
  - by rewrite !lookup_delete_ne by done.
Qed.

Lemma key_expired_mono now t k m :
  now ≤ t → key_expired now k m = true → key_expired t k m = true.
Proof.
  unfold key_expired. case_match; [|done]. unfold After. rewrite !Z.ltb_lt. lia.
Qed.

(** Removing an expired key cannot be observed. *)
Lemma ms_at_remove_expired now key m t k :
  key_expired now key m = true → now ≤ t → ms_at t (remove key m) k = ms_at t m k.
Proof.
  intros He Ht. rewrite ms_at_remove. case_bool_decide; [|done]. subst.
  unfold ms_at. by rewrite (key_expired_mono _ _ _ _ Ht He).
Qed.

Lemma ttl_duration_small ttl :
  0 < ttl → ttl ≤ max_int64 / Second → ttl_duration ttl = ttl * Second.
Proof.
  intros H0 H1. unfold ttl_duration. apply wrap64_id.
  unfold in_int64, min_int64, max_int64, Second in *.
  pose proof (Z.mul_div_le (2 ^ 63 - 1) 1000000000). lia.
Qed.

Lemma ms_at_Set now k v ttl m m' t k' :
  Set_ now k v ttl m = (m', None) → now ≤ t → ttl ≤ max_int64 / Second →
  ms_at t m' k' =
    if bool_decide (k' = k)
    then if (0 <? ttl) && (now + ttl * Second <? t) then None else Some v
    else ms_at t m k'.
Proof.
  unfold Set_. case_match; [done|]. intros [= <-] Ht Httl. unfold ms_at, key_expired. simpl.
  case_bool_decide as Hk; subst.
  - rewrite lookup_insert_eq. destruct (0 <? ttl) eqn:E; simpl.
    + rewrite lookup_insert_eq. bool_to_prop. unfold After.
      by rewrite ttl_duration_small.
    + by rewrite lookup_delete_eq.
  - rewrite lookup_insert_ne by done.
    destruct (0 <? ttl); [by rewrite lookup_insert_ne|by rewrite lookup_delete_ne].
Qed.

#[export, refine] Instance MemStore_KeyValueBasic : KeyValueBasic MemStore := {|
  kv_Set now k v ttl m :=
    let '(m', e) := Set_ now k v ttl m in (m', match e with None => true | Some _ => false end);
  kv_Get := Get;
  kv_Delete := Delete;
  kv_Exists := Exists;
  kv_at := ms_at |}.
Proof.
  - intros now k v ttl m m' t k'. destruct (Set_ now k v ttl m) as [m1 [e|]] eqn:E; [done|].
    intros [= <-]. by apply ms_at_Set.
  - intros now k v ttl m m' t k'. destruct (Set_ now k v ttl m) as [m1 [e|]] eqn:E; [|done].
    intros [= <-]. unfold Set_ in E. case_match; by simplify_eq.
  - intros now k m m' r. unfold Get. destruct (key_expired now k m) eqn:He; intros [= <- <-].
    + split; [unfold ms_at; by rewrite He|]. intros t k' Ht. by eapply ms_at_remove_expired.
    + split; [unfold ms_at; by rewrite He|done].
  - intros now k m m' b. unfold Exists, ms_at.
    destruct (key_expired now k m) eqn:He; intros [= <- <-].
    + split; [|intros t k' Ht; by eapply ms_at_remove_expired].
      split; [done|]. by intros [? ?].
    + split; [|done]. by rewrite bool_decide_eq_true.
  - intros k m t k'. apply ms_at_remove.
Defined.

(** ** Clients of the interface *)

Section Client.
Context {S : Type} `{!KeyValueBasic S}.
Implicit Types (s : S).

Inductive kv_op :=
  | KSet (k : string) (v : bytes) (ttl : Z)
  | KGet (k : string)
  | KDelete (k : string)
  | KExists (k : string).

Definition kv_step (s : S) (e : Z * kv_op) : S :=
  match e with
  | (now, KSet k v ttl) => (kv_Set now k v ttl s).1
  | (now, KGet k) => (kv_Get now k s).1
  | (now, KDelete k) => kv_Delete k s
  | (now, KExists k) => (kv_Exists now k s).1
  end.

Definition touches (k : string) (op : kv_op) : bool :=
  match op with
  | KSet k' _ _ | KDelete k' => bool_decide (k' = k)
  | KGet _ | KExists _ => false
  end.

(** Operations on other keys, and reads of any key, do not change what is seen. *)
Lemma kv_frame ops s k t :
  Forall (λ e, touches k e.2 = false ∧ e.1 ≤ t ∧
               match e.2 with KSet _ _ ttl => ttl ≤ max_int64 / Second | _ => True end) ops →
  kv_at t (foldl kv_step s ops) k = kv_at t s k.
Proof.
  intros Hall. revert s. induction Hall as [|[now op] ops (Ht & Hnow & Httl) Hall IH];
    intros s; [done|]. simpl in *. rewrite IH. destruct op as [k' v ttl|k'|k'|k']; simpl in *.
  - destruct (kv_Set now k' v ttl s) as [s' ok] eqn:E. destruct ok; simpl.
    + rewrite (kv_Set_at _ _ _ _ _ _ t k E Hnow Httl). bool_to_prop.
      by rewrite bool_decide_eq_false_2.
    + by apply (kv_Set_failed _ _ _ _ _ _ t k E).
  - destruct (kv_Get now k' s) as [s' r] eqn:E. simpl. by apply (kv_Get_at _ _ _ _ _ E).
  - rewrite kv_Delete_at. bool_to_prop. by rewrite bool_decide_eq_false_2.
  - destruct (kv_Exists now k' s) as [s' r] eqn:E. simpl. by apply (kv_Exists_at _ _ _ _ _ E).
Qed.

(** Set/Get round trip for every driver that implements the interface: after a
      successful [Set], and any operations of a client that does not overlap, on
      other keys or reading, [Get] returns the value until the TTL has passed and
      nothing after it. *)
Theorem kv_set_get now k v ttl s s1 ops t :
  kv_Set now k v ttl s = (s1, true) → ttl ≤ max_int64 / Second → now ≤ t →
  Forall (λ e, touches k e.2 = false ∧ e.1 ≤ t ∧
               match e.2 with KSet _ _ ttl => ttl ≤ max_int64 / Second | _ => True end) ops →
  (kv_Get t k (foldl kv_step s1 ops)).2 =
    if (0 <? ttl) && (now + ttl * Second <? t) then None else Some v.
Proof.
  intros Hset Httl Ht Hall. destruct (kv_Get t k _) as [s2 r] eqn:E. simpl.
  destruct (kv_Get_at _ _ _ _ _ E) as [-> _]. rewrite kv_frame by done.
  rewrite (kv_Set_at _ _ _ _ _ _ t k Hset Ht Httl). by rewrite bool_decide_eq_true_2.
Qed.
End Client.

(** ** Cleanup and capacity *)

Lemma cleanup_fold now l m k :
  let m' := foldr (λ '(key, expiration) m, if After now expiration then remove key m else m) m l in
  ms_data m' !! k = (if existsb (λ e, After now e.2 && bool_decide (e.1 = k)) l
                     then None else ms_data m !! k) ∧
  ms_ttl m' !! k = (if existsb (λ e, After now e.2 && bool_decide (e.1 = k)) l
                    then None else ms_ttl m !! k) ∧
  ms_config m' = ms_config m.
Proof.
  induction l as [|[key e] l (I1 & I2 & I3)]; simpl in *; [done|].
  destruct (After now e); simpl; [|done].
  destruct (decide (key = k)) as [<-|Hne].
  - rewrite bool_decide_eq_true_2 by done. simpl. by rewrite !lookup_delete_eq.
  - rewrite bool_decide_eq_false_2 by done. simpl. by rewrite !lookup_delete_ne.
Qed.

Lemma cleanup_lookup_mem now m k :
  ms_data (cleanup_tick now m) !! k =
    (if key_expired now k m then None else ms_data m !! k) ∧
  ms_ttl (cleanup_tick now m) !! k =
    (if key_expired now k m then None else ms_ttl m !! k) ∧
  ms_config (cleanup_tick now m) = ms_config m.
Proof.
  unfold cleanup_tick. destruct (cleanup_fold now (map_to_list (ms_ttl m)) m k) as (H1 & H2 & H3).
  assert (existsb (λ e, After now e.2 && bool_decide (e.1 = k)) (map_to_list (ms_ttl m)) =
          key_expired now k m) as E; [|by rewrite E in *].
  unfold key_expired. apply eq_iff_eq_true. rewrite existsb_exists.
  setoid_rewrite <- list_elem_of_In. split.
  - intros ([k' e] & Hl%elem_of_map_to_list & Ha). simpl in Ha. bool_to_prop. subst.
    by rewrite Hl.
  - destruct (ms_ttl m !! k) as [e|] eqn:Hl; [|done]. intros Ha. exists (k, e).
    split; [by apply elem_of_map_to_list|]. simpl. rewrite Ha. by rewrite bool_decide_eq_true_2.
Qed.

(** A cleanup tick removes exactly the keys whose expiry time has passed, with
      their values, and no client can observe it at the time of the tick or later. *)
Theorem memstore_cleanup_correct now m :
  (∀ k, key_expired now k (cleanup_tick now m) = false) ∧
  (∀ k, key_expired now k m = false →
     ms_data (cleanup_tick now m) !! k = ms_data m !! k ∧
     ms_ttl (cleanup_tick now m) !! k = ms_ttl m !! k) ∧
  (∀ t k, now ≤ t → ms_at t (cleanup_tick now m) k = ms_at t m k).
Proof.
  split_and!.
  - intros k. destruct (cleanup_lookup_mem now m k) as (_ & E & _). unfold key_expired at 1.
    rewrite E. destruct (key_expired now k m) eqn:He; [done|]. exact He.
  - intros k He. destruct (cleanup_lookup_mem now m k) as (-> & -> & _). by rewrite He.
  - intros t k Ht. destruct (cleanup_lookup_mem now m k) as (E1 & E2 & _).
    unfold ms_at, key_expired in *. rewrite E1, E2.
    destruct (ms_ttl m !! k) as [e|] eqn:Hl; [|done].
    destruct (After now e) eqn:He; [|done].
    unfold After in *. bool_to_prop. by rewrite (proj2 (Z.ltb_lt e t)) by lia.
Qed.

(** Operations that do not overlap respect the capacity: a store within its limit
      stays within it, [Set] fails exactly when the limit is reached and the key is
      new, and a failed [Set] changes nothing. *)
Theorem memstore_capacity now k v ttl m cfg :
  ms_config m = Some cfg → Z.of_nat (size (ms_data m)) ≤ mc_MaxKeys cfg →
  let '(m', e) := Set_ now k v ttl m in
  Z.of_nat (size (ms_data m')) ≤ mc_MaxKeys cfg ∧ ms_config m' = Some cfg ∧
  (e ≠ None ↔ Z.of_nat (size (ms_data m)) = mc_MaxKeys cfg ∧ ms_data m !! k = None) ∧
  (e ≠ None → m' = m).
Proof.
  intros Hc Hle. unfold Set_, over_capacity. rewrite Hc.
  destruct (ms_data m !! k) as [v0|] eqn:Hk.
  - rewrite (bool_decide_eq_true_2 (is_Some (Some v0))) by eauto. rewrite andb_false_r. simpl.
    rewrite map_size_insert_Some by eauto. split_and!; try done.
    split; [done|]. by intros [_ ?].
  - rewrite (bool_decide_eq_false_2 (is_Some None)) by (by intros [? ?]). rewrite andb_true_r.
    destruct (mc_MaxKeys cfg <=? Z.of_nat (size (ms_data m))) eqn:E; bool_to_prop; simpl.
    + split_and!; try done. split; [|done]. intros _. split; [lia|done].
    + rewrite map_size_insert_None by done. split_and!; try done; [lia|].
      split; [done|]. intros [? _]. lia.
Qed.

(** ** Atomic steps *)

(** Where a goroutine is in [Set] or [Get]. *)
Inductive mem_pc :=
  | SCount (k : string) (v : bytes) (ttl : Z)
  | SCheck (k : string) (v : bytes) (ttl : Z) (limit : Z)
  | SStore (k : string) (v : bytes) (ttl : Z)
  | STtl (k : string) (ttl : Z)
  | SDone (e : option mem_error)
  | GTtl (k : string)
  | GDelData (k : string)
  | GDelTtl (k : string)
  | GLoad (k : string)
  | GDone (r : option bytes).

Definition mem_step (now : Z) (pc : mem_pc) (m : MemStore) : option (mem_pc * MemStore) :=
  match pc with
  | SCount k v ttl =>
      match ms_config m with
      | Some cfg =>
          if mc_MaxKeys cfg <=? Z.of_nat (size (ms_data m))
          then Some (SCheck k v ttl (mc_MaxKeys cfg), m) else Some (SStore k v ttl, m)
      | None => Some (SStore k v ttl, m)
      end
  | SCheck k v ttl limit =>
      if bool_decide (is_Some (ms_data m !! k)) then Some (SStore k v ttl, m)
      else Some (SDone (Some (ErrCapacity limit)), m)
  | SStore k v ttl =>
      Some (STtl k ttl, mkMemStore (<[k := v]> (ms_data m)) (ms_ttl m) (ms_config m))
  | STtl k ttl =>
      Some (SDone None,
        mkMemStore (ms_data m)
          (if 0 <? ttl then <[k := now + ttl_duration ttl]> (ms_ttl m) else delete k (ms_ttl m))
          (ms_config m))
  | GTtl k => if key_expired now k m then Some (GDelData k, m) else Some (GLoad k, m)
  | GDelData k => Some (GDelTtl k, mkMemStore (delete k (ms_data m)) (ms_ttl m) (ms_config m))
  | GDelTtl k => Some (GDone None, mkMemStore (ms_data m) (delete k (ms_ttl m)) (ms_config m))
  | GLoad k => Some (GDone (ms_data m !! k), m)
  | SDone _ | GDone _ => None
  end.

(** Goroutines interleaved by a schedule of (goroutine, clock reading). *)
Fixpoint mem_run (schedule : list (nat * Z)) (pcs : list mem_pc) (m : MemStore)
    : option (list mem_pc * MemStore) :=
  match schedule with
  | [] => Some (pcs, m)
  | (i, now) :: schedule =>
      pc ← pcs !! i;
      '(pc', m') ← mem_step now pc m;
      mem_run schedule (<[i := pc']> pcs) m'
  end.

(** Run without interference, the atomic steps of [Set] and [Get] have the effect
      and the result of the operations: some number of steps leads to the end, with
      the store and the answer of the operation. *)
Theorem atomic_steps_refine now m :
  (∀ k v ttl m' e, Set_ now k v ttl m = (m', e) →
     ∃ n, mem_run (replicate n (0%nat, now)) [SCount k v ttl] m = Some ([SDone e], m')) ∧
  (∀ k m' r, Get now k m = (m', r) →
     ∃ n, mem_run (replicate n (0%nat, now)) [GTtl k] m = Some ([GDone r], m')).
Proof.
  split.
  - intros k v ttl m' e. unfold Set_, over_capacity.
    destruct (ms_config m) as [cfg|] eqn:Hc.
    + destruct (mc_MaxKeys cfg <=? Z.of_nat (size (ms_data m))) eqn:E; simpl.
      * destruct (bool_decide (is_Some (ms_data m !! k))) eqn:Hk; simpl; intros [= <- <-].
        -- exists 4%nat. simpl. rewrite Hc, E. simpl. rewrite Hk. simpl. by rewrite Hc.
        -- exists 2%nat. simpl. rewrite Hc, E. simpl. rewrite Hk. done.
      * intros [= <- <-]. exists 3%nat. simpl. rewrite Hc, E. simpl. by rewrite Hc.
    + intros [= <- <-]. exists 3%nat. simpl. rewrite Hc. simpl. by rewrite Hc.
  - intros k m' r. unfold Get. destruct (key_expired now k m) eqn:He; intros [= <- <-].
    + exists 3%nat. simpl. by rewrite He.
    + exists 2%nat. simpl. by rewrite He.
Qed.

Module MemstoreDemo.
Definition store : MemStore := mkMemStore {[ "k"%string := [1] ]} {[ "k"%string := 10 ]} None.
Definition at_time (t : Z) (l : list nat) : list (nat * Z) := (λ i, (i, t)) <$> l.
Definition limited : MemStore := mkMemStore ∅ ∅ (Some (mkMemConfig 1 Second)).

(** A [Get] that found the old value expired can delete a value that was stored
      in the meantime: with the two goroutines interleaved, [Set] reports success and
      the value is gone. *)
Theorem concurrent_get_loses_set :
  mem_run (at_time 20 [0; 1; 1; 1; 0; 0]%nat)
    [GTtl "k"; SCount "k" [2] 60] store =
  Some ([GDone None; SDone None], mkMemStore ∅ ∅ None).
Proof. vm_compute. reflexivity. Qed.

(** Two goroutines that set new keys can both pass the capacity check. *)
Example concurrent_sets_exceed_capacity :
  (λ '(_, m), size (ms_data m)) <$>
    mem_run (at_time 1 [0; 1; 0; 1; 0; 1]%nat)
      [SCount "a" [1] 0; SCount "b" [2] 0] limited = Some 2%nat.
Proof. vm_compute. reflexivity. Qed.

(** A TTL that does not fit a duration: the key is expired at once. *)
Example ttl_overflow_expires_at_once :
  (Get 1 "k" (Set_ 0 "k" [1] 9223372037 New).1).2 = None.
Proof. vm_compute. reflexivity. Qed.

Lemma kv_set_get_witness :
  (kv_Get 30 "k" (foldl kv_step (Set_ 20 "k" [2] 60 store).1 [(25, KDelete "x"); (26, KGet "k")])).2
  = if (0 <? 60) && (20 + 60 * Second <? 30) then None else Some [2].
Proof.
  apply (kv_set_get 20 "k" [2] 60 store); [reflexivity|vm_compute; done|lia|].
  repeat constructor; simpl; lia.
Defined.

Lemma memstore_capacity_witness :
  let '(m', e) := Set_ 1 "a" [1] 0 limited in
  Z.of_nat (size (ms_data m')) ≤ 1 ∧ ms_config m' = Some (mkMemConfig 1 Second) ∧
  (e ≠ None ↔ Z.of_nat (size (ms_data limited)) = 1 ∧ ms_data limited !! "a"%string = None) ∧
  (e ≠ None → m' = limited).
Proof.
  apply (memstore_capacity 1 "a" [1] 0 limited (mkMemConfig 1 Second)); [reflexivity|].
  vm_compute. done.
Defined.
End MemstoreDemo.
