(* ===== verification/MemPubSub.v ===== *)
(** * pkg/drivers/memstore/pubsub.go: the in-memory publish-subscribe driver

    A subscription is a buffered channel, kept under its topic and subscriber id.
    Channels are objects of their own: the subscriber holds on to the channel when
    it is closed or replaced in the map.  Sending on a closed channel and closing a
    channel twice panic; operations return [None] then.  Each operation is one
    step; message ids and timestamps are part of the message. *)

From S2P Require Import Prelude.
Local Open Scope Z_scope.

Record PubSubMessage := mkPubSubMessage {
  pm_MessageID : string;
  pm_Topic : string;
  pm_Payload : list Z;
  pm_Metadata : gmap string string;
  pm_Timestamp : Z }.

Record channel := mkChannel {
  ch_buffer : list PubSubMessage;
  ch_capacity : nat;
  ch_closed : bool }.

(** [mp_bufferSize]: the configured buffer size, once initialized. *)
Record MemPubSub := mkMemPubSub {
  mp_subscribers : gmap string (gmap string nat);
  mp_channels : gmap nat channel;
  mp_next : nat;
  mp_bufferSize : option Z }.

Definition NewPubSub : MemPubSub := mkMemPubSub ∅ ∅ 0 None.

Definition PubSub_Initialize (bufferSize : Z) (p : MemPubSub) : MemPubSub :=
  mkMemPubSub (mp_subscribers p) (mp_channels p) (mp_next p)
    (Some (if bufferSize =? 0 then 100 else bufferSize)).

Definition put_channel (ch : nat) (c : channel) (p : MemPubSub) : MemPubSub :=
  mkMemPubSub (mp_subscribers p) (<[ch := c]> (mp_channels p)) (mp_next p) (mp_bufferSize p).

(** A non-blocking send: a full channel is skipped. *)
Definition try_send (msg : PubSubMessage) (ch : nat) (p : MemPubSub) : option MemPubSub :=
  match mp_channels p !! ch with
  | None => Some p
  | Some c =>
      if ch_closed c then None
      else if (length (ch_buffer c) <? ch_capacity c)%nat
      then Some (put_channel ch (mkChannel (ch_buffer c ++ [msg]) (ch_capacity c) false) p)
      else Some p
  end.

Fixpoint send_all (msg : PubSubMessage) (chs : list nat) (p : MemPubSub) : option MemPubSub :=
  match chs with
  | [] => Some p
  | ch :: chs => p' ← try_send msg ch p; send_all msg chs p'
  end.

(** The channels of a topic, in the order of the iteration. *)
Definition topic_channels (topic : string) (p : MemPubSub) : list nat :=
  match mp_subscribers p !! topic with
  | Some subMap => (map_to_list subMap).*2
  | None => []
  end.

Definition Publish (msg : PubSubMessage) (p : MemPubSub) : option MemPubSub :=
  send_all msg (topic_channels (pm_Topic msg) p) p.

(** Making a channel with a negative size panics. *)
Definition Subscribe (topic subscriberID : string) (p : MemPubSub) : option (nat * MemPubSub) :=
  let bufferSize := default 100 (mp_bufferSize p) in
  if bufferSize <? 0 then None
  else
    let ch := mp_next p in
    let subMap := default ∅ (mp_subscribers p !! topic) in
    Some (ch, mkMemPubSub (<[topic := <[subscriberID := ch]> subMap]> (mp_subscribers p))
                (<[ch := mkChannel [] (Z.to_nat bufferSize) false]> (mp_channels p))
                (S ch) (mp_bufferSize p)).

Definition close_channel (ch : nat) (p : MemPubSub) : option MemPubSub :=
  match mp_channels p !! ch with
  | None => Some p
  | Some c =>
      if ch_closed c then None
      else Some (put_channel ch (mkChannel (ch_buffer c) (ch_capacity c) true) p)
  end.

Definition Unsubscribe (topic subscriberID : string) (p : MemPubSub) : option MemPubSub :=
  match mp_subscribers p !! topic with
  | None => Some p
  | Some subMap =>
      match subMap !! subscriberID with
      | None => Some p
      | Some ch =>
          p ← close_channel ch p;
          Some (mkMemPubSub (<[topic := delete subscriberID subMap]> (mp_subscribers p))
                  (mp_channels p) (mp_next p) (mp_bufferSize p))
      end
  end.

(** The channels of all topics. *)
Definition all_channels (p : MemPubSub) : list nat :=
  (map_to_list (mp_subscribers p)).*2 ≫= λ subMap, (map_to_list subMap).*2.

Fixpoint close_all (chs : list nat) (p : MemPubSub) : option MemPubSub :=
  match chs with
  | [] => Some p
  | ch :: chs => p' ← close_channel ch p; close_all chs p'
  end.

Definition PubSub_Stop (p : MemPubSub) : option MemPubSub := close_all (all_channels p) p.

(** The subscriber receives the oldest message. *)
Definition receive (ch : nat) (p : MemPubSub) : option (PubSubMessage * MemPubSub) :=
  match mp_channels p !! ch with
  | Some (mkChannel (msg :: buf) cap cl) => Some (msg, put_channel ch (mkChannel buf cap cl) p)
  | _ => None
  end.

(** ** Invariant *)

(** [sub p t s = Some ch]: [ch] is the channel of subscriber [s] of topic [t]. *)
Definition sub (p : MemPubSub) (t s : string) : option nat :=
  match mp_subscribers p !! t with Some m => m !! s | None => None end.

(** Every subscription has a channel of its own that exists and is open. *)
Record psb_ok (p : MemPubSub) : Prop := {
  pk_open t s ch : sub p t s = Some ch →
    ∃ c, mp_channels p !! ch = Some c ∧ ch_closed c = false;
  pk_own t s t' s' ch : sub p t s = Some ch → sub p t' s' = Some ch → t = t' ∧ s = s';
  pk_fresh ch c : mp_channels p !! ch = Some c → (ch < mp_next p)%nat }.

Lemma topic_channels_elem topic p ch :
  ch ∈ topic_channels topic p ↔ ∃ s, sub p topic s = Some ch.
Proof.
  unfold topic_channels, sub. destruct (mp_subscribers p !! topic) as [m|].
  - rewrite list_elem_of_fmap. split.
    + intros ([s ch'] & -> & H%elem_of_map_to_list). eauto.
    + intros [s H]. exists (s, ch). split; [done|]. by apply elem_of_map_to_list.
  - split; [by intros ?%not_elem_of_nil|]. by intros [? ?].
Qed.

Lemma topic_channels_NoDup topic p : psb_ok p → NoDup (topic_channels topic p).
Proof.
  intros Hok. pose proof (pk_own _ Hok) as Hown. unfold sub in Hown. unfold topic_channels.
  destruct (mp_subscribers p !! topic) as [m|] eqn:Hm; [|constructor].
  assert (∀ s s' ch, m !! s = Some ch → m !! s' = Some ch → s = s') as Hinj.
  { intros s s' ch H1 H2. apply (Hown topic s topic s' ch); by rewrite Hm. }
  apply NoDup_fmap_2_strong; [|apply NoDup_map_to_list].
  intros [s1 c1] [s2 c2] H1%elem_of_map_to_list H2%elem_of_map_to_list E. simpl in E. subst.
  f_equal. by eapply Hinj.
Qed.

(** What publishing makes of an open channel. *)
Definition offered (msg : PubSubMessage) (c : channel) : channel :=
  if (length (ch_buffer c) <? ch_capacity c)%nat
  then mkChannel (ch_buffer c ++ [msg]) (ch_capacity c) false else c.

Lemma send_all_spec msg chs p :
  NoDup chs → (∀ ch, ch ∈ chs → ∃ c, mp_channels p !! ch = Some c ∧ ch_closed c = false) →
  ∃ p', send_all msg chs p = Some p' ∧ mp_subscribers p' = mp_subscribers p ∧
    mp_next p' = mp_next p ∧ mp_bufferSize p' = mp_bufferSize p ∧
    ∀ ch, mp_channels p' !! ch =
      if bool_decide (ch ∈ chs) then offered msg <$> mp_channels p !! ch else mp_channels p !! ch.
Proof.
  intros Hnd. revert p. induction Hnd as [|ch chs Hni Hnd IH]; intros p Hopen; simpl.
  { exists p. by split_and!. }
  destruct (Hopen ch (list_elem_of_here _ _)) as (c & Hc & Hcl).
  assert (∃ p1, try_send msg ch p = Some p1 ∧ mp_subscribers p1 = mp_subscribers p ∧
    mp_next p1 = mp_next p ∧ mp_bufferSize p1 = mp_bufferSize p ∧
    ∀ ch', mp_channels p1 !! ch' =
      if bool_decide (ch' = ch) then Some (offered msg c) else mp_channels p !! ch')
    as (p1 & E1 & S1 & N1 & B1 & C1).
  { unfold try_send, offered. rewrite Hc, Hcl.
    destruct (length (ch_buffer c) <? ch_capacity c)%nat; eexists; (split_and!; [done..|]);
      intros ch'; simpl; case_bool_decide; subst;
      rewrite ?lookup_insert_eq, ?lookup_insert_ne by done; done. }
  rewrite E1. simpl. destruct (IH p1) as (p' & E & Sp & Np & Bp & Cp).
  { intros ch' Hch'. destruct (Hopen ch' (list_elem_of_further _ _ _ Hch')) as (c' & Hc' & Hcl').
    exists c'. rewrite C1, bool_decide_eq_false_2; [done|]. by intros ->. }
  exists p'. split_and!; try congruence. intros ch'. rewrite Cp, !C1.
  destruct (decide (ch' = ch)) as [->|Hne].
  - rewrite (bool_decide_eq_false_2 (ch ∈ chs)) by done.
    rewrite (bool_decide_eq_true_2 (ch = ch)) by done.
    rewrite bool_decide_eq_true_2 by apply list_elem_of_here. by rewrite Hc.
  - rewrite (bool_decide_eq_false_2 (ch' = ch)) by done.
    rewrite (bool_decide_ext (ch' ∈ ch :: chs) (ch' ∈ chs)) by (rewrite elem_of_cons; tauto).
    done.
Qed.

Lemma Publish_spec msg p :
  psb_ok p →
  ∃ p', Publish msg p = Some p' ∧ mp_subscribers p' = mp_subscribers p ∧
    mp_next p' = mp_next p ∧ mp_bufferSize p' = mp_bufferSize p ∧
    ∀ ch, mp_channels p' !! ch =
      if bool_decide (ch ∈ topic_channels (pm_Topic msg) p)
      then offered msg <$> mp_channels p !! ch else mp_channels p !! ch.
Proof.
  intros Hok. apply send_all_spec; [by apply topic_channels_NoDup|].
  intros ch [s Hs]%topic_channels_elem. by eapply (pk_open _ Hok).
Qed.

Lemma sub_same p p' t s : mp_subscribers p' = mp_subscribers p → sub p' t s = sub p t s.
Proof. unfold sub. by intros ->. Qed.

Lemma offered_open msg c : ch_closed c = false → ch_closed (offered msg c) = false.
Proof. unfold offered. by case_match. Qed.

Lemma ok_Publish msg p p' : psb_ok p → Publish msg p = Some p' → psb_ok p'.
Proof.
  intros Hok E. destruct (Publish_spec msg p Hok) as (p1 & E1 & Es & En & _ & Hc).
  rewrite E in E1. injection E1 as <-. destruct Hok as [H1 H2 H3]. split.
  - intros t s ch. rewrite (sub_same p p') by done. intros (c & Hl & Hcl)%H1.
    rewrite Hc, Hl. case_bool_decide; simpl; eauto using offered_open.
  - intros t s t' s' ch. rewrite !(sub_same p p') by done. apply H2.
  - intros ch c. rewrite Hc, En. destruct (mp_channels p !! ch) eqn:Hl; [|by case_bool_decide].
    intros _. by eapply H3.
Qed.

Lemma sub_insert p t m chs n b t' s :
  sub (mkMemPubSub (<[t := m]> (mp_subscribers p)) chs n b) t' s =
    if bool_decide (t' = t) then m !! s else sub p t' s.
Proof.
  unfold sub. simpl. case_bool_decide; subst;
    [by rewrite lookup_insert_eq|by rewrite lookup_insert_ne].
Qed.

Lemma ok_Subscribe t s ch p p' : psb_ok p → Subscribe t s p = Some (ch, p') → psb_ok p'.
Proof.
  intros [H1 H2 H3]. unfold Subscribe. case_match; [done|]. intros [= <- <-].
  assert (∀ t' s', sub p t' s' ≠ Some (mp_next p)) as Hfresh.
  { intros t' s' (c & Hc & _)%H1. apply H3 in Hc. lia. }
  assert (∀ t' s' c, sub (mkMemPubSub (<[t := <[s := mp_next p]>
              (default ∅ (mp_subscribers p !! t))]> (mp_subscribers p))
              (<[mp_next p := mkChannel [] (Z.to_nat (default 100 (mp_bufferSize p))) false]>
                 (mp_channels p)) (S (mp_next p)) (mp_bufferSize p)) t' s' = Some c →
            (t' = t ∧ s' = s ∧ c = mp_next p) ∨ sub p t' s' = Some c ∧ c ≠ mp_next p) as Hsub.
  { intros t' s' c. rewrite sub_insert. case_bool_decide as Et; subst.
    - intros [[<- <-]|[Hne Hl]]%lookup_insert_Some; [by left|]. right.
      unfold sub. destruct (mp_subscribers p !! t) as [m|] eqn:Em; simpl in Hl;
        [|by rewrite lookup_empty in Hl]. split; [done|]. intros ->. apply (Hfresh t s').
      unfold sub. by rewrite Em.
    - intros Hl. right. split; [done|]. intros ->. by apply (Hfresh t' s'). }
  split; simpl.
  - intros t' s' c [(-> & -> & ->)|[Hl Hne]]%Hsub.
    + rewrite lookup_insert_eq. eauto.
    + rewrite lookup_insert_ne by done. by eapply H1.
  - intros t1 s1 t2 s2 c [(-> & -> & ->)|[Hl1 Hn1]]%Hsub [(-> & -> & E)|[Hl2 Hn2]]%Hsub;
      try done. by eapply H2.
  - intros c0 cc [[<- _]|[_ Hl]]%lookup_insert_Some; [lia|]. apply H3 in Hl. lia.
Qed.

Lemma ok_Unsubscribe t s p : psb_ok p → ∃ p', Unsubscribe t s p = Some p' ∧ psb_ok p' ∧
  sub p' t s = None ∧ ∀ t' s', (t', s') ≠ (t, s) → sub p' t' s' = sub p t' s'.
Proof.
  intros Hok. destruct Hok as [H1 H2 H3] eqn:E0. clear E0. unfold Unsubscribe.
  destruct (mp_subscribers p !! t) as [m|] eqn:Hm.
  2: { exists p. split_and!; try done. unfold sub. by rewrite Hm. }
  destruct (m !! s) as [ch|] eqn:Hs.
  2: { exists p. split_and!; try done. unfold sub. by rewrite Hm. }
  assert (sub p t s = Some ch) as Hsub by (unfold sub; by rewrite Hm).
  destruct (H1 _ _ _ Hsub) as (c & Hc & Hcl). unfold close_channel. rewrite Hc, Hcl. simpl.
  set (p' := mkMemPubSub _ _ _ _).
  assert (∀ t' s', sub p' t' s' =
            if bool_decide (t' = t ∧ s' = s) then None else sub p t' s') as Hp'.
  { intros t' s'. unfold p'. rewrite sub_insert. destruct (decide (t' = t)) as [->|Ht].
    - rewrite bool_decide_eq_true_2 by done. destruct (decide (s' = s)) as [->|Hne].
      + rewrite bool_decide_eq_true_2 by done. apply lookup_delete_eq.
      + rewrite bool_decide_eq_false_2 by (by intros [_ ?]). rewrite lookup_delete_ne by done.
        unfold sub. by rewrite Hm.
    - by rewrite !bool_decide_eq_false_2 by (by intros [? ?] || done). }
  assert (∀ t' s' c', sub p' t' s' = Some c' → sub p t' s' = Some c' ∧ c' ≠ ch) as Hin.
  { intros t' s' c'. rewrite Hp'. case_bool_decide as Hb; [done|]. intros Hl. split; [done|].
    intros ->. apply Hb. by apply (H2 t' s' t s ch). }
  exists p'. split; [done|]. split.
  { split.
    - intros t' s' c' [Hl Hne]%Hin. simpl. rewrite lookup_insert_ne by done. by eapply H1.
    - intros t1 s1 t2 s2 c' [Hl1 _]%Hin [Hl2 _]%Hin. by eapply H2.
    - intros ch' c'. simpl. intros [[<- _]|[_ Hl]]%lookup_insert_Some; by eapply H3. }
  split; [rewrite Hp'; by rewrite bool_decide_eq_true_2|].
  intros t' s' Hne. rewrite Hp', bool_decide_eq_false_2; [done|]. by intros [-> ->].
Qed.

(** ** Runs *)

Inductive ps_op :=
  | PPublish (msg : PubSubMessage)
  | PSubscribe (topic subscriberID : string)
  | PUnsubscribe (topic subscriberID : string)
  | PReceive (ch : nat).

(** A receive on an empty channel waits: nothing happens. *)
Definition ps_step (op : ps_op) (p : MemPubSub) : option MemPubSub :=
  match op with
  | PPublish msg => Publish msg p
  | PSubscribe t s => snd <$> Subscribe t s p
  | PUnsubscribe t s => Unsubscribe t s p
  | PReceive ch => Some (match receive ch p with Some (_, p') => p' | None => p end)
  end.

Fixpoint ps_run (ops : list ps_op) (p : MemPubSub) : option MemPubSub :=
  match ops with
  | [] => Some p
  | op :: ops => p' ← ps_step op p; ps_run ops p'
  end.

Lemma ok_receive ch p : psb_ok p → psb_ok (match receive ch p with Some (_, p') => p' | None => p end).
Proof.
  intros Hok. unfold receive. destruct (mp_channels p !! ch) as [[[|msg buf] cap cl]|] eqn:Hc;
    try done. destruct Hok as [H1 H2 H3]. split; simpl.
  - intros t s c (c0 & Hl & Hcl)%H1. destruct (decide (ch = c)) as [<-|Hne].
    + rewrite Hc in Hl. injection Hl as <-. rewrite lookup_insert_eq. eexists. by split.
    + rewrite lookup_insert_ne by done. eauto.
  - intros t s t' s' c. apply H2.
  - intros c0 cc [[<- _]|[_ Hl]]%lookup_insert_Some; by eapply H3.
Qed.

Lemma ok_step op p :
  0 ≤ default 100 (mp_bufferSize p) → psb_ok p →
  ∃ p', ps_step op p = Some p' ∧ psb_ok p' ∧ mp_bufferSize p' = mp_bufferSize p.
Proof.
  intros Hb Hok. destruct op as [msg|t s|t s|ch]; simpl.
  - destruct (Publish_spec msg p Hok) as (p' & E & _ & _ & Eb & _). eauto using ok_Publish.
  - destruct (Subscribe t s p) as [[ch p']|] eqn:E; simpl.
    + exists p'. split_and!; [done|by eapply ok_Subscribe|].
      unfold Subscribe in E. case_match; by simplify_eq.
    + unfold Subscribe in E. case_match; [|done]. bool_to_prop. lia.
  - destruct (ok_Unsubscribe t s p Hok) as (p' & E & Hok' & _). exists p'. split_and!; try done.
    unfold Unsubscribe, close_channel in E. repeat case_match; by simplify_eq/=.
  - eexists. split_and!; [done|by apply ok_receive|].
    unfold receive. destruct (mp_channels p !! ch) as [[[|msg buf] cap cl]|]; done.
Qed.

Lemma ok_run ops p :
  0 ≤ default 100 (mp_bufferSize p) → psb_ok p →
  ∃ p', ps_run ops p = Some p' ∧ psb_ok p'.
Proof.
  revert p. induction ops as [|op ops IH]; intros p Hb Hok; [by eauto|].
  destruct (ok_step op p Hb Hok) as (p1 & E & Hok1 & Eb). simpl. rewrite E. simpl.
  apply IH; [by rewrite Eb|done].
Qed.

Lemma ok_new size : psb_ok (PubSub_Initialize size NewPubSub).
Proof.
  split; simpl.
  - intros t s ch Hs. unfold sub in Hs. simpl in Hs. by rewrite lookup_empty in Hs.
  - intros t s t' s' ch Hs. unfold sub in Hs. simpl in Hs. by rewrite lookup_empty in Hs.
  - intros ch c Hc. by rewrite lookup_empty in Hc.
Qed.

(** Until it is stopped the driver never panics: any sequence of subscriptions,
      removals, publications and receives goes through, and every subscription
      always has an open channel of its own. *)
Theorem pubsub_never_panics ops size :
  0 ≤ size → ∃ p, ps_run ops (PubSub_Initialize size NewPubSub) = Some p ∧ psb_ok p.
Proof.
  intros Hs. apply ok_run; [|apply ok_new]. simpl. case_match; lia.
Qed.

(** Publishing offers the message once to every subscriber of the topic: a
      channel with room gets it behind the messages it already holds, a full one
      and the channels of all other topics stay as they are. *)
Theorem publish_offers_once msg p :
  psb_ok p →
  ∃ p', Publish msg p = Some p' ∧
    ∀ t s ch c, sub p t s = Some ch → mp_channels p !! ch = Some c →
      sub p' t s = Some ch ∧
      mp_channels p' !! ch = Some (if bool_decide (t = pm_Topic msg) then offered msg c else c).
Proof.
  intros Hok. destruct (Publish_spec msg p Hok) as (p' & E & Es & _ & _ & Hc).
  exists p'. split; [done|]. intros t s ch c Hs Hl. rewrite (sub_same p p') by done.
  split; [done|]. rewrite Hc, Hl. destruct (decide (t = pm_Topic msg)) as [->|Hne].
  - rewrite !bool_decide_eq_true_2; [done|done|]. apply topic_channels_elem. eauto.
  - rewrite !bool_decide_eq_false_2; [done|done|].
    intros [s' Hs']%topic_channels_elem. by destruct (pk_own _ Hok _ _ _ _ _ Hs Hs') as [-> _].
Qed.

(** ** After Stop *)

Lemma close_all_closed chs p p' ch c :
  close_all chs p = Some p' → mp_channels p !! ch = Some c →
  ∃ c', mp_channels p' !! ch = Some c' ∧ (ch ∈ chs ∨ ch_closed c = true → ch_closed c' = true).
Proof.
  revert p c. induction chs as [|ch0 chs IH]; intros p c; simpl.
  { intros [= ->] Hc. exists c. split; [done|]. intros [?|?]; [by apply not_elem_of_nil in H|done]. }
  unfold close_channel. destruct (mp_channels p !! ch0) as [c0|] eqn:Hc0; simpl.
  - destruct (ch_closed c0) eqn:Hcl; [done|]. simpl. intros Hrun Hc.
    destruct (decide (ch0 = ch)) as [->|Hne].
    + rewrite Hc in Hc0. injection Hc0 as <-.
      destruct (IH _ (mkChannel (ch_buffer c) (ch_capacity c) true) Hrun) as (c' & Hl & H).
      { simpl. by rewrite lookup_insert_eq. }
      exists c'. split; [done|]. intros _. apply H. by right.
    + destruct (IH _ c Hrun) as (c' & Hl & H). { simpl. by rewrite lookup_insert_ne. }
      exists c'. split; [done|]. intros [[->|?]%elem_of_cons|?]; [done| |]; apply H; auto.
  - intros Hrun Hc. destruct (IH _ c Hrun Hc) as (c' & Hl & H). exists c'. split; [done|].
    intros [[->|?]%elem_of_cons|?]; [congruence| |]; apply H; auto.
Qed.

Lemma close_all_subscribers chs p p' :
  close_all chs p = Some p' → mp_subscribers p' = mp_subscribers p.
Proof.
  revert p. induction chs as [|ch chs IH]; intros p; simpl; [by intros [= ->]|].
  unfold close_channel. destruct (mp_channels p !! ch) as [c|]; simpl; [|apply IH].
  destruct (ch_closed c); simpl; [done|]. intros ->%IH. done.
Qed.

Lemma send_all_closed msg chs p ch c :
  ch ∈ chs → mp_channels p !! ch = Some c → ch_closed c = true → send_all msg chs p = None.
Proof.
  revert p. induction chs as [|ch0 chs IH]; intros p Hin Hc Hcl; simpl.
  { by apply not_elem_of_nil in Hin. }
  unfold try_send. destruct (decide (ch0 = ch)) as [->|Hne]; [by rewrite Hc, Hcl|].
  apply elem_of_cons in Hin as [?|Hin]; [done|].
  destruct (mp_channels p !! ch0) as [c0|]; simpl; [|by apply IH].
  destruct (ch_closed c0); simpl; [done|]. case_match; simpl; apply IH; try done.
  simpl. by rewrite lookup_insert_ne.
Qed.

Lemma sub_all_channels p t s ch : sub p t s = Some ch → ch ∈ all_channels p.
Proof.
  unfold sub, all_channels. destruct (mp_subscribers p !! t) as [m|] eqn:Hm; [|done]. intros Hs.
  apply list_elem_of_bind. exists m. split.
  - apply list_elem_of_fmap. exists (s, ch). split; [done|]. by apply elem_of_map_to_list.
  - apply list_elem_of_fmap. exists (t, m). split; [done|]. by apply elem_of_map_to_list.
Qed.

(** [Stop] closes the channels and leaves them in the subscriber map, so publishing
      to a topic that had a subscriber panics afterwards. *)
Theorem publish_after_stop_panics msg p p' s ch :
  psb_ok p → PubSub_Stop p = Some p' → sub p (pm_Topic msg) s = Some ch →
  Publish msg p' = None.
Proof.
  intros Hok Hstop Hs. destruct (pk_open _ Hok _ _ _ Hs) as (c & Hc & _).
  destruct (close_all_closed _ _ _ ch c Hstop Hc) as (c' & Hc' & Hcl).
  eapply (send_all_closed _ _ _ ch c'); [|done|].
  - apply topic_channels_elem. exists s.
    rewrite (sub_same p p'); [done|]. by eapply close_all_subscribers.
  - apply Hcl. left. by eapply sub_all_channels.
Qed.

Module PubSubDemo.
Definition msg : PubSubMessage := mkPubSubMessage "m1" "t" [1] ∅ 5.
Definition ops : list ps_op := [PSubscribe "t" "s"; PPublish msg].
Definition p1 : MemPubSub := default NewPubSub (ps_run ops (PubSub_Initialize 2 NewPubSub)).
Definition p2 : MemPubSub := default NewPubSub (PubSub_Stop p1).

Lemma pubsub_never_panics_witness :
  ∃ p, ps_run ops (PubSub_Initialize 2 NewPubSub) = Some p ∧ psb_ok p.
Proof. apply (pubsub_never_panics ops 2). lia. Defined.

Lemma p1_ok : psb_ok p1.
Proof.
  destruct (ok_run ops (PubSub_Initialize 2 NewPubSub)) as (p & E & Hok);
    [simpl; lia|apply ok_new|]. unfold p1. by rewrite E.
Qed.

Lemma publish_offers_once_witness :
  ∃ p', Publish msg p1 = Some p' ∧
    ∀ t s ch c, sub p1 t s = Some ch → mp_channels p1 !! ch = Some c →
      sub p' t s = Some ch ∧
      mp_channels p' !! ch = Some (if bool_decide (t = pm_Topic msg) then offered msg c else c).
Proof. apply (publish_offers_once msg p1). apply p1_ok. Defined.

Lemma publish_after_stop_panics_witness : Publish msg p2 = None.
Proof.
  apply (publish_after_stop_panics msg p1 p2 "s" 0); [apply p1_ok| |]; vm_compute; reflexivity.
Defined.
End PubSubDemo.
