(* ===== verification/Slots.v ===== *)
(** * Backend slots of the messaging patterns

    The interfaces of pkg/plugin/interfaces.go through which the producer and the
    consumer use their backends: a message sink (publish-subscribe or queue), a state
    store and an object store, with what the patterns rely on; and the helpers of
    pkg/patterns/common.  SHA-256 and hexadecimal coding are written out, gzip and
    JSON are parameters of the definitions that use them.

    The boolean of an operation is whether it returned no error. *)

From S2P Require Import Prelude Memstore.
Local Open Scope Z_scope.

Definition string_bytes (s : string) : bytes :=
  (λ a, Z.of_N (Ascii.N_of_ascii a)) <$> String.list_ascii_of_string s.

Abbreviation str_map := (gmap string string).

(** A message as a sink takes it: topic, payload, metadata. *)
Definition sink_message : Type := string * bytes * str_map.

(** ** Interfaces *)

(** The value in a message sink slot: which of the two interfaces its dynamic type
    implements, the two operations, and the messages it has accepted.  An operation
    that fails may have taken effect. *)
Class MessageSink (S : Type) := {
  sk_is_pubsub : S → bool;
  sk_is_queue : S → bool;
  sk_Publish : sink_message → S → S * bool;
  sk_Enqueue : sink_message → S → S * bool;
  sk_log : S → list sink_message;
  sk_Publish_log m s s' ok : sk_Publish m s = (s', ok) →
    sk_log s' = sk_log s ++ [m] ∨ ok = false ∧ sk_log s' = sk_log s;
  sk_Enqueue_log m s s' ok : sk_Enqueue m s = (s', ok) →
    sk_log s' = sk_log s ++ [m] ∨ ok = false ∧ sk_log s' = sk_log s;
  sk_Publish_kind m s :
    sk_is_pubsub (sk_Publish m s).1 = sk_is_pubsub s ∧
    sk_is_queue (sk_Publish m s).1 = sk_is_queue s;
  sk_Enqueue_kind m s :
    sk_is_pubsub (sk_Enqueue m s).1 = sk_is_pubsub s ∧
    sk_is_queue (sk_Enqueue m s).1 = sk_is_queue s }.

(** The key-value interface as the patterns use it: [None] of [ss_Get] is an error. *)
Class StateStore (K : Type) := {
  ss_Get : Z → string → K → K * option (option bytes);
  ss_Set : Z → string → bytes → Z → K → K * bool;
  ss_at : Z → K → string → option bytes;
  ss_Get_at now k s s' r : ss_Get now k s = (s', r) →
    (r = None ∨ r = Some (ss_at now s k)) ∧ ∀ t k', now ≤ t → ss_at t s' k' = ss_at t s k';
  ss_Set_at now k v ttl s s' t k' :
    ss_Set now k v ttl s = (s', true) → now ≤ t → ttl ≤ max_int64 / Second →
    ss_at t s' k' =
      if bool_decide (k' = k)
      then if (0 <? ttl) && (now + ttl * Second <? t) then None else Some v
      else ss_at t s k';
  ss_Set_other now k v ttl s s' ok t k' :
    ss_Set now k v ttl s = (s', ok) → now ≤ t → ttl ≤ max_int64 / Second → k' ≠ k →
    ss_at t s' k' = ss_at t s k' }.

(** Every key-value driver is a state store whose reads do not fail. *)
#[export, refine] Instance KeyValueBasic_StateStore {K} `{!KeyValueBasic K} : StateStore K := {|
  ss_Get now k s := let '(s', r) := kv_Get now k s in (s', Some r);
  ss_Set now k v ttl s := kv_Set now k v ttl s;
  ss_at := kv_at |}.
Proof.
  - intros now k s s' r. destruct (kv_Get now k s) as [s1 r1] eqn:E. intros [= <- <-].
    destruct (kv_Get_at _ _ _ _ _ E) as [-> H]. by split; [right|].
  - intros. by apply kv_Set_at.
  - intros now k v ttl s s' [] t k' E Ht Httl Hne;
      [|by apply (kv_Set_failed _ _ _ _ _ _ t k' E)].
    rewrite (kv_Set_at _ _ _ _ _ _ t k' E Ht Httl). by rewrite bool_decide_eq_false_2.
Defined.

(** An object store: the object a reader sees at a time under a bucket and a key. *)
Class ObjectStore (O : Type) := {
  os_Put : Z → string → string → bytes → O → O * bool;
  os_Get : Z → string → string → O → option bytes;
  os_Delete : string → string → O → O * bool;
  os_SetTTL : Z → string → string → Z → O → O * bool;
  os_Put_Get now bucket key data o o' t b k :
    os_Put now bucket key data o = (o', true) → now ≤ t →
    os_Get t b k o' = if bool_decide ((b, k) = (bucket, key)) then Some data else os_Get t b k o;
  os_SetTTL_Get now bucket key ttl o t b k :
    t ≤ now + ttl * Second → os_Get t b k (os_SetTTL now bucket key ttl o).1 = os_Get t b k o }.

(** ** pkg/patterns/common *)

(** The fields of a [ClaimCheckMessage]. *)
Record ClaimCheckMessage := mkClaimCheckMessage {
  cc_ClaimID : string;
  cc_Bucket : string;
  cc_ObjectKey : string;
  cc_OriginalSize : Z;
  cc_Compression : string;
  cc_ContentType : string;
  cc_Checksum : string;
  cc_ExpiresAt : Z }.

(** SHA-256 (crypto/sha256) on 32-bit words. *)
Module SHA256.
Definition w32 (x : Z) : Z := x mod 2 ^ 32.
Definition rotr (n x : Z) : Z := Z.lor (Z.shiftr x n) (w32 (Z.shiftl x (32 - n))).
Definition s0 (x : Z) : Z := Z.lxor (Z.lxor (rotr 7 x) (rotr 18 x)) (Z.shiftr x 3).
Definition s1 (x : Z) : Z := Z.lxor (Z.lxor (rotr 17 x) (rotr 19 x)) (Z.shiftr x 10).
Definition S0 (x : Z) : Z := Z.lxor (Z.lxor (rotr 2 x) (rotr 13 x)) (rotr 22 x).
Definition S1 (x : Z) : Z := Z.lxor (Z.lxor (rotr 6 x) (rotr 11 x)) (rotr 25 x).
Definition ch (e f g : Z) : Z := Z.lxor (Z.land e f) (Z.land (2 ^ 32 - 1 - e) g).
Definition maj (a b c : Z) : Z := Z.lxor (Z.lxor (Z.land a b) (Z.land a c)) (Z.land b c).

Definition H0 : list Z :=
  [1779033703; 3144134277; 1013904242; 2773480762; 1359893119; 2600822924; 528734635;
   1541459225].
Definition K : list Z :=
  [1116352408; 1899447441; 3049323471; 3921009573; 961987163; 1508970993; 2453635748;
   2870763221; 3624381080; 310598401; 607225278; 1426881987; 1925078388; 2162078206;
   2614888103; 3248222580; 3835390401; 4022224774; 264347078; 604807628; 770255983;
   1249150122; 1555081692; 1996064986; 2554220882; 2821834349; 2952996808; 3210313671;
   3336571891; 3584528711; 113926993; 338241895; 666307205; 773529912; 1294757372;
   1396182291; 1695183700; 1986661051; 2177026350; 2456956037; 2730485921; 2820302411;
   3259730800; 3345764771; 3516065817; 3600352804; 4094571909; 275423344; 430227734;
   506948616; 659060556; 883997877; 958139571; 1322822218; 1537002063; 1747873779;
   1955562222; 2024104815; 2227730452; 2361852424; 2428436474; 2756734187; 3204031479;
   3329325298].

Definition at_ (l : list Z) (i : nat) : Z := default 0 (l !! i).

(** The last sixteen words of the schedule, most recent first, give the next one. *)
Fixpoint schedule (n : nat) (w : list Z) : list Z :=
  match n with
  | O => w
  | S n => schedule n (w32 (s1 (at_ w 1) + at_ w 6 + s0 (at_ w 14) + at_ w 15) :: w)
  end.

Definition round (st : list Z) (kw : Z * Z) : list Z :=
  match st with
  | [a; b; c; d; e; f; g; h] =>
      let t1 := h + S1 e + ch e f g + kw.1 + kw.2 in
      let t2 := S0 a + maj a b c in
      [w32 (t1 + t2); a; b; c; w32 (d + t1); e; f; g]
  | _ => st
  end.

Definition block (h : list Z) (words : list Z) : list Z :=
  let w := rev (schedule 48 (rev words)) in
  zip_with (λ x y, w32 (x + y)) h (foldl round h (zip K w)).

(** Big-endian words of four bytes, and back. *)
Fixpoint to_words (l : bytes) : list Z :=
  match l with
  | a :: b :: c :: d :: l => (a * 2 ^ 24 + b * 2 ^ 16 + c * 2 ^ 8 + d) :: to_words l
  | _ => []
  end.
Definition of_word (w : Z) : bytes :=
  [Z.shiftr w 24 mod 256; Z.shiftr w 16 mod 256; Z.shiftr w 8 mod 256; w mod 256].

Definition pad (l : bytes) : bytes :=
  let n := Z.of_nat (length l) in
  l ++ 128 :: replicate (Z.to_nat ((55 - n) mod 64)) 0
    ++ of_word (w32 (Z.shiftr (8 * n) 32)) ++ of_word (w32 (8 * n)).

Fixpoint blocks (n : nat) (ws : list Z) (h : list Z) : list Z :=
  match n with
  | O => h
  | S n => blocks n (drop 16 ws) (block h (take 16 ws))
  end.

Definition Sum256 (l : bytes) : bytes :=
  let ws := to_words (pad l) in
  blocks (length ws / 16) ws H0 ≫= of_word.
End SHA256.

Definition hex_digit (n : Z) : Ascii.ascii :=
  Ascii.ascii_of_N (Z.to_N (if n <? 10 then 48 + n else 87 + n)).

Definition EncodeToString (l : bytes) : string :=
  String.string_of_list_ascii (l ≫= λ b, [hex_digit (b / 16); hex_digit (b mod 16)]).

Definition CalculateSHA256 (data : bytes) : string := EncodeToString (SHA256.Sum256 data).

Example sha256_abc : CalculateSHA256 (string_bytes "abc") =
  "ba7816bf8f01cfea414140de5dae2223b00361a396177a9cb410ff61f20015ad"%string.
Proof. vm_compute. reflexivity. Qed.

Example sha256_empty : CalculateSHA256 [] =
  "e3b0c44298fc1c149afbf4c8996fb92427ae41e4649b934ca495991b7852b855"%string.
Proof. vm_compute. reflexivity. Qed.

Example sha256_two_blocks :
  CalculateSHA256 (string_bytes "abcdbcdecdefdefgefghfghighijhijkijkljklmklmnlmnomnopnopq") =
  "248d6a61d20638b8e5c026930c3e6039a33ce45964ff2167f6ecedd419db06c1"%string.
Proof. vm_compute. reflexivity. Qed.

(** ** Reference backends

    Small implementations of the interfaces, on which the patterns can be run. *)

Module RefSlots.
(** A publish-subscribe sink that fails the first attempts and keeps the rest. *)
Record RefSink := mkRefSink { rs_failures : nat; rs_log : list sink_message }.

Definition ref_send (m : sink_message) (s : RefSink) : RefSink * bool :=
  match rs_failures s with
  | O => (mkRefSink 0 (rs_log s ++ [m]), true)
  | S n => (mkRefSink n (rs_log s), false)
  end.

#[export, refine] Instance RefSink_MessageSink : MessageSink RefSink := {|
  sk_is_pubsub := λ _, true;
  sk_is_queue := λ _, true;
  sk_Publish := ref_send;
  sk_Enqueue := ref_send;
  sk_log := rs_log |}.
Proof.
  1,2: intros m s s' ok; unfold ref_send; destruct (rs_failures s); intros [= <- <-]; auto.
  all: done.
Defined.

(** Values with an optional expiry time. *)
Definition RefStore : Type := gmap string (bytes * option Z).

Definition ref_at (t : Z) (s : RefStore) (k : string) : option bytes :=
  match (s : gmap string (bytes * option Z)) !! k with
  | Some (v, Some e) => if e <? t then None else Some v
  | Some (v, None) => Some v
  | None => None
  end.
Definition ref_set (now : Z) (k : string) (v : bytes) (ttl : Z) (s : RefStore) : RefStore * bool :=
  (<[k := (v, if 0 <? ttl then Some (now + ttl * Second) else None)]>
     (s : gmap string (bytes * option Z)), true).

#[export, refine] Instance RefStore_StateStore : StateStore RefStore := {|
  ss_Get now k s := (s, Some (ref_at now s k));
  ss_Set := ref_set;
  ss_at := ref_at |}.
Proof.
  - intros now k s s' r [= <- <-]. by split; [right|].
  - intros now k v ttl s s' t k' [= <-] Ht Httl. unfold ref_at. case_bool_decide; subst.
    + rewrite lookup_insert_eq. by destruct (0 <? ttl).
    + by rewrite lookup_insert_ne.
  - intros now k v ttl s s' ok t k' [= <- _] Ht Httl Hne. unfold ref_at. by rewrite lookup_insert_ne.
Defined.

(** Objects that never expire. *)
Definition RefObjects : Type := gmap (string * string) bytes.

#[export, refine] Instance RefObjects_ObjectStore : ObjectStore RefObjects := {|
  os_Put now b k data o := (<[(b, k) := data]> (o : gmap (string * string) bytes), true);
  os_Get now b k o := (o : gmap (string * string) bytes) !! (b, k);
  os_Delete b k o := (delete (b, k) (o : gmap (string * string) bytes), true);
  os_SetTTL now b k ttl o := (o, true) |}.
Proof.
  - intros now bucket key data o o' t b k [= <-] Ht. case_bool_decide as E; simplify_eq.
    + by rewrite lookup_insert_eq.
    + rewrite lookup_insert_ne; [done|]. by intros [= -> ->].
  - done.
Defined.
End RefSlots.
