(* ===== verification/Sqlite.v ===== *)
(** * pkg/drivers/sqlite: the table driver

    The driver behind the mailbox pattern, with the events, filters and statistics of
    pkg/plugin/interfaces.go.  Statements are the texts the driver builds, with their
    arguments.  The database is the class [SqlDB]: its laws state what SQL says about
    these texts (the white space of the multi-line ones is normalised), over the rows of the driver's table.  JSON coding of the custom headers
    is the class [JsonHeaders].

    Clock readings are nanoseconds since the Unix epoch. *)

From S2P Require Import Prelude Backoff Memstore Slots.
Import GoFloat.
Local Open Scope Z_scope.

Definition UnixMilli (now : Z) : Z := now / Millisecond.
Definition UnixSecond (now : Z) : Z := now / Second.

(** ** Data of pkg/plugin/interfaces.go *)

Record MailboxEvent := mkMailboxEvent {
  ev_MessageID : string;
  ev_Timestamp : Z;
  ev_Topic : string;
  ev_ContentType : string;
  ev_SchemaID : string;
  ev_Encryption : string;
  ev_CorrelationID : string;
  ev_Principal : string;
  ev_Namespace : string;
  ev_CustomHeaders : str_map;
  ev_Body : bytes }.

Record EventFilter := mkEventFilter {
  ef_StartTime : option Z;
  ef_EndTime : option Z;
  ef_Topics : list string;
  ef_Principals : list string;
  ef_CorrelationID : option string;
  ef_Limit : Z;
  ef_Offset : Z }.

Record TableStats := mkTableStats {
  st_TotalEvents : Z;
  st_TotalSizeBytes : Z;
  st_OldestEvent : Z;
  st_NewestEvent : Z }.

(** ** SQL *)

Inductive sql_value := VNull | VInt (z : Z) | VText (s : string) | VBlob (b : bytes).
#[export] Instance sql_value_eq_dec : EqDecision sql_value.
Proof. solve_decision. Defined.

(** A row of the table without its id: the columns from [message_id] to [created_at]. *)
Abbreviation row := (list sql_value).
Definition column (n : nat) (r : row) : sql_value := default VNull (r !! n).
Definition col_message_id := 0%nat.
Definition col_timestamp := 1%nat.
Definition col_topic := 2%nat.
Definition col_correlation_id := 6%nat.
Definition col_principal := 7%nat.
Definition col_body := 10%nat.

(** [a <= b] on integers; a comparison with NULL does not hold. *)
Definition sql_le (a b : sql_value) : bool :=
  match a, b with VInt a, VInt b => a <=? b | _, _ => false end.
Definition sql_eq (a b : sql_value) : bool :=
  match a, b with VNull, _ | _, VNull => false | _, _ => bool_decide (a = b) end.

(** The conditions of the driver's queries, each with its number of placeholders. *)
Inductive condition :=
  | CStart | CEnd
  | CTopics (n : nat) | CPrincipals (n : nat)
  | CCorrelation.

Definition placeholders (c : condition) : nat :=
  match c with CStart | CEnd | CCorrelation => 1 | CTopics n | CPrincipals n => n end%nat.

Fixpoint in_list (n : nat) : string :=
  match n with
  | O => ""
  | S O => "?"
  | S n => "?, " +:+ in_list n
  end.

Definition condition_text (c : condition) : string :=
  match c with
  | CStart => " AND timestamp >= ?"
  | CEnd => " AND timestamp <= ?"
  | CTopics n => " AND topic IN (" +:+ in_list n +:+ ")"
  | CPrincipals n => " AND principal IN (" +:+ in_list n +:+ ")"
  | CCorrelation => " AND correlation_id = ?"
  end.

Definition condition_holds (c : condition) (args : list sql_value) (r : row) : bool :=
  match c with
  | CStart => sql_le (default VNull (args !! 0%nat)) (column col_timestamp r)
  | CEnd => sql_le (column col_timestamp r) (default VNull (args !! 0%nat))
  | CTopics _ => existsb (sql_eq (column col_topic r)) args
  | CPrincipals _ => existsb (sql_eq (column col_principal r)) args
  | CCorrelation => sql_eq (column col_correlation_id r) (default VNull (args !! 0%nat))
  end.

Definition conditions_hold (cs : list (condition * list sql_value)) (r : row) : bool :=
  forallb (λ '(c, args), condition_holds c args r) cs.

(** [LIMIT] and [OFFSET]; the grammar has no [OFFSET] without [LIMIT]. *)
Inductive page := PAll | PLimit (limit : Z) | PLimitOffset (limit offset : Z).

Definition page_text (p : page) : string :=
  match p with PAll => "" | PLimit _ => " LIMIT ?" | PLimitOffset _ _ => " LIMIT ? OFFSET ?" end.
Definition page_args (p : page) : list sql_value :=
  match p with PAll => [] | PLimit l => [VInt l] | PLimitOffset l o => [VInt l; VInt o] end.
Definition page_rows {A} (p : page) (rs : list A) : list A :=
  match p with
  | PAll => rs
  | PLimit l => take (Z.to_nat l) rs
  | PLimitOffset l o => take (Z.to_nat l) (drop (Z.to_nat o) rs)
  end.

Definition event_columns : string :=
  "message_id, timestamp, topic, content_type, schema_id, encryption, correlation_id, principal, namespace, custom_headers, body".

Definition select_text (table : string) : string :=
  "SELECT " +:+ event_columns +:+ " FROM " +:+ table +:+ " WHERE 1=1".
Definition order_text : string := " ORDER BY timestamp DESC".
Definition conditions_text (cs : list condition) : string :=
  foldr (λ c s, condition_text c +:+ s) "" cs.
Definition get_text (table : string) : string :=
  "SELECT " +:+ event_columns +:+ " FROM " +:+ table +:+ " WHERE message_id = ?".
Definition insert_text (table : string) : string :=
  "INSERT INTO " +:+ table +:+ " (message_id, timestamp, topic, content_type, schema_id, encryption, correlation_id, principal, namespace, custom_headers, body, created_at) VALUES (?, ?, ?, ?, ?, ?, ?, ?, ?, ?, ?, ?)".
Definition delete_text (table : string) : string :=
  "DELETE FROM " +:+ table +:+ " WHERE timestamp < ?".
Definition count_text (table : string) : string :=
  "SELECT COUNT(*), MIN(timestamp), MAX(timestamp) FROM " +:+ table.
Definition size_text (table : string) : string :=
  "SELECT SUM(LENGTH(body)) FROM " +:+ table.

(** The selected columns: all but [created_at]. *)
Definition project (r : row) : row := take 11 r.

Definition later (r1 r2 : row) : Prop :=
  sql_le (column col_timestamp r2) (column col_timestamp r1) = true.

Definition int_of (v : sql_value) : Z := match v with VInt z => z | _ => 0 end.
Definition blob_length (v : sql_value) : Z :=
  match v with VBlob b => Z.of_nat (length b) | _ => 0 end.

(** [MIN] and [MAX] of a column of integers and [SUM]; all are NULL over no rows. *)
Definition aggregate (f : Z → Z → Z) (vs : list Z) : sql_value :=
  match vs with [] => VNull | v :: vs => VInt (foldl f v vs) end.

(** The rows the schema admits: every column but the headers is NOT NULL or written by
    the driver, and the columns have their types. *)
Definition row_ok (r : row) : Prop :=
  length r = 12%nat ∧ (∃ id, column col_message_id r = VText id) ∧
  (∃ t, column col_timestamp r = VInt t) ∧ (∃ b, column col_body r = VBlob b).

(** The database of the driver with its table.  [db_up]: it is open and the context of
    the call is not done; a statement that fails may have taken effect.  A nil slice is
    not told from an empty one, so nothing is said of the insertion of an empty body. *)
Class SqlDB (table : string) (D : Type) := {
  db_up : D → bool;
  db_rows : D → list row;
  db_Exec : string → list sql_value → D → D * option Z;
  db_Query : string → list sql_value → D → option (list row);
  db_Close : D → D * bool;
  db_rows_ok d : Forall row_ok (db_rows d);
  db_ids_unique d : NoDup (column col_message_id <$> db_rows d);
  db_insert vals d d' r : db_Exec (insert_text table) vals d = (d', r) →
    db_rows d' = db_rows d ++ [vals] ∧ (r = Some 1 ∨ r = None) ∨ db_rows d' = db_rows d ∧ r = None;
  db_insert_ok vals d :
    db_up d = true → row_ok vals → column col_body vals ≠ VBlob [] →
    column col_message_id vals ∉ (column col_message_id <$> db_rows d) →
    (db_Exec (insert_text table) vals d).2 = Some 1;
  db_delete t d d' r : db_Exec (delete_text table) [VInt t] d = (d', r) →
    (db_rows d' = filter (λ r, sql_le (VInt t) (column col_timestamp r) = true) (db_rows d) ∧
     (r = Some (Z.of_nat (length (db_rows d) - length (db_rows d'))) ∨ r = None)) ∨
    db_rows d' = db_rows d ∧ r = None;
  db_delete_ok t d : db_up d = true → is_Some (db_Exec (delete_text table) [VInt t] d).2;
  db_select cs p d :
    db_up d = true → Forall (λ '(c, args), length args = placeholders c) cs →
    ∃ sorted, sorted ≡ₚ filter (λ r, conditions_hold cs r = true) (db_rows d) ∧
      StronglySorted later sorted ∧
      db_Query (select_text table +:+ conditions_text cs.*1 +:+ order_text +:+ page_text p)
        (concat cs.*2 ++ page_args p) d = Some (project <$> page_rows p sorted);
  db_offset_needs_limit cs args d :
    db_Query (select_text table +:+ conditions_text cs +:+ order_text +:+ " OFFSET ?") args d = None;
  db_get id d :
    db_up d = true →
    db_Query (get_text table) [VText id] d =
      Some (project <$> filter (λ r, column col_message_id r = VText id) (db_rows d));
  db_count d :
    db_up d = true →
    let ts := (λ r, int_of (column col_timestamp r)) <$> db_rows d in
    db_Query (count_text table) [] d =
      Some [[VInt (Z.of_nat (length (db_rows d))); aggregate Z.min ts; aggregate Z.max ts]];
  db_size d :
    db_up d = true →
    db_Query (size_text table) [] d =
      Some [[aggregate Z.add ((λ r, blob_length (column col_body r)) <$> db_rows d)]] }.

(** [json.Marshal] and [json.Unmarshal] of a [map[string]string]; strings that are not
    UTF-8 do not come back. *)
Definition is_ascii (s : string) : bool := forallb (λ b, b <? 128) (string_bytes s).
Definition ascii_headers (m : str_map) : Prop :=
  map_Forall (λ k v, is_ascii k = true ∧ is_ascii v = true) m.
Class JsonHeaders := {
  json_Marshal : str_map → string;
  json_Unmarshal : string → option str_map;
  json_roundtrip m : ascii_headers m →
    json_Marshal m ≠ ""%string ∧ json_Unmarshal (json_Marshal m) = Some m }.

(** ** The driver *)

(** A value of the untyped backend configuration. *)
Inductive backend_value := BString (s : string) | BFloat (f : float64) | BOther.

Section Driver.
Context (table : string) {D : Type} `{!SqlDB table D} `{!JsonHeaders} (ovf : Z).

Record Driver := mkDriver {
  dr_db : option D;
  dr_dbPath : string;
  dr_table : string;
  dr_config : option (gmap string backend_value);
  dr_started : bool;
  dr_stopped : bool  (* stopChan is closed *);
  dr_cleaners : list Z  (* the running cleanup loops, by retention in days *) }.

Inductive driver_error :=
  | ErrOpen
  | ErrAlreadyStarted
  | ErrNotStarted
  | ErrClose
  | ErrInsert
  | ErrQuery
  | ErrScan
  | ErrHeaders
  | ErrEventNotFound (id : string)
  | ErrDelete
  | ErrCount
  | ErrSize.

Definition Driver_New : Driver := mkDriver None "" "" None false false [].

Definition set_db (db : D) (d : Driver) : Driver :=
  mkDriver (Some db) (dr_dbPath d) (dr_table d) (dr_config d) (dr_started d) (dr_stopped d)
    (dr_cleaners d).

Definition backend_string (key dflt : string) (config : gmap string backend_value) : string :=
  match config !! key with Some (BString s) => s | _ => dflt end.

(** [opened]: the database of the path and the table, when it could be opened, and
    whether its pragmas, schema and indexes could be set up. *)
Definition Initialize (config : gmap string backend_value) (opened : option (D * bool)) (d : Driver)
    : Driver * option driver_error :=
  let d := mkDriver (dr_db d) (backend_string "database_path" "./mailbox.db" config)
             (backend_string "table_name" "mailbox" config) (Some config) (dr_started d)
             (dr_stopped d) (dr_cleaners d) in
  match opened with
  | None => (d, Some ErrOpen)
  | Some (db, ok) => (set_db db d, if ok then None else Some ErrOpen)
  end.

(** [retention_days] counts when it is a float64 greater than zero. *)
Definition retention (config : gmap string backend_value) : option Z :=
  match config !! "retention_days"%string with
  | Some (BFloat f) => if f64_ltb f64_zero f then Some (f64_to_int64 ovf f) else None
  | _ => None
  end.

(** The configuration is nil before [Initialize], and [started] is set before it is read. *)
Definition Driver_Start (d : Driver) : Driver * result driver_error unit :=
  if dr_started d then (d, Err ErrAlreadyStarted)
  else
    let start cleaners :=
      mkDriver (dr_db d) (dr_dbPath d) (dr_table d) (dr_config d) true (dr_stopped d) cleaners in
    match dr_config d with
    | None => (start (dr_cleaners d), Panic)
    | Some config => (start (dr_cleaners d ++ option_list (retention config)), Ok ())
    end.

(** A driver that was started again closes a closed channel. *)
Definition Driver_Stop (d : Driver) : Driver * result driver_error unit :=
  if negb (dr_started d) then (d, Ok ())
  else if dr_stopped d then (d, Panic)
  else
    let stop db := mkDriver db (dr_dbPath d) (dr_table d) (dr_config d) false true [] in
    match dr_db d with
    | Some db =>
        let '(db, ok) := db_Close (table := table) db in
        (stop (Some db), if ok then Ok () else Err ErrClose)
    | None => (stop None, Ok ())
    end.

(** The guard of the operations, and the database, which is nil when [Initialize] did
    not open it. *)
Definition with_db {A} (d : Driver) (k : D → result driver_error A) : result driver_error A :=
  if negb (dr_started d) then Err ErrNotStarted
  else match dr_db d with None => Panic | Some db => k db end.

(** *** Writing *)

Definition event_row (now : Z) (e : MailboxEvent) : row :=
  [VText (ev_MessageID e); VInt (ev_Timestamp e); VText (ev_Topic e); VText (ev_ContentType e);
   VText (ev_SchemaID e); VText (ev_Encryption e); VText (ev_CorrelationID e);
   VText (ev_Principal e); VText (ev_Namespace e); VText (json_Marshal (ev_CustomHeaders e));
   VBlob (ev_Body e); VInt (UnixMilli now)].

Definition WriteEvent (now : Z) (e : MailboxEvent) (d : Driver) : Driver * result driver_error unit :=
  match with_db d Ok with
  | Ok db =>
      let '(db, r) := db_Exec (insert_text (dr_table d)) (event_row now e) db in
      (set_db db d, match r with Some _ => Ok () | None => Err ErrInsert end)
  | Err e => (d, Err e)
  | Panic => (d, Panic)
  end.

Definition DeleteOldEvents (olderThan : Z) (d : Driver) : Driver * result driver_error Z :=
  match with_db d Ok with
  | Ok db =>
      let '(db, r) := db_Exec (delete_text (dr_table d)) [VInt olderThan] db in
      (set_db db d, match r with Some n => Ok n | None => Err ErrDelete end)
  | Err e => (d, Err e)
  | Panic => (d, Panic)
  end.

(** *** Reading *)

(** The columns have the types of the schema, so that only NULL fails to scan. *)
Definition scan_int (v : sql_value) : result driver_error Z :=
  match v with VInt z => Ok z | _ => Err ErrScan end.
Definition scan_string (v : sql_value) : result driver_error string :=
  match v with VText s => Ok s | _ => Err ErrScan end.
Definition scan_bytes (v : sql_value) : result driver_error bytes :=
  match v with VBlob b => Ok b | VText s => Ok (string_bytes s) | VNull => Ok [] | _ => Err ErrScan end.

(** [Scan] of the eleven columns, and the headers. *)
Definition scan_event (r : row) : result driver_error MailboxEvent :=
  (id <-! scan_string (column 0 r);
   timestamp <-! scan_int (column 1 r);
   topic <-! scan_string (column 2 r);
   contentType <-! scan_string (column 3 r);
   schemaID <-! scan_string (column 4 r);
   encryption <-! scan_string (column 5 r);
   correlationID <-! scan_string (column 6 r);
   principal <-! scan_string (column 7 r);
   namespace <-! scan_string (column 8 r);
   headers <-! scan_string (column 9 r);
   body <-! scan_bytes (column 10 r);
   let event custom :=
     mkMailboxEvent id timestamp topic contentType schemaID encryption correlationID principal
       namespace custom body in
   if bool_decide (headers = ""%string) then Ok (event ∅)
   else match json_Unmarshal headers with
   | Some m => Ok (event m)
   | None => Err ErrHeaders
   end)%go.

Fixpoint scan_events (rs : list row) : result driver_error (list MailboxEvent) :=
  match rs with
  | [] => Ok []
  | r :: rs => (e <-! scan_event r; es <-! scan_events rs; Ok (e :: es))%go
  end.

(** The loop that writes the placeholders of an [IN] list, from index [i]. *)
Fixpoint add_in (i : nat) (vs : list string) (q : string * list sql_value)
    : string * list sql_value :=
  match vs with
  | [] => q
  | v :: vs =>
      let text := if (0 <? i)%nat then q.1 +:+ ", " else q.1 in
      add_in (S i) vs (text +:+ "?", q.2 ++ [VText v])
  end.

Definition add (text : string) (arg : sql_value) (q : string * list sql_value)
    : string * list sql_value :=
  (q.1 +:+ text, q.2 ++ [arg]).

Definition add_opt {A} (text : string) (f : A → sql_value) (o : option A)
    (q : string * list sql_value) : string * list sql_value :=
  match o with Some a => add text (f a) q | None => q end.

Definition add_set (text : string) (vs : list string) (q : string * list sql_value)
    : string * list sql_value :=
  if (0 <? length vs)%nat then
    let q := add_in 0 vs (q.1 +:+ text, q.2) in (q.1 +:+ ")", q.2)
  else q.

(** The text and the arguments of [QueryEvents]. *)
Definition build_query (tbl : string) (filter : EventFilter) : string * list sql_value :=
  let q := (select_text tbl, []) in
  let q := add_opt " AND timestamp >= ?" VInt (ef_StartTime filter) q in
  let q := add_opt " AND timestamp <= ?" VInt (ef_EndTime filter) q in
  let q := add_set " AND topic IN (" (ef_Topics filter) q in
  let q := add_set " AND principal IN (" (ef_Principals filter) q in
  let q := add_opt " AND correlation_id = ?" VText (ef_CorrelationID filter) q in
  let q := (q.1 +:+ " ORDER BY timestamp DESC", q.2) in
  let q := if 0 <? ef_Limit filter then add " LIMIT ?" (VInt (ef_Limit filter)) q else q in
  if 0 <? ef_Offset filter then add " OFFSET ?" (VInt (ef_Offset filter)) q else q.

Definition QueryEvents (filter : EventFilter) (d : Driver) : result driver_error (list MailboxEvent) :=
  with_db d (λ db,
    let '(query, args) := build_query (dr_table d) filter in
    match db_Query query args db with
    | None => Err ErrQuery
    | Some rs => scan_events rs
    end).

Definition GetEvent (messageID : string) (d : Driver) : result driver_error MailboxEvent :=
  with_db d (λ db,
    match db_Query (get_text (dr_table d)) [VText messageID] db with
    | None => Err ErrQuery
    | Some [] => Err (ErrEventNotFound messageID)
    | Some (r :: _) => scan_event r
    end).

(** [QueryRowContext]: the first row, if there is one. *)
Definition query_row (query : string) (e : driver_error) (db : D) : result driver_error (option row) :=
  match db_Query query [] db with
  | None => Err e
  | Some rs => Ok (head rs)
  end.

(** No row at all is not an error. *)
Definition GetTableStats (d : Driver) : result driver_error TableStats :=
  with_db d (λ db,
    (counts <-! query_row (count_text (dr_table d)) ErrCount db;
     counts <-! match counts with
                | None => Ok (0, 0, 0)
                | Some r =>
                    match scan_int (column 0 r), scan_int (column 1 r), scan_int (column 2 r) with
                    | Ok n, Ok oldest, Ok newest => Ok (n, oldest, newest)
                    | _, _, _ => Err ErrCount
                    end
                end;
     size <-! query_row (size_text (dr_table d)) ErrSize db;
     size <-! match size with
              | None => Ok 0
              | Some r => match scan_int (column 0 r) with Ok n => Ok n | _ => Err ErrSize end
              end;
     let '(n, oldest, newest) := counts in
     Ok (mkTableStats n size oldest newest))%go).

(** *** Retention *)

(** The cutoff of the cleanup loop; [now] is in the range of [UnixNano]. *)
Definition cutoff (now retentionDays : Z) : Z :=
  UnixMilli (now + wrap64 (wrap64 (wrap64 (- retentionDays) * 24) * (60 * Minute))).

(** One tick of the loop with this retention. *)
Definition retention_tick (now retentionDays : Z) (d : Driver) : Driver :=
  (DeleteOldEvents (cutoff now retentionDays) d).1.
End Driver.
