(* ===== verification/Nats.v ===== *)
(** * pkg/drivers/nats: the NATS driver

    Publish-subscribe and queue groups over a NATS connection, which is the class
    [NatsConn].  A subscription delivers into a buffered channel of its own; the
    callback drops what does not fit. *)

From stdpp Require Import pretty.
From S2P Require Import Prelude Memstore MemPubSub Slots Sqlite.
Local Open Scope Z_scope.

(** The connection: its live subscriptions (subject and queue group) and what it
    published. *)
Class NatsConn (C : Type) := {
  nc_live : C → gmap nat (string * option string);
  nc_published : C → list (string * bytes);
  nc_Publish : string → bytes → C → C * bool;
  nc_Flush : C → C * bool;
  nc_Subscribe : string → option string → C → C * option nat;
  nc_Unsubscribe : nat → C → C * bool;
  nc_Close : C → C;
  nc_Publish_spec subject data c c' ok : nc_Publish subject data c = (c', ok) →
    nc_live c' = nc_live c ∧
    nc_published c' = (if ok then nc_published c ++ [(subject, data)] else nc_published c);
  nc_Flush_spec c c' ok : nc_Flush c = (c', ok) →
    nc_live c' = nc_live c ∧ nc_published c' = nc_published c;
  nc_Subscribe_spec subject group c c' r : nc_Subscribe subject group c = (c', r) →
    match r with
    | Some id => nc_live c !! id = None ∧ nc_live c' = <[id := (subject, group)]> (nc_live c)
    | None => nc_live c' = nc_live c
    end;
  nc_Unsubscribe_spec id c c' ok : nc_Unsubscribe id c = (c', ok) →
    nc_live c' = if ok then delete id (nc_live c) else nc_live c }.

Record NatsConfig := mkNatsConfig {
  nt_URL : string;
  nt_MaxReconnects : Z;
  nt_ReconnectWait : Z;
  nt_Timeout : Z;
  nt_PingInterval : Z;
  nt_MaxPendingMsgs : Z }.

(** The defaults that [Initialize] applies. *)
Definition nats_defaults (c : NatsConfig) : NatsConfig :=
  let dflt v d := if v =? 0 then d else v in
  mkNatsConfig
    (if bool_decide (nt_URL c = ""%string) then "nats://127.0.0.1:4222" else nt_URL c)
    (dflt (nt_MaxReconnects c) 10) (dflt (nt_ReconnectWait c) (2 * Second))
    (dflt (nt_Timeout c) (5 * Second)) (dflt (nt_PingInterval c) (20 * Second))
    (dflt (nt_MaxPendingMsgs c) 65536).

Inductive nats_error :=
  | ErrConnect
  | ErrNotConnected
  | ErrPublish
  | ErrFlush
  | ErrSubscribe
  | ErrNoSubscription
  | ErrUnsubscribe.

(** The message of the callback: the subject and the data of the NATS message, a fresh
    id and the time in seconds; the metadata is nil. *)
Definition nats_message (nano now : Z) (subject : string) (data : bytes) : PubSubMessage :=
  mkPubSubMessage (subject +:+ "-" +:+ pretty nano)%string subject data ∅ (UnixSecond now).

Section Nats.
Context {C : Type} `{!NatsConn C}.

Record NATSPattern := mkNATSPattern {
  na_conn : option C;
  na_config : option NatsConfig;
  na_subs : gmap string nat;
  na_channels : gmap nat channel  (* the channel of a subscription *) }.

Definition Nats_New : NATSPattern := mkNATSPattern None None ∅ ∅.

(** [conn]: what [nats.Connect] returned. *)
Definition Nats_Initialize (config : NatsConfig) (conn : option C) (n : NATSPattern)
    : NATSPattern * option nats_error :=
  let config := nats_defaults config in
  match conn with
  | None => (mkNATSPattern (na_conn n) (Some config) (na_subs n) (na_channels n), Some ErrConnect)
  | Some c => (mkNATSPattern (Some c) (Some config) (na_subs n) (na_channels n), None)
  end.

Definition set_conn (c : C) (n : NATSPattern) : NATSPattern :=
  mkNATSPattern (Some c) (na_config n) (na_subs n) (na_channels n).

(** The metadata is not sent. *)
Definition Nats_Publish (nano : Z) (topic : string) (payload : bytes) (metadata : str_map)
    (n : NATSPattern) : NATSPattern * result nats_error string :=
  match na_conn n with
  | None => (n, Err ErrNotConnected)
  | Some c =>
      let '(c, ok) := nc_Publish topic payload c in
      if negb ok then (set_conn c n, Err ErrPublish)
      else
        let '(c, ok) := nc_Flush c in
        (set_conn c n,
         if ok then Ok (topic +:+ "-" +:+ pretty nano)%string else Err ErrFlush)
  end.

(** [Subscribe] and [Receive] differ in the queue group and the key. *)
Definition subscribe_as (topic : string) (group : option string) (key : string) (n : NATSPattern)
    : NATSPattern * result nats_error nat :=
  match na_conn n, na_config n with
  | None, _ => (n, Err ErrNotConnected)
  | Some _, None => (n, Panic)
  | Some c, Some config =>
      if nt_MaxPendingMsgs config <? 0 then (n, Panic)
      else
        let '(c, r) := nc_Subscribe topic group c in
        match r with
        | None => (set_conn c n, Err ErrSubscribe)
        | Some id =>
            (mkNATSPattern (Some c) (na_config n) (<[key := id]> (na_subs n))
               (<[id := mkChannel [] (Z.to_nat (nt_MaxPendingMsgs config)) false]> (na_channels n)),
             Ok id)
        end
  end.

Definition sub_key (topic subscriberID : string) : string := (topic +:+ ":" +:+ subscriberID)%string.

Definition Nats_Subscribe (topic subscriberID : string) : NATSPattern → NATSPattern * result nats_error nat :=
  subscribe_as topic None (sub_key topic subscriberID).

Definition Nats_Receive (queue : string) : NATSPattern → NATSPattern * result nats_error nat :=
  subscribe_as queue (Some (queue +:+ "-queue")%string) ("queue:" +:+ queue)%string.

Definition Nats_Enqueue := Nats_Publish.

(** The connection of a subscription in the map is not nil. *)
Definition Nats_Unsubscribe (topic subscriberID : string) (n : NATSPattern)
    : NATSPattern * option nats_error :=
  let key := sub_key topic subscriberID in
  match na_subs n !! key, na_conn n with
  | Some sub, Some c =>
      let '(c, ok) := nc_Unsubscribe sub c in
      if ok then (mkNATSPattern (Some c) (na_config n) (delete key (na_subs n)) (na_channels n), None)
      else (set_conn c n, Some ErrUnsubscribe)
  | _, _ => (n, Some ErrNoSubscription)
  end.

(** The callback of a subscription: when the context of the subscriber is done,
    [done] may be chosen over a send. *)
Definition deliver (sub : nat) (msg : PubSubMessage) (done : bool) (n : NATSPattern) : NATSPattern :=
  match na_channels n !! sub with
  | None => n
  | Some ch =>
      if negb done && (length (ch_buffer ch) <? ch_capacity ch)%nat then
        mkNATSPattern (na_conn n) (na_config n) (na_subs n)
          (<[sub := mkChannel (ch_buffer ch ++ [msg]) (ch_capacity ch) (ch_closed ch)]> (na_channels n))
      else n
  end.

(** [Stop]: the subscriptions in the order of the map, whether or not each can be
    ended. *)
Fixpoint unsubscribe_all (subs : list nat) (c : C) : C :=
  match subs with
  | [] => c
  | sub :: subs => unsubscribe_all subs (nc_Unsubscribe sub c).1
  end.

Definition Nats_Stop (n : NATSPattern) : NATSPattern :=
  mkNATSPattern
    (match na_conn n with
     | Some c => Some (nc_Close (unsubscribe_all (map_to_list (na_subs n)).*2 c))
     | None => None
     end)
    (na_config n) ∅ (na_channels n).

(** Queue messages are not acknowledged. *)
Definition Nats_Acknowledge (queue id : string) (n : NATSPattern) : NATSPattern := n.
Definition Nats_Reject (queue id : string) (requeue : bool) (n : NATSPattern) : NATSPattern := n.

(** ** Properties *)

(** A second subscription of the same subscriber replaces the first one in the map
    without ending it, and a successful [Unsubscribe] then ends only the second: the
    first stays live at the server, with no key that leads to it. *)
Theorem resubscribe_leaks topic subscriberID n n1 n2 n3 id1 id2 :
  Nats_Subscribe topic subscriberID n = (n1, Ok id1) →
  Nats_Subscribe topic subscriberID n1 = (n2, Ok id2) →
  Nats_Unsubscribe topic subscriberID n2 = (n3, None) →
  (∀ key id, na_subs n !! key = Some id → ∃ c, na_conn n = Some c ∧ is_Some (nc_live c !! id)) →
  (∃ c, na_conn n3 = Some c ∧ nc_live c !! id1 = Some (topic, None)) ∧
  ∀ key, na_subs n3 !! key ≠ Some id1.
Proof.
  unfold Nats_Subscribe, subscribe_as, Nats_Unsubscribe. intros H1 H2 H3 Hlive.
  destruct (na_conn n) as [c|] eqn:Ec; [|done]. destruct (na_config n) as [cfg|] eqn:Eg; [|done].
  destruct (_ <? 0) eqn:Hmax; [done|].
  destruct (nc_Subscribe topic None c) as [c1 [i1|]] eqn:S1; [|done]. injection H1 as <- <-. simpl in H2.
  rewrite Hmax in H2.
  destruct (nc_Subscribe topic None c1) as [c2 [i2|]] eqn:S2; [|done]. injection H2 as <- <-.
  cbn [na_subs na_conn] in H3. rewrite lookup_insert_eq in H3.
  destruct (nc_Unsubscribe i2 c2) as [c3 ok] eqn:U. destruct ok; [|done]. injection H3 as <-.
  apply nc_Subscribe_spec in S1 as [F1 L1], S2 as [F2 L2]. apply nc_Unsubscribe_spec in U as L3.
  assert (i1 ≠ i2) as Hne. { intros ->. by rewrite L1, lookup_insert_eq in F2. }
  cbn [na_subs na_conn]. split.
  - exists c3. split; [done|].
    by rewrite L3, L2, L1, lookup_delete_ne, lookup_insert_ne, lookup_insert_eq.
  - intros key. rewrite delete_insert_eq, delete_insert_eq.
    intros [_ (c0 & [= <-] & [x Hx])%Hlive]%lookup_delete_Some. congruence.
Qed.
End Nats.

(** ** Runs *)

Module NatsDemo.
(** A connection that never fails. *)
Record conn := mkConn { cn_live : gmap nat (string * option string); cn_out : list (string * bytes) }.
#[export, refine] Instance conn_nats : NatsConn conn := {|
  nc_live := cn_live;
  nc_published := cn_out;
  nc_Publish subject data c := (mkConn (cn_live c) (cn_out c ++ [(subject, data)]), true);
  nc_Flush c := (c, true);
  nc_Subscribe subject group c :=
    let id := fresh (dom (cn_live c)) in
    (mkConn (<[id := (subject, group)]> (cn_live c)) (cn_out c), Some id);
  nc_Unsubscribe id c := (mkConn (delete id (cn_live c)) (cn_out c), true);
  nc_Close c := mkConn ∅ (cn_out c) |}.
Proof.
  - by intros subject data c c' ok [= <- <-].
  - by intros c c' ok [= <- <-].
  - intros subject group c c' r [= <- <-]. split; [|done]. apply not_elem_of_dom, is_fresh.
  - by intros id c c' ok [= <- <-].
Defined.

Definition connected : @NATSPattern conn :=
  (Nats_Initialize (mkNatsConfig "" 0 0 0 0 4) (Some (mkConn ∅ [])) Nats_New).1.
Definition once : @NATSPattern conn := (Nats_Subscribe "t" "s" connected).1.
Definition twice : @NATSPattern conn := (Nats_Subscribe "t" "s" once).1.
Definition ended : @NATSPattern conn := (Nats_Unsubscribe "t" "s" twice).1.

Lemma resubscribe_leaks_witness :
  (∃ c, na_conn ended = Some c ∧ nc_live c !! 0%nat = Some ("t"%string, None)) ∧
  ∀ key, na_subs ended !! key ≠ Some 0%nat.
Proof.
  refine (resubscribe_leaks "t" "s" connected once twice ended 0 1 _ _ _ _).
  - vm_compute. reflexivity.
  - vm_compute. reflexivity.
  - vm_compute. reflexivity.
  - done.
Defined.

(** Two subscriptions of different topics and subscribers with one key. *)
Example keys_collide : sub_key "a:b" "c" = sub_key "a" "b:c".
Proof. reflexivity. Qed.
End NatsDemo.
