(* ===== verification/SqliteSpec.v ===== *)
(** * Correctness of the SQLite driver

    The query that the driver builds is the filter; what was written is read back; the
    table and its statistics; and retention, whose clock is in milliseconds. *)

From S2P Require Import Prelude Backoff Memstore Slots Sqlite.
Local Open Scope Z_scope.

(** ** What a filter means *)

Definition matches (f : EventFilter) (e : MailboxEvent) : bool :=
  match ef_StartTime f with Some t => t <=? ev_Timestamp e | None => true end &&
  match ef_EndTime f with Some t => ev_Timestamp e <=? t | None => true end &&
  (bool_decide (ef_Topics f = []) || bool_decide (ev_Topic e ∈ ef_Topics f)) &&
  (bool_decide (ef_Principals f = []) || bool_decide (ev_Principal e ∈ ef_Principals f)) &&
  match ef_CorrelationID f with Some c => bool_decide (ev_CorrelationID e = c) | None => true end.

Definition filter_page (f : EventFilter) : page :=
  if 0 <? ef_Limit f then
    if 0 <? ef_Offset f then PLimitOffset (ef_Limit f) (ef_Offset f) else PLimit (ef_Limit f)
  else PAll.

(** Newest first. *)
Definition newer (e1 e2 : MailboxEvent) : Prop := ev_Timestamp e2 ≤ ev_Timestamp e1.

(** ** The query text *)

Lemma add_in_tail i vs text args :
  (0 < i)%nat →
  add_in i vs (text, args) =
    ((text +:+ foldr (λ _ s, ", ?" +:+ s) "" vs)%string, args ++ (VText <$> vs)).
Proof.
  revert i text args. induction vs as [|v vs IH]; intros i text args Hi; simpl.
  - by rewrite string_app_nil, app_nil_r.
  - rewrite (proj2 (Nat.ltb_lt _ _) Hi). rewrite IH by lia. rewrite !string_app_assoc. simpl.
    by rewrite <- app_assoc.
Qed.

Lemma in_list_fold (vs : list string) :
  in_list (S (length vs)) = ("?" +:+ foldr (λ _ s, ", ?" +:+ s) "" vs)%string.
Proof.
  induction vs as [|v vs IH]; [done|]. change (in_list (S (length (v :: vs)))) with
    ("?, " +:+ in_list (S (length vs)))%string. by rewrite IH.
Qed.

Lemma add_in_list vs text args :
  add_in 0 vs (text, args) = ((text +:+ in_list (length vs))%string, args ++ (VText <$> vs)).
Proof.
  destruct vs as [|v vs]; [by simpl; rewrite string_app_nil, app_nil_r|].
  cbn [add_in length]. simpl (0 <? 0)%nat. cbn iota. rewrite add_in_tail by lia.
  rewrite in_list_fold, string_app_assoc. simpl. by rewrite <- app_assoc.
Qed.

(** The conditions of a filter with their arguments. *)
Definition opt_condition {A} (c : condition) (f : A → sql_value) (o : option A)
    : list (condition * list sql_value) :=
  match o with Some a => [(c, [f a])] | None => [] end.
Definition set_condition (c : nat → condition) (vs : list string)
    : list (condition * list sql_value) :=
  match vs with [] => [] | _ => [(c (length vs), VText <$> vs)] end.
Definition filter_conditions (f : EventFilter) : list (condition * list sql_value) :=
  opt_condition CStart VInt (ef_StartTime f) ++ opt_condition CEnd VInt (ef_EndTime f) ++
  set_condition CTopics (ef_Topics f) ++ set_condition CPrincipals (ef_Principals f) ++
  opt_condition CCorrelation VText (ef_CorrelationID f).

Lemma filter_conditions_args f :
  Forall (λ '(c, args), length args = placeholders c) (filter_conditions f).
Proof.
  unfold filter_conditions, opt_condition, set_condition.
  repeat apply Forall_app_2; case_match; repeat constructor; simpl; by rewrite ?length_fmap.
Qed.

(** [q] is the query with the conditions [cs]. *)
Definition has_conditions (tbl : string) (cs : list (condition * list sql_value))
    (q : string * list sql_value) : Prop :=
  q = (select_text tbl +:+ conditions_text cs.*1, concat cs.*2).

Lemma conditions_text_app cs1 cs2 :
  conditions_text (cs1 ++ cs2) = conditions_text cs1 +:+ conditions_text cs2.
Proof. induction cs1 as [|c cs1 IH]; [done|]. simpl. by rewrite IH, string_app_assoc. Qed.

Lemma has_conditions_snoc tbl cs c args q :
  has_conditions tbl cs q →
  has_conditions tbl (cs ++ [(c, args)]) (q.1 +:+ condition_text c, q.2 ++ args).
Proof.
  intros ->. unfold has_conditions. rewrite !fmap_app, conditions_text_app, concat_app. simpl.
  by rewrite string_app_nil, app_nil_r, string_app_assoc.
Qed.

Lemma has_conditions_opt {A} tbl cs c (f : A → sql_value) o q :
  has_conditions tbl cs q →
  has_conditions tbl (cs ++ opt_condition c f o) (add_opt (condition_text c) f o q).
Proof. destruct o; [apply has_conditions_snoc|by rewrite app_nil_r]. Qed.

Lemma has_conditions_set tbl cs c vs q (pre : string) :
  has_conditions tbl cs q →
  condition_text (c (length vs)) = pre +:+ (in_list (length vs) +:+ ")") →
  has_conditions tbl (cs ++ set_condition c vs) (add_set pre vs q).
Proof.
  intros Hq Hc. destruct (decide (vs = [])) as [->|Hne]; [by rewrite app_nil_r|].
  assert (set_condition c vs = [(c (length vs), VText <$> vs)]) as -> by by destruct vs.
  assert ((0 <? length vs)%nat = true) as Hl by by destruct vs. unfold add_set.
  rewrite Hl, add_in_list. cbn [fst snd]. rewrite !string_app_assoc, <- Hc.
  by apply has_conditions_snoc.
Qed.

Definition all_conditions (tbl : string) (f : EventFilter) : string :=
  select_text tbl +:+ conditions_text (filter_conditions f).*1.

(** The text and the arguments that the driver builds. *)
Lemma build_query_spec tbl f :
  build_query tbl f =
    let args := concat (filter_conditions f).*2 in
    let text := all_conditions tbl f +:+ order_text in
    if (0 <? ef_Offset f) && negb (0 <? ef_Limit f)
    then (text +:+ " OFFSET ?", args ++ [VInt (ef_Offset f)])
    else (text +:+ page_text (filter_page f), args ++ page_args (filter_page f)).
Proof.
  unfold build_query. set (q := add_opt _ VText _ _).
  assert (has_conditions tbl (filter_conditions f) q) as Hq.
  { unfold filter_conditions. rewrite !app_assoc. subst q.
    apply (has_conditions_opt _ _ CCorrelation).
    apply (has_conditions_set _ _ CPrincipals); [|done].
    apply (has_conditions_set _ _ CTopics); [|done].
    apply (has_conditions_opt _ _ CEnd), (has_conditions_opt _ [] CStart).
    unfold has_conditions. by rewrite string_app_nil. }
  clearbody q. unfold has_conditions in Hq. subst q. simpl. fold order_text. fold (all_conditions tbl f).
  unfold filter_page. destruct (0 <? ef_Limit f), (0 <? ef_Offset f); unfold add; simpl;
    by rewrite ?app_nil_r, ?string_app_nil, <- ?app_assoc, ?string_app_assoc.
Qed.

(** ** Rows and events *)

Section Spec.
Context (table : string) {D : Type} `{!SqlDB table D} `{!JsonHeaders}.

(** The driver runs on its table, which holds what was written of these events. *)
Definition written (r : row) (e : MailboxEvent) : Prop :=
  ascii_headers (ev_CustomHeaders e) ∧ ∃ now, r = event_row now e.

Record holds (d : @Driver D) (db : D) (es : list MailboxEvent) : Prop := {
  ho_started : dr_started d = true;
  ho_db : dr_db d = Some db;
  ho_table : dr_table d = table;
  ho_rows : Forall2 written (db_rows db) es }.

Lemma scan_written r e : written r e → scan_event (project r) = Ok e.
Proof.
  intros (Ha & now & ->). destruct (json_roundtrip _ Ha) as [Hne Hu].
  unfold scan_event. simpl. rewrite bool_decide_eq_false_2 by done. rewrite Hu. by destruct e.
Qed.

Lemma scan_all_written rs es :
  Forall2 written rs es → scan_events (project <$> rs) = Ok es.
Proof.
  induction 1 as [|r e rs es Hw _ IH]; [done|]. cbn [fmap list_fmap scan_events].
  by rewrite (scan_written _ _ Hw), IH.
Qed.

Lemma existsb_texts (s : string) vs :
  existsb (sql_eq (VText s)) (VText <$> vs) = bool_decide (s ∈ vs).
Proof.
  apply eq_true_iff_eq. rewrite existsb_exists, bool_decide_eq_true. split.
  - intros (v & Hin & Hv). apply list_elem_of_In, list_elem_of_fmap in Hin as (s' & -> & Hs').
    simpl in Hv. apply bool_decide_eq_true in Hv. by simplify_eq.
  - intros Hs. exists (VText s). split; [by apply list_elem_of_In, list_elem_of_fmap_2|].
    simpl. by apply bool_decide_eq_true.
Qed.

Lemma conditions_hold_app cs1 cs2 r :
  conditions_hold (cs1 ++ cs2) r = conditions_hold cs1 r && conditions_hold cs2 r.
Proof. unfold conditions_hold. by rewrite forallb_app. Qed.

Lemma set_condition_holds c vs r s :
  (∀ n args, condition_holds (c n) args r = existsb (sql_eq (VText s)) args) →
  conditions_hold (set_condition c vs) r = (bool_decide (vs = []) || bool_decide (s ∈ vs)).
Proof.
  intros Hc. destruct vs as [|v vs]; [done|]. unfold conditions_hold, set_condition.
  cbn [forallb]. by rewrite Hc, existsb_texts, andb_true_r.
Qed.

Lemma opt_condition_holds {A} c (f : A → sql_value) o r :
  conditions_hold (opt_condition c f o) r =
    match o with Some a => condition_holds c [f a] r | None => true end.
Proof. destruct o; [|done]. unfold conditions_hold. simpl. by rewrite andb_true_r. Qed.

(** The conditions select the events that match the filter. *)
Lemma conditions_match f r e :
  written r e → conditions_hold (filter_conditions f) r = matches f e.
Proof.
  intros (_ & now & ->). unfold filter_conditions, matches. rewrite !conditions_hold_app.
  rewrite (set_condition_holds CTopics _ _ (ev_Topic e)) by done.
  rewrite (set_condition_holds CPrincipals _ _ (ev_Principal e)) by done.
  rewrite !opt_condition_holds, !andb_assoc. f_equal.
  destruct (ef_CorrelationID f) as [c|]; [|done]. simpl.
  change (column _ _) with (VText (ev_CorrelationID e)). apply bool_decide_ext. split; congruence.
Qed.

(** ** Lists *)

Lemma Forall2_filter_l {A B} (R : A → B → Prop) (P : A → Prop) (Q : B → Prop)
    `{!∀ x, Decision (P x), !∀ y, Decision (Q y)} l k :
  (∀ x y, R x y → (P x ↔ Q y)) → Forall2 R l k → Forall2 R (filter P l) (filter Q k).
Proof.
  intros HPQ. induction 1 as [|x y l k Hxy _ IH]; [constructor|].
  destruct (decide (P x)) as [HP|HP].
  - rewrite !filter_cons_True by (done || by apply (HPQ _ _ Hxy)). by constructor.
  - rewrite !filter_cons_False by (done || by rewrite <- (HPQ _ _ Hxy)). done.
Qed.

Lemma Forall2_perm_l {A B} (R : A → B → Prop) l k l' :
  Forall2 R l k → l' ≡ₚ l → ∃ k', k' ≡ₚ k ∧ Forall2 R l' k'.
Proof.
  intros HR Hp. symmetry in Hp. destruct (Permutation_Forall2 Hp HR) as (k' & Hk & HR').
  by exists k'.
Qed.

Lemma Forall2_page {A B} (R : A → B → Prop) p l k :
  Forall2 R l k → Forall2 R (page_rows p l) (page_rows p k).
Proof. intros HR. destruct p; simpl; eauto using Forall2_take, Forall2_drop. Qed.

Lemma sorted_newer rs es : Forall2 written rs es → StronglySorted later rs → StronglySorted newer es.
Proof.
  induction 1 as [|r e rs es Hw Hall IH]; intros Hs; [constructor|].
  apply StronglySorted_inv in Hs as [Hs Hr]. constructor; [by apply IH|].
  apply Forall_forall. intros e' [i Hi]%list_elem_of_lookup.
  destruct (Forall2_lookup_r _ _ _ _ _ Hall Hi) as (r' & Hin%list_elem_of_lookup_2 & Hw').
  rewrite Forall_forall in Hr. specialize (Hr _ Hin).
  destruct Hw as (_ & now & ->), Hw' as (_ & now' & ->). unfold later in Hr. simpl in Hr.
  unfold newer. lia.
Qed.

(** ** Operations *)

Lemma QueryEvents_page f d db es :
  holds d db es → db_up db = true → (0 < ef_Offset f → 0 < ef_Limit f) →
  ∃ matching, matching ≡ₚ filter (λ e, matches f e = true) es ∧ StronglySorted newer matching ∧
    QueryEvents table f d = Ok (page_rows (filter_page f) matching).
Proof.
  intros [Hs Hd Ht Hr] Hup Hpage.
  destruct (db_select (filter_conditions f) (filter_page f) db Hup (filter_conditions_args f))
    as (sorted & Hp & Hss & Hq).
  assert (Forall2 written (filter (λ r, conditions_hold (filter_conditions f) r = true) (db_rows db))
            (filter (λ e, matches f e = true) es)) as HF.
  { eapply Forall2_filter_l; [|done]. intros r e Hw. by rewrite (conditions_match f r e Hw). }
  destruct (Forall2_perm_l _ _ _ _ HF Hp) as (k & Hk & Hw).
  exists k. split_and!; [done|by eapply sorted_newer|].
  unfold QueryEvents, with_db. rewrite Hs, Hd, Ht. simpl. rewrite build_query_spec.
  destruct ((0 <? ef_Offset f) && negb (0 <? ef_Limit f)) eqn:E; [bool_to_prop; lia|]. cbv zeta iota beta.
  unfold all_conditions. rewrite !string_app_assoc, Hq. by apply scan_all_written, Forall2_page.
Qed.

(** An offset without a limit is not SQL that SQLite accepts: the driver builds
    [ORDER BY ... OFFSET ?] and every such query fails. *)
Lemma offset_without_limit_fails f d db :
  dr_started d = true → dr_db d = Some db → dr_table d = table →
  0 < ef_Offset f → ef_Limit f ≤ 0 → QueryEvents table f d = Err ErrQuery.
Proof.
  intros Hs Hd Ht Ho Hl. unfold QueryEvents, with_db. rewrite Hs, Hd, Ht. simpl.
  rewrite build_query_spec, (proj2 (Z.ltb_lt _ _) Ho), (proj2 (Z.ltb_ge _ _) Hl).
  cbn [andb negb]. cbv zeta iota beta. unfold all_conditions.
  by rewrite !string_app_assoc, db_offset_needs_limit.
Qed.

(** C35. A query on a database that is up: with an offset and no limit it is an error,
    since the SQL text then has an OFFSET without a LIMIT, which SQLite rejects.  With any
    other filter it returns exactly the events that match the filter, newest first, cut to
    the page of limit and offset; so the SQL text with its placeholders and the argument
    list agree for all these combinations of filter fields. *)
Theorem QueryEvents_correct f d db es :
  holds d db es → db_up db = true →
  if (0 <? ef_Offset f) && (ef_Limit f <=? 0) then QueryEvents table f d = Err ErrQuery
  else ∃ matching, matching ≡ₚ filter (λ e, matches f e = true) es ∧ StronglySorted newer matching ∧
         QueryEvents table f d = Ok (page_rows (filter_page f) matching).
Proof.
  intros Hh Hup. destruct ((0 <? ef_Offset f) && (ef_Limit f <=? 0)) eqn:E; bool_to_prop.
  - destruct Hh. by eapply offset_without_limit_fails.
  - apply (QueryEvents_page f d db es Hh Hup). lia.
Qed.

Lemma WriteEvent_holds now e d db es d' r :
  holds d db es → ascii_headers (ev_CustomHeaders e) → WriteEvent table now e d = (d', r) →
  (∃ db', holds d' db' (es ++ [e]) ∧ (r = Ok () ∨ r = Err ErrInsert)) ∨
  (∃ db', holds d' db' es ∧ r = Err ErrInsert).
Proof.
  intros [Hs Hd Ht Hr] Ha. unfold WriteEvent, with_db. rewrite Hs, Hd, Ht. simpl.
  destruct (db_Exec _ _ db) as [db' res] eqn:He. intros [= <- <-].
  destruct (db_insert _ _ _ _ He) as [[Hrows Hres]|[Hrows ->]].
  - left. exists db'. split; [|by destruct Hres as [-> | ->]; auto]. split; simpl; try done.
    rewrite Hrows. apply Forall2_app; [done|]. constructor; [|done]. by split; [|eexists].
  - right. exists db'. split; [|done]. split; simpl; try done. by rewrite Hrows.
Qed.

Lemma DeleteOldEvents_holds t d db es d' r :
  holds d db es → DeleteOldEvents table t d = (d', r) →
  (∃ db' n, holds d' db' (filter (λ e, t ≤ ev_Timestamp e) es) ∧
     (r = Ok n ∧ n = Z.of_nat (length (filter (λ e, ev_Timestamp e < t) es)) ∨ r = Err ErrDelete)) ∨
  (∃ db', holds d' db' es ∧ r = Err ErrDelete).
Proof.
  intros [Hs Hd Ht Hr]. unfold DeleteOldEvents, with_db. rewrite Hs, Hd, Ht. simpl.
  destruct (db_Exec _ _ db) as [db' res] eqn:He. intros [= <- <-].
  destruct (db_delete _ _ _ _ He) as [[Hrows Hres]|[Hrows ->]].
  - left. exists db', (Z.of_nat (length (filter (λ e, ev_Timestamp e < t) es))).
    assert (Forall2 written (db_rows db') (filter (λ e, t ≤ ev_Timestamp e) es)) as Hw.
    { rewrite Hrows. eapply Forall2_filter_l; [|done]. intros r e (_ & now & ->). simpl. lia. }
    split; [by split|]. destruct Hres as [-> | ->]; [left|by right]. split; [|done]. do 2 f_equal.
    rewrite (Forall2_length _ _ _ Hr), (Forall2_length _ _ _ Hw).
    clear. induction es as [|e es IH]; [done|]. rewrite !filter_cons.
    destruct (decide (t ≤ ev_Timestamp e)), (decide (ev_Timestamp e < t)); simpl; try lia.
    pose proof (length_filter (λ e, t ≤ ev_Timestamp e) es). lia.
  - right. exists db'. split; [|done]. split; simpl; try done. by rewrite Hrows.
Qed.

Lemma holds_ids d db es : holds d db es → NoDup (ev_MessageID <$> es).
Proof.
  intros [_ _ _ Hr]. pose proof (db_ids_unique db) as Hn.
  assert (column col_message_id <$> db_rows db = VText <$> (ev_MessageID <$> es)) as E.
  { clear -Hr. induction Hr as [|r e rs es (_ & now & ->) _ IH]; [done|].
    cbn [fmap list_fmap] in *. by rewrite IH. }
  rewrite E in Hn. by apply NoDup_fmap_1 in Hn.
Qed.

(** The event of an id, when the ids are distinct. *)
Lemma filter_by_id e es :
  NoDup (ev_MessageID <$> es) → e ∈ es → filter (λ e', ev_MessageID e' = ev_MessageID e) es = [e].
Proof.
  induction es as [|e' es IH]; [by intros _ ?%elem_of_nil|]. cbn [fmap list_fmap].
  intros [Hn Hnd]%NoDup_cons. rewrite elem_of_cons. intros [->|Hin].
  - rewrite filter_cons_True by done. f_equal. apply filter_none, Forall_forall.
    intros x Hx Ex. apply Hn. rewrite <- Ex. by apply list_elem_of_fmap_2.
  - rewrite filter_cons_False; [by apply IH|]. intros Ex. apply Hn. rewrite Ex.
    by apply list_elem_of_fmap_2.
Qed.

Lemma GetEvent_holds d db es id :
  holds d db es → db_up db = true →
  GetEvent table id d =
    match filter (λ e, ev_MessageID e = id) es with [] => Err (ErrEventNotFound id) | e :: _ => Ok e end.
Proof.
  intros [Hs Hd Ht Hr] Hup. unfold GetEvent, with_db. rewrite Hs, Hd, Ht. simpl.
  rewrite (db_get id db Hup).
  assert (Forall2 written (filter (λ r, column col_message_id r = VText id) (db_rows db))
            (filter (λ e, ev_MessageID e = id) es)) as HF.
  { eapply Forall2_filter_l; [|done]. intros r e (_ & now & ->).
    change (column _ _) with (VText (ev_MessageID e)). split; congruence. }
  destruct HF as [|r e rs es' Hw _]; [done|]. cbn [fmap list_fmap]. by apply scan_written.
Qed.

(** What was written is read back: after a successful write of an event its id is
    answered with the event, headers and body included, every event that was in the
    table before is still answered, and an id that was there before is refused. *)
Theorem write_then_get now e d db es d' :
  holds d db es → ascii_headers (ev_CustomHeaders e) → WriteEvent table now e d = (d', Ok ()) →
  (∀ e', e' ∈ es → ev_MessageID e' ≠ ev_MessageID e) ∧
  ∃ db', holds d' db' (es ++ [e]) ∧
    (db_up db' = true → ∀ e', e' ∈ es ++ [e] → GetEvent table (ev_MessageID e') d' = Ok e').
Proof.
  intros Hh Ha Hw. destruct (WriteEvent_holds _ _ _ _ _ _ _ Hh Ha Hw) as [(db' & Hh' & _)|(_ & _ & [=])].
  pose proof (holds_ids _ _ _ Hh') as Hids. split.
  - intros e' Hin E. rewrite fmap_app in Hids. apply NoDup_app in Hids as (_ & Hids & _).
    apply (Hids (ev_MessageID e')); [by apply list_elem_of_fmap_2|]. rewrite E. by apply list_elem_of_singleton.
  - exists db'. split; [done|]. intros Hup e' Hin.
    by rewrite (GetEvent_holds _ _ _ _ Hh' Hup), filter_by_id.
Qed.

Lemma written_columns (rs : list row) es :
  Forall2 written rs es →
  (λ r, int_of (column col_timestamp r)) <$> rs = ev_Timestamp <$> es ∧
  (λ r, blob_length (column col_body r)) <$> rs = (λ e, Z.of_nat (length (ev_Body e))) <$> es.
Proof.
  induction 1 as [|r e rs es (_ & now & ->) _ [IH1 IH2]]; [done|]. cbn [fmap list_fmap].
  by rewrite IH1, IH2.
Qed.

(** The statistics of a table that holds events are their number, their size and
    the first and last timestamp; on an empty table the call fails, because the
    aggregates of no rows are NULL and do not scan into an integer. *)
Theorem GetTableStats_correct d db es :
  holds d db es → db_up db = true →
  GetTableStats table d =
    match es with
    | [] => Err ErrCount
    | e :: es' =>
        Ok (mkTableStats (Z.of_nat (length es))
              (foldl Z.add (Z.of_nat (length (ev_Body e))) ((λ e, Z.of_nat (length (ev_Body e))) <$> es'))
              (foldl Z.min (ev_Timestamp e) (ev_Timestamp <$> es'))
              (foldl Z.max (ev_Timestamp e) (ev_Timestamp <$> es')))
    end.
Proof.
  intros [Hs Hd Ht Hr] Hup. unfold GetTableStats, with_db, query_row. rewrite Hs, Hd, Ht. cbn [negb].
  rewrite (db_count db Hup), (db_size db Hup). destruct (written_columns _ _ Hr) as [-> ->].
  rewrite (Forall2_length _ _ _ Hr). by destruct es.
Qed.

(** Retention in days that does not overflow. *)
Definition retention_ok (days : Z) : Prop := 0 ≤ days ≤ 106751.
Definition Day : Z := 24 * (60 * Minute).

Lemma cutoff_days now days : retention_ok days → cutoff now days = UnixMilli (now - days * Day).
Proof.
  unfold retention_ok, cutoff, Day, Minute, Second. intros Hd.
  rewrite (wrap64_id (- days)) by (unfold in_int64, min_int64, max_int64; lia).
  rewrite (wrap64_id (- days * 24)) by (unfold in_int64, min_int64, max_int64; lia).
  rewrite wrap64_id by (unfold in_int64, min_int64, max_int64; lia). f_equal. lia.
Qed.

Lemma DeleteOldEvents_up t d db es :
  holds d db es → db_up db = true →
  ∃ db', holds (DeleteOldEvents table t d).1 db' (filter (λ e, t ≤ ev_Timestamp e) es).
Proof.
  intros Hh Hup. destruct (DeleteOldEvents table t d) as [d' r] eqn:E. cbn [fst].
  destruct (DeleteOldEvents_holds _ _ _ _ _ _ Hh E) as [(db' & n & Hh' & _)|(db' & Hh' & ->)]; [eauto|].
  exfalso. revert E. unfold DeleteOldEvents, with_db. rewrite (ho_started _ _ _ Hh), (ho_db _ _ _ Hh).
  rewrite (ho_table _ _ _ Hh). cbn [negb]. destruct (db_delete_ok t db Hup) as [n Hn].
  destruct (db_Exec _ _ db) as [db1 r]. simpl in Hn. subst r. by intros [=].
Qed.

(** A tick of the cleanup removes exactly the events whose timestamp, in
    milliseconds, is more than the retention ago. *)
Theorem retention_correct now days d db es :
  holds d db es → db_up db = true → retention_ok days →
  ∃ db', holds (retention_tick table now days d) db'
           (filter (λ e, UnixMilli (now - days * Day) ≤ ev_Timestamp e) es).
Proof.
  intros Hh Hup Hd. unfold retention_tick. rewrite cutoff_days by done.
  by apply (DeleteOldEvents_up _ d db).
Qed.
End Spec.
