(* ===== verification/SqliteDemo.v ===== *)
(** * A database that keeps the laws

    A table of rows that reads the driver's statements, which shows that the laws of
    [SqlDB] and [JsonHeaders] can hold, and runs of the driver on it. *)

From Stdlib Require Import Ascii.
From S2P Require Import Prelude Backoff Memstore Slots Sqlite SqliteSpec.
Local Open Scope Z_scope.

(** ** Headers *)

Fixpoint bits (p : positive) : string :=
  match p with
  | xH => "1"
  | xO p => String "0"%char (bits p)
  | xI p => String "i"%char (bits p)
  end.
Fixpoint unbits (s : string) : option positive :=
  match s with
  | String "1"%char EmptyString => Some xH
  | String "0"%char s => xO <$> unbits s
  | String "i"%char s => xI <$> unbits s
  | _ => None
  end.
Lemma unbits_bits p : unbits (bits p) = Some p.
Proof. induction p as [p IH|p IH|]; simpl; by rewrite ?IH. Qed.

#[export, refine] Instance demo_json : JsonHeaders := {|
  json_Marshal m := bits (encode m);
  json_Unmarshal s := unbits s ≫= decode |}.
Proof.
  intros m _. split; [by destruct (encode m)|]. by rewrite unbits_bits; simpl; rewrite decode_encode.
Defined.

(** ** Reading a query *)

Fixpoint strip (p s : string) : option string :=
  match p, s with
  | EmptyString, _ => Some s
  | String a p, String b s => if bool_decide (a = b) then strip p s else None
  | _, _ => None
  end.

Lemma strip_app p s : strip p (p +:+ s) = Some s.
Proof.
  induction p as [|a p IH]; [by destruct s|]. rewrite string_app_cons. simpl.
  by rewrite bool_decide_eq_true_2.
Qed.

(** A list of placeholders after its first element, up to the parenthesis. *)
Fixpoint read_in (fuel : nat) (s : string) : option (nat * string) :=
  match fuel with
  | O => None
  | S fuel =>
      match strip ")" s with
      | Some s => Some (0%nat, s)
      | None =>
          match strip ", ?" s with
          | Some s => '(n, s) ← read_in fuel s; Some (S n, s)
          | None => None
          end
      end
  end.

(** The placeholders after the opening parenthesis. *)
Definition read_list (s : string) : option (nat * string) :=
  match strip ")" s with
  | Some s => Some (0%nat, s)
  | None => s ← strip "?" s; '(n, s) ← read_in (String.length s) s; Some (S n, s)
  end.

Definition read_condition (s : string) : option (condition * string) :=
  match strip " AND timestamp >= ?" s with
  | Some s => Some (CStart, s)
  | None =>
  match strip " AND timestamp <= ?" s with
  | Some s => Some (CEnd, s)
  | None =>
  match strip " AND correlation_id = ?" s with
  | Some s => Some (CCorrelation, s)
  | None =>
  match strip " AND topic IN (" s with
  | Some s => '(n, s) ← read_list s; Some (CTopics n, s)
  | None =>
  match strip " AND principal IN (" s with
  | Some s => '(n, s) ← read_list s; Some (CPrincipals n, s)
  | None => None
  end end end end end.

Fixpoint read_conditions (fuel : nat) (s : string) : list condition * string :=
  match fuel with
  | O => ([], s)
  | S fuel =>
      match read_condition s with
      | Some (c, s) => let '(cs, s) := read_conditions fuel s in (c :: cs, s)
      | None => ([], s)
      end
  end.

Lemma read_in_list n s fuel :
  (n < fuel)%nat →
  read_in fuel (foldr (λ _ s, ", ?" +:+ s) "" (replicate n ""%string) +:+ (")" +:+ s)) = Some (n, s).
Proof.
  revert fuel. induction n as [|n IH]; intros fuel Hf; (destruct fuel as [|fuel]; [lia|]).
  - by destruct s.
  - cbn [replicate foldr]. rewrite string_app_assoc. cbn [read_in]. rewrite strip_app.
    change (strip ")" (", ?" +:+ _)) with (@None string). cbn [mbind option_bind].
    by rewrite IH by lia.
Qed.

Lemma tail_length n (s : string) :
  (n < String.length (foldr (λ _ s, ", ?" +:+ s) "" (replicate n ""%string) +:+ (")" +:+ s)))%nat.
Proof.
  induction n as [|n IH]; [simpl; lia|]. cbn [replicate foldr]. rewrite string_app_assoc.
  set (t := foldr _ _ _ +:+ _) in *. change (String.length (", ?" +:+ t)) with (3 + String.length t)%nat.
  lia.
Qed.

Lemma read_list_spec n s : read_list (in_list n +:+ (")" +:+ s)) = Some (n, s).
Proof.
  destruct n as [|n]; [by destruct s|]. unfold read_list.
  pose proof (in_list_fold (replicate n ""%string)) as E. rewrite length_replicate in E. rewrite E.
  rewrite string_app_assoc, strip_app.
  change (strip ")" ("?" +:+ _)) with (@None string). cbn [mbind option_bind].
  by rewrite read_in_list by apply tail_length.
Qed.

Lemma read_condition_spec c s : read_condition (condition_text c +:+ s) = Some (c, s).
Proof.
  destruct c; unfold condition_text, read_condition; rewrite ?string_app_assoc;
    rewrite ?strip_app; try done.
  - change (strip _ (" AND topic IN (" +:+ _)) with (@None string) at 1 2 3. cbn iota.
    cbn [mbind option_bind]. by rewrite read_list_spec.
  - change (strip _ (" AND principal IN (" +:+ _)) with (@None string) at 1 2 3 4. cbn iota.
    cbn [mbind option_bind]. by rewrite read_list_spec.
Qed.

(** What the grammar allows after the conditions. *)
Definition read_page (s : string) : option (list sql_value → option page) :=
  s ← strip order_text s;
  if bool_decide (s = page_text PAll) then
    Some (λ args, if args is [] then Some PAll else None)
  else if bool_decide (s = page_text (PLimit 0)) then
    Some (λ args, if args is [VInt l] then Some (PLimit l) else None)
  else if bool_decide (s = page_text (PLimitOffset 0 0)) then
    Some (λ args, if args is [VInt l; VInt o] then Some (PLimitOffset l o) else None)
  else None.

(** The arguments, dealt out to the conditions. *)
Fixpoint deal (cs : list condition) (args : list sql_value)
    : list (condition * list sql_value) * list sql_value :=
  match cs with
  | [] => ([], args)
  | c :: cs =>
      let '(rest, unused) := deal cs (drop (placeholders c) args) in
      ((c, take (placeholders c) args) :: rest, unused)
  end.

Definition tbl : string := "mailbox".

Definition read_query (q : string) (args : list sql_value)
    : option (list (condition * list sql_value) * page) :=
  s ← strip (select_text tbl) q;
  let '(cs, s) := read_conditions (S (String.length s)) s in
  paging ← read_page s;
  let '(cs, args) := deal cs args in
  p ← paging args;
  Some (cs, p).

Lemma condition_text_length c : (0 < String.length (condition_text c))%nat.
Proof. destruct c; simpl; lia. Qed.

Lemma string_length_app a b : String.length (a +:+ b) = (String.length a + String.length b)%nat.
Proof. induction a as [|x a IH]; [done|]. rewrite string_app_cons. simpl. by rewrite IH. Qed.

Lemma read_conditions_spec cs s fuel :
  read_condition s = None → (length cs < fuel)%nat →
  read_conditions fuel (conditions_text cs +:+ s) = (cs, s).
Proof.
  intros Hs. revert fuel. induction cs as [|c cs IH]; intros fuel Hf; (destruct fuel as [|fuel]; [lia|]).
  - cbn [conditions_text foldr read_conditions]. rewrite string_nil_app. by rewrite Hs.
  - cbn [conditions_text foldr read_conditions]. rewrite string_app_assoc, read_condition_spec.
    fold (conditions_text cs). rewrite IH by (simpl in Hf; lia). done.
Qed.

Lemma conditions_text_length cs s :
  (length cs ≤ String.length (conditions_text cs +:+ s))%nat.
Proof.
  induction cs as [|c cs IH]; [simpl; lia|]. cbn [conditions_text foldr length].
  rewrite string_app_assoc, string_length_app. fold (conditions_text cs).
  pose proof (condition_text_length c). lia.
Qed.

Lemma deal_spec cs unused :
  Forall (λ '(c, args), length args = placeholders c) cs →
  deal cs.*1 (concat cs.*2 ++ unused) = (cs, unused).
Proof.
  induction 1 as [|[c args] cs Hc _ IH]; [done|]. cbn [fmap list_fmap concat deal fst snd].
  rewrite <- app_assoc, <- Hc, drop_app_length, take_app_length.
  replace (snd <$> cs) with (cs.*2) in IH by done. by rewrite IH.
Qed.

Lemma read_query_spec cs p :
  Forall (λ '(c, args), length args = placeholders c) cs →
  read_query (select_text tbl +:+ conditions_text cs.*1 +:+ order_text +:+ page_text p)
    (concat cs.*2 ++ page_args p) = Some (cs, p).
Proof.
  intros Hc. unfold read_query. rewrite strip_app. cbn [mbind option_bind].
  rewrite read_conditions_spec; [|by destruct p|].
  - assert (∃ f, read_page (order_text +:+ page_text p) = Some f ∧ f (page_args p) = Some p)
      as (f & -> & Hf) by (by destruct p; eexists).
    cbn [mbind option_bind]. rewrite deal_spec by done. by rewrite Hf.
  - apply Nat.lt_succ_r. apply conditions_text_length.
Qed.

Lemma read_query_offset cs args :
  read_query (select_text tbl +:+ conditions_text cs +:+ order_text +:+ " OFFSET ?") args = None.
Proof.
  unfold read_query. rewrite strip_app. cbn [mbind option_bind].
  rewrite read_conditions_spec; [done|done|]. apply Nat.lt_succ_r. apply conditions_text_length.
Qed.

(** ** The table *)

Definition row_okb (r : row) : bool :=
  bool_decide (length r = 12%nat) &&
  match column col_message_id r, column col_timestamp r, column col_body r with
  | VText _, VInt _, VBlob _ => true
  | _, _, _ => false
  end.
Lemma row_okb_ok r : row_okb r = true ↔ row_ok r.
Proof.
  unfold row_okb, row_ok. rewrite andb_true_iff, bool_decide_eq_true. split.
  - intros [Hl Hc]. split; [done|]. repeat case_match; try done. split_and!; by eexists.
  - intros (Hl & [? ->] & [? ->] & [? ->]). done.
Qed.

Definition table_ok (rs : list row) : Prop :=
  forallb row_okb rs = true ∧ NoDup (column col_message_id <$> rs).
#[export] Instance table_ok_dec rs : Decision (table_ok rs) := _.
Definition Table : Type := { rs : list row | bool_decide (table_ok rs) = true }.

(** The table with these rows, when they are admitted. *)
Definition put (rs : list row) (d : Table) : Table * bool :=
  match decide (bool_decide (table_ok rs) = true) with
  | left Hok => (exist _ rs Hok, true)
  | right _ => (d, false)
  end.

Lemma put_ok rs d : table_ok rs → ∃ d', put rs d = (d', true) ∧ proj1_sig d' = rs.
Proof.
  intros Hok. unfold put. destruct (decide _) as [H|H]; [by eexists|].
  exfalso. by apply H, bool_decide_eq_true.
Qed.
Lemma put_cases rs d d' b :
  put rs d = (d', b) → b = true ∧ proj1_sig d' = rs ∨ b = false ∧ d' = d.
Proof. unfold put. destruct (decide _); intros [= <- <-]; auto. Qed.

Lemma table_ok_filter (P : row → Prop) `{!∀ r, Decision (P r)} rs :
  table_ok rs → table_ok (filter P rs).
Proof.
  intros [Hf Hn]. split.
  - rewrite forallb_forall in *. intros r Hr%list_elem_of_In. apply Hf, list_elem_of_In.
    by apply list_elem_of_filter in Hr as [_ ?].
  - eapply sublist_NoDup; [exact Hn|]. apply fmap_sublist, sublist_filter.
Qed.

Definition newer_row (r1 r2 : row) : Prop :=
  int_of (column col_timestamp r2) ≤ int_of (column col_timestamp r1).
#[export] Instance newer_row_dec r1 r2 : Decision (newer_row r1 r2) := decide (_ ≤ _).
#[export] Instance newer_row_total : Total newer_row.
Proof. intros r1 r2. unfold newer_row. lia. Qed.
#[export] Instance newer_row_trans : Transitive newer_row.
Proof. intros r1 r2 r3. unfold newer_row. lia. Qed.

Lemma StronglySorted_mono (R S : row → row → Prop) (P : row → Prop) rs :
  (∀ r1 r2, P r1 → P r2 → R r1 r2 → S r1 r2) → Forall P rs →
  StronglySorted R rs → StronglySorted S rs.
Proof.
  intros HRS HP. induction 1 as [|r rs Hs IH Hall]; [constructor|].
  apply Forall_cons in HP as [Hr HP]. constructor; [by apply IH|].
  rewrite Forall_forall in *. eauto.
Qed.

Lemma sorted_later rs : Forall row_ok rs → StronglySorted later (merge_sort newer_row rs).
Proof.
  intros Hok. apply (StronglySorted_mono newer_row later row_ok).
  - intros r1 r2 (_ & _ & [t1 E1] & _) (_ & _ & [t2 E2] & _). unfold newer_row, later.
    rewrite E1, E2. simpl. lia.
  - by rewrite merge_sort_Permutation.
  - apply (StronglySorted_merge_sort newer_row).
Qed.

Definition demo_Exec (q : string) (args : list sql_value) (d : Table) : Table * option Z :=
  let rs := proj1_sig d in
  if bool_decide (q = insert_text tbl) then
    let '(d', ok) := put (rs ++ [args]) d in (d', if ok then Some 1 else None)
  else if bool_decide (q = delete_text tbl) then
    match args with
    | [VInt t] =>
        let '(d', _) := put (filter (λ r, sql_le (VInt t) (column col_timestamp r) = true) rs) d in
        (d', Some (Z.of_nat (length rs - length (proj1_sig d'))))
    | _ => (d, None)
    end
  else (d, None).

Definition demo_Query (q : string) (args : list sql_value) (d : Table) : option (list row) :=
  let rs := proj1_sig d in
  match read_query q args with
  | Some (cs, p) =>
      Some (project <$> page_rows p (merge_sort newer_row (filter (λ r, conditions_hold cs r = true) rs)))
  | None =>
      if bool_decide (q = get_text tbl) then
        if args is [VText id] then
          Some (project <$> filter (λ r, column col_message_id r = VText id) rs)
        else None
      else if bool_decide (q = count_text tbl) then
        let ts := (λ r, int_of (column col_timestamp r)) <$> rs in
        Some [[VInt (Z.of_nat (length rs)); aggregate Z.min ts; aggregate Z.max ts]]
      else if bool_decide (q = size_text tbl) then
        Some [[aggregate Z.add ((λ r, blob_length (column col_body r)) <$> rs)]]
      else None
  end.

Lemma table_rows_ok (d : Table) : table_ok (proj1_sig d).
Proof. destruct d as [rs H]. simpl. by apply bool_decide_eq_true in H. Qed.

Lemma table_rows_Forall (d : Table) : Forall row_ok (proj1_sig d).
Proof.
  destruct (table_rows_ok d) as [H _]. rewrite forallb_forall in H. apply Forall_forall.
  intros r Hr%list_elem_of_In. by apply row_okb_ok, H.
Qed.

#[export, refine] Instance demo_db : SqlDB tbl Table := {|
  db_up _ := true;
  db_rows d := proj1_sig d;
  db_Exec := demo_Exec;
  db_Query := demo_Query;
  db_Close d := (d, true) |}.
Proof.
  - apply table_rows_Forall.
  - intros d. apply table_rows_ok.
  - intros vals d d' r. unfold demo_Exec. rewrite bool_decide_eq_true_2 by done.
    destruct (put _ d) as [d1 ok] eqn:E. intros [= <- <-].
    apply put_cases in E as [[-> E]|[-> ->]]; [left|right]; auto.
  - intros vals d _ Hok _ Hn. unfold demo_Exec. rewrite bool_decide_eq_true_2 by done.
    destruct (put_ok (proj1_sig d ++ [vals]) d) as (d' & -> & _); [|done].
    destruct (table_rows_ok d) as [Hf Hnd]. split.
    + rewrite forallb_app, Hf. simpl. by rewrite (proj2 (row_okb_ok vals) Hok).
    + rewrite fmap_app. apply NoDup_app. split_and!; [done| |apply NoDup_singleton].
      intros x Hx ->%list_elem_of_singleton. done.
  - intros t d d' r. unfold demo_Exec. rewrite bool_decide_eq_false_2 by done.
    rewrite bool_decide_eq_true_2 by done.
    destruct (put_ok (filter (λ r, sql_le (VInt t) (column col_timestamp r) = true) (proj1_sig d)) d)
      as (d1 & -> & E); [apply table_ok_filter, table_rows_ok|].
    intros [= <- <-]. left. auto.
  - intros t d _. unfold demo_Exec. rewrite bool_decide_eq_false_2 by done.
    rewrite bool_decide_eq_true_2 by done. case_match. by eexists.
  - intros cs p d _ Hc. unfold demo_Query. rewrite read_query_spec by done.
    exists (merge_sort newer_row (filter (λ r, conditions_hold cs r = true) (proj1_sig d))).
    split_and!; [apply merge_sort_Permutation| |done].
    apply sorted_later. apply Forall_forall. intros r [_ Hr]%list_elem_of_filter.
    pose proof (table_rows_Forall d) as H. rewrite Forall_forall in H. auto.
  - intros cs args d. unfold demo_Query. rewrite read_query_offset.
    rewrite !bool_decide_eq_false_2; done.
  - intros id d _. done.
  - intros d _. done.
  - intros d _. done.
Defined.

(** ** Runs *)

Definition event (id : string) (t : Z) (topic principal : string) : MailboxEvent :=
  mkMailboxEvent id t topic "" "" "" "c" principal "" {["x-k"%string := "v"%string]} [1; 2].
Definition empty_table : Table := exist _ [] eq_refl.
Definition config : gmap string backend_value :=
  {["retention_days"%string := BFloat (GoFloat.f64_of_int 90)]}.
Definition fresh : @Driver Table :=
  (Driver_Start 0 (Initialize config (Some (empty_table, true)) Driver_New).1).1.
Definition written_driver : @Driver Table :=
  let d := (WriteEvent tbl 0 (event "1" 10 "a" "p") fresh).1 in
  let d := (WriteEvent tbl 0 (event "2" 20 "b" "p") d).1 in
  (WriteEvent tbl 0 (event "3" 30 "a" "q") d).1.

Definition two_topics : EventFilter := mkEventFilter (Some 5) None ["a"; "c"]%string ["p"; "q"]%string None 1 1.

Example demo_text :
  build_query tbl two_topics =
  (("SELECT " +:+ event_columns +:+ " FROM mailbox WHERE 1=1 AND timestamp >= ? AND topic IN (?, ?) AND principal IN (?, ?) ORDER BY timestamp DESC LIMIT ? OFFSET ?")%string,
   [VInt 5; VText "a"; VText "c"; VText "p"; VText "q"; VInt 1; VInt 1]).
Proof. vm_compute. reflexivity. Qed.

Example demo_query : QueryEvents tbl two_topics written_driver = Ok [event "1" 10 "a" "p"].
Proof. vm_compute. reflexivity. Qed.

Definition db_of (d : @Driver Table) : Table := default empty_table (dr_db d).
Definition three : list MailboxEvent := [event "1" 10 "a" "p"; event "2" 20 "b" "p"; event "3" 30 "a" "q"].

Lemma event_ascii id t topic principal : ascii_headers (ev_CustomHeaders (event id t topic principal)).
Proof. apply map_Forall_singleton. done. Qed.

Lemma fresh_holds : holds tbl fresh (db_of fresh) [].
Proof. split; [done|done|done|constructor]. Qed.
Lemma written_holds : holds tbl written_driver (db_of written_driver) three.
Proof.
  split; [done|vm_compute; reflexivity|done|].
  repeat first [apply Forall2_nil; done|apply Forall2_cons; split; [split; [apply event_ascii|exists 0; reflexivity]|]].
Qed.

Definition no_limit : EventFilter := mkEventFilter None None [] [] None 0 2.

Lemma QueryEvents_correct_witness :
  (∃ matching, matching ≡ₚ filter (λ e, matches two_topics e = true) three ∧
    StronglySorted newer matching ∧
    QueryEvents tbl two_topics written_driver = Ok (page_rows (filter_page two_topics) matching)) ∧
  QueryEvents tbl no_limit written_driver = Err ErrQuery.
Proof.
  split.
  - refine (QueryEvents_correct tbl two_topics written_driver (db_of written_driver) three _ _).
    + apply written_holds.
    + reflexivity.
  - refine (QueryEvents_correct tbl no_limit written_driver (db_of written_driver) three _ _).
    + apply written_holds.
    + reflexivity.
Defined.

Lemma write_then_get_witness :
  ∃ db', holds tbl (WriteEvent tbl 0 (event "1" 10 "a" "p") fresh).1 db' [event "1" 10 "a" "p"] ∧
    (db_up db' = true → ∀ e', e' ∈ [event "1" 10 "a" "p"] →
       GetEvent tbl (ev_MessageID e') (WriteEvent tbl 0 (event "1" 10 "a" "p") fresh).1 = Ok e').
Proof.
  refine (proj2 (write_then_get tbl 0 (event "1" 10 "a" "p") fresh (db_of fresh) [] _ _ _ _)).
  - apply fresh_holds.
  - apply event_ascii.
  - vm_compute. reflexivity.
Defined.

Lemma GetTableStats_correct_witness :
  GetTableStats tbl written_driver = Ok (mkTableStats 3 6 10 30) ∧ GetTableStats tbl fresh = Err ErrCount.
Proof.
  split.
  - refine (GetTableStats_correct tbl written_driver (db_of written_driver) three _ _);
      [apply written_holds|reflexivity].
  - refine (GetTableStats_correct tbl fresh (db_of fresh) [] _ _); [apply fresh_holds|reflexivity].
Defined.

(** Three days after the epoch, with one day of retention. *)
Lemma retention_correct_witness :
  ∃ db', holds tbl (retention_tick tbl (3 * Day) 1 written_driver) db'
           (filter (λ e, UnixMilli (3 * Day - 1 * Day) ≤ ev_Timestamp e) three).
Proof.
  refine (retention_correct tbl (3 * Day) 1 written_driver (db_of written_driver) three _ _ _).
  - apply written_holds.
  - reflexivity.
  - unfold retention_ok. lia.
Defined.

(** A driver that is stopped, started and stopped again closes a closed channel; one
    that is started before it is initialized dereferences nil. *)
Example second_stop_panics :
  (Driver_Stop tbl (Driver_Start 0 (Driver_Stop tbl fresh).1).1).2 = Panic ∧
  (Driver_Start 0 (@Driver_New Table)).2 = Panic.
Proof. done. Qed.
