(* ===== verification/MulticastBackends.v ===== *)
(** * Messaging backends of the multicast registry

    nats_messaging.go, and the adapters of adapters.go that make a messaging backend of a
    publish-subscribe driver and a durability backend of a queue.  Both messaging backends
    discharge [MessagingBackend], so that the theorems about multicasts hold of them.

    The NATS backend runs a callback and a goroutine per subscription; they are program
    counters, and a label is one step of one of them or a call of the backend. *)

From S2P Require Import Prelude Memstore MemPubSub Slots Sqlite Filter Coordinator CoordinatorSpec Nats.
Local Open Scope Z_scope.

(** ** nats_messaging.go *)

Section NatsMessaging.
Context {C : Type} `{!NatsConn C}.

(** The goroutine of a subscription waits for its context, then unsubscribes, then
    closes the channel. *)
Inductive nm_pc := NmWaiting | NmClosing | NmDone.

(** A subscription: its id at the connection, its context, the goroutine, the message
    that its callback is handling, the channel; and what was offered to the channel, sent,
    dropped and received. *)
Record nm_sub := mkNmSub {
  ns_topic : string;
  ns_id : nat;
  ns_cancelled : bool;
  ns_pc : nm_pc;
  ns_callback : option bytes;
  ns_buffer : list bytes;
  ns_closed : bool;
  ns_offered : list bytes;
  ns_sent : list bytes;
  ns_dropped : list bytes;
  ns_received : list bytes }.

Record NATSMessagingBackend := mkNATSMessaging {
  nm_conn : C;
  nm_subscriptions : gmap string nat;
  nm_subs : list nm_sub;
  nm_panicked : bool }.

(** [conn]: what [nats.Connect] returned. *)
Definition NewNATSMessagingBackend (conn : option C) : option NATSMessagingBackend :=
  match conn with Some c => Some (mkNATSMessaging c ∅ [] false) | None => None end.

(** The server that is dialled. *)
Definition dialled (servers : list string) : string :=
  match servers with [] => "nats://127.0.0.1:4222" | s :: _ => s end.

Definition set_nm_conn (c : C) (m : NATSMessagingBackend) : NATSMessagingBackend :=
  mkNATSMessaging c (nm_subscriptions m) (nm_subs m) (nm_panicked m).

(** A message that was published and could not be flushed is reported as failed. *)
Definition Nm_Publish (topic : string) (payload : bytes) (m : NATSMessagingBackend)
    : NATSMessagingBackend * bool :=
  let '(c, ok) := nc_Publish topic payload (nm_conn m) in
  if negb ok then (set_nm_conn c m, false)
  else let '(c, ok) := nc_Flush c in (set_nm_conn c m, ok).

Inductive nm_error := ErrAlreadySubscribed | ErrNmSubscribe | ErrNmUnsubscribe.

Definition Nm_Subscribe (topic : string) (m : NATSMessagingBackend)
    : NATSMessagingBackend * result nm_error nat :=
  match nm_subscriptions m !! topic with
  | Some _ => (m, Err ErrAlreadySubscribed)
  | None =>
      let '(c, r) := nc_Subscribe topic None (nm_conn m) in
      match r with
      | None => (set_nm_conn c m, Err ErrNmSubscribe)
      | Some id =>
          (mkNATSMessaging c (<[topic := id]> (nm_subscriptions m))
             (nm_subs m ++ [mkNmSub topic id false NmWaiting None [] false [] [] [] []]) (nm_panicked m),
           Ok (length (nm_subs m)))
      end
  end.

Definition Nm_Unsubscribe (topic : string) (m : NATSMessagingBackend)
    : NATSMessagingBackend * option nm_error :=
  match nm_subscriptions m !! topic with
  | None => (m, None)
  | Some sub =>
      let '(c, ok) := nc_Unsubscribe sub (nm_conn m) in
      if ok then (mkNATSMessaging c (delete topic (nm_subscriptions m)) (nm_subs m) (nm_panicked m), None)
      else (set_nm_conn c m, Some ErrNmUnsubscribe)
  end.

Definition Nm_Close (m : NATSMessagingBackend) : NATSMessagingBackend :=
  mkNATSMessaging (nc_Close (unsubscribe_all (map_to_list (nm_subscriptions m)).*2 (nm_conn m)))
    ∅ (nm_subs m) (nm_panicked m).

Definition ConnectionStatus (connected reconnecting closed : bool) : string :=
  if connected then "CONNECTED" else if reconnecting then "RECONNECTING"
  else if closed then "CLOSED" else "UNKNOWN".

(** *** The goroutine and the callback *)

(** [select] of the callback: send, context, default. *)
Inductive nm_choice := ChSend | ChDone | ChDefault.

Definition nm_capacity : nat := 100.

(** [None]: the case cannot be taken; [inr]: the send panics. *)
Definition callback_select (ch : nm_choice) (data : bytes) (s : nm_sub) : option (nm_sub + unit) :=
  match ch with
  | ChSend =>
      if ns_closed s then Some (inr ())
      else if (length (ns_buffer s) <? nm_capacity)%nat then
        Some (inl (mkNmSub (ns_topic s) (ns_id s) (ns_cancelled s) (ns_pc s) None (ns_buffer s ++ [data])
          (ns_closed s) (ns_offered s) (ns_sent s ++ [data]) (ns_dropped s) (ns_received s)))
      else None
  | ChDone =>
      if ns_cancelled s then
        Some (inl (mkNmSub (ns_topic s) (ns_id s) (ns_cancelled s) (ns_pc s) None (ns_buffer s)
          (ns_closed s) (ns_offered s) (ns_sent s) (ns_dropped s ++ [data]) (ns_received s)))
      else None
  | ChDefault =>
      if ns_closed s || ns_cancelled s || (length (ns_buffer s) <? nm_capacity)%nat then None
      else Some (inl (mkNmSub (ns_topic s) (ns_id s) (ns_cancelled s) (ns_pc s) None (ns_buffer s)
          (ns_closed s) (ns_offered s) (ns_sent s) (ns_dropped s ++ [data]) (ns_received s)))
  end.

Definition set_ns_pc (pc : nm_pc) (closed : bool) (s : nm_sub) : nm_sub :=
  mkNmSub (ns_topic s) (ns_id s) (ns_cancelled s) pc (ns_callback s) (ns_buffer s) closed
    (ns_offered s) (ns_sent s) (ns_dropped s) (ns_received s).

Definition put_nm (k : nat) (s : nm_sub) (m : NATSMessagingBackend) : NATSMessagingBackend :=
  mkNATSMessaging (nm_conn m) (nm_subscriptions m) (<[k := s]> (nm_subs m)) (nm_panicked m).

(** The calls; a context that ends; the two steps of the goroutine; the library that
    calls the callback of a live subscription, and the callback's [select]; a reader. *)
Inductive nm_label :=
  | NmPublish (topic : string) (payload : bytes)
  | NmSubscribe (topic : string)
  | NmUnsubscribe (topic : string)
  | NmClose
  | NmCancel (k : nat)
  | NmGoroutine (k : nat)
  | NmDeliver (k : nat) (data : bytes)
  | NmSelect (k : nat) (ch : nm_choice)
  | NmReceive (k : nat).

Definition nm_exec (l : nm_label) (m : NATSMessagingBackend) : option NATSMessagingBackend :=
  if nm_panicked m then None
  else match l with
  | NmPublish topic payload => Some (Nm_Publish topic payload m).1
  | NmSubscribe topic => Some (Nm_Subscribe topic m).1
  | NmUnsubscribe topic => Some (Nm_Unsubscribe topic m).1
  | NmClose => Some (Nm_Close m)
  | NmCancel k =>
      s ← nm_subs m !! k;
      Some (put_nm k (mkNmSub (ns_topic s) (ns_id s) true (ns_pc s) (ns_callback s) (ns_buffer s)
        (ns_closed s) (ns_offered s) (ns_sent s) (ns_dropped s) (ns_received s)) m)
  | NmGoroutine k =>
      s ← nm_subs m !! k;
      match ns_pc s with
      | NmWaiting =>
          if ns_cancelled s
          then Some (put_nm k (set_ns_pc NmClosing (ns_closed s) s) (Nm_Unsubscribe (ns_topic s) m).1)
          else None
      | NmClosing => Some (put_nm k (set_ns_pc NmDone true s) m)
      | NmDone => None
      end
  | NmDeliver k data =>
      s ← nm_subs m !! k;
      match nc_live (nm_conn m) !! ns_id s, ns_callback s with
      | Some _, None =>
          Some (put_nm k (mkNmSub (ns_topic s) (ns_id s) (ns_cancelled s) (ns_pc s) (Some data) (ns_buffer s)
            (ns_closed s) (ns_offered s ++ [data]) (ns_sent s) (ns_dropped s) (ns_received s)) m)
      | _, _ => None
      end
  | NmSelect k ch =>
      s ← nm_subs m !! k;
      data ← ns_callback s;
      r ← callback_select ch data s;
      Some (match r with
            | inl s => put_nm k s m
            | inr _ => mkNATSMessaging (nm_conn m) (nm_subscriptions m) (nm_subs m) true
            end)
  | NmReceive k =>
      s ← nm_subs m !! k;
      match ns_buffer s with
      | [] => None
      | data :: rest =>
          Some (put_nm k (mkNmSub (ns_topic s) (ns_id s) (ns_cancelled s) (ns_pc s) (ns_callback s) rest
            (ns_closed s) (ns_offered s) (ns_sent s) (ns_dropped s) (ns_received s ++ [data])) m)
      end
  end.

Definition nm_run : list nm_label → NATSMessagingBackend → option NATSMessagingBackend := run_labels nm_exec.

Definition nm_reachable (c : C) (m : NATSMessagingBackend) : Prop :=
  ∃ ls, nm_run ls (mkNATSMessaging c ∅ [] false) = Some m.

(** *** Deliveries *)

(** Every message offered to the channel was sent, dropped, or is in the callback's hand. *)
Record ns_ok (s : nm_sub) : Prop := {
  no_received : ns_received s ++ ns_buffer s = ns_sent s;
  no_room : (length (ns_buffer s) ≤ nm_capacity)%nat;
  no_order : ∃ l, ns_offered s = l ++ option_list (ns_callback s) ∧ ns_sent s `sublist_of` l ∧
    l ≡ₚ ns_sent s ++ ns_dropped s;
  no_dropped : ns_dropped s ≠ [] → ns_cancelled s = true ∨ (nm_capacity ≤ length (ns_sent s))%nat;
  no_pc : ns_pc s ≠ NmWaiting → ns_cancelled s = true;
  no_closed : ns_closed s = true ↔ ns_pc s = NmDone }.

Lemma ns_ok_select ch data s s' :
  ns_ok s → ns_callback s = Some data → callback_select ch data s = Some (inl s') → ns_ok s'.
Proof.
  intros [H1 H2 (l & Ho & Hs & Hp) H4 H5 H6] Hd. rewrite Hd in Ho. simpl in Ho. destruct ch; simpl.
  - destruct (ns_closed s) eqn:Hc; [done|]. destruct (_ <? _)%nat eqn:Hb; [|done]. intros [= <-]. apply Nat.ltb_lt in Hb.
    split; simpl; try done.
    + by rewrite app_assoc, H1.
    + rewrite length_app. simpl. lia.
    + exists (l ++ [data]). rewrite app_nil_r. split_and!; [done|by apply sublist_app|].
      rewrite Hp, <- !app_assoc. f_equiv. apply Permutation_app_comm.
    + intros [?|?]%H4; [by left|right]. rewrite length_app. lia.
  - destruct (ns_cancelled s) eqn:Hc; [|done]. intros [= <-]. split; simpl; try done.
    + exists (l ++ [data]). rewrite app_nil_r. split_and!; [done|by apply sublist_inserts_r|].
      by rewrite Hp, <- app_assoc.
    + by left.
  - destruct (_ || _) eqn:Hb; [done|]. intros [= <-]. apply orb_false_iff in Hb as [_ Hb%Nat.ltb_ge].
    split; simpl; try done.
    + exists (l ++ [data]). rewrite app_nil_r. split_and!; [done|by apply sublist_inserts_r|].
      by rewrite Hp, <- app_assoc.
    + intros _. right. rewrite <- H1, length_app. lia.
Qed.

(** The other steps of a subscription keep its history in order. *)
Lemma ns_ok_new topic id : ns_ok (mkNmSub topic id false NmWaiting None [] false [] [] [] []).
Proof. split; simpl; try done; try lia. by exists []. Qed.

Lemma ns_ok_cancel s :
  ns_ok s → ns_ok (mkNmSub (ns_topic s) (ns_id s) true (ns_pc s) (ns_callback s) (ns_buffer s)
    (ns_closed s) (ns_offered s) (ns_sent s) (ns_dropped s) (ns_received s)).
Proof. intros [H1 H2 H3 H4 H5 H6]. split; simpl; auto. Qed.

Lemma ns_ok_pc s pc closed :
  ns_ok s → ns_cancelled s = true → (closed = true ↔ pc = NmDone) → ns_ok (set_ns_pc pc closed s).
Proof. intros [H1 H2 H3 H4 H5 H6] Hc Hcl. by split; simpl; auto. Qed.

Lemma ns_ok_deliver s data :
  ns_ok s → ns_callback s = None →
  ns_ok (mkNmSub (ns_topic s) (ns_id s) (ns_cancelled s) (ns_pc s) (Some data) (ns_buffer s)
    (ns_closed s) (ns_offered s ++ [data]) (ns_sent s) (ns_dropped s) (ns_received s)).
Proof.
  intros [H1 H2 (l & Ho & Hs) H4 H5 H6] Hc. rewrite Hc in Ho. simpl in Ho. rewrite app_nil_r in Ho.
  split; simpl; try done. exists l. by rewrite Ho.
Qed.

Lemma ns_ok_receive s data rest :
  ns_ok s → ns_buffer s = data :: rest →
  ns_ok (mkNmSub (ns_topic s) (ns_id s) (ns_cancelled s) (ns_pc s) (ns_callback s) rest
    (ns_closed s) (ns_offered s) (ns_sent s) (ns_dropped s) (ns_received s ++ [data])).
Proof.
  intros [H1 H2 H3 H4 H5 H6] Hb. rewrite Hb in H1, H2. split; simpl in *; try done; [|lia]. by rewrite <- app_assoc.
Qed.

Lemma Nm_Unsubscribe_subs topic m :
  nm_subs (Nm_Unsubscribe topic m).1 = nm_subs m ∧ nm_panicked (Nm_Unsubscribe topic m).1 = nm_panicked m.
Proof.
  unfold Nm_Unsubscribe. destruct (nm_subscriptions m !! topic); [|done].
  by destruct (nc_Unsubscribe _ _) as [c []].
Qed.

Lemma Nm_Publish_subs topic payload m :
  nm_subs (Nm_Publish topic payload m).1 = nm_subs m ∧ nm_panicked (Nm_Publish topic payload m).1 = nm_panicked m.
Proof. unfold Nm_Publish. destruct (nc_Publish _ _ _) as [c []]; simpl; [|done]. by destruct (nc_Flush c). Qed.

Lemma Forall_put (m : NATSMessagingBackend) k s s' :
  Forall ns_ok (nm_subs m) → nm_subs m !! k = Some s → (ns_ok s → ns_ok s') → Forall ns_ok (<[k := s']> (nm_subs m)).
Proof. intros H Hk Hs. apply Forall_insert; [done|]. apply Hs. by eapply Forall_lookup_1. Qed.

Lemma nm_exec_ok m l m' : Forall ns_ok (nm_subs m) → nm_exec l m = Some m' → Forall ns_ok (nm_subs m').
Proof.
  intros H. unfold nm_exec. destruct (nm_panicked m); [done|].
  destruct l as [topic payload|topic|topic| |k|k|k data|k ch|k].
  - intros [= <-]. by rewrite (proj1 (Nm_Publish_subs _ _ _)).
  - intros [= <-]. unfold Nm_Subscribe. destruct (nm_subscriptions m !! topic); [done|].
    destruct (nc_Subscribe _ _ _) as [c [id|]]; simpl; [|done]. apply Forall_app_2; [done|].
    constructor; [apply ns_ok_new|done].
  - intros [= <-]. by rewrite (proj1 (Nm_Unsubscribe_subs _ _)).
  - by intros [= <-].
  - intros (s & Hk & [= <-])%bind_Some. eapply Forall_put; [done..|apply ns_ok_cancel].
  - intros (s & Hk & E)%bind_Some. destruct (ns_pc s) eqn:Hpc; [|injection E as <-|done].
    + destruct (ns_cancelled s) eqn:Hc; [|done]. injection E as <-. simpl. rewrite (proj1 (Nm_Unsubscribe_subs _ _)).
      eapply Forall_put; [done..|]. intros Hs. apply ns_ok_pc; [done..|]. rewrite (no_closed _ Hs), Hpc. by split.
    + eapply Forall_put; [done..|]. intros Hs. apply ns_ok_pc; [done| |done]. apply (no_pc _ Hs). by rewrite Hpc.
  - intros (s & Hk & E)%bind_Some. destruct (nc_live _ !! _); [|done]. destruct (ns_callback s) eqn:Hc; [done|].
    injection E as <-. eapply Forall_put; [done..|]. intros Hs. by apply ns_ok_deliver.
  - intros (s & Hk & (data & Hd & (r & Hr & [= <-])%bind_Some)%bind_Some)%bind_Some. destruct r as [s'|]; [|done].
    eapply Forall_put; [done..|]. intros Hs. by eapply ns_ok_select.
  - intros (s & Hk & E)%bind_Some. destruct (ns_buffer s) as [|data rest] eqn:Hb; [done|]. injection E as <-.
    eapply Forall_put; [done..|]. intros Hs. by apply ns_ok_receive.
Qed.

Lemma nm_reachable_ok c m : nm_reachable c m → Forall ns_ok (nm_subs m).
Proof.
  intros [ls H]. revert H. apply (run_labels_invariant nm_exec (λ m, Forall ns_ok (nm_subs m))); [|done].
  intros m0 l m1. apply nm_exec_ok.
Qed.

(** C15. A subscription of the NATS backend delivers at most once and in order, in every
    run: what the reader got and what waits in the channel are the messages that were
    sent, in the order the library delivered them; all others were dropped, except for one
    that the callback may hold; nothing is dropped before the channel was full or the
    context ended; and the channel holds at most a hundred messages. *)
Theorem nats_messaging_delivery c m k s :
  nm_reachable c m → nm_subs m !! k = Some s →
  ns_received s ++ ns_buffer s `sublist_of` ns_offered s ∧
  (∃ hand, ns_offered s ≡ₚ ns_received s ++ ns_buffer s ++ ns_dropped s ++ hand ∧ (length hand ≤ 1)%nat) ∧
  (ns_dropped s ≠ [] → ns_cancelled s = true ∨ (nm_capacity ≤ length (ns_received s ++ ns_buffer s))%nat) ∧
  (length (ns_buffer s) ≤ nm_capacity)%nat.
Proof.
  intros Hr Hk. pose proof (Forall_lookup_1 _ _ _ _ (nm_reachable_ok _ _ Hr) Hk) as [H1 H2 (l & Ho & Hs & Hp) H4 _ _].
  rewrite H1. split_and!; [|exists (option_list (ns_callback s)); split|done|done].
  - rewrite Ho. by apply sublist_inserts_r.
  - by rewrite Ho, Hp, <- H1, <- !app_assoc.
  - destruct (ns_callback s); simpl; lia.
Qed.

(** When the context of a subscription ends, its channel is closed after at most two
    steps of its goroutine, whatever the connection answers; the only panic is a callback
    that sends on the closed channel. *)
Theorem nats_messaging_close c m k s :
  nm_reachable c m → nm_panicked m = false → nm_subs m !! k = Some s → ns_cancelled s = true →
  (∃ n m' s', (n ≤ 2)%nat ∧ nm_run (replicate n (NmGoroutine k)) m = Some m' ∧
     nm_subs m' !! k = Some s' ∧ ns_closed s' = true) ∧
  ∀ l m', nm_exec l m = Some m' → nm_panicked m' = true →
    ∃ j s', l = NmSelect j ChSend ∧ nm_subs m !! j = Some s' ∧ ns_closed s' = true.
Proof.
  intros Hr Hp Hk Hc. pose proof (Forall_lookup_1 _ _ _ _ (nm_reachable_ok _ _ Hr) Hk) as Hs.
  pose proof (lookup_lt_Some _ _ _ Hk) as Hlt. split.
  - destruct (ns_pc s) eqn:Hpc.
    + destruct (Nm_Unsubscribe_subs (ns_topic s) m) as [Es Ep].
      exists 2%nat. eexists _, _. split; [lia|]. simpl. unfold nm_exec. rewrite Hp, Hk. simpl. rewrite Hpc, Hc. simpl.
      rewrite Ep, Hp, Es, list_lookup_insert_eq by done. simpl. split; [done|]. simpl.
      rewrite list_lookup_insert_eq by (by rewrite length_insert, Es). by split.
    + exists 1%nat. eexists _, _. split; [lia|]. simpl. unfold nm_exec. rewrite Hp, Hk. simpl. rewrite Hpc. simpl.
      split; [done|]. simpl. rewrite list_lookup_insert_eq by done. by split.
    + exists 0%nat, m, s. split_and!; [lia|done|done|]. by apply (no_closed _ Hs).
  - intros l m'. unfold nm_exec. rewrite Hp. clear Hs Hk Hlt Hc Hr k s.
    destruct l as [topic payload|topic|topic| |k|k|k data|k ch|k].
    + intros [= <-]. rewrite (proj2 (Nm_Publish_subs _ _ _)), Hp. done.
    + intros [= <-]. unfold Nm_Subscribe. destruct (nm_subscriptions m !! topic); [simpl; by rewrite Hp|].
      destruct (nc_Subscribe _ _ _) as [c' [id|]]; simpl; by rewrite Hp.
    + intros [= <-]. rewrite (proj2 (Nm_Unsubscribe_subs _ _)), Hp. done.
    + intros [= <-]. simpl. by rewrite Hp.
    + intros (s & Hk & [= <-])%bind_Some. simpl. by rewrite Hp.
    + intros (s & Hk & E)%bind_Some. destruct (ns_pc s); [|injection E as <-; simpl; by rewrite Hp|done].
      destruct (ns_cancelled s); [|done]. injection E as <-. simpl. by rewrite (proj2 (Nm_Unsubscribe_subs _ _)), Hp.
    + intros (s & Hk & E)%bind_Some. destruct (nc_live _ !! _), (ns_callback s); try done.
      injection E as <-. simpl. by rewrite Hp.
    + intros (s & Hk & (data & Hd & (r & Hr & [= <-])%bind_Some)%bind_Some)%bind_Some.
      destruct r as [s'|[]]; [simpl; by rewrite Hp|]. intros _. destruct ch; simpl in Hr.
      * destruct (ns_closed s) eqn:Hc; [by exists k, s|]. by destruct (_ <? _)%nat.
      * by destruct (ns_cancelled s).
      * by destruct (_ || _).
    + intros (s & Hk & E)%bind_Some. destruct (ns_buffer s); [done|]. injection E as <-. simpl. by rewrite Hp.
Qed.

(** *** As a messaging backend *)

Definition nm_published (m : NATSMessagingBackend) (topic : string) : list bytes :=
  snd <$> filter (λ p, p.1 = topic) (nc_published (nm_conn m)).

#[global, refine] Instance NATSMessaging_MessagingBackend : MessagingBackend NATSMessagingBackend := {|
  mb_Publish := Nm_Publish;
  mb_Close := λ _, true;
  mb_published := nm_published |}.
Proof.
  intros topic payload m m' ok. unfold Nm_Publish, nm_published. destruct (nc_Publish _ _ _) as [c acc] eqn:E.
  apply nc_Publish_spec in E as [_ Hp]. assert (∀ t, snd <$> filter (λ p, p.1 = t) (nc_published c) =
    if acc && bool_decide (t = topic) then (snd <$> filter (λ p, p.1 = t) (nc_published (nm_conn m))) ++ [payload]
    else snd <$> filter (λ p, p.1 = t) (nc_published (nm_conn m))) as Hpub.
  { intros t. rewrite Hp. destruct acc; simpl; [|done]. rewrite filter_app, fmap_app, filter_cons. simpl.
    case_bool_decide; case_decide; try congruence; simpl; [done|by rewrite app_nil_r]. }
  destruct acc; simpl.
  - destruct (nc_Flush c) as [c' ok'] eqn:Ef. apply nc_Flush_spec in Ef as [_ Ef]. intros [= <- _]. exists true.
    split; [done|]. simpl. by rewrite Ef.
  - intros [= <- <-]. by exists false.
Defined.
End NatsMessaging.
Arguments NATSMessagingBackend : clear implicits.

(** ** adapters.go: publish-subscribe and queues *)

(** The forwarding goroutine of a subscription: the driver's channel, the message in
    hand, the channel of payloads; and what was put into the first and taken out of the
    second. *)
Record pipe := mkPipe {
  pp_in : list PubSubMessage;
  pp_in_closed : bool;
  pp_hand : option PubSubMessage;
  pp_out : list bytes;
  pp_out_closed : bool;
  pp_source : list PubSubMessage;
  pp_taken : list bytes }.

Inductive pipe_label :=
  | PipeSource (m : PubSubMessage)
  | PipeCloseSource
  | PipeForward
  | PipeReceive.

(** [for msg := range messageChan { payloadChan <- msg.Payload }]: the send waits for
    room, and the channel of payloads is closed when the driver's is closed and empty. *)
Definition forward (p : pipe) : option pipe :=
  match pp_hand p with
  | Some m =>
      if (length (pp_out p) <? 100)%nat then
        Some (mkPipe (pp_in p) (pp_in_closed p) None (pp_out p ++ [pm_Payload m]) (pp_out_closed p)
                (pp_source p) (pp_taken p))
      else None
  | None =>
      match pp_in p with
      | m :: rest =>
          Some (mkPipe rest (pp_in_closed p) (Some m) (pp_out p) (pp_out_closed p) (pp_source p) (pp_taken p))
      | [] =>
          if pp_in_closed p && negb (pp_out_closed p)
          then Some (mkPipe [] true None (pp_out p) true (pp_source p) (pp_taken p)) else None
      end
  end.

Definition pipe_exec (l : pipe_label) (p : pipe) : option pipe :=
  match l with
  | PipeSource m =>
      if pp_in_closed p then None
      else Some (mkPipe (pp_in p ++ [m]) false (pp_hand p) (pp_out p) (pp_out_closed p) (pp_source p ++ [m]) (pp_taken p))
  | PipeCloseSource =>
      Some (mkPipe (pp_in p) true (pp_hand p) (pp_out p) (pp_out_closed p) (pp_source p) (pp_taken p))
  | PipeForward => forward p
  | PipeReceive =>
      match pp_out p with
      | d :: rest =>
          Some (mkPipe (pp_in p) (pp_in_closed p) (pp_hand p) rest (pp_out_closed p) (pp_source p) (pp_taken p ++ [d]))
      | [] => None
      end
  end.

Definition new_pipe : pipe := mkPipe [] false None [] false [] [].

(** Nothing is lost on the way, and the end is only signalled after everything. *)
Record pipe_ok (p : pipe) : Prop := {
  po_fifo : pp_taken p ++ pp_out p ++ (pm_Payload <$> option_list (pp_hand p) ++ pp_in p) = pm_Payload <$> pp_source p;
  po_room : (length (pp_out p) ≤ 100)%nat;
  po_closed : pp_out_closed p = true → pp_in_closed p = true ∧ pp_hand p = None ∧ pp_in p = [] }.

Lemma pipe_exec_ok p l p' : pipe_ok p → pipe_exec l p = Some p' → pipe_ok p'.
Proof.
  intros [H1 H2 H3]. destruct l as [m| | |]; simpl.
  - destruct (pp_in_closed p) eqn:Hc; [done|]. intros [= <-]. split; simpl; [|done|].
    + rewrite fmap_app in H1. rewrite !fmap_app, <- H1, <- !app_assoc. done.
    + intros Ho. by destruct (H3 Ho) as [? _].
  - intros [= <-]. split; simpl; [done..|]. intros Ho. by destruct (H3 Ho) as (_ & ? & ?).
  - unfold forward. destruct (pp_hand p) as [m|] eqn:Hh.
    + destruct (_ <? _)%nat eqn:Hb; [|done]. intros [= <-]. apply Nat.ltb_lt in Hb. split; simpl in *.
      * by rewrite <- H1, <- app_assoc.
      * rewrite length_app. simpl. lia.
      * intros Ho. by destruct (H3 Ho) as (_ & ? & _).
    + destruct (pp_in p) as [|m rest] eqn:Hi.
      * destruct (pp_in_closed p && _) eqn:Hb; [|done]. intros [= <-]. by split.
      * intros [= <-]. split; simpl in *; [done..|]. intros Ho. by destruct (H3 Ho) as (_ & _ & ?).
  - destruct (pp_out p) as [|d rest] eqn:Ho; [done|]. intros [= <-]. split; simpl in *; [|lia|done].
    by rewrite <- H1, <- app_assoc.
Qed.

(** Steps of the goroutine and of the reader that are left until the end. *)
Definition pipe_work (p : pipe) : nat :=
  3 * length (pp_in p) + 2 * length (option_list (pp_hand p)) + length (pp_out p)
  + (if pp_out_closed p then 0 else 1).

Lemma pipe_progress p :
  pipe_ok p → pp_in_closed p = true → (0 < pipe_work p)%nat →
  ∃ l p', (l = PipeForward ∨ l = PipeReceive) ∧ pipe_exec l p = Some p' ∧ pp_in_closed p' = true ∧
    pp_source p' = pp_source p ∧ (pipe_work p' < pipe_work p)%nat.
Proof.
  intros _ Hc Hw. unfold pipe_work in *. destruct (pp_out p) as [|d rest] eqn:Ho.
  - exists PipeForward. simpl. unfold forward. rewrite Ho, Hc. simpl. destruct (pp_hand p) as [m|]; simpl in *.
    + eexists. split_and!; [by left|done..|]. simpl. lia.
    + destruct (pp_in p) as [|m ms]; simpl in *; [destruct (pp_out_closed p); [lia|]|];
        (eexists; split_and!; [by left|done..|]; simpl; lia).
  - exists PipeReceive. simpl. rewrite Ho. eexists. split_and!; [by right|done..|]. simpl. lia.
Qed.

Lemma pipe_drains p :
  pipe_ok p → pp_in_closed p = true →
  ∃ ls p', Forall (λ l, l = PipeForward ∨ l = PipeReceive) ls ∧ run_labels pipe_exec ls p = Some p' ∧
    pp_source p' = pp_source p ∧ pipe_work p' = 0%nat ∧ pipe_ok p'.
Proof.
  remember (pipe_work p) as w eqn:Hw. revert p Hw. induction w as [w IH] using lt_wf_ind. intros p -> Hok Hc.
  destruct (decide (pipe_work p = 0%nat)) as [E|E]; [by exists [], p|].
  destruct (pipe_progress p Hok Hc) as (l & p1 & Hl & E1 & Hc1 & Es & Hlt); [lia|].
  destruct (IH _ Hlt p1 eq_refl (pipe_exec_ok _ _ _ Hok E1) Hc1) as (ls & p' & Hls & Hrun & Es' & Hw' & Hok').
  exists (l :: ls), p'. split_and!; [by constructor| |by rewrite Es'|done|done]. simpl. by rewrite E1.
Qed.

(** The subscription of an adapter passes on every payload once and in order: at any
    time the reader's messages, those in the two channels and the one in hand are all that
    the driver delivered; the channel of payloads is closed only after the driver's and
    after everything went through; and once the driver's channel is closed, the goroutine
    and a reader that goes on bring all of it to the reader and close the channel. *)
Theorem adapter_subscription_lossless ls p :
  run_labels pipe_exec ls new_pipe = Some p →
  pp_taken p ++ pp_out p ++ (pm_Payload <$> option_list (pp_hand p) ++ pp_in p) = pm_Payload <$> pp_source p ∧
  (pp_out_closed p = true → pp_taken p ++ pp_out p = pm_Payload <$> pp_source p) ∧
  (pp_in_closed p = true → ∃ ls' p', run_labels pipe_exec ls' p = Some p' ∧
     pp_taken p' = pm_Payload <$> pp_source p ∧ pp_out_closed p' = true).
Proof.
  intros Hrun. assert (pipe_ok p) as Hok.
  { revert Hrun. apply (run_labels_invariant pipe_exec pipe_ok); [intros ???; apply pipe_exec_ok|split; simpl; [done|lia|done]]. }
  split_and!; [apply Hok| |].
  - intros Ho. destruct (po_closed _ Hok Ho) as (_ & Hh & Hi). pose proof (po_fifo _ Hok) as E.
    rewrite Hh, Hi in E. simpl in E. by rewrite app_nil_r in E.
  - intros Hc. destruct (pipe_drains p Hok Hc) as (ls' & p' & _ & Hr & Es & Hw & Hok'). exists ls', p'.
    split; [done|]. unfold pipe_work in Hw. pose proof (po_fifo _ Hok') as E. rewrite Es in E.
    destruct (pp_in p'), (pp_hand p'), (pp_out p'), (pp_out_closed p'); simpl in *; try lia.
    by rewrite app_nil_r in E.
Qed.

Section Adapters.
Context {S : Type} `{!MessageSink S}.

(** The value in the slot, as a messaging backend. *)
Record PubSubMessagingAdapter := mkPubSubAdapter { pa_pubsub : S }.

Definition Ps_Publish (topic : string) (payload : bytes) (a : PubSubMessagingAdapter)
    : PubSubMessagingAdapter * bool :=
  let '(s, ok) := sk_Publish (topic, payload, ∅) (pa_pubsub a) in (mkPubSubAdapter s, ok).

(** Neither has an effect. *)
Definition Ps_Unsubscribe (topic : string) (a : PubSubMessagingAdapter) : PubSubMessagingAdapter := a.
Definition Ps_Close (a : PubSubMessagingAdapter) : bool := true.

Definition ps_published (a : PubSubMessagingAdapter) (topic : string) : list bytes :=
  (λ m : sink_message, m.1.2) <$> filter (λ m : sink_message, m.1.1 = topic) (sk_log (pa_pubsub a)).

#[global, refine] Instance PubSubAdapter_MessagingBackend : MessagingBackend PubSubMessagingAdapter := {|
  mb_Publish := Ps_Publish;
  mb_Close := Ps_Close;
  mb_published := ps_published |}.
Proof.
  intros topic payload a a' ok. unfold Ps_Publish, ps_published.
  destruct (sk_Publish _ _) as [s ok'] eqn:E. intros [= <- <-]. simpl.
  apply sk_Publish_log in E as [E|[-> E]]; [exists true|exists false]; (split; [done|]); intros t; rewrite E; [|done].
  rewrite filter_app, fmap_app, filter_cons. simpl.
  case_bool_decide; case_decide; try congruence; simpl; [done|by rewrite app_nil_r].
Defined.

Definition Qd_Enqueue (queue : string) (payload : bytes) (s : S) : S * bool := sk_Enqueue (queue, payload, ∅) s.

(** [receive]: the channel that [Receive] opened, with what arrives before the timeout;
    [None] is its error.  The first message is returned and the channel abandoned. *)
Definition Qd_Dequeue (receive : option (list PubSubMessage)) : option (option bytes) :=
  match receive with
  | None => None
  | Some [] => Some None
  | Some (m :: _) => Some (Some (pm_Payload m))
  end.

Definition Qd_Acknowledge (queue messageID : string) (s : S) : S := s.
End Adapters.
Arguments PubSubMessagingAdapter : clear implicits.

(** ** Runs *)

Module BackendsDemo.
Local Open Scope string_scope.
Local Open Scope Z_scope.

#[local] Existing Instance NatsDemo.conn_nats.

Definition start : NATSMessagingBackend NatsDemo.conn := mkNATSMessaging (NatsDemo.mkConn ∅ []) ∅ [] false.

(** Two messages, of which one is received and one waits. *)
Definition two_messages : list nm_label :=
  [NmSubscribe "t"; NmDeliver 0 [1]; NmSelect 0 ChSend; NmDeliver 0 [2]; NmSelect 0 ChSend; NmReceive 0; NmCancel 0].

Definition after (ls : list nm_label) : NATSMessagingBackend NatsDemo.conn := default start (nm_run ls start).

Definition sub0 : nm_sub := mkNmSub "t" 0 true NmWaiting None [[2]] false [[1]; [2]] [[1]; [2]] [] [[1]].

Lemma nats_messaging_delivery_witness :
  nm_reachable (NatsDemo.mkConn ∅ []) (after two_messages) ∧ nm_subs (after two_messages) !! 0%nat = Some sub0 ∧
  (ns_received sub0 ++ ns_buffer sub0)%list `sublist_of` ns_offered sub0.
Proof.
  assert (nm_reachable (NatsDemo.mkConn ∅ []) (after two_messages)) as Hr.
  { exists two_messages. vm_compute. reflexivity. }
  assert (nm_subs (after two_messages) !! 0%nat = Some sub0) as Hk by (vm_compute; reflexivity).
  split; [exact Hr|]. split; [exact Hk|]. exact (proj1 (nats_messaging_delivery _ _ _ _ Hr Hk)).
Defined.

Lemma nats_messaging_close_witness :
  ∃ n m' s', (n ≤ 2)%nat ∧ nm_run (replicate n (NmGoroutine 0)) (after two_messages) = Some m' ∧
    nm_subs m' !! 0%nat = Some s' ∧ ns_closed s' = true.
Proof.
  apply (nats_messaging_close (NatsDemo.mkConn ∅ []) (after two_messages) 0 sub0).
  - exists two_messages. vm_compute. reflexivity.
  - vm_compute. reflexivity.
  - vm_compute. reflexivity.
  - reflexivity.
Defined.

(** A callback that is running when the channel is closed panics. *)
Example callback_panics :
  nm_panicked <$> nm_run [NmSubscribe "t"; NmDeliver 0 [1]; NmCancel 0; NmGoroutine 0; NmGoroutine 0;
    NmSelect 0 ChSend] start = Some true.
Proof. vm_compute. reflexivity. Qed.

(** The topic was unsubscribed and subscribed again; then the context of the first
    subscription ends and takes the second one with it, whose channel stays open. *)
Example old_context_ends_new_subscription :
  let m := after [NmSubscribe "t"; NmUnsubscribe "t"; NmSubscribe "t"; NmCancel 0; NmGoroutine 0; NmGoroutine 0] in
  nm_subscriptions m = ∅ ∧ nc_live (nm_conn m) = ∅ ∧
  (λ s, (ns_cancelled s, ns_closed s)) <$> nm_subs m !! 1%nat = Some (false, false).
Proof. vm_compute. split_and!; reflexivity. Qed.

(** A connection whose first flush fails. *)
Record flaky_conn := mkFlaky { fc_failures : nat; fc_conn : NatsDemo.conn }.
#[refine] Instance flaky_nats : NatsConn flaky_conn := {|
  nc_live c := nc_live (fc_conn c);
  nc_published c := nc_published (fc_conn c);
  nc_Publish subject data c := let '(c', ok) := nc_Publish subject data (fc_conn c) in (mkFlaky (fc_failures c) c', ok);
  nc_Flush c := match fc_failures c with O => (c, true) | S n => (mkFlaky n (fc_conn c), false) end;
  nc_Subscribe subject group c :=
    let '(c', r) := nc_Subscribe subject group (fc_conn c) in (mkFlaky (fc_failures c) c', r);
  nc_Unsubscribe id c := let '(c', ok) := nc_Unsubscribe id (fc_conn c) in (mkFlaky (fc_failures c) c', ok);
  nc_Close c := mkFlaky (fc_failures c) (nc_Close (fc_conn c)) |}.
Proof.
  - intros subject data c c' ok. destruct (nc_Publish _ _ _) as [c1 ok1] eqn:E. intros [= <- <-].
    exact (nc_Publish_spec _ _ _ _ _ E).
  - intros c c' ok. by destruct (fc_failures c); intros [= <- <-].
  - intros subject group c c' r. destruct (nc_Subscribe _ _ _) as [c1 r1] eqn:E. intros [= <- <-].
    exact (nc_Subscribe_spec _ _ _ _ _ E).
  - intros id c c' ok. destruct (nc_Unsubscribe _ _) as [c1 ok1] eqn:E. intros [= <- <-].
    exact (nc_Unsubscribe_spec _ _ _ _ E).
Defined.

Definition flaky_backend : NATSMessagingBackend flaky_conn :=
  mkNATSMessaging (mkFlaky 1 (NatsDemo.mkConn ∅ [])) ∅ [] false.

(** The multicast retries a message that only could not be flushed: one target gets it
    twice, and the response reports one delivery each. *)
Example failed_flush_duplicates :
  match Multicast DefaultConfig [1; 2] (λ _, 12) None [0; 1; 0]%nat CoordinatorDemo.two flaky_backend with
  | Some (resp, m) => mr_DeliveredCount resp = 2%nat ∧ length (nc_published (nm_conn m)) = 3%nat
  | None => False
  end.
Proof. vm_compute. split; reflexivity. Qed.

Definition msg (n : Z) : PubSubMessage := mkPubSubMessage "id" "t" [n] ∅ 0.
Definition piped : pipe := mkPipe [] true None [[1]] false [msg 1] [].

Lemma adapter_subscription_lossless_witness :
  run_labels pipe_exec [PipeSource (msg 1); PipeForward; PipeForward; PipeCloseSource] new_pipe = Some piped ∧
  ∃ ls' p', run_labels pipe_exec ls' piped = Some p' ∧ pp_taken p' = [[1]] ∧ pp_out_closed p' = true.
Proof.
  assert (run_labels pipe_exec [PipeSource (msg 1); PipeForward; PipeForward; PipeCloseSource] new_pipe = Some piped)
    as E by (vm_compute; reflexivity).
  split; [exact E|]. destruct (adapter_subscription_lossless _ _ E) as (_ & _ & H). exact (H eq_refl).
Defined.
End BackendsDemo.
