(* ===== verification/Mailbox.v ===== *)
(** * patterns/mailbox: messages into a table

    The mailbox of mailbox.go and config.go over the class [EventTable], what it relies
    on of a table driver (pkg/plugin/interfaces.go).  [consume] runs in a goroutine for
    each [Start]; its program counters are [consumer_pc] and [mb_exec] runs one step of
    one goroutine or one call of the public methods.  The message source is the
    environment: a step delivers a message, or nil when the channel is closed.  The
    field [mb_log] is a history: every message that was written, with the outcome.
    Writer and reader are slots for the same driver, as in mailbox-runner. *)

From S2P Require Import Prelude Backoff Memstore MemPubSub Slots Sqlite SqliteSpec.
Import GoFloat.
Local Open Scope Z_scope.

(** ** What the mailbox relies on *)

(** The boolean of a write is whether it returned no error; a write that fails may have
    taken effect.  [et_up]: the driver answers. *)
Class EventTable (T : Type) := {
  et_holds : T → list MailboxEvent → Prop;
  et_up : T → bool;
  et_WriteEvent : Z → MailboxEvent → T → T * bool;
  et_QueryEvents : EventFilter → T → option (list MailboxEvent);
  et_GetEvent : string → T → option MailboxEvent;
  et_GetTableStats : T → option TableStats;
  et_write now e t es t' ok :
    et_holds t es → ascii_headers (ev_CustomHeaders e) → et_WriteEvent now e t = (t', ok) →
    et_holds t' (es ++ [e]) ∨ ok = false ∧ et_holds t' es;
  et_get t es e :
    et_holds t es → et_up t = true → e ∈ es → et_GetEvent (ev_MessageID e) t = Some e }.

Definition to_option {E A} (r : result E A) : option A :=
  match r with Ok a => Some a | _ => None end.

(** The SQLite driver is such a table. *)
#[export, refine] Instance Driver_EventTable {table D} `{!SqlDB table D, !JsonHeaders}
  : EventTable (@Driver D) := {|
  et_holds d es := ∃ db, holds table d db es;
  et_up d := match dr_db d with Some db => db_up (table := table) db | None => false end;
  et_WriteEvent now e d := let '(d', r) := WriteEvent table now e d in (d', is_ok r);
  et_QueryEvents f d := to_option (QueryEvents table f d);
  et_GetEvent id d := to_option (GetEvent table id d);
  et_GetTableStats d := to_option (GetTableStats table d) |}.
Proof.
  - intros now e d es d' ok [db Hh] Ha. destruct (WriteEvent table now e d) as [d1 r] eqn:E.
    intros [= <- <-].
    destruct (WriteEvent_holds _ _ _ _ _ _ _ _ Hh Ha E) as [(db' & Hh' & _)|(db' & Hh' & ->)];
      [left; by eexists|right; split; [done|by eexists]].
  - intros d es e [db Hh]. rewrite (ho_db _ _ _ _ Hh). intros Hup Hin.
    rewrite (GetEvent_holds _ _ _ _ _ Hh Hup).
    by rewrite (filter_by_id _ _ (holds_ids _ _ _ _ Hh) Hin).
Defined.

(** ** config.go *)

Record BehaviorConfig := mkBehaviorConfig {
  bc_Topic : string;
  bc_ConsumerGroup : string;
  bc_AutoCommit : bool }.
Record StorageConfig := mkStorageConfig {
  sc_DatabasePath : string;
  sc_TableName : string;
  sc_RetentionDays : Z;
  sc_CleanupInterval : Z }.
Record MailboxConfig := mkMailboxConfig {
  mc_Name : string;
  mc_Behavior : BehaviorConfig;
  mc_Storage : StorageConfig }.

Inductive mailbox_error :=
  | ErrMailboxName | ErrTopicRequired | ErrConsumerGroup | ErrDatabasePath
  | ErrBindRunning | ErrSource | ErrWriterRequired
  | ErrRunning | ErrSourceUnbound | ErrWriterUnbound
  | ErrReaderUnbound | ErrReader.

(** [Validate]: the configuration with its defaults. *)
Definition Mailbox_Validate (c : MailboxConfig) : result mailbox_error MailboxConfig :=
  let b := mc_Behavior c in
  let s := mc_Storage c in
  if bool_decide (mc_Name c = ""%string) then Err ErrMailboxName
  else if bool_decide (bc_Topic b = ""%string) then Err ErrTopicRequired
  else if bool_decide (bc_ConsumerGroup b = ""%string) then Err ErrConsumerGroup
  else if bool_decide (sc_DatabasePath s = ""%string) then Err ErrDatabasePath
  else
    Ok (mkMailboxConfig (mc_Name c) b
          (mkStorageConfig (sc_DatabasePath s)
             (if bool_decide (sc_TableName s = ""%string) then "mailbox" else sc_TableName s)
             (if sc_RetentionDays s <=? 0 then 90 else sc_RetentionDays s)
             (if sc_CleanupInterval s <=? 0 then 24 * (60 * Minute) else sc_CleanupInterval s))).

(** ** Headers *)

Definition header (key : string) (md : str_map) : string := default ""%string (md !! key).

(** [len(key) > 2 && key[:2] == "x-"]. *)
Definition is_custom (key : string) : bool :=
  (2 <? String.length key)%nat && bool_decide (String.substring 0 2 key = "x-"%string).

(** The loop over the metadata, which Go visits in any order. *)
Fixpoint custom_headers (kvs : list (string * string)) (m : str_map) : str_map :=
  match kvs with
  | [] => m
  | (key, val) :: kvs => custom_headers kvs (if is_custom key then <[key := val]> m else m)
  end.

(** The event of a message; [kvs] is the metadata in the order of the loop. *)
Definition message_event (msg : PubSubMessage) (kvs : list (string * string)) : MailboxEvent :=
  let md := pm_Metadata msg in
  mkMailboxEvent (pm_MessageID msg) (pm_Timestamp msg) (pm_Topic msg)
    (header "prism-content-type" md) (header "prism-schema-id" md) (header "prism-encryption" md)
    (header "prism-correlation-id" md) (header "prism-principal" md) (header "prism-namespace" md)
    (custom_headers kvs ∅) (pm_Payload msg).

(** ** State *)

(** What a message source implements. *)
Inductive source := PubSub | Queue | PubSubQueue | NoSource.

Record MailboxMetrics := mkMailboxMetrics {
  mm_EventsReceived : Z;
  mm_EventsStored : Z;
  mm_EventsFailed : Z;
  mm_BytesStored : Z;
  mm_LastEventTime : Z;
  mm_ProcessingLatency : Z }.

(** Where [consume] is; contexts are numbered by [Start]. *)
Inductive consumer_pc :=
  | CSubscribe
  | CLoop
  | CSelect (ctx : nat)
  | CStore (start : Z) (msg : PubSubMessage)
  | CCount (start : Z) (msg : PubSubMessage) (ok : bool)
  | CReceived
  | CExit
  | CGone.

Section Mailbox.
Context {T : Type} `{!EventTable T}.

Record Mailbox := mkMailbox {
  mb_name : string;
  mb_config : MailboxConfig;
  mb_source : option source;
  mb_writer : bool  (* tableWriter is bound *);
  mb_reader : bool  (* tableReader is bound *);
  mb_table : T;
  mb_running : bool;
  mb_ctx : nat;
  mb_cancelled : gset nat;
  mb_metrics : MailboxMetrics;
  mb_consumers : list consumer_pc;
  mb_log : list (PubSubMessage * bool) }.

Definition Mailbox_New (config : MailboxConfig) (table : T) : result mailbox_error Mailbox :=
  (config <-! Mailbox_Validate config;
   Ok (mkMailbox (mc_Name config) config None false false table false 0 ∅
         (mkMailboxMetrics 0 0 0 0 0 0) [] []))%go.

Definition set_slots (source : option source) (writer reader : bool) (m : Mailbox) : Mailbox :=
  mkMailbox (mb_name m) (mb_config m) source writer reader (mb_table m) (mb_running m) (mb_ctx m)
    (mb_cancelled m) (mb_metrics m) (mb_consumers m) (mb_log m).
Definition set_running (running : bool) (m : Mailbox) : Mailbox :=
  mkMailbox (mb_name m) (mb_config m) (mb_source m) (mb_writer m) (mb_reader m) (mb_table m) running
    (mb_ctx m) (mb_cancelled m) (mb_metrics m) (mb_consumers m) (mb_log m).
Definition set_contexts (ctx : nat) (cancelled : gset nat) (m : Mailbox) : Mailbox :=
  mkMailbox (mb_name m) (mb_config m) (mb_source m) (mb_writer m) (mb_reader m) (mb_table m)
    (mb_running m) ctx cancelled (mb_metrics m) (mb_consumers m) (mb_log m).
Definition set_mmetrics (metrics : MailboxMetrics) (m : Mailbox) : Mailbox :=
  mkMailbox (mb_name m) (mb_config m) (mb_source m) (mb_writer m) (mb_reader m) (mb_table m)
    (mb_running m) (mb_ctx m) (mb_cancelled m) metrics (mb_consumers m) (mb_log m).
Definition set_consumers (cs : list consumer_pc) (m : Mailbox) : Mailbox :=
  mkMailbox (mb_name m) (mb_config m) (mb_source m) (mb_writer m) (mb_reader m) (mb_table m)
    (mb_running m) (mb_ctx m) (mb_cancelled m) (mb_metrics m) cs (mb_log m).
Definition set_table (table : T) (log : list (PubSubMessage * bool)) (m : Mailbox) : Mailbox :=
  mkMailbox (mb_name m) (mb_config m) (mb_source m) (mb_writer m) (mb_reader m) table
    (mb_running m) (mb_ctx m) (mb_cancelled m) (mb_metrics m) (mb_consumers m) log.

(** ** Methods *)

(** The source is bound before the writer is looked at. *)
Definition BindSlots (messageSource : source) (tableWriter tableReader : bool) (m : Mailbox)
    : Mailbox * option mailbox_error :=
  if mb_running m then (m, Some ErrBindRunning)
  else match messageSource with
  | NoSource => (m, Some ErrSource)
  | src =>
      if negb tableWriter then (set_slots (Some src) (mb_writer m) (mb_reader m) m, Some ErrWriterRequired)
      else (set_slots (Some src) true tableReader m, None)
  end.

(** A new context, and a goroutine that runs [consume]. *)
Definition Mailbox_Start (m : Mailbox) : Mailbox * option mailbox_error :=
  if mb_running m then (m, Some ErrRunning)
  else if bool_decide (mb_source m = None) then (m, Some ErrSourceUnbound)
  else if negb (mb_writer m) then (m, Some ErrWriterUnbound)
  else
    (set_consumers (mb_consumers m ++ [CSubscribe])
       (set_running true (set_contexts (S (mb_ctx m)) (mb_cancelled m) m)), None).

Definition Mailbox_Stop (m : Mailbox) : Mailbox :=
  if negb (mb_running m) then m
  else set_running false (set_contexts (mb_ctx m) ({[mb_ctx m]} ∪ mb_cancelled m) m).

(** [storeMessage]: extract the headers and write. *)
Definition storeMessage (now : Z) (msg : PubSubMessage) (kvs : list (string * string)) (m : Mailbox)
    : Mailbox * bool :=
  let '(table, ok) := et_WriteEvent now (message_event msg kvs) (mb_table m) in
  (set_table table (mb_log m ++ [(msg, ok)]) m, ok).

(** The section of [consume] that counts the outcome. *)
Definition count_outcome (now start : Z) (msg : PubSubMessage) (ok : bool) (mm : MailboxMetrics)
    : MailboxMetrics :=
  if ok then
    mkMailboxMetrics (mm_EventsReceived mm) (mm_EventsStored mm + 1) (mm_EventsFailed mm)
      (mm_BytesStored mm + Z.of_nat (length (pm_Payload msg))) now (now - start)
  else
    mkMailboxMetrics (mm_EventsReceived mm) (mm_EventsStored mm) (mm_EventsFailed mm + 1)
      (mm_BytesStored mm) (mm_LastEventTime mm) (mm_ProcessingLatency mm).
Definition count_received (mm : MailboxMetrics) : MailboxMetrics :=
  mkMailboxMetrics (mm_EventsReceived mm + 1) (mm_EventsStored mm) (mm_EventsFailed mm)
    (mm_BytesStored mm) (mm_LastEventTime mm) (mm_ProcessingLatency mm).

(** *** Queries *)

Definition Mailbox_QueryEvents (f : EventFilter) (m : Mailbox)
    : result mailbox_error (list MailboxEvent) :=
  if negb (mb_reader m) then Err ErrReaderUnbound
  else match et_QueryEvents f (mb_table m) with Some es => Ok es | None => Err ErrReader end.

Definition Mailbox_GetEvent (id : string) (m : Mailbox) : result mailbox_error MailboxEvent :=
  if negb (mb_reader m) then Err ErrReaderUnbound
  else match et_GetEvent id (mb_table m) with Some e => Ok e | None => Err ErrReader end.

(** The table's statistics are left out when they cannot be had. *)
Definition GetStats (m : Mailbox) : MailboxMetrics * option TableStats :=
  (mb_metrics m, if mb_writer m then et_GetTableStats (mb_table m) else None).

Inductive mailbox_health := Operating | NotRunning | HighFailureRate (rate : float64).

Definition f64_div : float64 → float64 → float64 := SpecFloat.SFdiv 53 1024.

Definition Mailbox_Health (m : Mailbox) : mailbox_health :=
  let mm := mb_metrics m in
  let failureRate := f64_div (f64_of_int (mm_EventsFailed mm)) (f64_of_int (mm_EventsReceived mm)) in
  if (0 <? mm_EventsReceived mm) && f64_ltb f64_tenth failureRate then HighFailureRate failureRate
  else if mb_running m then Operating else NotRunning.

(** ** The system *)

Inductive mb_label :=
  | MBind (src : source) (writer reader : bool)
  | MStart
  | MStop
  | MSubscribe (g : nat) (ok : bool)
  | MLoop (g : nat)
  | MDone (g : nat)
  | MReceive (g : nat) (now : Z) (msg : option PubSubMessage)
  | MStore (g : nat) (now : Z) (kvs : list (string * string))
  | MCount (g : nat) (now : Z)
  | MExit (g : nat).

Definition goto (g : nat) (pc : consumer_pc) (m : Mailbox) : Mailbox :=
  set_consumers (<[g := pc]> (mb_consumers m)) m.

(** A step of goroutine [g] of [consume].  The context is read at each round of the
    loop. *)
Definition consume (l : mb_label) (g : nat) (pc : consumer_pc) (m : Mailbox) : option Mailbox :=
  match l, pc with
  | MSubscribe _ ok, CSubscribe => Some (goto g (if ok then CLoop else CExit) m)
  | MLoop _, CLoop => Some (goto g (CSelect (mb_ctx m)) m)
  | MDone _, CSelect ctx =>
      if bool_decide (ctx ∈ mb_cancelled m) then Some (goto g CExit m) else None
  | MReceive _ now msg, CSelect _ =>
      Some (goto g (match msg with Some msg => CStore now msg | None => CLoop end) m)
  | MStore _ now kvs, CStore start msg =>
      if bool_decide (kvs ≡ₚ map_to_list (pm_Metadata msg)) then
        let '(m, ok) := storeMessage now msg kvs m in Some (goto g (CCount start msg ok) m)
      else None
  | MCount _ now, CCount start msg ok =>
      Some (goto g CReceived (set_mmetrics (count_outcome now start msg ok (mb_metrics m)) m))
  | MCount _ _, CReceived =>
      Some (goto g CLoop (set_mmetrics (count_received (mb_metrics m)) m))
  | MExit _, CExit => Some (goto g CGone (set_running false m))
  | _, _ => None
  end.

Definition mb_exec (l : mb_label) (m : Mailbox) : option Mailbox :=
  match l with
  | MBind src writer reader => Some (BindSlots src writer reader m).1
  | MStart => Some (Mailbox_Start m).1
  | MStop => Some (Mailbox_Stop m)
  | MSubscribe g _ | MLoop g | MDone g | MReceive g _ _ | MStore g _ _ | MCount g _ | MExit g =>
      pc ← mb_consumers m !! g; consume l g pc m
  end.

Definition mb_run : list mb_label → Mailbox → option Mailbox := run_labels mb_exec.

Inductive mb_reachable (table : T) : Mailbox → Prop :=
  | mb_reach_new config m : Mailbox_New config table = Ok m → mb_reachable table m
  | mb_reach_step m l m' : mb_reachable table m → mb_exec l m = Some m' → mb_reachable table m'.
End Mailbox.
