(* ===== verification/MailboxSpec.v ===== *)
(** * Correctness of the mailbox

    The headers of a message end up in the right columns whatever the order of the
    metadata; every message that was counted as stored can be read back by its id; the
    counters add up in every interleaving of consumers; and what becomes of a mailbox
    that is restarted, or fed by a driver whose timestamps are seconds. *)

From S2P Require Import Prelude Backoff Memstore MemPubSub Slots Sqlite SqliteSpec SqliteDemo Nats Mailbox.
Local Open Scope Z_scope.

(** ** Headers *)

(** The event of a message, without the loop. *)
Definition event_of (msg : PubSubMessage) : MailboxEvent :=
  let md := pm_Metadata msg in
  mkMailboxEvent (pm_MessageID msg) (pm_Timestamp msg) (pm_Topic msg)
    (header "prism-content-type" md) (header "prism-schema-id" md) (header "prism-encryption" md)
    (header "prism-correlation-id" md) (header "prism-principal" md) (header "prism-namespace" md)
    (filter (λ kv, is_custom kv.1 = true) md) (pm_Payload msg).

Lemma custom_headers_spec kvs m :
  NoDup kvs.*1 →
  custom_headers kvs m = filter (λ kv, is_custom kv.1 = true) (list_to_map kvs : str_map) ∪ m.
Proof.
  revert m. induction kvs as [|[k v] kvs IH]; intros m Hn; cbn [custom_headers list_to_map foldr].
  - by rewrite map_filter_empty, (left_id_L ∅ (∪)).
  - cbn [fmap list_fmap fst] in Hn. apply NoDup_cons in Hn as [Hk Hn].
    rewrite IH by done. cbn [uncurry fst snd]. fold (list_to_map kvs : str_map).
    assert ((list_to_map kvs : str_map) !! k = None) as Hl by by apply not_elem_of_list_to_map_1.
    destruct (is_custom k) eqn:Hc.
    + rewrite map_filter_insert_True by done. rewrite <- insert_union_l, insert_union_r; [done|].
      apply map_lookup_filter_None. by left.
    + rewrite map_filter_insert_False by (simpl; congruence). by rewrite delete_id.
Qed.

Lemma message_event_spec msg kvs :
  kvs ≡ₚ map_to_list (pm_Metadata msg) → message_event msg kvs = event_of msg.
Proof.
  intros Hp. unfold message_event, event_of. f_equal. rewrite custom_headers_spec.
  - rewrite (right_id_L ∅ (∪)). f_equal. rewrite <- (list_to_map_to_list (pm_Metadata msg)).
    apply list_to_map_proper; [|done]. rewrite Hp. apply NoDup_fst_map_to_list.
  - rewrite Hp. apply NoDup_fst_map_to_list.
Qed.

(** ** Counters *)

Section Spec.
Context {T : Type} `{!EventTable T}.
Implicit Types (m : @Mailbox T).

Definition total {A} (f : A → Z) (l : list A) : Z := foldr (λ a n, f a + n) 0 l.

Lemma total_app {A} (f : A → Z) l1 l2 : total f (l1 ++ l2) = total f l1 + total f l2.
Proof. induction l1 as [|a l1 IH]; [done|]. simpl. rewrite IH. lia. Qed.

Lemma total_insert {A} (f : A → Z) l i a b :
  l !! i = Some a → total f (<[i := b]> l) = total f l - f a + f b.
Proof.
  intros Hi. rewrite <- (take_drop_middle l i a Hi) at 2.
  rewrite insert_take_drop by (by apply lookup_lt_Some in Hi).
  rewrite !total_app. simpl. lia.
Qed.

(** What a goroutine still has to add to the counters. *)
Definition owes_stored (pc : consumer_pc) : Z := match pc with CCount _ _ true => 1 | _ => 0 end.
Definition owes_failed (pc : consumer_pc) : Z := match pc with CCount _ _ false => 1 | _ => 0 end.
Definition owes_received (pc : consumer_pc) : Z := match pc with CReceived => 1 | _ => 0 end.
Definition owes_bytes (pc : consumer_pc) : Z :=
  match pc with CCount _ msg true => Z.of_nat (length (pm_Payload msg)) | _ => 0 end.

Definition is_stored (x : PubSubMessage * bool) : Z :=
  match x with (_, true) => 1 | _ => 0 end.
Definition is_failed (x : PubSubMessage * bool) : Z :=
  match x with (_, false) => 1 | _ => 0 end.
Definition stored_bytes (x : PubSubMessage * bool) : Z :=
  match x with (msg, true) => Z.of_nat (length (pm_Payload msg)) | _ => 0 end.

(** The counters, with what the goroutines owe, are those of the history. *)
Record accounts m : Prop := {
  ac_stored : mm_EventsStored (mb_metrics m) + total owes_stored (mb_consumers m) =
              total is_stored (mb_log m);
  ac_failed : mm_EventsFailed (mb_metrics m) + total owes_failed (mb_consumers m) =
              total is_failed (mb_log m);
  ac_bytes : mm_BytesStored (mb_metrics m) + total owes_bytes (mb_consumers m) =
             total stored_bytes (mb_log m);
  ac_received : mm_EventsReceived (mb_metrics m) + total owes_received (mb_consumers m) =
                mm_EventsStored (mb_metrics m) + mm_EventsFailed (mb_metrics m) }.

(** A goroutine that moves between two places where it owes nothing. *)
Definition owes_nothing (pc : consumer_pc) : Prop :=
  match pc with CCount _ _ _ | CReceived => False | _ => True end.

Lemma accounts_move g pc pc' m :
  mb_consumers m !! g = Some pc → owes_nothing pc → owes_nothing pc' →
  accounts m → accounts (goto g pc' m).
Proof.
  intros Hg Hpc Hpc' [A1 A2 A3 A4]. split; simpl; rewrite (total_insert _ _ _ _ _ Hg);
    destruct pc; try done; destruct pc'; try done; simpl; lia.
Qed.

Lemma accounts_same m m' :
  mb_metrics m' = mb_metrics m → mb_consumers m' = mb_consumers m → mb_log m' = mb_log m →
  accounts m → accounts m'.
Proof. intros E1 E2 E3 [A1 A2 A3 A4]. split; by rewrite E1, ?E2, ?E3. Qed.

Lemma accounts_consume l g pc m m' :
  mb_consumers m !! g = Some pc → consume l g pc m = Some m' → accounts m → accounts m'.
Proof.
  intros Hg Hc Hacc. destruct l; destruct pc; simpl in Hc; try done; simplify_eq.
  - apply (accounts_move g CSubscribe); [done|done|by case_match|done].
  - by apply (accounts_move g CLoop).
  - case_bool_decide; simplify_eq. by apply (accounts_move g (CSelect ctx)).
  - apply (accounts_move g (CSelect ctx)); [done|done|by case_match|done].
  - case_bool_decide; simplify_eq. unfold storeMessage in Hc.
    destruct (et_WriteEvent _ _ _) as [t ok]. simplify_eq. destruct Hacc as [A1 A2 A3 A4].
    split; simpl; rewrite (total_insert _ _ _ _ _ Hg), ?total_app; simpl;
      destruct ok; simpl; lia.
  - destruct Hacc as [A1 A2 A3 A4].
    split; simpl; rewrite (total_insert _ _ _ _ _ Hg); destruct ok; simpl; lia.
  - destruct Hacc as [A1 A2 A3 A4]. split; simpl; rewrite (total_insert _ _ _ _ _ Hg); simpl; lia.
  - apply (accounts_move g CExit); [done|done|done|]. by apply (accounts_same m).
Qed.

Lemma accounts_exec l m m' : mb_exec l m = Some m' → accounts m → accounts m'.
Proof.
  intros He Hacc.
  destruct l; cbn [mb_exec] in He;
    try (apply bind_Some in He as (pc & Hg & Hc); by eapply accounts_consume).
  - injection He as <-. unfold BindSlots. repeat case_match; by apply (accounts_same m).
  - injection He as <-. unfold Mailbox_Start. repeat case_match; try done.
    destruct Hacc as [A1 A2 A3 A4]. split; simpl; rewrite total_app; simpl; lia.
  - injection He as <-. unfold Mailbox_Stop. case_match; by apply (accounts_same m).
Qed.

Lemma accounts_reachable t m : mb_reachable t m → accounts m.
Proof.
  induction 1 as [config m Hn|m l m' _ IH He]; [|by eapply accounts_exec].
  unfold Mailbox_New in Hn. destruct (Mailbox_Validate config); simplify_eq. by split.
Qed.

(** The counters add up in every interleaving: what was counted as stored and as
    failed, with what the consumers are about to count, are the writes that succeeded
    and that failed, the bytes are the payloads of the former, and received is stored
    plus failed but for the consumers between the two counts.  When no consumer is in
    the middle of a message the counters are exact. *)
Theorem mailbox_counters t m :
  mb_reachable t m →
  accounts m ∧
  (Forall owes_nothing (mb_consumers m) →
   mm_EventsStored (mb_metrics m) = total is_stored (mb_log m) ∧
   mm_EventsFailed (mb_metrics m) = total is_failed (mb_log m) ∧
   mm_BytesStored (mb_metrics m) = total stored_bytes (mb_log m) ∧
   mm_EventsReceived (mb_metrics m) = Z.of_nat (length (mb_log m))).
Proof.
  intros Hr%accounts_reachable. split; [done|]. intros Hq. destruct Hr as [A1 A2 A3 A4].
  assert (∀ f, (∀ pc, owes_nothing pc → f pc = 0) → total f (mb_consumers m) = 0) as H0.
  { intros f Hf. clear -Hq Hf. induction Hq as [|pc cs Hpc _ IH]; [done|]. simpl. rewrite IH, Hf; done. }
  rewrite H0 in A1, A2, A3, A4 by (by intros []).
  assert (total is_stored (mb_log m) + total is_failed (mb_log m) = Z.of_nat (length (mb_log m))) as Hl.
  { clear. induction (mb_log m) as [|[msg []] l IH]; simpl; lia. }
  split_and!; lia.
Qed.

(** ** The table *)

(** What the writes of a history put into the table. *)
Inductive outcome : list (PubSubMessage * bool) → list MailboxEvent → Prop :=
  | outcome_nil : outcome [] []
  | outcome_write log es msg ok : outcome log es → outcome (log ++ [(msg, ok)]) (es ++ [event_of msg])
  | outcome_lost log es msg : outcome log es → outcome (log ++ [(msg, false)]) es.

Lemma outcome_stored log es msg : outcome log es → (msg, true) ∈ log → event_of msg ∈ es.
Proof.
  induction 1 as [|log es msg' ok _ IH|log es msg' _ IH].
  - by intros ?%elem_of_nil.
  - rewrite elem_of_app, list_elem_of_singleton. intros [?|[= <- <-]]; set_solver.
  - rewrite elem_of_app, list_elem_of_singleton. intros [?|[=]]; auto.
Qed.

Definition message_ok (msg : PubSubMessage) : Prop := ascii_headers (pm_Metadata msg).

Lemma message_ok_event msg : message_ok msg → ascii_headers (ev_CustomHeaders (event_of msg)).
Proof. intros H k v [Hk _]%map_lookup_filter_Some. by apply (H k v). Qed.

Definition table_inv es0 m : Prop :=
  Forall message_ok (mb_log m).*1 → ∃ es, et_holds (mb_table m) (es0 ++ es) ∧ outcome (mb_log m) es.

Lemma table_inv_same es0 m m' :
  mb_table m' = mb_table m → mb_log m' = mb_log m → table_inv es0 m → table_inv es0 m'.
Proof. unfold table_inv. by intros -> ->. Qed.

Lemma table_inv_consume es0 l g pc m m' :
  consume l g pc m = Some m' → table_inv es0 m → table_inv es0 m'.
Proof.
  intros Hc Hinv.
  destruct l; destruct pc; simpl in Hc; try done; try (simplify_eq; by apply (table_inv_same es0 m)).
  - case_bool_decide; simplify_eq. by apply (table_inv_same es0 m).
  - case_bool_decide as Hp; [|done]. unfold storeMessage in Hc.
    destruct (et_WriteEvent now (message_event msg kvs) (mb_table m)) as [t ok] eqn:Hw. simplify_eq.
    intros Hok. simpl in *. rewrite fmap_app, Forall_app in Hok. destruct Hok as [Hl Hm].
    apply Forall_cons in Hm as [Hm _]. cbn [fst] in Hm. destruct (Hinv Hl) as (es & Hh & Ho).
    rewrite message_event_spec in Hw by done.
    destruct (et_write _ _ _ _ _ _ Hh (message_ok_event _ Hm) Hw) as [Hh'|[-> Hh']].
    + exists (es ++ [event_of msg]). rewrite app_assoc. split; [done|by constructor].
    + exists es. split; [done|by constructor].
Qed.

Lemma table_inv_reachable es0 t m : mb_reachable t m → et_holds t es0 → table_inv es0 m.
Proof.
  intros Hr Ht. induction Hr as [config m Hn|m l m' _ IH He].
  - unfold Mailbox_New in Hn. destruct (Mailbox_Validate config); simplify_eq. intros _.
    exists []. rewrite app_nil_r. split; [done|constructor].
  - destruct l; cbn [mb_exec] in He;
      try (apply bind_Some in He as (pc & _ & Hc); by eapply table_inv_consume).
    + injection He as <-. unfold BindSlots. repeat case_match; by apply (table_inv_same es0 m).
    + injection He as <-. unfold Mailbox_Start. repeat case_match; by apply (table_inv_same es0 m).
    + injection He as <-. unfold Mailbox_Stop. case_match; by apply (table_inv_same es0 m).
Qed.

(** A message that was stored is found: in every reachable state of a mailbox whose
    messages have ASCII headers, the table holds what it held before followed by the
    events of the messages written, in the order of the writes, and each message whose
    write succeeded is answered by its id, with its headers in their columns and the
    [x-] headers apart, when the reader is bound and the table answers. *)
Theorem stored_message_is_found t es0 m :
  mb_reachable t m → et_holds t es0 → Forall message_ok (mb_log m).*1 →
  (∃ es, et_holds (mb_table m) (es0 ++ es) ∧ outcome (mb_log m) es) ∧
  (∀ msg, (msg, true) ∈ mb_log m → mb_reader m = true → et_up (mb_table m) = true →
     Mailbox_GetEvent (pm_MessageID msg) m = Ok (event_of msg)).
Proof.
  intros Hr Ht Hok. destruct (table_inv_reachable _ _ _ Hr Ht Hok) as (es & Hh & Ho).
  split; [by exists es|]. intros msg Hin Hrd Hup. unfold Mailbox_GetEvent. rewrite Hrd. simpl.
  change (pm_MessageID msg) with (ev_MessageID (event_of msg)).
  rewrite (et_get _ _ (event_of msg) Hh Hup); [done|].
  apply elem_of_app. right. by eapply outcome_stored.
Qed.
End Spec.

(** ** The mailbox of mailbox-runner: NATS into SQLite *)

(** The first of January 2020. *)
Definition year_2020 : Z := 1577836800 * Second.

(** An event that came from NATS by the time [now]. *)
Definition from_nats (now : Z) (e : MailboxEvent) : Prop :=
  ∃ nano t subject data, 0 ≤ t ≤ now ∧ e = event_of (nats_message nano t subject data).

(** The retention of the shipped mailbox deletes everything: the NATS driver stamps
    messages with seconds and the SQLite driver compares with milliseconds, so from
    2020 on a tick of the cleanup, with any retention up to 10000 days, leaves none of
    the events that came from NATS, however recent. *)
Theorem retention_discards_nats_events table {D} `{!SqlDB table D, !JsonHeaders} now days
    (d : @Driver D) db es :
  holds table d db es → db_up (table := table) db = true → 0 ≤ days ≤ 10000 →
  year_2020 ≤ now ≤ max_int64 → Forall (from_nats now) es →
  ∃ db', holds table (retention_tick table now days d) db' [].
Proof.
  intros Hh Hup Hd Hnow Hes. unfold retention_tick. rewrite cutoff_days by (unfold retention_ok; lia).
  destruct (DeleteOldEvents_up table (UnixMilli (now - days * Day)) d db es Hh Hup) as [db' Hh'].
  exists db'. rewrite filter_none in Hh'; [done|]. apply Forall_forall. intros e He.
  rewrite Forall_forall in Hes. destruct (Hes e He) as (nano & t & subject & data & Ht & ->). simpl.
  unfold UnixMilli, UnixSecond, Day, Minute, Second, Millisecond, max_int64, year_2020, Second in *.
  assert (t / 1000000000 ≤ now / 1000000000) by (apply Z.div_le_mono; lia).
  assert (now / 1000000000 ≤ 9223372037) by (apply Z.lt_succ_r, Z.div_lt_upper_bound; lia).
  assert (700000000000 ≤ (now - days * (24 * (60 * (60 * 1000000000)))) / 1000000)
    by (apply Z.div_le_lower_bound; lia).
  lia.
Qed.

(** ** Runs *)

Module MailboxDemo.
Definition config : MailboxConfig :=
  mkMailboxConfig "m" (mkBehaviorConfig "t" "g" false) (mkStorageConfig "db" "" 0 0).
Definition start : @Mailbox (@Driver Table) :=
  match Mailbox_New config fresh with
  | Ok m => m
  | _ => mkMailbox "" config None false false fresh false 0 ∅ (mkMailboxMetrics 0 0 0 0 0 0) [] []
  end.
Definition after (ls : list mb_label) : @Mailbox (@Driver Table) := default start (mb_run ls start).

Lemma after_mb_reachable ls : is_Some (mb_run ls start) → mb_reachable fresh (after ls).
Proof.
  intros [m E]. unfold after. rewrite E. simpl.
  assert (mb_reachable fresh start) as Hr by (by apply (mb_reach_new _ config)).
  by eapply (run_labels_invariant _ _ _ _ _ (mb_reach_step _)).
Qed.

Definition metadata : str_map :=
  <["x-k"%string := "v"%string]> (<["x-"%string := "w"%string]> {["prism-principal"%string := "bob"%string]}).
Definition message (id : string) : PubSubMessage := mkPubSubMessage id "t" [1; 2; 3] metadata 5.
Definition begin : list mb_label := [MBind PubSub true true; MStart; MSubscribe 0 true].
(** Goroutine [g] receives and stores a message. *)
Definition receive (g : nat) (id : string) : list mb_label :=
  [MLoop g; MReceive g 1 (Some (message id)); MStore g 2 (map_to_list metadata)].
Definition counted (g : nat) : list mb_label := [MCount g 3; MCount g 3].
Definition two_messages : list mb_label :=
  begin ++ receive 0 "1" ++ counted 0 ++ receive 0 "1" ++ counted 0.

Lemma mailbox_counters_witness :
  let mm := mb_metrics (after two_messages) in
  mm_EventsStored mm = 1 ∧ mm_EventsFailed mm = 1 ∧ mm_BytesStored mm = 3 ∧ mm_EventsReceived mm = 2.
Proof.
  refine (proj2 (mailbox_counters fresh (after two_messages) _) _).
  - apply after_mb_reachable. vm_compute. eauto.
  - vm_compute. repeat constructor.
Defined.

Lemma stored_message_is_found_witness :
  Mailbox_GetEvent "1" (after two_messages) =
    Ok (mkMailboxEvent "1" 5 "t" "" "" "" "" "bob" "" {["x-k"%string := "v"%string]} [1; 2; 3]).
Proof.
  refine (proj2 (stored_message_is_found fresh [] (after two_messages) _ _ _) (message "1") _ _ _).
  - apply after_mb_reachable. vm_compute. eauto.
  - exists (db_of fresh). apply fresh_holds.
  - assert (message_ok (message "1")) as H.
    { apply map_Forall_to_list. vm_compute. repeat constructor; done. }
    assert ((mb_log (after two_messages)).*1 = [message "1"; message "1"]) as -> by (vm_compute; reflexivity).
    by rewrite !Forall_cons.
  - assert (mb_log (after two_messages) = [(message "1", true); (message "1", false)]) as ->
      by (vm_compute; reflexivity). left.
  - reflexivity.
  - reflexivity.
Defined.

Lemma retention_discards_nats_events_witness :
  let e := event_of (nats_message 7 (2 * year_2020) "t" [1]) in
  let d := (WriteEvent tbl (2 * year_2020) e fresh).1 in
  ∃ db', holds tbl (retention_tick tbl (2 * year_2020 + 1) 90 d) db' [].
Proof.
  cbv zeta. set (e := event_of _).
  refine (retention_discards_nats_events tbl (2 * year_2020 + 1) 90 _
            (db_of (WriteEvent tbl (2 * year_2020) e fresh).1) [e] _ _ _ _ _).
  - split; [done|vm_compute; reflexivity|done|]. apply Forall2_cons; split; [|by apply Forall2_nil].
    split; [|by exists (2 * year_2020)]. subst e. unfold event_of. simpl. rewrite map_filter_empty.
    apply map_Forall_empty.
  - reflexivity.
  - lia.
  - unfold max_int64, year_2020, Second. lia.
  - constructor; [|constructor]. exists 7, (2 * year_2020), "t"%string, [1].
    split; [|done]. unfold year_2020, Second. lia.
Defined.

(** A mailbox that is stopped while a message is being written, and started again: the
    first consumer picks up the new context and goes on beside the second one, and when
    it ends the mailbox counts as stopped although the second one runs. *)
Definition restarted : list mb_label :=
  begin ++ [MLoop 0; MReceive 0 1 (Some (message "1"))] ++ [MStop; MStart; MSubscribe 1 true] ++
  [MStore 0 2 (map_to_list metadata)] ++ counted 0 ++ [MLoop 0; MLoop 1].
Example restart_keeps_both_consumers :
  mb_consumers (after restarted) = [CSelect 2; CSelect 2].
Proof. vm_compute. reflexivity. Qed.
Definition stopped_early : list mb_label :=
  begin ++ [MLoop 0; MStop; MStart; MSubscribe 1 true; MLoop 1; MDone 0; MExit 0].
Example running_is_lost :
  mb_running (after stopped_early) = false ∧ mb_consumers (after stopped_early) = [CGone; CSelect 2].
Proof. vm_compute. done. Qed.

(** A source that closes its channel keeps the consumer in its loop. *)
Example closed_source_spins :
  let ls := begin ++ [MLoop 0; MReceive 0 1 None] in
  mb_consumers (after (ls ++ [MLoop 0; MReceive 0 2 None])) = mb_consumers (after ls).
Proof. vm_compute. reflexivity. Qed.
End MailboxDemo.
