(* ===== verification/Producer.v ===== *)
(** * patterns/producer: the producer pattern

    producer.go and config.go.  A producer publishes messages to its sink, at once or
    in batches, with retries, deduplication through its state store, and large
    payloads replaced by claim checks on objects in its object store.

    Parameters: [time.ParseDuration], the JSON coding of times and claim checks, and
    gzip.  A public operation reads the clock at [tc] when it looks for duplicates or
    creates a claim, and at [tr] when it records the message ids; [uuid] is the claim
    id it generates.  Operations are modelled as a whole, one after another.  Sleeping,
    log lines and latency metrics are left out, the counters are integers.

    [p.mu] is not reentrant: [PublishBatch] takes it for reading, so a call that runs
    while its own goroutine holds the lock never returns.  [None] stands for that. *)

From S2P Require Import Prelude Memstore Slots.
Local Open Scope Z_scope.

(** ** config.go *)

Record ClaimCheckConfig := mkClaimCheckConfig {
  ck_Enabled : bool;
  ck_Threshold : Z;
  ck_Bucket : string;
  ck_TTL : Z;
  ck_Compression : string }.

Record BehaviorConfig := mkBehaviorConfig {
  bc_MaxRetries : Z;
  bc_RetryBackoff : string;
  bc_BatchSize : Z;
  bc_BatchInterval : string;
  bc_Deduplication : bool;
  bc_DeduplicationWindowDuration : string;
  bc_Compression : bool;
  bc_CompressionAlgorithm : string;
  bc_ClaimCheck : option ClaimCheckConfig }.

Record ProducerConfig := mkProducerConfig {
  pc_Name : string;
  pc_Behavior : BehaviorConfig }.

Inductive producer_error :=
  | ErrNameRequired
  | ErrMaxRetries
  | ErrBatchSize
  | ErrBatchInterval
  | ErrDuration (field : string)
  | ErrSlotsRunning
  | ErrSinkInterface
  | ErrAlreadyRunning
  | ErrSinkUnbound
  | ErrNotRunning
  | ErrDedup
  | ErrClaimCheck
  | ErrPublish.

(** ** producer.go: data *)

Record Message := mkMessage {
  msg_Topic : string;
  msg_Payload : bytes;
  msg_Metadata : str_map;
  msg_ID : string }.

Record ProducerMetrics := mkProducerMetrics {
  pmx_MessagesPublished : Z;
  pmx_MessagesFailed : Z;
  pmx_MessagesDedup : Z;
  pmx_BytesPublished : Z;
  pmx_BatchesPublished : Z }.

Section Producer.
Context {Sk Kv Ob : Type} `{!MessageSink Sk, !StateStore Kv, !ObjectStore Ob}.
Context (ParseDuration : string → option Z).
Context (marshal_time : Z → option bytes) (unmarshal_time : bytes → option Z).
Context (marshal_claim : ClaimCheckMessage → option bytes).
Context (CompressGzip : bytes → option bytes).

(** An empty duration or one that parses. *)
Definition duration_ok (s : string) : bool :=
  bool_decide (s = ""%string) || bool_decide (is_Some (ParseDuration s)).

Definition Validate (c : ProducerConfig) : result producer_error ProducerConfig :=
  let b := pc_Behavior c in
  if bool_decide (pc_Name c = ""%string) then Err ErrNameRequired
  else if bc_MaxRetries b <? 0 then Err ErrMaxRetries
  else if bc_BatchSize b <? 0 then Err ErrBatchSize
  else if (0 <? bc_BatchSize b) && bool_decide (bc_BatchInterval b = ""%string)
  then Err ErrBatchInterval
  else
    let window :=
      if bc_Deduplication b && bool_decide (bc_DeduplicationWindowDuration b = ""%string)
      then "5m"%string else bc_DeduplicationWindowDuration b in
    let algorithm :=
      if bc_Compression b && bool_decide (bc_CompressionAlgorithm b = ""%string)
      then "gzip"%string else bc_CompressionAlgorithm b in
    if negb (duration_ok (bc_RetryBackoff b)) then Err (ErrDuration "retry_backoff")
    else
      let backoff :=
        if bool_decide (bc_RetryBackoff b = ""%string) then "1s"%string else bc_RetryBackoff b in
      if negb (duration_ok (bc_BatchInterval b)) then Err (ErrDuration "batch_interval")
      else if negb (duration_ok window) then Err (ErrDuration "deduplication_window")
      else
        Ok (mkProducerConfig (pc_Name c)
              (mkBehaviorConfig (bc_MaxRetries b) backoff (bc_BatchSize b) (bc_BatchInterval b)
                 (bc_Deduplication b) window (bc_Compression b) algorithm (bc_ClaimCheck b))).

Definition DeduplicationWindow (b : BehaviorConfig) : Z :=
  if bool_decide (bc_DeduplicationWindowDuration b = ""%string) then 5 * Minute
  else default 0 (ParseDuration (bc_DeduplicationWindowDuration b)).

Record Producer := mkProducer {
  pr_config : ProducerConfig;
  pr_messageSink : option Sk;
  pr_stateStore : option Kv;
  pr_objectStore : option Ob;
  pr_running : bool;
  pr_batch : list Message;
  pr_metrics : ProducerMetrics }.

Definition pr_behavior (p : Producer) : BehaviorConfig := pc_Behavior (pr_config p).
Definition pr_name (p : Producer) : string := pc_Name (pr_config p).

Definition set_sink (s : Sk) (p : Producer) : Producer :=
  mkProducer (pr_config p) (Some s) (pr_stateStore p) (pr_objectStore p) (pr_running p)
    (pr_batch p) (pr_metrics p).
Definition set_state (k : Kv) (p : Producer) : Producer :=
  mkProducer (pr_config p) (pr_messageSink p) (Some k) (pr_objectStore p) (pr_running p)
    (pr_batch p) (pr_metrics p).
Definition set_objects (o : Ob) (p : Producer) : Producer :=
  mkProducer (pr_config p) (pr_messageSink p) (pr_stateStore p) (Some o) (pr_running p)
    (pr_batch p) (pr_metrics p).
Definition set_running (b : bool) (p : Producer) : Producer :=
  mkProducer (pr_config p) (pr_messageSink p) (pr_stateStore p) (pr_objectStore p) b
    (pr_batch p) (pr_metrics p).
Definition set_batch (l : list Message) (p : Producer) : Producer :=
  mkProducer (pr_config p) (pr_messageSink p) (pr_stateStore p) (pr_objectStore p) (pr_running p)
    l (pr_metrics p).
Definition set_metrics (m : ProducerMetrics) (p : Producer) : Producer :=
  mkProducer (pr_config p) (pr_messageSink p) (pr_stateStore p) (pr_objectStore p) (pr_running p)
    (pr_batch p) m.

Definition count_failed (p : Producer) : Producer :=
  let m := pr_metrics p in
  set_metrics (mkProducerMetrics (pmx_MessagesPublished m) (pmx_MessagesFailed m + 1)
    (pmx_MessagesDedup m) (pmx_BytesPublished m) (pmx_BatchesPublished m)) p.
Definition count_dedup (p : Producer) : Producer :=
  let m := pr_metrics p in
  set_metrics (mkProducerMetrics (pmx_MessagesPublished m) (pmx_MessagesFailed m)
    (pmx_MessagesDedup m + 1) (pmx_BytesPublished m) (pmx_BatchesPublished m)) p.
Definition payload_bytes (msgs : list Message) : Z :=
  foldr (λ m n, Z.of_nat (length (msg_Payload m)) + n) 0 msgs.
Definition count_published (msgs : list Message) (batches : Z) (p : Producer) : Producer :=
  let m := pr_metrics p in
  set_metrics (mkProducerMetrics (pmx_MessagesPublished m + Z.of_nat (length msgs))
    (pmx_MessagesFailed m) (pmx_MessagesDedup m) (pmx_BytesPublished m + payload_bytes msgs)
    (pmx_BatchesPublished m + batches)) p.

(** ** Lifecycle *)

Definition New (config : ProducerConfig) : result producer_error Producer :=
  match Validate config with
  | Ok c => Ok (mkProducer c None None None false [] (mkProducerMetrics 0 0 0 0 0))
  | Err e => Err e
  | Panic => Panic
  end.

Definition BindSlots (messageSink : Sk) (stateStore : option Kv) (objectStore : option Ob)
    (p : Producer) : Producer * option producer_error :=
  if pr_running p then (p, Some ErrSlotsRunning)
  else if sk_is_pubsub messageSink || sk_is_queue messageSink then
    (mkProducer (pr_config p) (Some messageSink) stateStore objectStore (pr_running p)
       (pr_batch p) (pr_metrics p), None)
  else (p, Some ErrSinkInterface).

Definition Start (p : Producer) : Producer * option producer_error :=
  if pr_running p then (p, Some ErrAlreadyRunning)
  else match pr_messageSink p with
       | None => (p, Some ErrSinkUnbound)
       | Some _ => (set_running true p, None)
       end.

(** ** Deduplication *)

Definition generateMessageID (topic : string) (payload : bytes) : string :=
  CalculateSHA256 (string_bytes topic ++ payload).

Definition dedupKey (p : Producer) (messageID : string) : string :=
  ("producer:" +:+ pr_name p +:+ ":dedup:" +:+ messageID)%string.

(** [None] is an error. *)
Definition isDuplicate (now : Z) (messageID : string) (p : Producer) : Producer * option bool :=
  match pr_stateStore p with
  | None => (p, Some false)
  | Some k =>
      let '(k, r) := ss_Get now (dedupKey p messageID) k in
      let p := set_state k p in
      match r with
      | None => (p, None)
      | Some None => (p, Some false)
      | Some (Some data) =>
          match unmarshal_time data with
          | None => (p, None)
          | Some ts => (p, Some (now - ts <? DeduplicationWindow (pr_behavior p)))
          end
      end
  end.

(** The TTL is the window in whole seconds (the float64 of [Seconds()] is taken to be
    exact); errors are only logged. *)
Definition recordMessageID (now : Z) (messageID : string) (p : Producer) : Producer :=
  match pr_stateStore p with
  | None => p
  | Some k =>
      match marshal_time now with
      | None => p
      | Some data =>
          let ttl := DeduplicationWindow (pr_behavior p) ÷ Second in
          set_state (ss_Set now (dedupKey p messageID) data ttl k).1 p
      end
  end.

(** ** Claim checks *)

Definition shouldUseClaimCheck (payload : bytes) (p : Producer) : bool :=
  match bc_ClaimCheck (pr_behavior p), pr_objectStore p with
  | Some cfg, Some _ => ck_Enabled cfg && (ck_Threshold cfg <? Z.of_nat (length payload))
  | _, _ => false
  end.

Definition compressPayload (payload : bytes) (algorithm : string) : option bytes :=
  if bool_decide (algorithm = "gzip"%string) then CompressGzip payload else None.

(** What is uploaded, and the compression the claim names. *)
Definition compressed (cfg : ClaimCheckConfig) (payload : bytes) : bytes * string :=
  if bool_decide (ck_Compression cfg = ""%string) || bool_decide (ck_Compression cfg = "none"%string)
  then (payload, "none"%string)
  else match compressPayload payload (ck_Compression cfg) with
       | None => (payload, "none"%string)
       | Some data => (data, ck_Compression cfg)
       end.

(** The payload and the metadata that are published instead; [None] is an error. *)
Definition createClaimCheck (now : Z) (claimID : string) (msg : Message) (p : Producer)
    : Producer * option (bytes * str_map) :=
  match bc_ClaimCheck (pr_behavior p), pr_objectStore p with
  | Some cfg, Some o =>
      let '(data, compression) := compressed cfg (msg_Payload msg) in
      let objectKey := (pr_name p +:+ "/" +:+ msg_Topic msg +:+ "/" +:+ claimID)%string in
      let '(o, ok) := os_Put now (ck_Bucket cfg) objectKey data o in
      let p := set_objects o p in
      if negb ok then (p, None)
      else
        let o :=
          if 0 <? ck_TTL cfg then (os_SetTTL now (ck_Bucket cfg) objectKey (ck_TTL cfg) o).1
          else o in
        let p := set_objects o p in
        let claim :=
          mkClaimCheckMessage claimID (ck_Bucket cfg) objectKey
            (Z.of_nat (length (msg_Payload msg))) compression
            (default ""%string (msg_Metadata msg !! "content-type"%string))
            (CalculateSHA256 (msg_Payload msg))
            (if 0 <? ck_TTL cfg then (now + wrap64 (ck_TTL cfg * Second)) / Second else 0) in
        match marshal_claim claim with
        | None => (p, None)
        | Some claimPayload =>
            (p, Some (claimPayload, <["prism-claim-check"%string := "true"%string]> (msg_Metadata msg)))
        end
  | _, _ => (p, None)
  end.

(** ** Publishing *)

(** One attempt on the sink, by its interface. *)
Definition sink_send (m : sink_message) (s : Sk) : Sk * bool :=
  if sk_is_pubsub s then sk_Publish m s
  else if sk_is_queue s then sk_Enqueue m s
  else (s, true).

(** The retry loop with [n] attempts left; [err] is whether the last one failed. *)
Fixpoint send_retry (n : nat) (err : bool) (m : sink_message) (s : Sk) : Sk * bool :=
  match n with
  | O => (s, negb err)
  | S n =>
      let '(s, ok) := sink_send m s in
      if ok then (s, true) else send_retry n true m s
  end.

Definition publish_attempts (p : Producer) : nat :=
  Z.to_nat (bc_MaxRetries (pr_behavior p) + 1).

Definition publishMessage (tc tr : Z) (uuid : string) (msg : Message) (p : Producer)
    : Producer * option producer_error :=
  let '(p, content) :=
    if shouldUseClaimCheck (msg_Payload msg) p then createClaimCheck tc uuid msg p
    else (p, Some (msg_Payload msg, msg_Metadata msg)) in
  match content with
  | None => (p, Some ErrClaimCheck)
  | Some (payload, metadata) =>
      let '(p, ok) :=
        match pr_messageSink p with
        | None => (p, true)
        | Some s =>
            let '(s, ok) :=
              send_retry (publish_attempts p) false (msg_Topic msg, payload, metadata) s in
            (set_sink s p, ok)
        end in
      if negb ok then (count_failed p, Some ErrPublish)
      else
        let p := count_published [msg] 0 p in
        (if negb (bool_decide (msg_ID msg = ""%string)) && bc_Deduplication (pr_behavior p)
         then recordMessageID tr (msg_ID msg) p else p, None)
  end.

(** The deduplication loop of [PublishBatch]. *)
Fixpoint filter_duplicates (tc : Z) (msgs : list Message) (p : Producer)
    : Producer * option (list Message) :=
  match msgs with
  | [] => (p, Some [])
  | msg :: msgs =>
      let id := if bool_decide (msg_ID msg = ""%string)
                then generateMessageID (msg_Topic msg) (msg_Payload msg) else msg_ID msg in
      let msg := mkMessage (msg_Topic msg) (msg_Payload msg) (msg_Metadata msg) id in
      let '(p, dup) := isDuplicate tc id p in
      match dup with
      | None => (p, None)
      | Some true => filter_duplicates tc msgs (count_dedup p)
      | Some false =>
          let '(p, rest) := filter_duplicates tc msgs p in (p, cons msg <$> rest)
      end
  end.

(** The publishing loop of [PublishBatch]: it ends at the first error. *)
Fixpoint send_batch (msgs : list Message) (s : Sk) : Sk * bool :=
  match msgs with
  | [] => (s, true)
  | msg :: msgs =>
      let '(s, ok) := sink_send (msg_Topic msg, msg_Payload msg, msg_Metadata msg) s in
      if ok then send_batch msgs s else (s, false)
  end.

(** [held]: the calling goroutine holds [p.mu]. *)
Definition PublishBatch (held : bool) (tc tr : Z) (messages : list Message) (p : Producer)
    : option (Producer * option producer_error) :=
  if held then None
  else if negb (pr_running p) then Some (p, Some ErrNotRunning)
  else match messages with
  | [] => Some (p, None)
  | _ =>
      let '(p, filtered) :=
        if bc_Deduplication (pr_behavior p) then filter_duplicates tc messages p
        else (p, Some messages) in
      match filtered with
      | None => Some (p, Some ErrDedup)
      | Some [] => Some (p, None)
      | Some msgs =>
          let '(p, ok) :=
            match pr_messageSink p with
            | None => (p, true)
            | Some s => let '(s, ok) := send_batch msgs s in (set_sink s p, ok)
            end in
          if negb ok then Some (count_failed p, Some ErrPublish)
          else
            let p := count_published msgs 1 p in
            Some (if bc_Deduplication (pr_behavior p)
                  then foldl (λ p msg, recordMessageID tr (msg_ID msg) p) p msgs else p, None)
      end
  end.

Definition flushBatchLocked (held : bool) (tc tr : Z) (p : Producer)
    : option (Producer * option producer_error) :=
  match pr_batch p with
  | [] => Some (p, None)
  | messages => PublishBatch held tc tr messages (set_batch [] p)
  end.

Definition addToBatch (tc tr : Z) (msg : Message) (p : Producer)
    : option (Producer * option producer_error) :=
  let p := set_batch (pr_batch p ++ [msg]) p in
  if bc_BatchSize (pr_behavior p) <=? Z.of_nat (length (pr_batch p))
  then flushBatchLocked false tc tr p
  else Some (p, None).

Definition PublishWithID (tc tr : Z) (uuid : string) (topic : string) (payload : bytes)
    (metadata : str_map) (id : string) (p : Producer) : option (Producer * option producer_error) :=
  if negb (pr_running p) then Some (p, Some ErrNotRunning)
  else
    let dedup := bc_Deduplication (pr_behavior p) in
    let id := if bool_decide (id = ""%string) && dedup then generateMessageID topic payload else id in
    let '(p, dup) :=
      if negb (bool_decide (id = ""%string)) && dedup then isDuplicate tc id p
      else (p, Some false) in
    match dup with
    | None => Some (p, Some ErrDedup)
    | Some true => Some (count_dedup p, None)
    | Some false =>
        let msg := mkMessage topic payload metadata id in
        if 0 <? bc_BatchSize (pr_behavior p) then addToBatch tc tr msg p
        else Some (publishMessage tc tr uuid msg p)
    end.

Definition Publish (tc tr : Z) (uuid : string) (topic : string) (payload : bytes)
    (metadata : str_map) (p : Producer) : option (Producer * option producer_error) :=
  PublishWithID tc tr uuid topic payload metadata "" p.

(** [Flush], and a tick of [batchFlusher]. *)
Definition flushBatch (held : bool) (tc tr : Z) (p : Producer)
    : option (Producer * option producer_error) := flushBatchLocked held tc tr p.

(** [Stop] holds [p.mu] while it flushes; the error of the flush is only logged. *)
Definition Stop (tc tr : Z) (p : Producer) : option Producer :=
  if negb (pr_running p) then Some p
  else
    match flushBatch true tc tr p with
    | None => None
    | Some (p, _) => Some (set_running false p)
    end.

Definition ProducerHealth (p : Producer) : HealthState :=
  let m := pr_metrics p in
  if pmx_MessagesPublished m ÷ 10 <? pmx_MessagesFailed m then HealthDegraded
  else if negb (pr_running p) then HealthDegraded else HealthHealthy.
End Producer.
