(* ===== verification/ProducerSpec.v ===== *)
(** * Correctness of the producer pattern

    Delivery with retries, deduplication within the window, batching, and stopping. *)

From S2P Require Import Prelude Memstore Slots Producer.
Local Open Scope Z_scope.

Section Spec.
Context {Sk Kv Ob : Type} `{!MessageSink Sk, !StateStore Kv, !ObjectStore Ob}.
Context (ParseDuration : string → option Z).
Context (marshal_time : Z → option bytes) (unmarshal_time : bytes → option Z).
Context (marshal_claim : ClaimCheckMessage → option bytes).
Context (CompressGzip : bytes → option bytes).

Implicit Types (p : @Producer Sk Kv Ob) (s : Sk) (m : sink_message).

Abbreviation isDuplicate := (isDuplicate (Sk := Sk) (Ob := Ob) ParseDuration unmarshal_time).
Abbreviation recordMessageID := (recordMessageID (Sk := Sk) (Ob := Ob) ParseDuration marshal_time).
Abbreviation createClaimCheck := (createClaimCheck (Sk := Sk) (Kv := Kv) marshal_claim CompressGzip).
Abbreviation publishMessage :=
  (publishMessage (Sk := Sk) (Kv := Kv) (Ob := Ob) ParseDuration marshal_time marshal_claim CompressGzip).
Abbreviation PublishBatch :=
  (PublishBatch (Sk := Sk) (Kv := Kv) (Ob := Ob) ParseDuration marshal_time unmarshal_time).
Abbreviation PublishWithID :=
  (PublishWithID (Sk := Sk) (Kv := Kv) (Ob := Ob) ParseDuration marshal_time unmarshal_time
     marshal_claim CompressGzip).
Abbreviation flushBatch :=
  (flushBatch (Sk := Sk) (Kv := Kv) (Ob := Ob) ParseDuration marshal_time unmarshal_time).
Abbreviation Stop :=
  (Producer.Stop (Sk := Sk) (Kv := Kv) (Ob := Ob) ParseDuration marshal_time unmarshal_time).

(** ** The sink *)

Definition has_interface s : bool := sk_is_pubsub s || sk_is_queue s.

(** A running producer has a sink with one of the interfaces, and its configuration
    was validated. *)
Record producer_wf p : Prop := {
  pw_sink s : pr_messageSink p = Some s → has_interface s = true;
  pw_running : pr_running p = true → is_Some (pr_messageSink p);
  pw_retries : 0 ≤ bc_MaxRetries (pr_behavior p);
  pw_batch : 0 ≤ bc_BatchSize (pr_behavior p) }.

Definition published p : list sink_message :=
  match pr_messageSink p with Some s => sk_log s | None => [] end.

Lemma sink_send_spec m s s' ok :
  has_interface s = true → sink_send m s = (s', ok) →
  has_interface s' = true ∧ (sk_log s' = sk_log s ++ [m] ∨ ok = false ∧ sk_log s' = sk_log s).
Proof.
  unfold has_interface, sink_send. intros Hi. destruct (sk_is_pubsub s) eqn:E1.
  - intros E. pose proof (sk_Publish_kind m s) as [K1 K2]. rewrite E in K1, K2. simpl in *.
    split; [by rewrite K1, E1|by apply sk_Publish_log].
  - simpl in Hi. rewrite Hi. intros E. pose proof (sk_Enqueue_kind m s) as [K1 K2].
    rewrite E in K1, K2. simpl in *. split; [by rewrite K2, Hi, orb_true_r|by apply sk_Enqueue_log].
Qed.

(** The retry loop sends up to [n] copies, at least one of them when it succeeds. *)
Lemma send_retry_spec n err m s s' ok :
  has_interface s = true → send_retry n err m s = (s', ok) →
  has_interface s' = true ∧
  ∃ c, (c ≤ n)%nat ∧ sk_log s' = sk_log s ++ replicate c m ∧
       (ok = true → (1 ≤ c)%nat ∨ n = 0%nat ∧ err = false).
Proof.
  revert err s. induction n as [|n IH]; simpl; intros err s Hi.
  { intros [= <- <-]. split; [done|]. exists 0%nat. rewrite app_nil_r.
    split_and!; [done|done|]. intros ?%negb_true_iff. auto. }
  destruct (sink_send m s) as [s1 []] eqn:E;
    destruct (sink_send_spec _ _ _ _ Hi E) as [Hi1 Hlog].
  { intros [= <- <-]. split; [done|]. destruct Hlog as [Hlog|[? _]]; [|done].
    exists 1%nat. split_and!; [lia|done|]. intros _. left. lia. }
  intros (Hi' & c & Hc & Hlog' & Hok)%IH; [|done]. split; [done|].
  assert (∃ c0, (c0 ≤ 1)%nat ∧ sk_log s1 = sk_log s ++ replicate c0 m) as (c0 & Hc0 & E0).
  { destruct Hlog as [->|[_ ->]]; [by exists 1%nat|]. exists 0%nat. rewrite app_nil_r. by split; [lia|]. }
  exists (c0 + c)%nat. split_and!; [lia| |].
  - by rewrite Hlog', E0, <- app_assoc, replicate_add.
  - intros [?|[_ ?]]%Hok; [left; lia|done].
Qed.

(** ** What the steps of an operation leave alone *)

(** Same configuration, sink, batch and running state. *)
Definition same_front p p' : Prop :=
  pr_config p' = pr_config p ∧ pr_messageSink p' = pr_messageSink p ∧
  pr_batch p' = pr_batch p ∧ pr_running p' = pr_running p.

#[local] Instance same_front_preorder : PreOrder same_front.
Proof.
  split; unfold same_front; [by intros ?|]. intros ??? (-> & -> & -> & ->) (-> & -> & -> & ->). done.
Qed.

Lemma front_isDuplicate now id p : same_front p (isDuplicate now id p).1.
Proof.
  unfold Producer.isDuplicate. case_match; [|done]. destruct (ss_Get _ _ _) as [k' r].
  by repeat case_match.
Qed.

Lemma front_record now id p : same_front p (recordMessageID now id p).
Proof. unfold Producer.recordMessageID. by repeat case_match. Qed.

Lemma front_claim now id msg p : same_front p (createClaimCheck now id msg p).1.
Proof.
  unfold Producer.createClaimCheck. case_match; [|done]. case_match; [|done].
  destruct (compressed _ _ _) as [d c']. destruct (os_Put _ _ _ _ _) as [o' ok].
  by repeat case_match.
Qed.

Lemma published_front p p' : same_front p p' → published p' = published p.
Proof. unfold published. by intros (_ & -> & _). Qed.

(** ** Delivery *)

(** The message [publishMessage] sends in place of [msg]. *)
Lemma publishMessage_spec tc tr uuid msg p p' err :
  producer_wf p → pr_running p = true → publishMessage tc tr uuid msg p = (p', err) →
  pr_config p' = pr_config p ∧ pr_batch p' = pr_batch p ∧ pr_running p' = true ∧
  ∃ payload metadata c,
    (shouldUseClaimCheck (msg_Payload msg) p = false →
       payload = msg_Payload msg ∧ metadata = msg_Metadata msg) ∧
    (c ≤ publish_attempts p)%nat ∧ (err = None → (1 ≤ c)%nat) ∧
    published p' = published p ++ replicate c (msg_Topic msg, payload, metadata).
Proof.
  intros Hwf Hrun. unfold Producer.publishMessage.
  set (r := if shouldUseClaimCheck _ _ then _ else _).
  assert (same_front p r.1) as (F1 & F2 & F3 & F4).
  { unfold r. case_match; [apply front_claim|done]. }
  assert (shouldUseClaimCheck (msg_Payload msg) p = false →
          r.2 = Some (msg_Payload msg, msg_Metadata msg)) as Hplain.
  { unfold r. by intros ->. }
  destruct r as [p1 [[payload metadata]|]]; simpl in *.
  - destruct (pw_running _ Hwf Hrun) as [s Hs]. rewrite F2, Hs.
    unfold publish_attempts, pr_behavior. rewrite F1.
    destruct (send_retry _ _ _ s) as [s' ok] eqn:E.
    destruct (send_retry_spec _ _ _ _ _ _ (pw_sink _ Hwf s Hs) E) as (_ & c & Hc & Hlog & Hok).
    assert (∀ p2, same_front (set_sink s' p1) p2 →
              pr_config p2 = pr_config p ∧ pr_batch p2 = pr_batch p ∧ pr_running p2 = true ∧
              published p2 = sk_log s') as Hp2.
    { intros p2 (G1 & G2 & G3 & G4). simpl in *. rewrite G1, G3, G4, F1, F3, F4, Hrun.
      split_and!; try done. unfold published. by rewrite G2. }
    intros E'. assert (same_front (set_sink s' p1) p' ∧ (err = None → ok = true)) as [Hf Herr].
    { destruct ok; simpl in E'; simplify_eq; [|by split].
      split; [|done]. case_match; [|done]. etrans; [|apply front_record]. done. }
    destruct (Hp2 p' Hf) as (-> & -> & -> & ->). split_and!; try done.
    exists payload, metadata, c. split_and!; [by intros [= <- <-]%Hplain|done| |].
    + intros Hn%Herr. destruct (Hok Hn) as [?|[E0 _]]; [done|].
      pose proof (pw_retries _ Hwf). unfold pr_behavior in *. lia.
    + rewrite Hlog. unfold published. by rewrite Hs.
  - intros [= <- <-]. rewrite F1, F3, F4, Hrun. split_and!; try done.
    exists (msg_Payload msg), (msg_Metadata msg), 0%nat. split_and!; [done|lia|done|].
    rewrite app_nil_r. by apply published_front.
Qed.

Lemma frame_isDuplicate now id p :
  pr_objectStore (isDuplicate now id p).1 = pr_objectStore p ∧
  pr_metrics (isDuplicate now id p).1 = pr_metrics p.
Proof.
  unfold Producer.isDuplicate. case_match; [|done]. destruct (ss_Get _ _ _) as [k' r].
  by repeat case_match.
Qed.

Definition dedup_count p : Z := pmx_MessagesDedup (pr_metrics p).

(** The id a message is published under. *)
Definition effective_id p (topic : string) (payload : bytes) (id : string) : string :=
  if bool_decide (id = ""%string) && bc_Deduplication (pr_behavior p)
  then generateMessageID topic payload else id.

(** [PublishWithID] without batching. *)
Lemma PublishWithID_unbatched tc tr uuid topic payload md id0 p :
  pr_running p = true → bc_BatchSize (pr_behavior p) = 0 →
  ∃ p1 dup,
    (if negb (bool_decide (effective_id p topic payload id0 = ""%string))
        && bc_Deduplication (pr_behavior p)
     then isDuplicate tc (effective_id p topic payload id0) p else (p, Some false)) = (p1, dup) ∧
    same_front p p1 ∧ pr_objectStore p1 = pr_objectStore p ∧ pr_metrics p1 = pr_metrics p ∧
    PublishWithID tc tr uuid topic payload md id0 p =
      match dup with
      | None => Some (p1, Some ErrDedup)
      | Some true => Some (count_dedup p1, None)
      | Some false =>
          Some (publishMessage tc tr uuid
                  (mkMessage topic payload md (effective_id p topic payload id0)) p1)
      end.
Proof.
  intros Hrun Hb. unfold Producer.PublishWithID. rewrite Hrun. simpl.
  fold (effective_id p topic payload id0).
  set (r := if negb _ && _ then _ else _). exists r.1, r.2.
  assert (same_front p r.1 ∧ pr_objectStore r.1 = pr_objectStore p ∧ pr_metrics r.1 = pr_metrics p)
    as (Hf & Ho & Hm).
  { unfold r. case_match; [|done]. split; [apply front_isDuplicate|apply frame_isDuplicate]. }
  split; [by destruct r|]. split_and!; try done. destruct r as [p1 [[]|]]; simpl in *; try done.
  destruct Hf as (F1 & _). unfold pr_behavior in *. by rewrite F1, Hb.
Qed.

(** Publishing without batching: a call on a running producer always returns.
    Whatever the sink does, it has got at most [MaxRetries + 1] copies of one message
    on the given topic (the payload and the metadata themselves when no claim check
    is due) and nothing else; when the call reports success it has got at least one,
    unless the message was skipped and counted as a duplicate. *)
Theorem publish_delivers tc tr uuid topic payload md id p :
  producer_wf p → pr_running p = true → bc_BatchSize (pr_behavior p) = 0 →
  ∃ p' err payload' md' c,
    PublishWithID tc tr uuid topic payload md id p = Some (p', err) ∧
    (Z.of_nat c ≤ bc_MaxRetries (pr_behavior p) + 1) ∧
    published p' = published p ++ replicate c (topic, payload', md') ∧
    (shouldUseClaimCheck payload p = false → payload' = payload ∧ md' = md) ∧
    (err = None → (1 ≤ c)%nat ∨ bc_Deduplication (pr_behavior p) = true ∧
                                 dedup_count p' = dedup_count p + 1).
Proof.
  intros Hwf Hrun Hb. pose proof (pw_retries _ Hwf) as Hret.
  destruct (PublishWithID_unbatched tc tr uuid topic payload md id p Hrun Hb)
    as (p1 & dup & Hd & Hf & Ho & Hm & ->).
  destruct dup as [[]|].
  - exists (count_dedup p1), None, payload, md, 0%nat. rewrite app_nil_r.
    split_and!; [done|lia|by apply published_front|done|]. intros _. right.
    unfold dedup_count. simpl. rewrite Hm. split; [|done].
    destruct (bc_Deduplication (pr_behavior p)); [done|]. by rewrite andb_false_r in Hd.
  - destruct (publishMessage tc tr uuid _ p1) as [p' err] eqn:E.
    destruct Hf as (F1 & F2 & F3 & F4).
    assert (producer_wf p1) as Hwf1.
    { destruct Hwf as [W1 W2 W3 W4]. unfold pr_behavior in *.
      split; unfold pr_behavior; rewrite ?F1, ?F2, ?F4; done. }
    destruct (publishMessage_spec _ _ _ _ _ _ _ Hwf1 (eq_trans F4 Hrun) E)
      as (_ & _ & _ & payload' & md' & c & Hplain & Hc & Hok & Hpub).
    exists p', err, payload', md', c. split_and!; [done| | |  |auto].
    + unfold publish_attempts, pr_behavior in *. rewrite F1 in Hc. lia.
    + rewrite Hpub. f_equal. by apply published_front.
    + intros Hno. apply Hplain. unfold shouldUseClaimCheck, pr_behavior in *.
      by rewrite F1, Ho.
  - exists p1, (Some ErrDedup), payload, md, 0%nat. rewrite app_nil_r.
    split_and!; [done|lia|by apply published_front|done|done].
Qed.

(** ** Deduplication *)

Abbreviation window p := (DeduplicationWindow ParseDuration (pr_behavior p)).

(** What the state store holds under a key at time [t]. *)
Definition store_view (t : Z) (key : string) p : option bytes :=
  match pr_stateStore p with Some k => ss_at t k key | None => None end.

Lemma view_isDuplicate now id p t key :
  now ≤ t → store_view t key (isDuplicate now id p).1 = store_view t key p.
Proof.
  intros Ht. unfold Producer.isDuplicate, store_view. destruct (pr_stateStore p) as [k|] eqn:Hk;
    [|by simpl; rewrite Hk].
  destruct (ss_Get now (dedupKey p id) k) as [k' r] eqn:E.
  destruct (ss_Get_at _ _ _ _ _ E) as [_ Hv]. destruct r as [[data|]|];
    [destruct (unmarshal_time data)|..]; simpl; by apply Hv.
Qed.

Lemma view_record now id p t key :
  now ≤ t → window p ≤ max_int64 → key ≠ dedupKey p id →
  store_view t key (recordMessageID now id p) = store_view t key p.
Proof.
  intros Ht Hw Hne. unfold Producer.recordMessageID, store_view.
  destruct (pr_stateStore p) as [k|] eqn:Hk; [|by rewrite Hk].
  destruct (marshal_time now) as [data|]; simpl; [|by rewrite Hk].
  destruct (ss_Set _ _ _ _ k) as [k' ok] eqn:E. simpl.
  eapply ss_Set_other; [done|done| |done].
  change (max_int64 / Second) with (max_int64 ÷ Second). by apply Z.quot_le_mono.
Qed.

Lemma view_claim now id msg p t key :
  store_view t key (createClaimCheck now id msg p).1 = store_view t key p ∧
  pr_stateStore (createClaimCheck now id msg p).1 = pr_stateStore p.
Proof.
  unfold store_view. assert (pr_stateStore (createClaimCheck now id msg p).1 = pr_stateStore p) as E;
    [|by rewrite E].
  unfold Producer.createClaimCheck. case_match; [|done]. case_match; [|done].
  destruct (compressed _ _ _) as [d c']. destruct (os_Put _ _ _ _ _) as [o' ok].
  by repeat case_match.
Qed.

(** [publishMessage] touches the store in its last step only. *)
Lemma publishMessage_store tc tr uuid msg p :
  ∃ p1, pr_stateStore p1 = pr_stateStore p ∧ pr_config p1 = pr_config p ∧
    ((publishMessage tc tr uuid msg p).1 = p1 ∨
     (publishMessage tc tr uuid msg p).1 = recordMessageID tr (msg_ID msg) p1) ∧
    ((publishMessage tc tr uuid msg p).2 = None → msg_ID msg ≠ ""%string →
     bc_Deduplication (pr_behavior p) = true →
     (publishMessage tc tr uuid msg p).1 = recordMessageID tr (msg_ID msg) p1).
Proof.
  unfold Producer.publishMessage. set (r := if shouldUseClaimCheck _ _ then _ else _).
  assert (pr_stateStore r.1 = pr_stateStore p ∧ pr_config r.1 = pr_config p) as [E1 E2].
  { unfold r. case_match; [|done]. split; [apply (view_claim tc uuid msg p 0 ""%string)|apply front_claim]. }
  destruct r as [p1 [[payload md]|]]; simpl in *; [|exists p1; by split_and!; auto].
  set (q := match pr_messageSink p1 with Some _ => _ | None => _ end).
  assert (pr_stateStore q.1 = pr_stateStore p ∧ pr_config q.1 = pr_config p) as [Q1 Q2].
  { unfold q. case_match; [|done]. destruct (send_retry _ _ _ _) as [s' ok]. done. }
  destruct q as [p2 []]; simpl in *; [|exists (count_failed p2); by split_and!; auto].
  exists (count_published [msg] 0 p2). unfold pr_behavior. simpl. rewrite Q2.
  split_and!; try done; [case_match; auto|].
  intros _ Hid ->. by rewrite bool_decide_eq_false_2.
Qed.

Lemma dedupKey_inj p p' id id' :
  pr_config p' = pr_config p → dedupKey p' id' = dedupKey p id → id' = id.
Proof.
  unfold dedupKey, pr_name. intros ->. intros E%(inj (String.append _)).
  by apply (inj (String.append _)), (inj (String.append _)) in E.
Qed.

(** A call of [PublishWithID] with its clock readings. *)
Record pub_call := mkPubCall {
  pub_tc : Z; pub_tr : Z; pub_uuid : string; pub_topic : string; pub_payload : bytes;
  pub_metadata : str_map; pub_id : string }.

Definition pub_exec (c : pub_call) p : option (Producer * option producer_error) :=
  PublishWithID (pub_tc c) (pub_tr c) (pub_uuid c) (pub_topic c) (pub_payload c)
    (pub_metadata c) (pub_id c) p.

Definition pub_step p (c : pub_call) : Producer :=
  match pub_exec c p with Some (p', _) => p' | None => p end.

(** Calls for other ids do not touch the record of [id]. *)
Lemma view_pub_step t id c p :
  bc_BatchSize (pr_behavior p) = 0 → window p ≤ max_int64 →
  pub_tc c ≤ t → pub_tr c ≤ t → effective_id p (pub_topic c) (pub_payload c) (pub_id c) ≠ id →
  pr_config (pub_step p c) = pr_config p ∧
  store_view t (dedupKey p id) (pub_step p c) = store_view t (dedupKey p id) p.
Proof.
  intros Hb Hw Htc Htr Hne. unfold pub_step, pub_exec. destruct (pr_running p) eqn:Hrun.
  2: { unfold Producer.PublishWithID. by rewrite Hrun. }
  destruct (PublishWithID_unbatched (pub_tc c) (pub_tr c) (pub_uuid c) (pub_topic c) (pub_payload c)
    (pub_metadata c) (pub_id c) p Hrun Hb) as (p1 & dup & Hd & (F1 & _) & _ & _ & ->).
  assert (store_view t (dedupKey p id) p1 = store_view t (dedupKey p id) p) as V1.
  { revert Hd. case_match; [|by intros [= <- _]]. intros Hd.
    rewrite <- (view_isDuplicate (pub_tc c) (effective_id p (pub_topic c) (pub_payload c) (pub_id c)) p t
                  (dedupKey p id) Htc). by rewrite Hd. }
  destruct dup as [[]|]; [by split|..|by split].
  set (msg := mkMessage _ _ _ _).
  destruct (publishMessage_store (pub_tc c) (pub_tr c) (pub_uuid c) msg p1)
    as (p2 & E1 & E2 & Hor & _).
  destruct (publishMessage _ _ _ msg p1) as [p' err]. cbn [fst snd] in Hor |- *.
  assert (store_view t (dedupKey p id) p2 = store_view t (dedupKey p id) p1) as V2.
  { unfold store_view. by rewrite E1. }
  destruct Hor as [->| ->].
  - by rewrite E2, F1, V2, V1.
  - destruct (front_record (pub_tr c) (msg_ID msg) p2) as (-> & _).
    rewrite view_record; [by rewrite E2, F1, V2, V1|done| |].
    + unfold pr_behavior in *. by rewrite E2, F1.
    + intros E. apply Hne. symmetry. eapply dedupKey_inj; [|exact E]. by rewrite E2, F1.
Qed.

(** A recent record suppresses the message. *)
Lemma recorded_suppresses c p data ts :
  pr_running p = true → bc_BatchSize (pr_behavior p) = 0 →
  bc_Deduplication (pr_behavior p) = true → pub_id c ≠ ""%string →
  store_view (pub_tc c) (dedupKey p (pub_id c)) p = Some data →
  unmarshal_time data = Some ts → pub_tc c - ts < window p →
  published (pub_step p c) = published p.
Proof.
  intros Hrun Hb Hdd Hid Hv Hts Hlt. unfold pub_step, pub_exec.
  destruct (PublishWithID_unbatched (pub_tc c) (pub_tr c) (pub_uuid c) (pub_topic c) (pub_payload c)
    (pub_metadata c) (pub_id c) p Hrun Hb) as (p1 & dup & Hd & Hf & _ & _ & ->).
  assert (effective_id p (pub_topic c) (pub_payload c) (pub_id c) = pub_id c) as Eid.
  { unfold effective_id. by rewrite bool_decide_eq_false_2. }
  rewrite Eid, Hdd, bool_decide_eq_false_2 in Hd by done. simpl in Hd. unfold Producer.isDuplicate in Hd. unfold store_view in Hv.
  destruct (pr_stateStore p) as [k|]; [|done].
  destruct (ss_Get (pub_tc c) (dedupKey p (pub_id c)) k) as [k' r] eqn:E.
  destruct (ss_Get_at _ _ _ _ _ E) as [[->| ->] _]; [|rewrite Hv in Hd; simpl in Hd; rewrite Hts in Hd].
  - simplify_eq/=. by apply published_front.
  - simplify_eq/=. destruct (_ <? _) eqn:Hdup; [by apply published_front|].
    apply Z.ltb_ge in Hdup. unfold pr_behavior in *. simpl in *. lia.
Qed.

(** The first publication leaves a record. *)
Lemma publish_records p k data c p1 t :
  pr_running p = true → bc_BatchSize (pr_behavior p) = 0 →
  bc_Deduplication (pr_behavior p) = true → window p ≤ max_int64 →
  pr_stateStore p = Some k → pub_id c ≠ ""%string → marshal_time (pub_tr c) = Some data →
  pub_exec c p = Some (p1, None) → dedup_count p1 = dedup_count p →
  (ss_Set (pub_tr c) (dedupKey p (pub_id c)) data (window p ÷ Second)
     (ss_Get (pub_tc c) (dedupKey p (pub_id c)) k).1).2 = true →
  pub_tr c ≤ t →
  window p ÷ Second = 0 ∨ t ≤ pub_tr c + window p ÷ Second * Second →
  pr_config p1 = pr_config p ∧ store_view t (dedupKey p (pub_id c)) p1 = Some data.
Proof.
  intros Hrun Hb Hdd Hw Hk Hid Hm Hex Hcnt Hset Ht Httl.
  destruct (PublishWithID_unbatched (pub_tc c) (pub_tr c) (pub_uuid c) (pub_topic c) (pub_payload c)
    (pub_metadata c) (pub_id c) p Hrun Hb) as (pa & dup & Hd & (F1 & _) & _ & Em & E).
  unfold pub_exec in Hex. rewrite Hex in E. clear Hex.
  assert (effective_id p (pub_topic c) (pub_payload c) (pub_id c) = pub_id c) as Eid.
  { unfold effective_id. by rewrite bool_decide_eq_false_2. }
  rewrite Eid, Hdd, bool_decide_eq_false_2 in Hd by done. simpl in Hd. rewrite Eid in E.
  destruct dup as [[]|]; simplify_eq.
  { unfold dedup_count in Hcnt. simpl in Hcnt. rewrite Em in Hcnt. lia. }
  assert (pr_stateStore pa = Some (ss_Get (pub_tc c) (dedupKey p (pub_id c)) k).1) as Ka.
  { unfold Producer.isDuplicate in Hd. rewrite Hk in Hd.
    destruct (ss_Get _ _ k) as [k1 r]. simpl. by repeat case_match; simplify_eq. }
  set (msg := mkMessage _ _ _ _) in E.
  destruct (publishMessage_store (pub_tc c) (pub_tr c) (pub_uuid c) msg pa)
    as (px & K1 & E1 & _ & Hrec).
  rewrite <- E in Hrec. cbn [fst snd] in Hrec.
  rewrite Hrec; [|done|done|unfold pr_behavior in *; by rewrite F1]. clear Hrec E Hcnt.
  assert (pr_config px = pr_config p) as Ex by congruence.
  destruct (front_record (pub_tr c) (msg_ID msg) px) as (-> & _). split; [done|].
  unfold store_view, Producer.recordMessageID. rewrite K1, Ka, Hm. simpl.
  unfold dedupKey, pr_name, pr_behavior in *. rewrite Ex.
  destruct (ss_Set _ _ data _ _) as [k2 ok] eqn:Es. simpl in Hset. subst ok. simpl.
  erewrite ss_Set_at; [|exact Es|done|].
  - rewrite bool_decide_eq_true_2 by done. case_match; [|done]. bool_to_prop. lia.
  - change (max_int64 / Second) with (max_int64 ÷ Second). by apply Z.quot_le_mono.
Qed.

Lemma view_pub_run t id others p :
  bc_BatchSize (pr_behavior p) = 0 → window p ≤ max_int64 →
  Forall (λ o, pub_tc o ≤ t ∧ pub_tr o ≤ t ∧
               effective_id p (pub_topic o) (pub_payload o) (pub_id o) ≠ id) others →
  pr_config (foldl pub_step p others) = pr_config p ∧
  store_view t (dedupKey p id) (foldl pub_step p others) = store_view t (dedupKey p id) p.
Proof.
  intros Hb Hw Hall. revert p Hb Hw Hall.
  induction others as [|o others IH]; intros p Hb Hw Hall; [done|]. simpl.
  inversion_clear Hall as [|?? (Htc & Htr & Hne) Hrest].
  destruct (view_pub_step t id o p Hb Hw Htc Htr Hne) as [E1 E2].
  unfold dedupKey, pr_name, effective_id, pr_behavior in *.
  destruct (IH (pub_step p o)) as [E3 E4]; rewrite ?E1; try done.
  rewrite E1 in E4. by rewrite E3, E4, E1, E2.
Qed.

(** C9. Deduplication of a producer that does not batch ([BatchSize] = 0): after a
    message was published under an explicit id (not the empty one) and the state store
    accepted the record of it, any number of messages with other ids may be published;
    another message with that id, within the window and while the record lives (its
    TTL is the window in whole seconds), is not published. With batching two messages
    of one batch are both published ([duplicates_in_one_batch]). *)
Theorem duplicates_are_suppressed p k data c p1 others c' :
  pr_running p = true → bc_BatchSize (pr_behavior p) = 0 →
  bc_Deduplication (pr_behavior p) = true → window p ≤ max_int64 →
  pr_stateStore p = Some k → pub_id c ≠ ""%string →
  marshal_time (pub_tr c) = Some data → unmarshal_time data = Some (pub_tr c) →
  pub_exec c p = Some (p1, None) → dedup_count p1 = dedup_count p →
  (ss_Set (pub_tr c) (dedupKey p (pub_id c)) data (window p ÷ Second)
     (ss_Get (pub_tc c) (dedupKey p (pub_id c)) k).1).2 = true →
  let p2 := foldl pub_step p1 others in
  Forall (λ o, pub_tc o ≤ pub_tc c' ∧ pub_tr o ≤ pub_tc c' ∧
               effective_id p (pub_topic o) (pub_payload o) (pub_id o) ≠ pub_id c) others →
  pub_id c' = pub_id c → pr_running p2 = true →
  pub_tr c ≤ pub_tc c' < pub_tr c + window p →
  window p ÷ Second = 0 ∨ pub_tc c' ≤ pub_tr c + window p ÷ Second * Second →
  published (pub_step p2 c') = published p2.
Proof.
  intros Hrun Hb Hdd Hw Hk Hid Hm Hu Hex Hcnt Hset p2 Hall Hid' Hrun2 Ht Httl.
  destruct (publish_records p k data c p1 (pub_tc c')) as [E1 V1]; try done; [lia|].
  assert (dedupKey p (pub_id c) = dedupKey p1 (pub_id c)) as Ek.
  { unfold dedupKey, pr_name. by rewrite E1. }
  unfold effective_id, pr_behavior in *. rewrite <- E1 in Hall.
  destruct (view_pub_run (pub_tc c') (pub_id c) others p1) as [E2 V2];
    [by unfold pr_behavior; rewrite E1..|done|].
  fold p2 in E2, V2. rewrite E1 in E2.
  apply (recorded_suppresses c' p2 data (pub_tr c)); unfold pr_behavior in *; rewrite ?E2; try done.
  - by rewrite Hid'.
  - rewrite Hid'. replace (dedupKey p2 (pub_id c)) with (dedupKey p1 (pub_id c))
      by (unfold dedupKey, pr_name; by rewrite E1, E2). by rewrite V2, <- Ek.
  - lia.
Qed.

(** ** Batching *)

Definition as_sink (msg : Message) : sink_message :=
  (msg_Topic msg, msg_Payload msg, msg_Metadata msg).

Lemma send_batch_spec msgs s s' ok :
  has_interface s = true → send_batch msgs s = (s', ok) →
  has_interface s' = true ∧ (ok = true → sk_log s' = sk_log s ++ (as_sink <$> msgs)).
Proof.
  revert s. induction msgs as [|msg msgs IH]; simpl; intros s Hi.
  { intros [= <- <-]. by rewrite app_nil_r. }
  fold (as_sink msg). destruct (sink_send (as_sink msg) s) as [s1 []] eqn:E;
    destruct (sink_send_spec _ _ _ _ Hi E) as [Hi1 Hlog]; [|by intros [= <- <-]].
  intros [Hi' Hok]%IH; [|done]. split; [done|]. intros ->%Hok.
  destruct Hlog as [->|[? _]]; [|done]. by rewrite <- app_assoc.
Qed.

(** Without deduplication a batch that is published without an error reaches the sink
    message by message. *)
Lemma PublishBatch_spec tc tr msgs p :
  producer_wf p → pr_running p = true → bc_Deduplication (pr_behavior p) = false →
  ∃ p' err, PublishBatch false tc tr msgs p = Some (p', err) ∧
    producer_wf p' ∧ pr_config p' = pr_config p ∧ pr_batch p' = pr_batch p ∧ pr_running p' = true ∧
    (err = None → published p' = published p ++ (as_sink <$> msgs)).
Proof.
  intros Hwf Hrun Hdd. unfold Producer.PublishBatch. rewrite Hrun, Hdd. simpl.
  destruct msgs as [|msg msgs].
  { exists p, None. split_and!; try done. intros _. by rewrite app_nil_r. }
  destruct (pw_running _ Hwf Hrun) as [s Hs]. rewrite Hs.
  destruct (send_batch (msg :: msgs) s) as [s' ok] eqn:E.
  destruct (send_batch_spec _ _ _ _ (pw_sink _ Hwf s Hs) E) as [Hi Hok].
  assert (∀ p2, same_front (set_sink s' p) p2 →
            producer_wf p2 ∧ pr_config p2 = pr_config p ∧ pr_batch p2 = pr_batch p ∧
            pr_running p2 = true ∧ published p2 = sk_log s') as Hp2.
  { intros p2 (G1 & G2 & G3 & G4). simpl in *. destruct Hwf as [W1 W2 W3 W4].
    unfold published. rewrite G2, G1, G3, G4, Hrun. split_and!; try done.
    unfold pr_behavior in *. split; unfold pr_behavior; rewrite ?G1, ?G2; try done.
    by intros s0 [= <-]. }
  set (p2 := if ok then count_published (msg :: msgs) 1 (set_sink s' p)
             else count_failed (set_sink s' p)).
  exists p2, (if ok then None else Some ErrPublish). split.
  { unfold p2, pr_behavior in *. destruct ok; [|done]. cbn. by rewrite Hdd. }
  destruct (Hp2 p2) as (W & -> & -> & -> & ->); [by unfold p2; destruct ok|].
  split_and!; try done. destruct ok; [|done]. intros _. rewrite (Hok eq_refl).
  unfold published. by rewrite Hs.
Qed.

Inductive batch_op :=
  | BPublish (c : pub_call)
  | BFlush (tc tr : Z).

Definition batch_exec (op : batch_op) p : option (Producer * option producer_error) :=
  match op with
  | BPublish c => pub_exec c p
  | BFlush tc tr => flushBatch false tc tr p
  end.

(** A run in which no operation reports an error. *)
Fixpoint batch_run (ops : list batch_op) p : option Producer :=
  match ops with
  | [] => Some p
  | op :: ops =>
      match batch_exec op p with Some (p', None) => batch_run ops p' | _ => None end
  end.

Definition batch_messages (ops : list batch_op) : list sink_message :=
  ops ≫= λ op, match op with
               | BPublish c => [(pub_topic c, pub_payload c, pub_metadata c)]
               | BFlush _ _ => []
               end.

(** A running producer that batches and does not deduplicate. *)
Record batching p : Prop := {
  bt_wf : producer_wf p;
  bt_running : pr_running p = true;
  bt_dedup : bc_Deduplication (pr_behavior p) = false;
  bt_size : 0 < bc_BatchSize (pr_behavior p) }.

Definition in_transit p : list sink_message := published p ++ (as_sink <$> pr_batch p).

Lemma batching_set_batch l p : batching p → batching (set_batch l p).
Proof. intros [[W1 W2 W3 W4] ???]. by split. Qed.

Lemma flush_spec tc tr p :
  batching p →
  ∃ p' err, flushBatch false tc tr p = Some (p', err) ∧
    batching p' ∧ pr_config p' = pr_config p ∧ pr_batch p' = [] ∧
    (err = None → in_transit p' = in_transit p).
Proof.
  intros Hb. unfold Producer.flushBatch, flushBatchLocked.
  destruct (pr_batch p) as [|msg msgs] eqn:Hbatch; [exists p, None; by split_and!|].
  destruct (batching_set_batch [] p Hb) as [Hwf Hrun Hdd Hsz].
  destruct (PublishBatch_spec tc tr (msg :: msgs) _ Hwf Hrun Hdd)
    as (p' & err & -> & Hwf' & Hc & Hb' & Hr' & Hpub).
  exists p', err. unfold in_transit. rewrite Hb', Hbatch. split_and!; try done.
  - unfold pr_behavior in *. split; try done; unfold pr_behavior; by rewrite Hc.
  - intros ->%Hpub. simpl. by rewrite app_nil_r.
Qed.

Lemma batch_exec_spec op p :
  batching p → Z.of_nat (length (pr_batch p)) < bc_BatchSize (pr_behavior p) →
  ∃ p' err, batch_exec op p = Some (p', err) ∧ batching p' ∧ pr_config p' = pr_config p ∧
    Z.of_nat (length (pr_batch p')) < bc_BatchSize (pr_behavior p') ∧
    (err = None → in_transit p' = in_transit p ++ batch_messages [op]).
Proof.
  intros Hb Hlen. destruct op as [c|tc tr]; simpl.
  - unfold pub_exec, Producer.PublishWithID. destruct Hb as [Hwf Hrun Hdd Hsz] eqn:Eb. clear Eb.
    rewrite Hrun, Hdd, !andb_false_r. simpl. rewrite (proj2 (Z.ltb_lt _ _) Hsz).
    unfold addToBatch. set (msg := mkMessage _ _ _ _). set (p1 := set_batch _ p).
    assert (in_transit p1 = in_transit p ++ [as_sink msg]) as Ht.
    { unfold in_transit. simpl. rewrite fmap_app. by rewrite (assoc_L (++)). }
    case_match eqn:Hfull.
    + destruct (flush_spec (pub_tc c) (pub_tr c) p1) as (p' & err & E & Hb' & Hc & Hnil & Htr).
      { by apply batching_set_batch. }
      exists p', err. unfold Producer.flushBatch in E. split_and!; try done.
      * rewrite Hnil. simpl. apply bt_size; done.
      * intros ->%Htr. by rewrite Ht.
    + exists p1, None. split_and!; try done.
      * by apply batching_set_batch.
      * apply Z.leb_gt in Hfull. done.
  - destruct (flush_spec tc tr p Hb) as (p' & err & -> & Hb' & Hc & Hnil & Htr).
    exists p', err. split_and!; try done.
    + rewrite Hnil. simpl. apply bt_size; done.
    + intros ->%Htr. by rewrite app_nil_r.
Qed.

(** C28. Batching without deduplication loses and reorders nothing as long as no
    operation reports an error: after any sequence of publications and flushes of a
    running producer with a batch size and [Deduplication] off, what the sink has got
    followed by the batch is what there was before followed by the published messages,
    in order, and the batch stays below its size. *)
Theorem batching_preserves_messages p ops p' :
  batching p → Z.of_nat (length (pr_batch p)) < bc_BatchSize (pr_behavior p) →
  batch_run ops p = Some p' →
  in_transit p' = in_transit p ++ batch_messages ops ∧
  Z.of_nat (length (pr_batch p')) < bc_BatchSize (pr_behavior p).
Proof.
  revert p. induction ops as [|op ops IH]; intros p Hb Hlen; simpl.
  { intros [= <-]. by rewrite app_nil_r. }
  destruct (batch_exec_spec op p Hb Hlen) as (p1 & err & -> & Hb1 & Hc & Hlen1 & Ht).
  destruct err; [done|]. intros [E1 E2]%IH; [|done|done].
  unfold pr_behavior in *. rewrite Hc in E2. split; [|done].
  rewrite E1, (Ht eq_refl), <- (assoc_L (++)). simpl. by rewrite app_nil_r.
Qed.

(** [Stop] of a running producer returns exactly when nothing is batched: with a
    message in the batch it waits for its own lock, for ever. *)
Theorem Stop_blocks_iff tc tr p :
  pr_running p = true →
  (Stop tc tr p = None ↔ pr_batch p ≠ []) ∧
  (pr_batch p = [] → ∃ p', Stop tc tr p = Some p' ∧ pr_running p' = false).
Proof.
  intros Hrun. unfold Producer.Stop, Producer.flushBatch, flushBatchLocked, Producer.PublishBatch.
  rewrite Hrun. simpl. destruct (pr_batch p) as [|msg msgs]; (split; [split|]); try done; eauto.
Qed.
End Spec.

Module ProducerDemo.
Import RefSlots.

Definition parse (s : string) : option Z :=
  if bool_decide (s = "5m"%string) then Some (5 * Minute)
  else if bool_decide (s = "1500ms"%string) then Some (1500 * Millisecond)
  else if bool_decide (s = "1s"%string) then Some Second else None.
Definition put_time (t : Z) : option bytes := Some [t].
Definition get_time (l : bytes) : option Z := match l with [t] => Some t | _ => None end.
Definition put_claim (c : ClaimCheckMessage) : option bytes := Some (string_bytes (cc_ClaimID c)).
Definition gzip (l : bytes) : option bytes := Some l.

Definition behavior (batch : Z) (dedup : bool) (window : string) (cc : option ClaimCheckConfig)
    : BehaviorConfig :=
  mkBehaviorConfig 2 "" batch (if 0 <? batch then "1s"%string else ""%string) dedup window false "" cc.

Abbreviation producer := (@Producer RefSink RefStore RefObjects).

(** A started producer on a sink that fails its first [failures] attempts. *)
Definition started (failures : nat) (b : BehaviorConfig) : option producer :=
  match New (Sk := RefSink) (Kv := RefStore) (Ob := RefObjects) parse (mkProducerConfig "orders" b) with
  | Ok p =>
      Some (Start (BindSlots (mkRefSink failures []) (Some (∅ : gmap string (bytes * option Z)))
              (Some (∅ : gmap (string * string) bytes)) p).1).1
  | _ => None
  end.

Definition initial (failures : nat) (b : BehaviorConfig) : producer :=
  default (mkProducer (mkProducerConfig "" b) None None None false [] (mkProducerMetrics 0 0 0 0 0))
    (started failures b).

Definition plain : producer := initial 1 (behavior 0 false "" None).
Definition dedup : producer := initial 0 (behavior 0 true "5m" None).
Definition batched : producer := initial 0 (behavior 2 false "" None).

Abbreviation publish t topic payload id p :=
  (PublishWithID parse put_time get_time put_claim gzip t t "uuid" topic payload ∅ id p).

Lemma plain_wf : producer_wf plain.
Proof. split; [by intros s [= <-]|by eexists|done|done]. Qed.

(** The first attempt fails, the second one succeeds. *)
Lemma publish_delivers_witness :
  ∃ p' err payload' md' c,
    publish 1 "t" [1; 2] "" plain = Some (p', err) ∧
    (Z.of_nat c ≤ bc_MaxRetries (pr_behavior plain) + 1) ∧
    published p' = published plain ++ replicate c ("t"%string, payload', md') ∧
    (shouldUseClaimCheck [1; 2] plain = false → payload' = [1; 2] ∧ md' = ∅) ∧
    (err = None → (1 ≤ c)%nat ∨ bc_Deduplication (pr_behavior plain) = true ∧
                                 dedup_count p' = dedup_count plain + 1).
Proof. apply (publish_delivers parse put_time get_time put_claim gzip); [apply plain_wf|done|done]. Defined.

Definition first : pub_call := mkPubCall 1 1 "uuid" "t" [1; 2] ∅ "id".
Definition other : pub_call := mkPubCall 2 2 "uuid" "t" [3] ∅ "other".
Definition second : pub_call := mkPubCall Second Second "uuid" "t" [4] ∅ "id".
Abbreviation exec_call := (pub_exec parse put_time get_time put_claim gzip).
Abbreviation step_call := (pub_step parse put_time get_time put_claim gzip).

Definition after_first : producer :=
  match exec_call first dedup with Some (p, _) => p | None => dedup end.

Lemma duplicates_are_suppressed_witness :
  let p2 := foldl step_call after_first [other] in
  published (step_call p2 second) = published p2.
Proof.
  refine (duplicates_are_suppressed parse put_time get_time put_claim gzip dedup ∅ [1] first
            after_first [other] second _ _ _ _ _ _ _ _ _ _ _ _ _ _ _ _).
  1-3: reflexivity.
  - vm_compute. discriminate.
  - reflexivity.
  - discriminate.
  - reflexivity.
  - reflexivity.
  - vm_compute. reflexivity.
  - vm_compute. reflexivity.
  - vm_compute. reflexivity.
  - constructor; [|constructor]. split_and!; vm_compute; discriminate.
  - reflexivity.
  - vm_compute. reflexivity.
  - vm_compute. split; [discriminate|reflexivity].
  - right. vm_compute. discriminate.
Defined.

Lemma batched_ok : batching batched.
Proof. split; [|done..]. split; [by intros s [= <-]|by eexists|done|done]. Qed.

Definition some_ops : list batch_op := [BPublish first; BPublish other; BPublish second; BFlush 9 9].

Lemma batching_preserves_messages_witness :
  ∃ p', batch_run parse put_time get_time put_claim gzip some_ops batched = Some p' ∧
    in_transit p' = in_transit batched ++ batch_messages some_ops ∧
    Z.of_nat (length (pr_batch p')) < bc_BatchSize (pr_behavior batched).
Proof.
  eexists. split; [vm_compute; reflexivity|].
  apply (batching_preserves_messages parse put_time get_time put_claim gzip batched some_ops);
    [apply batched_ok|done|]. vm_compute. reflexivity.
Defined.

Lemma Stop_blocks_iff_witness :
  ∃ p, exec_call first batched = Some (p, None) ∧
    (Stop parse put_time get_time 5 5 p = None ↔ pr_batch p ≠ []).
Proof.
  eexists. split; [vm_compute; reflexivity|].
  refine (proj1 (Stop_blocks_iff parse put_time get_time 5 5 _ _)). reflexivity.
Defined.

(** ** Behaviours outside the theorems *)

(** Topic and payload are hashed without a separator: a different message on a
    different topic is taken for a duplicate. *)
Example generated_ids_collide :
  generateMessageID "ab" (string_bytes "c") = generateMessageID "a" (string_bytes "bc") ∧
  (p1 ← publish 1 "ab" (string_bytes "c") "" dedup; publish 2 "a" (string_bytes "bc") "" p1.1)
    ≫= (λ r, Some (length (published r.1), dedup_count r.1)) = Some (1%nat, 1).
Proof. split; vm_compute; reflexivity. Qed.

(** Two messages with one id in the same batch are both published. *)
Example duplicates_in_one_batch :
  (p1 ← publish 1 "t" [1] "id" (initial 0 (behavior 2 true "5m" None));
   publish 2 "t" [1] "id" p1.1) ≫= (λ r, Some (length (published r.1), dedup_count r.1))
  = Some (2%nat, 0).
Proof. vm_compute. reflexivity. Qed.

(** A batch that fails is gone, without a retry. *)
Example failed_batch_is_dropped :
  (p1 ← publish 1 "t" [1] "a" (initial 1 (behavior 2 false "" None));
   publish 2 "t" [2] "b" p1.1) ≫= (λ r, Some (published r.1, pr_batch r.1, r.2))
  = Some ([], [], Some ErrPublish).
Proof. vm_compute. reflexivity. Qed.

(** Batched messages do not go through the claim check, however large they are. *)
Example batched_payload_ignores_claim_check :
  (publish 1 "t" [1; 2; 3] "a"
     (initial 0 (behavior 1 false "" (Some (mkClaimCheckConfig true 2 "b" 0 "")))))
    ≫= (λ r, Some (published r.1))
  = Some [("t"%string, [1; 2; 3], ∅)].
Proof. vm_compute. reflexivity. Qed.

(** The TTL of the record is cut to whole seconds: a duplicate in the last part of the
    window is published. *)
Example window_is_cut_to_seconds :
  (p1 ← publish 1 "t" [1] "id" (initial 0 (behavior 0 true "1500ms" None));
   publish (1200 * Millisecond) "t" [1] "id" p1.1) ≫= (λ r, Some (length (published r.1)))
  = Some 2%nat.
Proof. vm_compute. reflexivity. Qed.
End ProducerDemo.
