(* ===== verification/Consumer.v ===== *)
(** * patterns/consumer: the consumer pattern

    consumer.go and config.go.  The consumer takes messages from its source, resolves
    claim checks, hands them to the processor, and keeps its position in a state
    store.  The loop of [consume] is modelled message by message ([handle_message]);
    [verdict] is the answer of the user's processor.  Parameters: the JSON coding of
    the state and of claim checks, and gzip.  Deleting a claim after it was read is
    done by a goroutine: the deletions it has been asked for are kept in a list and
    carried out one by one.  Counters are integers. *)

From S2P Require Import Prelude Memstore MemPubSub Slots.
Local Open Scope Z_scope.

(** ** config.go *)

Record ConsumerBehavior := mkConsumerBehavior {
  cb_ConsumerGroup : string;
  cb_Topic : string;
  cb_MaxRetries : Z;
  cb_BatchSize : Z;
  cb_AutoCommit : bool;
  cb_DeleteAfterRead : option bool  (* of [ClaimCheck], when there is one *) }.

Record ConsumerConfig := mkConsumerConfig {
  cg_Name : string;
  cg_Behavior : ConsumerBehavior }.

Inductive consumer_error :=
  | ErrConsumerName
  | ErrConsumerGroup
  | ErrTopic
  | ErrConsumerRetries
  | ErrConsumerBatch
  | ErrBindRunning
  | ErrSourceInterface
  | ErrDeadLetterInterface
  | ErrRunning
  | ErrSourceUnbound
  | ErrNoProcessor.

Definition ValidateConsumer (c : ConsumerConfig) : option consumer_error :=
  let b := cg_Behavior c in
  if bool_decide (cg_Name c = ""%string) then Some ErrConsumerName
  else if bool_decide (cb_ConsumerGroup b = ""%string) then Some ErrConsumerGroup
  else if bool_decide (cb_Topic b = ""%string) then Some ErrTopic
  else if cb_MaxRetries b <? 0 then Some ErrConsumerRetries
  else if cb_BatchSize b <? 0 then Some ErrConsumerBatch
  else None.

Record ConsumerState := mkConsumerState {
  cs_Offset : Z;
  cs_LastMessageID : string;
  cs_LastUpdated : Z;
  cs_RetryCount : Z }.

Section Consumer.
Context {Sk Kv Ob : Type} `{!MessageSink Sk, !StateStore Kv, !ObjectStore Ob}.
Context (marshal_state : ConsumerState → option bytes) (unmarshal_state : bytes → option ConsumerState).
Context (unmarshal_claim : bytes → option ClaimCheckMessage).
Context (DecompressGzip : bytes → option bytes).

Record Consumer := mkConsumer {
  cn_config : ConsumerConfig;
  cn_messageSource : option Sk;
  cn_stateStore : option Kv;
  cn_deadLetter : option Sk;
  cn_objectStore : option Ob;
  cn_running : bool;
  cn_processor : bool  (* whether a processor is set *);
  cn_deletes : list (string * string) }.

Definition cn_behavior (c : Consumer) : ConsumerBehavior := cg_Behavior (cn_config c).

Definition cn_set_state (k : Kv) (c : Consumer) : Consumer :=
  mkConsumer (cn_config c) (cn_messageSource c) (Some k) (cn_deadLetter c) (cn_objectStore c)
    (cn_running c) (cn_processor c) (cn_deletes c).
Definition cn_set_deadLetter (s : Sk) (c : Consumer) : Consumer :=
  mkConsumer (cn_config c) (cn_messageSource c) (cn_stateStore c) (Some s) (cn_objectStore c)
    (cn_running c) (cn_processor c) (cn_deletes c).
Definition cn_set_running (b : bool) (c : Consumer) : Consumer :=
  mkConsumer (cn_config c) (cn_messageSource c) (cn_stateStore c) (cn_deadLetter c)
    (cn_objectStore c) b (cn_processor c) (cn_deletes c).
Definition cn_set_deletes (l : list (string * string)) (c : Consumer) : Consumer :=
  mkConsumer (cn_config c) (cn_messageSource c) (cn_stateStore c) (cn_deadLetter c)
    (cn_objectStore c) (cn_running c) (cn_processor c) l.

(** ** Lifecycle *)

Definition NewConsumer (config : ConsumerConfig) : result consumer_error Consumer :=
  match ValidateConsumer config with
  | Some e => Err e
  | None => Ok (mkConsumer config None None None None false false [])
  end.

(** An unsuitable dead letter slot is reported after the other two are bound. *)
Definition ConsumerBindSlots (messageSource : Sk) (stateStore : option Kv) (deadLetter : option Sk)
    (objectStore : option Ob) (c : Consumer) : Consumer * option consumer_error :=
  if cn_running c then (c, Some ErrBindRunning)
  else if sk_is_pubsub messageSource || sk_is_queue messageSource then
    let bound d o :=
      mkConsumer (cn_config c) (Some messageSource) stateStore d o (cn_running c)
        (cn_processor c) (cn_deletes c) in
    match deadLetter with
    | Some d =>
        if sk_is_queue d then (bound (Some d) objectStore, None)
        else (bound (cn_deadLetter c) (cn_objectStore c), Some ErrDeadLetterInterface)
    | None => (bound (cn_deadLetter c) objectStore, None)
    end
  else (c, Some ErrSourceInterface).

Definition SetProcessor (processor : bool) (c : Consumer) : Consumer :=
  mkConsumer (cn_config c) (cn_messageSource c) (cn_stateStore c) (cn_deadLetter c)
    (cn_objectStore c) (cn_running c) processor (cn_deletes c).

Definition ConsumerStart (c : Consumer) : Consumer * option consumer_error :=
  if cn_running c then (c, Some ErrRunning)
  else match cn_messageSource c with
       | None => (c, Some ErrSourceUnbound)
       | Some _ =>
           if cn_processor c then (cn_set_running true c, None) else (c, Some ErrNoProcessor)
       end.

Definition ConsumerStop (c : Consumer) : Consumer :=
  if cn_running c then cn_set_running false c else c.

(** ** Position *)

Definition stateKey (c : Consumer) : string :=
  ("consumer:" +:+ cb_ConsumerGroup (cn_behavior c) +:+ ":" +:+ cb_Topic (cn_behavior c)
     +:+ ":" +:+ cg_Name (cn_config c))%string.

(** [None] is an error, which ends [consume]. *)
Definition loadState (now : Z) (c : Consumer) : Consumer * option ConsumerState :=
  let fresh := mkConsumerState 0 "" now 0 in
  match cn_stateStore c with
  | None => (c, Some fresh)
  | Some k =>
      let '(k, r) := ss_Get now (stateKey c) k in
      (cn_set_state k c,
       match r with
       | None => None
       | Some None => Some fresh
       | Some (Some data) => unmarshal_state data
       end)
  end.

(** Errors are only logged. *)
Definition saveState (now : Z) (st : ConsumerState) (c : Consumer) : Consumer :=
  match cn_stateStore c, marshal_state st with
  | Some k, Some data => cn_set_state (ss_Set now (stateKey c) data 0 k).1 c
  | _, _ => c
  end.

(** ** Messages *)

Definition decompressPayload (data : bytes) (algorithm : string) : option bytes :=
  if bool_decide (algorithm = "gzip"%string) then DecompressGzip data else None.

Definition set_content (payload : bytes) (md : str_map) (msg : PubSubMessage) : PubSubMessage :=
  mkPubSubMessage (pm_MessageID msg) (pm_Topic msg) payload md (pm_Timestamp msg).

(** The message is changed in place when the claim is resolved; [None] is an error. *)
Definition resolveClaimCheck (now : Z) (msg : PubSubMessage) (c : Consumer)
    : Consumer * option PubSubMessage :=
  match cn_objectStore c, unmarshal_claim (pm_Payload msg) with
  | Some o, Some claim =>
      match os_Get now (cc_Bucket claim) (cc_ObjectKey claim) o with
      | None => (c, None)
      | Some data =>
          let plain :=
            if bool_decide (cc_Compression claim = "none"%string)
               || bool_decide (cc_Compression claim = ""%string)
            then Some data else decompressPayload data (cc_Compression claim) in
          match plain with
          | None => (c, None)
          | Some data =>
              if negb (bool_decide (CalculateSHA256 data = cc_Checksum claim)) then (c, None)
              else
                let md := pm_Metadata msg in
                let md := if bool_decide (cc_ContentType claim = ""%string) then md
                          else <["content-type"%string := cc_ContentType claim]> md in
                let md := delete "prism-claim-check"%string md in
                (match cb_DeleteAfterRead (cn_behavior c) with
                 | Some true =>
                     cn_set_deletes (cn_deletes c ++ [(cc_Bucket claim, cc_ObjectKey claim)]) c
                 | _ => c
                 end, Some (set_content data md msg))
          end
      end
  | _, _ => (c, None)
  end.

(** The goroutine of a deletion. *)
Definition run_delete (c : Consumer) : Consumer :=
  match cn_deletes c, cn_objectStore c with
  | (bucket, key) :: l, Some o =>
      mkConsumer (cn_config c) (cn_messageSource c) (cn_stateStore c) (cn_deadLetter c)
        (Some (os_Delete bucket key o).1) (cn_running c) (cn_processor c) l
  | _, _ => c
  end.

Definition is_claim (msg : PubSubMessage) : bool :=
  bool_decide (pm_Metadata msg !! "prism-claim-check"%string = Some "true"%string).

(** The message as it is afterwards, what the processor was called with, and whether
    no error was returned. *)
Definition processMessage (now : Z) (verdict : PubSubMessage → bool) (msg : PubSubMessage)
    (c : Consumer) : Consumer * PubSubMessage * option PubSubMessage * bool :=
  let '(c, resolved) := if is_claim msg then resolveClaimCheck now msg c else (c, Some msg) in
  match resolved with
  | None => (c, msg, None, false)
  | Some msg => (c, msg, Some msg, verdict msg)
  end.

Definition shouldRetry (st : ConsumerState) (c : Consumer) : bool :=
  cs_RetryCount st <? cb_MaxRetries (cn_behavior c).

(** Errors are only logged. *)
Definition sendToDeadLetter (msg : PubSubMessage) (c : Consumer) : Consumer :=
  match cn_deadLetter c with
  | None => c
  | Some d =>
      cn_set_deadLetter
        (sk_Enqueue ((cb_Topic (cn_behavior c) +:+ ".dlq")%string, pm_Payload msg, pm_Metadata msg) d).1
        c
  end.

(** What became of a message: a failure that is counted as a retry leaves the message
    behind, the loop goes on with the next one. *)
Inductive fate := Committed | RetryCounted | DeadLettered.

(** One turn of the loop of [consume] with a message. *)
Definition handle_message (now : Z) (verdict : PubSubMessage → bool) (msg : PubSubMessage)
    (c : Consumer) (st : ConsumerState) : Consumer * ConsumerState * fate :=
  let '(c, msg, _, ok) := processMessage now verdict msg c in
  if ok then
    let st := mkConsumerState (cs_Offset st + 1) (pm_MessageID msg) now 0 in
    (if cb_AutoCommit (cn_behavior c) then saveState now st c else c, st, Committed)
  else if shouldRetry st c then
    let st := mkConsumerState (cs_Offset st) (cs_LastMessageID st) (cs_LastUpdated st)
                (cs_RetryCount st + 1) in
    (saveState now st c, st, RetryCounted)
  else
    (sendToDeadLetter msg c,
     mkConsumerState (cs_Offset st) (cs_LastMessageID st) (cs_LastUpdated st) 0, DeadLettered).

(** The messages of a run, each with the time it is handled. *)
Fixpoint consume_all (verdict : PubSubMessage → bool) (msgs : list (Z * PubSubMessage))
    (c : Consumer) (st : ConsumerState) : Consumer * ConsumerState * list fate :=
  match msgs with
  | [] => (c, st, [])
  | (now, msg) :: msgs =>
      let '(c, st, f) := handle_message now verdict msg c st in
      let '(c, st, fs) := consume_all verdict msgs c st in
      (c, st, f :: fs)
  end.

(** [consume]: load the state, subscribe, then the messages; the loop ends when the
    context is cancelled, and [running] is reset. *)
Definition consume (now : Z) (subscribed : bool) (verdict : PubSubMessage → bool) (msgs : list (Z * PubSubMessage))
    (c : Consumer) : Consumer * option (ConsumerState * list fate) :=
  let '(c, st) := loadState now c in
  match st with
  | None => (cn_set_running false c, None)
  | Some st =>
      if negb subscribed then (cn_set_running false c, None)
      else
      let '(c, st, fs) := consume_all verdict msgs c st in
      (cn_set_running false c, Some (st, fs))
  end.

Definition ConsumerHealth (c : Consumer) : HealthState :=
  if cn_running c then HealthHealthy else HealthDegraded.
End Consumer.
