(* ===== verification/ConsumerSpec.v ===== *)
(** * Correctness of the consumer pattern

    Claim checks made by the producer are resolved to the original message, the
    position survives a restart, and what becomes of messages that fail. *)

From S2P Require Import Prelude Memstore MemPubSub Slots Producer Consumer.
Local Open Scope Z_scope.

(** ** Claim checks from end to end *)

Section ClaimCheck.
Context {Sk Kv Ob : Type} `{!MessageSink Sk, !StateStore Kv, !ObjectStore Ob}.
Context (marshal_claim : ClaimCheckMessage → option bytes).
Context (unmarshal_claim : bytes → option ClaimCheckMessage).
Context (CompressGzip DecompressGzip : bytes → option bytes).
Hypothesis claim_coding : ∀ claim data,
  marshal_claim claim = Some data → unmarshal_claim data = Some claim.
Hypothesis gzip_coding : ∀ data z, CompressGzip data = Some z → DecompressGzip z = Some data.

(** What was uploaded is unpacked again, whatever compression is configured. *)
Lemma compressed_roundtrip cfg payload data compression :
  compressed CompressGzip cfg payload = (data, compression) →
  (if bool_decide (compression = "none"%string) || bool_decide (compression = ""%string)
   then Some data else decompressPayload DecompressGzip data compression) = Some payload.
Proof.
  unfold compressed, compressPayload, decompressPayload.
  repeat case_bool_decide; simpl; intros E; simplify_eq; try done.
  all: destruct (CompressGzip payload) as [z|] eqn:Hz; simplify_eq; auto.
Qed.

(** A claim in the object store of the producer, at a time before it expires. *)
Lemma claim_stored now t uuid msg (p : @Producer Sk Kv Ob) p' payload' md' cfg :
  bc_ClaimCheck (pr_behavior p) = Some cfg →
  createClaimCheck marshal_claim CompressGzip now uuid msg p = (p', Some (payload', md')) →
  now ≤ t → (0 < ck_TTL cfg → t ≤ now + ck_TTL cfg * Second) →
  md' = <["prism-claim-check"%string := "true"%string]> (msg_Metadata msg) ∧
  ∃ o claim data, pr_objectStore p' = Some o ∧ unmarshal_claim payload' = Some claim ∧
    os_Get t (cc_Bucket claim) (cc_ObjectKey claim) o = Some data ∧
    compressed CompressGzip cfg (msg_Payload msg) = (data, cc_Compression claim) ∧
    cc_Checksum claim = CalculateSHA256 (msg_Payload msg) ∧
    cc_ContentType claim = default ""%string (msg_Metadata msg !! "content-type"%string).
Proof using claim_coding.
  intros Hcfg Hcr Ht Httl. unfold createClaimCheck in Hcr. rewrite Hcfg in Hcr.
  destruct (pr_objectStore p) as [o|]; [|done].
  destruct (compressed CompressGzip cfg (msg_Payload msg)) as [data compression] eqn:Hz.
  destruct (os_Put now _ _ data o) as [o1 []] eqn:Hput; simpl in Hcr; [|done].
  destruct (marshal_claim _) as [cp|] eqn:Hm; simplify_eq/=. apply claim_coding in Hm.
  split; [done|]. eexists _, _, data. split_and!; [done|exact Hm| |done..]. simpl.
  assert (os_Get t (ck_Bucket cfg) (pr_name p +:+ "/" +:+ msg_Topic msg +:+ "/" +:+ uuid)%string o1
          = Some data) as Hget.
  { rewrite (os_Put_Get _ _ _ _ _ _ t _ _ Hput Ht). by rewrite bool_decide_eq_true_2. }
  destruct (0 <? ck_TTL cfg) eqn:Hpos; [|done]. bool_to_prop. rewrite os_SetTTL_Get; auto.
Qed.

(** C10. Claim checks from end to end: when the producer replaces a large payload by a
    claim, a consumer that shares the object store and handles the published message
    before the claim expires calls its processor with the original payload and the
    original metadata, without the marker, whatever compression is configured. *)
Theorem claim_check_roundtrip now t uuid msg (p : @Producer Sk Kv Ob) p' payload' md' cfg
    verdict mid ts (c : @Consumer Sk Kv Ob) :
  bc_ClaimCheck (pr_behavior p) = Some cfg →
  createClaimCheck marshal_claim CompressGzip now uuid msg p = (p', Some (payload', md')) →
  cn_objectStore c = pr_objectStore p' →
  now ≤ t → (0 < ck_TTL cfg → t ≤ now + ck_TTL cfg * Second) →
  let received := mkPubSubMessage mid (msg_Topic msg) payload' md' ts in
  let original := mkPubSubMessage mid (msg_Topic msg) (msg_Payload msg)
                    (delete "prism-claim-check"%string (msg_Metadata msg)) ts in
  ∃ c', processMessage unmarshal_claim DecompressGzip t verdict received c =
          (c', original, Some original, verdict original).
Proof using claim_coding gzip_coding.
  intros Hcfg Hcr Ho Ht Httl received original.
  destruct (claim_stored _ _ _ _ _ _ _ _ _ Hcfg Hcr Ht Httl)
    as (-> & o & claim & data & Ep & Hun & Hget & Hz & Hsum & Hct).
  unfold processMessage. assert (is_claim received = true) as ->.
  { apply bool_decide_eq_true. simpl. apply lookup_insert_eq. }
  unfold resolveClaimCheck. rewrite Ho, Ep. simpl. rewrite Hun, Hget.
  rewrite (compressed_roundtrip _ _ _ _ Hz), Hsum, bool_decide_eq_true_2 by done. simpl.
  set (md := delete _ _). assert (md = delete "prism-claim-check"%string (msg_Metadata msg)) as ->.
  { unfold md. rewrite Hct. clear md. apply map_eq. intros k.
    destruct (decide (k = "prism-claim-check"%string)) as [->|Hk]; [by rewrite !lookup_delete_eq|].
    rewrite !lookup_delete_ne by done.
    destruct (msg_Metadata msg !! "content-type"%string) as [ct|] eqn:Hl; simpl;
      try case_bool_decide; rewrite ?lookup_insert_ne by done; try done.
    destruct (decide (k = "content-type"%string)) as [->|?];
      [by rewrite lookup_insert_eq|by rewrite !lookup_insert_ne]. }
  eexists. reflexivity.
Qed.
End ClaimCheck.

Section Loop.
Context {Sk Kv Ob : Type} `{!MessageSink Sk, !StateStore Kv, !ObjectStore Ob}.
Context (marshal_state : ConsumerState → option bytes) (unmarshal_state : bytes → option ConsumerState).
Context (unmarshal_claim : bytes → option ClaimCheckMessage).
Context (DecompressGzip : bytes → option bytes).

Implicit Types (c : @Consumer Sk Kv Ob) (st : ConsumerState) (fs : list fate).

Abbreviation handle_message := (handle_message marshal_state unmarshal_claim DecompressGzip).
Abbreviation consume_all := (consume_all marshal_state unmarshal_claim DecompressGzip).
Abbreviation loadState := (loadState (Sk := Sk) (Ob := Ob) unmarshal_state).

#[local] Instance fate_eq_dec : EqDecision fate.
Proof. solve_decision. Defined.

(** How many messages met fate [f]. *)
Definition tally (f : fate) fs : nat := length (List.filter (λ g, bool_decide (g = f)) fs).

Lemma tally_cons f g fs :
  tally f (g :: fs) = ((if bool_decide (g = f) then 1 else 0) + tally f fs)%nat.
Proof. unfold tally. simpl. by case_match. Qed.

Definition dead_letters c : list sink_message :=
  match cn_deadLetter c with Some d => sk_log d | None => [] end.

(** ** One message *)

(** Configuration, state store and dead letters are left alone. *)
Definition same_stores c c' : Prop :=
  cn_config c' = cn_config c ∧ cn_stateStore c' = cn_stateStore c ∧
  cn_deadLetter c' = cn_deadLetter c.

Lemma process_frame now verdict msg c :
  same_stores c (processMessage unmarshal_claim DecompressGzip now verdict msg c).1.1.1.
Proof.
  unfold processMessage.
  assert (same_stores c (if is_claim msg
    then resolveClaimCheck unmarshal_claim DecompressGzip now msg c else (c, Some msg)).1) as H.
  { destruct (is_claim msg); [|done]. unfold resolveClaimCheck. by repeat case_match. }
  destruct (if is_claim msg then _ else _) as [c1 [m|]]; exact H.
Qed.

Lemma saveState_frame now st c :
  cn_config (saveState marshal_state now st c) = cn_config c ∧
  cn_deadLetter (saveState marshal_state now st c) = cn_deadLetter c.
Proof. unfold saveState. by repeat case_match. Qed.

(** The three ways a message can go. *)
Lemma handle_cases now verdict msg c st c' st' f :
  handle_message now verdict msg c st = (c', st', f) →
  ∃ c1 m, same_stores c c1 ∧
    ((f = Committed ∧
      st' = mkConsumerState (cs_Offset st + 1) (pm_MessageID m) now 0 ∧
      c' = (if cb_AutoCommit (cn_behavior c1) then saveState marshal_state now st' c1 else c1)) ∨
     (f = RetryCounted ∧ cs_RetryCount st < cb_MaxRetries (cn_behavior c) ∧
      st' = mkConsumerState (cs_Offset st) (cs_LastMessageID st) (cs_LastUpdated st)
              (cs_RetryCount st + 1) ∧
      c' = saveState marshal_state now st' c1) ∨
     (f = DeadLettered ∧ cb_MaxRetries (cn_behavior c) ≤ cs_RetryCount st ∧
      st' = mkConsumerState (cs_Offset st) (cs_LastMessageID st) (cs_LastUpdated st) 0 ∧
      c' = sendToDeadLetter m c1)).
Proof.
  unfold Consumer.handle_message. pose proof (process_frame now verdict msg c) as Hf.
  destruct (processMessage _ _ now verdict msg c) as [[[c1 m] call] ok]. simpl in Hf.
  assert (cn_behavior c1 = cn_behavior c) as Eb by (unfold cn_behavior; destruct Hf as (-> & _); done).
  intros E. exists c1, m. split; [done|]. destruct ok; [left; by simplify_eq|right].
  unfold shouldRetry in E. rewrite Eb in E. destruct (_ <? _) eqn:Hr; bool_to_prop; simplify_eq.
  - by left.
  - right. by split_and!.
Qed.

Lemma deadLetter_grows m c :
  (length (dead_letters (sendToDeadLetter m c)) ≤ S (length (dead_letters c)))%nat ∧
  cn_config (sendToDeadLetter m c) = cn_config c ∧
  cn_stateStore (sendToDeadLetter m c) = cn_stateStore c.
Proof.
  unfold sendToDeadLetter, dead_letters. destruct (cn_deadLetter c) as [d|] eqn:Hd; simpl.
  - destruct (sk_Enqueue _ d) as [d' ok] eqn:E. simpl.
    destruct (sk_Enqueue_log _ _ _ _ E) as [->|[_ ->]]; rewrite ?length_app; simpl; split_and!; try done; lia.
  - rewrite Hd. simpl. split_and!; try done; lia.
Qed.

(** ** Accounting *)

(** C29. What becomes of the messages of a run: each is handled once, the offset moves
    by the number of messages that were processed, and the dead letter queue gets at
    most the ones that were given up.  A failure that is counted as a retry leaves its
    message behind: for every message that is given up, [MaxRetries] failed messages
    before it were dropped (less the retries already on the counter). *)
Theorem consumer_accounting verdict msgs c st c' st' fs :
  0 ≤ cs_RetryCount st ≤ cb_MaxRetries (cn_behavior c) →
  consume_all verdict msgs c st = (c', st', fs) →
  length fs = length msgs ∧
  cs_Offset st' = cs_Offset st + Z.of_nat (tally Committed fs) ∧
  (length (dead_letters c') ≤ length (dead_letters c) + tally DeadLettered fs)%nat ∧
  0 ≤ cs_RetryCount st' ≤ cb_MaxRetries (cn_behavior c) ∧
  cb_MaxRetries (cn_behavior c) * Z.of_nat (tally DeadLettered fs) + cs_RetryCount st' ≤
    cs_RetryCount st + Z.of_nat (tally RetryCounted fs).
Proof.
  revert c st fs. induction msgs as [|[now msg] msgs IH]; intros c st fs Hr; simpl.
  { intros [= <- <- <-]. unfold tally, cn_behavior in *. simpl. split_and!; try done; lia. }
  destruct (handle_message now verdict msg c st) as [[c1 st1] f] eqn:E1.
  destruct (consume_all verdict msgs c1 st1) as [[c2 st2] fs2] eqn:E2. intros [= <- <- <-].
  destruct (handle_cases _ _ _ _ _ _ _ _ E1) as (c0 & m & (F1 & F2 & F3) & Hcase).
  assert (cn_config c1 = cn_config c ∧
    (length (dead_letters c1) ≤ length (dead_letters c) + tally DeadLettered [f])%nat) as [Ec Hd].
  { assert (dead_letters c0 = dead_letters c) as Ed by (unfold dead_letters; by rewrite F3).
    destruct Hcase as [(-> & _ & ->)|[(-> & _ & _ & ->)|(-> & _ & _ & ->)]].
    - case_match; [|rewrite Ed, F1; split; [done|lia]]. destruct (saveState_frame now st1 c0) as [-> E].
      split; [done|]. unfold dead_letters in *. rewrite E, Ed. lia.
    - destruct (saveState_frame now st1 c0) as [-> E].
      split; [done|]. unfold dead_letters in *. rewrite E, Ed. lia.
    - destruct (deadLetter_grows m c0) as (Hg & -> & _). rewrite Ed in Hg.
      split; [done|]. unfold tally. simpl. lia. }
  assert (cn_behavior c1 = cn_behavior c) as Eb by (unfold cn_behavior; by rewrite Ec).
  destruct (IH c1 st1 fs2) as (I1 & I2 & I3 & I4 & I5); [|done|].
  { rewrite Eb. destruct Hcase as [(_ & -> & _)|[(_ & ? & -> & _)|(_ & _ & -> & _)]];
      cbn [cs_RetryCount]; lia. }
  rewrite Eb in I4, I5. rewrite tally_cons in Hd. change (tally DeadLettered []) with 0%nat in Hd.
  rewrite !tally_cons. split_and!; [simpl; by rewrite I1|..].
  all: destruct Hcase as [(-> & Es & _)|[(-> & ? & Es & _)|(-> & ? & Es & _)]];
    rewrite Es in I2, I5; cbn [cs_Offset cs_RetryCount] in I2, I5;
    repeat case_bool_decide; try done; lia.
Qed.

(** ** The position *)

Context (marshal_roundtrip : ∀ st data, marshal_state st = Some data → unmarshal_state data = Some st).
Context (marshal_total : ∀ st, is_Some (marshal_state st)).
Context (reliable : ∀ now k v ttl (s : Kv), (ss_Set now k v ttl s).2 = true).

(** What a restart at time [t] would find agrees with the position. *)
Definition position_saved (t : Z) c st : Prop :=
  ∃ k, cn_stateStore c = Some k ∧
    match ss_at t k (stateKey c) with
    | None => cs_Offset st = 0 ∧ cs_LastMessageID st = ""%string
    | Some data => ∃ st0, unmarshal_state data = Some st0 ∧
        cs_Offset st0 = cs_Offset st ∧ cs_LastMessageID st0 = cs_LastMessageID st
    end.

Lemma saved_frame t c c' st st' :
  position_saved t c st → cn_config c' = cn_config c → cn_stateStore c' = cn_stateStore c →
  cs_Offset st' = cs_Offset st → cs_LastMessageID st' = cs_LastMessageID st →
  position_saved t c' st'.
Proof.
  intros (k & Hk & Hv) Ec Es Eo El. exists k. rewrite Es. split; [done|].
  unfold stateKey, cn_behavior in *. by rewrite Ec, Eo, El.
Qed.

Lemma saved_after_save now t c st st' :
  position_saved t c st → now ≤ t → position_saved t (saveState marshal_state now st' c) st'.
Proof using marshal_roundtrip marshal_total reliable.
  intros (k & Hk & _) Ht. destruct (marshal_total st') as [data Hm].
  unfold saveState. rewrite Hk, Hm. pose proof (reliable now (stateKey c) data 0 k) as Hok.
  destruct (ss_Set _ _ _ _ k) as [k' ok] eqn:E. simpl in *. subst ok.
  exists k'. split; [done|]. change (stateKey (cn_set_state k' c)) with (stateKey c).
  rewrite (ss_Set_at _ _ _ _ _ _ t _ E Ht) by done. rewrite bool_decide_eq_true_2 by done.
  simpl. exists st'. auto.
Qed.

(** The position survives a restart: with a state store that accepts its writes
    and automatic commits, a consumer that is started again after any number of
    messages finds the offset and the last message id it had reached, unless the read
    itself reports an error (which ends [consume]). *)
Theorem position_survives_restart verdict msgs c st c' st' fs t :
  cb_AutoCommit (cn_behavior c) = true → position_saved t c st →
  Forall (λ e, e.1 ≤ t) msgs → consume_all verdict msgs c st = (c', st', fs) →
  (loadState t c').2 = None ∨
  ∃ st0, (loadState t c').2 = Some st0 ∧
    cs_Offset st0 = cs_Offset st' ∧ cs_LastMessageID st0 = cs_LastMessageID st'.
Proof using marshal_roundtrip marshal_total reliable.
  intros Hauto Hpos Hall Hrun.
  assert (position_saved t c' st') as (k & Hk & Hv).
  { revert c st fs Hauto Hpos Hall Hrun.
    induction msgs as [|[now msg] msgs IH]; intros c st fs Hauto Hpos Hall; simpl;
      [by intros [= <- <- _]|]. inversion_clear Hall as [|?? Hnow Hrest]. simpl in Hnow.
    destruct (handle_message now verdict msg c st) as [[c1 st1] f] eqn:E1.
    destruct (consume_all verdict msgs c1 st1) as [[c2 st2] fs2] eqn:E2. intros [= <- <- _].
    destruct (handle_cases _ _ _ _ _ _ _ _ E1) as (c0 & m & (F1 & F2 & F3) & Hcase).
    assert (∀ s, cs_Offset s = cs_Offset st → cs_LastMessageID s = cs_LastMessageID st →
              position_saved t c0 s) as Hpos0 by (intros; by eapply saved_frame).
    assert (cn_config c1 = cn_config c ∧ position_saved t c1 st1) as [Ec Hp1].
    { assert (cn_behavior c0 = cn_behavior c) as Eb by (unfold cn_behavior; by rewrite F1).
      destruct Hcase as [(_ & _ & ->)|[(_ & _ & _ & ->)|(_ & _ & Es & ->)]].
      - rewrite Eb, Hauto. destruct (saveState_frame now st1 c0) as [-> _].
        split; [done|]. eapply (saved_after_save now t c0 st); auto.
      - destruct (saveState_frame now st1 c0) as [-> _].
        split; [done|]. eapply (saved_after_save now t c0 st); auto.
      - destruct (deadLetter_grows m c0) as (_ & E & E'). split; [congruence|].
        eapply (saved_frame t c0); [by apply Hpos0|done|done|by rewrite Es..]. }
    eapply IH; [|exact Hp1|done|exact E2]. unfold cn_behavior in *. by rewrite Ec. }
  unfold Consumer.loadState. rewrite Hk.
  destruct (ss_Get t (stateKey c') k) as [k' r] eqn:E. simpl.
  destruct (ss_Get_at _ _ _ _ _ E) as [[->| ->] _]; [by left|right].
  destruct (ss_at t k (stateKey c')) as [data|]; [done|].
  destruct Hv as [Ho Hl]. eexists. split; [done|]. simpl. auto.
Qed.
End Loop.

Module ConsumerDemo.
Import RefSlots.

(** A coding of claims and of states that can be inverted. *)
Definition claim_tuple (c : ClaimCheckMessage) :=
  (cc_ClaimID c, cc_Bucket c, cc_ObjectKey c, cc_OriginalSize c,
   (cc_Compression c, cc_ContentType c, cc_Checksum c, cc_ExpiresAt c)).
Definition put_claim (c : ClaimCheckMessage) : option bytes := Some [Zpos (encode (claim_tuple c))].
Definition get_claim (l : bytes) : option ClaimCheckMessage :=
  match l with
  | [Zpos p] =>
      '(a, b, c, d, (e, f, g, h)) ←
        (decode p : option (string * string * string * Z * (string * string * string * Z)));
      Some (mkClaimCheckMessage a b c d e f g h)
  | _ => None
  end.
Definition put_state (st : ConsumerState) : option bytes :=
  Some [cs_Offset st; Zpos (encode (cs_LastMessageID st)); cs_LastUpdated st; cs_RetryCount st].
Definition get_state (l : bytes) : option ConsumerState :=
  match l with
  | [o; Zpos m; u; r] => id ← decode m; Some (mkConsumerState o id u r)
  | _ => None
  end.
Definition gzip (l : bytes) : option bytes := Some (31 :: l).
Definition gunzip (l : bytes) : option bytes := match l with 31 :: l => Some l | _ => None end.

Lemma put_get_claim c data : put_claim c = Some data → get_claim data = Some c.
Proof. intros [= <-]. unfold get_claim. rewrite decode_encode. by destruct c. Qed.
Lemma gzip_gunzip data z : gzip data = Some z → gunzip z = Some data.
Proof. by intros [= <-]. Qed.
Lemma put_get_state st data : put_state st = Some data → get_state data = Some st.
Proof. intros [= <-]. unfold get_state. rewrite decode_encode. by destruct st. Qed.
Lemma put_state_total st : is_Some (put_state st).
Proof. by eexists. Qed.
Lemma store_reliable now k v ttl (s : RefStore) : (ss_Set now k v ttl s).2 = true.
Proof. done. Qed.

Definition claims : ClaimCheckConfig := mkClaimCheckConfig true 2 "bucket" 60 "gzip".
Definition producer : @Producer RefSink RefStore RefObjects :=
  mkProducer (mkProducerConfig "orders" (mkBehaviorConfig 2 "" 0 "" false "" false "" (Some claims)))
    (Some (mkRefSink 0 [])) None (Some (∅ : gmap (string * string) bytes)) true []
    (mkProducerMetrics 0 0 0 0 0).
Definition large : Message :=
  mkMessage "t" [1; 2; 3] {[ "content-type"%string := "text"%string ]} "".

Definition behavior (retries : Z) : ConsumerBehavior :=
  mkConsumerBehavior "group" "t" retries 0 true (Some true).
Definition consumer (retries : Z) (objects : option RefObjects) : @Consumer RefSink RefStore RefObjects :=
  mkConsumer (mkConsumerConfig "c" (behavior retries)) (Some (mkRefSink 0 []))
    (Some (∅ : gmap string (bytes * option Z))) (Some (mkRefSink 0 [])) objects true true [].

(** The claim the producer makes, as the consumer receives it. *)
Definition made : Producer * option (bytes * str_map) :=
  createClaimCheck put_claim gzip 1 "uuid" large producer.
Definition content : bytes * str_map := default ([], ∅) made.2.

Lemma claim_check_roundtrip_witness :
  let original := mkPubSubMessage "m" "t" [1; 2; 3]
                    (delete "prism-claim-check"%string {[ "content-type"%string := "text"%string ]}) 5 in
  ∃ c', processMessage get_claim gunzip Second (λ _, true)
          (mkPubSubMessage "m" "t" content.1 content.2 5) (consumer 3 (pr_objectStore made.1)) =
        (c', original, Some original, true).
Proof.
  refine (claim_check_roundtrip put_claim get_claim gzip gunzip put_get_claim gzip_gunzip 1 Second
            "uuid" large producer made.1 content.1 content.2 claims (λ _, true) "m" 5
            (consumer 3 (pr_objectStore made.1)) _ _ _ _ _).
  - reflexivity.
  - vm_compute. reflexivity.
  - reflexivity.
  - vm_compute. discriminate.
  - intros _. vm_compute. discriminate.
Defined.

Definition message (n : Z) : Z * PubSubMessage := (n, mkPubSubMessage "m" "t" [n] ∅ n).
Definition failing : list (Z * PubSubMessage) := message <$> [1; 2; 3; 4; 5; 6].
Definition fresh : ConsumerState := mkConsumerState 0 "" 0 0.
Definition outcome : Consumer * ConsumerState * list fate :=
  consume_all put_state get_claim gunzip (λ m, bool_decide (pm_Payload m = [6])) failing
    (consumer 3 None) fresh.

Lemma consumer_accounting_witness :
  length outcome.2 = 6%nat ∧
  cs_Offset outcome.1.2 = 0 + Z.of_nat (tally Committed outcome.2) ∧
  (length (dead_letters outcome.1.1) ≤ length (dead_letters (consumer 3 None)) +
     tally DeadLettered outcome.2)%nat ∧
  0 ≤ cs_RetryCount outcome.1.2 ≤ 3 ∧
  3 * Z.of_nat (tally DeadLettered outcome.2) + cs_RetryCount outcome.1.2 ≤
    0 + Z.of_nat (tally RetryCounted outcome.2).
Proof.
  refine (consumer_accounting put_state get_claim gunzip (λ m, bool_decide (pm_Payload m = [6]))
            failing (consumer 3 None) fresh outcome.1.1 outcome.1.2 outcome.2 _ _).
  - vm_compute. split; discriminate.
  - vm_compute. reflexivity.
Defined.

Lemma position_survives_restart_witness :
  (loadState get_state 10 outcome.1.1).2 = None ∨
  ∃ st0, (loadState get_state 10 outcome.1.1).2 = Some st0 ∧
    cs_Offset st0 = cs_Offset outcome.1.2 ∧ cs_LastMessageID st0 = cs_LastMessageID outcome.1.2.
Proof.
  refine (position_survives_restart put_state get_state get_claim gunzip put_get_state
            put_state_total store_reliable (λ m, bool_decide (pm_Payload m = [6])) failing
            (consumer 3 None) fresh outcome.1.1 outcome.1.2 outcome.2 10 _ _ _ _).
  - reflexivity.
  - eexists. split; [reflexivity|]. vm_compute. done.
  - repeat constructor; vm_compute; discriminate.
  - vm_compute. reflexivity.
Defined.

(** With three retries, three messages that fail are dropped before the fourth one is
    sent to the dead letter queue; the processor sees each of them once. *)
Example failed_messages_are_dropped :
  outcome.2 = [RetryCounted; RetryCounted; RetryCounted; DeadLettered; RetryCounted; Committed] ∧
  dead_letters outcome.1.1 = [("t.dlq"%string, [4], ∅)].
Proof. vm_compute. done. Qed.
End ConsumerDemo.
