(* ===== verification/Plugin.v ===== *)
(** * pkg/plugin: configuration, lifecycle and the pattern's side of the control plane

    config_parser.go, lifecycle_service.go and the command handlers of
    pattern_control_plane_client.go over the interface [Plugin] of plugin.go.  A plugin
    is an argument; its operations may change it and fail with a message. *)

From S2P Require Import Prelude Backoff.
Import GoFloat.
Local Open Scope Z_scope.

(** ** config_parser.go *)

(** A [structpb.Value]; [PUnset] is nil or a value with no kind.  The fields of a struct
    are listed with distinct keys. *)
Inductive pb_value :=
  | PUnset
  | PNull
  | PNumber (f : float64)
  | PString (s : string)
  | PBool (b : bool)
  | PStruct (fields : list (string * pb_value))
  | PList (values : list pb_value).

(** A Go [interface{}] as the conversion makes it; a configuration file also yields
    integers. *)
Inductive any :=
  | AnyNil
  | AnyInt (n : Z)
  | AnyFloat (f : float64)
  | AnyString (s : string)
  | AnyBool (b : bool)
  | AnyMap (m : list (string * any))
  | AnySlice (l : list any).

(** [structValueToAny], and [structToMap] on the fields of a struct. *)
Fixpoint structValueToAny (v : pb_value) : any :=
  match v with
  | PUnset | PNull => AnyNil
  | PNumber f => AnyFloat f
  | PString s => AnyString s
  | PBool b => AnyBool b
  | PStruct fields => AnyMap (List.map (λ kv, (kv.1, structValueToAny kv.2)) fields)
  | PList l => AnySlice (List.map structValueToAny l)
  end.
Definition structToMap (fields : list (string * pb_value)) : list (string * any) :=
  List.map (λ kv, (kv.1, structValueToAny kv.2)) fields.

Record Config := mkConfig {
  cfg_Name : string;
  cfg_Version : string;
  cfg_Port : Z;
  cfg_Backend : gmap string any }.

Definition is_section (key : string) : bool := bool_decide (key ∈ ["slots"; "behavior"]%string).

(** A section that is not a struct is dropped. *)
Definition add_section (key : string) (fields : gmap string pb_value) (backend : gmap string any)
    : gmap string any :=
  match fields !! key with
  | Some (PStruct f) => <[key := AnyMap (structToMap f)]> backend
  | _ => backend
  end.

(** The loop over the fields, in any order. *)
Fixpoint add_fields (kvs : list (string * pb_value)) (backend : gmap string any) : gmap string any :=
  match kvs with
  | [] => backend
  | (key, value) :: kvs =>
      add_fields kvs (if is_section key then backend else <[key := structValueToAny value]> backend)
  end.

(** [None]: the struct is nil.  [order]: the fields in the order of the loop. *)
Definition ParseConfigFromStruct (name version : string) (fields : option (gmap string pb_value))
    (order : list (string * pb_value)) : option Config :=
  match fields with
  | None => None
  | Some fields =>
      let backend := add_section "slots" fields ∅ in
      let backend := add_section "behavior" fields backend in
      Some (mkConfig name version 0 (add_fields order backend))
  end.

(** ** The plugin interface *)

Inductive HealthState := HealthUnknown | HealthHealthy | HealthDegraded | HealthUnhealthy.

Record HealthStatus := mkHealthStatus {
  hs_Status : HealthState;
  hs_Message : string;
  hs_Details : gmap string string }.

Record DrainMetrics := mkDrainMetrics { dm_Drained : Z; dm_Aborted : Z }.

(** An error is its message. *)
Class Plugin (P : Type) := {
  pl_Name : P → string;
  pl_Version : P → string;
  pl_Initialize : Config → P → P * option string;
  pl_Start : P → P * option string;
  pl_Drain : Z → string → P → P * (DrainMetrics + string);
  pl_Stop : P → P * option string;
  pl_Health : P → HealthStatus + string }.

(** [HEALTH_STATUS_...] of the protocol. *)
Inductive pb_health := PbUnspecified | PbHealthy | PbDegraded | PbUnhealthy.

Definition health_status (s : HealthState) : pb_health :=
  match s with
  | HealthHealthy => PbHealthy
  | HealthDegraded => PbDegraded
  | HealthUnhealthy => PbUnhealthy
  | HealthUnknown => PbUnspecified
  end.

Section Lifecycle.
Context {P : Type} `{!Plugin P}.

Record Metadata := mkMetadata { md_Name : string; md_Version : string }.
Definition metadata_of (p : P) : Metadata := mkMetadata (pl_Name p) (pl_Version p).

(** An answer: success, the error, and the metadata of an initialized plugin without its
    interface declarations. *)
Inductive lifecycle_answer :=
  | InitializeResponse (success : bool) (error : string) (md : option Metadata)
  | StartResponse (success : bool) (error : string)
  | StopResponse (success : bool) (error : string)
  | DrainResponse (success : bool) (error : string) (drained aborted : Z)
  | HealthCheckResponse (status : pb_health) (message : string) (details : gmap string string).

(** *** lifecycle_service.go *)

Record LifecycleService := mkLifecycleService { ls_plugin : P; ls_config : option Config }.

Definition NewLifecycleService (p : P) : LifecycleService := mkLifecycleService p None.

Definition initialize_answer (r : P * option string) : lifecycle_answer :=
  match r.2 with
  | Some e => InitializeResponse false e None
  | None => InitializeResponse true "" (Some (metadata_of r.1))
  end.

Definition Lifecycle_Initialize (name version : string) (config : option (gmap string pb_value))
    (order : list (string * pb_value)) (s : LifecycleService) : LifecycleService * lifecycle_answer :=
  let config :=
    match ParseConfigFromStruct name version config order with
    | Some config => config
    | None => mkConfig name version 9090 ∅
    end in
  let r := pl_Initialize config (ls_plugin s) in
  (mkLifecycleService r.1 (Some config), initialize_answer r).

Definition Lifecycle_Start (s : LifecycleService) : LifecycleService * lifecycle_answer :=
  let '(p, e) := pl_Start (ls_plugin s) in
  (mkLifecycleService p (ls_config s),
   match e with Some e => StartResponse false e | None => StartResponse true "" end).

Definition Lifecycle_Drain (timeout : Z) (reason : string) (s : LifecycleService)
    : LifecycleService * lifecycle_answer :=
  let '(p, r) := pl_Drain timeout reason (ls_plugin s) in
  (mkLifecycleService p (ls_config s),
   match r with
   | inl m => DrainResponse true "" (dm_Drained m) (dm_Aborted m)
   | inr e => DrainResponse false e 0 0
   end).

Definition Lifecycle_Stop (s : LifecycleService) : LifecycleService * lifecycle_answer :=
  let '(p, e) := pl_Stop (ls_plugin s) in
  (mkLifecycleService p (ls_config s),
   match e with Some e => StopResponse false e | None => StopResponse true "" end).

Definition health_answer (p : P) : lifecycle_answer :=
  match pl_Health p with
  | inr e => HealthCheckResponse PbUnhealthy e ∅
  | inl h => HealthCheckResponse (health_status (hs_Status h)) (hs_Message h) (hs_Details h)
  end.

Definition Lifecycle_HealthCheck (s : LifecycleService) : lifecycle_answer := health_answer (ls_plugin s).

(** *** The handlers of pattern_control_plane_client.go *)

Inductive command_body :=
  | CInitialize (name version : string) (config : option (gmap string pb_value))
      (order : list (string * pb_value))
  | CStart
  | CStop (timeout : Z)
  | CHealthCheck
  | CShutdown (reason : string)
  | COther.

(** The client's state as its handlers see it: the plugin, and whether [stopChan] is
    closed; closing it twice panics. *)
Record client := mkClient { cl_plugin : P; cl_stopped : bool; cl_panicked : bool }.

Definition set_plugin (p : P) (c : client) : client := mkClient p (cl_stopped c) (cl_panicked c).

Definition close_stop (c : client) : client :=
  if cl_stopped c then mkClient (cl_plugin c) true true else mkClient (cl_plugin c) true (cl_panicked c).

(** [None]: a handler failed, which is answered with an empty message.  A nil
    configuration is an error here. *)
Definition handleCommand (body : command_body) (c : client) : client * option lifecycle_answer :=
  match body with
  | CInitialize name version config order =>
      match ParseConfigFromStruct name version config order with
      | None => (c, Some (InitializeResponse false "failed to parse config: config struct is nil" None))
      | Some config =>
          let r := pl_Initialize config (cl_plugin c) in
          (set_plugin r.1 c, Some (initialize_answer r))
      end
  | CStart =>
      let '(p, e) := pl_Start (cl_plugin c) in
      (set_plugin p c,
       Some (match e with Some e => StartResponse false e | None => StartResponse true "" end))
  | CStop _ =>
      let '(p, e) := pl_Stop (cl_plugin c) in
      (set_plugin p c,
       Some (match e with Some e => StopResponse false e | None => StopResponse true "" end))
  | CHealthCheck => (c, Some (health_answer (cl_plugin c)))
  | CShutdown _ =>
      let '(p, _) := pl_Stop (cl_plugin c) in
      (close_stop (set_plugin p c), Some (StopResponse true ""))
  | COther => (c, None)
  end.

(** [Close] closes [stopChan] as well. *)
Definition Client_Close (c : client) : client := close_stop c.
End Lifecycle.
