(* ===== verification/PluginControl.v ===== *)
(** * pkg/plugin: the control plane between proxy and patterns

    proxy_control_plane_server.go, with the pattern's side of the stream from
    pattern_control_plane_client.go.  A pattern connects and registers; the proxy's
    [SendCommand] puts a command with a fresh correlation id on the channel of the
    connection, a goroutine sends it, the pattern handles it and answers with the same
    id, and the receiving goroutine hands the answer to the call that waits for it.

    Connections are objects in a heap, as [SendCommand] keeps the pointer it read.
    [pcs_exec] is one step: a critical section, a channel operation, or the handling of
    one command.  Each call has a command object of its own.  [cn_handled] is a history
    of the commands that the pattern handled.  Unsolicited messages (heartbeats) are
    only logged and are left out. *)

From stdpp Require Import pretty.
From S2P Require Import Prelude Backoff Plugin.
Local Open Scope Z_scope.

Record ProxyCommand := mkProxyCommand { cmd_CorrelationId : string; cmd_Body : command_body }.

(** [None]: a message without content. *)
Record PatternMessage := mkPatternMessage {
  msg_CorrelationId : string;
  msg_Body : option lifecycle_answer }.

Section Control.
Context {P : Type} `{!Plugin P}.

(** [cn_closed]: [commands] is closed.  [cn_down], [cn_up]: the two directions of the
    stream.  [cn_receiver], [cn_sender]: the goroutines run.  [cn_failed]: an outcome is
    in [errChan]. *)
Record PatternConnection := mkPatternConnection {
  cn_InstanceID : string;
  cn_PatternName : string;
  cn_commands : list ProxyCommand;
  cn_closed : bool;
  cn_nextCorrelationID : Z;
  cn_pendingResponses : gmap string nat;
  cn_down : list ProxyCommand;
  cn_up : list PatternMessage;
  cn_receiver : bool;
  cn_sender : bool;
  cn_failed : bool;
  cn_client : @client P;
  cn_connected : bool;
  cn_handled : list (ProxyCommand * PatternMessage) }.

(** A call of [SendCommand]: looking the connection up, making the correlation id,
    sending on the channel, waiting for the response. *)
Inductive send_pc :=
  | SLookup
  | SCorrelate (conn : nat)
  | SSend (conn : nat) (cmd : ProxyCommand) (resp : nat)
  | SWait (conn : nat) (cmd : ProxyCommand) (resp : nat)
  | SReturned (conn : nat) (cmd : ProxyCommand) (resp : nat) (msg : PatternMessage)
  | SNotConnected.

Record send_call := mkSendCall { sc_instance : string; sc_body : command_body; sc_pc : send_pc }.

(** [pcs_responses]: the response channels, of capacity one. *)
Record ProxyControlPlaneServer := mkServer {
  pcs_patterns : gmap string nat;
  pcs_conns : gmap nat PatternConnection;
  pcs_nextconn : nat;
  pcs_responses : gmap nat (option PatternMessage);
  pcs_nextresp : nat;
  pcs_calls : list send_call;
  pcs_panicked : bool }.

Definition NewProxyControlPlaneServer : ProxyControlPlaneServer := mkServer ∅ ∅ 0 ∅ 0 [] false.

Definition put_conn (k : nat) (c : PatternConnection) (s : ProxyControlPlaneServer)
    : ProxyControlPlaneServer :=
  mkServer (pcs_patterns s) (<[k := c]> (pcs_conns s)) (pcs_nextconn s) (pcs_responses s)
    (pcs_nextresp s) (pcs_calls s) (pcs_panicked s).
Definition put_response (r : nat) (m : option PatternMessage) (s : ProxyControlPlaneServer)
    : ProxyControlPlaneServer :=
  mkServer (pcs_patterns s) (pcs_conns s) (pcs_nextconn s) (<[r := m]> (pcs_responses s))
    (pcs_nextresp s) (pcs_calls s) (pcs_panicked s).
Definition set_patterns (m : gmap string nat) (s : ProxyControlPlaneServer) : ProxyControlPlaneServer :=
  mkServer m (pcs_conns s) (pcs_nextconn s) (pcs_responses s) (pcs_nextresp s) (pcs_calls s)
    (pcs_panicked s).
Definition set_calls (cs : list send_call) (s : ProxyControlPlaneServer) : ProxyControlPlaneServer :=
  mkServer (pcs_patterns s) (pcs_conns s) (pcs_nextconn s) (pcs_responses s) (pcs_nextresp s) cs
    (pcs_panicked s).
Definition panic (s : ProxyControlPlaneServer) : ProxyControlPlaneServer :=
  mkServer (pcs_patterns s) (pcs_conns s) (pcs_nextconn s) (pcs_responses s) (pcs_nextresp s)
    (pcs_calls s) true.

(** ** Connections *)

Definition instance_id (name : string) (pid : Z) : string := (name +:+ "-" +:+ pretty pid)%string.

(** [ManagePattern] up to the acknowledgement: the connection of the pattern is stored
    under its instance id.  When the acknowledgement cannot be sent ([acked]) the pattern
    is gone and [ManagePattern] returns: nothing serves the connection, and its entry
    stays. *)
Definition ManagePattern (name : string) (pid : Z) (p : P) (acked : bool) (s : ProxyControlPlaneServer)
    : ProxyControlPlaneServer :=
  let id := instance_id name pid in
  let k := pcs_nextconn s in
  mkServer (<[id := k]> (pcs_patterns s))
    (<[k := mkPatternConnection id name [] false 0 ∅ [] [] acked acked false
              (mkClient p false false) acked []]> (pcs_conns s))
    (S k) (pcs_responses s) (pcs_nextresp s) (pcs_calls s) (pcs_panicked s).

Definition set_flags (closed receiver sender failed connected : bool) (c : PatternConnection)
    : PatternConnection :=
  mkPatternConnection (cn_InstanceID c) (cn_PatternName c) (cn_commands c) closed
    (cn_nextCorrelationID c) (cn_pendingResponses c) (cn_down c) (cn_up c) receiver sender failed
    (cn_client c) connected (cn_handled c).
Definition set_pending (next : Z) (pending : gmap string nat) (c : PatternConnection)
    : PatternConnection :=
  mkPatternConnection (cn_InstanceID c) (cn_PatternName c) (cn_commands c) (cn_closed c) next pending
    (cn_down c) (cn_up c) (cn_receiver c) (cn_sender c) (cn_failed c) (cn_client c) (cn_connected c)
    (cn_handled c).
Definition set_streams (commands down : list ProxyCommand) (up : list PatternMessage)
    (c : PatternConnection) : PatternConnection :=
  mkPatternConnection (cn_InstanceID c) (cn_PatternName c) commands (cn_closed c)
    (cn_nextCorrelationID c) (cn_pendingResponses c) down up (cn_receiver c) (cn_sender c)
    (cn_failed c) (cn_client c) (cn_connected c) (cn_handled c).
Definition set_handled (cl : client) (connected : bool) (h : list (ProxyCommand * PatternMessage))
    (c : PatternConnection) : PatternConnection :=
  mkPatternConnection (cn_InstanceID c) (cn_PatternName c) (cn_commands c) (cn_closed c)
    (cn_nextCorrelationID c) (cn_pendingResponses c) (cn_down c) (cn_up c) (cn_receiver c)
    (cn_sender c) (cn_failed c) cl connected h.

(** The receiving goroutine takes a message and routes it by its correlation id; the
    channel of a pending response is empty, so that the send does not block. *)
Definition receive_message (k : nat) (c : PatternConnection) (s : ProxyControlPlaneServer)
    : option ProxyControlPlaneServer :=
  match cn_receiver c, cn_up c with
  | true, msg :: up =>
      let c := set_streams (cn_commands c) (cn_down c) up c in
      match cn_pendingResponses c !! msg_CorrelationId msg with
      | Some r =>
          if pcs_responses s !! r is Some None then
            Some (put_conn k (set_pending (cn_nextCorrelationID c)
                    (delete (msg_CorrelationId msg) (cn_pendingResponses c)) c)
                    (put_response r (Some msg) s))
          else None
      | None => Some (put_conn k c s)
      end
  | _, _ => None
  end.

(** The sending goroutine takes a command; it ends when the channel is closed and
    empty, or when the stream is gone. *)
Definition send_command (k : nat) (c : PatternConnection) (s : ProxyControlPlaneServer)
    : option ProxyControlPlaneServer :=
  if negb (cn_sender c) then None
  else match cn_commands c with
  | cmd :: cmds =>
      if cn_connected c then Some (put_conn k (set_streams cmds (cn_down c ++ [cmd]) (cn_up c) c) s)
      else Some (put_conn k (set_flags (cn_closed c) (cn_receiver c) false true (cn_connected c)
                   (set_streams cmds (cn_down c) (cn_up c) c)) s)
  | [] =>
      if cn_closed c then
        Some (put_conn k (set_flags (cn_closed c) (cn_receiver c) false (cn_failed c) (cn_connected c) c) s)
      else None
  end.

(** The stream ends for the receiving goroutine, when the pattern is gone. *)
Definition receive_end (k : nat) (c : PatternConnection) (s : ProxyControlPlaneServer)
    : option ProxyControlPlaneServer :=
  if cn_receiver c && negb (cn_connected c) && bool_decide (length (cn_up c) = 0%nat) then
    Some (put_conn k (set_flags (cn_closed c) false (cn_sender c) true (cn_connected c) c) s)
  else None.

(** The end of [ManagePattern]: the entry of the instance id is removed, whosever it is
    by now, and the channel is closed. *)
Definition cleanup (k : nat) (c : PatternConnection) (s : ProxyControlPlaneServer)
    : option ProxyControlPlaneServer :=
  if cn_failed c && negb (cn_closed c) then
    Some (put_conn k (set_flags true (cn_receiver c) (cn_sender c) (cn_failed c) (cn_connected c) c)
            (set_patterns (delete (cn_InstanceID c) (pcs_patterns s)) s))
  else None.

(** One round of [processCommands] of the pattern. *)
Definition processCommands (k : nat) (c : PatternConnection) (s : ProxyControlPlaneServer)
    : option ProxyControlPlaneServer :=
  if negb (cn_connected c) || cl_stopped (cn_client c) then None
  else match cn_down c with
  | [] => None
  | cmd :: down =>
      let '(cl, answer) := handleCommand (cmd_Body cmd) (cn_client c) in
      let resp := mkPatternMessage (cmd_CorrelationId cmd) answer in
      Some (put_conn k (set_handled cl (cn_connected c) (cn_handled c ++ [(cmd, resp)])
              (set_streams (cn_commands c) down (cn_up c ++ [resp]) c)) s)
  end.

(** The pattern goes away. *)
Definition disconnect (k : nat) (c : PatternConnection) (s : ProxyControlPlaneServer)
    : option ProxyControlPlaneServer :=
  if cn_connected c then
    Some (put_conn k (set_handled (cn_client c) false (cn_handled c) c) s)
  else None.

(** ** SendCommand *)

(** [commands] has room for ten. *)
Definition SendCommand (i : nat) (call : send_call) (s : ProxyControlPlaneServer)
    : option ProxyControlPlaneServer :=
  let goto pc s := set_calls (<[i := mkSendCall (sc_instance call) (sc_body call) pc]> (pcs_calls s)) s in
  match sc_pc call with
  | SLookup =>
      match pcs_patterns s !! sc_instance call with
      | None => Some (goto SNotConnected s)
      | Some k => Some (goto (SCorrelate k) s)
      end
  | SCorrelate k =>
      c ← pcs_conns s !! k;
      let next := cn_nextCorrelationID c + 1 in
      let correlationID := (sc_instance call +:+ "-" +:+ pretty next)%string in
      let r := pcs_nextresp s in
      let s := put_conn k (set_pending next (<[correlationID := r]> (cn_pendingResponses c)) c) s in
      let s := mkServer (pcs_patterns s) (pcs_conns s) (pcs_nextconn s) (<[r := None]> (pcs_responses s))
                 (S r) (pcs_calls s) (pcs_panicked s) in
      Some (goto (SSend k (mkProxyCommand correlationID (sc_body call)) r) s)
  | SSend k cmd r =>
      c ← pcs_conns s !! k;
      if cn_closed c then Some (panic s)
      else if (length (cn_commands c) <? 10)%nat then
        Some (goto (SWait k cmd r)
                (put_conn k (set_streams (cn_commands c ++ [cmd]) (cn_down c) (cn_up c) c) s))
      else None
  | SWait k cmd r =>
      match pcs_responses s !! r with
      | Some (Some msg) => Some (goto (SReturned k cmd r msg) (put_response r None s))
      | _ => None
      end
  | _ => None
  end.

Definition GetPatternInstances (s : ProxyControlPlaneServer) : list string :=
  (map_to_list (pcs_patterns s)).*1.

(** ** The system *)

Inductive pcs_label :=
  | PConnect (name : string) (pid : Z) (p : P) (acked : bool)
  | PCall (instance : string) (body : command_body)
  | PCallStep (i : nat)
  | PSend (k : nat)
  | PHandle (k : nat)
  | PReceive (k : nat)
  | PDisconnect (k : nat)
  | PEnd (k : nat)
  | PCleanup (k : nat).

Definition pcs_exec (l : pcs_label) (s : ProxyControlPlaneServer) : option ProxyControlPlaneServer :=
  if pcs_panicked s then None
  else match l with
  | PConnect name pid p acked => Some (ManagePattern name pid p acked s)
  | PCall instance body => Some (set_calls (pcs_calls s ++ [mkSendCall instance body SLookup]) s)
  | PCallStep i => call ← pcs_calls s !! i; SendCommand i call s
  | PSend k => c ← pcs_conns s !! k; send_command k c s
  | PHandle k => c ← pcs_conns s !! k; processCommands k c s
  | PReceive k => c ← pcs_conns s !! k; receive_message k c s
  | PDisconnect k => c ← pcs_conns s !! k; disconnect k c s
  | PEnd k => c ← pcs_conns s !! k; receive_end k c s
  | PCleanup k => c ← pcs_conns s !! k; cleanup k c s
  end.

Definition pcs_run : list pcs_label → ProxyControlPlaneServer → option ProxyControlPlaneServer := run_labels pcs_exec.

Inductive pcs_reachable : ProxyControlPlaneServer → Prop :=
  | pcs_reach_new : pcs_reachable NewProxyControlPlaneServer
  | pcs_reach_step s l s' : pcs_reachable s → pcs_exec l s = Some s' → pcs_reachable s'.
End Control.
