(* ===== verification/PluginControlSpec.v ===== *)
(** * Correctness of the control plane between proxy and patterns

    Every answered command got the answer to itself, in every interleaving of calls,
    goroutines and connections; what a disconnect does to calls in flight; and the
    configuration that reaches the plugin. *)

From stdpp Require Import pretty.
From S2P Require Import Prelude Backoff Plugin PluginControl.
Local Open Scope Z_scope.

Section Spec.
Context {P : Type} `{!Plugin P}.
Implicit Types (s : @ProxyControlPlaneServer P) (c : @PatternConnection P).

(** ** The invariant *)

(** The command of a call, and the connection it is for. *)
Definition pc_cmd (pc : send_pc) : option (nat * ProxyCommand) :=
  match pc with
  | SSend k cmd _ | SWait k cmd _ | SReturned k cmd _ _ => Some (k, cmd)
  | _ => None
  end.
(** The response channel of a call. *)
Definition pc_resp (pc : send_pc) : option (nat * ProxyCommand * nat) :=
  match pc with SSend k cmd r | SWait k cmd r | SReturned k cmd r _ => Some (k, cmd, r) | _ => None end.

(** The commands of a connection that have been sent or are on their way. *)
Definition sent c : list ProxyCommand := cn_commands c ++ cn_down c ++ (cn_handled c).*1.

Definition issued s (k : nat) (cmd : ProxyCommand) : Prop :=
  ∃ i call, pcs_calls s !! i = Some call ∧ pc_cmd (sc_pc call) = Some (k, cmd).
Definition waits s (k : nat) (cmd : ProxyCommand) (r : nat) : Prop :=
  ∃ i call, pcs_calls s !! i = Some call ∧ pc_resp (sc_pc call) = Some (k, cmd, r).

Record conn_ok s (k : nat) c : Prop := {
  co_sent cmd : cmd ∈ sent c → issued s k cmd;
  co_handled cmd msg : (cmd, msg) ∈ cn_handled c → msg_CorrelationId msg = cmd_CorrelationId cmd;
  co_up msg : msg ∈ cn_up c → ∃ cmd, (cmd, msg) ∈ cn_handled c;
  co_pending corr r : cn_pendingResponses c !! corr = Some r →
    ∃ cmd, waits s k cmd r ∧ cmd_CorrelationId cmd = corr }.

Definition correlation (instance : string) (n : Z) : string := (instance +:+ "-" +:+ pretty n)%string.

(** A call that has its command has a connection, which gave the command its number. *)
Record call_ok s (call : send_call) : Prop := {
  ca_correlate k : sc_pc call = SCorrelate k →
    ∃ c, pcs_conns s !! k = Some c ∧ cn_InstanceID c = sc_instance call;
  ca_cmd k cmd : pc_cmd (sc_pc call) = Some (k, cmd) →
    ∃ c n, pcs_conns s !! k = Some c ∧ cn_InstanceID c = sc_instance call ∧
      cmd = mkProxyCommand (correlation (sc_instance call) n) (sc_body call) ∧
      n ≤ cn_nextCorrelationID c;
  ca_resp k cmd r : pc_resp (sc_pc call) = Some (k, cmd, r) →
    (r < pcs_nextresp s)%nat ∧
    ∀ msg, pcs_responses s !! r = Some (Some msg) →
      ∃ c cmd', pcs_conns s !! k = Some c ∧ (cmd', msg) ∈ cn_handled c ∧
        msg_CorrelationId msg = cmd_CorrelationId cmd;
  ca_returned k cmd r msg : sc_pc call = SReturned k cmd r msg →
    ∃ c, pcs_conns s !! k = Some c ∧ (cmd, msg) ∈ cn_handled c }.

Record pcs_inv s : Prop := {
  pi_fresh k c : pcs_conns s !! k = Some c → (k < pcs_nextconn s)%nat;
  pi_patterns id k : pcs_patterns s !! id = Some k →
    ∃ c, pcs_conns s !! k = Some c ∧ cn_InstanceID c = id;
  pi_conns k c : pcs_conns s !! k = Some c → conn_ok s k c;
  pi_calls i call : pcs_calls s !! i = Some call → call_ok s call;
  pi_distinct i j call1 call2 k cmd1 cmd2 :
    pcs_calls s !! i = Some call1 → pcs_calls s !! j = Some call2 →
    pc_cmd (sc_pc call1) = Some (k, cmd1) → pc_cmd (sc_pc call2) = Some (k, cmd2) →
    cmd_CorrelationId cmd1 = cmd_CorrelationId cmd2 → i = j;
  pi_responses i j call1 call2 k1 k2 cmd1 cmd2 r :
    pcs_calls s !! i = Some call1 → pcs_calls s !! j = Some call2 →
    pc_resp (sc_pc call1) = Some (k1, cmd1, r) → pc_resp (sc_pc call2) = Some (k2, cmd2, r) → i = j }.

(** ** Steps of a connection *)

(** What the goroutines of a connection and its pattern may do to it; [new] are
    commands that a call adds. *)
Record conn_step (new : list ProxyCommand) c c' : Prop := {
  cs_id : cn_InstanceID c' = cn_InstanceID c;
  cs_next : cn_nextCorrelationID c ≤ cn_nextCorrelationID c';
  cs_pending corr r : cn_pendingResponses c' !! corr = Some r → cn_pendingResponses c !! corr = Some r;
  cs_sent cmd : cmd ∈ sent c' → cmd ∈ sent c ∨ cmd ∈ new;
  cs_history x : x ∈ cn_handled c → x ∈ cn_handled c';
  cs_handled cmd msg : (cmd, msg) ∈ cn_handled c' → (cmd, msg) ∈ cn_handled c ∨
    msg_CorrelationId msg = cmd_CorrelationId cmd;
  cs_up msg : msg ∈ cn_up c' → msg ∈ cn_up c ∨ ∃ cmd, (cmd, msg) ∈ cn_handled c' }.

(** The connections of [s'] are those of [s], some of them a step further. *)
Definition conns_step s s' : Prop :=
  ∀ k c, pcs_conns s !! k = Some c → ∃ c', pcs_conns s' !! k = Some c' ∧
    cn_InstanceID c' = cn_InstanceID c ∧ cn_nextCorrelationID c ≤ cn_nextCorrelationID c' ∧
    (∀ x, x ∈ cn_handled c → x ∈ cn_handled c').

Lemma call_ok_mono s s' call :
  conns_step s s' → (pcs_nextresp s ≤ pcs_nextresp s')%nat →
  (∀ k cmd r msg, pc_resp (sc_pc call) = Some (k, cmd, r) → pcs_responses s' !! r = Some (Some msg) →
     pcs_responses s !! r = Some (Some msg) ∨
     ∃ c cmd', pcs_conns s' !! k = Some c ∧ (cmd', msg) ∈ cn_handled c ∧
       msg_CorrelationId msg = cmd_CorrelationId cmd) →
  call_ok s call → call_ok s' call.
Proof.
  intros Hc Hn Hr [A1 A2 A3 A4]. split.
  - intros k Hk. destruct (A1 k Hk) as (c & H1 & H2). destruct (Hc _ _ H1) as (c' & ? & ? & _).
    exists c'. split; [done|congruence].
  - intros k cmd Hk. destruct (A2 k cmd Hk) as (c & n & H1 & H2 & H3 & H4).
    destruct (Hc _ _ H1) as (c' & E1 & E2 & E3 & _). exists c', n.
    rewrite E2. split_and!; [done|done|done|lia].
  - intros k cmd r Hk. destruct (A3 k cmd r Hk) as [H1 H2]. split; [lia|]. intros msg Hm.
    destruct (Hr _ _ _ _ Hk Hm) as [Hm'|Hm']; [|done].
    destruct (H2 msg Hm') as (c & cmd' & E1 & E2 & E3). destruct (Hc _ _ E1) as (c' & ? & _ & _ & ?).
    exists c', cmd'. split_and!; auto.
  - intros k cmd r msg Hk. destruct (A4 k cmd r msg Hk) as (c & E1 & E2).
    destruct (Hc _ _ E1) as (c' & ? & _ & _ & ?). exists c'. split; auto.
Qed.

(** A step of connection [k], which may fill one response channel with a message of its
    pattern, for the call that waits for it. *)
Lemma inv_conn_step new s s' k c c' :
  pcs_inv s → pcs_conns s !! k = Some c → conn_step new c c' → (∀ cmd, cmd ∈ new → issued s k cmd) →
  pcs_conns s' = <[k := c']> (pcs_conns s) → pcs_nextconn s' = pcs_nextconn s →
  (∀ id k', pcs_patterns s' !! id = Some k' → pcs_patterns s !! id = Some k') →
  pcs_calls s' = pcs_calls s → pcs_nextresp s' = pcs_nextresp s →
  (∀ r msg, pcs_responses s' !! r = Some (Some msg) → pcs_responses s !! r = Some (Some msg) ∨
     msg ∈ cn_up c ∧ cn_pendingResponses c !! msg_CorrelationId msg = Some r) →
  pcs_inv s'.
Proof.
  intros [I1 I2 I3 I4 I5 I6] Hk Hstep Hnew Ec En Ep El Er Hresp. destruct Hstep as [S1 S2 S3 S4 S5 S6 S7].
  assert (conns_step s s') as Hcs.
  { intros k0 c0 H0. rewrite Ec. destruct (decide (k0 = k)) as [->|Hne].
    - simplify_eq. exists c'. by rewrite lookup_insert_eq.
    - exists c0. by rewrite lookup_insert_ne. }
  split; rewrite ?El, ?En.
  - intros k0 c0. rewrite Ec. intros [[<- _]|[_ ?]]%lookup_insert_Some; eauto.
  - intros id k0 (c0 & H1 & H2)%Ep%I2. destruct (Hcs _ _ H1) as (c1 & ? & ? & _).
    exists c1. split; [done|congruence].
  - intros k0 c0. rewrite Ec. unfold issued, waits in *. intros [[<- <-]|[_ H0]]%lookup_insert_Some.
    + destruct (I3 _ _ Hk) as [C1 C2 C3 C4]. split; unfold issued, waits; rewrite ?El.
      * intros cmd [H%C1|H%Hnew]%S4; done.
      * intros cmd msg [H%C2|H]%S6; done.
      * intros msg [[cmd H]%C3|H]%S7; [|done]. eauto.
      * intros corr r H%S3%C4. done.
    + destruct (I3 _ _ H0) as [C1 C2 C3 C4]. split; unfold issued, waits in *; rewrite ?El; done.
  - intros i call Hi. apply (call_ok_mono s); [done|lia| |by eapply I4].
    intros k0 cmd r msg Hp [Hm|[Hup Hpend]]%Hresp; [by left|right].
    destruct (co_pending _ _ _ (I3 _ _ Hk) _ _ Hpend) as (cmd0 & (j & callj & Hj & Hpj) & Hcorr).
    assert (j = i) as -> by (eapply I6; eauto). simplify_eq.
    destruct (co_up _ _ _ (I3 _ _ Hk) _ Hup) as (cmd' & Hh).
    exists c', cmd'. rewrite Ec, lookup_insert_eq. split_and!; [done|by apply S5|done].
  - intros i j call1 call2 k0 cmd1 cmd2. apply I5.
  - intros i j call1 call2 k1 k2 cmd1 cmd2 r. apply I6.
Qed.

(** The connection keeps what the invariant is about, but for its streams. *)
Lemma conn_step_streams c c' :
  cn_InstanceID c' = cn_InstanceID c → cn_nextCorrelationID c' = cn_nextCorrelationID c →
  (∀ corr r, cn_pendingResponses c' !! corr = Some r → cn_pendingResponses c !! corr = Some r) →
  cn_handled c' = cn_handled c →
  (∀ cmd, cmd ∈ cn_commands c' ++ cn_down c' → cmd ∈ cn_commands c ++ cn_down c) →
  (∀ msg, msg ∈ cn_up c' → msg ∈ cn_up c) → conn_step [] c c'.
Proof.
  intros E1 E2 E3 E4 E5 E6. split; rewrite ?E4; auto; [lia|].
  unfold sent. rewrite E4. intros cmd. rewrite !app_assoc. rewrite (elem_of_app _ (cn_handled c).*1).
  rewrite (elem_of_app (cn_commands c ++ cn_down c)). intros [?%E5|?]; auto.
Qed.

Lemma conn_step_handle c cmd down cl answer connected :
  cn_down c = cmd :: down →
  let resp := mkPatternMessage (cmd_CorrelationId cmd) answer in
  conn_step [] c (set_handled cl connected (cn_handled c ++ [(cmd, resp)])
                 (set_streams (cn_commands c) down (cn_up c ++ [resp]) c)).
Proof.
  intros Hd resp. split; simpl; [done|lia|done| | | |].
  - intros x. unfold sent. simpl. rewrite Hd, fmap_app. simpl. intros Hx. left. set_solver.
  - set_solver.
  - intros cmd' msg [?|[= -> ->]%list_elem_of_singleton]%elem_of_app; [by left|by right].
  - intros msg [?| ->%list_elem_of_singleton]%elem_of_app; [by left|right]. exists cmd. set_solver.
Qed.

Lemma inv_conn_label k c s s' :
  pcs_inv s → pcs_conns s !! k = Some c →
  send_command k c s = Some s' ∨ processCommands k c s = Some s' ∨ receive_message k c s = Some s' ∨
  disconnect k c s = Some s' ∨ receive_end k c s = Some s' ∨ cleanup k c s = Some s' →
  pcs_inv s'.
Proof.
  intros Hinv Hk [H|[H|[H|[H|[H|H]]]]].
  - unfold send_command in H. destruct (cn_sender c); [|done]. simpl in H.
    destruct (cn_commands c) as [|cmd cmds] eqn:Ec.
    + destruct (cn_closed c); [|done]. injection H as <-.
      eapply (inv_conn_step []); try done; [|by intros ? ?%elem_of_nil|auto]. by apply conn_step_streams; simpl; rewrite ?Ec.
    + destruct (cn_connected c); injection H as <-; (eapply (inv_conn_step []); try done; [|by intros ? ?%elem_of_nil|auto]);
        (apply conn_step_streams; [done|done|done|done| |done]); simpl; rewrite Ec; set_solver.
  - unfold processCommands in H. destruct (_ || _); [done|].
    destruct (cn_down c) as [|cmd down] eqn:Ed; [done|].
    destruct (handleCommand _ _) as [cl answer]. injection H as <-.
    eapply (inv_conn_step []); try done; [|by intros ? ?%elem_of_nil|auto]. by apply conn_step_handle.
  - unfold receive_message in H. destruct (cn_receiver c); [|done].
    destruct (cn_up c) as [|msg up] eqn:Eu; [done|]. simpl in H.
    destruct (cn_pendingResponses c !! _) as [r|] eqn:Er.
    + destruct (pcs_responses s !! r) as [[m|]|] eqn:Es; [done| |done]. injection H as <-.
      eapply (inv_conn_step []); try done; [|by intros ? ?%elem_of_nil|].
      * apply conn_step_streams; simpl; try done; [|rewrite Eu; set_solver].
        by intros corr r' [_ ?]%lookup_delete_Some.
      * simpl. intros r' msg' [[<- [= <-]]|[_ ?]]%lookup_insert_Some; [right|by left].
        rewrite Eu. split; [by left|done].
    + injection H as <-. eapply (inv_conn_step []); try done; [|by intros ? ?%elem_of_nil|auto].
      apply conn_step_streams; simpl; try done. rewrite Eu. set_solver.
  - unfold disconnect in H. destruct (cn_connected c); [|done]. injection H as <-.
    eapply (inv_conn_step []); try done; [|by intros ? ?%elem_of_nil|auto]. by apply conn_step_streams.
  - unfold receive_end in H. destruct (_ && _); [|done]. injection H as <-.
    eapply (inv_conn_step []); try done; [|by intros ? ?%elem_of_nil|auto]. by apply conn_step_streams.
  - unfold cleanup in H. destruct (_ && _); [|done]. injection H as <-.
    eapply (inv_conn_step []); try done; [|by intros ? ?%elem_of_nil|simpl|auto]; [by apply conn_step_streams|].
    by intros id k' [_ ?]%lookup_delete_Some.
Qed.

(** ** Steps of a call *)

Lemma inv_connect name pid p acked s : pcs_inv s → pcs_inv (ManagePattern name pid p acked s).
Proof.
  intros [I1 I2 I3 I4 I5 I6].
  assert (∀ k c, pcs_conns s !! k = Some c →
            pcs_conns (ManagePattern name pid p acked s) !! k = Some c) as Hold.
  { intros k c H. simpl. apply I1 in H as Hlt. rewrite lookup_insert_ne by lia. done. }
  split; simpl.
  - intros k c [[<- _]|[_ ?%I1]]%lookup_insert_Some; lia.
  - intros id k [[<- <-]|[_ (c & Hc & E)%I2]]%lookup_insert_Some.
    + eexists. by rewrite lookup_insert_eq.
    + exists c. split; [by apply Hold|done].
  - intros k c [[<- <-]|[_ H]]%lookup_insert_Some.
    + split; [by intros ? ?%elem_of_nil|by intros ? ? ?%elem_of_nil|by intros ? ?%elem_of_nil|done].
    + by destruct (I3 _ _ H).
  - intros i call Hi. apply (call_ok_mono s); [|done| |by eapply I4].
    + intros k c H. exists c. split_and!; auto; lia.
    + intros k cmd r msg _ ?. by left.
  - exact I5.
  - exact I6.
Qed.

(** The calls of [s'] are those of [s] with call [i], which keeps its command and its
    channel, further on. *)
Lemma inv_pcs_goto s i call pc' :
  pcs_inv s → pcs_calls s !! i = Some call →
  pc_cmd pc' = pc_cmd (sc_pc call) → pc_resp pc' = pc_resp (sc_pc call) →
  let call' := mkSendCall (sc_instance call) (sc_body call) pc' in
  call_ok s call' → pcs_inv (set_calls (<[i := call']> (pcs_calls s)) s).
Proof.
  intros [I1 I2 I3 I4 I5 I6] Hi E1 E2 call' Hok.
  assert (∀ j callj, <[i := call']> (pcs_calls s) !! j = Some callj →
    ∃ callj0, pcs_calls s !! j = Some callj0 ∧ pc_cmd (sc_pc callj) = pc_cmd (sc_pc callj0) ∧
      pc_resp (sc_pc callj) = pc_resp (sc_pc callj0)) as Hback.
  { intros j callj [(<- & <- & _)|[_ ?]]%list_lookup_insert_Some; eauto. }
  assert (∀ j callj0, pcs_calls s !! j = Some callj0 →
    ∃ callj, <[i := call']> (pcs_calls s) !! j = Some callj ∧
      pc_cmd (sc_pc callj) = pc_cmd (sc_pc callj0) ∧ pc_resp (sc_pc callj) = pc_resp (sc_pc callj0)) as Hforth.
  { intros j callj0 Hj. destruct (decide (j = i)) as [->|Hne].
    - simplify_eq. exists call'. rewrite list_lookup_insert_eq by by eapply lookup_lt_Some. done.
    - exists callj0. by rewrite list_lookup_insert_ne. }
  split; simpl; [done|done| | | |].
  - intros k c Hk. destruct (I3 _ _ Hk) as [C1 C2 C3 C4]. split; [|done|done|].
    + intros cmd (j & callj & Hj & Hp)%C1. destruct (Hforth _ _ Hj) as (c2 & ? & Ec & _).
      exists j, c2. split; [done|congruence].
    + intros corr r (cmd & (j & callj & Hj & Hp) & Hcorr)%C4.
      destruct (Hforth _ _ Hj) as (c2 & ? & _ & Ec). exists cmd. split; [|done].
      exists j, c2. split; [done|congruence].
  - intros j callj [(<- & <- & _)|[_ Hj]]%list_lookup_insert_Some.
    + by destruct Hok.
    + by destruct (I4 _ _ Hj).
  - intros j1 j2 c1 c2 k cmd1 cmd2 (c1' & H1 & F1 & _)%Hback (c2' & H2 & F2 & _)%Hback.
    rewrite F1, F2. eauto.
  - intros j1 j2 c1 c2 k1 k2 cmd1 cmd2 r (c1' & H1 & _ & F1)%Hback (c2' & H2 & _ & F2)%Hback.
    rewrite F1, F2. eauto.
Qed.

Lemma inv_new_call s call :
  pcs_inv s → pc_cmd (sc_pc call) = None → pc_resp (sc_pc call) = None → call_ok s call →
  pcs_inv (set_calls (pcs_calls s ++ [call]) s).
Proof.
  intros [I1 I2 I3 I4 I5 I6] E1 E2 Hok.
  assert (∀ j callj, (pcs_calls s ++ [call]) !! j = Some callj →
    pcs_calls s !! j = Some callj ∨ callj = call) as Hback.
  { intros j callj [?|[_ [_ <-]%list_lookup_singleton_Some]]%lookup_app_Some; auto. }
  split; simpl; [done|done| | | |].
  - intros k c Hk. destruct (I3 _ _ Hk) as [C1 C2 C3 C4]. split; [|done|done|].
    + intros cmd (j & callj & Hj & Hp)%C1. exists j, callj. split; [|done]. by apply lookup_app_l_Some.
    + intros corr r (cmd & (j & callj & Hj & Hp) & Hcorr)%C4. exists cmd. split; [|done].
      exists j, callj. split; [|done]. by apply lookup_app_l_Some.
  - intros j callj [Hj| ->]%Hback; [by destruct (I4 _ _ Hj)|by destruct Hok].
  - intros j1 j2 c1 c2 k cmd1 cmd2 [H1| ->]%Hback [H2| ->]%Hback; [eauto|congruence..].
  - intros j1 j2 c1 c2 k1 k2 cmd1 cmd2 r [H1| ->]%Hback [H2| ->]%Hback; [eauto|congruence..].
Qed.

(** The two commands of a connection with one correlation id are the same. *)
Lemma issued_unique s k cmd1 cmd2 :
  pcs_inv s → issued s k cmd1 → issued s k cmd2 →
  cmd_CorrelationId cmd1 = cmd_CorrelationId cmd2 → cmd1 = cmd2.
Proof.
  intros Hinv (i & call1 & H1 & P1) (j & call2 & H2 & P2) E.
  assert (i = j) as -> by (eapply (pi_distinct _ Hinv); eauto). congruence.
Qed.

Lemma inv_take_response s r : pcs_inv s → pcs_inv (put_response r None s).
Proof.
  intros [I1 I2 I3 I4 I5 I6]. split; simpl; try done.
  - intros k c Hk. by destruct (I3 _ _ Hk).
  - intros i call Hi. apply (call_ok_mono s); [|done| |by eapply I4].
    + intros k c Hk. exists c. split_and!; auto; lia.
    + simpl. intros k cmd r' msg _ [[_ [=]]|[_ ?]]%lookup_insert_Some. by left.
Qed.

Lemma correlation_inj instance n1 n2 :
  correlation instance n1 = correlation instance n2 → n1 = n2.
Proof. unfold correlation. by intros ?%(inj _)%(inj _)%(inj _). Qed.

(** The critical section that makes the correlation id. *)
Lemma inv_correlate s i call k c :
  pcs_inv s → pcs_calls s !! i = Some call → sc_pc call = SCorrelate k → pcs_conns s !! k = Some c →
  ∀ s', SendCommand i call s = Some s' → pcs_inv s'.
Proof.
  intros Hinv Hi Hpc Hk s' Hs. unfold SendCommand in Hs. rewrite Hpc in Hs. simpl in Hs.
  rewrite Hk in Hs. simpl in Hs. injection Hs as <-.
  pose proof Hinv as [I1 I2 I3 I4 I5 I6].
  destruct (ca_correlate _ _ (I4 _ _ Hi) _ Hpc) as (c0 & Hc0 & Hid). simplify_eq.
  set (next := cn_nextCorrelationID c + 1) in *. set (r := pcs_nextresp s) in *.
  fold (correlation (sc_instance call) next). set (cmd := mkProxyCommand _ _).
  set (c' := set_pending _ _ _). set (call' := mkSendCall _ _ _). set (s' := set_calls _ _).
  assert (conns_step s s') as Hcs.
  { intros k0 c0 H0. simpl. destruct (decide (k0 = k)) as [->|Hne].
    - simplify_eq. exists c'. rewrite lookup_insert_eq. split_and!; simpl; auto; lia.
    - exists c0. rewrite lookup_insert_ne by done. split_and!; auto; lia. }
  assert (∀ j callj, pcs_calls s' !! j = Some callj →
    j = i ∧ callj = call' ∨ j ≠ i ∧ pcs_calls s !! j = Some callj) as Hback.
  { simpl. intros j callj [(-> & <- & _)|[? ?]]%list_lookup_insert_Some; auto. }
  assert (pcs_calls s' !! i = Some call') as Hi'.
  { simpl. rewrite list_lookup_insert_eq; [done|by eapply lookup_lt_Some]. }
  assert (∀ j callj, pcs_calls s !! j = Some callj → pc_cmd (sc_pc callj) ≠ None →
            pcs_calls s' !! j = Some callj) as Hforth.
  { simpl. intros j callj Hj Hp. rewrite list_lookup_insert_ne; [done|]. intros ->. simplify_eq.
    by rewrite Hpc in Hp. }
  assert (∀ k0 cmd0, issued s k0 cmd0 → issued s' k0 cmd0) as Hiss.
  { intros k0 cmd0 (j & callj & Hj & Hp). exists j, callj. split; [|done]. apply Hforth; [done|]. by rewrite Hp. }
  assert (∀ k0 cmd0 r0, waits s k0 cmd0 r0 → waits s' k0 cmd0 r0) as Hwaits.
  { intros k0 cmd0 r0 (j & callj & Hj & Hp). exists j, callj. split; [|done]. apply Hforth; [done|].
    by destruct (sc_pc callj). }
  assert (∀ j callj cmd0, j ≠ i → pcs_calls s !! j = Some callj → pc_cmd (sc_pc callj) = Some (k, cmd0) →
            cmd_CorrelationId cmd0 ≠ correlation (sc_instance call) next) as Hnew.
  { intros j callj cmd0 Hne Hj Hp. destruct (ca_cmd _ _ (I4 _ _ Hj) _ _ Hp) as (c0 & n & ? & E & -> & Hn).
    simplify_eq. simpl. rewrite <- E, <- Hid. intros Hcorr%correlation_inj. lia. }
  split.
  - simpl. intros k0 c0 [[<- _]|[_ ?]]%lookup_insert_Some; eauto.
  - intros id k0 (c0 & H1 & H2)%I2. destruct (Hcs _ _ H1) as (c1 & ? & ? & _). exists c1. split; [done|congruence].
  - simpl. intros k0 c0 [[<- <-]|[_ H0]]%lookup_insert_Some.
    + destruct (I3 _ _ Hk) as [C1 C2 C3 C4]. split; simpl; [|done|done|].
      * intros cmd0 H%C1. auto.
      * intros corr r0 [[<- <-]|[_ (cmd0 & H & E)%C4]]%lookup_insert_Some.
        -- exists cmd. split; [|done]. by exists i, call'.
        -- exists cmd0. auto.
    + destruct (I3 _ _ H0) as [C1 C2 C3 C4]. split; [auto|done|done|].
      intros corr r0 (cmd0 & H & E)%C4. eauto.
  - intros j callj [[-> ->]|[Hne Hj]]%Hback.
    + split; simpl; [done| | |done].
      * intros k0 cmd0 [= <- <-]. exists c', next. rewrite lookup_insert_eq. split_and!; auto. simpl. lia.
      * intros k0 cmd0 r0 [= <- <- <-]. split; [lia|]. intros msg. rewrite lookup_insert_eq. done.
    + apply (call_ok_mono s); [done|simpl; lia| |by eapply I4].
      simpl. intros k0 cmd0 r0 msg _ [[_ [=]]|[_ ?]]%lookup_insert_Some. by left.
  - intros j1 j2 call1 call2 k0 cmd1 cmd2 [[-> ->]|[Hn1 H1]]%Hback [[-> ->]|[Hn2 H2]]%Hback P1 P2 E;
      [done|..|by eapply I5]; simpl in *; simplify_eq.
    + exfalso. by eapply Hnew.
    + exfalso. by eapply Hnew.
  - intros j1 j2 call1 call2 k1 k2 cmd1 cmd2 r0 [[-> ->]|[Hn1 H1]]%Hback [[-> ->]|[Hn2 H2]]%Hback P1 P2;
      [done|..|by eapply I6]; simpl in *; simplify_eq.
    + destruct (ca_resp _ _ (I4 _ _ H2) _ _ _ P2). lia.
    + destruct (ca_resp _ _ (I4 _ _ H1) _ _ _ P1). lia.
Qed.

Lemma call_ok_free s instance body pc :
  pc_cmd pc = None → pc_resp pc = None → (∀ k, pc ≠ SCorrelate k) → call_ok s (mkSendCall instance body pc).
Proof.
  intros E1 E2 E3. split; simpl; [|congruence|congruence|by intros ? ? ? ? ->].
  intros k ->. by destruct (E3 k).
Qed.

Lemma inv_panic s : pcs_inv s → pcs_inv (panic s).
Proof.
  intros [I1 I2 I3 I4 I5 I6]. split; simpl; try done.
  - intros k c Hk. by destruct (I3 _ _ Hk).
  - intros i call Hi. by destruct (I4 _ _ Hi).
Qed.

Lemma inv_send_command i call s s' :
  pcs_inv s → pcs_calls s !! i = Some call → SendCommand i call s = Some s' → pcs_inv s'.
Proof.
  intros Hinv Hi Hs. pose proof (pi_calls _ Hinv _ _ Hi) as Hok.
  destruct (sc_pc call) as [|k|k cmd r|k cmd r| |] eqn:Hpc.
  - unfold SendCommand in Hs. rewrite Hpc in Hs.
    destruct (pcs_patterns s !! _) as [k|] eqn:Hk; injection Hs as <-;
      (apply inv_pcs_goto; [done|done|by rewrite Hpc|by rewrite Hpc|]); [|by apply call_ok_free].
    destruct (pi_patterns _ Hinv _ _ Hk) as (c & Hc & Hid).
    split; simpl; [|done..]. intros k0 [= <-]. eauto.
  - destruct (ca_correlate _ _ Hok _ Hpc) as (c & Hc & _). by eapply inv_correlate.
  - unfold SendCommand in Hs. rewrite Hpc in Hs. destruct (pcs_conns s !! k) as [c|] eqn:Hk; simpl in Hs; [|done].
    destruct (cn_closed c); [injection Hs as <-; by apply inv_panic|].
    destruct (_ <? _)%nat; [|done]. injection Hs as <-.
    set (s1 := put_conn k _ s).
    assert (pcs_inv s1) as Hinv1.
    { eapply (inv_conn_step [cmd]); try done; [| |auto].
      - split; simpl; auto; [lia|]. intros x. unfold sent. simpl. rewrite !elem_of_app. tauto.
      - intros x ->%list_elem_of_singleton. exists i, call. by rewrite Hpc. }
    apply (inv_pcs_goto s1); [done|done|by rewrite Hpc|by rewrite Hpc|].
    destruct (pi_calls _ Hinv1 i call Hi) as [A1 A2 A3 A4]. rewrite Hpc in *. by split.
  - unfold SendCommand in Hs. rewrite Hpc in Hs.
    destruct (pcs_responses s !! r) as [[msg|]|] eqn:Hr; [|done|done]. injection Hs as <-.
    set (s1 := put_response r None s).
    assert (pcs_inv s1) as Hinv1 by by apply inv_take_response.
    apply (inv_pcs_goto s1); [done|done|by rewrite Hpc|by rewrite Hpc|].
    destruct (pi_calls _ Hinv1 i call Hi) as [A1 A2 A3 A4]. rewrite Hpc in *. split; [done|done|done|].
    simpl. intros k0 cmd0 r0 msg0 [= <- <- <- <-].
    destruct (ca_resp _ _ Hok k cmd r) as [_ Hm]; [by rewrite Hpc|].
    destruct (Hm _ Hr) as (c & cmd' & Hc & Hh & E). exists c. split; [done|].
    assert (cmd' = cmd) as <-; [|done]. pose proof (pi_conns _ Hinv _ _ Hc) as Hck.
    apply (issued_unique s k); [done| | |].
    + apply (co_sent _ _ _ Hck). unfold sent. rewrite !elem_of_app. right. right.
      by apply (list_elem_of_fmap_2 fst) in Hh.
    + exists i, call. by rewrite Hpc.
    + rewrite <- E. by rewrite (co_handled _ _ _ Hck _ _ Hh).
  - unfold SendCommand in Hs. by rewrite Hpc in Hs.
  - unfold SendCommand in Hs. by rewrite Hpc in Hs.
Qed.

Lemma inv_pcs_exec l s s' : pcs_inv s → pcs_exec l s = Some s' → pcs_inv s'.
Proof.
  intros Hinv. unfold pcs_exec. destruct (pcs_panicked s); [done|].
  destruct l as [name pid p acked|instance body|i|k|k|k|k|k|k];
    try (intros (c & Hk & Hs)%bind_Some; eapply inv_conn_label; [done|done|]; tauto).
  - intros [= <-]. by apply inv_connect.
  - intros [= <-]. apply inv_new_call; [done|done|done|]. by apply call_ok_free.
  - intros (call & Hi & Hs)%bind_Some. by eapply inv_send_command.
Qed.

Lemma inv_pcs_reachable s : pcs_reachable s → pcs_inv s.
Proof.
  induction 1 as [|s l s' _ IH He]; [|by eapply inv_pcs_exec]. split; simpl; try done.
Qed.

(** C34. The answer to a command is the answer to that command: in every reachable state
    a [SendCommand] that returned a message had sent its own command, under a
    correlation id that no other command of the connection has, to a pattern registered
    under the id it was called with, and the message is what that pattern answered when
    it handled this command. *)
Theorem answers_match_commands s i call k cmd r msg :
  pcs_reachable s → pcs_calls s !! i = Some call → sc_pc call = SReturned k cmd r msg →
  ∃ c, pcs_conns s !! k = Some c ∧ cn_InstanceID c = sc_instance call ∧
    cmd_Body cmd = sc_body call ∧ (cmd, msg) ∈ cn_handled c ∧
    (∀ cmd' msg', (cmd', msg') ∈ cn_handled c →
       cmd_CorrelationId cmd' = cmd_CorrelationId cmd → cmd' = cmd).
Proof.
  intros Hr%inv_pcs_reachable Hi Hpc. pose proof (pi_calls _ Hr _ _ Hi) as Hok.
  destruct (ca_returned _ _ Hok _ _ _ _ Hpc) as (c & Hc & Hh).
  destruct (ca_cmd _ _ Hok k cmd) as (c' & n & Hc' & Hid & -> & _); [by rewrite Hpc|]. simplify_eq.
  exists c. split_and!; [done|done|done|done|]. intros cmd' msg' Hh' E.
  apply (issued_unique s k); [done| | |done].
  - apply (co_sent _ _ _ (pi_conns _ Hr _ _ Hc)). unfold sent. rewrite !elem_of_app. right. right.
    by apply (list_elem_of_fmap_2 fst) in Hh'.
  - exists i, call. by rewrite Hpc.
Qed.

(** ** Calls in flight *)

(** Call [i] waits on an empty channel for an answer over connection [k], on which
    nothing is received any more. *)
Record abandoned i call k cmd r s : Prop := {
  ab_inv : pcs_inv s;
  ab_call : pcs_calls s !! i = Some call;
  ab_pc : sc_pc call = SWait k cmd r;
  ab_empty : pcs_responses s !! r = Some None;
  ab_off : ∃ c, pcs_conns s !! k = Some c ∧ cn_receiver c = false }.

(** A state that differs in one connection, which is as deaf as before. *)
Lemma abandoned_conn i call k cmd r k' c c' s s' :
  abandoned i call k cmd r s → pcs_inv s' → pcs_conns s !! k' = Some c →
  pcs_conns s' = <[k' := c']> (pcs_conns s) → (cn_receiver c = false → cn_receiver c' = false) →
  pcs_calls s' !! i = Some call → pcs_responses s' !! r = Some None → abandoned i call k cmd r s'.
Proof.
  intros [A1 A2 A3 A4 (c0 & Hc0 & Hoff)] Hinv Hk Ec Hdeaf Hi Hr. split; try done.
  rewrite Ec. destruct (decide (k' = k)) as [->|Hne].
  - simplify_eq. exists c'. rewrite lookup_insert_eq. auto.
  - exists c0. by rewrite lookup_insert_ne.
Qed.

Lemma abandoned_label i call k cmd r k' c s s' :
  abandoned i call k cmd r s → pcs_inv s' → pcs_conns s !! k' = Some c →
  send_command k' c s = Some s' ∨ processCommands k' c s = Some s' ∨
  receive_message k' c s = Some s' ∨ disconnect k' c s = Some s' ∨ receive_end k' c s = Some s' ∨
  cleanup k' c s = Some s' →
  abandoned i call k cmd r s'.
Proof.
  intros Hab Hinv Hk H. pose proof Hab as [A1 A2 A3 A4 (c0 & Hc0 & Hoff)].
  destruct H as [H|[H|[H|[H|[H|H]]]]].
  - unfold send_command in H. repeat case_match; simplify_eq; by eapply (abandoned_conn _ _ _ _ _ k' c).
  - unfold processCommands in H. repeat case_match; simplify_eq; by eapply (abandoned_conn _ _ _ _ _ k' c).
  - unfold receive_message in H. destruct (cn_receiver c) eqn:Hon; [|done].
    destruct (cn_up c) as [|msg up]; [done|]. simpl in H.
    destruct (cn_pendingResponses c !! _) as [r'|] eqn:Hp; [|injection H as <-; by eapply (abandoned_conn _ _ _ _ _ k' c)].
    destruct (pcs_responses s !! r') as [[|]|]; [done| |done]. injection H as <-.
    eapply (abandoned_conn _ _ _ _ _ k' c); [done|done|done|done|by rewrite Hon|done|]. simpl.
    rewrite lookup_insert_ne; [done|]. intros ->.
    destruct (co_pending _ _ _ (pi_conns _ A1 _ _ Hk) _ _ Hp) as (cmd' & (j & callj & Hj & Hpj) & _).
    assert (j = i) as -> by (eapply (pi_responses _ A1); [done|exact A2|done|by rewrite A3]).
    simplify_eq. rewrite A3 in Hpj. simpl in Hpj. simplify_eq. congruence.
  - unfold disconnect in H. repeat case_match; simplify_eq; by eapply (abandoned_conn _ _ _ _ _ k' c).
  - unfold receive_end in H. repeat case_match; simplify_eq; by eapply (abandoned_conn _ _ _ _ _ k' c).
  - unfold cleanup in H. repeat case_match; simplify_eq; by eapply (abandoned_conn _ _ _ _ _ k' c).
Qed.

Lemma abandoned_exec i call k cmd r l s s' :
  abandoned i call k cmd r s → pcs_exec l s = Some s' → abandoned i call k cmd r s'.
Proof.
  intros Hab He. pose proof Hab as [A1 A2 A3 A4 (c0 & Hc0 & Hoff)].
  pose proof (inv_pcs_exec _ _ _ A1 He) as Hinv. revert He. unfold pcs_exec. destruct (pcs_panicked s); [done|].
  destruct l as [name pid p acked|instance body|j|k'|k'|k'|k'|k'|k'];
    try (intros (c & Hk & Hs)%bind_Some; eapply abandoned_label; [done|done|done|]; tauto).
  - intros [= <-]. split; try done. exists c0. simpl. apply (pi_fresh _ A1) in Hc0 as Hlt.
    by rewrite lookup_insert_ne by lia.
  - intros [= <-]. split; try done; [|by exists c0]. by apply lookup_app_l_Some.
  - intros (callj & Hj & Hs)%bind_Some. destruct (decide (j = i)) as [->|Hne].
    { simplify_eq. unfold SendCommand in Hs. by rewrite A3, A4 in Hs. }
    assert (∀ pc s1, <[j := mkSendCall (sc_instance callj) (sc_body callj) pc]> (pcs_calls s1) !! i =
                     pcs_calls s1 !! i) as Hi by (intros; by apply list_lookup_insert_ne).
    unfold SendCommand in Hs. destruct (sc_pc callj) as [|k'|k' cmd' r'|k' cmd' r'| |] eqn:Hpc; [..|done|done].
    + destruct (pcs_patterns s !! _); injection Hs as <-; (split; simpl; rewrite ?Hi; eauto).
    + destruct (pcs_conns s !! k') as [c'|] eqn:Hk'; simpl in Hs; [|done]. injection Hs as <-.
      eapply (abandoned_conn _ _ _ _ _ k' c'); [done|done|done|done|done|by simpl; rewrite Hi|].
      simpl. rewrite lookup_insert_ne; [done|].
      destruct (ca_resp _ _ (pi_calls _ A1 _ _ A2) k cmd r) as [Hlt _]; [by rewrite A3|]. lia.
    + destruct (pcs_conns s !! k') as [c'|] eqn:Hk'; simpl in Hs; [|done].
      destruct (cn_closed c'); [injection Hs as <-; split; eauto|].
      destruct (_ <? _)%nat; [|done]. injection Hs as <-.
      eapply (abandoned_conn _ _ _ _ _ k' c'); [done|done|done|done|done|by simpl; rewrite Hi|done].
    + destruct (pcs_responses s !! r') as [[msg|]|] eqn:Hr'; [|done|done]. injection Hs as <-.
      split; simpl; rewrite ?Hi; eauto. rewrite lookup_insert_ne; [done|]. congruence.
Qed.

(** A call that is in flight when the pattern goes away never returns: once nothing
    is received from the connection any more and no answer was delivered, the call
    waits for ever, whatever happens, also when the pattern connects again. *)
Theorem abandoned_call_never_returns s ls s' i call k cmd r c :
  pcs_reachable s → pcs_calls s !! i = Some call → sc_pc call = SWait k cmd r →
  pcs_responses s !! r = Some None → pcs_conns s !! k = Some c → cn_receiver c = false →
  pcs_run ls s = Some s' → pcs_calls s' !! i = Some call.
Proof.
  intros Hr Hi Hpc He Hk Hoff Hrun.
  assert (abandoned i call k cmd r s) as Hab by (split; eauto using inv_pcs_reachable).
  eapply ab_call, run_labels_invariant; [|exact Hab|exact Hrun]. intros. by eapply abandoned_exec.
Qed.
End Spec.

(** ** Configuration *)

Lemma add_fields_lookup kvs backend key :
  NoDup kvs.*1 →
  add_fields kvs backend !! key =
    match (list_to_map kvs : gmap string pb_value) !! key with
    | Some v => if is_section key then backend !! key else Some (structValueToAny v)
    | None => backend !! key
    end.
Proof.
  revert backend. induction kvs as [|[k v] kvs IH]; intros backend Hnd; simpl in *; [done|].
  apply NoDup_cons in Hnd as [Hk Hnd]. rewrite IH by done.
  destruct (decide (key = k)) as [->|Hne].
  - rewrite not_elem_of_list_to_map_1, lookup_insert_eq by done.
    destruct (is_section k) eqn:E; [done|]. by rewrite lookup_insert_eq.
  - rewrite lookup_insert_ne by done. destruct (list_to_map kvs !! key) eqn:E.
    + destruct (is_section key) eqn:Es; [|done]. destruct (is_section k); [done|]. by rewrite lookup_insert_ne.
    + destruct (is_section k); [done|]. by rewrite lookup_insert_ne.
Qed.

Lemma add_section_lookup key fields backend key' :
  add_section key fields backend !! key' =
    match fields !! key with
    | Some (PStruct f) => if decide (key' = key) then Some (AnyMap (structToMap f)) else backend !! key'
    | _ => backend !! key'
    end.
Proof.
  unfold add_section. destruct (fields !! key) as [[]|]; try done.
  destruct (decide _) as [->|]; [by rewrite lookup_insert_eq|by rewrite lookup_insert_ne].
Qed.

(** Parsing a configuration does not depend on the order in which the fields are
    visited: a field is found in the backend part under its own name as its conversion,
    except that the sections "slots" and "behavior" are found only when they are
    structs; nothing else is found, and the port is never read. *)
Theorem ParseConfigFromStruct_correct name version fields order cfg :
  order ≡ₚ map_to_list fields →
  ParseConfigFromStruct name version (Some fields) order = Some cfg →
  cfg_Name cfg = name ∧ cfg_Version cfg = version ∧ cfg_Port cfg = 0 ∧
  ∀ key, cfg_Backend cfg !! key =
    v ← fields !! key;
    if is_section key && negb (if v is PStruct _ then true else false) then None
    else Some (structValueToAny v).
Proof.
  intros Ho [= <-]. split_and!; [done..|]. intros key. simpl.
  assert (NoDup order.*1) as Hnd by (rewrite Ho; apply NoDup_fst_map_to_list).
  rewrite add_fields_lookup by done.
  rewrite (list_to_map_proper order (map_to_list fields)), list_to_map_to_list by done.
  rewrite !add_section_lookup, lookup_empty. unfold is_section.
  destruct (decide (key = "slots"%string)) as [->|H1].
  { simpl. destruct (fields !! "slots"%string) as [[]|]; simpl;
      by destruct (fields !! "behavior"%string) as [[]|]. }
  destruct (decide (key = "behavior"%string)) as [->|H2].
  { simpl. destruct (fields !! "behavior"%string) as [[]|]; simpl;
      by destruct (fields !! "slots"%string) as [[]|]. }
  rewrite bool_decide_eq_false_2 by (rewrite !elem_of_cons, elem_of_nil; tauto). simpl.
  destruct (fields !! key); simpl; [done|].
  destruct (fields !! "slots"%string) as [[]|], (fields !! "behavior"%string) as [[]|]; done.
Qed.

(** ** A plugin *)

Module PluginDemo.
(** It counts how often it was started and cannot be stopped before. *)
#[local] Instance Counter_Plugin : Plugin nat := {|
  pl_Name := λ _, "counter"%string;
  pl_Version := λ _, "1.0"%string;
  pl_Initialize := λ _ n, (n, None);
  pl_Start := λ n, (S n, None);
  pl_Drain := λ _ _ n, (n, inl (mkDrainMetrics 0 0));
  pl_Stop := λ n, (n, if decide (n = 0%nat) then Some "not started"%string else None);
  pl_Health := λ n, inl (mkHealthStatus HealthHealthy "" ∅) |}.

Local Open Scope string_scope.

Definition after (ls : list (@pcs_label nat)) : @ProxyControlPlaneServer nat :=
  default (panic NewProxyControlPlaneServer) (pcs_run ls NewProxyControlPlaneServer).

Lemma after_pcs_reachable ls : pcs_panicked (after ls) = false → pcs_reachable (after ls).
Proof.
  unfold after. destruct (pcs_run ls _) as [s|] eqn:E; simpl; [|done]. intros _.
  by eapply (run_labels_invariant _ _ _ _ _ pcs_reach_step); [constructor|].
Qed.

Definition connected : list (@pcs_label nat) := [PConnect "kv" 7 0%nat true].
Definition two_calls : list (@pcs_label nat) :=
  connected ++ [PCall "kv-7" CStart; PCall "kv-7" CHealthCheck;
                PCallStep 0; PCallStep 1; PCallStep 1; PCallStep 0; PCallStep 0; PCallStep 1].
Definition answered : list (@pcs_label nat) :=
  two_calls ++ [PSend 0; PSend 0; PHandle 0; PHandle 0; PReceive 0; PReceive 0; PCallStep 0; PCallStep 1].
Definition gone : list (@pcs_label nat) := two_calls ++ [PSend 0; PDisconnect 0; PEnd 0; PCleanup 0].

Lemma answers_match_commands_witness :
  ∃ c, pcs_conns (after answered) !! 0%nat = Some c ∧ cn_InstanceID c = "kv-7" ∧
    (mkProxyCommand "kv-7-2" CStart, mkPatternMessage "kv-7-2" (Some (StartResponse true ""))) ∈ cn_handled c.
Proof.
  destruct (answers_match_commands (after answered) 0 (mkSendCall "kv-7" CStart
    (SReturned 0 (mkProxyCommand "kv-7-2" CStart) 1
       (mkPatternMessage "kv-7-2" (Some (StartResponse true ""))))) 0
    (mkProxyCommand "kv-7-2" CStart) 1 (mkPatternMessage "kv-7-2" (Some (StartResponse true ""))))
    as (c & Hc & Hid & _ & Hh & _).
  - apply after_pcs_reachable. by vm_compute.
  - by vm_compute.
  - done.
  - exists c. split; [exact Hc|]. split; [exact Hid|exact Hh].
Defined.

Lemma abandoned_call_never_returns_witness :
  ∃ call, pcs_calls (after (gone ++ [PConnect "kv" 7 0%nat true])) !! 0%nat = Some call ∧
    sc_pc call = SWait 0 (mkProxyCommand "kv-7-2" CStart) 1.
Proof.
  exists (mkSendCall "kv-7" CStart (SWait 0 (mkProxyCommand "kv-7-2" CStart) 1)). split; [|done].
  eapply (abandoned_call_never_returns (after gone) [PConnect "kv" 7 0%nat true] _ 0
    (mkSendCall "kv-7" CStart (SWait 0 (mkProxyCommand "kv-7-2" CStart) 1))
    0 (mkProxyCommand "kv-7-2" CStart) 1).
  - apply after_pcs_reachable. by vm_compute.
  - by vm_compute.
  - done.
  - by vm_compute.
  - by vm_compute.
  - by vm_compute.
  - by vm_compute.
Defined.

Lemma ParseConfigFromStruct_correct_witness :
  ∃ cfg, ParseConfigFromStruct "kv" "1" (Some {[ "slots" := PBool true; "ttl" := PNull ]})
           [("ttl", PNull); ("slots", PBool true)] = Some cfg ∧
    cfg_Backend cfg !! "slots" = None ∧ cfg_Backend cfg !! "ttl" = Some AnyNil.
Proof.
  edestruct (ParseConfigFromStruct_correct "kv" "1" {[ "slots" := PBool true; "ttl" := PNull ]}
    [("ttl", PNull); ("slots", PBool true)]) as (_ & _ & _ & Hk); [| |eexists; split_and!].
  - vm_compute. first [reflexivity | apply perm_swap].
  - reflexivity.
  - reflexivity.
  - apply (Hk "slots").
  - apply (Hk "ttl").
Defined.

(** A call that looked its connection up before the pattern left sends on a closed
    channel. *)
Example send_after_disconnect_panics :
  pcs_panicked (after (connected ++ [PCall "kv-7" CStart; PCallStep 0; PCallStep 0; PDisconnect 0;
                                     PEnd 0; PCleanup 0; PCallStep 0])) = true.
Proof. by vm_compute. Qed.

(** A pattern that connects again under the same process id is forgotten when the end of
    its first connection is noticed. *)
Example reconnected_pattern_is_forgotten :
  let s := after (connected ++ [PDisconnect 0; PConnect "kv" 7 0%nat true; PEnd 0; PCleanup 0]) in
  GetPatternInstances s = [] ∧
  (cn_connected <$> pcs_conns s !! 1%nat) = Some true.
Proof. by vm_compute. Qed.

(** A registration that could not be acknowledged stays, and nobody serves it. *)
Example unacknowledged_pattern_stays :
  let s := after [PConnect "kv" 7 0%nat false; PCall "kv-7" CStart; PCallStep 0; PCallStep 0; PCallStep 0] in
  GetPatternInstances s = ["kv-7"] ∧ (cn_sender <$> pcs_conns s !! 0%nat) = Some false ∧
  sc_pc <$> pcs_calls s !! 0%nat = Some (SWait 0 (mkProxyCommand "kv-7-1" CStart) 0).
Proof. by vm_compute. Qed.

(** A shutdown command followed by [Close] closes the channel twice. *)
Example shutdown_then_close_panics :
  cl_panicked (Client_Close (handleCommand (CShutdown "bye") (mkClient 1%nat false false)).1) = true.
Proof. by vm_compute. Qed.

(** The same request without a configuration succeeds over the lifecycle service and
    fails over the control plane. *)
Example nil_config_is_treated_differently :
  (Lifecycle_Initialize "kv" "1" None [] (NewLifecycleService 0%nat)).2 =
    InitializeResponse true "" (Some (mkMetadata "counter" "1.0")) ∧
  (handleCommand (CInitialize "kv" "1" None []) (mkClient 0%nat false false)).2 =
    Some (InitializeResponse false "failed to parse config: config struct is nil" None).
Proof. by vm_compute. Qed.
End PluginDemo.
