(* ===== verification/Kafka.v ===== *)
(** * pkg/drivers/kafka: the Kafka driver

    Publish-subscribe and queues over the Kafka client library.  A subscription has a
    consumer of the library, a buffered channel and a goroutine that reads a message,
    offers it to the channel and commits its offset; what does not fit is dropped.

    What the library answers (whether a client could be made, the next message, whether
    a commit succeeded, how many messages are left after a flush) is an argument.
    Subscriptions are objects, since goroutine and subscriber keep them when the map
    changes.  [kf_exec] is one step: a call, or one step of a goroutine.  The lists
    [ks_read], [ks_sent], [ks_dropped], [ks_committed] and [ks_received] are histories. *)

From stdpp Require Import pretty.
From S2P Require Import Prelude Memstore MemPubSub Slots Sqlite Backoff Plugin.
Local Open Scope Z_scope.

(** ** Configuration *)

Record KafkaConfig := mkKafkaConfig {
  kc_Brokers : list string;
  kc_Topic : string;
  kc_ConsumerGroup : string;
  kc_SASLMechanism : string;
  kc_SASLUsername : string;
  kc_SASLPassword : string;
  kc_VaultEnabled : bool;
  kc_VaultPath : string;
  kc_Compression : string;
  kc_Acks : string;
  kc_AutoOffsetReset : string }.

(** The values of a [kafka.ConfigMap]. *)
Inductive config_value := CfgString (s : string) | CfgBool (b : bool).
Abbreviation ConfigMap := (gmap string config_value).

(** The environment: an unset variable is empty. *)
Definition environment : Type := string → string.

Definition brokers (env : environment) (c : KafkaConfig) : string :=
  if bool_decide (env "KAFKA_BROKERS"%string = ""%string)
  then default ""%string (head (kc_Brokers c)) else env "KAFKA_BROKERS"%string.

Definition set_credentials (user pass : string) (c : KafkaConfig) : KafkaConfig :=
  mkKafkaConfig (kc_Brokers c) (kc_Topic c) (kc_ConsumerGroup c) (kc_SASLMechanism c) user pass
    (kc_VaultEnabled c) (kc_VaultPath c) (kc_Compression c) (kc_Acks c) (kc_AutoOffsetReset c).

(** The credentials of the environment come first, unless Vault is enabled. *)
Definition credentials (env : environment) (c : KafkaConfig) : KafkaConfig :=
  let pick name old := if bool_decide (env name = ""%string) then old else env name in
  if kc_VaultEnabled c then c
  else set_credentials (pick "KAFKA_SASL_USERNAME"%string (kc_SASLUsername c))
         (pick "KAFKA_SASL_PASSWORD"%string (kc_SASLPassword c)) c.

Local Open Scope string_scope.

Definition add_sasl (c : KafkaConfig) (m : ConfigMap) : ConfigMap :=
  if bool_decide (kc_SASLUsername c = "" ∨ kc_SASLPassword c = "") then m
  else <["sasl.password" := CfgString (kc_SASLPassword c)]>
       (<["sasl.username" := CfgString (kc_SASLUsername c)]>
        (<["sasl.mechanism" := CfgString (kc_SASLMechanism c)]>
         (<["security.protocol" := CfgString "SASL_SSL"]> m))).

Definition producerConfig (brokers : string) (c : KafkaConfig) : ConfigMap :=
  add_sasl c {[ "bootstrap.servers" := CfgString brokers;
                "compression.type" := CfgString (kc_Compression c);
                "acks" := CfgString (kc_Acks c);
                "client.id" := CfgString "prism-kafka-producer-0.1.0" ]}.

Definition consumerConfig (brokers group client : string) (c : KafkaConfig) : ConfigMap :=
  add_sasl c {[ "bootstrap.servers" := CfgString brokers;
                "group.id" := CfgString group;
                "auto.offset.reset" := CfgString (kc_AutoOffsetReset c);
                "enable.auto.commit" := CfgBool false;
                "client.id" := CfgString client ]}.

(** ** Messages *)

(** A [kafka.Message]; the bytes of a header are those of a string. *)
Record kafka_message := mkKafkaMessage {
  km_Topic : string;
  km_Partition : Z;
  km_Offset : Z;
  km_Value : bytes;
  km_Headers : list (string * string);
  km_Timestamp : Z }.

(** [order]: the metadata in the order of the loop.  Partition, offset and time are set
    by the broker. *)
Definition kafka_headers (messageID : string) (order : list (string * string)) : list (string * string) :=
  ("message_id", messageID) :: order.

(** The loop over the headers of a message that was read. *)
Fixpoint read_headers (hs : list (string * string)) (messageID : string) (md : str_map)
    : string * str_map :=
  match hs with
  | [] => (messageID, md)
  | (k, v) :: hs =>
      if bool_decide (k = "message_id") then read_headers hs v md
      else read_headers hs messageID (<[k := v]> md)
  end.

Definition pubsub_message (m : kafka_message) : PubSubMessage :=
  let '(messageID, md) := read_headers (km_Headers m) "" ∅ in
  let messageID :=
    if bool_decide (messageID = "")
    then km_Topic m +:+ "-" +:+ pretty (km_Partition m) +:+ "-" +:+ pretty (km_Offset m)
    else messageID in
  mkPubSubMessage messageID (km_Topic m) (km_Value m) md (UnixSecond (km_Timestamp m)).

(** ** The plugin *)

(** The goroutine of a subscription: looking at the context, reading, offering a message
    to the channel, committing it. *)
Inductive sub_pc :=
  | KPoll
  | KRead
  | KOffer (m : kafka_message)
  | KCommit (m : kafka_message)
  | KStopped.

Record subscription := mkSubscription {
  ks_topic : string;
  ks_subscriberID : string;
  ks_config : ConfigMap;
  ks_chan : channel;
  ks_consumer_closed : bool;
  ks_cancelled : bool;
  ks_pc : sub_pc;
  ks_read : list kafka_message;
  ks_sent : list kafka_message;
  ks_dropped : list kafka_message;
  ks_committed : list kafka_message;
  ks_received : list PubSubMessage }.

(** [kp_accepted]: the messages the producer took. *)
Record producer := mkProducer { kp_accepted : list kafka_message; kp_closed : bool }.

(** [kf_consumer]: the consumer of the configured topic, whether it is closed.
    [kf_discarded]: the messages it read. *)
Record KafkaPlugin := mkKafkaPlugin {
  kf_producer : option producer;
  kf_consumer : option bool;
  kf_config : option KafkaConfig;
  kf_subs : gmap string nat;
  kf_objects : list subscription;
  kf_discarded : list kafka_message;
  kf_panicked : bool }.

Definition Kafka_New : KafkaPlugin := mkKafkaPlugin None None None ∅ [] [] false.

Inductive kafka_error :=
  | ErrParseConfig
  | ErrNoBrokers
  | ErrNewProducer
  | ErrNewConsumer
  | ErrSubscribeTopic
  | ErrNotInitialized
  | ErrProduce
  | ErrNoSubscriptionFor (topic subscriberID : string)
  | ErrNoReceiver (queue : string).

Definition set_clients (pr : option producer) (co : option bool) (c : option KafkaConfig)
    (p : KafkaPlugin) : KafkaPlugin :=
  mkKafkaPlugin pr co c (kf_subs p) (kf_objects p) (kf_discarded p) (kf_panicked p).
Definition set_subs (m : gmap string nat) (subs : list subscription) (p : KafkaPlugin) : KafkaPlugin :=
  mkKafkaPlugin (kf_producer p) (kf_consumer p) (kf_config p) m subs (kf_discarded p) (kf_panicked p).
Definition kf_panic (p : KafkaPlugin) : KafkaPlugin :=
  mkKafkaPlugin (kf_producer p) (kf_consumer p) (kf_config p) (kf_subs p) (kf_objects p)
    (kf_discarded p) true.

(** The clients stay in place when a later step fails, closed.  [p.config] points to the
    variable that the credentials are written to. *)
Definition Kafka_Initialize (env : environment) (parsed : option KafkaConfig)
    (new_producer new_consumer subscribed : bool) (p : KafkaPlugin) : KafkaPlugin * option kafka_error :=
  match parsed with
  | None => (p, Some ErrParseConfig)
  | Some c =>
      if bool_decide (brokers env c = "") then
        (set_clients (kf_producer p) (kf_consumer p) (Some c) p, Some ErrNoBrokers)
      else
        let c := credentials env c in
        if negb new_producer then
          (set_clients (kf_producer p) (kf_consumer p) (Some c) p, Some ErrNewProducer)
        else if negb new_consumer then
          (set_clients (Some (mkProducer [] true)) (kf_consumer p) (Some c) p, Some ErrNewConsumer)
        else if negb subscribed then
          (set_clients (Some (mkProducer [] true)) (Some true) (Some c) p, Some ErrSubscribeTopic)
        else (set_clients (Some (mkProducer [] false)) (Some false) (Some c) p, None)
  end.

(** [produced]: whether the producer took the message. *)
Definition Kafka_Publish (messageID topic : string) (payload : bytes) (order : list (string * string))
    (produced : bool) (p : KafkaPlugin) : KafkaPlugin * result kafka_error string :=
  match kf_producer p with
  | None => (p, Err ErrNotInitialized)
  | Some pr =>
      if negb produced then (p, Err ErrProduce)
      else
        let m := mkKafkaMessage topic (-1) 0 payload (kafka_headers messageID order) 0 in
        (set_clients (Some (mkProducer (kp_accepted pr ++ [m]) (kp_closed pr))) (kf_consumer p)
           (kf_config p) p, Ok messageID)
  end.

Definition Kafka_Enqueue := Kafka_Publish.

(** [Subscribe] and [Receive] differ in the group, the client id and the key.  Without a
    configuration they dereference nil. *)
Definition new_subscription (env : environment) (group client : KafkaConfig → string)
    (topic subscriberID key : string) (new_consumer subscribed : bool) (p : KafkaPlugin)
    : KafkaPlugin * result kafka_error nat :=
  match kf_config p with
  | None => (kf_panic p, Panic)
  | Some c =>
      if bool_decide (brokers env c = "") then (p, Err ErrNoBrokers)
      else if negb new_consumer then (p, Err ErrNewConsumer)
      else if negb subscribed then (p, Err ErrSubscribeTopic)
      else
        let k := length (kf_objects p) in
        let sub := mkSubscription topic subscriberID
                     (consumerConfig (brokers env c) (group c) (client c) c)
                     (mkChannel [] 100 false) false false KPoll [] [] [] [] [] in
        (set_subs (<[key := k]> (kf_subs p)) (kf_objects p ++ [sub]) p, Ok k)
  end.

Definition kafka_key (topic subscriberID : string) : string := topic +:+ ":" +:+ subscriberID.
Definition queue_key (queue : string) : string := "queue:" +:+ queue.

Definition Kafka_Subscribe (env : environment) (topic subscriberID : string)
    : bool → bool → KafkaPlugin → KafkaPlugin * result kafka_error nat :=
  new_subscription env (λ c, kc_ConsumerGroup c +:+ "-" +:+ subscriberID)
    (λ _, "prism-kafka-sub-" +:+ topic +:+ "-" +:+ subscriberID) topic subscriberID
    (kafka_key topic subscriberID).

Definition Kafka_Receive (env : environment) (queue : string)
    : bool → bool → KafkaPlugin → KafkaPlugin * result kafka_error nat :=
  new_subscription env (λ _, queue +:+ "-queue") (λ _, "prism-kafka-queue-" +:+ queue) queue "queue"
    (queue_key queue).

(** ** A subscription *)

(** The parts of a subscription that its goroutine changes. *)
Definition sub_goto (pc : sub_pc) (s : subscription) : subscription :=
  mkSubscription (ks_topic s) (ks_subscriberID s) (ks_config s) (ks_chan s) (ks_consumer_closed s)
    (ks_cancelled s) pc (ks_read s) (ks_sent s) (ks_dropped s) (ks_committed s) (ks_received s).

Definition set_closed (closed consumer_closed cancelled : bool) (s : subscription) : subscription :=
  mkSubscription (ks_topic s) (ks_subscriberID s) (ks_config s)
    (mkChannel (ch_buffer (ks_chan s)) (ch_capacity (ks_chan s)) closed) consumer_closed cancelled
    (ks_pc s) (ks_read s) (ks_sent s) (ks_dropped s) (ks_committed s) (ks_received s).

Definition set_buffer (buffer : list PubSubMessage) (received : list PubSubMessage) (s : subscription)
    : subscription :=
  mkSubscription (ks_topic s) (ks_subscriberID s) (ks_config s)
    (mkChannel buffer (ch_capacity (ks_chan s)) (ch_closed (ks_chan s))) (ks_consumer_closed s)
    (ks_cancelled s) (ks_pc s) (ks_read s) (ks_sent s) (ks_dropped s) (ks_committed s) received.

Definition set_history (read sent dropped committed : list kafka_message) (s : subscription) : subscription :=
  mkSubscription (ks_topic s) (ks_subscriberID s) (ks_config s) (ks_chan s) (ks_consumer_closed s)
    (ks_cancelled s) (ks_pc s) read sent dropped committed (ks_received s).

(** What decides a step of the goroutine: the answer of [ReadMessage] ([None]: an error,
    a timeout among them), the ready case that [select] takes, the answer of
    [CommitMessage]. *)
Inductive sub_event :=
  | EvPoll
  | EvRead (r : option kafka_message)
  | EvSend
  | EvDone
  | EvDefault
  | EvCommit (ok : bool).

Definition is_full (c : channel) : bool := negb (length (ch_buffer c) <? ch_capacity c)%nat.

(** [inr ()]: the send panics, on a closed channel.  The outer [option]: the step is
    not possible.  [select] takes [default] only when no other case is ready. *)
Definition consumeSubscription (e : sub_event) (s : subscription) : option (subscription + unit) :=
  match ks_pc s, e with
  | KPoll, EvPoll => Some (inl (sub_goto (if ks_cancelled s then KStopped else KRead) s))
  | KRead, EvRead None => Some (inl (sub_goto KPoll s))
  | KRead, EvRead (Some m) =>
      Some (inl (sub_goto (KOffer m)
        (set_history (ks_read s ++ [m]) (ks_sent s) (ks_dropped s) (ks_committed s) s)))
  | KOffer m, EvSend =>
      if ch_closed (ks_chan s) then Some (inr ())
      else if is_full (ks_chan s) then None
      else Some (inl (sub_goto (KCommit m)
             (set_history (ks_read s) (ks_sent s ++ [m]) (ks_dropped s) (ks_committed s)
               (set_buffer (ch_buffer (ks_chan s) ++ [pubsub_message m]) (ks_received s) s))))
  | KOffer m, EvDone => if ks_cancelled s then Some (inl (sub_goto KStopped s)) else None
  | KOffer m, EvDefault =>
      if ch_closed (ks_chan s) || negb (is_full (ks_chan s)) || ks_cancelled s then None
      else Some (inl (sub_goto KPoll
             (set_history (ks_read s) (ks_sent s) (ks_dropped s ++ [m]) (ks_committed s) s)))
  | KCommit m, EvCommit ok =>
      Some (inl (sub_goto KPoll
        (set_history (ks_read s) (ks_sent s) (ks_dropped s)
          (if ok then ks_committed s ++ [m] else ks_committed s) s)))
  | _, _ => None
  end.

(** The subscriber takes a message from the channel. *)
Definition take_message (s : subscription) : option subscription :=
  match ch_buffer (ks_chan s) with
  | m :: ms => Some (set_buffer ms (ks_received s ++ [m]) s)
  | [] => None
  end.

(** Cancel, close the consumer, close the channel; closing a closed channel panics. *)
Definition close_sub (k : nat) (p : KafkaPlugin) : KafkaPlugin :=
  match kf_objects p !! k with
  | None => p
  | Some s =>
      if ch_closed (ks_chan s) then kf_panic p
      else set_subs (kf_subs p) (<[k := set_closed true true true s]> (kf_objects p)) p
  end.

Definition Kafka_Unsubscribe (topic subscriberID : string) (p : KafkaPlugin)
    : KafkaPlugin * option kafka_error :=
  let key := kafka_key topic subscriberID in
  match kf_subs p !! key with
  | None => (p, Some (ErrNoSubscriptionFor topic subscriberID))
  | Some k =>
      let p := close_sub k p in
      (set_subs (delete key (kf_subs p)) (kf_objects p) p, None)
  end.

Definition Kafka_Acknowledge (queue messageID : string) (p : KafkaPlugin) : option kafka_error := None.

Definition Kafka_Reject (queue messageID : string) (requeue : bool) (p : KafkaPlugin)
    : option kafka_error :=
  match kf_subs p !! queue_key queue with
  | None => Some (ErrNoReceiver queue)
  | Some _ => None
  end.

(** ** Lifecycle *)

(** The loop over the subscriptions, in any order. *)
Fixpoint close_subs (order : list (string * nat)) (p : KafkaPlugin) : KafkaPlugin :=
  match order with
  | [] => p
  | (key, k) :: order =>
      let p := close_sub k p in
      close_subs order (set_subs (delete key (kf_subs p)) (kf_objects p) p)
  end.

Definition Kafka_Stop (order : list (string * nat)) (p : KafkaPlugin) : KafkaPlugin :=
  let p := close_subs order p in
  set_clients ((λ pr, mkProducer (kp_accepted pr) true) <$> kf_producer p)
    ((λ _, true) <$> kf_consumer p) (kf_config p) p.

(** [flush t]: the messages left when flushing for [t] milliseconds. *)
Definition Kafka_Drain (flush : Z → Z) (timeoutSeconds : Z) (p : KafkaPlugin) : DrainMetrics :=
  match kf_producer p with
  | None => mkDrainMetrics 0 0
  | Some _ =>
      let remaining := flush (timeoutSeconds * 1000) in
      if (0 <? remaining)%Z then mkDrainMetrics 0 remaining else mkDrainMetrics 0 0
  end.

(** [len]: the length of the producer's queue. *)
Definition Kafka_Health (len : Z) (p : KafkaPlugin) : HealthStatus :=
  match kf_producer p, kf_consumer p with
  | Some _, Some _ =>
      if (10000 <? len)%Z then
        mkHealthStatus HealthDegraded "producer queue backing up" {[ "queue_length" := pretty len ]}
      else
        mkHealthStatus HealthHealthy "kafka healthy"
          {[ "producer_queue" := pretty len; "topic" := from_option kc_Topic "" (kf_config p) ]}
  | _, _ => mkHealthStatus HealthUnhealthy "kafka clients not initialized" ∅
  end.

(** One round of [consumeMessages]: what the consumer of the configured topic reads is
    committed and goes nowhere. *)
Definition consumeMessages (read : option kafka_message) (p : KafkaPlugin) : KafkaPlugin :=
  match read with
  | None => p
  | Some m =>
      mkKafkaPlugin (kf_producer p) (kf_consumer p) (kf_config p) (kf_subs p) (kf_objects p)
        (kf_discarded p ++ [m]) (kf_panicked p)
  end.

(** ** The system *)

Inductive kf_label :=
  | KfInitialize (env : environment) (parsed : option KafkaConfig) (new_producer new_consumer subscribed : bool)
  | KfPublish (messageID topic : string) (payload : bytes) (order : list (string * string)) (produced : bool)
  | KfSubscribe (env : environment) (topic subscriberID : string) (new_consumer subscribed : bool)
  | KfReceive (env : environment) (queue : string) (new_consumer subscribed : bool)
  | KfUnsubscribe (topic subscriberID : string)
  | KfStop (order : list (string * nat))
  | KfCancel (k : nat)
  | KfSub (k : nat) (e : sub_event)
  | KfTake (k : nat)
  | KfMain (read : option kafka_message).

Definition put_sub (k : nat) (s : subscription) (p : KafkaPlugin) : KafkaPlugin :=
  set_subs (kf_subs p) (<[k := s]> (kf_objects p)) p.

Definition kf_exec (l : kf_label) (p : KafkaPlugin) : option KafkaPlugin :=
  if kf_panicked p then None
  else match l with
  | KfInitialize env parsed a b c => Some (Kafka_Initialize env parsed a b c p).1
  | KfPublish id topic payload order produced => Some (Kafka_Publish id topic payload order produced p).1
  | KfSubscribe env topic id a b => Some (Kafka_Subscribe env topic id a b p).1
  | KfReceive env queue a b => Some (Kafka_Receive env queue a b p).1
  | KfUnsubscribe topic id => Some (Kafka_Unsubscribe topic id p).1
  | KfStop order =>
      if decide (order ≡ₚ map_to_list (kf_subs p)) then Some (Kafka_Stop order p) else None
  | KfCancel k =>
      s ← kf_objects p !! k;
      Some (put_sub k (set_closed (ch_closed (ks_chan s)) (ks_consumer_closed s) true s) p)
  | KfSub k e =>
      s ← kf_objects p !! k;
      r ← consumeSubscription e s;
      Some (match r with inl s => put_sub k s p | inr _ => kf_panic p end)
  | KfTake k =>
      s ← kf_objects p !! k;
      s ← take_message s;
      Some (put_sub k s p)
  | KfMain read => if kf_consumer p is Some false then Some (consumeMessages read p) else None
  end.

Definition kf_run : list kf_label → KafkaPlugin → option KafkaPlugin := run_labels kf_exec.

Inductive kf_reachable : KafkaPlugin → Prop :=
  | kf_reach_new : kf_reachable Kafka_New
  | kf_reach_step p l p' : kf_reachable p → kf_exec l p = Some p' → kf_reachable p'.
