(* ===== verification/KafkaSpec.v ===== *)
(** * Correctness of the Kafka driver

    Every message a subscription reads is handed over in order, dropped when the channel
    is full, or the last one in hand; offsets are committed only for messages that were
    handed over.  Closing never panics, sending does only on a closed subscription.
    Metadata and message id survive the headers. *)

From stdpp Require Import pretty.
From S2P Require Import Prelude Memstore MemPubSub Slots Sqlite Backoff Plugin Kafka.
Local Open Scope Z_scope.

(** ** One subscription *)

(** The message in hand is not among the messages sent ([l] without its last), nor among
    those committed. *)
Definition before {A} (hand : option A) (l : list A) (P : list A → Prop) : Prop :=
  match hand with
  | Some m => ∃ l', l = l' ++ [m] ∧ P l'
  | None => P l
  end.

Definition offering (s : subscription) : option kafka_message :=
  if ks_pc s is KOffer m then Some m else None.
Definition committing (s : subscription) : option kafka_message :=
  if ks_pc s is KCommit m then Some m else None.
Definition stopped (s : subscription) : bool := if ks_pc s is KStopped then true else false.

Record sub_ok (s : subscription) : Prop := {
  so_handed : ks_received s ++ ch_buffer (ks_chan s) = pubsub_message <$> ks_sent s;
  so_capacity : ch_capacity (ks_chan s) = 100%nat;
  so_room : (length (ch_buffer (ks_chan s)) ≤ 100)%nat;
  so_sent : before (offering s) (ks_read s) (λ l, ks_sent s `sublist_of` l);
  so_committed : before (committing s) (ks_sent s) (λ l, ks_committed s `sublist_of` l);
  so_read : ∃ rest, ks_read s ≡ₚ ks_sent s ++ ks_dropped s ++ rest ∧
    (if stopped s then (length rest ≤ 1)%nat else rest = option_list (offering s));
  so_dropped : ks_dropped s ≠ [] → (100 ≤ length (ks_sent s))%nat;
  so_closed : ch_closed (ks_chan s) = true → ks_cancelled s = true }.

Lemma before_impl {A} (hand : option A) l (P Q : list A → Prop) :
  (∀ l, P l → Q l) → before hand l P → before hand l Q.
Proof. destruct hand; simpl; [|auto]. intros H (l' & -> & HP). eauto. Qed.

Lemma before_sublist {A} (hand : option A) l l0 :
  before hand l (λ l, l0 `sublist_of` l) → l0 `sublist_of` l.
Proof. destruct hand; simpl; [|done]. intros (l' & -> & H). by apply sublist_inserts_r. Qed.

Lemma is_full_true c : is_full c = true ↔ (ch_capacity c ≤ length (ch_buffer c))%nat.
Proof. unfold is_full. rewrite negb_true_iff. apply Nat.ltb_ge. Qed.
Lemma is_full_false c : is_full c = false ↔ (length (ch_buffer c) < ch_capacity c)%nat.
Proof. unfold is_full. rewrite negb_false_iff. apply Nat.ltb_lt. Qed.

Ltac sub_split := split; unfold offering, committing, stopped; simpl; auto.

Lemma sub_ok_consume e s s' : sub_ok s → consumeSubscription e s = Some (inl s') → sub_ok s'.
Proof.
  intros [H1 H2 H3 H4 H5 (rest & H6 & H7) H8 H9] E. unfold consumeSubscription in E.
  destruct (ks_pc s) as [| |m|m|] eqn:Hpc, e as [|[r|]| | | |ok]; try discriminate E;
    unfold offering, committing, stopped in H4, H5, H7; rewrite Hpc in H4, H5, H7; simpl in H4, H5, H7.
  - injection E as <-. destruct (ks_cancelled s) eqn:Hc; sub_split.
    all: try (intros; rewrite Hc; by apply H9); exists rest; subst; simpl; auto with lia.
  - injection E as <-. sub_split.
    + exists (ks_read s). auto.
    + exists [r]. split; [|done]. subst. by rewrite H6, app_nil_r, app_assoc.
  - injection E as <-. sub_split. exists rest. auto.
  - destruct (ch_closed (ks_chan s)) eqn:Hcl; [done|]. destruct (is_full (ks_chan s)) eqn:Hf; [done|].
    injection E as <-. apply is_full_false in Hf. rewrite H2 in Hf. destruct H4 as (l' & Hr & Hs).
    sub_split.
    + by rewrite app_assoc, H1, fmap_app.
    + rewrite length_app. simpl. lia.
    + rewrite Hr. by apply sublist_app.
    + exists (ks_sent s). auto.
    + exists []. split; [|done]. subst rest. rewrite H6, app_nil_r, <- !app_assoc. f_equiv. apply Permutation_app_comm.
    + intros Hd. rewrite length_app. specialize (H8 Hd). lia.
    + by rewrite Hcl.
  - destruct (ks_cancelled s) eqn:Hc; [|done]. injection E as <-. destruct H4 as (l' & Hr & Hs).
    sub_split.
    + rewrite Hr. by apply sublist_inserts_r.
    + exists rest. subst rest. auto.
  - destruct (_ || _) eqn:Hb; [done|]. injection E as <-. destruct H4 as (l' & Hr & Hs).
    apply orb_false_iff in Hb as [[_ Hf%negb_false_iff]%orb_false_iff _].
    apply is_full_true in Hf. rewrite H2 in Hf. sub_split.
    + rewrite Hr. by apply sublist_inserts_r.
    + exists []. split; [|done]. subst rest. by rewrite H6, app_nil_r.
    + intros _. apply (f_equal length) in H1. rewrite length_app, length_fmap in H1. lia.
  - injection E as <-. destruct H5 as (l' & Hr & Hs). sub_split.
    + rewrite Hr. destruct ok; [by apply sublist_app|by apply sublist_inserts_r].
    + exists rest. auto.
Qed.

Lemma sub_ok_take s s' : sub_ok s → take_message s = Some s' → sub_ok s'.
Proof.
  intros [H1 H2 H3 H4 H5 H6 H8 H9]. unfold take_message.
  destruct (ch_buffer (ks_chan s)) as [|m ms] eqn:Hb; [done|]. intros [= <-]. sub_split.
  - by rewrite <- H1, <- app_assoc.
  - simpl in H3. lia.
Qed.

Lemma sub_ok_close closed consumer s :
  sub_ok s → sub_ok (set_closed closed consumer true s).
Proof. intros [H1 H2 H3 H4 H5 H6 H8 H9]. by split; simpl. Qed.

(** ** The plugin *)

Record kf_inv (p : KafkaPlugin) : Prop := {
  ki_objects : ∀ k s, kf_objects p !! k = Some s → sub_ok s;
  ki_open : ∀ key k, kf_subs p !! key = Some k →
    ∃ s, kf_objects p !! k = Some s ∧ ch_closed (ks_chan s) = false;
  ki_inj : ∀ key key' k, kf_subs p !! key = Some k → kf_subs p !! key' = Some k → key = key' }.

(** A state with the same subscriptions. *)
Lemma kf_inv_frame p p' :
  kf_subs p' = kf_subs p → kf_objects p' = kf_objects p → kf_inv p → kf_inv p'.
Proof. intros E1 E2 [H1 H2 H3]. split; rewrite ?E1, ?E2; auto. Qed.

Lemma kf_inv_put k s s' p :
  kf_inv p → kf_objects p !! k = Some s → sub_ok s' → ch_closed (ks_chan s') = ch_closed (ks_chan s) →
  kf_inv (put_sub k s' p).
Proof.
  intros [H1 H2 H3] Hk Hs Ec. assert (k < length (kf_objects p))%nat as Hlt by by eapply lookup_lt_Some.
  split; simpl; [| |done].
  - intros j t. destruct (decide (j = k)) as [->|]; [|rewrite list_lookup_insert_ne by done; by apply H1].
    rewrite list_lookup_insert_eq by done. by intros [= <-].
  - intros key j Hj. destruct (H2 _ _ Hj) as (t & Ht & Ho). destruct (decide (j = k)) as [->|].
    + exists s'. rewrite list_lookup_insert_eq by done. split; [done|]. by simplify_eq; rewrite Ec.
    + exists t. by rewrite list_lookup_insert_ne.
Qed.

Lemma sub_ok_new topic id config : sub_ok (mkSubscription topic id config (mkChannel [] 100 false)
  false false KPoll [] [] [] [] []).
Proof. split; simpl; try done; [lia|]. by exists []. Qed.

Lemma kf_inv_new_subscription env group client topic id key a b p :
  kf_inv p → kf_inv (new_subscription env group client topic id key a b p).1.
Proof.
  intros Hinv. unfold new_subscription. destruct (kf_config p) as [c|]; [|by apply (kf_inv_frame p)].
  case_bool_decide; [done|]. destruct a; [|done]. destruct b; [|done]. simpl. destruct Hinv as [H1 H2 H3].
  assert (∀ key' k, kf_subs p !! key' = Some k → (k < length (kf_objects p))%nat) as Hlt.
  { intros key' k (s & Hs & _)%H2. by eapply lookup_lt_Some. }
  split; simpl.
  - intros k s [Hk|[? Hk]]%lookup_app_Some; [eauto|].
    apply list_lookup_singleton_Some in Hk as [_ <-]. apply sub_ok_new.
  - intros key' k [[<- <-]|[Hne Hk]]%lookup_insert_Some.
    + eexists. by rewrite lookup_app_r, Nat.sub_diag by lia.
    + destruct (H2 _ _ Hk) as (s & Hs & Ho). exists s. by rewrite lookup_app_l by eauto.
  - intros key1 key2 k [[<- <-]|[Hne1 Hk1]]%lookup_insert_Some [[<- E2]|[Hne2 Hk2]]%lookup_insert_Some;
      [done| | |by eapply H3].
    + apply Hlt in Hk2. lia.
    + apply Hlt in Hk1. lia.
Qed.

(** Closing a subscription of the map and removing its entry. *)
Definition close_entry (key : string) (k : nat) (p : KafkaPlugin) : KafkaPlugin :=
  let p := close_sub k p in set_subs (delete key (kf_subs p)) (kf_objects p) p.

Lemma close_entry_spec key k p :
  kf_inv p → kf_subs p !! key = Some k →
  kf_inv (close_entry key k p) ∧ kf_subs (close_entry key k p) = delete key (kf_subs p) ∧
  kf_panicked (close_entry key k p) = kf_panicked p.
Proof.
  intros [H1 H2 H3] Hk. destruct (H2 _ _ Hk) as (s & Hs & Ho). unfold close_entry, close_sub.
  rewrite Hs, Ho. simpl. split_and!; [|done|done].
  assert (k < length (kf_objects p))%nat as Hlt by by eapply lookup_lt_Some.
  split; simpl.
  - intros j t. destruct (decide (j = k)) as [->|]; [|rewrite list_lookup_insert_ne by done; by apply H1].
    rewrite list_lookup_insert_eq by done. intros [= <-]. apply sub_ok_close. eauto.
  - intros key' j [Hne Hj]%lookup_delete_Some. destruct (H2 _ _ Hj) as (t & Ht & Hto).
    exists t. rewrite list_lookup_insert_ne; [done|]. intros <-. by eapply Hne, H3.
  - intros key1 key2 j [_ ?]%lookup_delete_Some [_ ?]%lookup_delete_Some. by eapply H3.
Qed.

Lemma close_subs_spec order p :
  kf_inv p → NoDup order.*1 → (∀ key k, (key, k) ∈ order → kf_subs p !! key = Some k) →
  kf_inv (close_subs order p) ∧ kf_panicked (close_subs order p) = kf_panicked p.
Proof.
  revert p. induction order as [|[key k] order IH]; intros p Hinv Hnd Hin; simpl; [done|].
  apply NoDup_cons in Hnd as [Hkey Hnd].
  destruct (close_entry_spec key k p) as (Hinv' & Es & Ep); [done|apply Hin; by left|].
  unfold close_entry in *. destruct (IH _ Hinv' Hnd) as [HI HP]; [|by rewrite <- Ep].
  intros key' k' Hk'. rewrite Es. rewrite lookup_delete_ne; [apply Hin; by right|].
  intros ->. apply Hkey. by apply (list_elem_of_fmap_2 fst) in Hk'.
Qed.

Lemma kf_Stop_spec order p :
  kf_inv p → order ≡ₚ map_to_list (kf_subs p) →
  kf_inv (Kafka_Stop order p) ∧ kf_panicked (Kafka_Stop order p) = kf_panicked p.
Proof.
  intros Hinv Ho. destruct (close_subs_spec order p Hinv) as [HI HP].
  - rewrite Ho. apply NoDup_fst_map_to_list.
  - intros key k. rewrite Ho. apply elem_of_map_to_list.
  - split; [by apply (kf_inv_frame (close_subs order p))|done].
Qed.

(** The two ways to panic. *)
Definition closed_under_hand (l : kf_label) (p : KafkaPlugin) : Prop :=
  ∃ k s m, l = KfSub k EvSend ∧ kf_objects p !! k = Some s ∧ ks_pc s = KOffer m ∧
    ch_closed (ks_chan s) = true ∧ ks_cancelled s = true.
Definition subscribes (l : kf_label) : bool :=
  match l with KfSubscribe _ _ _ _ _ | KfReceive _ _ _ _ => true | _ => false end.

Lemma new_subscription_panicked env group client topic id key a b p :
  kf_panicked p = false → kf_panicked (new_subscription env group client topic id key a b p).1 = true →
  kf_config p = None.
Proof.
  unfold new_subscription. destruct (kf_config p); [|done]. intros Hp.
  by case_bool_decide; [|destruct a; [destruct b|]]; simpl; rewrite Hp.
Qed.

Lemma kf_exec_spec l p p' :
  kf_inv p → kf_exec l p = Some p' →
  kf_inv p' ∧ (kf_panicked p' = true → closed_under_hand l p ∨ subscribes l = true ∧ kf_config p = None).
Proof.
  intros Hinv. unfold kf_exec. destruct (kf_panicked p) eqn:Hp; [done|].
  destruct l as [env parsed a b c|id topic payload order ok|env topic id a b|env queue a b|topic id
                |order|k|k e|k|read].
  - intros [= <-]. unfold Kafka_Initialize. destruct parsed as [c'|]; simpl; [|by rewrite Hp].
    case_bool_decide; simpl; [by rewrite Hp; split; [apply (kf_inv_frame p)|]|].
    destruct a, b, c; simpl; rewrite Hp; (split; [by apply (kf_inv_frame p)|done]).
  - intros [= <-]. unfold Kafka_Publish. destruct (kf_producer p); [destruct ok|]; simpl; rewrite Hp;
      (split; [by apply (kf_inv_frame p)|done]).
  - intros [= <-]. split; [by apply kf_inv_new_subscription|]. right. split; [done|].
    by eapply new_subscription_panicked.
  - intros [= <-]. split; [by apply kf_inv_new_subscription|]. right. split; [done|].
    by eapply new_subscription_panicked.
  - intros [= <-]. unfold Kafka_Unsubscribe. destruct (kf_subs p !! _) as [k|] eqn:Hk; simpl; [|by rewrite Hp].
    destruct (close_entry_spec _ _ _ Hinv Hk) as (HI & _ & Ep). unfold close_entry in *. simpl in *.
    by rewrite Ep, Hp.
  - destruct (decide _) as [Ho|]; [|done]. intros [= <-].
    destruct (kf_Stop_spec _ _ Hinv Ho) as [HI Ep]. by rewrite Ep, Hp.
  - intros (s & Hs & [= <-])%bind_Some. simpl. rewrite Hp. split; [|done].
    eapply kf_inv_put; [done|done| |done]. apply sub_ok_close. by eapply ki_objects.
  - intros (s & Hs & (r & Hr & [= <-])%bind_Some)%bind_Some. pose proof (ki_objects _ Hinv _ _ Hs) as Hok.
    destruct r as [s'|[]]; simpl.
    + rewrite Hp. split; [|done]. eapply kf_inv_put; [done|done|by eapply sub_ok_consume|].
      unfold consumeSubscription in Hr. by repeat (case_match; simplify_eq/=).
    + split; [by apply (kf_inv_frame p)|]. intros _. left. unfold consumeSubscription in Hr.
      destruct (ks_pc s) eqn:Hpc, e as [|[]| | | |]; try done; try (by case_match).
      destruct (ch_closed (ks_chan s)) eqn:Hc; [|by case_match].
      exists k, s, m. split_and!; try done. by apply (so_closed _ Hok).
  - intros (s & Hs & (s' & Hs' & [= <-])%bind_Some)%bind_Some. simpl. rewrite Hp. split; [|done].
    eapply kf_inv_put; [done|done|eapply sub_ok_take; [by eapply ki_objects|done]|].
    unfold take_message in Hs'. by case_match; simplify_eq.
  - destruct (kf_consumer p) as [[]|]; try done. intros [= <-]. destruct read; simpl; rewrite Hp;
      (split; [by apply (kf_inv_frame p)|done]).
Qed.

Lemma kf_inv_reachable p : kf_reachable p → kf_inv p.
Proof.
  induction 1 as [|p l p' _ IH He]; [|by eapply kf_exec_spec]. split; simpl; try done.
Qed.

(** C14. A subscription of the Kafka driver accounts for every message that its consumer
    read, in every run: the subscriber gets, in order, exactly the messages that were
    sent, these are read messages in the order they were read, every other one was
    dropped or is the last one in hand, nothing is dropped before a hundred messages were
    sent, and offsets are committed only for messages that were sent. *)
Theorem kafka_subscription_accounting p k s :
  kf_reachable p → kf_objects p !! k = Some s →
  ks_received s ++ ch_buffer (ks_chan s) = pubsub_message <$> ks_sent s ∧
  ks_sent s `sublist_of` ks_read s ∧ ks_committed s `sublist_of` ks_sent s ∧
  (∃ rest, ks_read s ≡ₚ ks_sent s ++ ks_dropped s ++ rest ∧ (length rest ≤ 1)%nat) ∧
  (ks_dropped s ≠ [] → (100 ≤ length (ks_sent s))%nat) ∧
  (length (ch_buffer (ks_chan s)) ≤ 100)%nat.
Proof.
  intros Hr%kf_inv_reachable Hs. destruct (ki_objects _ Hr _ _ Hs) as [H1 _ H3 H4 H5 (rest & H6 & H7) H8 _].
  apply before_sublist in H4, H5. split_and!; try done. exists rest. split; [done|].
  destruct (stopped s); [done|]. subst. destruct (offering s); simpl; lia.
Qed.

(** The driver panics in two ways only: a subscription before [Initialize] parsed a
    configuration, and a goroutine that sends on the channel of a subscription that was
    unsubscribed or stopped while it held a message.  [Unsubscribe] and [Stop] close
    every channel once. *)
Theorem kafka_panics_only_on_closed p l p' :
  kf_reachable p → kf_exec l p = Some p' → kf_panicked p' = true →
  closed_under_hand l p ∨ subscribes l = true ∧ kf_config p = None.
Proof. intros Hr%kf_inv_reachable He. by apply (kf_exec_spec _ _ _ Hr He). Qed.

(** ** Headers *)

Lemma read_headers_spec hs id md :
  NoDup hs.*1 →
  read_headers hs id md =
    (default id ((list_to_map hs : str_map) !! "message_id"%string),
     delete "message_id"%string (list_to_map hs) ∪ md).
Proof.
  revert id md. induction hs as [|[k v] hs IH]; intros id md Hnd; simpl in *.
  - by rewrite lookup_empty, delete_empty, map_empty_union.
  - apply NoDup_cons in Hnd as [Hk Hnd]. case_bool_decide as E.
    + subst. rewrite IH, lookup_insert_eq, delete_insert_eq by done. simpl.
      by rewrite (not_elem_of_list_to_map_1 _ _ Hk).
    + rewrite IH, lookup_insert_ne, delete_insert_ne by done. f_equal.
      rewrite <- insert_union_l, insert_union_r; [done|].
      rewrite lookup_delete_ne by done. by apply not_elem_of_list_to_map_1.
Qed.

(** A message that was published comes back with its payload, its id and its metadata
    in whatever order the headers were written; only the metadata key "message_id" takes
    the place of the id. *)
Theorem kafka_message_roundtrip id topic payload md order ok p p' pr m m' :
  order ≡ₚ map_to_list md → id ≠ ""%string → md !! "message_id"%string ≠ Some ""%string →
  Kafka_Publish id topic payload order ok p = (p', Ok id) →
  kf_producer p' = Some pr → last (kp_accepted pr) = Some m →
  km_Topic m' = km_Topic m → km_Value m' = km_Value m → km_Headers m' = km_Headers m →
  pm_MessageID (pubsub_message m') = default id (md !! "message_id"%string) ∧
  pm_Topic (pubsub_message m') = topic ∧ pm_Payload (pubsub_message m') = payload ∧
  pm_Metadata (pubsub_message m') = delete "message_id"%string md.
Proof.
  intros Ho Hid Hmd. unfold Kafka_Publish. destruct (kf_producer p) as [pr0|]; [|done].
  destruct ok; simpl; [|done]. intros [= <-]. simpl. intros [= <-] Hlast Et Ev Eh. simpl in Hlast.
  rewrite last_snoc in Hlast. injection Hlast as <-. simpl in *.
  assert (NoDup order.*1) as Hnd by (rewrite Ho; apply NoDup_fst_map_to_list).
  unfold pubsub_message. rewrite Eh. unfold kafka_headers. simpl. rewrite read_headers_spec by done.
  rewrite (list_to_map_proper order (map_to_list md)), list_to_map_to_list by done. simpl.
  rewrite map_union_empty, Et, Ev. split_and!; try done.
  rewrite bool_decide_eq_false_2; [done|]. by destruct (md !! _); simpl; [congruence|].
Qed.

(** ** Runs *)

Module KafkaDemo.
Local Open Scope string_scope.

Definition env : environment := λ name, if bool_decide (name = "KAFKA_BROKERS") then "b:9092" else "".
Definition config : KafkaConfig := mkKafkaConfig [] "t" "g" "" "" "" false "" "snappy" "all" "earliest".
Definition record (offset : Z) : kafka_message := mkKafkaMessage "t" 0 offset [] [("message_id", "x")] 0.
Definition start : list kf_label := [KfInitialize env (Some config) true true true; KfSubscribe env "t" "s" true true].
Definition read (offset : Z) : list kf_label := [KfSub 0 EvPoll; KfSub 0 (EvRead (Some (record offset)))].
Definition handled (offset : Z) : list kf_label := read offset ++ [KfSub 0 EvSend; KfSub 0 (EvCommit true)].

Definition after (ls : list kf_label) : KafkaPlugin :=
  default (kf_panic Kafka_New) (kf_run ls Kafka_New).

Lemma after_kf_reachable ls : is_Some (kf_run ls Kafka_New) → kf_reachable (after ls).
Proof.
  unfold after. intros [p E]. rewrite E. simpl. by eapply (run_labels_invariant _ _ _ _ _ kf_reach_step); [constructor|].
Qed.

(** A hundred messages nobody takes, one that is dropped, and one that is committed after
    the subscriber took a message. *)
Definition overflow : list kf_label :=
  start ++ flat_map handled (Z.of_nat <$> seq 0 100) ++ read 100 ++ [KfSub 0 EvDefault; KfTake 0] ++ handled 101.

Lemma kafka_subscription_accounting_witness :
  ∃ s, kf_objects (after overflow) !! 0%nat = Some s ∧ length (ks_sent s) = 101%nat ∧
    ks_committed s `sublist_of` ks_sent s.
Proof.
  destruct (kf_objects (after overflow) !! 0%nat) as [s|] eqn:E; [|by vm_compute in E].
  destruct (kafka_subscription_accounting (after overflow) 0 s) as (_ & _ & Hc & _).
  - apply after_kf_reachable. eexists. vm_compute. reflexivity.
  - exact E.
  - exists s. split; [done|]. split; [|done]. vm_compute in E. injection E as <-. reflexivity.
Defined.

Lemma kafka_panics_only_on_closed_witness :
  closed_under_hand (KfSub 0 EvSend) (after (start ++ read 0 ++ [KfUnsubscribe "t" "s"])).
Proof.
  destruct (kafka_panics_only_on_closed (after (start ++ read 0 ++ [KfUnsubscribe "t" "s"]))
    (KfSub 0 EvSend) (kf_panic (after (start ++ read 0 ++ [KfUnsubscribe "t" "s"])))) as [H|[H _]].
  - apply after_kf_reachable. eexists. vm_compute. reflexivity.
  - vm_compute. reflexivity.
  - reflexivity.
  - exact H.
  - discriminate H.
Defined.

Lemma kafka_message_roundtrip_witness :
  pm_Metadata (pubsub_message (mkKafkaMessage "t" 3 7 [1; 2] [("message_id", "x"); ("k", "v")] 0)) =
    {[ "k" := "v" ]}.
Proof.
  destruct (kafka_message_roundtrip "x" "t" [1; 2] {[ "k" := "v" ]} [("k", "v")] true (after start)
    (Kafka_Publish "x" "t" [1; 2] [("k", "v")] true (after start)).1
    (mkProducer [mkKafkaMessage "t" (-1) 0 [1; 2] [("message_id", "x"); ("k", "v")] 0] false)
    (mkKafkaMessage "t" (-1) 0 [1; 2] [("message_id", "x"); ("k", "v")] 0)
    (mkKafkaMessage "t" 3 7 [1; 2] [("message_id", "x"); ("k", "v")] 0)) as (_ & _ & _ & H);
    [by vm_compute..|]. exact H.
Defined.

(** The message that was dropped lies below the offset that was committed after it: it is
    not read again when the group resumes. *)
Example dropped_message_is_passed :
  (km_Offset <$> (s ← kf_objects (after overflow) !! 0%nat; last (ks_committed s))) = Some 101 ∧
  (fmap km_Offset ∘ ks_dropped <$> kf_objects (after overflow) !! 0%nat) = Some [100].
Proof. by vm_compute. Qed.

(** Subscribing again leaves the first goroutine running, out of reach of
    [Unsubscribe] and [Stop]. *)
Example resubscription_leaks :
  let p := after (start ++ [KfSubscribe env "t" "s" true true; KfUnsubscribe "t" "s"; KfStop []]) in
  (ks_cancelled <$> kf_objects p !! 0%nat) = Some false ∧ kf_subs p = ∅.
Proof. by vm_compute. Qed.

(** A queue and a subscriber of the topic "queue" have one key. *)
Example queue_keys_collide : kafka_key "queue" "jobs" = queue_key "jobs".
Proof. done. Qed.

(** A stopped driver reports that it is healthy. *)
Example healthy_after_stop :
  hs_Status (Kafka_Health 0 (after (start ++ [KfStop [("t:s", 0%nat)]]))) = HealthHealthy.
Proof. by vm_compute. Qed.
End KafkaDemo.
