(* ===== verification/Redis.v ===== *)
(** * pkg/drivers/redis and patterns/keyvalue: the Redis driver and the pattern over it

    The Redis server behind the client library is the class [RedisServer]: what its
    commands do to the entries of the keys, as documented.  The driver is an instance of
    [StateStore], the interface the messaging patterns use; the key-value pattern passes
    every call on to its driver. *)

From stdpp Require Import pretty.
From S2P Require Import Prelude Backoff Memstore Slots Plugin.
Local Open Scope Z_scope.

(** ** The server *)

Inductive redis_value := RedisString (v : bytes) | RedisHash (h : str_map).

(** A value and the time after which the key is gone. *)
Definition redis_entry : Type := redis_value * option Z.

Definition outlives (t : Z) (e : redis_entry) : bool :=
  match e.2 with Some d => t <=? d | None => true end.

(** [EXPIRE] takes whole seconds: the client cuts the duration, to no less than one. *)
Definition whole_seconds (d : Z) : Z := Z.max 1 (d / Second) * Second.

(** [rd_entry t s k]: the entry of [k] at time [t] if no command runs until then.  A
    command that fails may have taken effect. *)
Class RedisServer (S : Type) := {
  rd_entry : Z → S → string → option redis_entry;
  rd_SET : Z → string → bytes → Z → S → S * bool;
  rd_GET : Z → string → S → S * option (option bytes);
  rd_DEL : Z → string → S → S * bool;
  rd_EXISTS : Z → string → S → S * option Z;
  rd_HSET : Z → string → str_map → S → S * bool;
  rd_EXPIRE : Z → string → Z → S → S * bool;
  rd_HGETALL : Z → string → S → S * option str_map;
  rd_later t t' s k : t ≤ t' →
    rd_entry t' s k = (e ← rd_entry t s k; if outlives t' e then Some e else None);
  rd_SET_spec now k v exp s s' ok : rd_SET now k v exp s = (s', ok) → 0 ≤ exp →
    (∀ k', k' ≠ k → rd_entry now s' k' = rd_entry now s k') ∧
    (rd_entry now s' k = Some (RedisString v, if 0 <? exp then Some (now + exp) else None) ∨
     ok = false ∧ rd_entry now s' k = rd_entry now s k);
  rd_GET_spec now k s s' r : rd_GET now k s = (s', r) →
    (∀ k', rd_entry now s' k' = rd_entry now s k') ∧
    (r = None ∨ match rd_entry now s k with
                | None => r = Some None
                | Some (RedisString v, _) => r = Some (Some v)
                | Some (RedisHash _, _) => False
                end);
  rd_DEL_spec now k s s' ok : rd_DEL now k s = (s', ok) →
    (∀ k', k' ≠ k → rd_entry now s' k' = rd_entry now s k') ∧
    (rd_entry now s' k = None ∨ ok = false ∧ rd_entry now s' k = rd_entry now s k);
  rd_EXISTS_spec now k s s' r : rd_EXISTS now k s = (s', r) →
    (∀ k', rd_entry now s' k' = rd_entry now s k') ∧
    (r = None ∨ r = Some (if rd_entry now s k is Some _ then 1 else 0));
  rd_HSET_spec now k fields s s' ok : rd_HSET now k fields s = (s', ok) →
    (∀ k', k' ≠ k → rd_entry now s' k' = rd_entry now s k') ∧
    (match rd_entry now s k with
     | None => rd_entry now s' k = Some (RedisHash fields, None)
     | Some (RedisHash h, d) => rd_entry now s' k = Some (RedisHash (fields ∪ h), d)
     | Some (RedisString _, _) => False
     end ∨ ok = false ∧ rd_entry now s' k = rd_entry now s k);
  rd_EXPIRE_spec now k exp s s' ok : rd_EXPIRE now k exp s = (s', ok) → 0 < exp →
    (∀ k', k' ≠ k → rd_entry now s' k' = rd_entry now s k') ∧
    (rd_entry now s' k = (λ e, (e.1, Some (now + whole_seconds exp))) <$> rd_entry now s k ∨
     ok = false ∧ rd_entry now s' k = rd_entry now s k);
  rd_HGETALL_spec now k s s' r : rd_HGETALL now k s = (s', r) →
    (∀ k', rd_entry now s' k' = rd_entry now s k') ∧
    (r = None ∨ match rd_entry now s k with
                | None => r = Some ∅
                | Some (RedisHash h, _) => r = Some h
                | Some (RedisString _, _) => False
                end) }.

(** ** redis.go *)

Record RedisConfig := mkRedisConfig {
  rc_Address : string;
  rc_Password : string;
  rc_DB : Z;
  rc_MaxRetries : Z;
  rc_PoolSize : Z;
  rc_ConnMaxIdleTime : Z;
  rc_DialTimeout : Z;
  rc_ReadTimeout : Z;
  rc_WriteTimeout : Z }.

(** [len(a) > len(scheme) && a[:len(scheme)] == scheme]. *)
Definition has_scheme (scheme a : string) : bool :=
  (String.length scheme <? String.length a)%nat && String.prefix scheme a.

Definition strip_scheme (a : string) : string :=
  if has_scheme "redis://" a then String.substring 8 (String.length a - 8) a
  else if has_scheme "rediss://" a then String.substring 9 (String.length a - 9) a
  else a.

Definition redis_defaults (c : RedisConfig) : RedisConfig :=
  let dflt v d := if v =? 0 then d else v in
  mkRedisConfig
    (strip_scheme (if bool_decide (rc_Address c = ""%string) then "localhost:6379" else rc_Address c))
    (rc_Password c) (rc_DB c) (dflt (rc_MaxRetries c) 3) (dflt (rc_PoolSize c) 10)
    (dflt (rc_ConnMaxIdleTime c) (5 * 60 * Second)) (dflt (rc_DialTimeout c) (5 * Second))
    (dflt (rc_ReadTimeout c) (3 * Second)) (dflt (rc_WriteTimeout c) (3 * Second)).

Section Driver.
Context {S : Type} `{!RedisServer S}.

Record RedisPattern := mkRedisPattern { rp_client : option S; rp_config : option RedisConfig }.

Definition Redis_New : RedisPattern := mkRedisPattern None None.

Inductive redis_error := ErrRedisConfig | ErrRedisConnect | ErrRedisCommand.

(** The client is in place also when the first ping fails. *)
Definition Redis_Initialize (parsed : option RedisConfig) (client : S) (ping : bool) (r : RedisPattern)
    : RedisPattern * option redis_error :=
  match parsed with
  | None => (r, Some ErrRedisConfig)
  | Some c =>
      (mkRedisPattern (Some client) (Some (redis_defaults c)), if ping then None else Some ErrRedisConnect)
  end.

(** The operations with a client.  A positive TTL is a 64-bit number of nanoseconds. *)
Definition client_Set (now : Z) (key : string) (value : bytes) (ttlSeconds : Z) (s : S) : S * bool :=
  if 0 <? ttlSeconds then rd_SET now key value (wrap64 (ttlSeconds * Second)) s
  else rd_SET now key value 0 s.

Definition client_Get (now : Z) (key : string) (s : S) : S * option (option bytes) := rd_GET now key s.

Definition client_Delete (now : Z) (key : string) (s : S) : S * bool := rd_DEL now key s.

Definition client_Exists (now : Z) (key : string) (s : S) : S * option bool :=
  let '(s, r) := rd_EXISTS now key s in (s, (λ count, 0 <? count) <$> r).

(** Before [Initialize] the client is nil and its use panics. *)
Definition with_client {A} (op : S → S * A) (r : RedisPattern) : RedisPattern * result unit A :=
  match rp_client r with
  | None => (r, Panic)
  | Some s => let '(s, a) := op s in (mkRedisPattern (Some s) (rp_config r), Ok a)
  end.

Definition Redis_Set now key value ttlSeconds := with_client (client_Set now key value ttlSeconds).
Definition Redis_Get now key := with_client (client_Get now key).
Definition Redis_Delete now key := with_client (client_Delete now key).
Definition Redis_Exists now key := with_client (client_Exists now key).

(** [total], [idle]: the statistics of the connection pool. *)
Definition Redis_Health (ping : option string) (total idle : Z) (r : RedisPattern)
    : result unit HealthStatus :=
  match rp_client r, rp_config r with
  | Some _, Some c =>
      match ping with
      | Some e =>
          Ok (mkHealthStatus HealthUnhealthy ("Redis ping failed: " +:+ e) {[ "error"%string := e ]})
      | None =>
          let near := (Z.quot (rc_PoolSize c * 90) 100) mod 2 ^ 32 <=? total in
          Ok (mkHealthStatus (if near then HealthDegraded else HealthHealthy)
            (if near
             then "pool near capacity: " +:+ pretty total +:+ "/" +:+ pretty (rc_PoolSize c) +:+ " connections"
             else "healthy, " +:+ pretty total +:+ " connections")
            {[ "total_conns"%string := pretty total; "idle_conns"%string := pretty idle;
               "pool_size"%string := pretty (rc_PoolSize c) ]})
      end
  | _, _ => Panic
  end.

(** ** The driver as a state store *)

Definition string_at (t : Z) (s : S) (k : string) : option bytes :=
  match rd_entry t s k with Some (RedisString v, _) => Some v | _ => None end.

Lemma entries_later now t s s' k :
  now ≤ t → rd_entry now s' k = rd_entry now s k → rd_entry t s' k = rd_entry t s k.
Proof. intros Ht E. by rewrite (rd_later now t s'), (rd_later now t s), E. Qed.

Lemma ttl_wrap ttl : 0 < ttl → ttl ≤ max_int64 / Second → wrap64 (ttl * Second) = ttl * Second.
Proof.
  intros H0 H1. apply wrap64_id.
  assert (Second * (max_int64 / Second) ≤ max_int64) by (apply Z.mul_div_le; unfold Second; lia).
  set (q := max_int64 / Second) in *. unfold in_int64, min_int64, max_int64, Second in *. lia.
Qed.

Lemma client_Set_spec now k v ttl s s' ok :
  client_Set now k v ttl s = (s', ok) → ttl ≤ max_int64 / Second →
  (∀ k', k' ≠ k → rd_entry now s' k' = rd_entry now s k') ∧
  (rd_entry now s' k =
     Some (RedisString v, if 0 <? ttl then Some (now + ttl * Second) else None) ∨
   ok = false ∧ rd_entry now s' k = rd_entry now s k).
Proof.
  unfold client_Set. destruct (0 <? ttl) eqn:Ht; bool_to_prop; intros E Hmax.
  - rewrite ttl_wrap in E by done. apply rd_SET_spec in E; [|unfold Second; lia].
    destruct (0 <? ttl * Second) eqn:Hp; bool_to_prop; [done|unfold Second in *; lia].
  - apply rd_SET_spec in E; [done|lia].
Qed.

#[global, refine] Instance Redis_StateStore : StateStore S := {|
  ss_Get := client_Get;
  ss_Set := client_Set;
  ss_at := string_at |}.
Proof.
  - intros now k s s' r (Hsame & Hr)%rd_GET_spec. split.
    + destruct Hr as [->|Hr]; [by left|right]. unfold string_at.
      by destruct (rd_entry now s k) as [[[v|h] d]|] in Hr |- *.
    + intros t k' Ht. unfold string_at. by rewrite (entries_later now t s s' k').
  - intros now k v ttl s s' t k' Hset Ht Hmax. apply client_Set_spec in Hset as (Hother & Hk); [|done]. unfold string_at.
    case_bool_decide as Ek; [subst|by rewrite (entries_later now t s s' k') by auto].
    destruct Hk as [Hk|[? _]]; [|done]. rewrite (rd_later now t s' k), Hk by done. simpl. unfold outlives.
    destruct (0 <? ttl); simpl; [|done]. rewrite Z.ltb_antisym. by destruct (t <=? now + ttl * Second).
  - intros now k v ttl s s' ok t k' Hset Ht Hmax Hk. apply client_Set_spec in Hset as (Hother & _); [|done]. unfold string_at.
    by rewrite (entries_later now t s s' k') by auto.
Defined.

(** A key that was set through the driver is found with its value until its time to
    live has passed and not after it, and other keys keep their values; a deleted key is not found and does not exist, and its neighbours are untouched. *)
Theorem redis_set_get now t k v ttl s s1 s2 r :
  client_Set now k v ttl s = (s1, true) → ttl ≤ max_int64 / Second → now ≤ t →
  client_Get t k s1 = (s2, Some r) →
  r = (if (0 <? ttl) && (now + ttl * Second <? t) then None else Some v) ∧
  (∀ k', k' ≠ k → string_at t s2 k' = string_at t s k') ∧
  (∀ s3, client_Delete t k s2 = (s3, true) → string_at t s3 k = None ∧
     (∀ s4 b, client_Exists t k s3 = (s4, Some b) → b = false) ∧
     ∀ k', k' ≠ k → string_at t s3 k' = string_at t s k').
Proof.
  intros Hset Hmax Ht Hget. pose proof (@ss_Set_at _ Redis_StateStore _ _ _ _ _ _ t k Hset Ht Hmax) as Hk.
  rewrite bool_decide_eq_true_2 in Hk by done.
  destruct (@ss_Get_at _ Redis_StateStore t k s1 s2 (Some r) Hget) as [[?|[= ->]] Hsame]; [done|].
  assert (∀ k', k' ≠ k → string_at t s2 k' = string_at t s k') as Hother.
  { intros k' Hne. pose proof (@ss_Set_other _ Redis_StateStore _ _ _ _ _ _ _ t k' Hset Ht Hmax Hne) as E. simpl in *.
    by rewrite Hsame. }
  split_and!; [exact Hk|done|]. intros s3 (Hd & Hgone)%rd_DEL_spec.
  destruct Hgone as [Hgone|[? _]]; [|done]. split_and!.
  - unfold string_at. by rewrite Hgone.
  - intros s4 b He. unfold client_Exists in He. destruct (rd_EXISTS t k s3) as [s5 r5] eqn:E5.
    apply rd_EXISTS_spec in E5 as [_ H5]. rewrite Hgone in H5. destruct H5 as [->| ->]; simpl in He; [done|].
    by simplify_eq.
  - intros k' Hne. rewrite <- Hother by done. unfold string_at. by rewrite Hd.
Qed.
End Driver.
Arguments RedisPattern : clear implicits.

(** ** patterns/keyvalue *)

(** The operations of a key-value driver; [None] and [false] are errors. *)
Class KeyValueDriver (D : Type) := {
  kd_Set : Z → string → bytes → Z → D → D * bool;
  kd_Get : Z → string → D → D * option (option bytes);
  kd_Delete : Z → string → D → D * bool;
  kd_Exists : Z → string → D → D * option bool }.

#[global] Instance Redis_KeyValueDriver {S} `{!RedisServer S} : KeyValueDriver S := {|
  kd_Set := client_Set; kd_Get := client_Get; kd_Delete := client_Delete; kd_Exists := client_Exists |}.

(** The memory store answers every read. *)
#[global] Instance Memstore_KeyValueDriver {M} `{!KeyValueBasic M} : KeyValueDriver M := {|
  kd_Set := kv_Set;
  kd_Get := λ now k m, let '(m, r) := kv_Get now k m in (m, Some r);
  kd_Delete := λ _ k m, (kv_Delete k m, true);
  kd_Exists := λ now k m, let '(m, b) := kv_Exists now k m in (m, Some b) |}.

Section KeyValue.
Context {D : Type} `{!Plugin D} `{!KeyValueDriver D}.

Record KeyValue := mkKeyValue { kv_driver : D; kv_name : string }.

Definition NewWithDriver (driver : D) : KeyValue :=
  mkKeyValue driver ("keyvalue-" +:+ pl_Name driver).

(** Every operation is the driver's. *)
Definition via {A} (op : D → D * A) (kv : KeyValue) : KeyValue * A :=
  let '(d, a) := op (kv_driver kv) in (mkKeyValue d (kv_name kv), a).

Definition KeyValue_Version (kv : KeyValue) : string := pl_Version (kv_driver kv).
Definition KeyValue_Initialize (config : Config) := via (pl_Initialize config).
Definition KeyValue_Start := via pl_Start.
Definition KeyValue_Stop := via pl_Stop.
Definition KeyValue_Health (kv : KeyValue) : HealthStatus + string := pl_Health (kv_driver kv).
Definition KeyValue_Set now key value ttlSeconds := via (kd_Set now key value ttlSeconds).
Definition KeyValue_Get now key := via (kd_Get now key).
Definition KeyValue_Delete now key := via (kd_Delete now key).
Definition KeyValue_Exists now key := via (kd_Exists now key).
End KeyValue.
