(* ===== verification/RedisRegistry.v ===== *)
(** * patterns/multicast_registry/backends: the registry over Redis and over a key-value driver

    redis_registry.go stores an identity as a hash with a time to live; adapters.go stores
    it as a JSON document under a key-value driver.  JSON coding is the class
    [JsonValues]: numbers come back as floating-point numbers. *)

From Stdlib Require Import Ascii SpecFloat.
From stdpp Require Import pretty.
From S2P Require Import Prelude Backoff Filter Coordinator Memstore Slots Plugin Redis.
Import GoFloat.
Local Open Scope Z_scope.

(** ** Standard library *)

Definition digit_value (a : Ascii.ascii) : option Z :=
  let n := Z.of_N (Ascii.N_of_ascii a) in
  if (48 <=? n) && (n <=? 57) then Some (n - 48) else None.

(** The digits at the start of a string. *)
Fixpoint read_digits (acc : Z) (s : string) : Z :=
  match s with
  | EmptyString => acc
  | String a s' => if digit_value a is Some d then read_digits (acc * 10 + d) s' else acc
  end.

Definition read_int (s : string) : Z :=
  match s with
  | String "-"%char s => - read_digits 0 s
  | String "+"%char s => read_digits 0 s
  | s => read_digits 0 s
  end.

(** [fmt.Sscanf(s, "%d", &n)] for an [int64] [n] that is zero before: it stays zero when
    there is no number or it does not fit.  Leading spaces are not modelled. *)
Definition Sscanf_d (s : string) : Z :=
  let z := read_int s in if (min_int64 <=? z) && (z <=? max_int64) then z else 0.

(** What a value is after it was encoded and decoded. *)
Definition json_value (v : value) : value :=
  match v with
  | VInt n | VInt64 n => VFloat64 (f64_of_int n)
  | v => v
  end.

(** Values that JSON can carry: no other types, and text in ASCII. *)
Definition ascii_text (s : string) : bool := forallb (λ b, b <? 128) (string_bytes s).
Definition json_plain (v : value) : bool :=
  match v with
  | VString s => ascii_text s
  | VFloat64 (S754_finite _ _ _) | VFloat64 (S754_zero _) => true
  | VNil | VInt _ | VInt64 _ | VBool _ => true
  | _ => false
  end.
Definition json_ok (md : metadata) : Prop := map_Forall (λ k v, ascii_text k && json_plain v = true) md.

(** [json.Marshal] of metadata and [json.Unmarshal] into a [map[string]interface{}]. *)
Class JsonValues := {
  jv_Marshal : metadata → option string;
  jv_Unmarshal : string → option metadata;
  jv_roundtrip md : json_ok md →
    ∃ data, jv_Marshal md = Some data ∧ jv_Unmarshal data = Some (json_value <$> md) }.

Inductive registry_error := ErrMarshal | ErrBackend | ErrIdentityNotFound | ErrUnmarshal.

(** ** redis_registry.go *)

Section RedisRegistry.
Context {S : Type} `{!RedisServer S} `{!JsonValues} (prefix : string).

Definition registry_record (now : Z) (identity data : string) (ttl : Z) : str_map :=
  let r : str_map := {[ "id"%string := identity; "metadata"%string := data;
                        "registered_at"%string := pretty (now / Second) ]} in
  if 0 <? ttl then <["expires_at"%string := pretty ((now + ttl) / Second)]> r else r.

(** [now]: the clock reading and the time of [HSET]; [now']: the time of [EXPIRE]. *)
Definition Registry_Set (now now' : Z) (identity : string) (md : metadata) (ttl : Z) (s : S)
    : S * option registry_error :=
  let key := (prefix +:+ identity)%string in
  match jv_Marshal md with
  | None => (s, Some ErrMarshal)
  | Some data =>
      let '(s, ok) := rd_HSET now key (registry_record now identity data ttl) s in
      if negb ok then (s, Some ErrBackend)
      else if 0 <? ttl then
        let '(s, ok) := rd_EXPIRE now' key ttl s in (s, if ok then None else Some ErrBackend)
      else (s, None)
  end.

(** A field that is absent leaves the zero value. *)
Definition parseIdentity (data : str_map) : Identity + registry_error :=
  let identity md :=
    mkIdentity (default "" (data !! "id"%string)) md
      (from_option (λ str, Sscanf_d str * Second) 0 (data !! "registered_at"%string))
      ((λ str, Sscanf_d str * Second) <$> data !! "expires_at"%string) 0 in
  match data !! "metadata"%string with
  | None => inl (identity ∅)
  | Some str =>
      match jv_Unmarshal str with
      | Some md => inl (identity md)
      | None => inr ErrUnmarshal
      end
  end.

Definition Registry_Get (now : Z) (identity : string) (s : S) : S * (Identity + registry_error) :=
  let '(s, r) := rd_HGETALL now (prefix +:+ identity)%string s in
  (s, match r with
      | None => inr ErrBackend
      | Some data => if bool_decide (data = ∅) then inr ErrIdentityNotFound else parseIdentity data
      end).

Definition Registry_Delete (now : Z) (identity : string) (s : S) : S * bool :=
  rd_DEL now (prefix +:+ identity)%string s.

(** The keys of a page of [SCAN]: errors, empty hashes and expired identities are skipped. *)
Fixpoint fetch_page (now : Z) (keys : list string) (s : S) : S * list Identity :=
  match keys with
  | [] => (s, [])
  | key :: keys =>
      let '(s, r) := rd_HGETALL now key s in
      let '(s, rest) := fetch_page now keys s in
      (s, match r with
          | Some data =>
              if bool_decide (data = ∅) then rest
              else match parseIdentity data with
                   | inl i => if expired now i then rest else i :: rest
                   | inr _ => rest
                   end
          | None => rest
          end)
  end.

(** The loop over the cursor.  [pages]: the answers of [SCAN] up to the one with cursor
    zero, with the time; [None] is an error. *)
Fixpoint Registry_Scan (pages : list (Z * option (list string))) (s : S)
    : S * (list Identity + registry_error) :=
  match pages with
  | [] => (s, inl [])
  | (_, None) :: _ => (s, inr ErrBackend)
  | (now, Some keys) :: pages =>
      let '(s, found) := fetch_page now keys s in
      let '(s, rest) := Registry_Scan pages s in
      (s, match rest with inl l => inl (found ++ l) | inr e => inr e end)
  end.
End RedisRegistry.

(** ** adapters.go *)

(** A decoded JSON document. *)
Inductive json_field :=
  | JString (s : string)
  | JNumber (f : float64)
  | JObject (md : metadata)
  | JOther.

Definition json_document (identity : string) (md : metadata) (registeredAt : Z) (expiresAt : option Z)
    : gmap string json_field :=
  let doc : gmap string json_field :=
    {[ "id"%string := JString identity; "metadata"%string := JObject (json_value <$> md);
       "registered_at"%string := JNumber (f64_of_int registeredAt) ]} in
  match expiresAt with
  | Some e => <["expires_at"%string := JNumber (f64_of_int e)]> doc
  | None => doc
  end.

(** The record of the adapter and its coding. *)
Class JsonRecords := {
  jr_Marshal : string → metadata → Z → option Z → option bytes;
  jr_Unmarshal : bytes → option (gmap string json_field);
  jr_roundtrip identity md registeredAt expiresAt : ascii_text identity = true → json_ok md →
    ∃ data, jr_Marshal identity md registeredAt expiresAt = Some data ∧
      jr_Unmarshal data = Some (json_document identity md registeredAt expiresAt) }.

(** [d.Seconds()]: whole seconds plus the rest over 1e9. *)
Definition f64_div : float64 → float64 → float64 := SFdiv 53 1024.
Definition Seconds (d : Z) : float64 :=
  f64_add (f64_of_int (Z.quot d Second)) (f64_div (f64_of_int (Z.rem d Second)) (f64_of_int Second)).

Section Adapter.
Context {K : Type} `{!StateStore K} `{!KeyValueDriver K} `{!JsonRecords} (ovf : Z).

Definition adapter_prefix : string := "multicast:registry:".

Definition ttl_seconds (ttl : Z) : Z := if 0 <? ttl then f64_to_int64 ovf (Seconds ttl) else 0.

Definition Adapter_Set (now : Z) (identity : string) (md : metadata) (ttl : Z) (s : K)
    : K * option registry_error :=
  match jr_Marshal identity md (now / Second)
          (if 0 <? ttl then Some ((now + ttl) / Second) else None) with
  | None => (s, Some ErrMarshal)
  | Some data =>
      let '(s, ok) := ss_Set now (adapter_prefix +:+ identity) data (ttl_seconds ttl) s in
      (s, if ok then None else Some ErrBackend)
  end.

Definition json_time (f : json_field) : Z :=
  (if f is JNumber x then f64_to_int64 ovf x else 0) * Second.

(** An id that is not a string panics. *)
Definition Adapter_parseIdentity (record : gmap string json_field) : result registry_error Identity :=
  match record !! "id"%string with
  | Some (JString id) =>
      Ok (mkIdentity id
            (if record !! "metadata"%string is Some (JObject md) then md else ∅)
            (from_option json_time 0 (record !! "registered_at"%string))
            (json_time <$> record !! "expires_at"%string) 0)
  | _ => Panic
  end.

Definition Adapter_Get (now : Z) (identity : string) (s : K) : K * result registry_error Identity :=
  let '(s, r) := ss_Get now (adapter_prefix +:+ identity) s in
  (s, match r with
      | None => Err ErrBackend
      | Some None => Err ErrIdentityNotFound
      | Some (Some data) =>
          match jr_Unmarshal data with
          | None => Err ErrUnmarshal
          | Some record => Adapter_parseIdentity record
          end
      end).

Definition Adapter_Delete (now : Z) (identity : string) (s : K) : K * bool :=
  kd_Delete now (adapter_prefix +:+ identity) s.

(** Not supported: the coordinator falls back to its own records. *)
Definition Adapter_Scan (s : K) : option (list Identity) := None.
Definition Adapter_Enumerate (s : K) : option (list Identity) := None.

(** An identity that was stored through the key-value adapter is read back with its
    metadata, numbers turned into floating-point numbers, and its times in whole seconds,
    until the time to live, cut to whole seconds, has passed; a time to live below one
    second never ends.  This holds over every state store, the memory store and the Redis
    driver among them. *)
Theorem adapter_set_get now t id md ttl s s1 s2 r :
  ascii_text id = true → json_ok md → now ≤ t → ttl_seconds ttl ≤ max_int64 / Second →
  f64_to_int64 ovf (f64_of_int (now / Second)) = now / Second →
  f64_to_int64 ovf (f64_of_int ((now + ttl) / Second)) = (now + ttl) / Second →
  Adapter_Set now id md ttl s = (s1, None) → Adapter_Get t id s1 = (s2, r) →
  r = Err ErrBackend ∨
  r = (if (0 <? ttl_seconds ttl) && (now + ttl_seconds ttl * Second <? t) then Err ErrIdentityNotFound
       else Ok (mkIdentity id (json_value <$> md) (now / Second * Second)
                  (if 0 <? ttl then Some ((now + ttl) / Second * Second) else None) 0)).
Proof.
  intros Hid Hmd Ht Hmax E1 E2. unfold Adapter_Set, Adapter_Get.
  destruct (jr_roundtrip id md (now / Second) (if 0 <? ttl then Some ((now + ttl) / Second) else None)
              Hid Hmd) as (data & -> & Hdec).
  destruct (ss_Set now _ data _ s) as [s' ok] eqn:Hset. destruct ok; [|done]. intros [= <-].
  destruct (ss_Get t _ s') as [s3 r3] eqn:Hget. intros [= <- <-].
  destruct (ss_Get_at _ _ _ _ _ Hget) as [[->| ->] _]; [by left|right].
  rewrite (ss_Set_at _ _ _ _ _ _ t (adapter_prefix +:+ id) Hset Ht Hmax), bool_decide_eq_true_2 by done.
  destruct (_ && _); [done|]. rewrite Hdec. unfold Adapter_parseIdentity, json_document.
  destruct (0 <? ttl); simplify_map_eq; unfold json_time; by rewrite ?E1, ?E2.
Qed.
End Adapter.
