(* ===== verification/RedisRegistrySpec.v ===== *)
(** * Correctness of the Redis registry backend *)

From Stdlib Require Import Ascii SpecFloat.
From stdpp Require Import pretty.
From S2P Require Import Prelude Backoff Filter Coordinator Memstore Slots Plugin Redis RedisRegistry.
Import GoFloat.
Local Open Scope Z_scope.

(** ** Decimal numbers *)

Lemma digit_value_char n : (n < 10)%N → digit_value (pretty_N_char n) = Some (Z.of_N n).
Proof.
  intros Hn.
  assert (n = 0 ∨ n = 1 ∨ n = 2 ∨ n = 3 ∨ n = 4 ∨ n = 5 ∨ n = 6 ∨ n = 7 ∨ n = 8 ∨ n = 9)%N as H by lia.
  by destruct_or! H; subst.
Qed.

Lemma read_digits_go n s : read_digits 0 (pretty_N_go n s) = read_digits (Z.of_N n) s.
Proof.
  revert s. induction (N.lt_wf_0 n) as [n _ IH]. intros s. destruct (decide (n = 0)%N) as [->|Hn].
  - by rewrite pretty_N_go_0.
  - rewrite pretty_N_go_step by lia. rewrite IH by (apply N.div_lt; lia). cbn [read_digits].
    rewrite digit_value_char by (apply N.mod_lt; lia). f_equal. rewrite N2Z.inj_div, N2Z.inj_mod.
    pose proof (Z.div_mod (Z.of_N n) 10). lia.
Qed.

Lemma pretty_N_go_digit n s :
  (0 < n)%N → ∃ c s', pretty_N_go n s = String c s' ∧ is_Some (digit_value c).
Proof.
  revert s. induction (N.lt_wf_0 n) as [n _ IH]. intros s Hn. rewrite pretty_N_go_step by lia.
  destruct (decide (n `div` 10 = 0)%N) as [->|Hq].
  - rewrite pretty_N_go_0. do 2 eexists. split; [done|]. rewrite digit_value_char; [done|].
    apply N.mod_lt. lia.
  - apply IH; [apply N.div_lt; lia|by apply N.neq_0_lt_0].
Qed.

(** A decimal number is read back. *)
Lemma read_pretty z : read_int (pretty z) = z.
Proof.
  unfold read_int. destruct z as [|p|p]; [done| |].
  - change (pretty (Z.pos p)) with (pretty_N_go (N.pos p) "").
    destruct (pretty_N_go_digit (N.pos p) "") as (c & s' & E & Hd); [lia|].
    pose proof (read_digits_go (N.pos p) "") as R. rewrite E in R |- *. simpl in R.
    destruct c as [[] [] [] [] [] [] [] []]; try done; by destruct Hd.
  - change (pretty (Z.neg p)) with ("-" +:+ pretty_N_go (N.pos p) "").
    change (- read_digits 0 (pretty_N_go (N.pos p) "") = Z.neg p). by rewrite read_digits_go.
Qed.

Lemma Sscanf_pretty z : in_int64 z → Sscanf_d (pretty z) = z.
Proof.
  intros [Hl Hu]. unfold Sscanf_d. rewrite read_pretty.
  by rewrite (proj2 (Z.leb_le _ _) Hl), (proj2 (Z.leb_le _ _) Hu).
Qed.

Section Spec.
Context {S : Type} `{!RedisServer S} `{!JsonValues} (prefix : string).
Implicit Types (s : S).

(** ** Set and Get *)

(** What [Get] answers at [t], given the entry of the key. *)
Definition answer_of_entry (e : option redis_entry) : Identity + registry_error :=
  match e with
  | Some (RedisHash h, _) => if bool_decide (h = ∅) then inr ErrIdentityNotFound else parseIdentity h
  | _ => inr ErrIdentityNotFound
  end.

Lemma Registry_Get_spec t id s s' r :
  Registry_Get prefix t id s = (s', r) →
  r = inr ErrBackend ∨ r = answer_of_entry (rd_entry t s (prefix +:+ id)).
Proof.
  unfold Registry_Get. destruct (rd_HGETALL t _ s) as [s1 d] eqn:E. intros [= <- <-].
  apply rd_HGETALL_spec in E as [_ [->|E]]; [by left|right].
  destruct (rd_entry t s _) as [[[v|h] dl]|] in E |- *; by rewrite ?E.
Qed.

Lemma record_lookup now id data ttl (h : str_map) :
  let r := registry_record now id data ttl ∪ h in
  r !! "id"%string = Some id ∧ r !! "metadata"%string = Some data ∧
  r !! "registered_at"%string = Some (pretty (now / Second)) ∧
  r !! "expires_at"%string =
    (if 0 <? ttl then Some (pretty ((now + ttl) / Second)) else h !! "expires_at"%string).
Proof.
  unfold registry_record.
  destruct (0 <? ttl); split_and!; try (apply lookup_union_Some_l; by simplify_map_eq).
  apply lookup_union_r. by simplify_map_eq.
Qed.

(** The record that [Set] wrote is parsed back, whatever fields [h] it was written over. *)
Lemma parse_record now id md data ttl (h : str_map) :
  jv_Unmarshal data = Some md → in_int64 (now / Second) → in_int64 ((now + ttl) / Second) →
  registry_record now id data ttl ∪ h ≠ ∅ ∧
  parseIdentity (registry_record now id data ttl ∪ h) =
    inl (mkIdentity id md (now / Second * Second)
           (if 0 <? ttl then Some ((now + ttl) / Second * Second)
            else (λ str, Sscanf_d str * Second) <$> h !! "expires_at"%string) 0).
Proof.
  intros Hd H1 H2. destruct (record_lookup now id data ttl h) as (E1 & E2 & E3 & E4). split.
  - intros E. by rewrite E in E1.
  - unfold parseIdentity. rewrite E1, E2, E3, E4, Hd. simpl. rewrite Sscanf_pretty by done.
    destruct (0 <? ttl); simpl; by rewrite ?Sscanf_pretty.
Qed.

Lemma entry_later now t s k e :
  rd_entry now s k = Some e → now ≤ t → rd_entry t s k = if outlives t e then Some e else None.
Proof. intros E Ht. by rewrite (rd_later now t), E. Qed.

(** An identity that is registered under a free key is read back with its metadata,
    numbers turned into floating-point numbers, and its times in whole seconds, until the
    key expires: after the time to live in whole seconds, at least one, counted from the
    second command. *)
Theorem registry_set_get now now' t id md ttl s s1 s2 r :
  json_ok md → in_int64 (now / Second) → in_int64 ((now + ttl) / Second) → now ≤ now' ≤ t →
  rd_entry now s (prefix +:+ id) = None →
  Registry_Set prefix now now' id md ttl s = (s1, None) → Registry_Get prefix t id s1 = (s2, r) →
  r = inr ErrBackend ∨
  r = (if (0 <? ttl) && (now' + whole_seconds ttl <? t) then inr ErrIdentityNotFound
       else inl (mkIdentity id (json_value <$> md) (now / Second * Second)
                   (if 0 <? ttl then Some ((now + ttl) / Second * Second) else None) 0)).
Proof.
  intros Hmd H1 H2 Ht Hfree. unfold Registry_Set.
  destruct (jv_roundtrip md Hmd) as (data & -> & Hdec).
  destruct (rd_HSET now _ _ s) as [s' ok] eqn:Eh. destruct ok; simpl; [|done].
  apply rd_HSET_spec in Eh as [_ [Eh|[? _]]]; [|done]. rewrite Hfree in Eh.
  destruct (parse_record now id _ data ttl ∅ Hdec H1 H2) as [Hne Hp].
  rewrite map_union_empty in Hne, Hp. rewrite lookup_empty in Hp. simpl in Hp.
  destruct (0 <? ttl) eqn:Httl; bool_to_prop; simpl.
  - destruct (rd_EXPIRE now' _ _ s') as [s3 ok] eqn:Ee. destruct ok; [|done]. intros [= <-] Hget.
    apply rd_EXPIRE_spec in Ee as [_ [Ee|[? _]]]; [|done|done].
    rewrite (entry_later now now' s' _ _ Eh) in Ee by lia. simpl in Ee.
    apply Registry_Get_spec in Hget as [->| ->]; [by left|right].
    rewrite (entry_later now' t s3 _ _ Ee) by lia. unfold outlives. simpl. rewrite Z.ltb_antisym.
    destruct (t <=? _); simpl; [|done]. by rewrite bool_decide_eq_false_2.
  - intros [= <-] Hget. apply Registry_Get_spec in Hget as [->| ->]; [by left|right].
    rewrite (entry_later now t s' _ _ Eh) by lia. simpl. by rewrite bool_decide_eq_false_2.
Qed.

(** Registering an identity again without a time to live does not lift the one it
    had: the key still expires at its old deadline, and until then the identity is
    reported with its old expiry. *)
Theorem reregistration_keeps_expiry now now' t id md h d s s1 s2 r :
  json_ok md → in_int64 (now / Second) → now ≤ now' ≤ t →
  rd_entry now s (prefix +:+ id) = Some (RedisHash h, Some d) →
  Registry_Set prefix now now' id md 0 s = (s1, None) → Registry_Get prefix t id s1 = (s2, r) →
  r = inr ErrBackend ∨
  r = (if d <? t then inr ErrIdentityNotFound
       else inl (mkIdentity id (json_value <$> md) (now / Second * Second)
                   ((λ str, Sscanf_d str * Second) <$> h !! "expires_at"%string) 0)).
Proof.
  intros Hmd H1 Ht Hold. unfold Registry_Set.
  destruct (jv_roundtrip md Hmd) as (data & -> & Hdec).
  destruct (rd_HSET now _ _ s) as [s' ok] eqn:Eh. destruct ok; simpl; [|done].
  apply rd_HSET_spec in Eh as [_ [Eh|[? _]]]; [|done]. rewrite Hold in Eh. intros [= <-] Hget.
  destruct (parse_record now id _ data 0 h Hdec H1) as [Hne Hp]; [by rewrite Z.add_0_r|].
  apply Registry_Get_spec in Hget as [->| ->]; [by left|right].
  rewrite (entry_later now t s' _ _ Eh) by lia. unfold outlives. simpl. rewrite Z.ltb_antisym.
  destruct (t <=? d); simpl; [|done]. by rewrite bool_decide_eq_false_2.
Qed.

(** ** Scan *)

(** The identity stored under a key, as an enumeration at [now] reports it. *)
Definition live_identity (now : Z) (s : S) (key : string) : option Identity :=
  match answer_of_entry (rd_entry now s key) with
  | inl i => if expired now i then None else Some i
  | inr _ => None
  end.

(** [HGETALL] fails only on keys of another type. *)
Definition reliable : Prop := ∀ now k s s',
  rd_HGETALL now k s = (s', None) → ∃ v d, rd_entry now s k = Some (RedisString v, d).

Lemma fetch_page_spec now keys s s' found :
  reliable → fetch_page now keys s = (s', found) →
  (∀ t k, now ≤ t → rd_entry t s' k = rd_entry t s k) ∧ found = omap (live_identity now s) keys.
Proof.
  intros Hrel. revert s s' found. induction keys as [|key keys IH]; intros s s' found; simpl; [by intros [= <- <-]|].
  destruct (rd_HGETALL now key s) as [s1 r] eqn:Eg. destruct (fetch_page now keys s1) as [s2 rest] eqn:Ef.
  intros [= <- <-]. destruct (IH _ _ _ Ef) as [Hs ->]. pose proof (rd_HGETALL_spec _ _ _ _ _ Eg) as [H1 Hr].
  assert (∀ t k, now ≤ t → rd_entry t s1 k = rd_entry t s k) as Hs1.
  { intros t k Ht. by apply (entries_later now). }
  split; [intros t k Ht; by rewrite Hs, Hs1|].
  rewrite (list_omap_ext (live_identity now s1) (live_identity now s) keys keys).
  2: { apply Forall2_same_length_lookup_2; [done|]. intros j x y ? ?. simplify_eq. unfold live_identity. by rewrite Hs1. }
  assert (live_identity now s key = match r with
    | Some data => if bool_decide (data = ∅) then None
                   else match parseIdentity data with
                        | inl i => if expired now i then None else Some i
                        | inr _ => None
                        end
    | None => None
    end) as ->; [|by repeat case_match].
  unfold live_identity. destruct r as [data|].
  - destruct Hr as [?|Hr]; [done|]. destruct (rd_entry now s key) as [[[v|h] d]|] in Hr |- *; simplify_eq; simpl.
    + done.
    + by case_bool_decide.
    + by rewrite bool_decide_eq_true_2.
  - by destruct (Hrel _ _ _ _ Eg) as (v & d & ->).
Qed.

Lemma Registry_Scan_spec pages s s' r :
  reliable → StronglySorted Z.le pages.*1 → Registry_Scan pages s = (s', r) →
  match r with
  | inl l => Forall (λ pg, is_Some pg.2) pages ∧
      l = mjoin ((λ pg, omap (live_identity pg.1 s) (default [] pg.2)) <$> pages)
  | inr e => e = ErrBackend ∧ ∃ now, (now, None) ∈ pages
  end.
Proof.
  intros Hrel. revert s s' r. induction pages as [|[now [keys|]] pages IH]; intros s s' r Hs; simpl.
  - by intros [= <- <-].
  - apply StronglySorted_inv in Hs as [Hs Hle].
    destruct (fetch_page now keys s) as [s1 found] eqn:Ef.
    destruct (Registry_Scan pages s1) as [s2 rest] eqn:Er. intros [= <- <-].
    destruct (fetch_page_spec _ _ _ _ _ Hrel Ef) as [H1 ->]. specialize (IH _ _ _ Hs Er).
    destruct rest as [l|e].
    + destruct IH as [Hall ->]. split; [by constructor|]. f_equal. f_equal.
      apply list_fmap_ext. intros j [t ks] Hj. simpl. apply list_omap_ext, Forall_Forall2_diag, Forall_true.
      intros k. unfold live_identity. rewrite H1; [done|].
      rewrite Forall_forall in Hle. apply Hle. apply list_elem_of_fmap. exists (t, ks).
      split; [done|]. by eapply list_elem_of_lookup_2.
    + destruct IH as (He & t & Ht). split; [done|]. exists t. by right.
  - intros [= <- <-]. split; [done|]. exists now. by left.
Qed.

(** A scan of the registry reports exactly the identities that are stored and not
    expired under the keys the server listed, each as of the time its page was read, and
    fails exactly when the server could not list a page. *)
Theorem Registry_Scan_correct pages s s' r :
  reliable → StronglySorted Z.le pages.*1 → Registry_Scan pages s = (s', r) →
  match r with
  | inl l => ∀ i, i ∈ l ↔ ∃ now keys key, (now, Some keys) ∈ pages ∧ key ∈ keys ∧
               live_identity now s key = Some i
  | inr e => e = ErrBackend ∧ ∃ now, (now, None) ∈ pages
  end.
Proof.
  intros Hrel Hs Hscan. pose proof (Registry_Scan_spec _ _ _ _ Hrel Hs Hscan) as Hspec.
  destruct r as [l|e]; [|done]. destruct Hspec as [Hall ->]. intros i. rewrite list_elem_of_join. split.
  - intros (found & Hi & ([now keys] & -> & Hpg)%list_elem_of_fmap).
    rewrite Forall_forall in Hall. destruct (Hall _ Hpg) as [ks Hks]. simpl in *. subst.
    apply list_elem_of_omap in Hi as (key & Hk & Hl). eauto 10.
  - intros (now & keys & key & Hpg & Hk & Hl). eexists. split; [|by apply list_elem_of_fmap_2].
    simpl. apply list_elem_of_omap. eauto.
Qed.
End Spec.
