(* ===== verification/RedisDemo.v ===== *)
(** * A Redis server and a JSON coding, and the registry on them

    Instances of the classes of [Redis] and [RedisRegistry] that discharge their laws, so
    that the theorems about the driver, the registry and the adapter can be run. *)

From Stdlib Require Import Ascii SpecFloat.
From stdpp Require Import countable pretty.
From S2P Require Import Prelude Backoff Sqlite SqliteDemo Filter Coordinator Memstore Slots Plugin Redis RedisRegistry RedisRegistrySpec.
Import GoFloat.
Local Open Scope Z_scope.

(** ** A server *)

Abbreviation Server := (gmap string redis_entry).

Definition live (t : Z) (s : Server) (k : string) : option redis_entry :=
  e ← s !! k; if outlives t e then Some e else None.

Definition srv_HSET (now : Z) (k : string) (fields : str_map) (s : Server) : Server * bool :=
  match live now s k with
  | None => (<[k := (RedisHash fields, None)]> s, true)
  | Some (RedisHash h, d) => (<[k := (RedisHash (fields ∪ h), d)]> s, true)
  | Some (RedisString _, _) => (s, false)
  end.

Definition srv_EXPIRE (now : Z) (k : string) (exp : Z) (s : Server) : Server * bool :=
  match live now s k with
  | None => (s, true)
  | Some e => (<[k := (e.1, Some (now + whole_seconds exp))]> s, true)
  end.

Definition srv_HGETALL (now : Z) (k : string) (s : Server) : Server * option str_map :=
  (s, match live now s k with
      | None => Some ∅
      | Some (RedisHash h, _) => Some h
      | Some (RedisString _, _) => None
      end).

Lemma live_insert t s k e : live t (<[k := e]> s) k = if outlives t e then Some e else None.
Proof. unfold live. by rewrite lookup_insert_eq. Qed.

Lemma live_insert_ne t (s : Server) k k' e : k' ≠ k → live t (<[k := e]> s) k' = live t s k'.
Proof. intros. unfold live. by rewrite lookup_insert_ne. Qed.

Lemma live_outlives t s k e : live t s k = Some e → outlives t e = true.
Proof. unfold live. intros (e' & _ & He)%bind_Some. by destruct (outlives t e') eqn:E; simplify_eq. Qed.

#[export, refine] Instance Server_Redis : RedisServer Server := {|
  rd_entry := live;
  rd_SET now k v exp s :=
    (<[k := (RedisString v, if 0 <? exp then Some (now + exp) else None)]> s, true);
  rd_GET now k s :=
    (s, match live now s k with
        | None => Some None
        | Some (RedisString v, _) => Some (Some v)
        | Some (RedisHash _, _) => None
        end);
  rd_DEL now k s := (delete k s, true);
  rd_EXISTS now k s := (s, Some (if live now s k is Some _ then 1 else 0));
  rd_HSET := srv_HSET;
  rd_EXPIRE := srv_EXPIRE;
  rd_HGETALL := srv_HGETALL |}.
Proof.
  - intros t t' s k Ht. unfold live. destruct (s !! k) as [[v [d|]]|]; simpl; try done.
    unfold outlives. simpl. destruct (t <=? d) eqn:E1; simpl; [done|].
    destruct (t' <=? d) eqn:E2; [|done]. bool_to_prop. lia.
  - intros now k v exp s s' ok [= <- <-] Hexp. split; [intros; by apply live_insert_ne|left].
    rewrite live_insert. unfold outlives. simpl. destruct (0 <? exp); [|done].
    by rewrite (proj2 (Z.leb_le _ _)) by lia.
  - intros now k s s' r [= <- <-]. split; [done|]. destruct (live now s k) as [[[]]|]; auto.
  - intros now k s s' ok [= <- <-]. unfold live. split; [intros; by rewrite lookup_delete_ne|left].
    by rewrite lookup_delete_eq.
  - intros now k s s' r [= <- <-]. auto.
  - intros now k fields s s' ok. unfold srv_HSET. destruct (live now s k) as [[[v|h] d]|] eqn:E.
    + intros [= <- <-]. split; [done|]. right. auto.
    + intros [= <- <-]. split; [intros; by apply live_insert_ne|left].
      apply live_outlives in E. rewrite live_insert. unfold outlives in *. simpl in *. by rewrite E.
    + intros [= <- <-]. split; [intros; by apply live_insert_ne|left]. by rewrite live_insert.
  - intros now k exp s s' ok. unfold srv_EXPIRE. destruct (live now s k) as [e|] eqn:E; intros [= <- <-] Hexp.
    + split; [intros; by apply live_insert_ne|left]. rewrite live_insert. unfold outlives. simpl.
      rewrite (proj2 (Z.leb_le _ _)); [done|]. unfold whole_seconds, Second. lia.
    + split; [done|left]. by rewrite E.
  - intros now k s s' r [= <- <-]. split; [done|]. destruct (live now s k) as [[[]]|]; auto.
Defined.

Lemma Server_reliable : reliable (S := Server).
Proof.
  intros now k s s'. simpl. unfold srv_HGETALL. destruct (live now s k) as [[[v|h] d]|]; [|done|done]. eauto.
Qed.

(** ** A coding *)

Instance float64_dec : EqDecision float64.
Proof. solve_decision. Defined.

Definition float_code (x : float64) : (bool + bool) + (unit + bool * positive * Z) :=
  match x with
  | S754_zero b => inl (inl b)
  | S754_infinity b => inl (inr b)
  | S754_nan => inr (inl ())
  | S754_finite b m e => inr (inr (b, m, e))
  end.
Definition float_decode (c : (bool + bool) + (unit + bool * positive * Z)) : float64 :=
  match c with
  | inl (inl b) => S754_zero b
  | inl (inr b) => S754_infinity b
  | inr (inl _) => S754_nan
  | inr (inr (b, m, e)) => S754_finite b m e
  end.
Instance float64_countable : Countable float64.
Proof. apply (inj_countable' float_code float_decode). by intros []. Defined.

Instance value_dec : EqDecision value.
Proof. solve_decision. Defined.
Definition value_code (v : value) : (unit + string) + ((Z + Z) + ((float64 + bool) + (Z * Z + Z))) :=
  match v with
  | VNil => inl (inl ())
  | VString s => inl (inr s)
  | VInt n => inr (inl (inl n))
  | VInt64 n => inr (inl (inr n))
  | VFloat64 x => inr (inr (inl (inl x)))
  | VBool b => inr (inr (inl (inr b)))
  | VOpaque t v => inr (inr (inr (inl (t, v))))
  | VRef t => inr (inr (inr (inr t)))
  end.
Definition value_decode (c : (unit + string) + ((Z + Z) + ((float64 + bool) + (Z * Z + Z)))) : value :=
  match c with
  | inl (inl _) => VNil
  | inl (inr s) => VString s
  | inr (inl (inl n)) => VInt n
  | inr (inl (inr n)) => VInt64 n
  | inr (inr (inl (inl x))) => VFloat64 x
  | inr (inr (inl (inr b))) => VBool b
  | inr (inr (inr (inl (t, v)))) => VOpaque t v
  | inr (inr (inr (inr t))) => VRef t
  end.
Instance value_countable : Countable value.
Proof. apply (inj_countable' value_code value_decode). by intros []. Defined.

#[export, refine] Instance demo_values : JsonValues := {|
  jv_Marshal md := Some (bits (encode (json_value <$> md)));
  jv_Unmarshal data := unbits data ≫= decode |}.
Proof.
  intros md _. eexists. split; [done|]. rewrite unbits_bits. simpl. by rewrite decode_encode.
Defined.

Instance json_field_dec : EqDecision json_field.
Proof. solve_decision. Defined.
Definition field_code (f : json_field) : (string + float64) + (metadata + unit) :=
  match f with
  | JString s => inl (inl s) | JNumber x => inl (inr x) | JObject md => inr (inl md) | JOther => inr (inr ())
  end.
Definition field_decode (c : (string + float64) + (metadata + unit)) : json_field :=
  match c with
  | inl (inl s) => JString s | inl (inr x) => JNumber x | inr (inl md) => JObject md | inr (inr _) => JOther
  end.
Instance json_field_countable : Countable json_field.
Proof. apply (inj_countable' field_code field_decode). by intros []. Defined.

#[export, refine] Instance demo_records : JsonRecords := {|
  jr_Marshal id md registeredAt expiresAt :=
    Some [Z.pos (encode (json_document id md registeredAt expiresAt))];
  jr_Unmarshal data := if data is [Z.pos p] then decode p else None |}.
Proof.
  intros id md registeredAt expiresAt _ _. eexists. split; [reflexivity|].
  exact (decode_encode (json_document id md registeredAt expiresAt)).
Defined.

(** ** Runs *)

Local Open Scope string_scope.

Definition noon : Z := 1700000000 * Second.
Definition md : metadata := {[ "n" := VInt 5; "who" := VString "x" ]}.

Lemma redis_set_get_witness :
  ∃ s2, client_Get (noon + Second) "k" (client_Set noon "k" [7] 5 (∅ : Server)).1 = (s2, Some (Some [7])) ∧
    string_at (noon + Second) s2 "other" = None.
Proof.
  destruct (redis_set_get noon (noon + Second) "k" [7] 5 (∅ : Server)
    (client_Set noon "k" [7] 5 (∅ : Server)).1
    (client_Get (noon + Second) "k" (client_Set noon "k" [7] 5 (∅ : Server)).1).1 (Some [7]))
    as (_ & Hother & _).
  - vm_compute. reflexivity.
  - vm_compute. congruence.
  - vm_compute. congruence.
  - vm_compute. reflexivity.
  - eexists. split; [vm_compute; reflexivity|]. apply (Hother "other"). done.
Defined.

Definition registered : Server := (Registry_Set "p:" noon noon "a" md (5 * Second) (∅ : Server)).1.

Lemma registry_set_get_witness :
  (Registry_Get "p:" (noon + Second) "a" registered).2 =
    inl (mkIdentity "a" (json_value <$> md) noon (Some (noon + 5 * Second)) 0).
Proof.
  destruct (registry_set_get "p:" noon noon (noon + Second) "a" md (5 * Second) (∅ : Server) registered
    (Registry_Get "p:" (noon + Second) "a" registered).1
    (Registry_Get "p:" (noon + Second) "a" registered).2) as [H|H].
  - apply map_Forall_to_list. vm_compute. repeat constructor.
  - vm_compute. split; congruence.
  - vm_compute. split; congruence.
  - vm_compute. split; congruence.
  - vm_compute. reflexivity.
  - vm_compute. reflexivity.
  - apply surjective_pairing.
  - vm_compute in H. discriminate H.
  - exact H.
Defined.

Lemma reregistration_keeps_expiry_witness :
  (Registry_Get "p:" (noon + 6 * Second) "a"
     (Registry_Set "p:" (noon + Second) (noon + Second) "a" md 0 registered).1).2 = inr ErrIdentityNotFound.
Proof.
  destruct (reregistration_keeps_expiry "p:" (noon + Second) (noon + Second) (noon + 6 * Second) "a" md
    (registry_record noon "a" (bits (encode (json_value <$> md))) (5 * Second)) (noon + 5 * Second) registered
    (Registry_Set "p:" (noon + Second) (noon + Second) "a" md 0 registered).1
    (Registry_Get "p:" (noon + 6 * Second) "a"
       (Registry_Set "p:" (noon + Second) (noon + Second) "a" md 0 registered).1).1
    (Registry_Get "p:" (noon + 6 * Second) "a"
       (Registry_Set "p:" (noon + Second) (noon + Second) "a" md 0 registered).1).2) as [H|H].
  - apply map_Forall_to_list. vm_compute. repeat constructor.
  - vm_compute. split; congruence.
  - vm_compute. split; congruence.
  - vm_compute. reflexivity.
  - vm_compute. reflexivity.
  - apply surjective_pairing.
  - vm_compute in H. discriminate H.
  - exact H.
Defined.

Lemma Registry_Scan_correct_witness :
  ∃ l, (Registry_Scan [(noon, Some ["p:a"; "p:b"])] registered).2 = inl l ∧
    mkIdentity "a" (json_value <$> md) noon (Some (noon + 5 * Second)) 0 ∈ l.
Proof.
  pose proof (Registry_Scan_correct [(noon, Some ["p:a"; "p:b"])] registered
    (Registry_Scan [(noon, Some ["p:a"; "p:b"])] registered).1
    (Registry_Scan [(noon, Some ["p:a"; "p:b"])] registered).2 Server_reliable
    ltac:(repeat constructor) (surjective_pairing _)) as H.
  destruct (Registry_Scan _ registered).2 as [l|e] eqn:E; [|vm_compute in E; discriminate E].
  exists l. split; [reflexivity|]. apply H. exists noon, ["p:a"; "p:b"], "p:a".
  split; [by left|]. split; [by left|]. vm_compute. reflexivity.
Defined.

Definition adapted : Server := (Adapter_Set 0 noon "a" md (5 * Second) (∅ : Server)).1.

Lemma adapter_set_get_witness :
  (Adapter_Get 0 (noon + Second) "a" adapted).2 =
    Ok (mkIdentity "a" (json_value <$> md) noon (Some (noon + 5 * Second)) 0).
Proof.
  destruct (adapter_set_get 0 noon (noon + Second) "a" md (5 * Second) (∅ : Server) adapted
    (Adapter_Get 0 (noon + Second) "a" adapted).1 (Adapter_Get 0 (noon + Second) "a" adapted).2) as [H|H].
  - reflexivity.
  - apply map_Forall_to_list. vm_compute. repeat constructor.
  - vm_compute. congruence.
  - vm_compute. congruence.
  - vm_compute. reflexivity.
  - vm_compute. reflexivity.
  - vm_compute. reflexivity.
  - apply surjective_pairing.
  - vm_compute in H. discriminate H.
  - exact H.
Defined.

(** Half a second is stored as no time to live: the identity is found a year later. *)
Example short_ttl_never_ends :
  is_ok (Adapter_Get 0 (noon + 31536000 * Second) "a"
           (Adapter_Set 0 noon "a" md (Second / 2) (∅ : Server)).1).2 = true.
Proof. by vm_compute. Qed.

(** A pool of one connection is always near its capacity. *)
Example pool_of_one_is_degraded :
  match Redis_Health None 0 0
          (Redis_Initialize (Some (mkRedisConfig "" "" 0 0 1 0 0 0 0)) (∅ : Server) true Redis_New).1 with
  | Ok h => hs_Status h = HealthDegraded
  | _ => False
  end.
Proof. by vm_compute. Qed.

(** The driver before [Initialize]. *)
Example uninitialized_driver_panics : (Redis_Get 0 "k" (Redis_New (S := Server))).2 = Panic.
Proof. done. Qed.
