(* ===== verification/PrismctlStatus.v ===== *)
(** * cmd/prismctl/cmd/admin.go: the status of the control plane

    [prismctl admin status] opens the database of prism-admin and prints its tables and a
    summary.  Its storage.go is the text of cmd/prism-admin/storage.go in another package:
    the operations it calls are those of AdminStorage, named again here.  What is printed is
    kept as the values of the lines; [format_time] prints a point in time. *)

From S2P Require Import Prelude Backoff RedisRegistry AdminStorage.
From stdpp Require Import pretty.
Import GoFloat.
Local Open Scope string_scope.
Local Open Scope Z_scope.

(** ** storage.go of package cmd *)

Definition ctl_defaultDatabasePath (home : option string) : string := default "./prism-admin.db" home.
Definition ctl_NewStorage : DatabaseConfig → bool → option Storage := NewStorage.
Definition ctl_ListNamespaces : bool → Storage → option (list NamespaceRow) := ListNamespaces.
Definition ctl_ListProxies : bool → Storage → option (list ProxyRow) := ListProxies.
Definition ctl_ListLaunchers : bool → Storage → option (list LauncherRow) := ListLaunchers.
Definition ctl_QueryAuditLogs : bool → AuditQueryOptions → Storage → option (list AuditLog) := QueryAuditLogs.

(** ** admin.go *)

(** [d.Minutes()] *)
Definition Minutes (d : Z) : float64 :=
  f64_add (f64_of_int (Z.quot d Minute)) (f64_div (f64_of_int (Z.rem d Minute)) (f64_of_int Minute)).

Section Status.
Context (format_time : Z → string) (ovf now : Z).

Definition lastSeenStr (lastSeen : option Z) : string :=
  match lastSeen with
  | None => "never"
  | Some t =>
      let elapsed := now - t in
      if elapsed <? Minute then pretty (f64_to_int64 ovf (Seconds elapsed)) +:+ "s ago"
      else if elapsed <? 60 * Minute then pretty (f64_to_int64 ovf (Minutes elapsed)) +:+ "m ago"
      else format_time t
  end.

Definition healthy (status : string) : bool := bool_decide (status = "healthy").

Record namespace_lines := mkNamespaceLines { nl_Name : string; nl_Description : option string; nl_Created : string }.
Record proxy_lines := mkProxyLines {
  pl_healthy : bool; pl_ID : string; pl_Status : string; pl_Address : string; pl_Version : string; pl_LastSeen : string }.
Record launcher_lines := mkLauncherLines {
  ll_healthy : bool; ll_ID : string; ll_Status : string; ll_Address : string; ll_Region : string; ll_Version : string;
  ll_Capacity : Z * Z; ll_LastSeen : string }.
Record audit_lines := mkAuditLines {
  au_failed : bool; au_Time : string; au_Method : string; au_Path : string; au_User : option string;
  au_Namespace : option string; au_Error : option string; au_DurationMs : Z }.

Definition shown (s : string) : option string := if bool_decide (s = "") then None else Some s.

(** A section: [None] for the error of its query. *)
Record status_summary := mkSummary {
  su_namespaces : nat;
  su_proxies : nat * Z * Z;     (* total, healthy, unhealthy *)
  su_launchers : nat * Z * Z;
  su_capacity : option (Z * Z * float64) }.  (* used, total, utilization *)

Record admin_status := mkAdminStatus {
  as_namespaces : option (list namespace_lines);
  as_proxies : option (list proxy_lines);
  as_launchers : option (list launcher_lines);
  as_audit : option (list audit_lines);
  as_summary : status_summary }.

Definition show_namespace (ns : NamespaceRow) : namespace_lines :=
  mkNamespaceLines (nsr_Name ns) (shown (nsr_Description ns)) (format_time (nsr_CreatedAt ns)).
Definition show_proxy (p : ProxyRow) : proxy_lines :=
  mkProxyLines (healthy (pxr_Status p)) (pxr_ProxyID p) (pxr_Status p) (pxr_Address p) (pxr_Version p)
    (lastSeenStr (pxr_LastSeen p)).
Definition show_launcher (l : LauncherRow) : launcher_lines :=
  mkLauncherLines (healthy (lnr_Status l)) (lnr_LauncherID l) (lnr_Status l) (lnr_Address l) (lnr_Region l)
    (lnr_Version l) (lnr_AvailableSlots l, lnr_MaxProcesses l) (lastSeenStr (lnr_LastSeen l)).
Definition show_audit (l : AuditLog) : audit_lines :=
  mkAuditLines (400 <=? al_StatusCode l) (format_time (al_Timestamp l)) (al_Method l) (al_Path l)
    (shown (al_User l)) (shown (al_Namespace l)) (shown (al_Error l)) (al_DurationMs l).

(** The loop over the statuses: healthy and unhealthy. *)
Definition count_health (statuses : list string) : Z * Z :=
  foldl (λ '(h, u) s, if healthy s then (h + 1, u) else (h, u + 1)) (0, 0) statuses.

(** The slots are added as 32-bit numbers. *)
Definition count_slots (ls : list LauncherRow) : Z * Z :=
  foldl (λ '(t, a) l, (wrap32 (t + lnr_MaxProcesses l), wrap32 (a + lnr_AvailableSlots l))) (0, 0) ls.

Definition capacity (ls : list LauncherRow) : option (Z * Z * float64) :=
  match ls with
  | [] => None
  | _ =>
      let '(total, available) := count_slots ls in
      let used := wrap32 (total - available) in
      Some (used, total, f64_mul (f64_div (f64_of_int used) (f64_of_int total)) (f64_of_int 100))
  end.

(** A query that fails leaves a nil list for the summary. *)
Definition rows_or_nil {A} (r : option (list A)) : list A := default [] r.

Definition show_all {A B} (f : A → B) (r : option (list A)) : option (list B) := map f <$> r.

Definition audit_options : AuditQueryOptions := mkAuditQueryOptions "" "" 0 0 10.

(** [ups]: whether each of the four queries succeeds. *)
Definition status_of (up_ns up_px up_ln up_al : bool) (s : Storage) : admin_status :=
  let namespaces := ctl_ListNamespaces up_ns s in
  let proxies := ctl_ListProxies up_px s in
  let launchers := ctl_ListLaunchers up_ln s in
  let logs := ctl_QueryAuditLogs up_al audit_options s in
  let px := count_health (pxr_Status <$> rows_or_nil proxies) in
  let ln := count_health (lnr_Status <$> rows_or_nil launchers) in
  mkAdminStatus (show_all show_namespace namespaces) (show_all show_proxy proxies)
    (show_all show_launcher launchers) (show_all show_audit logs)
    (mkSummary (length (rows_or_nil namespaces)) (length (rows_or_nil proxies), px.1, px.2)
       (length (rows_or_nil launchers), ln.1, ln.2) (capacity (rows_or_nil launchers))).

Definition connectToAdminStorage (home : option string) (opened : bool) (contents : Storage) : option Storage :=
  match ctl_NewStorage (mkDatabaseConfig "sqlite" (ctl_defaultDatabasePath home) "") opened with
  | Some _ => Some contents
  | None => None
  end.

(** [contents]: the tables in the file; the endpoint is printed and not used. *)
Definition showAdminStatus (endpoint : string) (home : option string) (opened : bool) (contents : Storage)
    (up_ns up_px up_ln up_al : bool) : option admin_status :=
  match connectToAdminStorage home opened contents with
  | None => None
  | Some s => Some (status_of up_ns up_px up_ln up_al s)
  end.

(** ** Properties *)

Lemma count_health_spec ss :
  count_health ss = (Z.of_nat (length (filter (λ s, healthy s = true) ss)),
                     Z.of_nat (length ss) - Z.of_nat (length (filter (λ s, healthy s = true) ss))).
Proof.
  unfold count_health. induction ss as [|s ss IH] using rev_ind; [done|].
  rewrite foldl_app. cbn [foldl]. rewrite IH, filter_app, !length_app, filter_cons.
  destruct (healthy s); simpl; f_equal; lia.
Qed.

Lemma filter_healthy {A} (f : A → string) (l : list A) :
  length (filter (λ s, healthy s = true) (f <$> l)) = length (filter (λ x, f x = "healthy") l).
Proof.
  induction l as [|x l IH]; [done|]. rewrite fmap_cons, !filter_cons.
  assert (healthy (f x) = true ↔ f x = "healthy") by (unfold healthy; apply bool_decide_eq_true).
  repeat case_decide; simpl; rewrite ?IH; tauto.
Qed.

Lemma count_slots_spec ls :
  count_slots ls = (wrap32 (foldr Z.add 0 (lnr_MaxProcesses <$> ls)),
                    wrap32 (foldr Z.add 0 (lnr_AvailableSlots <$> ls))).
Proof.
  unfold count_slots. induction ls as [|l ls IH] using rev_ind; [done|].
  rewrite foldl_app. cbn [foldl]. rewrite IH, !fmap_app.
  change (lnr_MaxProcesses <$> [l]) with [lnr_MaxProcesses l].
  change (lnr_AvailableSlots <$> [l]) with [lnr_AvailableSlots l].
  by rewrite !foldr_add_snoc, !wrap32_add.
Qed.

(** The summary of a status is that of the tables: it counts every proxy and every launcher
    once as healthy or unhealthy, and the capacity is the sum over all launchers of a
    database whose queries work, exact while it fits 32 bits. *)
Theorem status_summary_correct endpoint home s :
  ∃ st, showAdminStatus endpoint home true s true true true true = Some st ∧
    let su := as_summary st in
    su_namespaces su = length (s_namespaces s) ∧
    (su_proxies su).1.1 = length (s_proxies s) ∧
    (su_proxies su).1.2 = Z.of_nat (length (filter (λ p, pxr_Status p = "healthy") (s_proxies s))) ∧
    (su_proxies su).1.2 + (su_proxies su).2 = Z.of_nat (length (s_proxies s)) ∧
    (su_launchers su).1.1 = length (s_launchers s) ∧
    (su_launchers su).1.2 + (su_launchers su).2 = Z.of_nat (length (s_launchers s)) ∧
    (s_launchers s ≠ [] → in_int32 (foldr Z.add 0 (lnr_MaxProcesses <$> s_launchers s)) →
       ∃ used u, su_capacity su = Some (used, foldr Z.add 0 (lnr_MaxProcesses <$> s_launchers s), u)).
Proof.
  eexists. split; [reflexivity|]. cbn.
  set (px := merge_sort _ (s_proxies s)). set (ln := merge_sort _ (s_launchers s)).
  assert (px ≡ₚ s_proxies s) as Hpx by apply merge_sort_Permutation.
  assert (ln ≡ₚ s_launchers s) as Hln by apply merge_sort_Permutation.
  rewrite !count_health_spec. cbn. rewrite !length_fmap, Hpx, Hln, merge_sort_Permutation.
  split_and!; try lia.
  - by rewrite filter_healthy.
  - intros Hne Hr. unfold capacity. rewrite count_slots_spec.
    assert (foldr Z.add 0 (lnr_MaxProcesses <$> ln) = foldr Z.add 0 (lnr_MaxProcesses <$> s_launchers s)) as ->.
    { apply foldr_add_perm. by rewrite Hln. }
    rewrite (wrap32_id _ Hr). clearbody ln. destruct ln as [|l ls]; [|by eexists _, _].
    by apply Permutation_nil_l in Hln.
Qed.

(** Without a slot the utilization is not a number. *)
Theorem utilization_of_no_slots l :
  lnr_MaxProcesses l = 0 → lnr_AvailableSlots l = 0 → capacity [l] = Some (0, 0, SpecFloat.S754_nan).
Proof. intros H1 H2. unfold capacity, count_slots. cbn [foldl]. by rewrite H1, H2. Qed.

(** The endpoint does not matter. *)
Theorem status_ignores_endpoint endpoint endpoint' home opened s a b c d :
  showAdminStatus endpoint home opened s a b c d = showAdminStatus endpoint' home opened s a b c d.
Proof. done. Qed.
End Status.
