(* ===== verification/ProcMgrMetrics.v ===== *)
(** * pkg/procmgr: the metrics of the process manager

    metrics.go (the collector interface and the collector that does nothing), prometheus.go
    and the places of manager.go at which the manager reports.  A metric vector of the
    Prometheus library is a map from label values to a counter or to the observations; the
    events the manager reports are derived from the same status functions that ProcMgr
    models. *)

From S2P Require Import Prelude Backoff WorkQueue ProcMgr RedisRegistry.
Import GoFloat.
Local Open Scope Z_scope.

(** ** metrics.go *)

(** The calls of the interface, as data. *)
Inductive metric_event :=
  | ProcessStateTransition (id : ProcessID) (fromState toState : ProcessState)
  | ProcessSyncDuration (id : ProcessID) (updateType : UpdateType) (duration : Z) (err : option go_error)
  | ProcessTerminationDuration (id : ProcessID) (duration : Z)
  | ProcessError (id : ProcessID) (errorType : string)
  | ProcessRestart (id : ProcessID)
  | WorkQueueDepth (depth : Z)
  | WorkQueueAdd (id : ProcessID) (delay : Z)
  | WorkQueueRetry (id : ProcessID)
  | WorkQueueBackoffDuration (id : ProcessID) (duration : Z).

(** A collector: what a call does to it. *)
Class MetricsCollector (C : Type) := collect_event : metric_event → C → C.

Definition noopMetricsCollector : Type := unit.
#[export] Instance noop_collector : MetricsCollector noopMetricsCollector := λ _ c, c.

(** A manager that reports to a collector. *)
Definition report {C} `{!MetricsCollector C} (evs : list metric_event) (c : C) : C :=
  foldl (λ c e, collect_event e c) c evs.

(** ** prometheus.go *)

Definition state_String (s : ProcessState) : string :=
  match s with
  | ProcessStateStarting => "Starting"
  | ProcessStateSyncing => "Syncing"
  | ProcessStateTerminating => "Terminating"
  | ProcessStateTerminated => "Terminated"
  | ProcessStateFinished => "Finished"
  end.

Definition update_String (u : UpdateType) : string :=
  match u with
  | UpdateTypeCreate => "Create"
  | UpdateTypeUpdate => "Update"
  | UpdateTypeSync => "Sync"
  | UpdateTypeTerminate => "Terminate"
  end.

(** Label values to the counter, and to what was observed. *)
Abbreviation counter_vec := (gmap (list string) nat).
Abbreviation histogram_vec := (gmap (list string) (list float64)).

Record PrometheusMetricsCollector := mkPrometheus {
  pr_namespace : string;
  pr_stateTransitions : counter_vec;
  pr_syncDuration : histogram_vec;
  pr_terminationDuration : histogram_vec;
  pr_errors : counter_vec;
  pr_restarts : counter_vec;
  pr_queueDepth : float64;
  pr_queueAdds : counter_vec;
  pr_queueRetries : counter_vec;
  pr_backoffDuration : histogram_vec }.

Definition NewPrometheusMetricsCollector (namespace : string) : PrometheusMetricsCollector :=
  mkPrometheus (if bool_decide (namespace = ""%string) then "procmgr" else namespace)
    ∅ ∅ ∅ ∅ ∅ f64_zero ∅ ∅ ∅.

Definition Inc (labels : list string) (v : counter_vec) : counter_vec :=
  <[labels := S (default 0%nat (v !! labels))]> v.
Definition Observe (labels : list string) (x : float64) (v : histogram_vec) : histogram_vec :=
  <[labels := default [] (v !! labels) ++ [x]]> v.

Definition sync_status (err : option go_error) : string :=
  match err with Some _ => "error" | None => "success" end.

#[export] Instance prometheus_collector : MetricsCollector PrometheusMetricsCollector := λ e p,
  let '(mkPrometheus ns st sy te er re de ad rt bo) := p in
  match e with
  | ProcessStateTransition id from to =>
      mkPrometheus ns (Inc [id; state_String from; state_String to] st) sy te er re de ad rt bo
  | ProcessSyncDuration id u d err =>
      mkPrometheus ns st (Observe [id; update_String u; sync_status err] (Seconds d) sy) te er re de ad rt bo
  | ProcessTerminationDuration id d =>
      mkPrometheus ns st sy (Observe [id] (Seconds d) te) er re de ad rt bo
  | ProcessError id ty => mkPrometheus ns st sy te (Inc [id; ty] er) re de ad rt bo
  | ProcessRestart id => mkPrometheus ns st sy te er (Inc [id] re) de ad rt bo
  | WorkQueueDepth depth => mkPrometheus ns st sy te er re (f64_of_int depth) ad rt bo
  | WorkQueueAdd id _ => mkPrometheus ns st sy te er re de (Inc [id] ad) rt bo
  | WorkQueueRetry id => mkPrometheus ns st sy te er re de ad (Inc [id] rt) bo
  | WorkQueueBackoffDuration id d => mkPrometheus ns st sy te er re de ad rt (Observe [id] (Seconds d) bo)
  end.

(** ** What the manager reports *)

Section Events.
Context {Cfg : Type} {Q : Type} `{!DelayQueue Q} (ovf : Z).
Implicit Types (s : @processStatus Cfg).

(** A change of state between the two readings under the lock. *)
Definition transition_events (id : ProcessID) (s s' : @processStatus Cfg) : list metric_event :=
  if bool_decide (State s' = State s) then [] else [ProcessStateTransition id (State s) (State s')].

Definition error_events (id : ProcessID) (ty : string) (err : option go_error) : list metric_event :=
  match err with Some _ => [ProcessError id ty] | None => [] end.

(** The reports of [syncProcess], [syncTerminating] and [syncTerminated]. *)
Definition sync_events (now : Z) (id : ProcessID) (kind : sync_kind) (update : ProcessUpdate) (duration : Z)
    (terminal : bool) (err : option go_error) (s : @processStatus Cfg) : list metric_event :=
  match kind with
  | KSync =>
      ProcessSyncDuration id (pu_UpdateType update) duration err :: error_events id "sync_error" err ++
      transition_events id s (syncProcess now terminal err s)
  | KTerminating =>
      ProcessTerminationDuration id duration :: error_events id "termination_error" err ++
      transition_events id s (syncTerminating now id update err s)
  | KTerminated =>
      error_events id "cleanup_error" err ++ transition_events id s (syncTerminated now err s)
  end.

(** The reports of [completeWork] after it has put the process back. *)
Definition requeue_events (id : ProcessID) (delay depth : Z) (syncErr : option go_error) : list metric_event :=
  [WorkQueueAdd id delay; WorkQueueDepth depth] ++
  match syncErr with Some _ => [WorkQueueBackoffDuration id delay] | None => [] end.

(** The reports of the queue consumer for an item it took. *)
Definition dequeue_events (id : ProcessID) (depth : Z) : list metric_event :=
  [WorkQueueRetry id; WorkQueueDepth depth].

(** ** Properties *)

(** The transition an event reports. *)
Definition transition_of (e : metric_event) : option (ProcessID * ProcessState * ProcessState) :=
  match e with ProcessStateTransition id a b => Some (id, a, b) | _ => None end.

(** The moves of a process. *)
Definition legal_move (from to : ProcessState) : bool :=
  match from, to with
  | ProcessStateStarting, ProcessStateSyncing
  | ProcessStateStarting, ProcessStateTerminating
  | ProcessStateSyncing, ProcessStateTerminating
  | ProcessStateTerminating, ProcessStateTerminated
  | ProcessStateTerminated, ProcessStateFinished => true
  | _, _ => false
  end.

Lemma transition_events_transition id s s' :
  omap transition_of (transition_events id s s') =
    if bool_decide (State s' = State s) then [] else [(id, State s, State s')].
Proof. unfold transition_events. by case_bool_decide. Qed.

Lemma error_events_transition id ty err : omap transition_of (error_events id ty err) = [].
Proof. by destruct err. Qed.

(** The state a sync of [kind] works on, and the status afterwards. *)
Definition sync_entry (kind : sync_kind) (st : ProcessState) : Prop :=
  match kind with
  | KSync => st = ProcessStateStarting ∨ st = ProcessStateSyncing ∨ st = ProcessStateTerminating
  | KTerminating => st = ProcessStateTerminating
  | KTerminated => st = ProcessStateTerminated
  end.
Definition synced (now : Z) (id : ProcessID) (kind : sync_kind) (update : ProcessUpdate) (terminal : bool)
    (err : option go_error) (s : @processStatus Cfg) : @processStatus Cfg :=
  match kind with
  | KSync => syncProcess now terminal err s
  | KTerminating => syncTerminating now id update err s
  | KTerminated => syncTerminated now err s
  end.

Lemma synced_legal now id kind update terminal err s : now ≠ 0 → sync_entry kind (State s) →
  State (synced now id kind update terminal err s) = State s ∨
  legal_move (State s) (State (synced now id kind update terminal err s)) = true.
Proof.
  intros Hnow Hs. assert (IsZero now = false) as Hz by by apply IsZero_false.
  unfold synced, sync_entry, syncProcess, syncTerminating, syncTerminated, State in *.
  destruct kind, s, err; try destruct terminal; simpl in *; repeat case_match; simplify_eq/=;
    rewrite ?Hz in *; simpl in *; repeat case_match; simplify_eq/=; destruct_or?; try done; auto; congruence.
Qed.

(** Every transition a sync reports is a legal move, of the process and from the state it
    was in; a sync that changes the state reports it. *)
Theorem reported_transitions_legal now id kind update d terminal err s : now ≠ 0 → sync_entry kind (State s) →
  omap transition_of (sync_events now id kind update d terminal err s) =
    (if bool_decide (State (synced now id kind update terminal err s) = State s) then []
     else [(id, State s, State (synced now id kind update terminal err s))]) ∧
  Forall (λ t, legal_move t.1.2 t.2 = true) (omap transition_of (sync_events now id kind update d terminal err s)).
Proof.
  intros Hnow Hs. pose proof (synced_legal now id kind update terminal err s Hnow Hs) as Hl.
  assert (omap transition_of (sync_events now id kind update d terminal err s) =
    (if bool_decide (State (synced now id kind update terminal err s) = State s) then []
     else [(id, State s, State (synced now id kind update terminal err s))])) as ->.
  { unfold sync_events. destruct kind; simpl; rewrite omap_app, error_events_transition; simpl;
      apply transition_events_transition. }
  split; [done|]. case_bool_decide as Hd; [constructor|]. apply Forall_singleton. simpl.
  by destruct Hl.
Qed.
End Events.

(** ** The counters are the counts *)

Lemma Inc_lookup labels v k : default 0%nat (Inc labels v !! k) =
  (default 0 (v !! k) + if decide (labels = k) then 1 else 0)%nat.
Proof.
  unfold Inc. case_decide as Hk; subst.
  - rewrite lookup_insert_eq. simpl. lia.
  - rewrite lookup_insert_ne by done. lia.
Qed.

Lemma Observe_lookup labels x v k : default [] (Observe labels x v !! k) =
  default [] (v !! k) ++ if decide (labels = k) then [x] else [].
Proof.
  unfold Observe. case_decide as Hk; subst.
  - by rewrite lookup_insert_eq.
  - rewrite lookup_insert_ne by done. by rewrite app_nil_r.
Qed.

(** The labels an event counts under, per metric, and what it observes. *)
Inductive metric := MTransitions | MErrors | MRestarts | MAdds | MRetries.
Inductive histogram := HSync | HTermination | HBackoff.

Definition counts (m : metric) (e : metric_event) : option (list string) :=
  match m, e with
  | MTransitions, ProcessStateTransition id a b => Some [id; state_String a; state_String b]
  | MErrors, ProcessError id ty => Some [id; ty]
  | MRestarts, ProcessRestart id => Some [id]
  | MAdds, WorkQueueAdd id _ => Some [id]
  | MRetries, WorkQueueRetry id => Some [id]
  | _, _ => None
  end.
Definition observes (h : histogram) (e : metric_event) : option (list string * float64) :=
  match h, e with
  | HSync, ProcessSyncDuration id u d err => Some ([id; update_String u; sync_status err], Seconds d)
  | HTermination, ProcessTerminationDuration id d => Some ([id], Seconds d)
  | HBackoff, WorkQueueBackoffDuration id d => Some ([id], Seconds d)
  | _, _ => None
  end.

Definition counter_of (m : metric) (p : PrometheusMetricsCollector) : counter_vec :=
  match m with
  | MTransitions => pr_stateTransitions p
  | MErrors => pr_errors p
  | MRestarts => pr_restarts p
  | MAdds => pr_queueAdds p
  | MRetries => pr_queueRetries p
  end.
Definition histogram_of (h : histogram) (p : PrometheusMetricsCollector) : histogram_vec :=
  match h with
  | HSync => pr_syncDuration p
  | HTermination => pr_terminationDuration p
  | HBackoff => pr_backoffDuration p
  end.

(** How often [evs] count under [labels], and what they observe there. *)
Definition occurrences (m : metric) (labels : list string) (evs : list metric_event) : nat :=
  length (filter (λ l, l = labels) (omap (counts m) evs)).
Definition observations (h : histogram) (labels : list string) (evs : list metric_event) : list float64 :=
  (filter (λ o : list string * float64, o.1 = labels) (omap (observes h) evs)).*2.

(** What the Prometheus collector exports is what the manager reported: after any sequence
    of reports, each counter holds the number of reports with its labels and each histogram
    the durations reported with its labels, in order. *)
Theorem prometheus_counts_reports namespace evs m h labels :
  let p := report evs (NewPrometheusMetricsCollector namespace) in
  default 0%nat (counter_of m p !! labels) = occurrences m labels evs ∧
  default [] (histogram_of h p !! labels) = observations h labels evs.
Proof.
  cbn zeta. unfold occurrences, observations, report. induction evs as [|e evs IH] using rev_ind.
  { by destruct m, h. }
  rewrite foldl_app, !omap_app, !filter_app, length_app, fmap_app. destruct IH as [IH1 IH2].
  rewrite <- IH1, <- IH2. cbn [foldl].
  destruct (foldl _ (NewPrometheusMetricsCollector namespace) evs) as [ns st sy te er re de ad rt bo].
  split.
  - destruct m, e; cbn; rewrite ?Inc_lookup, ?filter_cons, ?filter_nil; try lia;
      case_decide; simpl; lia.
  - destruct h, e; cbn; rewrite ?Observe_lookup, ?filter_cons, ?filter_nil, ?app_nil_r; try done;
      cbn; case_decide; simpl; by rewrite ?app_nil_r.
Qed.

(** The manager has no report of a restart: the restart counter stays empty. *)
Theorem restarts_never_counted {Cfg} now id kind (update : @ProcessUpdate Cfg) d terminal err s delay depth labels :
  occurrences MRestarts labels
    (sync_events now id kind update d terminal err s ++ requeue_events id delay depth err ++ dequeue_events id depth)
    = 0%nat.
Proof.
  unfold occurrences, sync_events, transition_events, error_events.
  destruct kind, err; simpl; try case_bool_decide; done.
Qed.

(** A termination request changes the state without a report: the sync that follows finds
    the process terminating already, so the way into Terminating is only counted for a
    process that ended by itself. *)
Theorem requested_termination_not_counted {Cfg} now id (update : @ProcessUpdate Cfg) d err (s : @processStatus Cfg) opts :
  now ≠ 0 → State s = ProcessStateSyncing →
  let s1 := handleTerminationRequest now opts s in
  State s1 = ProcessStateTerminating ∧
  ∀ from, (id, from, ProcessStateTerminating) ∉ omap transition_of (sync_events now id KTerminating update d false err s1).
Proof.
  intros Hnow Hs s1. assert (IsZero now = false) as Hz by by apply IsZero_false.
  assert (State s1 = ProcessStateTerminating) as H1.
  { unfold s1, handleTerminationRequest, cancel_status, State in *.
    destruct s, opts as [[ch ev [gp|]]|]; simpl in *; repeat case_match; simplify_eq/=; rewrite ?Hz in *; simpl in *;
      repeat case_match; simplify_eq/=; try done; congruence. }
  split; [done|]. intros from.
  destruct (reported_transitions_legal now id KTerminating update d false err s1 Hnow H1) as [He Hl].
  rewrite He. case_bool_decide as Hd; [apply not_elem_of_nil|]. rewrite list_elem_of_singleton.
  rewrite H1 in *. intros Hin. injection Hin as -> Heq. by apply Hd.
Qed.
