(* ===== verification/TestProcMgr.v ===== *)
(** * pkg/testing/procmgr: processes for the integration tests

    procmgr.go.  The operating system is a map from pids to what has become of the process:
    a child that has exited stays until it is waited for.  Processes are shared by pointer
    between the manager and its callers, so they live in a heap.  Whether the system starts
    a process, creates a log file and ends a process within the grace period are inputs. *)

From S2P Require Import Prelude.
Local Open Scope Z_scope.

(** ** The operating system *)

Inductive proc_state := Alive | Exited | Reaped.
#[export] Instance proc_state_eq_dec : EqDecision proc_state.
Proof. solve_decision. Defined.

(** [Process.Signal] returns an error once the process was waited for; a child that exited
    and was not waited for still accepts signals. *)
Definition Signal_ok (st : proc_state) : bool := match st with Reaped => false | _ => true end.

(** ** Data *)

Record ManagedProcess := mkManaged {
  mp_ID : string;
  mp_pid : Z;
  mp_LogFile : option string;
  mp_Started : Z;
  mp_Stopped : bool }.

Definition set_Stopped (mp : ManagedProcess) : ManagedProcess :=
  mkManaged (mp_ID mp) (mp_pid mp) (mp_LogFile mp) (mp_Started mp) true.

Record ProcessConfig := mkProcessConfig {
  pc_ID : string;
  pc_LogFile : string;
  pc_Env : list (string * string) }.

(** The manager, the heap of processes, the system, and the processes whose log file is
    open. *)
Record ProcessManager := mkPM {
  pm_processes : gmap string nat;
  pm_heap : list ManagedProcess;
  pm_os : gmap Z proc_state;
  pm_logs : gset nat }.

Definition NewProcessManager : ProcessManager := mkPM ∅ [] ∅ ∅.

Inductive pm_error :=
  | ErrAlreadyRunning (id : string)
  | ErrLogFile
  | ErrStart
  | ErrNotFound (id : string)
  | ErrSigterm
  | ErrKill.

Definition state_of (pid : Z) (pm : ProcessManager) : proc_state := default Reaped (pm_os pm !! pid).
Definition set_os (pid : Z) (st : proc_state) (pm : ProcessManager) : ProcessManager :=
  mkPM (pm_processes pm) (pm_heap pm) (<[pid := st]> (pm_os pm)) (pm_logs pm).
Definition set_mp (loc : nat) (mp : ManagedProcess) (pm : ProcessManager) : ProcessManager :=
  mkPM (pm_processes pm) (<[loc := mp]> (pm_heap pm)) (pm_os pm) (pm_logs pm).
Definition set_processes (ps : gmap string nat) (pm : ProcessManager) : ProcessManager :=
  mkPM ps (pm_heap pm) (pm_os pm) (pm_logs pm).
Definition close_log (loc : nat) (log : option string) (pm : ProcessManager) : ProcessManager :=
  match log with
  | Some _ => mkPM (pm_processes pm) (pm_heap pm) (pm_os pm) (pm_logs pm ∖ {[ loc ]})
  | None => pm
  end.

(** ** Start *)

(** What the child's environment is: later entries override earlier ones. *)
Definition child_env (inherited : list (string * string)) (order : list (string * string)) : list string :=
  (λ kv, kv.1 +:+ "=" +:+ kv.2) <$> (inherited ++ order).

(** [created]: the log file could be created; [pid]: the process that was started. *)
Definition Start (now : Z) (created : bool) (pid : option Z) (cfg : ProcessConfig) (pm : ProcessManager)
    : ProcessManager * (nat + pm_error) :=
  match pm_processes pm !! pc_ID cfg with
  | Some _ => (pm, inr (ErrAlreadyRunning (pc_ID cfg)))
  | None =>
      let wants_log := bool_decide (pc_LogFile cfg ≠ ""%string) in
      if wants_log && negb created then (pm, inr ErrLogFile)
      else
        let log := if wants_log then Some (pc_LogFile cfg) else None in
        match pid with
        | None => (pm, inr ErrStart)
        | Some pid =>
            let loc := length (pm_heap pm) in
            (mkPM (<[pc_ID cfg := loc]> (pm_processes pm))
               (pm_heap pm ++ [mkManaged (pc_ID cfg) pid log now false])
               (<[pid := Alive]> (pm_os pm)) (match log with Some _ => {[ loc ]} ∪ pm_logs pm | None => pm_logs pm end), inl loc)
        end
  end.

(** ** ManagedProcess *)

(** SIGTERM, then the end within five seconds ([graceful]) or SIGKILL; the goroutine that
    waits takes the process away in both cases. *)
Definition mp_Stop (graceful : bool) (loc : nat) (pm : ProcessManager) : ProcessManager * option pm_error :=
  match pm_heap pm !! loc with
  | None => (pm, None)
  | Some mp =>
      if mp_Stopped mp then (pm, None)
      else
        let pm := set_mp loc (set_Stopped mp) pm in
        if negb (Signal_ok (state_of (mp_pid mp) pm)) then (pm, Some ErrSigterm)
        else
          let pm := if graceful then set_os (mp_pid mp) Reaped pm else set_os (mp_pid mp) Exited pm in
          (close_log loc (mp_LogFile mp) pm, None)
  end.

Definition mp_Kill (loc : nat) (pm : ProcessManager) : ProcessManager * option pm_error :=
  match pm_heap pm !! loc with
  | None => (pm, None)
  | Some mp =>
      if mp_Stopped mp then (pm, None)
      else
        let pm := set_mp loc (set_Stopped mp) pm in
        if negb (Signal_ok (state_of (mp_pid mp) pm)) then (pm, Some ErrKill)
        else (close_log loc (mp_LogFile mp) (set_os (mp_pid mp) Reaped pm), None)
  end.

Definition IsRunning (loc : nat) (pm : ProcessManager) : bool :=
  match pm_heap pm !! loc with
  | Some mp => negb (mp_Stopped mp) && Signal_ok (state_of (mp_pid mp) pm)
  | None => false
  end.

Definition Uptime (now : Z) (mp : ManagedProcess) : Z := if mp_Stopped mp then 0 else now - mp_Started mp.

(** ** ProcessManager *)

Definition take_out (end_ : nat → ProcessManager → ProcessManager * option pm_error) (id : string)
    (pm : ProcessManager) : ProcessManager * option pm_error :=
  match pm_processes pm !! id with
  | None => (pm, Some (ErrNotFound id))
  | Some loc => end_ loc (set_processes (delete id (pm_processes pm)) pm)
  end.
Definition Stop (graceful : bool) : string → ProcessManager → ProcessManager * option pm_error :=
  take_out (mp_Stop graceful).
Definition Kill : string → ProcessManager → ProcessManager * option pm_error := take_out mp_Kill.

(** Every process is ended, and the first error kept. *)
Fixpoint end_each (end_ : nat → ProcessManager → ProcessManager * option pm_error) (locs : list nat)
    (pm : ProcessManager) : ProcessManager * option pm_error :=
  match locs with
  | [] => (pm, None)
  | loc :: locs =>
      let '(pm, e) := end_ loc pm in
      let '(pm, e') := end_each end_ locs pm in
      (pm, match e with Some _ => e | None => e' end)
  end.
Definition StopAll (graceful : nat → bool) (pm : ProcessManager) : ProcessManager * option pm_error :=
  end_each (λ loc, mp_Stop (graceful loc) loc) (map_to_list (pm_processes pm)).*2 (set_processes ∅ pm).
Definition KillAll (pm : ProcessManager) : ProcessManager * option pm_error :=
  end_each mp_Kill (map_to_list (pm_processes pm)).*2 (set_processes ∅ pm).

Definition Get (id : string) (pm : ProcessManager) : option nat := pm_processes pm !! id.
Definition List_ (pm : ProcessManager) : list string := (map_to_list (pm_processes pm)).*1.

(** ** Runs *)

(** A test uses the manager and the processes it was handed; processes exit by themselves,
    and those that were killed are waited for. *)
Inductive label :=
  | LStart (now : Z) (created : bool) (pid : option Z) (cfg : ProcessConfig)
  | LStop (graceful : bool) (id : string)
  | LKill (id : string)
  | LStopProcess (graceful : bool) (loc : nat)
  | LKillProcess (loc : nat)
  | LStopAll (graceful : nat → bool)
  | LKillAll
  | LExit (pid : Z)
  | LReap (loc : nat).

(** The pids of a run are all different. *)
Definition fresh_pid (pid : option Z) (pm : ProcessManager) : bool :=
  match pid with Some p => bool_decide (pm_os pm !! p = None) | None => true end.

Definition exec (l : label) (pm : ProcessManager) : option ProcessManager :=
  match l with
  | LStart now created pid cfg =>
      if fresh_pid pid pm then Some (Start now created pid cfg pm).1 else None
  | LStop graceful id => Some (Stop graceful id pm).1
  | LKill id => Some (Kill id pm).1
  | LStopProcess graceful loc => Some (mp_Stop graceful loc pm).1
  | LKillProcess loc => Some (mp_Kill loc pm).1
  | LStopAll graceful => Some (StopAll graceful pm).1
  | LKillAll => Some (KillAll pm).1
  | LExit pid =>
      match pm_os pm !! pid with Some Alive => Some (set_os pid Exited pm) | _ => None end
  | LReap loc =>
      match pm_heap pm !! loc with
      | Some mp => match mp_Stopped mp, pm_os pm !! mp_pid mp with
                   | true, Some Exited => Some (set_os (mp_pid mp) Reaped pm)
                   | _, _ => None
                   end
      | None => None
      end
  end.

(** ** The invariant *)

(** Both ways to end a process, with the state it is left in. *)
Definition end_with (st : proc_state) (err : pm_error) (loc : nat) (pm : ProcessManager) : ProcessManager * option pm_error :=
  match pm_heap pm !! loc with
  | None => (pm, None)
  | Some mp =>
      if mp_Stopped mp then (pm, None)
      else
        let pm := set_mp loc (set_Stopped mp) pm in
        if negb (Signal_ok (state_of (mp_pid mp) pm)) then (pm, Some err)
        else (close_log loc (mp_LogFile mp) (set_os (mp_pid mp) st pm), None)
  end.

Lemma mp_Stop_end graceful loc pm :
  mp_Stop graceful loc pm = end_with (if graceful then Reaped else Exited) ErrSigterm loc pm.
Proof. unfold mp_Stop, end_with. repeat case_match; done. Qed.

Lemma mp_Kill_end loc pm : mp_Kill loc pm = end_with Reaped ErrKill loc pm.
Proof. done. Qed.

(** What holds between the operations; [extra] are processes that are being ended and are
    no longer in the map. *)
Record inv (extra : list nat) (pm : ProcessManager) : Prop := {
  iv_map id loc : pm_processes pm !! id = Some loc → ∃ mp, pm_heap pm !! loc = Some mp ∧ mp_ID mp = id;
  iv_running loc mp : pm_heap pm !! loc = Some mp → mp_Stopped mp = false →
    (pm_processes pm !! mp_ID mp = Some loc ∨ loc ∈ extra) ∧
    (pm_os pm !! mp_pid mp = Some Alive ∨ pm_os pm !! mp_pid mp = Some Exited);
  iv_alive pid : pm_os pm !! pid = Some Alive → ∃ loc mp, pm_heap pm !! loc = Some mp ∧ mp_pid mp = pid ∧ mp_Stopped mp = false;
  iv_pids loc loc' mp mp' : pm_heap pm !! loc = Some mp → pm_heap pm !! loc' = Some mp' → mp_pid mp = mp_pid mp' → loc = loc';
  iv_dom loc mp : pm_heap pm !! loc = Some mp → is_Some (pm_os pm !! mp_pid mp);
  iv_logs loc : loc ∈ pm_logs pm → ∃ mp, pm_heap pm !! loc = Some mp ∧ mp_Stopped mp = false ∧ is_Some (mp_LogFile mp) }.

Lemma test_inv_new : inv [] NewProcessManager.
Proof. split; simpl; intros *; rewrite ?lookup_empty, ?lookup_nil, ?not_elem_of_empty; try done. Qed.

Lemma inv_Start now created pid cfg pm :
  fresh_pid pid pm = true → inv [] pm → inv [] (Start now created pid cfg pm).1.
Proof.
  intros Hf Hi. unfold Start. destruct (pm_processes pm !! pc_ID cfg) as [?|] eqn:Hid; [done|].
  destruct (_ && _); [done|]. destruct pid as [pid|]; [|done]. simpl in Hf. apply bool_decide_eq_true in Hf.
  set (log := if bool_decide _ then _ else _). destruct Hi as [Hm Hr Ha Hp Hd Hl].
  assert (∀ loc mp, pm_heap pm !! loc = Some mp → mp_pid mp ≠ pid) as Hfresh.
  { intros loc mp H <-. apply Hd in H as [? H]. congruence. }
  assert (∀ loc mp, (pm_heap pm ++ [mkManaged (pc_ID cfg) pid log now false]) !! loc = Some mp →
    pm_heap pm !! loc = Some mp ∨ loc = length (pm_heap pm) ∧ mp = mkManaged (pc_ID cfg) pid log now false) as Hcase.
  { intros loc mp [H|[H1 H2]]%lookup_app_Some; [by left|right]. apply list_lookup_singleton_Some in H2 as [H2 <-].
    split; [lia|done]. }
  assert (∀ loc mp, pm_heap pm !! loc = Some mp → (pm_heap pm ++ [mkManaged (pc_ID cfg) pid log now false]) !! loc = Some mp)
    as Hold by (intros; by apply lookup_app_l_Some).
  assert ((pm_heap pm ++ [mkManaged (pc_ID cfg) pid log now false]) !! length (pm_heap pm) =
    Some (mkManaged (pc_ID cfg) pid log now false)) as Hnew by (by apply list_lookup_middle).
  split; cbn [fst pm_processes pm_heap pm_os pm_logs].
  - intros id loc [[<- <-]|[Hne H]]%lookup_insert_Some; [eauto|]. destruct (Hm _ _ H) as (mp & ? & ?). eauto.
  - intros loc mp [H|[-> ->]]%Hcase Hs.
    + destruct (Hr _ _ H Hs) as [[Hin|[]%elem_of_nil] Hos]. split.
      * left. rewrite lookup_insert_ne; [done|]. intros E. rewrite <- E in Hin. congruence.
      * rewrite lookup_insert_ne by (intros E; by eapply Hfresh). done.
    + simpl. rewrite !lookup_insert_eq. auto.
  - intros p [[<- _]|[Hne H]]%lookup_insert_Some; [by eexists _, _|]. destruct (Ha _ H) as (loc & mp & ? & ? & ?). eauto 6.
  - intros loc loc' mp mp' [H|[-> ->]]%Hcase [H'|[-> ->]]%Hcase E; simpl in *; [by eapply Hp|..|done].
    + by apply Hfresh in H.
    + apply Hfresh in H'. congruence.
  - intros loc mp [H|[-> ->]]%Hcase; simpl; [|by rewrite lookup_insert_eq].
    rewrite lookup_insert_ne by (intros E; by eapply Hfresh). by eapply Hd.
  - intros loc Hin. assert (loc ∈ pm_logs pm ∨ loc = length (pm_heap pm) ∧ is_Some log) as [H|[-> ?]]
      by (destruct log; [set_solver|by left]).
    + destruct (Hl _ H) as (mp & ? & ? & ?). eauto.
    + eexists. split; [done|]. done.
Qed.

Lemma inv_ended loc extra pm : (∀ mp, pm_heap pm !! loc = Some mp → mp_Stopped mp = true) →
  inv (loc :: extra) pm → inv extra pm.
Proof.
  intros He [Hm Hr Ha Hp Hd Hl]. split; [done| |done..]. intros loc' mp H Hs.
  destruct (Hr _ _ H Hs) as [[Hin|[->|Hin]%elem_of_cons] Hos]; split; auto. by rewrite (He _ H) in Hs.
Qed.

(** What ending a process that is not stopped does to the invariant. *)
Lemma inv_stopped st loc mp extra pm logs : st ≠ Alive → inv (loc :: extra) pm →
  pm_heap pm !! loc = Some mp → logs = pm_logs pm ∖ {[ loc ]} →
  inv extra (mkPM (pm_processes pm) (<[loc := set_Stopped mp]> (pm_heap pm)) (<[mp_pid mp := st]> (pm_os pm)) logs).
Proof.
  intros Hst [Hm Hr Ha Hp Hd Hl] Hloc ->. pose proof (lookup_lt_Some _ _ _ Hloc) as Hlt.
  assert (∀ loc' mp', <[loc := set_Stopped mp]> (pm_heap pm) !! loc' = Some mp' →
    loc' = loc ∧ mp' = set_Stopped mp ∨ loc' ≠ loc ∧ pm_heap pm !! loc' = Some mp' ∧ mp_pid mp' ≠ mp_pid mp) as Hcase.
  { intros loc' mp' [(-> & <- & _)|[Hne H]]%list_lookup_insert_Some; [by left|right]. split_and!; [done..|].
    intros E. apply Hne. symmetry. by apply (Hp _ _ _ _ H Hloc). }
  assert (∀ loc' mp', pm_heap pm !! loc' = Some mp' → ∃ mp'', <[loc := set_Stopped mp]> (pm_heap pm) !! loc' = Some mp'' ∧
    mp_ID mp'' = mp_ID mp' ∧ mp_pid mp'' = mp_pid mp' ∧ mp_LogFile mp'' = mp_LogFile mp' ∧ (loc' ≠ loc → mp'' = mp')) as Hold.
  { intros loc' mp' H. destruct (decide (loc' = loc)) as [->|Hne].
    - rewrite list_lookup_insert_eq by done. eexists. split; [done|]. by simplify_eq.
    - rewrite list_lookup_insert_ne by done. eauto 7. }
  split; cbn [pm_processes pm_heap pm_os pm_logs].
  - intros id loc' H. destruct (Hm _ _ H) as (mp' & H1 & <-). destruct (Hold _ _ H1) as (mp'' & ? & ? & _). eauto.
  - intros loc' mp' [[-> ->]|(Hne & H & Hpid)]%Hcase Hs; [done|].
    destruct (Hr _ _ H Hs) as [[Hin|[->|Hin]%elem_of_cons] Hos]; [|done|]; rewrite lookup_insert_ne by done; auto.
  - intros pid [[_ ->]|[Hne H]]%lookup_insert_Some; [done|]. destruct (Ha _ H) as (loc' & mp' & H1 & <- & Hs).
    exists loc', mp'. rewrite list_lookup_insert_ne; [done|]. intros ->. by simplify_eq.
  - intros l1 l2 m1 m2 [[-> ->]|(Hne & H & Hpid)]%Hcase [[-> ->]|(Hne' & H' & Hpid')]%Hcase E; [done|by destruct Hpid'|by destruct Hpid|by eapply Hp].
  - intros loc' mp' [[-> ->]|(Hne & H & Hpid)]%Hcase; simpl; [by rewrite lookup_insert_eq|].
    rewrite lookup_insert_ne by done. by eapply Hd.
  - intros loc' [Hin Hne]%elem_of_difference. rewrite not_elem_of_singleton in Hne. destruct (Hl _ Hin) as (mp' & ? & ?).
    exists mp'. by rewrite list_lookup_insert_ne.
Qed.

(** Ending a process: it is stopped, its log is closed, and there is no error. *)
Lemma inv_end st err loc extra pm : st ≠ Alive → inv (loc :: extra) pm →
  inv extra (end_with st err loc pm).1 ∧ (end_with st err loc pm).2 = None.
Proof.
  intros Hst Hi. unfold end_with. destruct (pm_heap pm !! loc) as [mp|] eqn:Hloc.
  2:{ split; [cbn [fst]|done]. apply (inv_ended loc); [|done]. intros ?. by rewrite Hloc. }
  destruct (mp_Stopped mp) eqn:Hs.
  { split; [cbn [fst]|done]. apply (inv_ended loc); [|done]. intros ?. rewrite Hloc. by intros [= <-]. }
  assert (Signal_ok (state_of (mp_pid mp) (set_mp loc (set_Stopped mp) pm)) = true) as ->.
  { unfold state_of. simpl. by destruct (proj2 (iv_running _ _ Hi _ _ Hloc Hs)) as [->| ->]. }
  cbn [negb fst snd]. split; [|done]. unfold close_log, set_os, set_mp.
  destruct (mp_LogFile mp) eqn:Hlog; cbn [pm_processes pm_heap pm_os pm_logs]; apply (inv_stopped st loc mp); try done.
  assert (loc ∉ pm_logs pm); [|set_solver]. intros (mp' & H1 & _ & H2)%(iv_logs _ _ Hi). simplify_eq.
  rewrite Hlog in H2. by destruct H2.
Qed.

Lemma end_with_processes st err loc pm : pm_processes (end_with st err loc pm).1 = pm_processes pm.
Proof. unfold end_with, close_log. by repeat case_match. Qed.

Lemma inv_take_out (end_ : nat → ProcessManager → ProcessManager * option pm_error) st err id pm :
  st ≠ Alive → (∀ loc pm, end_ loc pm = end_with st err loc pm) →
  inv [] pm → inv [] (take_out end_ id pm).1.
Proof.
  intros Hst He Hi. unfold take_out. destruct (pm_processes pm !! id) as [loc|] eqn:Hid; [|done].
  rewrite He. apply inv_end; [done|]. destruct Hi as [Hm Hr Ha Hp Hd Hl]. split; cbn; [| |done..].
  - intros id' loc' [_ H]%lookup_delete_Some. by apply Hm.
  - intros loc' mp H Hs. destruct (Hr _ _ H Hs) as [[Hin|[]%elem_of_nil] Hos]. split; [|done].
    destruct (decide (mp_ID mp = id)) as [E|E]; [right; apply elem_of_cons; left; rewrite E in Hin; congruence|left].
    by rewrite lookup_delete_ne.
Qed.

Lemma inv_end_each (end_ : nat → ProcessManager → ProcessManager * option pm_error) (st : nat → proc_state) err locs pm :
  (∀ loc, st loc ≠ Alive) → (∀ loc pm, end_ loc pm = end_with (st loc) err loc pm) →
  inv locs pm → inv [] (end_each end_ locs pm).1 ∧ (end_each end_ locs pm).2 = None ∧
    pm_processes (end_each end_ locs pm).1 = pm_processes pm.
Proof.
  intros Hst He. revert pm. induction locs as [|loc locs IH]; intros pm Hi; [done|]. cbn [end_each]. rewrite He.
  destruct (inv_end (st loc) err loc locs pm (Hst loc) Hi) as [H1 H2]. pose proof (end_with_processes (st loc) err loc pm) as H3.
  destruct (end_with (st loc) err loc pm) as [pm1 e]. cbn [fst snd] in *. subst e.
  destruct (IH pm1 H1) as (H4 & H5 & H6). destruct (end_each end_ locs pm1) as [pm2 e']. cbn [fst snd] in *. by rewrite H6, H3.
Qed.

Lemma inv_all pm : inv [] pm → inv (map_to_list (pm_processes pm)).*2 (set_processes ∅ pm).
Proof.
  intros [Hm Hr Ha Hp Hd Hl]. split; cbn; [by intros ??; rewrite lookup_empty| |done..].
  intros loc mp H Hs. destruct (Hr _ _ H Hs) as [[Hin|[]%elem_of_nil] Hos]. split; [|done]. right.
  apply list_elem_of_fmap. exists (mp_ID mp, loc). split; [done|]. by apply elem_of_map_to_list.
Qed.

Lemma inv_weaken loc pm : inv [] pm → inv [loc] pm.
Proof.
  intros [Hm Hr Ha Hp Hd Hl]. split; [done| |done..]. intros loc' mp H Hs.
  destruct (Hr _ _ H Hs) as [[Hin|[]%elem_of_nil] Hos]. auto.
Qed.

Lemma inv_exit pid pm : pm_os pm !! pid = Some Alive → inv [] pm → inv [] (set_os pid Exited pm).
Proof.
  intros Hos [Hm Hr Ha Hp Hd Hl]. split; cbn; [done| | |done| |done].
  - intros loc mp H Hs. destruct (Hr _ _ H Hs) as [H1 H2]. split; [done|].
    destruct (decide (mp_pid mp = pid)) as [->|Hne]; [right; by rewrite lookup_insert_eq|by rewrite lookup_insert_ne].
  - intros p [[_ ?]|[_ H]]%lookup_insert_Some; [done|]. by apply Ha.
  - intros loc mp H. destruct (decide (mp_pid mp = pid)) as [->|Hne]; [by rewrite lookup_insert_eq|].
    rewrite lookup_insert_ne by done. by eapply Hd.
Qed.

Lemma inv_reap loc mp pm : pm_heap pm !! loc = Some mp → mp_Stopped mp = true → inv [] pm →
  inv [] (set_os (mp_pid mp) Reaped pm).
Proof.
  intros Hloc Hst [Hm Hr Ha Hp Hd Hl]. split; cbn; [done| | |done| |done].
  - intros loc' mp' H Hs. destruct (Hr _ _ H Hs) as [H1 H2]. split; [done|]. rewrite lookup_insert_ne; [done|].
    intros E. rewrite (Hp _ _ _ _ Hloc H E) in Hloc. congruence.
  - intros p [[_ ?]|[_ H]]%lookup_insert_Some; [done|]. by apply Ha.
  - intros loc' mp' H. destruct (decide (mp_pid mp' = mp_pid mp)) as [->|Hne]; [by rewrite lookup_insert_eq|].
    rewrite lookup_insert_ne by done. by eapply Hd.
Qed.

Lemma test_inv_exec l pm pm' : inv [] pm → exec l pm = Some pm' → inv [] pm'.
Proof.
  intros Hi He. destruct l as [now created pid cfg|graceful id|id|graceful loc|loc|graceful| |pid|loc]; simpl in He.
  - destruct (fresh_pid pid pm) eqn:Hf; [|done]. simplify_eq. by apply inv_Start.
  - simplify_eq. apply (inv_take_out _ (if graceful then Reaped else Exited) ErrSigterm); [by destruct graceful|intros; apply mp_Stop_end|done].
  - simplify_eq. by apply (inv_take_out _ Reaped ErrKill); [|intros; apply mp_Kill_end|].
  - simplify_eq. rewrite mp_Stop_end. apply inv_end; [by destruct graceful|]. by apply inv_weaken.
  - simplify_eq. rewrite mp_Kill_end. apply inv_end; [done|]. by apply inv_weaken.
  - simplify_eq. apply (inv_end_each _ (λ loc, if graceful loc then Reaped else Exited) ErrSigterm);
      [intros; by case_match|intros; apply mp_Stop_end|by apply inv_all].
  - simplify_eq. apply (inv_end_each _ (λ _, Reaped) ErrKill); [done|intros; apply mp_Kill_end|by apply inv_all].
  - destruct (pm_os pm !! pid) as [[]|] eqn:Hos; [|done..]. simplify_eq. by apply inv_exit.
  - destruct (pm_heap pm !! loc) as [mp|] eqn:Hloc; [|done]. destruct (mp_Stopped mp) eqn:Hs; [|done].
    destruct (pm_os pm !! mp_pid mp) as [[]|] eqn:Hos; [done| |done..]. simplify_eq. by apply (inv_reap loc).
Qed.

(** Stopping everything ends everything: whatever a test did with the manager and with the
    processes it was handed, StopAll returns no error and leaves no process alive, no
    entry in the manager and no log file open; and so does KillAll. *)
Theorem stop_all_ends_everything ls pm graceful :
  run_labels exec ls NewProcessManager = Some pm →
  Forall (λ r : ProcessManager * option pm_error,
    r.2 = None ∧ pm_processes r.1 = ∅ ∧ pm_logs r.1 = ∅ ∧ (∀ pid, pm_os r.1 !! pid ≠ Some Alive) ∧
    ∀ loc, IsRunning loc r.1 = false) [StopAll graceful pm; KillAll pm].
Proof.
  intros Hr. assert (inv [] pm) as Hi.
  { revert Hr. apply (run_labels_invariant exec (inv [])); [intros ???; apply test_inv_exec|apply test_inv_new]. }
  assert (∀ r : ProcessManager * option pm_error, inv [] r.1 ∧ r.2 = None ∧ pm_processes r.1 = ∅ →
    r.2 = None ∧ pm_processes r.1 = ∅ ∧ pm_logs r.1 = ∅ ∧ (∀ pid, pm_os r.1 !! pid ≠ Some Alive) ∧
    ∀ loc, IsRunning loc r.1 = false) as Hend.
  { intros [pm' e] (Hi' & He & Hp). cbn [fst snd] in *.
    assert (∀ loc mp, pm_heap pm' !! loc = Some mp → mp_Stopped mp = true) as Hall.
    { intros loc mp H. destruct (mp_Stopped mp) eqn:Hs; [done|].
      destruct (iv_running _ _ Hi' _ _ H Hs) as [[Hin|[]%elem_of_nil] _]. by rewrite Hp in Hin. }
    split_and!; [done..| | |].
    - apply set_eq. intros loc. split; [|set_solver]. intros (mp & H & Hs & _)%(iv_logs _ _ Hi').
      rewrite (Hall _ _ H) in Hs. done.
    - intros pid (loc & mp & H & _ & Hs)%(iv_alive _ _ Hi'). rewrite (Hall _ _ H) in Hs. done.
    - intros loc. unfold IsRunning. destruct (pm_heap pm' !! loc) as [mp|] eqn:H; [|done]. by rewrite (Hall _ _ H). }
  apply Forall_cons; split; [|apply Forall_singleton]; apply Hend.
  - apply (inv_end_each _ (λ loc, if graceful loc then Reaped else Exited) ErrSigterm);
      [intros; by case_match|intros; apply mp_Stop_end|by apply inv_all].
  - apply (inv_end_each _ (λ _, Reaped) ErrKill); [done|intros; apply mp_Kill_end|by apply inv_all].
Qed.

(** A process that crashed is reported as running, and its id as taken, until it is
    stopped: nothing waits for it before, and a child that was not waited for accepts
    signals. *)
Theorem crashed_process_is_running loc mp pm : inv [] pm →
  pm_heap pm !! loc = Some mp → mp_Stopped mp = false → pm_os pm !! mp_pid mp = Some Exited →
  IsRunning loc pm = true ∧ pm_processes pm !! mp_ID mp = Some loc.
Proof.
  intros Hi Hloc Hs Hos. unfold IsRunning, state_of. rewrite Hloc, Hs, Hos. split; [done|].
  by destruct (iv_running _ _ Hi _ _ Hloc Hs) as [[?|[]%elem_of_nil] _].
Qed.

Example restart_after_crash_fails :
  let cfg := mkProcessConfig "proxy" "" [] in
  (λ pm, (IsRunning 0 pm, (Start 2 true (Some 8) cfg pm).2)) <$>
    run_labels exec [LStart 1 true (Some 7) cfg; LExit 7] NewProcessManager =
  Some (true, inr (ErrAlreadyRunning "proxy")).
Proof. vm_compute. reflexivity. Qed.
