(* ===== verification/Postgres.v ===== *)
(** * pkg/drivers/postgres: the key-value driver on PostgreSQL

    The driver sends SQL text with arguments; the database is the class [PgDB], with a law
    for each statement that the driver sends.  [like] is the pattern matching of LIKE:
    [%] any characters, [_] one character, backslash the next one literally.  The order of
    a collation and the connection pool are the database's. *)

From Stdlib Require Import Ascii.
From stdpp Require Import pretty.
From S2P Require Import Prelude Backoff Memstore Slots Plugin.
Local Open Scope Z_scope.

(** ** The database *)

(** Continuation bytes of a UTF-8 character. *)
Definition is_continuation (a : Ascii.ascii) : bool :=
  let n := Ascii.N_of_ascii a in (128 <=? n)%N && (n <? 192)%N.

Fixpoint drop_continuation (s : string) : string :=
  match s with
  | String a s' => if is_continuation a then drop_continuation s' else s
  | EmptyString => ""
  end.

(** [s LIKE p].  Starting inside a character a pattern matches no more than it does at
    its start, so [%] may skip bytes. *)
Fixpoint like (p s : string) : bool :=
  match p with
  | EmptyString => bool_decide (s = ""%string)
  | String c p =>
      if bool_decide (c = "%"%char) then
        (fix any (s : string) : bool :=
           like p s || match s with String _ s => any s | EmptyString => false end) s
      else if bool_decide (c = "_"%char) then
        match s with String _ s => like p (drop_continuation s) | EmptyString => false end
      else if bool_decide (c = "\"%char) then
        match p, s with
        | String d p, String a s => bool_decide (a = d) && like p s
        | _, _ => false
        end
      else match s with String a s => bool_decide (a = c) && like p s | EmptyString => false end
  end.

Inductive pg_value := PgText (s : string) | PgBytes (b : option bytes) | PgInt (n : Z) | PgBool (b : bool).

Record pg_row := mkPgRow { pr_value : bytes; pr_created_at : Z; pr_updated_at : Z }.

(** The text of the statements. *)
Definition schema_text : string :=
  "CREATE TABLE IF NOT EXISTS keyvalue (namespace VARCHAR(255) NOT NULL, key VARCHAR(1024) NOT NULL, value BYTEA NOT NULL, created_at TIMESTAMP NOT NULL DEFAULT NOW(), updated_at TIMESTAMP NOT NULL DEFAULT NOW(), PRIMARY KEY (namespace, key)); CREATE INDEX IF NOT EXISTS idx_keyvalue_namespace ON keyvalue(namespace); CREATE INDEX IF NOT EXISTS idx_keyvalue_namespace_key_prefix ON keyvalue(namespace, key text_pattern_ops);".
Definition upsert_text : string :=
  "INSERT INTO keyvalue (namespace, key, value, updated_at) VALUES ('default', $1, $2, NOW()) ON CONFLICT (namespace, key) DO UPDATE SET value = EXCLUDED.value, updated_at = NOW()".
Definition select_text : string := "SELECT value FROM keyvalue WHERE namespace = 'default' AND key = $1".
Definition pg_delete_text : string := "DELETE FROM keyvalue WHERE namespace = 'default' AND key = $1".
Definition exists_text : string :=
  "SELECT EXISTS( SELECT 1 FROM keyvalue WHERE namespace = 'default' AND key = $1 )".
Definition scan_text (columns : string) (limit : Z) : string :=
  "SELECT " +:+ columns +:+ " FROM keyvalue WHERE namespace = 'default' AND key LIKE $1 ORDER BY key"
  +:+ (if 0 <? limit then " LIMIT $2" else "").

(** The rows of the namespace that the driver uses. *)
Abbreviation pg_table := (gmap (string * string) pg_row).
Definition default_rows (t : pg_table) : list (string * bytes) :=
  omap (λ r, if bool_decide (r.1.1 = "default"%string) then Some (r.1.2, pr_value r.2) else None) (map_to_list t).

(** [INSERT .. ON CONFLICT]. *)
Definition upsert (now : Z) (key : string) (v : bytes) (t : pg_table) : pg_table :=
  let k := ("default"%string, key) in
  <[k := mkPgRow v (from_option pr_created_at now (t !! k)) now]> t.

Definition limit_rows {A} (limit : Z) (l : list A) : list A :=
  if 0 <? limit then take (Z.to_nat limit) l else l.

(** The rows of a scan: those that match, in the order of the collation, cut to the
    limit. *)
Definition scan_result (le : relation string) (pattern : string) (limit : Z) (t : pg_table)
    (rows : list (string * bytes)) : Prop :=
  ∃ l, l ≡ₚ filter (λ r, like pattern r.1 = true) (default_rows t) ∧ StronglySorted le l.*1 ∧
    rows = limit_rows limit l.

(** A statement that fails may have taken effect; a query that fails gives [None]. *)
Class PgDB (S : Type) := {
  pg_table_of : S → pg_table;
  pg_collation : relation string;
  pg_collation_anti : AntiSymm (=) pg_collation;
  pg_Exec : Z → string → list pg_value → S → S * bool;
  pg_Query : string → list pg_value → S → S * option (list (list pg_value));
  pg_schema now s s' ok : pg_Exec now schema_text [] s = (s', ok) → pg_table_of s' = pg_table_of s;
  pg_upsert now key v s s' ok : pg_Exec now upsert_text [PgText key; PgBytes (Some v)] s = (s', ok) →
    pg_table_of s' = upsert now key v (pg_table_of s) ∨ ok = false ∧ pg_table_of s' = pg_table_of s;
  pg_upsert_null now key s s' ok : pg_Exec now upsert_text [PgText key; PgBytes None] s = (s', ok) →
    ok = false ∧ pg_table_of s' = pg_table_of s;
  pg_delete now key s s' ok : pg_Exec now pg_delete_text [PgText key] s = (s', ok) →
    pg_table_of s' = delete ("default"%string, key) (pg_table_of s) ∨
    ok = false ∧ pg_table_of s' = pg_table_of s;
  pg_select key s s' r : pg_Query select_text [PgText key] s = (s', r) →
    pg_table_of s' = pg_table_of s ∧
    (r = None ∨ r = Some (match pg_table_of s !! ("default"%string, key) with
                          | Some row => [[PgBytes (Some (pr_value row))]]
                          | None => []
                          end));
  pg_exists key s s' r : pg_Query exists_text [PgText key] s = (s', r) →
    pg_table_of s' = pg_table_of s ∧
    (r = None ∨ r = Some [[PgBool (bool_decide (is_Some (pg_table_of s !! ("default"%string, key))))]]);
  pg_scan columns pattern limit s s' r :
    pg_Query (scan_text columns limit) (PgText pattern :: if 0 <? limit then [PgInt limit] else []) s = (s', r) →
    pg_table_of s' = pg_table_of s ∧
    (columns = "key"%string → r = None ∨ ∃ rows,
       scan_result pg_collation pattern limit (pg_table_of s) rows ∧ r = Some ((λ kv, [PgText kv.1]) <$> rows)) ∧
    (columns = "key, value"%string → r = None ∨ ∃ rows,
       scan_result pg_collation pattern limit (pg_table_of s) rows ∧
       r = Some ((λ kv, [PgText kv.1; PgBytes (Some kv.2)]) <$> rows)) }.

(** ** postgres.go *)

Record PostgresConfig := mkPostgresConfig {
  pc_DatabaseURL : string;
  pc_PoolSize : Z;
  pc_VaultEnabled : bool;
  pc_VaultPath : string;
  pc_DefaultTimeout : Z }.

(** An entry of [config.Backend], by its dynamic type. *)
Inductive backend_value := BString (s : string) | BInt (n : Z) | BOther.

(** The connection string is looked up under two names, then the defaults are applied. *)
Definition find_url (backend : gmap string backend_value) (url : string) : string :=
  if bool_decide (url = ""%string) then
    match backend !! "connection_string"%string with
    | Some (BString s) => s
    | _ => match backend !! "database_url"%string with Some (BString s) => s | _ => url end
    end
  else url.

Definition pg_defaults (backend : gmap string backend_value) (c : PostgresConfig) : PostgresConfig :=
  mkPostgresConfig (find_url backend (pc_DatabaseURL c))
    (if pc_PoolSize c =? 0
     then match backend !! "pool_size"%string with Some (BInt n) => n | _ => 10 end
     else pc_PoolSize c)
    (pc_VaultEnabled c) (pc_VaultPath c)
    (if pc_DefaultTimeout c =? 0 then 30 else pc_DefaultTimeout c).

Inductive pg_error := ErrNoURL | ErrParseURL | ErrPool | ErrPing | ErrSchema | ErrStatement.

Section Driver.
Context {S : Type} `{!PgDB S}.

(** [pgp_closed]: the pool was closed. *)
Record PostgresPlugin := mkPostgresPlugin {
  pgp_pool : option S;
  pgp_closed : bool;
  pgp_config : option PostgresConfig }.

Definition Postgres_New : PostgresPlugin := mkPostgresPlugin None false None.

Definition createSchema (now : Z) (s : S) : S * bool := pg_Exec now schema_text [] s.

(** [parsed]: what [GetBackendConfig] filled in, its error being ignored.  The pool is
    kept from the first successful ping on, also when the schema fails. *)
Definition Postgres_Initialize (now : Z) (parsed : PostgresConfig) (backend : gmap string backend_value)
    (url_ok : string → bool) (connect : option S) (ping : bool) (p : PostgresPlugin)
    : PostgresPlugin * option pg_error :=
  let c := pg_defaults backend parsed in
  let p := mkPostgresPlugin (pgp_pool p) (pgp_closed p) (Some c) in
  if bool_decide (pc_DatabaseURL c = ""%string) then (p, Some ErrNoURL)
  else if negb (url_ok (pc_DatabaseURL c)) then (p, Some ErrParseURL)
  else match connect with
       | None => (p, Some ErrPool)
       | Some s =>
           if negb ping then (p, Some ErrPing)
           else let '(s, ok) := createSchema now s in
                (mkPostgresPlugin (Some s) false (Some c), if ok then None else Some ErrSchema)
       end.

Definition Postgres_Stop (p : PostgresPlugin) : PostgresPlugin :=
  match pgp_pool p with
  | Some s => mkPostgresPlugin (Some s) true (pgp_config p)
  | None => p
  end.

Definition Postgres_Drain (p : PostgresPlugin) : DrainMetrics := mkDrainMetrics 0 0.

(** 0.9 as a float64, and 90 percent of the connections, cut to an integer. *)
Definition nine_tenths : GoFloat.float64 := SpecFloat.S754_finite false 8106479329266893 (-53).
Definition near_capacity (max : Z) : Z :=
  GoFloat.f64_to_int64 0 (GoFloat.f64_mul (GoFloat.f64_of_int max) nine_tenths).

Definition Postgres_Health (ping : option string) (acquired max idle : Z) (p : PostgresPlugin) : HealthStatus :=
  match pgp_pool p with
  | None => mkHealthStatus HealthUnhealthy "database pool not initialized" ∅
  | Some _ =>
      match ping with
      | Some e => mkHealthStatus HealthUnhealthy ("database ping failed: " +:+ e) {[ "error"%string := e ]}
      | None =>
          let details : str_map :=
            {[ "acquired"%string := pretty acquired; "max"%string := pretty max; "idle"%string := pretty idle ]} in
          if near_capacity max <=? acquired
          then mkHealthStatus HealthDegraded "connection pool near capacity" details
          else mkHealthStatus HealthHealthy "database healthy" details
      end
  end.

(** The operations with a pool.  A nil slice is NULL; the TTL is ignored. *)
Definition pool_Set (now : Z) (key : string) (value : option bytes) (ttlSeconds : Z) (s : S) : S * bool :=
  pg_Exec now upsert_text [PgText key; PgBytes value] s.

(** [QueryRow(..).Scan]: the first row; [ErrNoRows] is no error. *)
Definition pool_Get (key : string) (s : S) : S * option (option bytes) :=
  let '(s, r) := pg_Query select_text [PgText key] s in
  (s, match r with
      | None => None
      | Some [] => Some None
      | Some ((PgBytes (Some v) :: _) :: _) => Some (Some v)
      | Some _ => None
      end).

Definition pool_Delete (now : Z) (key : string) (s : S) : S * bool := pg_Exec now pg_delete_text [PgText key] s.

Definition pool_Exists (key : string) (s : S) : S * option bool :=
  let '(s, r) := pg_Query exists_text [PgText key] s in
  (s, match r with Some ((PgBool b :: _) :: _) => Some b | _ => None end).

Definition scan_args (prefix : string) (limit : Z) : list pg_value :=
  PgText (prefix +:+ "%") :: if 0 <? limit then [PgInt limit] else [].

(** The loop over the rows; [None]: a row cannot be read. *)
Fixpoint read_keys (rows : list (list pg_value)) : option (list string) :=
  match rows with
  | [] => Some []
  | [PgText key] :: rows => (cons key) <$> read_keys rows
  | _ => None
  end.

Definition pool_Scan (prefix : string) (limit : Z) (s : S) : S * option (list string) :=
  let '(s, r) := pg_Query (scan_text "key" limit) (scan_args prefix limit) s in
  (s, match r with Some rows => read_keys rows | None => None end).

Fixpoint read_pairs (rows : list (list pg_value)) (results : gmap string bytes) : option (gmap string bytes) :=
  match rows with
  | [] => Some results
  | [PgText key; PgBytes (Some value)] :: rows => read_pairs rows (<[key := value]> results)
  | _ => None
  end.

Definition pool_ScanWithValues (prefix : string) (limit : Z) (s : S) : S * option (gmap string bytes) :=
  let '(s, r) := pg_Query (scan_text "key, value" limit) (scan_args prefix limit) s in
  (s, match r with Some rows => read_pairs rows ∅ | None => None end).

(** Without a pool the driver panics, with a closed one every operation is an error. *)
Definition with_pool {A} (op : S → S * A) (closed : A) (p : PostgresPlugin) : PostgresPlugin * result unit A :=
  match pgp_pool p with
  | None => (p, Panic)
  | Some s =>
      if pgp_closed p then (p, Ok closed)
      else let '(s, a) := op s in (mkPostgresPlugin (Some s) false (pgp_config p), Ok a)
  end.
End Driver.
Arguments PostgresPlugin : clear implicits.
