(* ===== verification/PostgresSpec.v ===== *)
(** * Correctness of the PostgreSQL driver

    On every database with the laws: scans by prefix, the agreement of the two scans, and
    reading back what was stored.  A prefix with a character that LIKE interprets is
    another matter, and so is a time to live, as the runs at the end show. *)

From Stdlib Require Import Ascii.
From stdpp Require Import pretty.
From S2P Require Import Prelude Backoff Memstore Slots Plugin Postgres.
Local Open Scope Z_scope.

(** ** LIKE on a prefix *)

(** No character of [s] has a meaning in a pattern. *)
Fixpoint plain (s : string) : bool :=
  match s with
  | EmptyString => true
  | String c s => negb (bool_decide (c ∈ ["%"; "_"; "\"]%char)) && plain s
  end.

Lemma like_any s : like "%" s = true.
Proof. induction s as [|c s IH]; [done|]. simpl in *. by rewrite IH, ?orb_true_r. Qed.

(** On a plain prefix the pattern of a scan means what the scan says. *)
Lemma like_prefix p s : plain p = true → like (p +:+ "%") s = String.prefix p s.
Proof.
  revert s. induction p as [|c p IH]; intros s; simpl.
  - intros _. rewrite like_any. by destruct s.
  - rewrite andb_true_iff, negb_true_iff, bool_decide_eq_false. intros [Hc Hp].
    rewrite !bool_decide_eq_false_2 by set_solver. destruct s as [|a s]; [done|]. rewrite IH by done.
    case_bool_decide as Ha; simpl; destruct (Ascii.ascii_dec c a); congruence.
Qed.

(** ** The rows of the table *)

Lemma default_rows_spec t k v :
  (k, v) ∈ default_rows t ↔ pr_value <$> t !! ("default"%string, k) = Some v.
Proof.
  unfold default_rows. rewrite list_elem_of_omap, fmap_Some. split.
  - intros ([[ns k'] row] & Hin%elem_of_map_to_list & E). simpl in E. case_bool_decide; [|done].
    simplify_eq. by exists row.
  - intros (row & Hrow & ->). exists ("default"%string, k, row). by rewrite elem_of_map_to_list.
Qed.

Lemma default_rows_NoDup t : NoDup (default_rows t).*1.
Proof.
  unfold default_rows. pose proof (NoDup_fst_map_to_list t) as Hnd.
  induction (map_to_list t) as [|[[ns k] row] l IH]; [constructor|].
  rewrite fmap_cons in Hnd. apply NoDup_cons in Hnd as [Hn Hnd]. simpl. case_bool_decide as E; simpl; [|by apply IH].
  simpl in E. subst ns. constructor; [|by apply IH]. rewrite list_elem_of_fmap. intros ([k' v] & -> & Hin).
  apply list_elem_of_omap in Hin as ([[ns' k''] row'] & Hin & E). simpl in E. case_bool_decide; [|done]. simplify_eq.
  apply Hn. rewrite list_elem_of_fmap. eexists. split; [|exact Hin]. by subst.
Qed.

Lemma limit_rows_fmap {A B} (f : A → B) n (l : list A) : f <$> limit_rows n l = limit_rows n (f <$> l).
Proof. unfold limit_rows. destruct (0 <? n); [by rewrite fmap_take|done]. Qed.

Lemma limit_rows_sublist {A} n (l : list A) : limit_rows n l `sublist_of` l.
Proof. unfold limit_rows. destruct (0 <? n); [apply sublist_take|done]. Qed.

Lemma read_keys_rows (rows : list (string * bytes)) : read_keys ((λ kv, [PgText kv.1]) <$> rows) = Some rows.*1.
Proof. induction rows as [|[k v] rows IH]; [done|]. csimpl. by rewrite IH. Qed.

Lemma read_pairs_rows (rows : list (string * bytes)) m :
  NoDup rows.*1 →
  read_pairs ((λ kv, [PgText kv.1; PgBytes (Some kv.2)]) <$> rows) m = Some (list_to_map rows ∪ m).
Proof.
  revert m. induction rows as [|[k v] rows IH]; intros m Hnd; csimpl; [by rewrite (left_id ∅ (∪))|].
  rewrite fmap_cons in Hnd. apply NoDup_cons in Hnd as [Hk Hnd]. rewrite IH by done. f_equal.
  rewrite <- insert_union_l, insert_union_r; [done|]. by apply not_elem_of_list_to_map_1.
Qed.

Section Spec.
Context {S : Type} `{!PgDB S}.

(** The value stored under a key. *)
Definition pg_at (s : S) (k : string) : option bytes := pr_value <$> pg_table_of s !! ("default"%string, k).

(** The keys that match a pattern, in the order of the collation. *)
Definition listing (pattern : string) (s : S) (all : list (string * bytes)) : Prop :=
  NoDup all.*1 ∧ StronglySorted pg_collation all.*1 ∧
  ∀ k v, (k, v) ∈ all ↔ pg_at s k = Some v ∧ like pattern k = true.

Lemma scan_listing pattern limit s rows :
  scan_result pg_collation pattern limit (pg_table_of s) rows →
  ∃ all, listing pattern s all ∧ rows = limit_rows limit all.
Proof.
  intros (l & Hl & Hs & ->). exists l. split; [|done]. split_and!; [|done|].
  - rewrite Hl. eapply sublist_NoDup; [apply default_rows_NoDup|apply fmap_sublist, sublist_filter].
  - intros k v. rewrite Hl, list_elem_of_filter, default_rows_spec. simpl. unfold pg_at. tauto.
Qed.

Lemma listing_unique pattern s all all' : listing pattern s all → listing pattern s all' → all = all'.
Proof.
  intros (Hnd & Hs & Hall) (Hnd' & Hs' & Hall').
  assert (all ≡ₚ all') as Hp.
  { apply NoDup_Permutation; [by eapply NoDup_fmap_1..|]. intros [k v]. by rewrite Hall, Hall'. }
  assert (all.*1 = all'.*1) as E.
  { pose proof pg_collation_anti. eapply (StronglySorted_unique pg_collation); [done..|]. by rewrite Hp. }
  clear Hs Hs'. assert (∀ k v v', (k, v) ∈ all → (k, v') ∈ all' → v = v') as Hv.
  { intros k v v' H1%Hall H2%Hall'. destruct H1 as [H1 _], H2 as [H2 _]. congruence. }
  clear Hp Hall Hall' Hnd Hnd'. revert all' E Hv. induction all as [|[k v] l IH]; intros [|[k' v'] l'] E Hv; try done.
  simpl in E. injection E as <- E. f_equal; [f_equal; apply (Hv k); constructor|].
  apply IH; [done|]. intros k1 v1 v1' H1 H2. by apply (Hv k1); constructor.
Qed.

Lemma pool_Scan_inv prefix limit s s' keys :
  pool_Scan prefix limit s = (s', Some keys) →
  pg_table_of s' = pg_table_of s ∧ ∃ all, listing (prefix +:+ "%") s all ∧ keys = limit_rows limit all.*1.
Proof.
  unfold pool_Scan, scan_args. destruct (pg_Query _ _ s) as [s1 r] eqn:E. intros [= <- Hr].
  apply pg_scan in E as (Et & Hk & _). split; [done|].
  destruct (Hk eq_refl) as [->|(rows & (all & Hl & ->)%scan_listing & ->)]; [done|].
  rewrite read_keys_rows in Hr. injection Hr as <-. exists all. by rewrite limit_rows_fmap.
Qed.

Lemma pool_ScanWithValues_inv prefix limit s s' m :
  pool_ScanWithValues prefix limit s = (s', Some m) →
  pg_table_of s' = pg_table_of s ∧
  ∃ all, listing (prefix +:+ "%") s all ∧ m = list_to_map (limit_rows limit all).
Proof.
  unfold pool_ScanWithValues, scan_args. destruct (pg_Query _ _ s) as [s1 r] eqn:E. intros [= <- Hr].
  apply pg_scan in E as (Et & _ & Hk). split; [done|].
  destruct (Hk eq_refl) as [->|(rows & (all & Hl & ->)%scan_listing & ->)]; [done|].
  rewrite read_pairs_rows, (right_id ∅ (∪)) in Hr; [injection Hr as <-; by exists all|].
  rewrite limit_rows_fmap. eapply sublist_NoDup; [apply Hl|apply limit_rows_sublist].
Qed.

(** A scan with a prefix in which LIKE interprets no character lists exactly the keys
    that start with it, each once, in the order of the collation, and with a positive
    limit the first of them; the other scan gives exactly the values of those keys. *)
Theorem postgres_scan_correct prefix limit s s1 s2 keys m :
  plain prefix = true → pool_Scan prefix limit s = (s1, Some keys) →
  pool_ScanWithValues prefix limit s1 = (s2, Some m) →
  (∃ all, keys = limit_rows limit all ∧ NoDup all ∧ StronglySorted pg_collation all ∧
     ∀ k, k ∈ all ↔ is_Some (pg_at s k) ∧ String.prefix prefix k = true) ∧
  ∀ k, m !! k = if bool_decide (k ∈ keys) then pg_at s k else None.
Proof.
  intros Hp (E1 & all & Hl & ->)%pool_Scan_inv (_ & all' & Hl' & ->)%pool_ScanWithValues_inv.
  assert (listing (prefix +:+ "%") s all') as Hl2 by (unfold listing, pg_at in *; by rewrite E1 in Hl').
  rewrite (listing_unique _ _ _ _ Hl2 Hl). clear all' Hl' Hl2. destruct Hl as (Hnd & Hs & Hall). split.
  - exists all.*1. split_and!; [done..|]. intros k. rewrite list_elem_of_fmap. split.
    + intros ([k' v] & -> & [Hv Hk]%Hall). simpl in *. rewrite Hv, <- like_prefix by done. by split; [eexists|].
    + intros [[v Hv] Hk]. exists (k, v). split; [done|]. apply Hall. by rewrite like_prefix.
  - intros k. rewrite <- limit_rows_fmap. pose proof (limit_rows_sublist limit all) as Hsub.
    assert (NoDup (limit_rows limit all).*1) as Hnd'.
    { eapply sublist_NoDup; [exact Hnd|]. by apply fmap_sublist. }
    case_bool_decide as Hk.
    + apply list_elem_of_fmap in Hk as ([k' v] & -> & Hk). simpl.
      rewrite (elem_of_list_to_map_1 _ k' v Hnd' Hk). symmetry. by eapply Hall, elem_of_sublist.
    + by apply not_elem_of_list_to_map_1.
Qed.

(** Reading and writing, on the stored values. *)
Lemma pool_Set_at now k v ttl s s' :
  pool_Set now k (Some v) ttl s = (s', true) →
  ∀ k', pg_at s' k' = if bool_decide (k' = k) then Some v else pg_at s k'.
Proof.
  intros [E|[? _]]%pg_upsert k'; [|done]. unfold pg_at, upsert in *. rewrite E. case_bool_decide as Hk.
  - subst. by rewrite lookup_insert_eq.
  - rewrite lookup_insert_ne; [done|]. congruence.
Qed.

Lemma pool_Get_at k s s' r : pool_Get k s = (s', Some r) → r = pg_at s k ∧ ∀ k', pg_at s' k' = pg_at s k'.
Proof.
  unfold pool_Get, pg_at. destruct (pg_Query _ _ s) as [s1 a] eqn:E. apply pg_select in E as [E Ha].
  intros [= <- Hr]. rewrite E. split; [|done]. destruct Ha as [->| ->]; [done|].
  destruct (pg_table_of s !! _); simpl in *; congruence.
Qed.

Lemma pool_Delete_at now k s s' :
  pool_Delete now k s = (s', true) → ∀ k', pg_at s' k' = if bool_decide (k' = k) then None else pg_at s k'.
Proof.
  intros [E|[? _]]%pg_delete k'; [|done]. unfold pg_at in *. rewrite E. case_bool_decide as Hk.
  - subst. by rewrite lookup_delete_eq.
  - rewrite lookup_delete_ne; [done|]. congruence.
Qed.

(** A value that was set is read back, whatever its time to live, until it is set again
    or deleted; other keys keep their values; and a nil value is never stored. *)
Theorem postgres_set_get now k v ttl s s1 s2 r :
  pool_Set now k (Some v) ttl s = (s1, true) → pool_Get k s1 = (s2, Some r) →
  r = Some v ∧ (∀ k', k' ≠ k → pg_at s2 k' = pg_at s k') ∧
  (∀ now' s3, pool_Delete now' k s2 = (s3, true) → pg_at s3 k = None ∧ ∀ k', k' ≠ k → pg_at s3 k' = pg_at s k') ∧
  (∀ now' ttl' s3 ok, pool_Set now' k None ttl' s2 = (s3, ok) → ok = false ∧ pg_at s3 k = Some v).
Proof.
  intros Hs [-> Hg]%pool_Get_at. pose proof (pool_Set_at _ _ _ _ _ _ Hs) as Hset.
  assert (pg_at s1 k = Some v) as Hk by (rewrite Hset; by rewrite bool_decide_eq_true_2).
  assert (∀ k', k' ≠ k → pg_at s2 k' = pg_at s k') as Ho
    by (intros k' Hne; by rewrite Hg, Hset, bool_decide_eq_false_2).
  split_and!; [done|done| |].
  - intros now' s3 Hd. split.
    + rewrite (pool_Delete_at _ _ _ _ Hd). by rewrite bool_decide_eq_true_2.
    + intros k' Hne. rewrite (pool_Delete_at _ _ _ _ Hd), bool_decide_eq_false_2; auto.
  - intros now' ttl' s3 ok [-> E]%pg_upsert_null. split; [done|]. unfold pg_at. rewrite E. fold (pg_at s2 k). by rewrite Hg.
Qed.
End Spec.

(** ** A database to run the driver on *)

Module PostgresDemo.
Local Open Scope string_scope.
Local Open Scope Z_scope.

Definition engine : Type := pg_table.

Definition engine_Exec (now : Z) (text : string) (args : list pg_value) (t : engine) : engine * bool :=
  if bool_decide (text = upsert_text) then
    match args with
    | [PgText k; PgBytes (Some v)] => (upsert now k v t, true)
    | _ => (t, false)
    end
  else if bool_decide (text = pg_delete_text) then
    match args with [PgText k] => (delete ("default", k) t, true) | _ => (t, false) end
  else (t, bool_decide (text = schema_text)).

Definition sorted_rows (pattern : string) (t : engine) : list (string * bytes) :=
  merge_sort (λ a b, String.le a.1 b.1) (filter (λ r, like pattern r.1 = true) (default_rows t)).

Definition scan_row (columns : string) (kv : string * bytes) : list pg_value :=
  if bool_decide (columns = "key") then [PgText kv.1] else [PgText kv.1; PgBytes (Some kv.2)].

(** The pattern and the limit of a scan, and the columns its text asks for. *)
Definition engine_scan (text : string) (args : list pg_value) (t : engine) : option (list (list pg_value)) :=
  '(pattern, limit) ← match args with
                      | [PgText p] => Some (p, 0)
                      | [PgText p; PgInt n] => Some (p, n)
                      | _ => None
                      end;
  columns ← head (filter (λ c, text = scan_text c limit) ["key"; "key, value"]);
  Some (scan_row columns <$> limit_rows limit (sorted_rows pattern t)).

Definition engine_Query (text : string) (args : list pg_value) (t : engine)
    : engine * option (list (list pg_value)) :=
  (t, if bool_decide (text = select_text) then
        match args with
        | [PgText k] => Some (match t !! ("default", k) with Some row => [[PgBytes (Some (pr_value row))]] | None => [] end)
        | _ => None
        end
      else if bool_decide (text = exists_text) then
        match args with [PgText k] => Some [[PgBool (bool_decide (is_Some (t !! ("default", k))))]] | _ => None end
      else engine_scan text args t).

Lemma merge_sort_fst (l : list (string * bytes)) :
  StronglySorted String.le (merge_sort (λ a b, String.le a.1 b.1) l).*1.
Proof.
  assert (Total (λ a b : string * bytes, String.le a.1 b.1)) as Ht by (intros a b; apply (total String.le)).
  assert (Transitive (λ a b : string * bytes, String.le a.1 b.1)) as Htr by (intros a b c; apply transitivity).
  pose proof (StronglySorted_merge_sort (λ a b : string * bytes, String.le a.1 b.1) l) as H.
  induction H as [|x xs _ IH Hx]; [constructor|]. csimpl. constructor; [done|]. by rewrite Forall_fmap.
Qed.

(** The text of a scan is read as what it is. *)
Lemma engine_text columns limit :
  columns = "key" ∨ columns = "key, value" →
  bool_decide (scan_text columns limit = select_text) = false ∧
  bool_decide (scan_text columns limit = exists_text) = false ∧
  head (filter (λ c, scan_text columns limit = scan_text c limit) ["key"; "key, value"]) = Some columns.
Proof.
  intros [-> | ->]; unfold scan_text; destruct (0 <? limit); split_and!; vm_compute; reflexivity.
Qed.

Lemma engine_Query_scan columns pattern limit t :
  columns = "key" ∨ columns = "key, value" →
  ∃ rows, scan_result String.le pattern limit t rows ∧
    (engine_Query (scan_text columns limit) (PgText pattern :: if 0 <? limit then [PgInt limit] else []) t).2
    = Some (scan_row columns <$> rows).
Proof.
  intros Hc. exists (limit_rows limit (sorted_rows pattern t)). split.
  { exists (sorted_rows pattern t). split_and!; [apply merge_sort_Permutation|apply merge_sort_fst|done]. }
  destruct (engine_text columns limit Hc) as (E1 & E2 & E3). unfold engine_Query, engine_scan.
  rewrite E1, E2. cbv beta iota. simpl snd. destruct (0 <? limit) eqn:El; simpl mbind.
  - by rewrite E3.
  - assert (scan_text columns limit = scan_text columns 0) as Et by (unfold scan_text; by rewrite El).
    rewrite Et. assert (limit_rows limit (sorted_rows pattern t) = limit_rows 0 (sorted_rows pattern t)) as ->
      by (unfold limit_rows; by rewrite El).
    destruct (engine_text columns 0 Hc) as (_ & _ & E0). by rewrite E0.
Qed.

#[refine] Instance engine_db : PgDB engine := {|
  pg_table_of t := t;
  pg_collation := String.le;
  pg_Exec := engine_Exec;
  pg_Query := engine_Query |}.
Proof.
  - by intros now s s' ok [= <- _].
  - intros now key v s s' ok [= <- _]. by left.
  - by intros now key s s' ok [= <- <-].
  - intros now key s s' ok [= <- _]. by left.
  - intros key s s' r [= <- <-]. by auto.
  - intros key s s' r [= <- <-]. by auto.
  - intros columns pattern limit s s' r E. unfold engine_Query in E at 1. injection E as <- Hr.
    split; [done|]. split; intros ->; right.
    + destruct (engine_Query_scan "key" pattern limit s) as (rows & Hrows & E); [by left|].
      exists rows. split; [done|]. rewrite <- Hr. exact E.
    + destruct (engine_Query_scan "key, value" pattern limit s) as (rows & Hrows & E); [by right|].
      exists rows. split; [done|]. rewrite <- Hr. exact E.
Defined.

Definition isSome {A} (o : option A) : bool := match o with Some _ => true | None => false end.

(** Reads leave the tables alone. *)
Lemma engine_reads prefix limit key t :
  pool_Scan prefix limit t = (t, (pool_Scan prefix limit t).2) ∧
  pool_ScanWithValues prefix limit t = (t, (pool_ScanWithValues prefix limit t).2) ∧
  pool_Get key t = (t, (pool_Get key t).2).
Proof. done. Qed.

Definition stored (keys : list string) : engine :=
  foldr (λ k t, (pool_Set 1 k (Some (string_bytes k)) 0 t).1) ∅ keys.

Definition t1 : engine := stored ["user:2"; "user:1"; "userX"; "order:1"].

Lemma postgres_scan_correct_witness :
  ∃ m, pool_Scan "user:" 5 t1 = (t1, Some ["user:1"; "user:2"]) ∧
    pool_ScanWithValues "user:" 5 t1 = (t1, Some m) ∧
    m !! "user:1" = Some (string_bytes "user:1") ∧ m !! "userX" = None.
Proof.
  destruct (engine_reads "user:" 5 "" t1) as (E1 & E2 & _).
  assert ((pool_Scan "user:" 5 t1).2 = Some ["user:1"; "user:2"]) as R1 by (vm_compute; reflexivity).
  assert (isSome (pool_ScanWithValues "user:" 5 t1).2 = true) as R2 by (vm_compute; reflexivity).
  destruct (pool_ScanWithValues "user:" 5 t1).2 as [m|]; [|discriminate].
  rewrite R1 in E1.
  destruct (postgres_scan_correct "user:" 5 t1 t1 t1 ["user:1"; "user:2"] m eq_refl E1 E2) as [_ Hm].
  exists m. split; [exact E1|]. split; [exact E2|]. rewrite !Hm. split; vm_compute; reflexivity.
Defined.

Definition t2 : engine := upsert 1 "k" [7] t1.

Lemma postgres_set_get_witness :
  pool_Set 1 "k" (Some [7]) 1 t1 = (t2, true) ∧ pool_Get "k" t2 = (t2, Some (Some [7])) ∧
  pg_at t2 "userX" = pg_at t1 "userX".
Proof.
  assert (pool_Set 1 "k" (Some [7]) 1 t1 = (t2, true)) as E1 by reflexivity.
  destruct (engine_reads "" 0 "k" t2) as (_ & _ & E2).
  assert ((pool_Get "k" t2).2 = Some (Some [7])) as R2 by (vm_compute; reflexivity).
  rewrite R2 in E2. split; [exact E1|]. split; [exact E2|].
  apply (postgres_set_get 1 "k" [7] 1 _ _ _ _ E1 E2). discriminate.
Defined.

(** An underscore in the prefix stands for any character. *)
Example underscore_matches_others :
  (pool_Scan "user_" 0 t1).2 = Some ["user:1"; "user:2"; "userX"].
Proof. vm_compute. reflexivity. Qed.

(** An empty pool of one connection is near its capacity. *)
Example pool_of_one_is_near_capacity :
  hs_Status (Postgres_Health None 0 1 1 (mkPostgresPlugin (Some t1) false None)) = HealthDegraded ∧
  hs_Status (Postgres_Health None 8 10 2 (mkPostgresPlugin (Some t1) false None)) = HealthHealthy ∧
  hs_Status (Postgres_Health None 9 10 1 (mkPostgresPlugin (Some t1) false None)) = HealthDegraded.
Proof. vm_compute. split_and!; reflexivity. Qed.

(** Without a pool an operation panics. *)
Example uninitialized_postgres_panics :
  (with_pool (pool_Get "k") None (Postgres_New (S := engine))).2 = Panic.
Proof. reflexivity. Qed.

(** The schema of an existing database keeps its rows. *)
Example initialize_keeps_rows (t : engine) :
  let c := mkPostgresConfig "" 0 false "" 0 in
  let '(p, e) := Postgres_Initialize 1 c {[ "database_url" := BString "postgres://db" ]} (λ _, true) (Some t) true
                   (Postgres_New (S := engine)) in
  e = None ∧ pgp_pool p = Some t ∧ pc_PoolSize <$> pgp_config p = Some 10.
Proof. vm_compute. split_and!; reflexivity. Qed.
End PostgresDemo.
