(* ===== verification/S3.v ===== *)
(** * pkg/drivers/s3: the object store driver

    The storage service behind the SDK is the class [S3Server]: objects with their tags,
    as its calls read and change them.  The driver is an instance of [ObjectStore], the
    interface of the claim checks, on a service that answers its reads. *)

From stdpp Require Import pretty.
From S2P Require Import Prelude Memstore Slots Plugin.
Local Open Scope Z_scope.

(** ** The service *)

Definition tag : Type := string * string.

(** What [HeadObject] answers; the fields of the answer are optional. *)
Record head_output := mkHeadOutput {
  ho_ContentLength : option Z;
  ho_ContentType : option string;
  ho_LastModified : option Z;
  ho_ETag : option string }.

Inductive s3_error := S3NoSuchKey | S3NotFound | S3Other.

(** A call that fails may have taken effect.  Putting an object drops the tags of the one
    before; deleting what does not exist succeeds. *)
Class S3Server (S : Type) := {
  s3_objects : S → gmap (string * string) (bytes * list tag);
  s3_PutObject : string → string → bytes → S → S * bool;
  s3_GetObject : string → string → S → bytes + s3_error;
  s3_DeleteObject : string → string → S → S * bool;
  s3_PutObjectTagging : string → string → list tag → S → S * bool;
  s3_HeadObject : string → string → S → head_output + s3_error;
  s3_Put_spec b k data s s' ok : s3_PutObject b k data s = (s', ok) →
    s3_objects s' = <[(b, k) := (data, [])]> (s3_objects s) ∨ ok = false ∧ s3_objects s' = s3_objects s;
  s3_Get_spec b k s :
    match s3_GetObject b k s with
    | inl data => fst <$> s3_objects s !! (b, k) = Some data
    | inr S3NoSuchKey => s3_objects s !! (b, k) = None
    | inr _ => True
    end;
  s3_Delete_spec b k s s' ok : s3_DeleteObject b k s = (s', ok) →
    s3_objects s' = delete (b, k) (s3_objects s) ∨ ok = false ∧ s3_objects s' = s3_objects s;
  s3_Tagging_spec b k tags s s' ok : s3_PutObjectTagging b k tags s = (s', ok) →
    s3_objects s' = alter (λ o, (o.1, tags)) (b, k) (s3_objects s) ∨ ok = false ∧ s3_objects s' = s3_objects s;
  s3_Head_spec b k s :
    match s3_HeadObject b k s with
    | inl h => ∃ o, s3_objects s !! (b, k) = Some o ∧ ho_ContentLength h = Some (Z.of_nat (length o.1))
    | inr S3NotFound => s3_objects s !! (b, k) = None
    | inr _ => True
    end }.

(** A service whose reads are answered. *)
Class S3Answers (S : Type) `{!S3Server S} := {
  s3_Get_answers b k s : s3_GetObject b k s ≠ inr S3Other ∧ s3_GetObject b k s ≠ inr S3NotFound }.

(** ** s3.go *)

Record S3Config := mkS3Config {
  sc_Endpoint : string;
  sc_Region : string;
  sc_AccessKeyID : string;
  sc_SecretAccessKey : string;
  sc_UseSSL : bool;
  sc_ForcePathStyle : bool }.

Definition s3_defaults (c : S3Config) : S3Config :=
  mkS3Config (if bool_decide (sc_Endpoint c = ""%string) then "s3.amazonaws.com" else sc_Endpoint c)
    (if bool_decide (sc_Region c = ""%string) then "us-east-1" else sc_Region c)
    (sc_AccessKeyID c) (sc_SecretAccessKey c) (sc_UseSSL c) (sc_ForcePathStyle c).

(** The options of the client: static credentials, the base endpoint, path style. *)
Record client_options := mkClientOptions {
  co_Credentials : option (string * string);
  co_Region : string;
  co_BaseEndpoint : option string;
  co_UsePathStyle : bool }.

Definition client_options_of (c : S3Config) : client_options :=
  mkClientOptions
    (if bool_decide (sc_AccessKeyID c ≠ ""%string ∧ sc_SecretAccessKey c ≠ ""%string)
     then Some (sc_AccessKeyID c, sc_SecretAccessKey c) else None)
    (sc_Region c)
    (if bool_decide (sc_Endpoint c ≠ ""%string ∧ sc_Endpoint c ≠ "s3.amazonaws.com"%string)
     then Some ((if sc_UseSSL c then "https" else "http") +:+ "://" +:+ sc_Endpoint c) else None)
    (sc_ForcePathStyle c).

Record ObjectMetadata := mkObjectMetadata {
  om_Size : Z;
  om_ContentType : string;
  om_LastModified : Z;
  om_ETag : string }.

Section Driver.
Context {S : Type} `{!S3Server S}.

(** [sd_stopped]: [stopCh] is closed. *)
Record S3Driver := mkS3Driver {
  sd_client : option S;
  sd_config : option S3Config;
  sd_stopped : bool }.

Definition S3_New : S3Driver := mkS3Driver None None false.

(** [parsed]: the configuration, when it can be read; [connect]: the client for the
    options, when the SDK can load its own configuration. *)
Definition S3_Initialize (parsed : option S3Config) (connect : client_options → option S) (d : S3Driver)
    : S3Driver * option string :=
  match parsed with
  | None => (d, Some "failed to parse backend config"%string)
  | Some c =>
      let c := s3_defaults c in
      match connect (client_options_of c) with
      | None => (mkS3Driver (sd_client d) (Some c) (sd_stopped d), Some "failed to load AWS config"%string)
      | Some s => (mkS3Driver (Some s) (Some c) (sd_stopped d), None)
      end
  end.

(** [Start] after its context ended: the channel is closed, which works once. *)
Definition S3_Start (d : S3Driver) : result unit S3Driver :=
  if sd_stopped d then Panic else Ok (mkS3Driver (sd_client d) (sd_config d) true).

Definition S3_Drain (d : S3Driver) : DrainMetrics := mkDrainMetrics 0 0.

Definition S3_Health (list_buckets : option string) (d : S3Driver) : result unit HealthStatus :=
  match sd_client d, sd_config d with
  | Some _, Some c =>
      let details : str_map := {[ "endpoint"%string := sc_Endpoint c; "region"%string := sc_Region c ]} in
      Ok match list_buckets with
         | Some e => mkHealthStatus HealthUnhealthy ("failed to connect to S3: " +:+ e) details
         | None => mkHealthStatus HealthHealthy "connected to S3" details
         end
  | _, _ => Panic
  end.

Definition S3_Put (bucket key : string) (data : bytes) (s : S) : S * bool := s3_PutObject bucket key data s.

(** [None] is an error. *)
Definition S3_Get (bucket key : string) (s : S) : option bytes :=
  match s3_GetObject bucket key s with inl data => Some data | inr _ => None end.

Definition S3_Delete (bucket key : string) (s : S) : S * bool := s3_DeleteObject bucket key s.

(** [format]: RFC 3339.  The object is tagged, nothing more. *)
Definition S3_SetTTL (format : Z → string) (now : Z) (bucket key : string) (ttlSeconds : Z) (s : S) : S * bool :=
  let expiresAt := now + wrap64 (ttlSeconds * Second) in
  s3_PutObjectTagging bucket key
    [("prism-ttl"%string, format expiresAt); ("prism-ttl-seconds"%string, pretty ttlSeconds)] s.

(** [None] is an error. *)
Definition S3_Exists (bucket key : string) (s : S) : option bool :=
  match s3_HeadObject bucket key s with
  | inl _ => Some true
  | inr S3NotFound => Some false
  | inr _ => None
  end.

Definition S3_GetMetadata (bucket key : string) (s : S) : option ObjectMetadata :=
  match s3_HeadObject bucket key s with
  | inl h =>
      Some (mkObjectMetadata (default 0 (ho_ContentLength h)) (default ""%string (ho_ContentType h))
        (default 0 (ho_LastModified h)) (default ""%string (ho_ETag h)))
  | inr _ => None
  end.

(** ** What readers see *)

Definition s3_at (s : S) (b k : string) : option bytes := fst <$> s3_objects s !! (b, k).

Lemma S3_Get_at b k s data : S3_Get b k s = Some data → s3_at s b k = Some data.
Proof. unfold S3_Get. pose proof (s3_Get_spec b k s). by destruct (s3_GetObject b k s); intros [= <-]. Qed.

Lemma S3_Exists_at b k s e : S3_Exists b k s = Some e → e = bool_decide (is_Some (s3_at s b k)).
Proof.
  unfold S3_Exists, s3_at. pose proof (s3_Head_spec b k s) as H. destruct (s3_HeadObject b k s) as [h|[]]; try done.
  - destruct H as (o & -> & _). by intros [= <-].
  - rewrite H. by intros [= <-].
Qed.

Lemma S3_Put_at b k data s s' b' k' :
  S3_Put b k data s = (s', true) →
  s3_at s' b' k' = if bool_decide ((b', k') = (b, k)) then Some data else s3_at s b' k'.
Proof.
  intros [E|[? _]]%s3_Put_spec; [|done]. unfold s3_at. rewrite E. case_bool_decide as Hk.
  - by rewrite Hk, lookup_insert_eq.
  - by rewrite lookup_insert_ne.
Qed.

Lemma S3_Delete_at b k s s' b' k' :
  S3_Delete b k s = (s', true) →
  s3_at s' b' k' = if bool_decide ((b', k') = (b, k)) then None else s3_at s b' k'.
Proof.
  intros [E|[? _]]%s3_Delete_spec; [|done]. unfold s3_at. rewrite E. case_bool_decide as Hk.
  - by rewrite Hk, lookup_delete_eq.
  - by rewrite lookup_delete_ne.
Qed.

Lemma S3_SetTTL_at format now b k ttl s b' k' :
  s3_at (S3_SetTTL format now b k ttl s).1 b' k' = s3_at s b' k'.
Proof.
  unfold S3_SetTTL. destruct (s3_PutObjectTagging _ _ _ s) as [s' ok] eqn:E. simpl. unfold s3_at.
  apply s3_Tagging_spec in E as [->|[_ ->]]; [|done]. destruct (decide ((b, k) = (b', k'))) as [->|Hne].
  - rewrite lookup_alter_eq. by destruct (s3_objects s !! _).
  - by rewrite lookup_alter_ne.
Qed.

Lemma S3_GetMetadata_at b k s m :
  S3_GetMetadata b k s = Some m → ∃ data, s3_at s b k = Some data ∧ om_Size m = Z.of_nat (length data).
Proof.
  unfold S3_GetMetadata, s3_at. pose proof (s3_Head_spec b k s) as H. destruct (s3_HeadObject b k s) as [h|[]]; try done.
  destruct H as (o & -> & E). intros [= <-]. exists o.1. simpl. by rewrite E.
Qed.

(** An object that was put is read back with its content, exists and has the size of
    its content, also after its time to live was set; other objects are unchanged; a
    deleted object does not exist and cannot be read. *)
Theorem s3_put_get format now b k data ttl s s1 s2 :
  S3_Put b k data s = (s1, true) → (S3_SetTTL format now b k ttl s1).1 = s2 →
  (∀ r, S3_Get b k s2 = Some r → r = data) ∧
  (∀ e, S3_Exists b k s2 = Some e → e = true) ∧
  (∀ m, S3_GetMetadata b k s2 = Some m → om_Size m = Z.of_nat (length data)) ∧
  (∀ b' k', (b', k') ≠ (b, k) → s3_at s2 b' k' = s3_at s b' k') ∧
  (∀ s3, S3_Delete b k s2 = (s3, true) → S3_Get b k s3 = None ∧ S3_Exists b k s3 ≠ Some true).
Proof.
  intros Hp <-. set (s2 := (S3_SetTTL _ _ _ _ _ s1).1).
  assert (∀ b' k', s3_at s2 b' k' = if bool_decide ((b', k') = (b, k)) then Some data else s3_at s b' k') as H2.
  { intros b' k'. unfold s2. by rewrite S3_SetTTL_at, (S3_Put_at _ _ _ _ _ _ _ Hp). }
  assert (s3_at s2 b k = Some data) as Hk by (by rewrite H2, bool_decide_eq_true_2). split_and!.
  - intros r Hr%S3_Get_at. congruence.
  - intros e ->%S3_Exists_at. by rewrite Hk.
  - intros m (d & Hd & ->)%S3_GetMetadata_at. congruence.
  - intros b' k' Hne. by rewrite H2, bool_decide_eq_false_2.
  - intros s3 Hd. pose proof (S3_Delete_at _ _ _ _ b k Hd) as H3. rewrite bool_decide_eq_true_2 in H3 by done. split.
    + destruct (S3_Get b k s3) eqn:E; [|done]. apply S3_Get_at in E. congruence.
    + intros E%S3_Exists_at. by rewrite H3 in E.
Qed.

(** ** The driver as the store of claim checks *)

Context `{!S3Answers S}.

Lemma S3_Get_answered b k s : S3_Get b k s = s3_at s b k.
Proof.
  unfold S3_Get, s3_at. pose proof (s3_Get_spec b k s) as H. destruct (s3_Get_answers b k s) as [H1 H2].
  destruct (s3_GetObject b k s) as [d|[]]; [by rewrite H|by rewrite H|done..].
Qed.

#[global, refine] Instance S3_ObjectStore (format : Z → string) : ObjectStore S := {|
  os_Put _ := S3_Put;
  os_Get _ := S3_Get;
  os_Delete := S3_Delete;
  os_SetTTL := S3_SetTTL format |}.
Proof.
  - intros now b k data o o' t b' k' Hp _. rewrite !S3_Get_answered. by apply S3_Put_at.
  - intros now b k ttl o t b' k' _. rewrite !S3_Get_answered. apply S3_SetTTL_at.
Defined.
End Driver.
Arguments S3Driver : clear implicits.

(** ** A service to run the driver on *)

Module S3Demo.
Local Open Scope string_scope.
Local Open Scope Z_scope.

Definition service : Type := gmap (string * string) (bytes * list tag).

#[refine] Instance service_server : S3Server service := {|
  s3_objects s := s;
  s3_PutObject b k data s := (<[(b, k) := (data, [])]> (s : gmap _ _), true);
  s3_GetObject b k s := if (s : gmap _ _) !! (b, k) is Some o then inl o.1 else inr S3NoSuchKey;
  s3_DeleteObject b k s := (delete (b, k) (s : gmap _ _), true);
  s3_PutObjectTagging b k tags s := (alter (λ o, (o.1, tags)) (b, k) (s : gmap _ _), true);
  s3_HeadObject b k s :=
    if (s : gmap _ _) !! (b, k) is Some o
    then inl (mkHeadOutput (Some (Z.of_nat (length o.1))) None None None) else inr S3NotFound |}.
Proof.
  - intros b k data s s' ok [= <- _]. by left.
  - intros b k s. by destruct (s !! (b, k)).
  - intros b k s s' ok [= <- _]. by left.
  - intros b k tags s s' ok [= <- _]. by left.
  - intros b k s. destruct (s !! (b, k)) as [o|]; [by exists o|done].
Defined.

Instance service_answers : S3Answers service.
Proof. split. intros b k s. simpl. by destruct (_ !! _). Defined.

Definition s0 : service := {[ ("b", "old") := ([1], []) ]}.
Definition s1 : service := (S3_Put "b" "k" [7; 8] s0).1.
Definition s2 : service := (S3_SetTTL (λ _, "2025") 0 "b" "k" 60 s1).1.

Lemma s3_put_get_witness :
  S3_Put "b" "k" [7; 8] s0 = (s1, true) ∧ S3_Get "b" "k" s2 = Some [7; 8] ∧ s3_at s2 "b" "old" = Some [1].
Proof.
  assert (S3_Put "b" "k" [7; 8] s0 = (s1, true)) as E1 by reflexivity.
  destruct (s3_put_get (λ _, "2025") 0 "b" "k" [7; 8] 60 s0 s1 s2 E1 eq_refl) as (Hg & _ & _ & Ho & _).
  split; [exact E1|]. split; [|rewrite Ho; [vm_compute; reflexivity|discriminate]].
  destruct (S3_Get "b" "k" s2) as [r|] eqn:E; [|by vm_compute in E]. by rewrite (Hg r eq_refl).
Defined.

(** HTTPS is not the default: a configuration that leaves it out connects without. *)
Example ssl_is_off_by_default :
  co_BaseEndpoint (client_options_of (s3_defaults (mkS3Config "minio:9000" "" "" "" false true)))
  = Some "http://minio:9000".
Proof. reflexivity. Qed.

(** The second context that ends closes the channel again. *)
Example second_start_panics :
  (d ← match S3_Start (S3_New (S := service)) with Ok d => Some d | _ => None end; Some (S3_Start d)) = Some Panic.
Proof. reflexivity. Qed.

(** A large time to live wraps, and the tag names a time in the past. *)
Example s3_ttl_wraps :
  (S3_SetTTL (λ t, if t <? 0 then "past" else "future") 0 "b" "old" (2 ^ 34) s0).1 !! ("b", "old")
  = Some ([1], [("prism-ttl", "past"); ("prism-ttl-seconds", "17179869184")]).
Proof. vm_compute. reflexivity. Qed.
End S3Demo.
