(* ===== verification/Operator.v ===== *)
(** * prism-operator: reconciling a pattern with the cluster

    prismpattern_controller.go, pkg/autoscaling/hpa.go and keda.go: from the declared
    [PrismPattern] the operator keeps a deployment, a service and a scaler.  The API
    server behind the client library is the class [KubeAPI]: a map of objects that its
    calls change, any of which may fail, also after taking effect.  The client is the
    cached one of the manager: a read answers what the cache holds, which may lag
    behind the server.  Nobody else writes while a reconciliation runs.  The code runs
    in a state and error monad over the API. *)

From stdpp Require Import pretty.
From S2P Require Import Prelude Memstore Slots.
Local Open Scope Z_scope.

(** ** Types *)

(** A value that the operator only copies. *)
Abbreviation opaque := string.

Record KEDATrigger := mkKEDATrigger {
  kt_Type : string;
  kt_Metadata : str_map;
  kt_AuthenticationRef : option string }.

Record AutoscalingSpec := mkAutoscalingSpec {
  au_Enabled : bool;
  au_Scaler : string;
  au_MinReplicas : Z;
  au_MaxReplicas : Z;
  au_TargetCPU : option Z;
  au_TargetMemory : option Z;
  au_Metrics : list opaque;
  au_Behavior : option opaque;
  au_Triggers : list KEDATrigger;
  au_PollingInterval : option Z;
  au_CooldownPeriod : option Z }.

Record PatternServiceSpec := mkPatternServiceSpec { sp_Type : string; sp_Port : Z }.

Record PlacementSpec := mkPlacementSpec {
  pl_NodeSelector : str_map;
  pl_Affinity : opaque;
  pl_Tolerations : opaque;
  pl_TopologySpreadConstraints : opaque;
  pl_PriorityClassName : string;
  pl_RuntimeClassName : option string }.

Record PrismPatternSpec := mkPrismPatternSpec {
  ps_Pattern : string;
  ps_Backend : string;
  ps_Image : string;
  ps_Replicas : Z;
  ps_Resources : opaque;
  ps_Service : option PatternServiceSpec;
  ps_Autoscaling : option AutoscalingSpec;
  ps_Placement : option PlacementSpec }.

Record Condition := mkCondition {
  cd_Type : string;
  cd_Status : bool;
  cd_Reason : string;
  cd_Message : string;
  cd_ObservedGeneration : Z }.

Record PrismPatternStatus := mkPrismPatternStatus {
  st_Phase : string;
  st_Replicas : Z;
  st_AvailableReplicas : Z;
  st_ObservedGeneration : Z;
  st_Conditions : list Condition }.

Record PrismPattern := mkPrismPattern {
  pp_Name : string;
  pp_Namespace : string;
  pp_Generation : Z;
  pp_Spec : PrismPatternSpec;
  pp_Status : PrismPatternStatus }.

(** *** The objects the operator keeps *)

Record PodSpec := mkPodSpec {
  pod_Name : string;
  pod_Image : string;
  pod_Args : list string;
  pod_Resources : opaque;
  pod_Ports : list Z;
  pod_Placement : option PlacementSpec }.

(** [dp_Replicas], [dp_Available], [dp_Observed] are part of the status. *)
Record Deployment := mkDeployment {
  dp_Labels : str_map;
  dp_Owner : option string;
  dp_SpecReplicas : option Z;
  dp_Selector : str_map;
  dp_TemplateLabels : str_map;
  dp_PodSpec : PodSpec;
  dp_Replicas : Z;
  dp_Available : Z;
  dp_Observed : Z }.

Record Service := mkService {
  sv_Labels : str_map;
  sv_Owner : option string;
  sv_Selector : str_map;
  sv_Type : string;
  sv_Ports : list Z }.

Inductive metric := MetricCPU (utilization : Z) | MetricMemory (utilization : Z) | MetricCustom (m : opaque).

(** The specification of a HorizontalPodAutoscaler, and of a ScaledObject of KEDA. *)
Record HPASpec := mkHPASpec {
  hp_Target : string;
  hp_MinReplicas : Z;
  hp_MaxReplicas : Z;
  hp_Metrics : list metric;
  hp_Behavior : option opaque }.

Record KEDASpec := mkKEDASpec {
  ke_Target : string;
  ke_MinReplicaCount : Z;
  ke_MaxReplicaCount : Z;
  ke_PollingInterval : Z;
  ke_CooldownPeriod : Z;
  ke_Triggers : list (string * str_map);
  ke_Behavior : option opaque }.

Inductive object :=
  | ODeployment (d : Deployment)
  | OService (s : Service)
  | OHPA (labels : str_map) (owner : option string) (spec : HPASpec)
  | OScaledObject (labels : str_map) (owner : option string) (spec : KEDASpec).

Inductive kind := KDeployment | KService | KHPA | KScaledObject.
#[global] Instance kind_dec : EqDecision kind.
Proof. solve_decision. Defined.
#[global] Instance kind_countable : Countable kind.
Proof.
  apply (inj_countable' (λ k, match k with KDeployment => 0 | KService => 1 | KHPA => 2 | KScaledObject => 3 end)
    (λ n : Z, match n with 0 => KDeployment | 1 => KService | 2 => KHPA | _ => KScaledObject end)).
  by intros [].
Defined.

Definition kind_of (o : object) : kind :=
  match o with
  | ODeployment _ => KDeployment
  | OService _ => KService
  | OHPA _ _ _ => KHPA
  | OScaledObject _ _ _ => KScaledObject
  end.

(** Kind, namespace and name. *)
Abbreviation object_key := (kind * (string * string))%type.
Abbreviation Cluster := (gmap (kind * (string * string)) object).

(** ** The API server *)

(** [ApiNoKind]: the kind is not registered, as the ScaledObject without KEDA. *)
Inductive api_error := ApiNotFound | ApiNoKind | ApiOther.

(** The selector of a deployment cannot be changed. *)
Definition selector_kept (old new : option object) : Prop :=
  match old, new with
  | Some (ODeployment d), Some (ODeployment d') => dp_Selector d' = dp_Selector d
  | _, _ => True
  end.

(** The status subresource: an update of it leaves the rest of the pattern alone. *)
Definition set_status (s : PrismPatternStatus) (p : PrismPattern) : PrismPattern :=
  mkPrismPattern (pp_Name p) (pp_Namespace p) (pp_Generation p) (pp_Spec p) s.

(** A call that failed left the cluster as it was, or had the effect [c']. *)
Definition effect (failed : bool) (c c' : Cluster) (after : Cluster) : Prop :=
  after = c' ∨ failed = true ∧ after = c.

(** Nothing is said about what a read finds: an object may have been changed, made or
    deleted since it got into the cache.  Only the kinds are known for sure ([ApiNoKind]
    comes from the server's list of kinds).  An update carries the resource version of
    the object [found] that was read: the server refuses it unless that is the one it
    has. *)
Class KubeAPI (W : Type) := {
  k_objects : W → Cluster;
  k_patterns : W → gmap (string * string) PrismPattern;
  k_Get : object_key → W → W * (object + api_error);
  k_Create : object_key → object → W → W * option api_error;
  k_Update : object_key → object → object → W → W * option api_error;
  k_Delete : object_key → W → W * option api_error;
  k_GetPattern : string * string → W → W * (PrismPattern + api_error);
  k_UpdateStatus : PrismPattern → W → W * option api_error;
  k_kinds w key o : k_objects w !! key = Some o → kind_of o = key.1;
  k_names w key p : k_patterns w !! key = Some p → (pp_Namespace p, pp_Name p) = key;
  k_Get_spec key w w' r : k_Get key w = (w', r) →
    k_objects w' = k_objects w ∧ k_patterns w' = k_patterns w ∧
    match r with
    | inl o => kind_of o = key.1
    | inr ApiNoKind => k_objects w !! key = None
    | inr _ => True
    end;
  k_Create_spec key o w w' e : k_Create key o w = (w', e) → kind_of o = key.1 →
    k_patterns w' = k_patterns w ∧
    (if k_objects w !! key is Some _ then e ≠ None ∧ k_objects w' = k_objects w
     else effect (negb (bool_decide (e = None))) (k_objects w) (<[key := o]> (k_objects w)) (k_objects w'));
  k_Update_spec key found o w w' e : k_Update key found o w = (w', e) → kind_of o = key.1 →
    k_patterns w' = k_patterns w ∧
    (e ≠ None ∧ k_objects w' = k_objects w ∨
     k_objects w !! key = Some found ∧ selector_kept (Some found) (Some o) ∧
     k_objects w' = <[key := o]> (k_objects w));
  k_Delete_spec key w w' e : k_Delete key w = (w', e) →
    k_patterns w' = k_patterns w ∧
    (e = Some ApiNoKind → k_objects w' = delete key (k_objects w)) ∧
    effect (negb (bool_decide (e = None))) (k_objects w) (delete key (k_objects w)) (k_objects w');
  k_GetPattern_spec key w w' r : k_GetPattern key w = (w', r) →
    k_objects w' = k_objects w ∧ k_patterns w' = k_patterns w ∧
    (if r is inl p then (pp_Namespace p, pp_Name p) = key else True);
  k_UpdateStatus_spec p w w' e : k_UpdateStatus p w = (w', e) →
    k_objects w' = k_objects w ∧
    (k_patterns w' = k_patterns w ∨
     ∃ q, k_patterns w !! (pp_Namespace p, pp_Name p) = Some q ∧
          k_patterns w' = <[(pp_Namespace p, pp_Name p) := set_status (pp_Status p) q]> (k_patterns w)) }.

(** ** The reconcilers *)

Inductive reconcile_error :=
  | ErrOwner
  | ErrApi (what : string) (e : api_error)
  | ErrNoTriggers
  | ErrKEDANotInstalled
  | ErrUnknownScaler (scaler : string).

Section Reconcile.
Context {W : Type} `{!KubeAPI W}.

(** State and errors. *)
Definition op (A : Type) : Type := W → W * (A + reconcile_error).
Definition ret {A} (a : A) : op A := λ w, (w, inl a).
Definition fail {A} (e : reconcile_error) : op A := λ w, (w, inr e).
Definition bind {A B} (c : op A) (k : A → op B) : op B :=
  λ w, let '(w, r) := c w in match r with inl a => k a w | inr e => (w, inr e) end.
Notation "'let!' x := c 'in' k" := (bind c (λ x, k)) (at level 10, x name, k at level 200).
Notation "c ;; k" := (bind c (λ _, k)) (at level 100, k at level 200, right associativity).

(** The calls of the API: a read gives the answer, a write whether it failed. *)
Definition get (key : object_key) : op (object + api_error) :=
  λ w, let '(w, r) := k_Get key w in (w, inl r).
Definition attempt (call : W → W * option api_error) : op (option api_error) :=
  λ w, let '(w, e) := call w in (w, inl e).
Definition or_fail (what : string) (call : W → W * option api_error) : op unit :=
  let! e := attempt call in
  match e with None => ret () | Some e => fail (ErrApi what e) end.

(** Setting the owner of an object that was just made; [owner_ok]: the owner's kind is
    registered. *)
Context (owner_ok : bool).
Definition set_owner : op unit := if owner_ok then ret () else fail ErrOwner.

(** Which reconcilers are set up. *)
Record PrismPatternReconciler := mkReconciler { rc_HPA : bool; rc_KEDA : bool }.

(** *** hpa.go *)

Definition buildMetrics (a : AutoscalingSpec) : list metric :=
  match au_TargetCPU a with Some u => [MetricCPU u] | None => [] end ++
  match au_TargetMemory a with Some u => [MetricMemory u] | None => [] end ++
  (MetricCustom <$> au_Metrics a).

Definition deleteHPA (name namespace : string) : op unit :=
  let key := (KHPA, (namespace, name)) in
  let! r := get key in
  match r with
  | inr ApiNotFound => ret ()
  | inr e => fail (ErrApi "failed to get HPA for deletion" e)
  | inl _ => or_fail "failed to delete HPA" (k_Delete key)
  end.

Definition hpa_spec (target : string) (a : AutoscalingSpec) : HPASpec :=
  mkHPASpec target (au_MinReplicas a) (au_MaxReplicas a) (buildMetrics a) (au_Behavior a).

Definition enabled (a : option AutoscalingSpec) : option AutoscalingSpec :=
  match a with Some a => if au_Enabled a then Some a else None | None => None end.

(** The object that was found is updated in place: labels and owner stay. *)
Definition ReconcileHPA (name namespace : string) (autoscaling : option AutoscalingSpec) (target : string)
    (labels : str_map) (owner : string) : op unit :=
  match enabled autoscaling with
  | None => deleteHPA name namespace
  | Some a =>
      if bool_decide (au_Scaler a ≠ "hpa"%string ∧ au_Scaler a ≠ ""%string) then ret ()
      else
        let key := (KHPA, (namespace, name)) in
        let spec := hpa_spec target a in
        set_owner ;;
        let! r := get key in
        match r with
        | inr ApiNotFound => or_fail "failed to create HPA" (k_Create key (OHPA labels (Some owner) spec))
        | inr e => fail (ErrApi "failed to get HPA" e)
        | inl (OHPA labels' owner' spec') =>
            or_fail "failed to update HPA"
              (k_Update key (OHPA labels' owner' spec') (OHPA labels' owner' spec))
        | inl _ => ret ()
        end
  end.

(** *** keda.go *)

Definition isKEDANotInstalledError (e : api_error) : bool :=
  match e with ApiNoKind => true | _ => false end.

Definition buildTriggers (a : AutoscalingSpec) : list (string * str_map) :=
  (λ t, (kt_Type t, kt_Metadata t)) <$> au_Triggers a.
Definition getPollingInterval (a : AutoscalingSpec) : Z := default 10 (au_PollingInterval a).
Definition getCooldownPeriod (a : AutoscalingSpec) : Z := default 300 (au_CooldownPeriod a).

Definition deleteScaledObject (name namespace : string) : op unit :=
  let key := (KScaledObject, (namespace, name)) in
  let! r := get key in
  match r with
  | inr ApiNotFound => ret ()
  | inr e => if isKEDANotInstalledError e then ret ()
             else fail (ErrApi "failed to get ScaledObject for deletion" e)
  | inl _ =>
      let! e := attempt (k_Delete key) in
      match e with
      | None => ret ()
      | Some e => if isKEDANotInstalledError e then ret ()
                  else fail (ErrApi "failed to delete ScaledObject" e)
      end
  end.

Definition keda_spec (name : string) (a : AutoscalingSpec) : KEDASpec :=
  mkKEDASpec name (au_MinReplicas a) (au_MaxReplicas a) (getPollingInterval a) (getCooldownPeriod a)
    (buildTriggers a) (au_Behavior a).

Definition keda_failure (what : string) (e : api_error) : reconcile_error :=
  if isKEDANotInstalledError e then ErrKEDANotInstalled else ErrApi what e.

Definition ReconcileKEDA (name namespace : string) (autoscaling : option AutoscalingSpec)
    (labels : str_map) (owner : string) : op unit :=
  match enabled autoscaling with
  | None => deleteScaledObject name namespace
  | Some a =>
      if bool_decide (au_Scaler a ≠ "keda"%string) then ret ()
      else if bool_decide (length (au_Triggers a) = 0%nat) then fail ErrNoTriggers
      else
        let key := (KScaledObject, (namespace, name)) in
        let spec := keda_spec name a in
        set_owner ;;
        let! r := get key in
        match r with
        | inr ApiNotFound =>
            let! e := attempt (k_Create key (OScaledObject labels (Some owner) spec)) in
            match e with None => ret () | Some e => fail (keda_failure "failed to create ScaledObject" e) end
        | inr e => fail (keda_failure "failed to get ScaledObject" e)
        | inl (OScaledObject labels' owner' spec') =>
            or_fail "failed to update ScaledObject"
              (k_Update key (OScaledObject labels' owner' spec') (OScaledObject labels' owner' spec))
        | inl _ => ret ()
        end
  end.

(** *** prismpattern_controller.go *)

Definition labelsForPattern (p : PrismPattern) : str_map :=
  {[ "app"%string := "prism"%string;
     "prism.io/pattern"%string := ps_Pattern (pp_Spec p);
     "prism.io/backend"%string := ps_Backend (pp_Spec p);
     "prism.io/pattern-instance"%string := pp_Name p ]}.

Definition buildPodSpec (p : PrismPattern) : PodSpec :=
  let s := pp_Spec p in
  mkPodSpec (ps_Pattern s +:+ "-runner") (ps_Image s)
    [("--pattern=" +:+ ps_Pattern s)%string; ("--backend=" +:+ ps_Backend s)%string] (ps_Resources s)
    (if ps_Service s is Some sv then [sp_Port sv] else []) (ps_Placement s).

Definition getInitialReplicas (p : PrismPattern) : Z :=
  match enabled (ps_Autoscaling (pp_Spec p)) with
  | Some a => au_MinReplicas a
  | None => ps_Replicas (pp_Spec p)
  end.

Definition new_deployment (p : PrismPattern) : Deployment :=
  mkDeployment (labelsForPattern p) (Some (pp_Name p)) (Some (getInitialReplicas p)) (labelsForPattern p)
    (labelsForPattern p) (buildPodSpec p) 0 0 0.

(** An existing deployment gets the template and the selector, and the replicas unless
    it is scaled automatically. *)
Definition updated_deployment (p : PrismPattern) (found : Deployment) : Deployment :=
  mkDeployment (dp_Labels found) (dp_Owner found)
    (if enabled (ps_Autoscaling (pp_Spec p)) is Some _ then dp_SpecReplicas found
     else Some (getInitialReplicas p))
    (labelsForPattern p) (labelsForPattern p) (buildPodSpec p) (dp_Replicas found) (dp_Available found)
    (dp_Observed found).

Definition reconcileDeployment (p : PrismPattern) : op unit :=
  let key := (KDeployment, (pp_Namespace p, pp_Name p)) in
  set_owner ;;
  let! r := get key in
  match r with
  | inr ApiNotFound => or_fail "failed to create deployment" (k_Create key (ODeployment (new_deployment p)))
  | inr e => fail (ErrApi "failed to get deployment" e)
  | inl (ODeployment found) =>
      or_fail "failed to update deployment"
        (k_Update key (ODeployment found) (ODeployment (updated_deployment p found)))
  | inl _ => ret ()
  end.

Definition reconcileService (p : PrismPattern) : op unit :=
  match ps_Service (pp_Spec p) with
  | None => ret ()
  | Some sv =>
      let key := (KService, (pp_Namespace p, pp_Name p)) in
      set_owner ;;
      let! r := get key in
      match r with
      | inr ApiNotFound =>
          or_fail "failed to create service"
            (k_Create key (OService (mkService (labelsForPattern p) (Some (pp_Name p)) (labelsForPattern p)
                                       (sp_Type sv) [sp_Port sv])))
      | inr e => fail (ErrApi "failed to get service" e)
      | inl (OService found) =>
          or_fail "failed to update service"
            (k_Update key (OService found) (OService (mkService (sv_Labels found) (sv_Owner found) (labelsForPattern p)
                                       (sp_Type sv) [sp_Port sv])))
      | inl _ => ret ()
      end
  end.

Definition when (b : bool) (c : op unit) : op unit := if b then c else ret ().

Definition reconcileAutoscaling (r : PrismPatternReconciler) (p : PrismPattern) : op unit :=
  let name := pp_Name p in
  let ns := pp_Namespace p in
  match enabled (ps_Autoscaling (pp_Spec p)) with
  | None =>
      when (rc_HPA r) (ReconcileHPA name ns None "" ∅ name) ;;
      when (rc_KEDA r) (ReconcileKEDA name ns None ∅ name)
  | Some a =>
      let scaler := if bool_decide (au_Scaler a = ""%string) then "hpa"%string else au_Scaler a in
      let labels := labelsForPattern p in
      if bool_decide (scaler = "hpa"%string) then
        when (rc_HPA r) (ReconcileHPA name ns (Some a) name labels name) ;;
        when (rc_KEDA r) (ReconcileKEDA name ns None ∅ name)
      else if bool_decide (scaler = "keda"%string) then
        when (rc_KEDA r) (ReconcileKEDA name ns (Some a) labels name) ;;
        when (rc_HPA r) (ReconcileHPA name ns None "" ∅ name)
      else fail (ErrUnknownScaler scaler)
  end.

(** The phase that the state of the deployment means. *)
Definition phase_of (d : Deployment) : string :=
  match dp_SpecReplicas d with
  | Some n =>
      if 0 <? n then
        if dp_Available d =? n then "Running" else if 0 <? dp_Replicas d then "Progressing" else "Pending"
      else "Pending"
  | None => "Pending"
  end.

Definition ready_condition (generation : Z) (phase : string) (replicas available : Z) : Condition :=
  if bool_decide (phase = "Running"%string) then
    mkCondition "Ready" true "DeploymentReady"
      ("All " +:+ pretty available +:+ " replicas are available") generation
  else if bool_decide (phase = "Progressing"%string) then
    mkCondition "Ready" false "DeploymentProgressing"
      (pretty available +:+ "/" +:+ pretty replicas +:+ " replicas available") generation
  else mkCondition "Ready" false "DeploymentPending" "Waiting for deployment to start" generation.

(** [None]: there is no deployment yet. *)
Definition status_of (p : PrismPattern) (d : option Deployment) : PrismPatternStatus :=
  let '(phase, replicas, available, observed) :=
    match d with
    | None => ("Pending"%string, 0, 0, st_ObservedGeneration (pp_Status p))
    | Some d => (phase_of d, dp_Replicas d, dp_Available d, dp_Observed d)
    end in
  mkPrismPatternStatus phase replicas available observed
    [ready_condition (pp_Generation p) phase replicas available].

Definition updateStatus (p : PrismPattern) : op unit :=
  let! r := get (KDeployment, (pp_Namespace p, pp_Name p)) in
  match r with
  | inr ApiNotFound => or_fail "failed to update status" (k_UpdateStatus (set_status (status_of p None) p))
  | inr e => fail (ErrApi "failed to get deployment for status" e)
  | inl (ODeployment d) =>
      or_fail "failed to update status" (k_UpdateStatus (set_status (status_of p (Some d)) p))
  | inl _ => ret ()
  end.

Definition Reconcile (r : PrismPatternReconciler) (key : string * string) : op unit :=
  let! a := (λ w, let '(w, a) := k_GetPattern key w in (w, inl a)) in
  match a with
  | inr ApiNotFound => ret ()
  | inr e => fail (ErrApi "Failed to get PrismPattern" e)
  | inl p =>
      reconcileDeployment p ;;
      reconcileService p ;;
      reconcileAutoscaling r p ;;
      updateStatus p
  end.
End Reconcile.
