(* ===== verification/OperatorSpec.v ===== *)
(** * Correctness of the operator

    [reconciled] is the cluster that a pattern declares, written field by field from the
    pattern.  A successful reconciliation brings it about, up to scalers that the cache of
    the client did not show; with a cache in step a second one changes nothing; and no
    reconciliation, successful or not, touches objects of other patterns.  With an API
    that answers, it succeeds, unless the selector of the deployment would change. *)

From S2P Require Import Prelude Memstore Slots Operator.
Local Open Scope Z_scope.

(** ** What a pattern declares

    Field by field from the specification of the pattern, and from the object that was
    there before where the operator keeps what it finds. *)

Definition key_of (k : kind) (p : PrismPattern) : object_key := (k, (pp_Namespace p, pp_Name p)).

(** A field of the old object, or its value in a new one. *)
Definition kept {A B} (old : option A) (field : A → B) (new : B) : B :=
  match old with Some o => field o | None => new end.

Definition own_labels (p : PrismPattern) : str_map :=
  list_to_map
    [("app", "prism"); ("prism.io/pattern", ps_Pattern (pp_Spec p));
     ("prism.io/backend", ps_Backend (pp_Spec p)); ("prism.io/pattern-instance", pp_Name p)]%string.

(** The autoscaling section, when there is one and it is switched on. *)
Definition scaling (p : PrismPattern) : option AutoscalingSpec :=
  a ← ps_Autoscaling (pp_Spec p); if au_Enabled a then Some a else None.

Definition desired_pod (p : PrismPattern) : PodSpec := {|
  pod_Name := ps_Pattern (pp_Spec p) +:+ "-runner";
  pod_Image := ps_Image (pp_Spec p);
  pod_Args := [ "--pattern=" +:+ ps_Pattern (pp_Spec p); "--backend=" +:+ ps_Backend (pp_Spec p) ]%string;
  pod_Resources := ps_Resources (pp_Spec p);
  pod_Ports := sp_Port <$> option_list (ps_Service (pp_Spec p));
  pod_Placement := ps_Placement (pp_Spec p) |}.

(** The number of replicas belongs to the scaler once there is one. *)
Definition desired_replicas (p : PrismPattern) (old : option Deployment) : option Z :=
  match scaling p, old with
  | None, _ => Some (ps_Replicas (pp_Spec p))
  | Some a, None => Some (au_MinReplicas a)
  | Some _, Some d => dp_SpecReplicas d
  end.

Definition desired_deployment (p : PrismPattern) (old : option Deployment) : Deployment := {|
  dp_Labels := kept old dp_Labels (own_labels p);
  dp_Owner := kept old dp_Owner (Some (pp_Name p));
  dp_SpecReplicas := desired_replicas p old;
  dp_Selector := own_labels p;
  dp_TemplateLabels := own_labels p;
  dp_PodSpec := desired_pod p;
  dp_Replicas := kept old dp_Replicas 0;
  dp_Available := kept old dp_Available 0;
  dp_Observed := kept old dp_Observed 0 |}.

Definition desired_service (p : PrismPattern) (sv : PatternServiceSpec) (old : option Service) : Service := {|
  sv_Labels := kept old sv_Labels (own_labels p);
  sv_Owner := kept old sv_Owner (Some (pp_Name p));
  sv_Selector := own_labels p;
  sv_Type := sp_Type sv;
  sv_Ports := [sp_Port sv] |}.

Definition desired_hpa (p : PrismPattern) (a : AutoscalingSpec) : HPASpec := {|
  hp_Target := pp_Name p;
  hp_MinReplicas := au_MinReplicas a;
  hp_MaxReplicas := au_MaxReplicas a;
  hp_Metrics := (MetricCPU <$> option_list (au_TargetCPU a)) ++
                (MetricMemory <$> option_list (au_TargetMemory a)) ++ (MetricCustom <$> au_Metrics a);
  hp_Behavior := au_Behavior a |}.

Definition desired_keda (p : PrismPattern) (a : AutoscalingSpec) : KEDASpec := {|
  ke_Target := pp_Name p;
  ke_MinReplicaCount := au_MinReplicas a;
  ke_MaxReplicaCount := au_MaxReplicas a;
  ke_PollingInterval := if au_PollingInterval a is Some n then n else 10;
  ke_CooldownPeriod := if au_CooldownPeriod a is Some n then n else 300;
  ke_Triggers := zip (kt_Type <$> au_Triggers a) (kt_Metadata <$> au_Triggers a);
  ke_Behavior := au_Behavior a |}.

Definition is_deployment (o : object) : option Deployment := if o is ODeployment d then Some d else None.
Definition is_service (o : object) : option Service := if o is OService s then Some s else None.
(** Labels and owner of a scaler. *)
Definition is_scaler (k : kind) (o : object) : option (str_map * option string) :=
  match k, o with
  | KHPA, OHPA labels owner _ | KScaledObject, OScaledObject labels owner _ => Some (labels, owner)
  | _, _ => None
  end.

(** The object of kind [k] that is there afterwards, from the one before.  A service
    that is no longer declared stays. *)
Definition desired (p : PrismPattern) (k : kind) (old : option object) : option object :=
  let meta := default (own_labels p, Some (pp_Name p)) (old ≫= is_scaler k) in
  match k with
  | KDeployment => Some (ODeployment (desired_deployment p (old ≫= is_deployment)))
  | KService =>
      if ps_Service (pp_Spec p) is Some sv
      then Some (OService (desired_service p sv (old ≫= is_service))) else old
  | KHPA =>
      a ← scaling p;
      if decide (au_Scaler a = "keda"%string) then None else Some (OHPA meta.1 meta.2 (desired_hpa p a))
  | KScaledObject =>
      a ← scaling p;
      if decide (au_Scaler a = "keda"%string) then Some (OScaledObject meta.1 meta.2 (desired_keda p a)) else None
  end.

(** The declared cluster: the four objects of the pattern, and all others as before. *)
Definition put (p : PrismPattern) (k : kind) : Cluster → Cluster :=
  partial_alter (desired p k) (key_of k p).

Definition reconciled (p : PrismPattern) (c : Cluster) : Cluster :=
  put p KScaledObject (put p KHPA (put p KService (put p KDeployment c))).

Lemma reconciled_lookup p c key :
  reconciled p c !! key =
    if decide (key.2 = (pp_Namespace p, pp_Name p)) then desired p key.1 (c !! key) else c !! key.
Proof.
  unfold reconciled, put, key_of. destruct key as [k id]. simpl. destruct (decide _) as [->|Hne].
  - destruct k; repeat first [rewrite lookup_partial_alter_ne by done | rewrite lookup_partial_alter_eq]; done.
  - by rewrite !lookup_partial_alter_ne by congruence.
Qed.

Lemma desired_idem p k old : desired p k (desired p k old) = desired p k old.
Proof.
  destruct k; simpl.
  - do 2 f_equal. unfold desired_deployment, desired_replicas.
    by destruct (old ≫= is_deployment), (scaling p).
  - destruct (ps_Service _) as [sv|] eqn:Es; [|done]. unfold desired_service.
    by destruct (old ≫= is_service).
  - destruct (scaling p) as [a|]; simpl; [|done]. by destruct (decide _).
  - destruct (scaling p) as [a|]; simpl; [|done]. by destruct (decide _).
Qed.

(** *** The builders of the code produce these fields *)

Lemma enabled_scaling p : enabled (ps_Autoscaling (pp_Spec p)) = scaling p.
Proof. done. Qed.

Lemma labelsForPattern_own p : labelsForPattern p = own_labels p.
Proof. done. Qed.

Lemma buildPodSpec_desired p : buildPodSpec p = desired_pod p.
Proof. unfold buildPodSpec, desired_pod. by destruct (ps_Service _). Qed.

Lemma getInitialReplicas_desired p : Some (getInitialReplicas p) = desired_replicas p None.
Proof. unfold getInitialReplicas, desired_replicas. rewrite enabled_scaling. by destruct (scaling p). Qed.

Lemma new_deployment_desired p : new_deployment p = desired_deployment p None.
Proof.
  unfold new_deployment. by rewrite getInitialReplicas_desired, buildPodSpec_desired, labelsForPattern_own.
Qed.

Lemma updated_deployment_desired p d : updated_deployment p d = desired_deployment p (Some d).
Proof.
  unfold updated_deployment. rewrite getInitialReplicas_desired, buildPodSpec_desired, enabled_scaling.
  unfold desired_deployment, desired_replicas. by destruct (scaling p).
Qed.

Lemma hpa_spec_desired p a : hpa_spec (pp_Name p) a = desired_hpa p a.
Proof.
  unfold hpa_spec, desired_hpa, buildMetrics. by destruct (au_TargetCPU a), (au_TargetMemory a).
Qed.

Lemma keda_spec_desired p a : keda_spec (pp_Name p) a = desired_keda p a.
Proof.
  unfold keda_spec, desired_keda, buildTriggers, getPollingInterval, getCooldownPeriod.
  f_equal. generalize (au_Triggers a). intros ts. induction ts as [|t ts IH]; [done|].
  cbn. f_equal. exact IH.
Qed.

Section Spec.
Context {W : Type} `{!KubeAPI W} (owner_ok : bool).
Abbreviation op := (Operator.op (W := W)).
Abbreviation both := (mkReconciler true true).

(** The cache of the client is in step with the server. *)
Definition fresh_objects : Prop := ∀ key w,
  match (k_Get key w).2 with
  | inl o => k_objects w !! key = Some o
  | inr ApiNotFound => k_objects w !! key = None
  | inr _ => True
  end.
Definition fresh_patterns : Prop := ∀ key w,
  match (k_GetPattern key w).2 with
  | inl p => k_patterns w !! key = Some p
  | inr ApiNotFound => k_patterns w !! key = None
  | inr _ => True
  end.

(** ** Successful steps *)

(** What became of an object: what is declared, or, with a cache that lags behind, an
    object that is not declared and was overlooked. *)
Definition settled (p : PrismPattern) (k : kind) (old new : option object) : Prop :=
  new = desired p k old ∨ ¬ fresh_objects ∧ desired p k old = None ∧ new = old.

(** The objects of the kinds [ks] are settled, all others are as before. *)
Definition brought (p : PrismPattern) (ks : list kind) (c c' : Cluster) : Prop :=
  ∀ k id, if decide (id = (pp_Namespace p, pp_Name p) ∧ k ∈ ks)
          then settled p k (c !! (k, id)) (c' !! (k, id)) else c' !! (k, id) = c !! (k, id).

(** Whenever [c] succeeds, the objects of the kinds [ks] are settled. *)
Definition achieves (p : PrismPattern) (c : op unit) (ks : list kind) : Prop :=
  ∀ w w' u, c w = (w', inl u) → brought p ks (k_objects w) (k_objects w').

Lemma brought_nil p c : brought p [] c c.
Proof. intros k id. destruct (decide _) as [[_ []%not_elem_of_nil]|]; done. Qed.

(** One object is changed or none. *)
Lemma brought_one p k c c' :
  (∀ key, key ≠ key_of k p → c' !! key = c !! key) →
  settled p k (c !! key_of k p) (c' !! key_of k p) → brought p [k] c c'.
Proof.
  intros Ho Hs k' id. destruct (decide _) as [[-> ->%list_elem_of_singleton]|Hn]; [done|].
  apply Ho. intros [= -> ->]. apply Hn. split; [done|]. by apply list_elem_of_singleton.
Qed.

Lemma brought_insert p k c o :
  desired p k (c !! key_of k p) = Some o → brought p [k] c (<[key_of k p := o]> c).
Proof.
  intros Hd. apply brought_one; [by intros; rewrite lookup_insert_ne|].
  left. by rewrite lookup_insert_eq, Hd.
Qed.

Lemma brought_delete p k c :
  desired p k (c !! key_of k p) = None → brought p [k] c (delete (key_of k p) c).
Proof.
  intros Hd. apply brought_one; [by intros; rewrite lookup_delete_ne|].
  left. by rewrite lookup_delete_eq, Hd.
Qed.

Lemma achieves_bind p c d ks ks' :
  (∀ k, k ∈ ks → k ∉ ks') → achieves p c ks → achieves p d ks' →
  achieves p (bind c (λ _, d)) (ks ++ ks').
Proof.
  intros Hdis Hc Hd w w' u. unfold bind. destruct (c w) as [w1 [[]|e]] eqn:E; [|done]. intros H k id.
  specialize (Hc _ _ _ E k id). specialize (Hd _ _ _ H k id). specialize (Hdis k).
  destruct (decide (_ ∧ k ∈ ks)) as [[H1 H2]|H1], (decide (_ ∧ k ∈ ks')) as [[H3 H4]|H3],
    (decide (_ ∧ k ∈ ks ++ ks')) as [[H5 H6]|H5]; try (by rewrite Hd); try (by rewrite <- Hc);
    exfalso; set_solver.
Qed.

Lemma achieves_owner p d ks : achieves p d ks → achieves p (bind (set_owner owner_ok) (λ _, d)) ks.
Proof.
  intros Hd w w' u. unfold bind, set_owner. destruct owner_ok; [|done]. apply Hd.
Qed.

(** Running a step with the continuation the code has after a call. *)
Lemma or_fail_inv what (call : W → W * option api_error) w w' u :
  or_fail what call w = (w', inl u) → call w = (w', None).
Proof.
  unfold or_fail, bind, attempt. destruct (call w) as [w1 [e|]]; simpl; [done|]. by intros [= <- _].
Qed.

Lemma create_achieves key o w w' :
  k_Create key o w = (w', None) → kind_of o = key.1 →
  k_objects w !! key = None ∧ k_objects w' = <[key := o]> (k_objects w).
Proof.
  intros E Hk. apply k_Create_spec in E as [_ E]; [|done].
  destruct (k_objects w !! key); [by destruct E|]. by destruct E as [?|[? _]].
Qed.

Lemma update_achieves what key found o w w' u :
  or_fail what (k_Update key found o) w = (w', inl u) → kind_of o = key.1 →
  k_objects w !! key = Some found ∧ k_objects w' = <[key := o]> (k_objects w).
Proof.
  intros E%or_fail_inv Hk. apply k_Update_spec in E as (_ & [[? _]|(? & _ & E)]); done.
Qed.

(** After a read the objects are the same. *)
Lemma get_inv key (k : object + api_error → op unit) w w' u :
  bind (get key) k w = (w', inl u) →
  ∃ w1 r, k_objects w1 = k_objects w ∧ k r w1 = (w', inl u) ∧
    match r with
    | inl o => kind_of o = key.1
    | inr ApiNoKind => k_objects w1 !! key = None
    | inr ApiNotFound => k_objects w1 !! key = None ∨ ¬ fresh_objects
    | inr ApiOther => True
    end.
Proof.
  unfold bind, get. destruct (k_Get key w) as [w1 r] eqn:E. intros H.
  pose proof E as (Eo & _ & Hr)%k_Get_spec. exists w1, r. rewrite Eo.
  destruct r as [o|[]]; try done. split_and!; try done.
  destruct (k_objects w !! key) as [o|] eqn:Ho; [right|by left].
  intros Hf. specialize (Hf key w). rewrite E in Hf. simpl in Hf. congruence.
Qed.

(** The four reconcilers read the object and create or update it. *)
Ltac reconcile_object :=
  apply achieves_owner;
  intros w w' u (w1 & r & <- & H & Hr)%get_inv;
  destruct r as [[d|s|l o s|l o s]|[]]; try done.

(** What is left to show of a creation or an update. *)
Ltac created H :=
  let Ho := fresh "Ho" in apply or_fail_inv, create_achieves in H as [Ho ->]; [|done];
  apply brought_insert; unfold key_of; rewrite Ho.
Ltac updated H :=
  let Ho := fresh "Ho" in apply update_achieves in H as [Ho ->]; [|done];
  apply brought_insert; unfold key_of; rewrite Ho.

Lemma deployment_achieves p : achieves p (reconcileDeployment owner_ok p) [KDeployment].
Proof.
  reconcile_object; [updated H|created H]; simpl.
  - by rewrite updated_deployment_desired.
  - by rewrite new_deployment_desired.
Qed.

Lemma service_achieves p : achieves p (reconcileService owner_ok p) [KService].
Proof.
  unfold reconcileService. destruct (ps_Service (pp_Spec p)) as [sv|] eqn:Es.
  - reconcile_object; [updated H|created H]; simpl; by rewrite Es.
  - intros w w' u [= <- _]. apply brought_one; [done|]. left. simpl. by rewrite Es.
Qed.

Lemma enabled_Some a s : enabled s = Some a → au_Enabled a = true.
Proof. unfold enabled. destruct s as [a'|]; [|done]. destruct (au_Enabled a') eqn:E; [|done]. by intros [= <-]. Qed.

Lemma hpa_achieves a p :
  scaling p = Some a → au_Scaler a = "hpa"%string ∨ au_Scaler a = ""%string →
  achieves p (ReconcileHPA owner_ok (pp_Name p) (pp_Namespace p) (Some a) (pp_Name p) (labelsForPattern p) (pp_Name p))
    [KHPA].
Proof.
  intros Ea Hs. unfold ReconcileHPA. simpl.
  rewrite (enabled_Some a (ps_Autoscaling (pp_Spec p))), bool_decide_eq_false_2 by naive_solver.
  assert (au_Scaler a ≠ "keda"%string) as Ek by (destruct Hs as [-> | ->]; done).
  reconcile_object; [updated H|created H]; simpl; rewrite Ea; simpl;
    rewrite decide_False by done; by rewrite hpa_spec_desired.
Qed.

Lemma keda_achieves a p :
  scaling p = Some a → au_Scaler a = "keda"%string →
  achieves p (ReconcileKEDA owner_ok (pp_Name p) (pp_Namespace p) (Some a) (labelsForPattern p) (pp_Name p))
    [KScaledObject].
Proof.
  intros Ea Hs. unfold ReconcileKEDA. simpl.
  rewrite (enabled_Some a (ps_Autoscaling (pp_Spec p))), bool_decide_eq_false_2 by naive_solver.
  case_bool_decide as Htr; [by intros w w' u|]. reconcile_object.
  - updated H. simpl. rewrite Ea. simpl. rewrite decide_True by done. by rewrite keda_spec_desired.
  - unfold bind, attempt in H. destruct (k_Create _ _ w1) as [w2 [e|]] eqn:E; [done|]. injection H as <- _.
    apply create_achieves in E as [Ho ->]; [|done]. apply brought_insert. unfold key_of. rewrite Ho.
    simpl. rewrite Ea. simpl. rewrite decide_True by done. by rewrite keda_spec_desired.
Qed.

(** The object of a scaler that is not wanted is deleted, or was overlooked. *)
Lemma overlooked p k c :
  (∀ o, desired p k o = None) → c !! key_of k p = None ∨ ¬ fresh_objects → brought p [k] c c.
Proof.
  intros Hd Hc. apply brought_one; [done|]. unfold settled. rewrite !Hd.
  destruct Hc as [->|?]; auto.
Qed.

Lemma no_hpa p : (∀ o, desired p KHPA o = None) →
  achieves p (deleteHPA (pp_Name p) (pp_Namespace p)) [KHPA].
Proof.
  intros Hd w w' u (w1 & r & <- & H & Hr)%get_inv. destruct r as [o|[]]; try done.
  - apply or_fail_inv, k_Delete_spec in H as (_ & _ & [->|[? _]]); [|done]. by apply brought_delete.
  - injection H as <- _. by apply overlooked.
Qed.

Lemma no_keda p : (∀ o, desired p KScaledObject o = None) →
  achieves p (deleteScaledObject (pp_Name p) (pp_Namespace p)) [KScaledObject].
Proof.
  intros Hd w w' u (w1 & r & <- & H & Hr)%get_inv. destruct r as [o|[]]; try done.
  - unfold bind, attempt in H. destruct (k_Delete _ w1) as [w2 e] eqn:E.
    apply k_Delete_spec in E as (_ & Hno & He). destruct e as [[]|]; try done; injection H as <- _.
    + rewrite (Hno eq_refl). by apply brought_delete.
    + destruct He as [->|[? _]]; [|done]. by apply brought_delete.
  - injection H as <- _. by apply overlooked.
  - injection H as <- _. apply overlooked; [done|]. by left.
Qed.

Lemma achieves_perm p c ks ks' : (∀ k, k ∈ ks ↔ k ∈ ks') → achieves p c ks → achieves p c ks'.
Proof.
  intros Hk Hc w w' u H k id. specialize (Hc _ _ _ H k id). specialize (Hk k).
  destruct (decide (_ ∧ k ∈ ks)), (decide (_ ∧ k ∈ ks')); try done; exfalso; tauto.
Qed.

Lemma scaler_achieves p :
  achieves p (reconcileAutoscaling owner_ok both p) [KHPA; KScaledObject].
Proof.
  unfold reconcileAutoscaling, when. simpl. rewrite enabled_scaling. destruct (scaling p) as [a|] eqn:Ea.
  - assert (au_Scaler a = "hpa"%string ∨ au_Scaler a = ""%string → achieves p
      (bind (ReconcileHPA owner_ok (pp_Name p) (pp_Namespace p) (Some a) (pp_Name p) (labelsForPattern p) (pp_Name p))
        (λ _, ReconcileKEDA owner_ok (pp_Name p) (pp_Namespace p) None ∅ (pp_Name p)))
      [KHPA; KScaledObject]) as Hhpa.
    { intros Hs. apply (achieves_bind p _ _ [KHPA] [KScaledObject]); [set_solver|by apply hpa_achieves|].
      apply no_keda. intros o. simpl. rewrite Ea. simpl.
      rewrite decide_False; [done|]. by destruct Hs as [-> | ->]. }
    destruct (decide (au_Scaler a = ""%string)) as [E0|E0].
    { rewrite (bool_decide_eq_true_2 (au_Scaler a = "")%string) by done. apply Hhpa. by right. }
    rewrite (bool_decide_eq_false_2 (au_Scaler a = "")%string) by done.
    case_bool_decide as E1; [by apply Hhpa; left|]. case_bool_decide as E2; [|by intros w w' u].
    apply (achieves_perm p _ ([KScaledObject] ++ [KHPA])); [set_solver|].
    apply achieves_bind; [set_solver|by apply keda_achieves|].
    apply no_hpa. intros o. simpl. rewrite Ea. simpl. by rewrite decide_True.
  - apply (achieves_bind p _ _ [KHPA] [KScaledObject]); [set_solver|apply no_hpa|apply no_keda];
      intros o; simpl; by rewrite Ea.
Qed.

Lemma status_achieves p : achieves p (updateStatus p) [].
Proof.
  intros w w' u (w1 & r & <- & H & Hr)%get_inv. destruct r as [[d|s|l o s|l o s]|[]]; try done.
  - apply or_fail_inv, k_UpdateStatus_spec in H as [-> _]. apply brought_nil.
  - apply or_fail_inv, k_UpdateStatus_spec in H as [-> _]. apply brought_nil.
Qed.

Definition all_kinds : list kind := [KDeployment; KService; KHPA; KScaledObject].

Lemma all_kinds_all k : k ∈ all_kinds.
Proof. unfold all_kinds. destruct k; set_solver. Qed.

(** What a successful reconciliation did, with the pattern that the client returned. *)
Lemma Reconcile_inv key w w' u :
  Reconcile owner_ok both key w = (w', inl u) →
  match (k_GetPattern key w).2 with
  | inl p => (pp_Namespace p, pp_Name p) = key ∧ brought p all_kinds (k_objects w) (k_objects w')
  | inr e => e = ApiNotFound ∧ k_objects w' = k_objects w
  end.
Proof.
  unfold Reconcile, bind at 1. destruct (k_GetPattern key w) as [w1 r] eqn:E.
  apply k_GetPattern_spec in E as (Eo & _ & Hr). rewrite <- Eo. simpl. destruct r as [p|[]]; try done.
  - intros H. split; [done|]. clear Eo. revert w1 w' u H.
    apply (achieves_bind p _ _ [KDeployment] [KService; KHPA; KScaledObject]);
      [set_solver|apply deployment_achieves|].
    apply (achieves_bind p _ _ [KService] [KHPA; KScaledObject]); [set_solver|apply service_achieves|].
    apply (achieves_bind p _ _ [KHPA; KScaledObject] []); [set_solver|apply scaler_achieves|apply status_achieves].
  - by intros [= <- _].
Qed.

Lemma brought_reconciled p c c' : fresh_objects → brought p all_kinds c c' → c' = reconciled p c.
Proof.
  intros Hf Hb. apply map_eq. intros [k id]. rewrite reconciled_lookup. simpl.
  specialize (Hb k id). pose proof (all_kinds_all k).
  destruct (decide (_ ∧ _)) as [[H1 _]|H1], (decide (id = _)) as [H2|H2]; try done; try (exfalso; tauto).
  by destruct Hb as [?|[? _]].
Qed.

Lemma Reconcile_fresh key w w' u :
  fresh_objects → fresh_patterns → Reconcile owner_ok both key w = (w', inl u) →
  k_objects w' = if k_patterns w !! key is Some p then reconciled p (k_objects w) else k_objects w.
Proof.
  intros Hfo Hfp H%Reconcile_inv. specialize (Hfp key w). destruct ((k_GetPattern key w).2) as [p|e].
  - rewrite Hfp. by apply brought_reconciled, H.
  - destruct H as [-> ->]. by rewrite Hfp.
Qed.

(** C12. A reconciliation that reports success, whatever the API server answered on the
    way and however far the cache of the client lags behind: of the pattern that the
    client returned, the deployment, the service and the scaler hold what the pattern
    declares, field by field, and every other object is as it was; a service that is no
    longer declared stays, and a scaler that is not declared is gone, or the cache did not
    show it and it is as it was.  With a cache in step with the server the cluster is
    exactly the declared one, with one scaler of the declared kind or none. *)
Theorem reconcile_refines key w w' :
  Reconcile owner_ok both key w = (w', inl ()) →
  match (k_GetPattern key w).2 with
  | inl p => ∀ k id,
      if decide (id = key)
      then settled p k (k_objects w !! (k, id)) (k_objects w' !! (k, id))
      else k_objects w' !! (k, id) = k_objects w !! (k, id)
  | inr _ => k_objects w' = k_objects w
  end ∧
  (fresh_objects → fresh_patterns →
   k_objects w' = if k_patterns w !! key is Some p then reconciled p (k_objects w) else k_objects w).
Proof.
  intros H. split; [|by intros; eapply Reconcile_fresh]. apply Reconcile_inv in H.
  destruct ((k_GetPattern key w).2) as [p|e]; [|by destruct H]. destruct H as [<- Hb]. intros k id.
  specialize (Hb k id). pose proof (all_kinds_all k).
  destruct (decide (_ ∧ _)) as [[H1 _]|H1], (decide (id = _)) as [H2|H2]; try done; exfalso; tauto.
Qed.


(** ** Every outcome *)

(** [c] changes no pattern, and no objects but those called [id], however it ends. *)
Definition quiet {A} (id : string * string) (c : op A) : Prop :=
  ∀ w w' r, c w = (w', r) →
    k_patterns w' = k_patterns w ∧ ∀ key, key.2 ≠ id → k_objects w' !! key = k_objects w !! key.

Lemma quiet_ret {A} id (a : A) : quiet id (ret a).
Proof. by intros w w' r [= <- _]. Qed.
Lemma quiet_fail {A} id e : quiet id (fail (A := A) e).
Proof. by intros w w' r [= <- _]. Qed.
Lemma quiet_bind {A B} id (c : op A) (k : A → op B) : quiet id c → (∀ a, quiet id (k a)) → quiet id (bind c k).
Proof.
  intros Hc Hk w w' r. unfold bind. destruct (c w) as [w1 [a|e]] eqn:E.
  - intros H. destruct (Hc _ _ _ E) as [P1 O1], (Hk _ _ _ _ H) as [P2 O2].
    split; [by rewrite P2|]. intros key Hn. by rewrite O2, O1.
  - intros [= <- _]. by eapply Hc.
Qed.
Lemma quiet_get id key : quiet id (get key).
Proof.
  intros w w' r. unfold get. destruct (k_Get key w) as [w1 a] eqn:E. intros [= <- _].
  apply k_Get_spec in E as (E & P & _). rewrite E. by split.
Qed.

(** A call that changes the object at [key] or nothing. *)
Definition changes_at (key : object_key) (call : W → W * option api_error) : Prop :=
  ∀ w w' e, call w = (w', e) → k_patterns w' = k_patterns w ∧
    ∀ key', key' ≠ key → k_objects w' !! key' = k_objects w !! key'.

Lemma quiet_attempt key call : changes_at key call → quiet key.2 (attempt call).
Proof.
  intros Hc w w' r. unfold attempt. destruct (call w) as [w1 e] eqn:E. intros [= <- _].
  destruct (Hc _ _ _ E) as [P O]. split; [done|]. intros key' Hne. apply O. by intros ->.
Qed.
Lemma quiet_or_fail key what call : changes_at key call → quiet key.2 (or_fail what call).
Proof.
  intros Hc. apply quiet_bind; [by apply quiet_attempt|]. intros [e|]; [apply quiet_fail|apply quiet_ret].
Qed.
Lemma changes_Create key o : kind_of o = key.1 → changes_at key (k_Create key o).
Proof.
  intros Hk w w' e H. apply k_Create_spec in H as [P H]; [|done]. split; [done|]. intros key' Hne.
  case_match; [by destruct H as [_ ->]|].
  destruct H as [->|[_ ->]]; [by rewrite lookup_insert_ne|done].
Qed.
Lemma changes_Update key found o : kind_of o = key.1 → changes_at key (k_Update key found o).
Proof.
  intros Hk w w' e H. apply k_Update_spec in H as (P & H); [|done]. split; [done|]. intros key' Hne.
  destruct H as [[_ ->]|(_ & _ & ->)]; [done|by rewrite lookup_insert_ne].
Qed.
Lemma changes_Delete key : changes_at key (k_Delete key).
Proof.
  intros w w' e (P & _ & H)%k_Delete_spec. split; [done|]. intros key' Hne.
  destruct H as [->|[_ ->]]; [by rewrite lookup_delete_ne|done].
Qed.

Lemma quiet_owner id : quiet id (set_owner owner_ok).
Proof. unfold set_owner. destruct owner_ok; [apply quiet_ret|apply quiet_fail]. Qed.

Create HintDb quiet.
Hint Resolve quiet_ret quiet_fail quiet_get quiet_owner : quiet.
Hint Resolve changes_Create changes_Update changes_Delete : quiet.

(** Follow the shape of a reconciler. *)
Ltac quiet_tac :=
  repeat first
    [ progress eauto with quiet
    | match goal with
      | |- quiet _ (or_fail _ (k_Create ?key _)) => apply (quiet_or_fail key)
      | |- quiet _ (or_fail _ (k_Update ?key _ _)) => apply (quiet_or_fail key)
      | |- quiet _ (or_fail _ (k_Delete ?key)) => apply (quiet_or_fail key)
      | |- quiet _ (attempt (k_Create ?key _)) => apply (quiet_attempt key)
      | |- quiet _ (attempt (k_Delete ?key)) => apply (quiet_attempt key)
      | |- quiet _ (match ?x with _ => _ end) => destruct x
      end
    | apply quiet_bind; [|intro] ].

Lemma quiet_HPA name ns a target labels owner : quiet (ns, name) (ReconcileHPA owner_ok name ns a target labels owner).
Proof. unfold ReconcileHPA, deleteHPA. quiet_tac. Qed.
Lemma quiet_KEDA name ns a labels owner : quiet (ns, name) (ReconcileKEDA owner_ok name ns a labels owner).
Proof. unfold ReconcileKEDA, deleteScaledObject. quiet_tac. Qed.
Lemma quiet_deployment p : quiet (pp_Namespace p, pp_Name p) (reconcileDeployment owner_ok p).
Proof. unfold reconcileDeployment. quiet_tac. Qed.
Lemma quiet_service p : quiet (pp_Namespace p, pp_Name p) (reconcileService owner_ok p).
Proof. unfold reconcileService. quiet_tac. Qed.
Hint Resolve quiet_HPA quiet_KEDA quiet_deployment quiet_service : quiet.
Lemma quiet_scaler r p : quiet (pp_Namespace p, pp_Name p) (reconcileAutoscaling owner_ok r p).
Proof. unfold reconcileAutoscaling, when. quiet_tac. Qed.

Lemma updateStatus_inv p w w' r :
  updateStatus p w = (w', r) →
  k_objects w' = k_objects w ∧
  (k_patterns w' = k_patterns w ∨
   ∃ st q, k_patterns w !! (pp_Namespace p, pp_Name p) = Some q ∧
     k_patterns w' = <[(pp_Namespace p, pp_Name p) := set_status st q]> (k_patterns w)).
Proof.
  unfold updateStatus, bind, get. destruct (k_Get _ w) as [w1 a] eqn:E.
  apply k_Get_spec in E as (E & P & _).
  assert (∀ st, or_fail "failed to update status" (k_UpdateStatus (set_status st p)) w1 = (w', r) →
    k_objects w' = k_objects w ∧ (k_patterns w' = k_patterns w ∨
      ∃ st q, k_patterns w !! (pp_Namespace p, pp_Name p) = Some q ∧
        k_patterns w' = <[(pp_Namespace p, pp_Name p) := set_status st q]> (k_patterns w))) as Hst.
  { intros st H. unfold or_fail, bind, attempt in H.
    destruct (k_UpdateStatus _ w1) as [w2 e] eqn:Eu. apply k_UpdateStatus_spec in Eu as [E2 P2].
    assert (w2 = w') as -> by (by destruct e; injection H as <- _). rewrite E2, E. split; [done|].
    rewrite P in P2. destruct P2 as [->|(q & Hq & ->)]; [by left|right; by exists st, q]. }
  destruct a as [[d|s|l o s|l o s]|[]]; intros H; try (injection H as <- _; rewrite E, P; by auto); by eapply Hst.
Qed.

(** The same pattern, or none, up to its status. *)
Definition same_but_status (old new : option PrismPattern) : Prop :=
  match old with
  | Some p => ∃ st, new = Some (set_status st p)
  | None => new = None
  end.

Lemma set_status_id p : set_status (pp_Status p) p = p.
Proof. by destruct p. Qed.

Lemma same_but_status_refl o : same_but_status o o.
Proof. destruct o as [p|]; [|done]. exists (pp_Status p). by rewrite set_status_id. Qed.

(** [c] changes only objects of [p], and no pattern but the status of [p]. *)
Definition status_only (p : PrismPattern) (c : op unit) : Prop :=
  ∀ w w' r, c w = (w', r) →
    (∀ key, key.2 ≠ (pp_Namespace p, pp_Name p) → k_objects w' !! key = k_objects w !! key) ∧
    same_but_status (k_patterns w !! (pp_Namespace p, pp_Name p))
      (k_patterns w' !! (pp_Namespace p, pp_Name p)) ∧
    ∀ q, q ≠ (pp_Namespace p, pp_Name p) → k_patterns w' !! q = k_patterns w !! q.

Lemma status_only_update p : status_only p (updateStatus p).
Proof.
  intros w w' r H. apply updateStatus_inv in H as [-> [->|(st & q & Hq & ->)]].
  - split_and!; [done|apply same_but_status_refl|done].
  - split_and!; [done| |].
    + rewrite Hq. exists st. by rewrite lookup_insert_eq.
    + intros q' Hq'. by rewrite lookup_insert_ne.
Qed.

Lemma status_only_bind p c d :
  quiet (pp_Namespace p, pp_Name p) c → status_only p d → status_only p (bind c (λ _ : unit, d)).
Proof.
  intros Hc Hd w w' r. unfold bind. destruct (c w) as [w1 [a|e]] eqn:E; apply Hc in E as [P O].
  - intros H. apply Hd in H as (O2 & Hst & P2). split_and!; [|by rewrite <- P|].
    + intros key Hk. by rewrite O2, O.
    + intros q Hq. by rewrite P2, P.
  - intros [= <- _]. rewrite P. split_and!; [done|apply same_but_status_refl|done].
Qed.

(** However a reconciliation ends, it changed only objects of its pattern, and of the
    patterns only the status of this one. *)
Lemma Reconcile_outcome r key w w' res :
  Reconcile owner_ok r key w = (w', res) →
  (∀ k, k.2 ≠ key → k_objects w' !! k = k_objects w !! k) ∧
  (∀ q, q ≠ key → k_patterns w' !! q = k_patterns w !! q) ∧
  same_but_status (k_patterns w !! key) (k_patterns w' !! key).
Proof.
  unfold Reconcile, bind at 1. destruct (k_GetPattern key w) as [w1 a] eqn:E.
  apply k_GetPattern_spec in E as (E & P & Ha). destruct a as [p|e].
  - subst key. intros H.
    assert (status_only p (bind (reconcileDeployment owner_ok p) (λ _, bind (reconcileService owner_ok p)
      (λ _, bind (reconcileAutoscaling owner_ok r p) (λ _, updateStatus p))))) as Hs.
    { apply status_only_bind; [apply quiet_deployment|]. apply status_only_bind; [apply quiet_service|].
      apply status_only_bind; [apply quiet_scaler|apply status_only_update]. }
    destruct (Hs _ _ _ H) as (HO & Hst & HP). rewrite <- P. split_and!; [|done|done].
    intros k Hk. by rewrite HO, E.
  - intros H. assert (w1 = w') as -> by (by destruct e; injection H as <- _). rewrite E, P.
    split_and!; [done|done|apply same_but_status_refl].
Qed.

(** A reconciliation touches nothing of others, whatever fails on the way: no object
    but the deployment, service and scalers of its own pattern, no other pattern, and of
    its own pattern only the status. *)
Theorem reconcile_touches_only_its_own r key w w' res :
  Reconcile owner_ok r key w = (w', res) →
  (∀ k, k.2 ≠ key → k_objects w' !! k = k_objects w !! k) ∧
  (∀ q, q ≠ key → k_patterns w' !! q = k_patterns w !! q) ∧
  (∀ p, k_patterns w !! key = Some p →
     ∃ p', k_patterns w' !! key = Some p' ∧ pp_Spec p' = pp_Spec p ∧ pp_Generation p' = pp_Generation p).
Proof.
  intros H. destruct (Reconcile_outcome _ _ _ _ _ H) as (HO & HP & Hst). split_and!; [done|done|].
  intros p Hp. rewrite Hp in Hst. destruct Hst as [st ->]. by eexists.
Qed.

(** Reconciling is idempotent: when it succeeded, doing it again successfully
    changes no object, with a cache in step. *)
Theorem reconcile_idempotent key w w1 w2 :
  fresh_objects → fresh_patterns →
  Reconcile owner_ok both key w = (w1, inl ()) → Reconcile owner_ok both key w1 = (w2, inl ()) →
  k_objects w2 = k_objects w1.
Proof.
  intros Hfo Hfp H1 H2. destruct (Reconcile_outcome _ _ _ _ _ H1) as (_ & _ & Hp).
  apply Reconcile_fresh in H1, H2; try done.
  destruct (k_patterns w !! key) as [p|]; [|by rewrite Hp in H2].
  destruct Hp as [st Hst]. rewrite Hst in H2. rewrite H2, H1. apply map_eq. intros i.
  change (reconciled (set_status st p)) with (reconciled p).
  rewrite !reconciled_lookup. destruct (decide _); [by rewrite desired_idem|done].
Qed.

(** The selector of a deployment cannot be changed, and the operator derives it from
    the pattern type and the backend: once one of them is edited, no reconciliation of
    the edited pattern succeeds any more and none changes an object. *)
Theorem selector_change_blocks r key w w' res p d :
  (k_GetPattern key w).2 = inl p → k_objects w !! (KDeployment, key) = Some (ODeployment d) →
  dp_Selector d ≠ own_labels p → Reconcile owner_ok r key w = (w', res) →
  (∃ e, res = inr e) ∧ k_objects w' = k_objects w.
Proof.
  intros Hp Hd Hsel. unfold Reconcile, bind at 1. destruct (k_GetPattern key w) as [w1 a] eqn:E.
  apply k_GetPattern_spec in E as (E & P & Hkey). simpl in Hp. subst a. unfold bind at 1, reconcileDeployment, bind at 1, set_owner.
  destruct owner_ok; [|intros [= <- <-]; rewrite E; by eauto]. unfold ret, bind at 1, get.
  rewrite Hkey. destruct (k_Get _ w1) as [w2 o] eqn:Eg. apply k_Get_spec in Eg as (E2 & _ & Ho). rewrite E in Ho, E2.
  destruct o as [[d'|s|l o s|l o s]|[]]; try done; try (intros [= <- <-]; rewrite E2; by eauto);
    unfold or_fail, bind, attempt.
  - destruct (k_Update _ _ _ w2) as [w3 e] eqn:Eu. apply k_Update_spec in Eu as (_ & Hu); [|done].
    rewrite E2, Hd in Hu. destruct Hu as [[He Ew]|([= <-] & Hk & _)]; [|by destruct Hsel].
    destruct e as [e|]; [|done]. intros [= <- <-]. rewrite Ew. eauto.
  - destruct (k_Create _ _ w2) as [w3 e] eqn:Ec. apply k_Create_spec in Ec as (_ & Hc); [|done].
    rewrite E2, Hd in Hc. destruct Hc as [He Ew].
    destruct e as [e|]; [|done]. intros [= <- <-]. rewrite Ew. eauto.
Qed.

(** ** An API that answers, from a cache in step with the server *)

Record answering : Prop := {
  an_owner : owner_ok = true;
  an_Get : ∀ key w, (k_Get key w).2 = if k_objects w !! key is Some o then inl o else inr ApiNotFound;
  an_Create : ∀ key o w, k_objects w !! key = None → (k_Create key o w).2 = None;
  an_Update : ∀ key found o w, k_objects w !! key = Some found → selector_kept (Some found) (Some o) →
    (k_Update key found o w).2 = None;
  an_Delete : ∀ key w, is_Some (k_objects w !! key) → (k_Delete key w).2 = None;
  an_GetPattern : ∀ key w,
    (k_GetPattern key w).2 = if k_patterns w !! key is Some p then inl p else inr ApiNotFound;
  an_UpdateStatus : ∀ p w, is_Some (k_patterns w !! (pp_Namespace p, pp_Name p)) →
    (k_UpdateStatus p w).2 = None }.

Lemma answering_fresh : answering → fresh_objects ∧ fresh_patterns.
Proof.
  intros An. split; intros key w.
  - rewrite (an_Get An). by destruct (k_objects w !! key).
  - rewrite (an_GetPattern An). by destruct (k_patterns w !! key).
Qed.

Definition succeeds (c : op unit) (w : W) : Prop := ∃ w', c w = (w', inl ()).

Lemma succeeds_bind c (d : op unit) w :
  succeeds c w → (∀ w1, c w = (w1, inl ()) → succeeds d w1) → succeeds (bind c (λ _, d)) w.
Proof.
  intros [w1 E] Hd. destruct (Hd _ E) as [w2 E2]. exists w2. unfold bind. by rewrite E.
Qed.

(** What an answering API says of an object. *)
Definition answer (o : option object) : object + api_error :=
  match o with Some o => inl o | None => inr ApiNotFound end.

Lemma succeeds_get key (k : object + api_error → op unit) w :
  answering →
  (∀ w1, k_objects w1 = k_objects w → k_patterns w1 = k_patterns w →
     succeeds (k (answer (k_objects w1 !! key))) w1) →
  succeeds (bind (get key) k) w.
Proof.
  intros An Hk. pose proof (an_Get An key w) as Hr.
  destruct (k_Get key w) as [w1 r] eqn:E. pose proof E as (Eo & Ep & _)%k_Get_spec. simpl in Hr.
  destruct (Hk w1 Eo Ep) as [w2 E2]. exists w2. unfold bind, get. rewrite E, Hr, <- Eo. exact E2.
Qed.

Lemma succeeds_attempt call (k : option api_error → op unit) w :
  (call w).2 = None → (∀ w1, succeeds (k None) w1) → succeeds (bind (attempt call) k) w.
Proof.
  intros H Hk. destruct (call w) as [w1 e] eqn:E. simpl in H. subst e.
  destruct (Hk w1) as [w2 E2]. exists w2. unfold bind, attempt. by rewrite E.
Qed.

Lemma succeeds_ret w : succeeds (ret ()) w.
Proof. by exists w. Qed.

Lemma succeeds_call what call w : (call w).2 = None → succeeds (or_fail what call) w.
Proof. intros H. apply succeeds_attempt; [done|]. apply succeeds_ret. Qed.

Lemma selector_kept_other old o : (∀ d, o ≠ ODeployment d) → selector_kept old (Some o).
Proof. intros Ho. destruct old as [[]|], o; try done. by edestruct Ho. Qed.

Section Answering.
Hypothesis An : answering.

(** The steps the reconcilers share: the owner is set and the object read; then a call
    follows that the state allows. *)
Lemma succeeds_owner_get key (k : object + api_error → op unit) w :
  (∀ w1, k_objects w1 = k_objects w → k_patterns w1 = k_patterns w →
     succeeds (k (answer (k_objects w1 !! key))) w1) →
  succeeds (bind (set_owner owner_ok) (λ _, bind (get key) k)) w.
Proof.
  intros Hk. apply succeeds_bind.
  - unfold set_owner. rewrite (an_owner An). apply succeeds_ret.
  - intros w0. unfold set_owner. rewrite (an_owner An). intros [= <-]. by apply succeeds_get.
Qed.

Lemma succeeds_create what key o w : k_objects w !! key = None → succeeds (or_fail what (k_Create key o)) w.
Proof. intros H. by apply succeeds_call, (an_Create An). Qed.
Lemma succeeds_update what key o o' w :
  k_objects w !! key = Some o → selector_kept (Some o) (Some o') → succeeds (or_fail what (k_Update key o o')) w.
Proof. intros H Hs. by apply succeeds_call, (an_Update An). Qed.
Lemma succeeds_delete what key o w : k_objects w !! key = Some o → succeeds (or_fail what (k_Delete key)) w.
Proof. intros H. apply succeeds_call, (an_Delete An). by eexists. Qed.

Create HintDb succeeds.
Hint Resolve succeeds_ret succeeds_create succeeds_update succeeds_delete selector_kept_other : succeeds.

(** Case distinction on what was found at [key]. *)
Ltac found :=
  let w1 := fresh "w" in let Eo := fresh "Eo" in
  intros w1 Eo _;
  match goal with |- succeeds (match answer (k_objects _ !! ?key) with _ => _ end) _ =>
    destruct (k_objects w1 !! key) as [[]|] eqn:?; simpl end;
  try by eauto with succeeds.

Lemma deployment_succeeds p w :
  (∀ d, k_objects w !! (KDeployment, (pp_Namespace p, pp_Name p)) = Some (ODeployment d) →
     dp_Selector d = own_labels p) →
  succeeds (reconcileDeployment owner_ok p) w.
Proof.
  intros Hsel. apply succeeds_owner_get. found. eapply succeeds_update; [done|]. simpl.
  symmetry. apply Hsel. congruence.
Qed.

Lemma service_succeeds p w : succeeds (reconcileService owner_ok p) w.
Proof.
  unfold reconcileService. destruct (ps_Service _); [|apply succeeds_ret]. apply succeeds_owner_get. found.
Qed.

Lemma deleteHPA_succeeds name ns w : succeeds (deleteHPA name ns) w.
Proof. apply succeeds_get; [done|]. found. Qed.

Lemma deleteScaledObject_succeeds name ns w : succeeds (deleteScaledObject name ns) w.
Proof.
  apply succeeds_get; [done|]. found;
    (apply succeeds_attempt; [apply (an_Delete An); by eexists|]; intros; apply succeeds_ret).
Qed.

Lemma HPA_succeeds name ns a target labels owner w : succeeds (ReconcileHPA owner_ok name ns a target labels owner) w.
Proof.
  unfold ReconcileHPA. destruct (enabled a); [|apply deleteHPA_succeeds].
  case_bool_decide; [apply succeeds_ret|]. apply succeeds_owner_get. found.
Qed.

Lemma KEDA_succeeds name ns a labels owner w :
  (∀ s, enabled a = Some s → au_Scaler s = "keda"%string → au_Triggers s ≠ []) →
  succeeds (ReconcileKEDA owner_ok name ns a labels owner) w.
Proof.
  intros Ha. unfold ReconcileKEDA. destruct (enabled a) as [s|]; [|apply deleteScaledObject_succeeds].
  case_bool_decide as Hs; [apply succeeds_ret|].
  rewrite bool_decide_eq_false_2 by (intros E%nil_length_inv; by eapply Ha). apply succeeds_owner_get. found.
  apply succeeds_attempt; [by apply (an_Create An)|]. intros. apply succeeds_ret.
Qed.

(** A scaler that the operator knows, with what it needs. *)
Definition valid_scaler (p : PrismPattern) : Prop :=
  ∀ a, scaling p = Some a →
    au_Scaler a = ""%string ∨ au_Scaler a = "hpa"%string ∨ (au_Scaler a = "keda"%string ∧ au_Triggers a ≠ []).

Lemma succeeds_when b c w : (∀ w, succeeds c w) → succeeds (when b c) w.
Proof. intros Hc. destruct b; [apply Hc|apply succeeds_ret]. Qed.

Lemma scaler_succeeds r p w : valid_scaler p → succeeds (reconcileAutoscaling owner_ok r p) w.
Proof.
  intros Hv. unfold reconcileAutoscaling. destruct (enabled _) as [a|] eqn:Ea.
  - specialize (Hv a Ea).
    assert (enabled (Some a) = Some a) as Ee by (simpl; by rewrite (enabled_Some _ _ Ea)).
    repeat case_bool_decide; try naive_solver; (apply succeeds_bind; [|intros]); apply succeeds_when; intros;
      first [apply HPA_succeeds|apply KEDA_succeeds]; naive_solver.
  - apply succeeds_bind; [|intros]; apply succeeds_when; intros; [apply HPA_succeeds|by apply KEDA_succeeds].
Qed.

Lemma status_succeeds p w :
  is_Some (k_patterns w !! (pp_Namespace p, pp_Name p)) → succeeds (updateStatus p) w.
Proof.
  intros Hp. apply succeeds_get; [done|]. intros w1 _ Ep.
  destruct (k_objects w1 !! _) as [[]|]; simpl; try apply succeeds_ret;
    apply succeeds_call, (an_UpdateStatus An); by rewrite Ep.
Qed.
End Answering.

(** C13. When the API server answers every call and the cache of the client is in step
    with it, a declared pattern is brought about: the reconciliation succeeds, given a
    scaler that the operator knows (with triggers, for KEDA) and no deployment with
    another selector in the way; and the cluster is then the one that the pattern
    declares field by field, all other objects being as they were. *)
Theorem reconcile_succeeds key w p :
  answering → k_patterns w !! key = Some p → valid_scaler p →
  (∀ d, k_objects w !! (KDeployment, key) = Some (ODeployment d) → dp_Selector d = own_labels p) →
  ∃ w', Reconcile owner_ok both key w = (w', inl ()) ∧ k_objects w' = reconciled p (k_objects w).
Proof.
  intros An Hp Hv Hsel. cut (succeeds (Reconcile owner_ok both key) w).
  { intros [w' E]. exists w'. split; [done|]. destruct (answering_fresh An) as [Hfo Hfp].
    apply Reconcile_fresh in E; [|done..]. by rewrite Hp in E. }
  unfold succeeds, Reconcile, bind at 1. pose proof (an_GetPattern An key w) as Ha. rewrite Hp in Ha.
  destruct (k_GetPattern key w) as [w1 a] eqn:E. apply k_GetPattern_spec in E as (Eo & Ep & _).
  simpl in Ha. subst a. pose proof (k_names _ _ _ Hp) as Hkey.
  apply succeeds_bind. { apply deployment_succeeds; [done|]. by rewrite Eo, Hkey. }
  intros w2 [P2 _]%quiet_deployment. apply succeeds_bind; [by apply service_succeeds|].
  intros w3 [P3 _]%quiet_service. apply succeeds_bind; [by apply scaler_succeeds|].
  intros w4 [P4 _]%quiet_scaler. apply status_succeeds; [done|].
  rewrite P4, P3, P2, Ep, Hkey. by eexists.
Qed.
End Spec.
