(* ===== verification/OperatorDemo.v ===== *)
(** * A cluster to run the operator on

    An API server that keeps objects and patterns in maps and answers every call, the
    witnesses of OperatorSpec.v on it, and runs that show how the operator treats
    objects it did not make, services that are no longer declared and scalers it does
    not know. *)

From stdpp Require Import pretty.
From S2P Require Import Prelude Memstore Slots Operator OperatorSpec.
Local Open Scope Z_scope.
Local Open Scope string_scope.

(** ** The server *)

Record world := mkWorld {
  wd_objects : Cluster;
  wd_patterns : gmap (string * string) PrismPattern }.

(** Only objects and patterns that are stored under their own kind and name exist. *)
Definition wd_view (w : world) : Cluster := filter (λ ko, kind_of ko.2 = ko.1.1) (wd_objects w).
Definition wd_declared (w : world) : gmap (string * string) PrismPattern :=
  filter (λ kp, (pp_Namespace kp.2, pp_Name kp.2) = kp.1) (wd_patterns w).

#[global] Instance placement_dec : EqDecision PlacementSpec.
Proof. solve_decision. Defined.
#[global] Instance pod_dec : EqDecision PodSpec.
Proof. solve_decision. Defined.
#[global] Instance deployment_dec : EqDecision Deployment.
Proof. solve_decision. Defined.
#[global] Instance service_dec : EqDecision Service.
Proof. solve_decision. Defined.
#[global] Instance metric_dec : EqDecision metric.
Proof. solve_decision. Defined.
#[global] Instance hpa_spec_dec : EqDecision HPASpec.
Proof. solve_decision. Defined.
#[global] Instance keda_spec_dec : EqDecision KEDASpec.
Proof. solve_decision. Defined.
#[global] Instance object_dec : EqDecision object.
Proof. solve_decision. Defined.

Definition selector_keptb (old : option object) (new : object) : bool :=
  match old, new with
  | Some (ODeployment d), ODeployment d' => bool_decide (dp_Selector d' = dp_Selector d)
  | _, _ => true
  end.

Lemma selector_keptb_spec old new : selector_keptb old new = true ↔ selector_kept old (Some new).
Proof. destruct old as [[]|], new; simpl; try done. apply bool_decide_eq_true. Qed.

Definition wd_Create (key : object_key) (o : object) (w : world) : world * option api_error :=
  match wd_view w !! key with
  | Some _ => (w, Some ApiOther)
  | None => (mkWorld (<[key := o]> (wd_objects w)) (wd_patterns w), None)
  end.

Definition wd_Update (key : object_key) (found o : object) (w : world) : world * option api_error :=
  match wd_view w !! key with
  | None => (w, Some ApiNotFound)
  | Some cur => if bool_decide (cur = found) && selector_keptb (Some found) o
                then (mkWorld (<[key := o]> (wd_objects w)) (wd_patterns w), None)
                else (w, Some ApiOther)
  end.

Definition wd_Delete (key : object_key) (w : world) : world * option api_error :=
  match wd_view w !! key with
  | None => (w, Some ApiNotFound)
  | Some _ => (mkWorld (delete key (wd_objects w)) (wd_patterns w), None)
  end.

Definition wd_UpdateStatus (p : PrismPattern) (w : world) : world * option api_error :=
  let key := (pp_Namespace p, pp_Name p) in
  match wd_declared w !! key with
  | None => (w, Some ApiNotFound)
  | Some q => (mkWorld (wd_objects w) (<[key := set_status (pp_Status p) q]> (wd_patterns w)), None)
  end.

Lemma wd_view_insert key o objects patterns :
  kind_of o = key.1 →
  wd_view (mkWorld (<[key := o]> objects) patterns) = <[key := o]> (wd_view (mkWorld objects patterns)).
Proof. intros Hk. unfold wd_view. simpl. by rewrite map_filter_insert_True. Qed.
Lemma wd_view_delete key objects patterns :
  wd_view (mkWorld (delete key objects) patterns) = delete key (wd_view (mkWorld objects patterns)).
Proof. unfold wd_view. simpl. by rewrite map_filter_delete. Qed.

Lemma wd_Create_spec key o w w' e :
  wd_Create key o w = (w', e) → kind_of o = key.1 →
  wd_declared w' = wd_declared w ∧
  (if wd_view w !! key is Some _ then e ≠ None ∧ wd_view w' = wd_view w
   else effect (negb (bool_decide (e = None))) (wd_view w) (<[key := o]> (wd_view w)) (wd_view w')).
Proof.
  unfold wd_Create. destruct w as [os ps], (wd_view _ !! key); intros [= <- <-] Hk; [done|].
  split; [done|]. left. by rewrite wd_view_insert.
Qed.

Lemma wd_Update_spec key found o w w' e :
  wd_Update key found o w = (w', e) → kind_of o = key.1 →
  wd_declared w' = wd_declared w ∧
  (e ≠ None ∧ wd_view w' = wd_view w ∨
   wd_view w !! key = Some found ∧ selector_kept (Some found) (Some o) ∧
   wd_view w' = <[key := o]> (wd_view w)).
Proof.
  unfold wd_Update. destruct (wd_view w !! key) as [o'|] eqn:Eo; [|by intros [= <- <-] _; split_and!; auto].
  destruct (bool_decide (o' = found) && _) eqn:Es; intros [= <- <-] Hk; [|by split_and!; auto].
  apply andb_true_iff in Es as [->%bool_decide_eq_true Es%selector_keptb_spec].
  split; [done|right]. split_and!; [done|done|]. destruct w. by rewrite wd_view_insert.
Qed.

Lemma wd_Delete_spec key w w' e :
  wd_Delete key w = (w', e) →
  wd_declared w' = wd_declared w ∧ (e = Some ApiNoKind → wd_view w' = delete key (wd_view w)) ∧
  effect (negb (bool_decide (e = None))) (wd_view w) (delete key (wd_view w)) (wd_view w').
Proof.
  unfold wd_Delete. destruct (wd_view w !! key); intros [= <- <-]; [|split_and!; [done..|by right]].
  split_and!; [done..|left]. destruct w. by rewrite wd_view_delete.
Qed.

Lemma wd_UpdateStatus_spec p w w' e :
  wd_UpdateStatus p w = (w', e) →
  wd_view w' = wd_view w ∧
  (wd_declared w' = wd_declared w ∨
   ∃ q, wd_declared w !! (pp_Namespace p, pp_Name p) = Some q ∧
        wd_declared w' = <[(pp_Namespace p, pp_Name p) := set_status (pp_Status p) q]> (wd_declared w)).
Proof.
  unfold wd_UpdateStatus. destruct (wd_declared w !! _) as [q|] eqn:E; intros [= <- <-]; [|by auto].
  split; [done|right]. exists q. split; [done|]. apply map_lookup_filter_Some in E as [_ E].
  unfold wd_declared. simpl. by rewrite map_filter_insert_True.
Qed.

#[refine] Instance world_api : KubeAPI world := {|
  k_objects := wd_view;
  k_patterns := wd_declared;
  k_Get key w := (w, if wd_view w !! key is Some o then inl o else inr ApiNotFound);
  k_Create := wd_Create;
  k_Update := wd_Update;
  k_Delete := wd_Delete;
  k_GetPattern key w := (w, if wd_declared w !! key is Some p then inl p else inr ApiNotFound);
  k_UpdateStatus := wd_UpdateStatus |}.
Proof.
  - by intros w key o [_ H]%map_lookup_filter_Some.
  - by intros w key p [_ H]%map_lookup_filter_Some.
  - intros key w w' r [= <- <-]. split_and!; [done..|].
    destruct (wd_view w !! key) as [o|] eqn:E; [|done]. by apply map_lookup_filter_Some in E as [_ E].
  - apply wd_Create_spec.
  - apply wd_Update_spec.
  - apply wd_Delete_spec.
  - intros key w w' r [= <- <-]. split_and!; [done..|].
    destruct (wd_declared w !! key) as [p|] eqn:E; [|done]. by apply map_lookup_filter_Some in E as [_ E].
  - apply wd_UpdateStatus_spec.
Defined.

Lemma world_answers : answering (W := world) true.
Proof.
  split; simpl; [done|done|..|done|].
  - intros key o w H. unfold wd_Create. by rewrite H.
  - intros key found o w H Hs. apply (proj2 (selector_keptb_spec (Some found) o)) in Hs.
    unfold wd_Update. rewrite H, Hs.
    by rewrite bool_decide_eq_true_2.
  - intros key w [o H]. unfold wd_Delete. by rewrite H.
  - intros p w [q H]. unfold wd_UpdateStatus. by rewrite H.
Qed.

(** ** A pattern *)

Definition key : string * string := ("prod", "orders").

Definition scaled (scaler : string) : AutoscalingSpec :=
  mkAutoscalingSpec true scaler 2 5 (Some 80) None [] None [mkKEDATrigger "kafka" ∅ None] None None.

Definition orders (backend : string) (service : bool) (auto : option AutoscalingSpec) : PrismPattern :=
  mkPrismPattern "orders" "prod" 1
    (mkPrismPatternSpec "consumer" backend "img:1" 3 "" (if service then Some (mkPatternServiceSpec "ClusterIP" 8080) else None)
       auto None)
    (mkPrismPatternStatus "" 0 0 0 []).

Definition world_of (p : PrismPattern) : world := mkWorld ∅ {[ key := p ]}.
Definition declare (p : PrismPattern) (w : world) : world := mkWorld (wd_objects w) (<[key := p]> (wd_patterns w)).
Definition both := mkReconciler true true.
Definition run (p : PrismPattern) (w : world) := Reconcile true both key (declare p w).
Definition w1 : world := (run (orders "redis" true (Some (scaled "hpa"))) (world_of (orders "redis" true None))).1.

Lemma run_w1 : run (orders "redis" true (Some (scaled "hpa"))) (world_of (orders "redis" true None)) = (w1, inl ()).
Proof. vm_compute. reflexivity. Qed.

(** ** Witnesses *)

Definition p_hpa : PrismPattern := orders "redis" true (Some (scaled "hpa")).
Definition p_keda : PrismPattern := orders "redis" true (Some (scaled "keda")).

Lemma reconcile_refines_witness :
  Reconcile true both key (world_of p_hpa) = (w1, inl ()) ∧
  k_objects w1 = reconciled p_hpa (k_objects (world_of p_hpa)) ∧
  map (λ ko, ko.1.1) (map_to_list (k_objects w1)) ≡ₚ [KDeployment; KService; KHPA].
Proof.
  assert (Reconcile true both key (world_of p_hpa) = (w1, inl ())) as H by (vm_compute; reflexivity).
  split; [exact H|]. split; [|by apply (bool_decide_unpack _); vm_compute].
  destruct (answering_fresh true world_answers) as [Hfo Hfp].
  pose proof (proj2 (reconcile_refines true key (world_of p_hpa) w1 H) Hfo Hfp) as E.
  assert (k_patterns (world_of p_hpa) !! key = Some p_hpa) as Ep by (vm_compute; reflexivity).
  rewrite Ep in E. exact E.
Defined.

Definition w2 : world := (run p_keda w1).1.

Lemma reconcile_touches_only_its_own_witness :
  ∃ w res, Reconcile true both ("prod", "other") w1 = (w, res) ∧
    k_objects w !! (KDeployment, key) = k_objects w1 !! (KDeployment, key).
Proof.
  exists (Reconcile true both ("prod", "other") w1).1, (Reconcile true both ("prod", "other") w1).2.
  assert (Reconcile true both ("prod", "other") w1
    = ((Reconcile true both ("prod", "other") w1).1, (Reconcile true both ("prod", "other") w1).2)) as H
    by (destruct (Reconcile _ _ _ _); reflexivity).
  split; [exact H|].
  apply (proj1 (reconcile_touches_only_its_own true both ("prod", "other") _ _ _ H)). discriminate.
Defined.

Definition w3 : world := (Reconcile true both key w2).1.

Lemma reconcile_idempotent_witness :
  run p_keda w1 = (w2, inl ()) ∧ Reconcile true both key w2 = (w3, inl ()) ∧ k_objects w3 = k_objects w2.
Proof.
  assert (run p_keda w1 = (w2, inl ())) as H by (vm_compute; reflexivity).
  assert (Reconcile true both key w2 = (w3, inl ())) as H' by (vm_compute; reflexivity).
  split; [exact H|]. split; [exact H'|]. destruct (answering_fresh true world_answers) as [Hfo Hfp].
  exact (reconcile_idempotent true key _ w2 w3 Hfo Hfp H H').
Defined.

Definition p_nats : PrismPattern := orders "nats" true (Some (scaled "hpa")).

Lemma selector_change_blocks_witness :
  ∃ w e, run p_nats w1 = (w, inr e) ∧ k_objects w = k_objects w1.
Proof.
  destruct (Reconcile true both key (declare p_nats w1)) as [w res] eqn:E.
  assert (∃ d, k_objects (declare p_nats w1) !! (KDeployment, key) = Some (ODeployment d) ∧
    bool_decide (dp_Selector d = own_labels p_nats) = false) as (d & Hd & Hs).
  { eexists. split; vm_compute; reflexivity. }
  destruct (selector_change_blocks true both key (declare p_nats w1) w res p_nats d) as [[e ->] Ho].
  - vm_compute. reflexivity.
  - exact Hd.
  - by apply bool_decide_eq_false in Hs.
  - exact E.
  - exists w, e. split; [exact E|exact Ho].
Defined.

Lemma reconcile_succeeds_witness :
  ∃ w, Reconcile true both key (declare p_keda w1) = (w, inl ()) ∧
    k_objects w = reconciled p_keda (k_objects (declare p_keda w1)).
Proof.
  apply (reconcile_succeeds true key (declare p_keda w1) p_keda world_answers).
  - vm_compute. reflexivity.
  - intros a Ha. right. right. vm_compute in Ha. injection Ha as <-. done.
  - intros d Hd. vm_compute in Hd. injection Hd as <-. vm_compute. reflexivity.
Defined.

(** ** A cache that lags behind

    The same server behind a client whose cache shows the objects [lg_cache]. *)

Record lagging := mkLagging { lg_world : world; lg_cache : Cluster }.

Definition lg_call (call : world → world * option api_error) (l : lagging) : lagging * option api_error :=
  let '(w, e) := call (lg_world l) in (mkLagging w (lg_cache l), e).

Lemma lg_call_inv call l l' e :
  lg_call call l = (l', e) → call (lg_world l) = (lg_world l', e).
Proof. unfold lg_call. destruct (call _) as [w e']. by intros [= <- <-]. Qed.

#[refine] Instance lagging_api : KubeAPI lagging := {|
  k_objects l := wd_view (lg_world l);
  k_patterns l := wd_declared (lg_world l);
  k_Get key l := (l, if wd_view (mkWorld (lg_cache l) ∅) !! key is Some o then inl o else inr ApiNotFound);
  k_Create key o := lg_call (wd_Create key o);
  k_Update key found o := lg_call (wd_Update key found o);
  k_Delete key := lg_call (wd_Delete key);
  k_GetPattern key l := (l, if wd_declared (lg_world l) !! key is Some p then inl p else inr ApiNotFound);
  k_UpdateStatus p := lg_call (wd_UpdateStatus p) |}.
Proof.
  - by intros l key o [_ H]%map_lookup_filter_Some.
  - by intros l key p [_ H]%map_lookup_filter_Some.
  - intros key l l' r [= <- <-]. split_and!; [done..|].
    destruct (wd_view _ !! key) as [o|] eqn:E; [|done]. by apply map_lookup_filter_Some in E as [_ E].
  - intros key o l l' e H%lg_call_inv. by eapply wd_Create_spec.
  - intros key found o l l' e H%lg_call_inv. by eapply wd_Update_spec.
  - intros key l l' e H%lg_call_inv. by eapply wd_Delete_spec.
  - intros key l l' r [= <- <-]. split_and!; [done..|].
    destruct (wd_declared _ !! key) as [p|] eqn:E; [|done]. by apply map_lookup_filter_Some in E as [_ E].
  - intros p l l' e H%lg_call_inv. by eapply wd_UpdateStatus_spec.
Defined.

(** An HPA that the cache does not show yet survives the switch to KEDA, which reports
    success: both scalers are there. *)
Example overlooked_scaler_stays :
  let cache := delete (KHPA, key) (wd_objects w1) in
  let '(l, r) := Reconcile true both key (mkLagging (declare p_keda w1) cache) in
  r = inl () ∧ is_Some (k_objects l !! (KHPA, key)) ∧ is_Some (k_objects l !! (KScaledObject, key)).
Proof. vm_compute. split_and!; eauto. Qed.

(** ** Runs *)

Definition exists_ (k : kind) (w : world) : bool := bool_decide (is_Some (k_objects w !! (k, key))).

(** Changing the scaler replaces the one object by the other. *)
Example scaler_is_replaced :
  (exists_ KHPA w1, exists_ KScaledObject w1) = (true, false) ∧
  (exists_ KHPA w2, exists_ KScaledObject w2) = (false, true).
Proof. split; vm_compute; reflexivity. Qed.

(** A service that is no longer declared stays. *)
Example removed_service_stays :
  let '(w, r) := run (orders "redis" false None) w1 in r = inl () ∧ exists_ KService w = true.
Proof. vm_compute. split; reflexivity. Qed.

(** A deployment of the same name that belongs to another owner is taken over, and
    remains the other owner's. *)
Example foreign_deployment_is_overwritten :
  let d := mkDeployment ∅ (Some "somebody") (Some 1) (labelsForPattern p_hpa) ∅
             (mkPodSpec "x" "theirs" [] "" [] None) 1 1 1 in
  let '(w, r) := Reconcile true both key
                   (mkWorld {[ (KDeployment, key) := ODeployment d ]} {[ key := orders "redis" true None ]}) in
  r = inl () ∧
  match k_objects w !! (KDeployment, key) with
  | Some (ODeployment d') => dp_Owner d' = Some "somebody" ∧ pod_Image (dp_PodSpec d') = "img:1"
  | _ => False
  end.
Proof. vm_compute. split_and!; reflexivity. Qed.

(** A scaler that the operator does not know: the deployment is made, and the status
    says nothing about it. *)
Example unknown_scaler_leaves_status :
  let '(w, r) := run (orders "redis" true (Some (scaled "vpa"))) (world_of p_hpa) in
  r = inr (ErrUnknownScaler "vpa") ∧ exists_ KDeployment w = true ∧
  (st_Phase ∘ pp_Status) <$> k_patterns w !! key = Some "".
Proof. vm_compute. split_and!; reflexivity. Qed.

(** A deployment scaled to nothing is pending, whatever runs. *)
Example scaled_to_zero_is_pending :
  phase_of (mkDeployment ∅ None (Some 0) ∅ ∅ (mkPodSpec "" "" [] "" [] None) 2 2 1) = "Pending".
Proof. reflexivity. Qed.
