(* ===== verification/Runners.v ===== *)
(** * Pattern runners

    patterns/consumer/cmd/consumer-runner, patterns/keyvalue/cmd/keyvalue-runner and
    patterns/multicast_registry/cmd/multicast-registry-runner: the construction of a
    pattern from its configuration, and the adapters through which the control plane
    drives it.  A driver is created on a heap and referred to by its place there, since
    the runner and the pattern share it; what the driver does is an argument, the class
    [Drivers] over the plugin interface.  The flags, the files and the signals of [main]
    are left out. *)

From S2P Require Import Prelude Backoff Memstore MemPubSub Slots Coordinator Consumer Plugin.
Import GoFloat.
Local Open Scope Z_scope.

(** ** The drivers *)

Inductive driver := DNats | DMemstore | DRedis | DKafka | DPostgres.
#[global] Instance driver_dec : EqDecision driver.
Proof. solve_decision. Defined.

Inductive iface := KeyValueBasicInterface | PubSubInterface | QueueInterface.

(** The interfaces whose methods a driver has. *)
Definition implements (d : driver) (i : iface) : bool :=
  match i with
  | KeyValueBasicInterface => match d with DMemstore | DRedis | DPostgres => true | _ => false end
  | PubSubInterface | QueueInterface => match d with DNats | DKafka => true | _ => false end
  end.

(** [Start] of these returns when its context ends. *)
Definition start_waits (d : driver) : bool := match d with DKafka | DPostgres => true | _ => false end.

(** What the runners rely on: the type of a driver does not change. *)
Class Drivers (B : Type) `{!Plugin B} := {
  dr_New : driver → B;
  dr_kind : B → driver;
  dr_New_kind d : dr_kind (dr_New d) = d;
  dr_Initialize_kind c b : dr_kind (pl_Initialize c b).1 = dr_kind b;
  dr_Start_kind b : dr_kind (pl_Start b).1 = dr_kind b;
  dr_Stop_kind b : dr_kind (pl_Stop b).1 = dr_kind b }.

(** ** Configuration *)

Abbreviation any_map := (gmap string any).

Record SlotConfig := mkSlotConfig {
  sl_Backend : string;
  sl_Interfaces : list string;
  sl_Config : any_map }.

Definition as_map (a : any) : option any_map := match a with AnyMap m => Some (list_to_map m) | _ => None end.
Definition as_string (a : any) : option string := match a with AnyString s => Some s | _ => None end.
Definition as_slice (a : any) : option (list any) := match a with AnySlice l => Some l | _ => None end.

(** [driver] is another name for [backend]. *)
Definition parseSlotConfig (slotMap : any_map) : SlotConfig :=
  mkSlotConfig
    (match slotMap !! "backend" ≫= as_string with
     | Some backend => backend
     | None => default "" (slotMap !! "driver" ≫= as_string)
     end)
    (match slotMap !! "interfaces" ≫= as_slice with Some l => omap as_string l | None => [] end)
    (default ∅ (slotMap !! "config" ≫= as_map))%string.

Definition parse_slot (key : string) (slotsMap : any_map) : option SlotConfig :=
  parseSlotConfig <$> (slotsMap !! key ≫= as_map).

(** The helpers of the consumer runner; [ovf] is what the conversion of a number out of
    range yields. *)
Definition getStringFromBehavior (behavior : any_map) (key : string) : string :=
  default ""%string (behavior !! key ≫= as_string).
Definition getIntFromBehavior (ovf : Z) (behavior : any_map) (key : string) : Z :=
  match behavior !! key with
  | Some (AnyInt n) => n
  | Some (AnyFloat f) => f64_to_int64 ovf f
  | _ => 0
  end.
Definition getBoolFromBehavior (behavior : any_map) (key : string) : bool :=
  match behavior !! key with Some (AnyBool b) => b | _ => false end.

Inductive runner_error :=
  | ErrNilSlot
  | ErrUnsupportedBackend (name : string)
  | ErrBackendInitialize (e : string)
  | ErrBackendStart (e : string)
  | ErrInterface (slot : string)
  | ErrConsumer (e : consumer_error)
  | ErrCoordinator (e : coordinator_error)
  | ErrMissing (key : string)
  | ErrNotAMap (key : string)
  | ErrStop (e : string).

(** [Waiting]: the call does not return; [Crashed]: a panic. *)
Inductive outcome (A : Type) :=
  | Done (a : A)
  | Failed (e : runner_error)
  | Crashed
  | Waiting.
Arguments Done {_} _.
Arguments Failed {_} _.
Arguments Crashed {_}.
Arguments Waiting {_}.

(** ** The machine of a runner *)

Section Runners.
Context {B : Type} `{!Plugin B} `{!Drivers B} (ovf : Z).

(** A driver with the number of its [Start] calls that succeeded, or that wait for the
    end of their context while the driver runs, and of its [Stop] calls. *)
Record object := mkObject { ob_backend : B; ob_started : nat; ob_stopped : nat }.

Definition ob_kind (o : object) : driver := dr_kind (ob_backend o).

(** The state of a runner of type [R] and the drivers it created. *)
Record machine (R : Type) := mkMachine { mc_heap : list object; mc_runner : R }.
Arguments mkMachine {_} _ _.
Arguments mc_heap {_} _.
Arguments mc_runner {_} _.

Definition action (R A : Type) : Type := machine R → machine R * outcome A.
Definition ret {R A} (a : A) : action R A := λ m, (m, Done a).
Definition fail {R A} (e : runner_error) : action R A := λ m, (m, Failed e).
Definition crash {R A} : action R A := λ m, (m, Crashed).
Definition bind {R A A'} (c : action R A) (k : A → action R A') : action R A' :=
  λ m, let '(m, r) := c m in
       match r with Done a => k a m | Failed e => (m, Failed e) | Crashed => (m, Crashed) | Waiting => (m, Waiting) end.
Notation "'let!' x := c 'in' k" := (bind c (λ x, k)) (at level 10, x name, k at level 200).
Notation "c ;; k" := (bind c (λ _, k)) (at level 100, k at level 200, right associativity).
Definition the_runner {R} : action R R := λ m, (m, Done (mc_runner m)).
Definition modify {R} (f : R → R) : action R unit := λ m, (mkMachine (mc_heap m) (f (mc_runner m)), Done ()).

(** A type assertion on the driver at [id]. *)
Definition asserts {R} (id : nat) (i : iface) : action R bool :=
  λ m, (m, Done (match mc_heap m !! id with Some o => implements (ob_kind o) i | None => false end)).

(** The driver at [id] is started, stopped. *)
Definition start_object {R} (id : nat) : action R (option string) :=
  λ m, match mc_heap m !! id with
       | None => (m, Crashed)
       | Some o =>
           let '(b, e) := pl_Start (ob_backend o) in
           let after n := mkMachine (<[id := mkObject b n (ob_stopped o)]> (mc_heap m)) (mc_runner m) in
           if start_waits (ob_kind o) then (after (S (ob_started o)), Waiting)
           else (after (match e with None => S (ob_started o) | Some _ => ob_started o end), Done e)
       end.
Definition stop_object {R} (id : nat) : action R (option string) :=
  λ m, match mc_heap m !! id with
       | None => (m, Crashed)
       | Some o =>
           let '(b, e) := pl_Stop (ob_backend o) in
           (mkMachine (<[id := mkObject b (ob_started o) (S (ob_stopped o))]> (mc_heap m)) (mc_runner m), Done e)
       end.

(** [New] and [Initialize] of a driver. *)
Definition create_object {R} (d : driver) (name : string) (config : any_map) : action R (nat + string) :=
  λ m, let '(b, e) := pl_Initialize (mkConfig name "0.1.0" 0 config) (dr_New d) in
       (mkMachine (mc_heap m ++ [mkObject b 0 0]) (mc_runner m),
        Done (match e with None => inl (length (mc_heap m)) | Some e => inr e end)).

(** [supported]: the drivers by the names the runner knows. *)
Definition initializeBackend {R} (supported : string → option driver) (slot : option SlotConfig) : action R nat :=
  match slot with
  | None => fail ErrNilSlot
  | Some s =>
      match supported (sl_Backend s) with
      | None => fail (ErrUnsupportedBackend (sl_Backend s))
      | Some d =>
          let! r := create_object d (sl_Backend s) (sl_Config s) in
          match r with
          | inr e => fail (ErrBackendInitialize e)
          | inl id =>
              let! e := start_object id in
              match e with Some e => fail (ErrBackendStart e) | None => ret id end
          end
      end
  end.

(** The errors of [Stop] are logged; the order of the map does not matter, since the
    drivers are different objects. *)
Fixpoint stop_all {R} (ids : list nat) : action R unit :=
  match ids with
  | [] => ret ()
  | id :: ids => stop_object id ;; stop_all ids
  end.
Definition stop_backends {R} (backends : gmap string nat) : action R unit := stop_all (map_to_list backends).*2.

(** ** consumer-runner *)

Definition consumer_driver (name : string) : option driver :=
  if bool_decide (name = "nats"%string) then Some DNats
  else if bool_decide (name = "memstore"%string) then Some DMemstore else None.

Record ConsumerSlots := mkConsumerSlots {
  cs_MessageSource : option SlotConfig;
  cs_StateStore : option SlotConfig;
  cs_DeadLetterQueue : option SlotConfig }.

Record ConsumerNamespace := mkConsumerNamespace {
  cn_Name : string;
  cn_PatternVersion : string;
  cn_Slots : ConsumerSlots;
  cn_Behavior : any_map }.

Definition parseSlots (slotsMap : any_map) : ConsumerSlots :=
  mkConsumerSlots (parse_slot "message_source" slotsMap) (parse_slot "state_store" slotsMap)
    (parse_slot "dead_letter_queue" slotsMap).

(** The configuration of the pattern. *)
Definition consumer_config (ns : ConsumerNamespace) : ConsumerConfig :=
  let b := cn_Behavior ns in
  mkConsumerConfig (cn_Name ns)
    (mkConsumerBehavior (getStringFromBehavior b "consumer_group") (getStringFromBehavior b "topic")
       (getIntFromBehavior ovf b "max_retries") (getIntFromBehavior ovf b "batch_size")
       (getBoolFromBehavior b "auto_commit") None).

(** The consumer with its slots as references. *)
Record bound_consumer := mkBoundConsumer {
  bc_config : ConsumerConfig;
  bc_source : option nat;
  bc_store : option nat;
  bc_running : bool;
  bc_processor : bool }.

Record ConsumerRunner := mkConsumerRunner {
  cr_namespaces : list ConsumerNamespace;
  cr_consumer : option bound_consumer;
  cr_backends : gmap string nat }.

Definition set_backend (slot : string) (id : nat) (r : ConsumerRunner) : ConsumerRunner :=
  mkConsumerRunner (cr_namespaces r) (cr_consumer r) (<[slot := id]> (cr_backends r)).
Definition set_consumer (c : bound_consumer) (r : ConsumerRunner) : ConsumerRunner :=
  mkConsumerRunner (cr_namespaces r) (Some c) (cr_backends r).

(** The state store slot, when there is one. *)
Definition init_store (slot : option SlotConfig) : action ConsumerRunner (option nat) :=
  match slot with
  | None => ret None
  | Some s =>
      let! id := initializeBackend consumer_driver (Some s) in
      modify (set_backend "state_store" id) ;;
      let! ok := asserts id KeyValueBasicInterface in
      if (ok : bool) then ret (Some id) else fail (ErrInterface "state_store")
  end.

(** [BindSlots] of the consumer: the source is a pub/sub driver or a queue; dead letter
    queue and object store are nil whatever the configuration says. *)
Definition bind_consumer (cfg : ConsumerConfig) (source : nat) (store : option nat) : action ConsumerRunner unit :=
  let! pubsub := asserts source PubSubInterface in
  let! queue := asserts source QueueInterface in
  if pubsub || queue
  then modify (set_consumer (mkBoundConsumer cfg (Some source) store false true))
  else fail (ErrConsumer ErrSourceInterface).

Definition ConsumerRunner_Initialize : action ConsumerRunner unit :=
  let! r := the_runner in
  match cr_namespaces r with
  | [] => crash
  | ns :: _ =>
      let! source := initializeBackend consumer_driver (cs_MessageSource (cn_Slots ns)) in
      modify (set_backend "message_source" source) ;;
      let! store := init_store (cs_StateStore (cn_Slots ns)) in
      match ValidateConsumer (consumer_config ns) with
      | Some e => fail (ErrConsumer e)
      | None =>
          modify (set_consumer (mkBoundConsumer (consumer_config ns) None None false false)) ;;
          bind_consumer (consumer_config ns) source store
      end
  end.

Definition ConsumerRunner_Start : action ConsumerRunner unit :=
  let! r := the_runner in
  match cr_consumer r with
  | None => crash
  | Some c =>
      if bc_running c then fail (ErrConsumer ErrRunning)
      else match bc_source c with
           | None => fail (ErrConsumer ErrSourceUnbound)
           | Some _ =>
               if bc_processor c
               then modify (set_consumer (mkBoundConsumer (bc_config c) (bc_source c) (bc_store c) true true))
               else fail (ErrConsumer ErrNoProcessor)
           end
  end.

Definition ConsumerRunner_Stop : action ConsumerRunner unit :=
  let! r := the_runner in
  match cr_consumer r with
  | None => ret ()
  | Some c => modify (set_consumer (mkBoundConsumer (bc_config c) (bc_source c) (bc_store c) false (bc_processor c)))
  end ;;
  stop_backends (cr_backends r).

(** *** The adapter for the control plane *)

Definition section_of (key : string) (config : Config) : any_map + runner_error :=
  match cfg_Backend config !! key with
  | None => inr (ErrMissing key)
  | Some a => match as_map a with Some m => inl m | None => inr (ErrNotAMap key) end
  end.

Definition ConsumerAdapter_Initialize (config : Config) : action ConsumerRunner unit :=
  match section_of "slots" config, section_of "behavior" config with
  | inr e, _ | inl _, inr e => fail e
  | inl slotsMap, inl behaviorMap =>
      modify (λ r, mkConsumerRunner
        [mkConsumerNamespace (cfg_Name config) (cfg_Version config) (parseSlots slotsMap) behaviorMap]
        (cr_consumer r) (cr_backends r)) ;;
      ConsumerRunner_Initialize
  end.

Definition ConsumerAdapter_Health (r : ConsumerRunner) : Plugin.HealthState :=
  match cr_consumer r with
  | None => Plugin.HealthDegraded
  | Some c => if bc_running c then Plugin.HealthHealthy else Plugin.HealthDegraded
  end.

(** ** keyvalue-runner *)

Definition keyvalue_driver (name : string) : option driver :=
  if bool_decide (name = "memstore"%string) then Some DMemstore
  else if bool_decide (name = "redis"%string) then Some DRedis else None.

Record KeyValueNamespace := mkKeyValueNamespace {
  kn_Name : string;
  kn_PatternVersion : string;
  kn_Backend : string;
  kn_BackendConfig : any_map }.

(** [kr_kv]: the pattern, which wraps the driver at that place. *)
Record KeyValueRunner := mkKeyValueRunner {
  kr_namespaces : list KeyValueNamespace;
  kr_kv : option nat;
  kr_backend : option nat }.

Definition KeyValueRunner_Initialize : action KeyValueRunner unit :=
  let! r := the_runner in
  match kr_namespaces r with
  | [] => crash
  | ns :: _ =>
      let! id := initializeBackend keyvalue_driver (Some (mkSlotConfig (kn_Backend ns) [] (kn_BackendConfig ns))) in
      modify (λ r, mkKeyValueRunner (kr_namespaces r) (kr_kv r) (Some id)) ;;
      let! ok := asserts id KeyValueBasicInterface in
      if (ok : bool) then modify (λ r, mkKeyValueRunner (kr_namespaces r) (Some id) (kr_backend r))
      else fail (ErrInterface "backend")
  end.

(** [Start] of the pattern is [Start] of the driver. *)
Definition KeyValueRunner_Start : action KeyValueRunner unit :=
  let! r := the_runner in
  match kr_kv r with
  | None => crash
  | Some id => let! e := start_object id in match e with Some e => fail (ErrBackendStart e) | None => ret () end
  end.

(** [Stop] of the pattern is [Stop] of the driver; then the driver is stopped. *)
Definition KeyValueRunner_Stop : action KeyValueRunner unit :=
  let! r := the_runner in
  match kr_kv r with
  | None => ret ()
  | Some id => let! e := stop_object id in match e with Some e => fail (ErrStop e) | None => ret () end
  end ;;
  match kr_backend r with None => ret () | Some id => stop_object id ;; ret () end.

Definition KeyValueAdapter_Initialize (config : Config) : action KeyValueRunner unit :=
  match cfg_Backend config !! "backend"%string ≫= as_string with
  | None => fail (ErrMissing "backend")
  | Some name =>
      modify (λ r, mkKeyValueRunner
        [mkKeyValueNamespace (cfg_Name config) (cfg_Version config) name
           (default ∅ (cfg_Backend config !! "backend_config"%string ≫= as_map))]
        (kr_kv r) (kr_backend r)) ;;
      KeyValueRunner_Initialize
  end.

(** ** multicast-registry-runner *)

Definition multicast_driver (name : string) : option driver :=
  if bool_decide (name = "redis"%string) then Some DRedis
  else if bool_decide (name = "nats"%string) then Some DNats
  else if bool_decide (name = "kafka"%string) then Some DKafka
  else if bool_decide (name ∈ ["postgres"; "postgresql"]%string) then Some DPostgres else None.

Record MulticastSlots := mkMulticastSlots {
  mu_Registry : option SlotConfig;
  mu_Messaging : option SlotConfig;
  mu_Durability : option SlotConfig }.

Record MulticastNamespace := mkMulticastNamespace {
  mn_Name : string;
  mn_PatternVersion : string;
  mn_Slots : MulticastSlots;
  mn_Behavior : any_map }.

Definition parseMulticastSlots (slotsMap : any_map) : MulticastSlots :=
  mkMulticastSlots (parse_slot "registry" slotsMap) (parse_slot "messaging" slotsMap)
    (parse_slot "durability" slotsMap).

(** The coordinator over the adapters of its drivers; [bo_closed]: [Close] was called. *)
Record bound_coordinator := mkBoundCoordinator {
  bo_config : Coordinator.Config;
  bo_registry : nat;
  bo_messaging : nat;
  bo_durability : option nat;
  bo_closed : bool }.

Record MulticastRunner := mkMulticastRunner {
  mr_namespaces : list MulticastNamespace;
  mr_coordinator : option bound_coordinator;
  mr_backends : gmap string nat }.

(** The overrides are type assertions to [int] and [string]. *)
Definition coordinator_config (behavior : any_map) : Coordinator.Config :=
  let int key d := match behavior !! key with Some (AnyInt n) => n | _ => d end in
  let c := DefaultConfig in
  Coordinator.mkConfig (int "max_identities"%string (cf_MaxIdentities c))
    (match behavior !! "topic_prefix"%string with Some (AnyString s) => s | _ => cf_TopicPrefix c end)
    (int "retry_attempts"%string (cf_RetryAttempts c)).

(** A slot: the driver is recorded, then asked for its interface. *)
Definition multicast_slot (slot : string) (config : option SlotConfig) (i : iface) : action MulticastRunner nat :=
  let! id := initializeBackend multicast_driver config in
  modify (λ r, mkMulticastRunner (mr_namespaces r) (mr_coordinator r) (<[slot := id]> (mr_backends r))) ;;
  let! ok := asserts id i in
  if (ok : bool) then ret id else fail (ErrInterface slot).

Definition MulticastRunner_Initialize : action MulticastRunner unit :=
  let! r := the_runner in
  match mr_namespaces r with
  | [] => crash
  | ns :: _ =>
      let! registry := multicast_slot "registry" (mu_Registry (mn_Slots ns)) KeyValueBasicInterface in
      let! messaging := multicast_slot "messaging" (mu_Messaging (mn_Slots ns)) PubSubInterface in
      let! durability :=
        match mu_Durability (mn_Slots ns) with
        | None => ret None
        | Some s => let! id := multicast_slot "durability" (Some s) QueueInterface in ret (Some id)
        end in
      modify (λ r, mkMulticastRunner (mr_namespaces r)
        (Some (mkBoundCoordinator (coordinator_config (mn_Behavior ns)) registry messaging durability false))
        (mr_backends r))
  end.

(** The coordinator closes its channel, a second time it panics; the adapters do not
    close the drivers. *)
Definition MulticastRunner_Stop : action MulticastRunner unit :=
  let! r := the_runner in
  match mr_coordinator r with
  | None => ret ()
  | Some c =>
      if bo_closed c then crash
      else modify (λ r, mkMulticastRunner (mr_namespaces r)
             (Some (mkBoundCoordinator (bo_config c) (bo_registry c) (bo_messaging c) (bo_durability c) true))
             (mr_backends r))
  end ;;
  stop_backends (mr_backends r).

(** The behavior is optional. *)
Definition MulticastAdapter_Initialize (config : Config) : action MulticastRunner unit :=
  let behavior :=
    match cfg_Backend config !! "behavior"%string with None => inl ∅ | Some _ => section_of "behavior" config end in
  match section_of "slots" config, behavior with
  | inr e, _ | inl _, inr e => fail e
  | inl slotsMap, inl behaviorMap =>
      modify (λ r, mkMulticastRunner
        [mkMulticastNamespace (cfg_Name config) (cfg_Version config) (parseMulticastSlots slotsMap) behaviorMap]
        (mr_coordinator r) (mr_backends r)) ;;
      MulticastRunner_Initialize
  end.

Definition MulticastAdapter_Health (r : MulticastRunner) : Plugin.HealthState :=
  match mr_coordinator r with None => Plugin.HealthDegraded | Some _ => Plugin.HealthHealthy end.
End Runners.

Arguments object : clear implicits.
Arguments machine : clear implicits.
Arguments mkMachine {_ _} _ _.
Arguments mc_heap {_ _} _.
Arguments mc_runner {_ _} _.
