(* ===== verification/RunnersSpec.v ===== *)
(** * Properties of the pattern runners

    Which configurations a runner can serve, that it stops the drivers it started, that
    the consumer it builds is the one of [Consumer], and what reaches the pattern of a
    configuration sent over the control plane. *)

From S2P Require Import Prelude Backoff Memstore MemPubSub Slots Coordinator Consumer Plugin Runners.
Import GoFloat.
Local Open Scope Z_scope.

Section Spec.
Context {B : Type} `{!Plugin B} `{!Drivers B} (ovf : Z).
Implicit Types (h : list (object B)).

(** ** Triples *)

(** From a machine with [P], [c] ends in [Q] or, when it fails, in [F false], or does not
    return and [F true] holds meanwhile; it does not panic. *)
Definition triple {R A} (P : machine B R → Prop) (c : action R A) (Q : A → machine B R → Prop)
    (F : bool → machine B R → Prop) : Prop :=
  ∀ m, P m → match c m with
             | (m', Done a) => Q a m'
             | (m', Failed _) => F false m'
             | (m', Waiting) => F true m'
             | (_, Crashed) => False
             end.

Lemma triple_bind {R A A'} P (c : action R A) (k : A → action R A') Q Q' F :
  triple P c Q F → (∀ a, triple (Q a) (k a) Q' F) → triple P (bind c k) Q' F.
Proof.
  intros Hc Hk m Hm. specialize (Hc m Hm). unfold bind. destruct (c m) as [m' [a|e| |]]; try done.
  by apply (Hk a).
Qed.

Lemma triple_weaken {R A} P (c : action R A) Q (F F' : bool → machine B R → Prop) :
  triple P c Q F → (∀ b m, F b m → F' b m) → triple P c Q F'.
Proof. intros Hc HF m Hm. specialize (Hc m Hm). destruct (c m) as [m' [a|e| |]]; auto. Qed.

Lemma triple_ret {R A} (P : machine B R → Prop) (a : A) Q F : (∀ m, P m → Q a m) → triple P (ret a) Q F.
Proof. intros H m Hm. by apply H. Qed.

Lemma triple_fail {R A} (P : machine B R → Prop) e Q (F : bool → machine B R → Prop) :
  (∀ m, P m → F false m) → triple (A := A) P (fail e) Q F.
Proof. intros H m Hm. by apply H. Qed.

Lemma triple_modify {R} (P : machine B R → Prop) f Q F :
  (∀ m, P m → Q () (mkMachine (mc_heap m) (f (mc_runner m)))) → triple P (modify f) Q F.
Proof. intros H m Hm. by apply H. Qed.

Lemma triple_runner {R} (P : machine B R → Prop) (Q : R → machine B R → Prop) F :
  (∀ m, P m → Q (mc_runner m) m) → triple P the_runner Q F.
Proof. intros H m Hm. by apply H. Qed.

(** A type assertion does not change the machine. *)
Lemma triple_asserts {R} (P : machine B R → Prop) id i F : triple P (asserts id i) (λ _, P) F.
Proof. by intros m Hm. Qed.

(** ** Started drivers are recorded *)

(** The drivers in [X], and no others, have been started, once, and none was stopped. *)
Definition live h (X : list nat) : Prop :=
  NoDup X ∧ (∀ id, id ∈ X → (id < length h)%nat) ∧
  ∀ id o, h !! id = Some o → ob_stopped o = 0%nat ∧ ob_started o = (if decide (id ∈ X) then 1 else 0)%nat.

Lemma live_nil : live [] [].
Proof. split_and!; [constructor|intros ? []%not_elem_of_nil|done]. Qed.

(** A driver that was created and not started. *)
Lemma live_create h X b : live h X → live (h ++ [mkObject b 0 0]) X.
Proof.
  intros (Hn & Hl & Ho). split_and!; [done| |].
  - intros id Hid. rewrite length_app. simpl. specialize (Hl id Hid). lia.
  - intros id o [Hlook|[Hge Hlook]]%lookup_app_Some; [by apply Ho|].
    apply list_lookup_singleton_Some in Hlook as [Hz <-]. simpl. split; [done|].
    destruct (decide (id ∈ X)) as [Hin|]; [|done]. specialize (Hl id Hin). lia.
Qed.

(** The last driver is started. *)
Lemma live_start h X b b' : live h X →
  live (<[length h := mkObject b' 1 0]> (h ++ [mkObject b 0 0])) (length h :: X).
Proof.
  intros HX. pose proof (live_create h X b HX) as (_ & _ & Ho). destruct HX as (Hn & Hl & _).
  split_and!.
  - constructor; [|done]. intros Hin. specialize (Hl _ Hin). lia.
  - intros id. rewrite elem_of_cons, length_insert, length_app. simpl. intros [->|Hin]; [lia|].
    specialize (Hl _ Hin). lia.
  - intros id o. destruct (decide (id = length h)) as [->|Hne].
    + rewrite list_lookup_insert_eq by (rewrite length_app; simpl; lia). intros [= <-]. simpl.
      split; [done|]. rewrite decide_True by apply list_elem_of_here. done.
    + rewrite list_lookup_insert_ne by done. intros Hlook. specialize (Ho _ _ Hlook) as [-> ->].
      split; [done|]. destruct (decide (id ∈ X)).
      * rewrite decide_True by (by apply list_elem_of_further). done.
      * rewrite decide_False; [done|]. rewrite elem_of_cons. naive_solver.
Qed.

(** The last driver was told to start and did not. *)
Lemma live_no_start h X b b' : live h X → live (<[length h := mkObject b' 0 0]> (h ++ [mkObject b 0 0])) X.
Proof.
  intros HX. rewrite insert_app_r_alt by done. rewrite Nat.sub_diag. simpl. by apply live_create.
Qed.

Section Owned.
Context {R : Type} (backends : R → gmap string nat).

Definition recorded (r : R) : list nat := (map_to_list (backends r)).*2.

(** Every started driver is one of the recorded ones, and of [X]. *)
Definition owned (X : list nat) (m : machine B R) : Prop := live (mc_heap m) (X ++ recorded (mc_runner m)).

(** What is left when a step fails; when it waits, the driver it waits for is running and
    not recorded. *)
Definition left_over (X : list nat) (waiting : bool) (m : machine B R) : Prop :=
  if waiting then ∃ id, owned (id :: X) m else owned X m.

Lemma initializeBackend_owned supported slot X r0 :
  triple (λ m, owned X m ∧ mc_runner m = r0) (initializeBackend supported slot)
    (λ id m, owned (id :: X) m ∧ mc_runner m = r0)
    (λ waiting m, left_over X waiting m ∧ mc_runner m = r0 ∧
       (waiting = true → ∃ s d, slot = Some s ∧ supported (sl_Backend s) = Some d ∧ start_waits d = true)).
Proof.
  intros [h r] [Hm Hr]. simpl in Hr. unfold initializeBackend, owned in *. destruct slot as [s|]; [|done].
  destruct (supported (sl_Backend s)) as [d|] eqn:Ed; [|done]. unfold bind, create_object. simpl in *.
  pose proof (dr_Initialize_kind (mkConfig (sl_Backend s) "0.1.0" 0 (sl_Config s)) (dr_New d)) as Hk.
  rewrite dr_New_kind in Hk.
  destruct (pl_Initialize _ _) as [b [e|]]; simpl in *; [by split_and!; [apply live_create|..]|].
  unfold start_object. simpl. rewrite lookup_app_r, Nat.sub_diag by done. simpl.
  unfold ob_kind. simpl. rewrite Hk. destruct (pl_Start b) as [b' e].
  destruct (start_waits d) eqn:Ew; simpl.
  { split_and!; [exists (length h); by apply live_start|done|by eauto]. }
  destruct e; simpl; [by split_and!; [apply live_no_start|..]|]. split; [by apply live_start|done].
Qed.

(** The driver at the head of [X] is recorded under a new name. *)
Lemma record_owned slot id X f :
  (∀ r, backends r !! slot = None → backends (f r) = <[slot := id]> (backends r)) →
  ∀ (m : machine B R), owned (id :: X) m → backends (mc_runner m) !! slot = None →
  owned X (mkMachine (mc_heap m) (f (mc_runner m))).
Proof.
  intros Hf m Hm Hs. unfold owned, recorded in *. simpl. rewrite Hf by done.
  assert ((map_to_list (<[slot := id]> (backends (mc_runner m)))).*2 ≡ₚ
          id :: (map_to_list (backends (mc_runner m))).*2) as Hp.
  { by rewrite map_to_list_insert. }
  destruct Hm as (Hn & Hl & Ho). simpl in *.
  assert (X ++ (map_to_list (<[slot := id]> (backends (mc_runner m)))).*2 ≡ₚ
          id :: X ++ (map_to_list (backends (mc_runner m))).*2) as Hq.
  { rewrite Hp. symmetry. apply Permutation_middle. }
  split_and!; [by rewrite Hq|intros ?; rewrite Hq; apply Hl|].
  intros k o Hk. specialize (Ho k o Hk) as [? ->]. split; [done|].
  apply decide_ext. by rewrite Hq.
Qed.

Lemma triple_record slot id X f r0 F :
  (∀ r, backends r !! slot = None → backends (f r) = <[slot := id]> (backends r)) →
  backends r0 !! slot = None →
  triple (λ m, owned (id :: X) m ∧ mc_runner m = r0) (modify f) (λ _ m, owned X m ∧ mc_runner m = f r0) F.
Proof.
  intros Hf Hs. apply triple_modify. intros m [Hm <-]. split; [|done]. by apply (record_owned slot id).
Qed.

(** Stopping reaches each driver of the list once. *)
Lemma stop_all_spec ids (m : machine B R) :
  NoDup ids → (∀ id, id ∈ ids → (id < length (mc_heap m))%nat) →
  ∃ h', stop_all ids m = (mkMachine h' (mc_runner m), Done ()) ∧
    ∀ id, match h' !! id, mc_heap m !! id with
          | Some o', Some o => ob_started o' = ob_started o ∧
              ob_stopped o' = (ob_stopped o + if decide (id ∈ ids) then 1 else 0)%nat
          | None, None => True
          | _, _ => False
          end.
Proof.
  intros Hn. revert m. induction Hn as [|id ids Hid Hn IH]; intros [h r] Hl; cbn [mc_heap mc_runner] in *.
  { exists h. split; [done|]. intros k. destruct (h !! k); [|done].
    rewrite decide_False by (by intros ?%not_elem_of_nil). split; [done|lia]. }
  destruct (lookup_lt_is_Some_2 h id) as [o Ho]; [apply Hl, list_elem_of_here|].
  cbn [stop_all]. unfold bind, stop_object. cbn [mc_heap mc_runner]. rewrite Ho.
  destruct (pl_Stop (ob_backend o)) as [b e].
  destruct (IH (mkMachine (<[id := mkObject b (ob_started o) (S (ob_stopped o))]> h) r)) as (h' & Hs & Hspec).
  { intros k Hk. simpl. rewrite length_insert. by apply Hl, list_elem_of_further. }
  exists h'. split; [exact Hs|]. intros k. specialize (Hspec k). simpl in Hspec.
  destruct (decide (k = id)) as [->|Hne].
  - rewrite list_lookup_insert_eq in Hspec by (by eapply lookup_lt_Some). rewrite Ho.
    destruct (h' !! id) as [o'|]; [|done]. simpl in Hspec. rewrite decide_False in Hspec by done.
    rewrite decide_True by apply list_elem_of_here. lia.
  - rewrite list_lookup_insert_ne in Hspec by done. destruct (h' !! k), (h !! k); try done.
    destruct Hspec as [-> ->]. split; [done|]. f_equal. apply decide_ext. rewrite elem_of_cons. naive_solver.
Qed.

(** Each driver was stopped as often as it was started, but those in [X], which run. *)
Definition stopped_but (X : list nat) (m : machine B R) : Prop :=
  ∀ id o, mc_heap m !! id = Some o → ob_started o = (ob_stopped o + if decide (id ∈ X) then 1 else 0)%nat.

(** After that only the drivers that are not recorded are running. *)
Lemma stop_backends_spec X (m : machine B R) (r' : R) : owned X m →
  ∃ m', stop_backends (backends (mc_runner m)) (mkMachine (mc_heap m) r') = (m', Done ()) ∧ stopped_but X m'.
Proof.
  intros (Hn & Hl & Ho). unfold owned, recorded in *.
  apply NoDup_app in Hn as (_ & Hdis & Hn).
  destruct (stop_all_spec (map_to_list (backends (mc_runner m))).*2 (mkMachine (mc_heap m) r') Hn)
    as (h' & Hs & Hspec).
  { intros id Hid. apply Hl, elem_of_app. by right. }
  exists (mkMachine h' r'). split; [done|]. intros id o' Ho'. specialize (Hspec id).
  simpl in Ho', Hspec. rewrite Ho' in Hspec. destruct (mc_heap m !! id) as [o|] eqn:E; [|done].
  destruct Hspec as [-> ->]. specialize (Ho id o E) as [-> ->]. specialize (Hdis id).
  destruct (decide (id ∈ X ++ _)) as [H|H], (decide (id ∈ X)) as [H1|H1], (decide (id ∈ _.*2)) as [H2|H2];
    rewrite elem_of_app in H; try lia; exfalso; tauto.
Qed.
End Owned.

(** ** The consumer runner *)

Definition fresh_consumer (nss : list ConsumerNamespace) : machine B ConsumerRunner :=
  mkMachine [] (mkConsumerRunner nss None ∅).

Abbreviation c_owned := (owned cr_backends).

(** No driver of the consumer runner waits in [Start]. *)
Definition c_left (waiting : bool) (m : machine B ConsumerRunner) : Prop := waiting = false ∧ c_owned [] m.

Lemma c_left_intro slot r0 waiting (m : machine B ConsumerRunner) :
  left_over cr_backends [] waiting m ∧ mc_runner m = r0 ∧
    (waiting = true → ∃ s d, slot = Some s ∧ consumer_driver (sl_Backend s) = Some d ∧ start_waits d = true) →
  c_left waiting m.
Proof.
  intros (Hm & _ & Hw). destruct waiting; [|done]. destruct (Hw eq_refl) as (s & d & _ & Hd & Hw').
  unfold consumer_driver in Hd. repeat case_bool_decide; simplify_eq; done.
Qed.

Lemma init_store_owned slot r0 : cr_backends r0 !! "state_store"%string = None →
  triple (λ m, c_owned [] m ∧ mc_runner m = r0) (init_store slot) (λ _, c_owned []) c_left.
Proof.
  intros Hr. destruct slot as [s|]; [|by apply triple_ret; intros m []]. unfold init_store.
  eapply triple_bind; [eapply triple_weaken; [apply initializeBackend_owned|apply c_left_intro]|]. intros id.
  eapply triple_bind; [by apply (triple_record cr_backends "state_store" id)|]. intros [].
  eapply triple_bind; [apply triple_asserts|]. intros [|].
  - apply triple_ret. by intros m [].
  - apply triple_fail. by intros m [].
Qed.

Lemma bind_consumer_owned cfg source store :
  triple (c_owned []) (bind_consumer cfg source store) (λ _, c_owned []) c_left.
Proof.
  unfold bind_consumer. eapply triple_bind; [apply triple_asserts|]. intros p.
  eapply triple_bind; [apply triple_asserts|]. intros q.
  destruct (p || q); [by apply triple_modify|by apply triple_fail].
Qed.

Lemma consumer_Initialize_owned nss : nss ≠ [] →
  triple (λ m, m = fresh_consumer nss) (ConsumerRunner_Initialize ovf) (λ _, c_owned []) c_left.
Proof.
  intros Hne. unfold ConsumerRunner_Initialize. set (r0 := mkConsumerRunner nss None ∅).
  assert (∀ m, m = fresh_consumer nss → c_owned [] m ∧ mc_runner m = r0) as Hfresh.
  { intros m ->. split; [|done]. apply live_nil. }
  intros m Hm. apply Hfresh in Hm. revert m Hm.
  eapply triple_bind; [by apply (triple_runner _ (λ r m, (c_owned [] m ∧ mc_runner m = r0) ∧ r = r0)); intros m []|].
  intros r m [Hm ->]. revert m Hm. change (cr_namespaces r0) with nss. destruct nss as [|ns nss']; [done|].
  eapply triple_bind; [eapply triple_weaken; [apply initializeBackend_owned|apply c_left_intro]|]. intros id.
  eapply triple_bind; [by apply (triple_record cr_backends "message_source" id)|]. intros [].
  eapply triple_bind; [by apply init_store_owned|]. intros store.
  destruct (ValidateConsumer _); [by apply triple_fail|].
  eapply triple_bind; [by apply (triple_modify _ _ (λ _, c_owned []))|]. intros [].
  apply bind_consumer_owned.
Qed.

Lemma consumer_Stop_spec (m : machine B ConsumerRunner) : c_owned [] m →
  ∃ m', ConsumerRunner_Stop m = (m', Done ()) ∧ stopped_but [] m'.
Proof.
  intros Hm. unfold ConsumerRunner_Stop, the_runner, bind.
  destruct (cr_consumer (mc_runner m)); [by apply (stop_backends_spec cr_backends)|].
  destruct m as [h r]. by apply (stop_backends_spec cr_backends [] (mkMachine h r)).
Qed.

(** ** The multicast runner *)

Definition fresh_multicast (nss : list MulticastNamespace) : machine B MulticastRunner :=
  mkMachine [] (mkMulticastRunner nss None ∅).

Abbreviation m_owned := (owned mr_backends).

Definition m_left (waiting : bool) (m : machine B MulticastRunner) : Prop :=
  left_over mr_backends [] waiting m ∧ mr_coordinator (mc_runner m) = None.

(** The runner with the slots in [slots] taken. *)
Definition slots_taken (slots : list string) (m : machine B MulticastRunner) : Prop :=
  m_owned [] m ∧ mr_coordinator (mc_runner m) = None ∧ ∀ s, s ∉ slots → mr_backends (mc_runner m) !! s = None.

Lemma multicast_slot_owned slot config i slots : slot ∉ slots →
  triple (slots_taken slots) (multicast_slot slot config i) (λ _, slots_taken (slot :: slots))
    m_left.
Proof.
  intros Hs m0 (Hm & Hc & Hfree). unfold multicast_slot, bind.
  pose proof (initializeBackend_owned mr_backends multicast_driver config [] (mc_runner m0) m0 (conj Hm eq_refl)) as H.
  destruct (initializeBackend multicast_driver config m0) as [m [id|e| |]] eqn:E; try done.
  - destruct H as [Ho Hr]. unfold modify, asserts. cbn [mc_heap mc_runner].
    assert (slots_taken (slot :: slots) (mkMachine (mc_heap m)
      (mkMulticastRunner (mr_namespaces (mc_runner m)) (mr_coordinator (mc_runner m))
         (<[slot := id]> (mr_backends (mc_runner m)))))) as H.
    { split_and!; [|by rewrite Hr|].
      - apply (record_owned mr_backends slot id [] (λ r, mkMulticastRunner (mr_namespaces r) (mr_coordinator r)
          (<[slot := id]> (mr_backends r)))); [done|done|]. rewrite Hr. by apply Hfree.
      - intros s [Hne Hin]%not_elem_of_cons. simpl. rewrite lookup_insert_ne by done. rewrite Hr. by apply Hfree. }
    destruct (match _ with Some o => _ | None => _ end); [exact H|]. destruct H as (H1 & H2 & _). by split.
  - destruct H as (Ho & Hr & _). split; [done|]. by rewrite Hr.
  - destruct H as (Ho & Hr & _). split; [done|]. by rewrite Hr.
Qed.

Lemma multicast_Initialize_owned nss : nss ≠ [] →
  triple (λ m, m = fresh_multicast nss) MulticastRunner_Initialize
    (λ _ m, m_owned [] m ∧ ∃ c, mr_coordinator (mc_runner m) = Some c ∧ bo_closed c = false)
    m_left.
Proof.
  intros Hne m ->. unfold MulticastRunner_Initialize, the_runner. unfold bind at 1. simpl.
  destruct nss as [|ns nss']; [done|].
  assert (slots_taken [] (fresh_multicast (ns :: nss'))) as Hm by (split_and!; [apply live_nil|done|done]).
  revert Hm. generalize (fresh_multicast (ns :: nss')).
  eapply triple_bind; [by apply multicast_slot_owned, not_elem_of_nil|]. intros registry.
  eapply triple_bind; [apply multicast_slot_owned; by rewrite list_elem_of_singleton|]. intros messaging.
  apply (triple_bind _ _ _ (λ _ m, m_owned [] m ∧ mr_coordinator (mc_runner m) = None)).
  - destruct (mu_Durability _) as [s'|].
    + eapply triple_bind; [apply multicast_slot_owned; rewrite !elem_of_cons, elem_of_nil; naive_solver|].
      intros id. apply triple_ret. by intros m (? & ? & _).
    + apply triple_ret. by intros m (? & ? & _).
  - intros durability. apply triple_modify. intros m [Hm _]. split; [done|]. by eexists.
Qed.

Lemma multicast_Stop_spec X (m : machine B MulticastRunner) : m_owned X m →
  (∀ c, mr_coordinator (mc_runner m) = Some c → bo_closed c = false) →
  ∃ m', MulticastRunner_Stop m = (m', Done ()) ∧ stopped_but X m'.
Proof.
  intros Hm Hc. unfold MulticastRunner_Stop, the_runner, bind.
  destruct (mr_coordinator (mc_runner m)); [rewrite Hc by done; by apply (stop_backends_spec mr_backends)|].
  destruct m as [h r]. by apply (stop_backends_spec mr_backends X (mkMachine h r)).
Qed.


(** ** Which configurations work *)

(** The calls of the drivers succeed. *)
Definition reliable : Prop := (∀ c (b : B), (pl_Initialize c b).2 = None) ∧ (∀ b : B, (pl_Start b).2 = None).

Definition slot_driver (supported : string → option driver) (slot : option SlotConfig) : option driver :=
  slot ≫= λ s, supported (sl_Backend s).

Lemma initializeBackend_cases {R} supported slot (m : machine B R) :
  match initializeBackend supported slot m with
  | (m', Done id) =>
      ∃ d o, slot_driver supported slot = Some d ∧ start_waits d = false ∧ ob_kind o = d ∧
        id = length (mc_heap m) ∧ m' = mkMachine (mc_heap m ++ [o]) (mc_runner m)
  | (_, Waiting) => ∃ d, slot_driver supported slot = Some d ∧ start_waits d = true
  | (_, Failed _) => reliable → slot_driver supported slot = None
  | (_, Crashed) => False
  end.
Proof.
  unfold initializeBackend, slot_driver. destruct slot as [s|]; [|done]. simpl.
  destruct (supported (sl_Backend s)) as [d|]; [|done]. unfold bind, create_object.
  pose proof (dr_Initialize_kind (mkConfig (sl_Backend s) "0.1.0" 0 (sl_Config s)) (dr_New d)) as Hk.
  rewrite dr_New_kind in Hk.
  destruct (pl_Initialize _ _) as [b [e|]] eqn:Ei; simpl in *.
  { intros [Hr _]. specialize (Hr (mkConfig (sl_Backend s) "0.1.0" 0 (sl_Config s)) (dr_New d)). by rewrite Ei in Hr. }
  unfold start_object. simpl. rewrite lookup_app_r, Nat.sub_diag by done. simpl.
  pose proof (dr_Start_kind b) as Hs. unfold ob_kind. simpl. rewrite Hk.
  destruct (pl_Start b) as [b' e] eqn:Es. simpl in *. destruct (start_waits d) eqn:Ew; [by eauto|].
  destruct e as [e|]; simpl.
  { intros [_ Hr]. specialize (Hr b). by rewrite Es in Hr. }
  rewrite insert_app_r_alt, Nat.sub_diag by done. simpl. do 2 eexists. split_and!; [done|done| |done|done].
  unfold ob_kind. simpl. by rewrite Hs.
Qed.

Lemma multicast_slot_cases slot config i (m : machine B MulticastRunner) :
  match multicast_slot slot config i m with
  | (_, Done _) => ∃ d, slot_driver multicast_driver config = Some d ∧ start_waits d = false ∧ implements d i = true
  | (_, Waiting) => ∃ d, slot_driver multicast_driver config = Some d ∧ start_waits d = true
  | (_, Failed _) => reliable → ∀ d, slot_driver multicast_driver config = Some d → implements d i = false
  | (_, Crashed) => False
  end.
Proof.
  unfold multicast_slot, bind. pose proof (initializeBackend_cases multicast_driver config m) as H.
  destruct (initializeBackend multicast_driver config m) as [m' [id|e| |]]; try done.
  - destruct H as (d & o & Hd & Hw & Ho & -> & ->). unfold modify, asserts. simpl.
    rewrite lookup_app_r, Nat.sub_diag by done. simpl. rewrite Ho. destruct (implements d i) eqn:Ei.
    + simpl. by eauto.
    + simpl. intros _ d'. rewrite Hd. by intros [= <-].
  - intros Hr d Hd. specialize (H Hr). congruence.
Qed.

(** The slots of a multicast registry that comes up. *)
Definition multicast_ready (s : MulticastSlots) : Prop :=
  slot_driver multicast_driver (mu_Registry s) = Some DRedis ∧
  slot_driver multicast_driver (mu_Messaging s) = Some DNats ∧
  (mu_Durability s = None ∨ slot_driver multicast_driver (mu_Durability s) = Some DNats).

(** A configured driver whose [Start] waits. *)
Definition multicast_waits (s : MulticastSlots) : Prop :=
  ∃ slot d, slot ∈ [mu_Registry s; mu_Messaging s; mu_Durability s] ∧
    slot_driver multicast_driver slot = Some d ∧ start_waits d = true.

Lemma no_wait_kv d : start_waits d = false → implements d KeyValueBasicInterface = true → d ≠ DMemstore → d = DRedis.
Proof. by destruct d. Qed.

Lemma no_wait_pubsub d : start_waits d = false → implements d PubSubInterface = true → d = DNats.
Proof. by destruct d. Qed.

Lemma multicast_no_memstore slot : slot_driver multicast_driver slot ≠ Some DMemstore.
Proof. destruct slot as [s|]; [|done]. simpl. unfold multicast_driver. by repeat case_bool_decide. Qed.

(** The multicast registry runner comes up exactly with Redis as the registry, NATS
    as the messaging backend and NATS or nothing for durability.  The other drivers it
    lists do not work: [Start] of Kafka and PostgreSQL returns only when its context
    ends, and with one of them the initialization never returns. *)
Theorem multicast_runner_ready ns nss :
  match (MulticastRunner_Initialize (fresh_multicast (ns :: nss))).2 with
  | Done () => multicast_ready (mn_Slots ns)
  | Waiting => multicast_waits (mn_Slots ns)
  | Failed _ => reliable → ¬ multicast_ready (mn_Slots ns)
  | Crashed => False
  end.
Proof.
  unfold MulticastRunner_Initialize, the_runner, multicast_waits. unfold bind at 1. simpl. unfold bind at 1.
  destruct (mn_Slots ns) as [reg msg dur]. unfold multicast_ready. simpl.
  pose proof (multicast_slot_cases "registry" reg KeyValueBasicInterface (fresh_multicast (ns :: nss))) as Hr.
  destruct (multicast_slot "registry" reg _ _) as [m1 [r|e| |]]; simpl; [..|done|].
  2:{ intros Hrel (H1 & _). specialize (Hr Hrel _ H1). done. }
  2:{ destruct Hr as (d & ? & ?). exists reg, d. split_and!; [constructor|done|done]. }
  destruct Hr as (dr & Hr & Hrw & Hri).
  assert (dr = DRedis) as -> by (apply no_wait_kv; [done|done|intros ->; by apply (multicast_no_memstore reg)]).
  unfold bind at 1. pose proof (multicast_slot_cases "messaging" msg PubSubInterface m1) as Hm.
  destruct (multicast_slot "messaging" msg _ _) as [m2 [g|e| |]]; simpl; [..|done|].
  2:{ intros Hrel (_ & H1 & _). specialize (Hm Hrel _ H1). done. }
  2:{ destruct Hm as (d & ? & ?). exists msg, d. split_and!; [by right; left|done|done]. }
  destruct Hm as (dm & Hm & Hmw & Hmi). apply no_wait_pubsub in Hmi as ->; [|done].
  unfold bind at 1. destruct dur as [s|]; simpl; [|by auto]. unfold bind at 1.
  pose proof (multicast_slot_cases "durability" (Some s) QueueInterface m2) as Hd.
  destruct (multicast_slot "durability" (Some s) _ _) as [m3 [g'|e| |]]; simpl; [..|done|].
  - destruct Hd as (dd & Hd & Hdw & Hdi). split_and!; [done|done|right].
    assert (dd = DNats) as -> by (by destruct dd). exact Hd.
  - intros Hrel (_ & _ & [?|H1]); [done|]. by specialize (Hd Hrel _ H1).
  - destruct Hd as (d & ? & ?). exists (Some s), d. split_and!; [by right; right; left|done|done].
Qed.

(** *** The consumer *)

Definition consumer_ready (ns : ConsumerNamespace) : Prop :=
  slot_driver consumer_driver (cs_MessageSource (cn_Slots ns)) = Some DNats ∧
  (cs_StateStore (cn_Slots ns) = None ∨
   slot_driver consumer_driver (cs_StateStore (cn_Slots ns)) = Some DMemstore) ∧
  ValidateConsumer (consumer_config ovf ns) = None.

Lemma consumer_driver_cases slot d :
  slot_driver consumer_driver slot = Some d → start_waits d = false ∧ (d = DNats ∨ d = DMemstore).
Proof.
  destruct slot as [s|]; [|done]. simpl. unfold consumer_driver.
  repeat case_bool_decide; intros [= <-]; auto.
Qed.

Section Refinement.
Context {Ob : Type} `{!MessageSink B}.

(** The consumer a runner holds, with the drivers in place of the references. *)
Definition consumer_view h (c : bound_consumer) : Consumer (Sk := B) (Kv := B) (Ob := Ob) :=
  let at_ (id : option nat) := ob_backend <$> (id ≫= λ id, h !! id) in
  mkConsumer (bc_config c) (at_ (bc_source c)) (at_ (bc_store c)) None None (bc_running c) (bc_processor c) [].

(** A driver is a message source by the interfaces it implements. *)
Context (sinks : ∀ b : B, sk_is_pubsub b = implements (dr_kind b) PubSubInterface ∧
                          sk_is_queue b = implements (dr_kind b) QueueInterface).

(** The consumer of the pattern, built from the same configuration and the same drivers. *)
Definition built_consumer (cfg : ConsumerConfig) (source : B) (store : option B)
    : result consumer_error (Consumer (Sk := B) (Kv := B) (Ob := Ob)) :=
  match NewConsumer cfg with
  | Ok c =>
      match ConsumerBindSlots source store None None c with
      | (c, None) => Ok (SetProcessor true c)
      | (_, Some e) => Err e
      end
  | Err e => Err e
  | Panic => Panic
  end.

Lemma built_consumer_ok cfg source store : ValidateConsumer cfg = None → dr_kind source = DNats →
  built_consumer cfg source store = Ok (mkConsumer cfg (Some source) store None None false true []).
Proof.
  intros Hv Hk. unfold built_consumer, NewConsumer. rewrite Hv. unfold ConsumerBindSlots. simpl.
  destruct (sinks source) as [-> ->]. by rewrite Hk.
Qed.

Lemma bind_consumer_cases cfg source store (m : machine B ConsumerRunner) o :
  mc_heap m !! source = Some o →
  bind_consumer cfg source store m =
    if implements (ob_kind o) PubSubInterface
    then (mkMachine (mc_heap m) (set_consumer (mkBoundConsumer cfg (Some source) store false true) (mc_runner m)), Done ())
    else (m, Failed (ErrConsumer ErrSourceInterface)).
Proof.
  intros Ho. unfold bind_consumer, bind, asserts. rewrite Ho. simpl. by destruct (ob_kind o).
Qed.

Lemma init_store_cases slot (m : machine B ConsumerRunner) :
  match init_store slot m with
  | (m', Done store) =>
      (∃ h', mc_heap m' = mc_heap m ++ h') ∧
      match store with
      | None => slot = None
      | Some id => slot_driver consumer_driver slot = Some DMemstore ∧
          ∃ o, mc_heap m' !! id = Some o ∧ ob_kind o = DMemstore
      end
  | (_, Failed _) => reliable → slot ≠ None ∧ slot_driver consumer_driver slot ≠ Some DMemstore
  | _ => False
  end.
Proof.
  destruct slot as [s|]; [|split; [by exists []; rewrite app_nil_r|done]]. unfold init_store, bind.
  pose proof (initializeBackend_cases consumer_driver (Some s) m) as H.
  destruct (initializeBackend _ _ m) as [m' [id|e| |]]; try done.
  - destruct H as (d & o & Hd & _ & Ho & -> & ->). unfold modify, asserts. simpl.
    rewrite lookup_app_r, Nat.sub_diag by done. simpl. rewrite Ho.
    destruct (consumer_driver_cases _ _ Hd) as [_ [-> | ->]]; simpl.
    + intros _. simpl in Hd. by rewrite Hd.
    + split; [by eexists|]. split; [done|].
      rewrite lookup_app_r, Nat.sub_diag by done. by eexists.
  - intros Hrel. specialize (H Hrel). by rewrite H.
  - destruct H as (d & Hd & Hw). apply consumer_driver_cases in Hd as [? _]. congruence.
Qed.

(** C16. The consumer runner builds the consumer of the pattern: it comes up only when
    the message source is NATS, the state store is the memory store or absent, and the
    behavior is valid, and it does come up then when every [Initialize] and [Start] call
    of the drivers succeeds ([reliable]); the consumer it then holds is the one that
    [New], [BindSlots] and [SetProcessor] of the pattern make of that configuration with
    these drivers, and starting the runner starts that consumer.  Otherwise, also when a
    driver call fails, the initialization returns an error; it neither panics nor hangs. *)
Theorem consumer_runner_refines ns nss :
  match ConsumerRunner_Initialize ovf (fresh_consumer (ns :: nss)) with
  | (m, Done ()) =>
      consumer_ready ns ∧
      ∃ source store bc, dr_kind source = DNats ∧ Forall (λ b, dr_kind b = DMemstore) (option_list store) ∧
        (is_Some store ↔ cs_StateStore (cn_Slots ns) ≠ None) ∧
        cr_consumer (mc_runner m) = Some bc ∧
        built_consumer (consumer_config ovf ns) source store = Ok (consumer_view (mc_heap m) bc) ∧
        ∃ m' bc', ConsumerRunner_Start m = (m', Done ()) ∧ cr_consumer (mc_runner m') = Some bc' ∧
          ConsumerStart (consumer_view (mc_heap m) bc) = (consumer_view (mc_heap m') bc', None)
  | (_, Failed _) => reliable → ¬ consumer_ready ns
  | _ => False
  end.
Proof.
  unfold ConsumerRunner_Initialize, the_runner. unfold bind at 1. simpl. unfold bind at 1.
  pose proof (initializeBackend_cases consumer_driver (cs_MessageSource (cn_Slots ns)) (fresh_consumer (ns :: nss))) as H.
  destruct (initializeBackend _ _ _) as [m1 [id|e| |]]; try done.
  2:{ intros Hrel (Hs & _). rewrite H in Hs; done. }
  2:{ destruct H as (d & Hd & Hw). apply consumer_driver_cases in Hd as [? _]. congruence. }
  destruct H as (d & o & Hd & _ & Ho & -> & ->). unfold bind at 1, modify. simpl. unfold bind at 1.
  match goal with |- context [init_store _ ?m] => pose proof (init_store_cases (cs_StateStore (cn_Slots ns)) m) as H end.
  destruct (init_store _ _) as [m2 [store|e| |]]; try done.
  2:{ intros Hrel (_ & Hs & _). destruct (H Hrel) as [H1 H2]. by destruct Hs. }
  destruct H as [[h' Hh] Hst]. simpl in Hh. unfold consumer_ready.
  destruct (ValidateConsumer _) as [e|] eqn:Ev; [by intros _ (_ & _ & ?)|]. unfold bind. simpl.
  rewrite (bind_consumer_cases _ _ _ _ o); [|simpl; by rewrite Hh]. rewrite Ho.
  destruct (consumer_driver_cases _ _ Hd) as [_ [-> | ->]]; simpl; [|by intros _ (Hs & _); congruence].
  split; [split_and!; [done| |done]|].
  { destruct store as [k|]; [|by left]. right. by destruct Hst. }
  exists (ob_backend o), (ob_backend <$> (store ≫= λ id, mc_heap m2 !! id)). eexists. split_and!; [exact Ho|..].
  - destruct store as [k|]; [|constructor]. destruct Hst as (_ & ok & Hok & Hk). simpl. rewrite Hok.
    by repeat constructor.
  - destruct store as [k|]; simpl.
    + destruct Hst as (Hs & ok & Hok & _). rewrite Hok. split; [|by eexists]. intros _ Hn. by rewrite Hn in Hs.
    + rewrite Hst. split; [by intros []|done].
  - done.
  - rewrite built_consumer_ok by done. unfold consumer_view. simpl. by rewrite Hh.
  - do 2 eexists. split_and!; [done|done|]. unfold ConsumerStart, consumer_view. simpl. by rewrite Hh.
Qed.
End Refinement.
End Spec.
