(* ===== verification/RunnersControl.v ===== *)
(** * Runners under the control plane

    What a runner makes of a configuration that the proxy sends as a protobuf struct:
    [ParseConfigFromStruct] composed with the adapters, and concrete runs. *)

From S2P Require Import Prelude Backoff Memstore MemPubSub Slots Coordinator Consumer Plugin PluginControl PluginControlSpec Runners RunnersSpec.
Import GoFloat.
Local Open Scope Z_scope.

(** ** The messages of the proxy *)

Record slot_message := mkSlotMessage {
  sm_backend : string;
  sm_interfaces : list string;
  sm_config : list (string * pb_value) }.

Definition pb_slot (s : slot_message) : pb_value :=
  PStruct [("backend", PString (sm_backend s)); ("interfaces", PList (PString <$> sm_interfaces s));
           ("config", PStruct (sm_config s))]%string.

Definition pb_slots (source : slot_message) (store : option slot_message) : pb_value :=
  PStruct (("message_source"%string, pb_slot source) ::
           match store with Some s => [("state_store"%string, pb_slot s)] | None => [] end).

Definition pb_behavior (b : ConsumerBehavior) : pb_value :=
  PStruct [("consumer_group", PString (cb_ConsumerGroup b)); ("topic", PString (cb_Topic b));
           ("max_retries", PNumber (f64_of_int (cb_MaxRetries b)));
           ("batch_size", PNumber (f64_of_int (cb_BatchSize b))); ("auto_commit", PBool (cb_AutoCommit b))]%string.

Definition received_slot (s : slot_message) : SlotConfig :=
  mkSlotConfig (sm_backend s) (sm_interfaces s) (list_to_map (structToMap (sm_config s))).

Lemma omap_strings l : omap as_string (List.map structValueToAny (PString <$> l)) = l.
Proof. induction l as [|s l IH]; simpl; [done|by f_equal]. Qed.

Lemma parse_received s m key : m !! key = Some (structValueToAny (pb_slot s)) →
  parse_slot key m = Some (received_slot s).
Proof.
  intros Hm. unfold parse_slot. rewrite Hm. simpl. f_equal. unfold parseSlotConfig, received_slot. f_equal.
  exact (omap_strings (sm_interfaces s)).
Qed.

Lemma parse_sent source store : parseSlots (list_to_map (structToMap
    (("message_source"%string, pb_slot source) ::
     match store with Some s => [("state_store"%string, pb_slot s)] | None => [] end))) =
  mkConsumerSlots (Some (received_slot source)) (received_slot <$> store) None.
Proof.
  unfold parseSlots. destruct store; f_equal; try (apply parse_received; reflexivity); reflexivity.
Qed.

Lemma behavior_sent ovf name version slots b :
  0 ≤ cb_MaxRetries b < 2 ^ 53 → 0 ≤ cb_BatchSize b < 2 ^ 53 → cb_DeleteAfterRead b = None →
  ∀ bm, as_map (structValueToAny (pb_behavior b)) = Some bm →
  consumer_config ovf (mkConsumerNamespace name version slots bm) = mkConsumerConfig name b.
Proof.
  intros Hr Hb Hd bm [= <-]. unfold consumer_config. simpl cn_Behavior. simpl cn_Name. f_equal.
  destruct b as [g t r n a c]. simpl in *. subst. f_equal.
  - apply (f64_to_int64_exact ovf r Hr).
  - apply (f64_to_int64_exact ovf n Hb).
Qed.

Section Control.
Context {B : Type} `{!Plugin B} `{!Drivers B} (ovf : Z).

(** A configuration that the proxy sends over the control plane reaches the consumer
    unchanged: the adapter of the runner initializes the pattern with the slots and the
    behavior the proxy put into the struct.  Numbers travel as doubles, so this holds for
    those below [2^53]. *)
Theorem control_plane_configuration name version fields order source store b cfg (m : machine B ConsumerRunner) :
  order ≡ₚ map_to_list fields →
  fields !! "slots"%string = Some (pb_slots source store) →
  fields !! "behavior"%string = Some (pb_behavior b) →
  0 ≤ cb_MaxRetries b < 2 ^ 53 → 0 ≤ cb_BatchSize b < 2 ^ 53 → cb_DeleteAfterRead b = None →
  ParseConfigFromStruct name version (Some fields) order = Some cfg →
  ∃ ns, ConsumerAdapter_Initialize ovf cfg m =
          ConsumerRunner_Initialize ovf (mkMachine (mc_heap m)
            (mkConsumerRunner [ns] (cr_consumer (mc_runner m)) (cr_backends (mc_runner m)))) ∧
        cn_Slots ns = mkConsumerSlots (Some (received_slot source)) (received_slot <$> store) None ∧
        consumer_config ovf ns = mkConsumerConfig name b.
Proof.
  intros Ho Hs Hb H1 H2 H3 Hp.
  destruct (ParseConfigFromStruct_correct _ _ _ _ _ Ho Hp) as (Hn & Hv & _ & Hk).
  unfold ConsumerAdapter_Initialize, section_of. rewrite !Hk, Hs, Hb. simpl.
  eexists. split; [reflexivity|]. simpl. split; [apply parse_sent|]. rewrite Hn. by apply behavior_sent.
Qed.

(** The multicast runner asserts [int], which a number of a struct never is: whatever the
    proxy sends for them, the limits of the coordinator keep their defaults. *)
Theorem multicast_numbers_are_ignored f :
  let c := coordinator_config (list_to_map (structToMap f)) in
  cf_MaxIdentities c = cf_MaxIdentities DefaultConfig ∧ cf_RetryAttempts c = cf_RetryAttempts DefaultConfig.
Proof.
  assert (∀ key n, (list_to_map (structToMap f) : gmap string any) !! key ≠ Some (AnyInt n)) as H.
  { intros key n He%elem_of_list_to_map_2. unfold structToMap in He.
    apply list_elem_of_fmap in He as ([k v] & [= _ He] & _). by destruct v. }
  unfold coordinator_config. simpl.
  split.
  - specialize (H "max_identities"%string). by destruct (_ !! "max_identities"%string) as [[]|]; try done; edestruct H.
  - specialize (H "retry_attempts"%string). by destruct (_ !! "retry_attempts"%string) as [[]|]; try done; edestruct H.
Qed.
End Control.

(** ** Concrete runs *)

Module RunnersDemo.

(** A driver that remembers its kind, the messages it sent and whether it is connected;
    one whose configuration names an unreachable server does not connect. *)
Record toy := mkToy { ty_kind : driver; ty_up : bool; ty_log : list sink_message }.

#[export] Instance toy_plugin : Plugin toy := {|
  pl_Name _ := "toy";
  pl_Version _ := "1";
  pl_Initialize c t :=
    match cfg_Backend c !! "unreachable" with
    | Some _ => (t, Some "no connection")
    | None => (mkToy (ty_kind t) true (ty_log t), None)
    end;
  pl_Start t := (t, None);
  pl_Drain _ _ t := (t, inl (mkDrainMetrics 0 0));
  pl_Stop t := (mkToy (ty_kind t) false (ty_log t), None);
  pl_Health t := inl (mkHealthStatus Plugin.HealthHealthy "" ∅) |}%string.

#[export, refine] Instance toy_drivers : Drivers toy := {|
  dr_New d := mkToy d false [];
  dr_kind := ty_kind |}.
Proof. all: try done. intros c b. simpl. by destruct (cfg_Backend c !! "unreachable"%string). Defined.

Definition toy_send (m : sink_message) (t : toy) : toy * bool :=
  (mkToy (ty_kind t) (ty_up t) (ty_log t ++ [m]), true).

#[export, refine] Instance toy_sink : MessageSink toy := {|
  sk_is_pubsub t := implements (ty_kind t) PubSubInterface;
  sk_is_queue t := implements (ty_kind t) QueueInterface;
  sk_Publish := toy_send;
  sk_Enqueue := toy_send;
  sk_log := ty_log |}.
Proof. 1,2: intros m s s' ok [= <- <-]; by left. all: done. Defined.

Definition slot (name : string) : option SlotConfig := Some (mkSlotConfig name [] ∅).
Definition behavior : any_map :=
  list_to_map [("consumer_group", AnyString "g"); ("topic", AnyString "t"); ("max_retries", AnyInt 3)]%string.
Definition ns_ok : ConsumerNamespace :=
  mkConsumerNamespace "orders" "1" (mkConsumerSlots (slot "nats") (slot "memstore") (slot "nats")) behavior.
Definition started (m : machine toy ConsumerRunner) : list (driver * nat * nat) :=
  (λ o, (ty_kind (ob_backend o), ob_started o, ob_stopped o)) <$> mc_heap m.

(** The runner comes up with two drivers; the dead letter queue is configured and not
    created. *)
Example consumer_comes_up :
  let r := ConsumerRunner_Initialize 0 (fresh_consumer (B := toy) [ns_ok]) in
  (r.2, started r.1) = (Done (), [(DNats, 1, 0); (DMemstore, 1, 0)]%nat).
Proof. vm_compute. reflexivity. Qed.

(** A second initialization replaces the drivers on record; stopping the runner then
    leaves the first ones running. *)
Example second_initialize_leaks :
  let m := (ConsumerRunner_Initialize 0 (fresh_consumer (B := toy) [ns_ok])).1 in
  started (ConsumerRunner_Stop (ConsumerRunner_Initialize 0 m).1).1 =
    [(DNats, 1, 0); (DMemstore, 1, 0); (DNats, 1, 1); (DMemstore, 1, 1)]%nat.
Proof. vm_compute. reflexivity. Qed.

(** A start command before the initialization ends the process. *)
Example start_before_initialize_panics :
  (ConsumerRunner_Start (fresh_consumer (B := toy) [ns_ok])).2 = Crashed.
Proof. done. Qed.

Definition kv_runner : machine toy KeyValueRunner :=
  mkMachine [] (mkKeyValueRunner [mkKeyValueNamespace "kv" "1" "redis" ∅] None None).
Definition kv_run : machine toy KeyValueRunner * outcome unit :=
  bind KeyValueRunner_Initialize (λ _, bind KeyValueRunner_Start (λ _, KeyValueRunner_Stop)) kv_runner.

(** The key-value runner starts and stops its driver twice, itself and through the
    pattern. *)
Example driver_is_started_twice :
  kv_run.2 = Done () ∧
  ((λ o, (ob_started o, ob_stopped o)) <$> mc_heap kv_run.1) = [(2, 2)]%nat.
Proof. vm_compute. done. Qed.

Definition registry (reg msg : string) : MulticastNamespace :=
  mkMulticastNamespace "m" "1" (mkMulticastSlots (slot reg) (slot msg) None) ∅.

Example postgres_registry_hangs :
  (MulticastRunner_Initialize (fresh_multicast (B := toy) [registry "postgres" "nats"])).2 = Waiting ∧
  (MulticastRunner_Initialize (fresh_multicast (B := toy) [registry "redis" "kafka"])).2 = Waiting ∧
  (MulticastRunner_Initialize (fresh_multicast (B := toy) [registry "redis" "nats"])).2 = Done ().
Proof. vm_compute. done. Qed.

(** The coordinator is closed by the first stop and panics at the second. *)
Example second_stop_of_multicast_panics :
  let m := (MulticastRunner_Initialize (fresh_multicast (B := toy) [registry "redis" "nats"])).1 in
  (MulticastRunner_Stop m).2 = Done () ∧ (MulticastRunner_Stop (MulticastRunner_Stop m).1).2 = Crashed.
Proof. vm_compute. done. Qed.


Lemma consumer_runner_refines_witness : consumer_ready 0 ns_ok.
Proof.
  pose proof (consumer_runner_refines (B := toy) 0 (Ob := unit) (λ b, conj eq_refl eq_refl) ns_ok []) as H.
  revert H. vm_compute (ConsumerRunner_Initialize _ _). intros [H _]. exact H.
Defined.

Definition sent : gmap string pb_value :=
  {[ "slots" := pb_slots (mkSlotMessage "nats" [] []) None;
     "behavior" := pb_behavior (mkConsumerBehavior "g" "t" 3 10 true None) ]}%string.

Definition sent_config : Config :=
  default (mkConfig "" "" 0 ∅) (ParseConfigFromStruct "orders" "1" (Some sent) (map_to_list sent)).

Lemma control_plane_configuration_witness :
  ∃ ns, ConsumerAdapter_Initialize 0 sent_config (fresh_consumer (B := toy) []) =
      ConsumerRunner_Initialize 0 (fresh_consumer [ns]) ∧
    consumer_config 0 ns = mkConsumerConfig "orders" (mkConsumerBehavior "g" "t" 3 10 true None).
Proof.
  destruct (control_plane_configuration (B := toy) 0 "orders" "1" sent (map_to_list sent) (mkSlotMessage "nats" [] [])
    None (mkConsumerBehavior "g" "t" 3 10 true None) sent_config (fresh_consumer [])) as (ns & H1 & _ & H2).
  - reflexivity.
  - reflexivity.
  - reflexivity.
  - simpl. lia.
  - simpl. lia.
  - reflexivity.
  - reflexivity.
  - exists ns. by split.
Defined.
End RunnersDemo.
