(* ===== verification/ProducerRunner.v ===== *)
(** * patterns/producer/cmd/producer-runner: the process that runs a producer

    main.go: the producer is built from its configuration, its slots are bound to the
    drivers that the configuration names, and it is stopped on a signal.  [New] and
    [Initialize] of a driver are an argument, the drivers are any instances of the slot
    interfaces.  The flags, the log level and the JSON decoding are left out. *)

From S2P Require Import Prelude Backoff Memstore Slots Producer ProducerSpec Plugin.
Import GoFloat.
Local Open Scope Z_scope.

Record SlotBinding := mkSlotBinding { sb_Driver : string; sb_Config : gmap string any }.

(** The configuration file: what the producer takes, and the slots. *)
Record RunnerConfig := mkRunnerConfig {
  rc_producer : ProducerConfig;
  rc_MessageSink : SlotBinding;
  rc_StateStore : SlotBinding;
  rc_ObjectStore : SlotBinding }.

Inductive fatal :=
  | FatalCreate (e : producer_error)
  | FatalUnsupported (slot driver : string)
  | FatalInitialize (slot driver : string)
  | FatalBind (e : producer_error)
  | FatalStart (e : producer_error)
  | FatalPanic.

Section Runner.
Context {Nt Rd Ms Ob : Type} `{!MessageSink Nt, !StateStore Rd, !StateStore Ms, !ObjectStore Ob}.

(** The driver in the message sink slot is any value; of the three only the NATS driver
    has the methods of the pub/sub and queue interfaces. *)
Inductive sink := SinkNats (n : Nt) | SinkRedis (r : Rd) | SinkMem (m : Ms).
Inductive store := StoreRedis (r : Rd) | StoreMem (m : Ms).

Definition is_nats (s : sink) : bool := match s with SinkNats _ => true | _ => false end.
Definition on_nats (f : Nt → Nt * bool) (s : sink) : sink * bool :=
  match s with SinkNats n => let '(n, ok) := f n in (SinkNats n, ok) | _ => (s, false) end.

#[export, refine] Instance sink_MessageSink : MessageSink sink := {|
  sk_is_pubsub := is_nats;
  sk_is_queue := is_nats;
  sk_Publish m := on_nats (sk_Publish m);
  sk_Enqueue m := on_nats (sk_Enqueue m);
  sk_log s := match s with SinkNats n => sk_log n | _ => [] end |}.
Proof.
  - intros m [n| |] s' ok; simpl; [|intros [= <- <-]; auto..].
    destruct (sk_Publish m n) eqn:E. intros [= <- <-]. by eapply sk_Publish_log.
  - intros m [n| |] s' ok; simpl; [|intros [= <- <-]; auto..].
    destruct (sk_Enqueue m n) eqn:E. intros [= <- <-]. by eapply sk_Enqueue_log.
  - intros m [n| |]; simpl; [by destruct (sk_Publish m n)|done..].
  - intros m [n| |]; simpl; [by destruct (sk_Enqueue m n)|done..].
Defined.

#[export, refine] Instance store_StateStore : StateStore store := {|
  ss_Get now k s :=
    match s with
    | StoreRedis r => let '(r, v) := ss_Get now k r in (StoreRedis r, v)
    | StoreMem m => let '(m, v) := ss_Get now k m in (StoreMem m, v)
    end;
  ss_Set now k v ttl s :=
    match s with
    | StoreRedis r => let '(r, ok) := ss_Set now k v ttl r in (StoreRedis r, ok)
    | StoreMem m => let '(m, ok) := ss_Set now k v ttl m in (StoreMem m, ok)
    end;
  ss_at t s k := match s with StoreRedis r => ss_at t r k | StoreMem m => ss_at t m k end |}.
Proof.
  - intros now k [r|m] s' v; [destruct (ss_Get now k r) eqn:E|destruct (ss_Get now k m) eqn:E];
      intros [= <- <-]; by apply ss_Get_at in E.
  - intros now k v ttl [r|m] s' t k';
      [destruct (ss_Set now k v ttl r) eqn:E|destruct (ss_Set now k v ttl m) eqn:E];
      intros [= <- ->] ??; by apply (ss_Set_at _ _ _ _ _ _ _ _ E).
  - intros now k v ttl [r|m] s' ok t k';
      [destruct (ss_Set now k v ttl r) eqn:E|destruct (ss_Set now k v ttl m) eqn:E];
      intros [= <- <-] ???; by apply (ss_Set_other _ _ _ _ _ _ _ _ _ E).
Defined.

(** [New] and [Initialize]; [None] is an error. *)
Context (nats_Initialize : Config → option Nt).
Context (redis_Initialize : Config → option Rd).
Context (memstore_Initialize : Config → option Ms).
Context (ovf : Z) (ParseDuration : string → option Z).

Definition string_or (config : gmap string any) (key default_ : string) : string :=
  match config !! key with
  | Some (AnyString s) => if bool_decide (s = ""%string) then default_ else s
  | _ => default_
  end.

Definition driver_config (name : string) (backend : gmap string any) : Config := mkConfig name "0.1.0" 0 backend.

Definition initializeNATS (config : gmap string any) : option Nt :=
  nats_Initialize (driver_config "nats" {[ "url"%string := AnyString (string_or config "url" "nats://localhost:4222") ]}).
Definition initializeRedis (config : gmap string any) : option Rd :=
  redis_Initialize (driver_config "redis" {[ "address"%string := AnyString (string_or config "address" "localhost:6379") ]}).
Definition initializeMemStore (config : gmap string any) : option Ms :=
  let maxKeys := match config !! "max_keys"%string with Some (AnyFloat f) => f | _ => f64_zero end in
  let maxKeys := if f64_eqb maxKeys f64_zero then f64_of_int 10000 else maxKeys in
  memstore_Initialize (driver_config "memstore" {[ "max_keys"%string := AnyInt (f64_to_int64 ovf maxKeys) ]}).

Definition initialized {A B} (slot driver : string) (f : A → B) (r : option A) : B + fatal :=
  match r with Some a => inl (f a) | None => inr (FatalInitialize slot driver) end.

Definition initializeMessageSink (b : SlotBinding) : sink + fatal :=
  if bool_decide (sb_Driver b = "nats"%string)
  then initialized "message_sink" "nats" SinkNats (initializeNATS (sb_Config b))
  else if bool_decide (sb_Driver b = "redis"%string)
  then initialized "message_sink" "redis" SinkRedis (initializeRedis (sb_Config b))
  else if bool_decide (sb_Driver b = "memstore"%string)
  then initialized "message_sink" "memstore" SinkMem (initializeMemStore (sb_Config b))
  else inr (FatalUnsupported "message_sink" (sb_Driver b)).

Definition initializeStateStore (b : SlotBinding) : store + fatal :=
  if bool_decide (sb_Driver b = "redis"%string)
  then initialized "state_store" "redis" StoreRedis (initializeRedis (sb_Config b))
  else if bool_decide (sb_Driver b = "memstore"%string)
  then initialized "state_store" "memstore" StoreMem (initializeMemStore (sb_Config b))
  else inr (FatalUnsupported "state_store" (sb_Driver b)).

(** The store is only made for deduplication. *)
Definition runner_store (c : RunnerConfig) : option store + fatal :=
  if bc_Deduplication (pc_Behavior (rc_producer c))
  then match initializeStateStore (rc_StateStore c) with inl s => inl (Some s) | inr e => inr e end
  else inl None.

Abbreviation producer := (@Producer sink store Ob).

(** [main] up to the wait for a signal.  The object store slot is bound to nil. *)
Definition start_runner (c : RunnerConfig) : producer + fatal :=
  match New (Sk := sink) (Kv := store) (Ob := Ob) ParseDuration (rc_producer c) with
  | Err e => inr (FatalCreate e)
  | Panic => inr FatalPanic
  | Ok p =>
      match initializeMessageSink (rc_MessageSink c) with
      | inr e => inr e
      | inl s =>
          match runner_store c with
          | inr e => inr e
          | inl st =>
              let '(p, err) := BindSlots s st None p in
              match err with
              | Some e => inr (FatalBind e)
              | None => let '(p, err) := Start p in match err with Some e => inr (FatalStart e) | None => inl p end
              end
          end
      end
  end.
(** ** Properties *)

Definition no_metrics : ProducerMetrics := mkProducerMetrics 0 0 0 0 0.

(** The producer that a configuration describes. *)
Record describes (c : RunnerConfig) (p : producer) : Prop := {
  de_config : Validate ParseDuration (rc_producer c) = Ok (pr_config p);
  de_driver : sb_Driver (rc_MessageSink c) = "nats"%string;
  de_sink : ∃ n, initializeNATS (sb_Config (rc_MessageSink c)) = Some n ∧ pr_messageSink p = Some (SinkNats n);
  de_store : runner_store c = inl (pr_stateStore p);
  de_objects : pr_objectStore p = None;
  de_running : pr_running p = true;
  de_batch : pr_batch p = [];
  de_metrics : pr_metrics p = no_metrics }.

(** Only NATS can be the sink: the other two drivers are made and then rejected. *)
Lemma sink_bound c s st (p : producer) : initializeMessageSink (rc_MessageSink c) = inl s → pr_running p = false →
  (BindSlots s st None p).2 = (None : option producer_error) ↔
  sb_Driver (rc_MessageSink c) = "nats"%string ∧
    ∃ n, initializeNATS (sb_Config (rc_MessageSink c)) = Some n ∧ s = SinkNats n.
Proof.
  intros Hs Hr. unfold BindSlots. rewrite Hr. simpl. rewrite orb_diag. unfold initializeMessageSink, initialized in Hs.
  split.
  - intros Hb. destruct s as [n|r|m]; [|done..]. repeat case_bool_decide; repeat case_match; naive_solver.
  - intros (_ & n & _ & ->). done.
Qed.

Lemma Validate_bounds cfg cfg' : Validate ParseDuration cfg = Ok cfg' →
  0 ≤ bc_MaxRetries (pc_Behavior cfg') ∧ 0 ≤ bc_BatchSize (pc_Behavior cfg').
Proof.
  unfold Validate. destruct (bool_decide _); [done|].
  destruct (Z.ltb_spec (bc_MaxRetries (pc_Behavior cfg)) 0); [done|].
  destruct (Z.ltb_spec (bc_BatchSize (pc_Behavior cfg)) 0); [done|]. repeat case_match; intros; simplify_eq/=; lia.
Qed.

Lemma start_runner_describes c p : start_runner c = inl p ↔ describes c p.
Proof.
  unfold start_runner, New. split.
  - destruct (Validate ParseDuration (rc_producer c)) as [cfg|e|] eqn:Ev; [|done..].
    destruct (initializeMessageSink (rc_MessageSink c)) as [s|e] eqn:Es; [|done].
    destruct (runner_store c) as [st|e] eqn:Est; [|done].
    destruct (BindSlots s st None _) as [p1 [e|]] eqn:Eb; [done|].
    pose proof (f_equal snd Eb) as Hb. simpl in Hb. apply (sink_bound c) in Hb as (Hd & n & Hn & ->); [|done..].
    simpl in Eb. injection Eb as <-. simpl. intros [= <-]. by split; simpl; try done; exists n.
  - intros [Ev Hd (n & Hn & Hsink) Hst Ho Hr Hb Hm]. rewrite Ev.
    assert (initializeMessageSink (rc_MessageSink c) = inl (SinkNats n)) as ->.
    { unfold initializeMessageSink. rewrite Hd, Hn. done. }
    rewrite Hst. simpl. destruct p; simpl in *. by subst.
Qed.

Section Shutdown.
Context (marshal_time : Z → option bytes) (unmarshal_time : bytes → option Z).

(** The runner comes up exactly when the configuration is valid, the message sink is
    NATS, the state store is Redis or the memory store when deduplication asks for one,
    and their drivers can be initialized; it then runs the producer that the
    configuration describes, for which the invariant of the producer holds.  It has
    nothing that publishes, so the batch is empty when the signal comes and stopping
    returns, with all counters at zero. *)
Theorem producer_runner_correct c p :
  (start_runner c = inl p ↔ describes c p) ∧
  (start_runner c = inl p → producer_wf p ∧
     ∀ tc tr, ∃ p', Stop ParseDuration marshal_time unmarshal_time tc tr p = Some p' ∧
       pr_running p' = false ∧ pr_metrics p' = no_metrics).
Proof.
  split; [apply start_runner_describes|]. intros Hs. apply start_runner_describes in Hs as [Ev _ (n & _ & Hn) _ _ Hr Hb Hm].
  apply Validate_bounds in Ev as [Hret Hbs]. split.
  - split; [|by intros _; rewrite Hn; eexists|done|done]. intros s. rewrite Hn. by intros [= <-].
  - intros tc tr. unfold Producer.Stop, flushBatch, flushBatchLocked. rewrite Hr, Hb. simpl. by eexists.
Qed.
End Shutdown.
End Runner.

(** ** Concrete runners *)

Module ProducerRunnerDemo.
Import RefSlots.

Definition parse (s : string) : option Z := Some Second.
Definition behavior (dedup : bool) : BehaviorConfig := mkBehaviorConfig 3 "" 0 "" dedup "" false "" None.
Definition config (sink_driver : string) (dedup : bool) (store_driver : string) : RunnerConfig :=
  mkRunnerConfig (mkProducerConfig "orders" (behavior dedup)) (mkSlotBinding sink_driver ∅)
    (mkSlotBinding store_driver ∅) (mkSlotBinding "s3" ∅).
Definition run (c : RunnerConfig) : @Producer (@sink RefSink RefStore RefStore) (@store RefStore RefStore) RefObjects + fatal :=
  start_runner (Rd := RefStore) (Ms := RefStore) (λ _, Some (mkRefSink 0 [])) (λ _, Some (∅ : RefStore)) (λ _, Some (∅ : RefStore)) 0 parse c.

(** The drivers that the runner lists besides NATS are rejected as sinks. *)
Example redis_sink_is_rejected :
  run (config "redis" false "") = inr (FatalBind ErrSinkInterface) ∧
  run (config "memstore" false "") = inr (FatalBind ErrSinkInterface).
Proof. split; reflexivity. Qed.

(** The state store slot is not looked at without deduplication. *)
Example unknown_store_is_ignored : (match run (config "nats" false "etcd") with inl _ => true | inr _ => false end) = true ∧
  run (config "nats" true "etcd") = inr (FatalUnsupported "state_store" "etcd").
Proof. split; reflexivity. Qed.

Definition running : @Producer (@sink RefSink RefStore RefStore) (@store RefStore RefStore) RefObjects :=
  mkProducer (mkProducerConfig "orders" (mkBehaviorConfig 3 "1s" 0 "" true "5m" false "" None))
    (Some (SinkNats (mkRefSink 0 []))) (Some (StoreRedis ∅)) None true [] no_metrics.

Lemma producer_runner_correct_witness :
  (run (config "nats" true "redis") = inl running ↔
     describes (λ _, Some (mkRefSink 0 [])) (λ _, Some ∅) (λ _, Some ∅) 0 parse (config "nats" true "redis") running) ∧
  run (config "nats" true "redis") = inl running ∧
  ∃ p', Stop parse (λ _, None) (λ _, None) 5 5 running = Some p' ∧ pr_running p' = false ∧ pr_metrics p' = no_metrics.
Proof.
  destruct (producer_runner_correct (λ _, Some (mkRefSink 0 [])) (λ _, Some (∅ : RefStore)) (λ _, Some (∅ : RefStore)) 0 parse
    (λ _, None) (λ _, None) (config "nats" true "redis") running) as [H1 H2].
  split; [exact H1|]. split; [reflexivity|]. apply (H2 eq_refl).
Defined.
End ProducerRunnerDemo.
