(* ===== verification/PluginServe.v ===== *)
(** * pkg/plugin: serving a driver

    dataplane.go, controlplane.go, the bootstrap of plugin.go, serve.go, and the
    configuration of config.go, backend.go and consumer.go: the key-value service over
    gRPC on any driver, what the health service reports, and the life of the process.
    Parameters: the driver (the classes [Plugin] and [KeyValueDriver]), what listening on
    a port yields, YAML, and the order in which goroutines run.
    The module [Observability] models observability.go. *)

From stdpp Require Import pretty.
From S2P Require Import Prelude Backoff RedisRegistry Memstore Plugin Redis Postgres PostgresSpec.
Local Open Scope Z_scope.

(** ** dataplane.go *)

Inductive kv_request :=
  | SetRequest (key : string) (value : bytes)
  | GetRequest (key : string)
  | DeleteRequest (key : string)
  | ExistsRequest (key : string).

(** The error fields are empty when there is no error. *)
Inductive kv_response :=
  | SetResponse (success : bool) (error : string)
  | GetResponse (found : bool) (value : bytes) (error : string)
  | DeleteResponse (success : bool) (error : string)
  | ExistsResponse (exists_ : bool) (error : string).

Section DataPlane.
Context {D : Type} `{!KeyValueDriver D}.
(** What the error of a request says. *)
Context (err_Error : kv_request → string).

(** Values are stored without a time to live; an error of the driver is an answer. *)
Definition service_Set (now : Z) (key : string) (value : bytes) (d : D) : D * kv_response :=
  let '(d, ok) := kd_Set now key value 0 d in
  (d, if (ok : bool) then SetResponse true "" else SetResponse false (err_Error (SetRequest key value))).

Definition service_Get (now : Z) (key : string) (d : D) : D * kv_response :=
  let '(d, r) := kd_Get now key d in
  (d, match r with
      | None => GetResponse false [] (err_Error (GetRequest key))
      | Some None => GetResponse false [] ""
      | Some (Some value) => GetResponse true value ""
      end).

Definition service_Delete (now : Z) (key : string) (d : D) : D * kv_response :=
  let '(d, ok) := kd_Delete now key d in
  (d, if (ok : bool) then DeleteResponse true "" else DeleteResponse false (err_Error (DeleteRequest key))).

Definition service_Exists (now : Z) (key : string) (d : D) : D * kv_response :=
  let '(d, r) := kd_Exists now key d in
  (d, match r with
      | None => ExistsResponse false (err_Error (ExistsRequest key))
      | Some b => ExistsResponse b ""
      end).

Definition handle (now : Z) (req : kv_request) (d : D) : D * kv_response :=
  match req with
  | SetRequest key value => service_Set now key value d
  | GetRequest key => service_Get now key d
  | DeleteRequest key => service_Delete now key d
  | ExistsRequest key => service_Exists now key d
  end.

(** Requests with the times at which the driver runs them. *)
Fixpoint serve (reqs : list (Z * kv_request)) (d : D) : D * list kv_response :=
  match reqs with
  | [] => (d, [])
  | (now, req) :: reqs =>
      let '(d, resp) := handle now req d in
      let '(d, resps) := serve reqs d in (d, resp :: resps)
  end.
End DataPlane.

(** *** What a driver promises to the service

    [kl_shows t d m]: from [t] on the driver holds exactly the entries of [m], none of
    which expires.  An operation that fails may have taken effect. *)
Class KeyValueLaws (D : Type) `{!KeyValueDriver D} := {
  kl_shows : Z → D → gmap string bytes → Prop;
  kl_later t t' d m : t ≤ t' → kl_shows t d m → kl_shows t' d m;
  kl_Set now k v d m d' ok : kl_shows now d m → kd_Set now k v 0 d = (d', ok) →
    kl_shows now d' (<[k := v]> m) ∨ ok = false ∧ kl_shows now d' m;
  kl_Get now k d m d' r : kl_shows now d m → kd_Get now k d = (d', r) →
    kl_shows now d' m ∧ (r = None ∨ r = Some (m !! k));
  kl_Delete now k d m d' ok : kl_shows now d m → kd_Delete now k d = (d', ok) →
    kl_shows now d' (delete k m) ∨ ok = false ∧ kl_shows now d' m;
  kl_Exists now k d m d' r : kl_shows now d m → kd_Exists now k d = (d', r) →
    kl_shows now d' m ∧ (r = None ∨ r = Some (bool_decide (is_Some (m !! k)))) }.

(** The memory store. *)
#[global, refine] Instance KeyValueBasic_Laws {M} `{!KeyValueBasic M} : KeyValueLaws M := {|
  kl_shows t d m := ∀ t' k, t ≤ t' → kv_at t' d k = m !! k |}.
Proof.
  - intros t t' d m Ht H t'' k Ht'. apply H. lia.
  - intros now k v d m d' [] H Hs; [left|right; split; [done|]]; intros t' k' Ht'.
    + simpl in Hs. rewrite (kv_Set_at _ _ _ _ _ _ _ k' Hs Ht') by done. simpl. rewrite H by done.
      by case_bool_decide; subst; rewrite ?lookup_insert_eq, ?lookup_insert_ne.
    + simpl in Hs. by rewrite (kv_Set_failed _ _ _ _ _ _ t' k' Hs), H.
  - intros now k d m d' r H. simpl. destruct (kv_Get now k d) as [d1 v] eqn:E. intros [= <- <-].
    apply kv_Get_at in E as [-> Hsame]. split; [intros t' k' Ht'; by rewrite Hsame, H|right; by rewrite H].
  - intros now k d m d' ok H [= <- <-]. left. intros t' k' Ht'. rewrite kv_Delete_at, H by done.
    by case_bool_decide; subst; rewrite ?lookup_delete_eq, ?lookup_delete_ne.
  - intros now k d m d' r H. simpl. destruct (kv_Exists now k d) as [d1 b] eqn:E. intros [= <- <-].
    apply kv_Exists_at in E as [Hb Hsame]. split; [intros t' k' Ht'; by rewrite Hsame, H|right; f_equal].
    rewrite H in Hb by done. case_bool_decide as Hm; [by apply Hb|]. destruct b; [|done]. by destruct Hm; apply Hb.
Defined.

(** Redis, with string keys only. *)
#[global, refine] Instance Redis_Laws {S} `{!RedisServer S} : KeyValueLaws S := {|
  kl_shows t s m := ∀ k, rd_entry t s k = (λ v, (RedisString v, None)) <$> m !! k |}.
Proof.
  - intros t t' s m Ht H k. rewrite (rd_later t t') by done. rewrite H. by destruct (m !! k).
  - intros now k v s m s' ok H Hs. apply client_Set_spec in Hs as [Ho Hk]; [|done].
    destruct Hk as [Hk|[-> Hk]]; [left|right; split; [done|]]; intros k'; destruct (decide (k' = k)) as [->|Hne].
    + by rewrite Hk, lookup_insert_eq.
    + by rewrite Ho, H, lookup_insert_ne.
    + by rewrite Hk.
    + by rewrite Ho.
  - intros now k s m s' r H (Hsame & Hr)%rd_GET_spec. split; [intros k'; by rewrite Hsame|].
    destruct Hr as [->|Hr]; [by left|right]. rewrite H in Hr. by destruct (m !! k).
  - intros now k s m s' ok H (Ho & Hk)%rd_DEL_spec.
    destruct Hk as [Hk|[-> Hk]]; [left|right; split; [done|]]; intros k'; destruct (decide (k' = k)) as [->|Hne].
    + by rewrite Hk, lookup_delete_eq.
    + by rewrite Ho, H, lookup_delete_ne.
    + by rewrite Hk.
    + by rewrite Ho.
  - intros now k s m s' r H. simpl. unfold client_Exists. destruct (rd_EXISTS now k s) as [s1 n] eqn:E. intros [= <- <-].
    apply rd_EXISTS_spec in E as (Hsame & Hn). split; [intros k'; by rewrite Hsame|].
    rewrite H in Hn. destruct Hn as [->| ->]; [by left|right]. by destruct (m !! k).
Defined.

(** PostgreSQL.  An empty value arrives over gRPC as a nil slice, which is NULL. *)
#[global] Instance Postgres_KeyValueDriver {S} `{!PgDB S} : KeyValueDriver S := {|
  kd_Set now k v ttl := pool_Set now k (match v with [] => None | _ => Some v end) ttl;
  kd_Get _ := pool_Get;
  kd_Delete := pool_Delete;
  kd_Exists _ := pool_Exists |}.

#[global, refine] Instance Postgres_Laws {S} `{!PgDB S} : KeyValueLaws S := {|
  kl_shows _ s m := ∀ k, pg_at s k = m !! k |}.
Proof.
  - done.
  - intros now k v s m s' ok H Hs. simpl in Hs. unfold pool_Set in Hs. destruct v as [|b v].
    + apply pg_upsert_null in Hs as [-> Ht]. right. split; [done|]. intros k'. rewrite <- H. unfold pg_at. by rewrite Ht.
    + apply pg_upsert in Hs. destruct Hs as [Ht|[-> Ht]]; [left|right; split; [done|]]; intros k'; unfold pg_at in *; rewrite Ht.
      * unfold upsert. destruct (decide (k' = k)) as [->|Hne]; [by rewrite !lookup_insert_eq|].
        rewrite !lookup_insert_ne by congruence. apply H.
      * apply H.
  - intros now k s m s' r H. simpl. unfold pool_Get. destruct (pg_Query _ _ s) as [s1 q] eqn:E. intros [= <- <-].
    apply pg_select in E as (Ht & Hq). split; [intros k'; unfold pg_at; rewrite Ht; apply H|].
    destruct Hq as [->| ->]; [by left|right]. rewrite <- H. unfold pg_at. by destruct (pg_table_of s !! _).
  - intros now k s m s' ok H Hs. apply pg_delete in Hs.
    destruct Hs as [Ht|[-> Ht]]; [left|right; split; [done|]]; intros k'; unfold pg_at in *; rewrite Ht.
    + destruct (decide (k' = k)) as [->|Hne]; [by rewrite !lookup_delete_eq|].
      rewrite !lookup_delete_ne by congruence. apply H.
    + apply H.
  - intros now k s m s' r H. simpl. unfold pool_Exists. destruct (pg_Query _ _ s) as [s1 q] eqn:E. intros [= <- <-].
    apply pg_exists in E as (Ht & Hq). split; [intros k'; unfold pg_at; rewrite Ht; apply H|].
    destruct Hq as [->| ->]; [by left|right]. rewrite <- H. unfold pg_at. f_equal. apply bool_decide_ext.
    by rewrite fmap_is_Some.
Defined.

(** *** The service refines a map *)

(** A request and its answer on a map: an answer with an error leaves open whether a
    write took effect. *)
Inductive map_step (m : gmap string bytes) : kv_request → kv_response → gmap string bytes → Prop :=
  | map_Set k v : map_step m (SetRequest k v) (SetResponse true "") (<[k := v]> m)
  | map_Set_error k v e m' : m' = m ∨ m' = <[k := v]> m → map_step m (SetRequest k v) (SetResponse false e) m'
  | map_Get k v : m !! k = Some v → map_step m (GetRequest k) (GetResponse true v "") m
  | map_Get_absent k : m !! k = None → map_step m (GetRequest k) (GetResponse false [] "") m
  | map_Get_error k e : e ≠ ""%string → map_step m (GetRequest k) (GetResponse false [] e) m
  | map_Delete k : map_step m (DeleteRequest k) (DeleteResponse true "") (delete k m)
  | map_Delete_error k e m' : m' = m ∨ m' = delete k m → map_step m (DeleteRequest k) (DeleteResponse false e) m'
  | map_Exists k : map_step m (ExistsRequest k) (ExistsResponse (bool_decide (is_Some (m !! k))) "") m
  | map_Exists_error k e : e ≠ ""%string → map_step m (ExistsRequest k) (ExistsResponse false e) m.

Inductive map_run : gmap string bytes → list kv_request → list kv_response → gmap string bytes → Prop :=
  | map_run_nil m : map_run m [] [] m
  | map_run_cons m req resp m1 reqs resps m2 :
      map_step m req resp m1 → map_run m1 reqs resps m2 → map_run m (req :: reqs) (resp :: resps) m2.

(** The clock does not go back. *)
Fixpoint in_time (now : Z) (reqs : list (Z * kv_request)) : Prop :=
  match reqs with
  | [] => True
  | (t, _) :: reqs => now ≤ t ∧ in_time t reqs
  end.

Section Refinement.
Context {D : Type} `{!KeyValueDriver D} `{!KeyValueLaws D} (err_Error : kv_request → string).
(** An error has a text. *)
Context (err_Error_text : ∀ req, err_Error req ≠ ""%string).

Lemma handle_refines now req (d : D) m d' resp : kl_shows now d m → handle err_Error now req d = (d', resp) →
  ∃ m', map_step m req resp m' ∧ kl_shows now d' m'.
Proof using All.
  intros H. destruct req as [k v|k|k|k]; simpl.
  - unfold service_Set. destruct (kd_Set now k v 0 d) as [d1 ok] eqn:E. intros [= <- <-].
    destruct (kl_Set _ _ _ _ _ _ _ H E) as [H1|[-> H1]].
    + exists (<[k := v]> m). split; [|done]. destruct ok; [constructor|]. constructor. by right.
    + exists m. split; [|done]. constructor. by left.
  - unfold service_Get. destruct (kd_Get now k d) as [d1 r] eqn:E. intros [= <- <-].
    destruct (kl_Get _ _ _ _ _ _ H E) as [H1 [->| ->]]; exists m; (split; [|done]); [by constructor|].
    destruct (m !! k) eqn:Em; by constructor.
  - unfold service_Delete. destruct (kd_Delete now k d) as [d1 ok] eqn:E. intros [= <- <-].
    destruct (kl_Delete _ _ _ _ _ _ H E) as [H1|[-> H1]].
    + exists (delete k m). split; [|done]. destruct ok; [constructor|]. constructor. by right.
    + exists m. split; [|done]. constructor. by left.
  - unfold service_Exists. destruct (kd_Exists now k d) as [d1 r] eqn:E. intros [= <- <-].
    destruct (kl_Exists _ _ _ _ _ _ H E) as [H1 [->| ->]]; exists m; (split; [|done]); by constructor.
Qed.

(** C19. The key-value service on a driver that keeps its promise is a map: every sequence
    of requests is answered as a map answers it, whatever drivers and requests fail; a
    write that is answered with an error may have taken effect, a read never has one.
    The memory store, Redis and PostgreSQL keep the promise. *)
Theorem dataplane_refines_map now reqs (d : D) m d' resps :
  kl_shows now d m → in_time now reqs → serve err_Error reqs d = (d', resps) →
  ∃ m' t, map_run m reqs.*2 resps m' ∧ now ≤ t ∧ kl_shows t d' m'.
Proof using All.
  revert now d m resps. induction reqs as [|[t req] reqs IH]; intros now d m resps H Ht; simpl.
  { intros [= <- <-]. exists m, now. split_and!; [constructor|lia|done]. }
  destruct Ht as [Ht Hts]. destruct (handle err_Error t req d) as [d1 resp] eqn:E.
  destruct (serve err_Error reqs d1) as [d2 resps2] eqn:Es. intros [= <- <-].
  apply (kl_later now t) in H; [|done]. destruct (handle_refines _ _ _ _ _ _ H E) as (m1 & Hstep & H1).
  destruct (IH t d1 m1 _ H1 Hts Es) as (m2 & t2 & Hrun & Ht2 & H2).
  exists m2, t2. split_and!; [by econstructor|lia|done].
Qed.
End Refinement.

(** ** config.go, backend.go, consumer.go *)

Record BackendConfig := mkBackendConfig {
  bk_Name : string;
  bk_ConfigPath : string;
  bk_Type : string;
  bk_ConnectionString : string;
  bk_Config : gmap string any }.

(** The fields of the configuration besides [Config]: [None] is a nil map or pointer;
    [fc_backend_ref] is the field of the consumer. *)
Record FullConfig := mkFullConfig {
  fc_config : Config;
  fc_Backends : option (gmap string BackendConfig);
  fc_backend_ref : option string }.

Inductive config_error := ErrRead | ErrParse | ErrNoBackends | ErrBackendNotFound (path : string) | ErrNoConsumer | ErrNoBackendRef.

Definition set_port (port : Z) (c : FullConfig) : FullConfig :=
  let k := fc_config c in
  mkFullConfig (mkConfig (cfg_Name k) (cfg_Version k) port (cfg_Backend k)) (fc_Backends c) (fc_backend_ref c).

(** [file]: the contents, [None] when it cannot be read. *)
Definition LoadConfig (unmarshal : string → option FullConfig) (file : option string) : FullConfig + config_error :=
  match file with
  | None => inr ErrRead
  | Some data =>
      match unmarshal data with
      | None => inr ErrParse
      | Some c => inl (if cfg_Port (fc_config c) =? 0 then set_port 9090 c else c)
      end
  end.

Definition GetBackend (configPath : string) (c : FullConfig) : BackendConfig + config_error :=
  match fc_Backends c with
  | None => inr ErrNoBackends
  | Some m => match m !! configPath with Some b => inl b | None => inr (ErrBackendNotFound configPath) end
  end.
Definition ListBackends (c : FullConfig) : list string := (map_to_list (default ∅ (fc_Backends c))).*1.
Definition GetConsumerBackend (c : FullConfig) : BackendConfig + config_error :=
  match fc_backend_ref c with
  | None => inr ErrNoConsumer
  | Some ref => if bool_decide (ref = ""%string) then inr ErrNoBackendRef else GetBackend ref c
  end.

(** The consumer finds its backend exactly when its reference is listed. *)
Lemma consumer_backend_listed c ref : fc_backend_ref c = Some ref → ref ≠ ""%string →
  (∃ b, GetConsumerBackend c = inl b) ↔ ref ∈ ListBackends c.
Proof.
  intros Hr Hne. unfold GetConsumerBackend, GetBackend, ListBackends. rewrite Hr, bool_decide_eq_false_2 by done.
  destruct (fc_Backends c) as [m|]; simpl; [|rewrite map_to_list_empty; simpl; rewrite elem_of_nil; naive_solver].
  rewrite list_elem_of_fmap. split.
  - intros [b Hb]. destruct (m !! ref) as [b'|] eqn:E; [|done]. exists (ref, b'). by rewrite elem_of_map_to_list.
  - intros ([ref' b] & -> & Hin%elem_of_map_to_list). simpl. rewrite Hin. by eexists.
Qed.

(** ** serve.go *)

(** The port of the control plane: [flag] is the value of -grpc-port, [dynamic] the port
    that the system chose, [None] when there is none. *)
Definition serve_config (name version : string) (DefaultPort flag : Z) (dynamic : option Z)
    (loaded : FullConfig + config_error) : option FullConfig :=
  let c := match loaded with
           | inl c => c
           | inr _ => mkFullConfig (mkConfig name version DefaultPort ∅) None None
           end in
  if flag =? 0 then (λ port, set_port port c) <$> dynamic
  else if negb (flag =? DefaultPort) then Some (set_port flag c)
  else Some c.

(** ** controlplane.go: the health service *)

Inductive serving := SERVING | NOT_SERVING.

Definition serving_status (r : HealthStatus + string) : serving :=
  match r with
  | inr _ => NOT_SERVING
  | inl h => match hs_Status h with HealthHealthy | HealthDegraded => SERVING | _ => NOT_SERVING end
  end.

(** What is set at each tick; [None]: the context ends, and the loop with it. *)
Fixpoint healthChecker (ticks : list (option (HealthStatus + string))) : list serving :=
  match ticks with
  | [] => []
  | None :: _ => [NOT_SERVING]
  | Some r :: ticks => serving_status r :: healthChecker ticks
  end.

(** ** plugin.go: the life of the process *)

Inductive plugin_call := CallInitialize | CallStart | CallStop.
#[global] Instance plugin_call_dec : EqDecision plugin_call.
Proof. solve_decision. Defined.

Inductive boot_error :=
  | BootInitialize (e : string)
  | BootControlPlane
  | BootPlugin (e : string)
  | BootStop (e : string).

(** The goroutine of [Start]: not begun, in the call with its result, back. *)
Inductive start_state := StartPending | StartCalled (e : option string) | StartDone.
Inductive boot_pc := BpInitialize | BpControl | BpSelect | BpStop | BpExit (r : option boot_error).
#[global] Instance boot_error_dec : EqDecision boot_error.
Proof. solve_decision. Defined.
#[global] Instance boot_pc_dec : EqDecision boot_pc.
Proof. solve_decision. Defined.

Section Bootstrap.
Context {B : Type} `{!Plugin B}.

Record process := mkProcess {
  ps_plugin : B;
  ps_calls : list plugin_call;
  ps_serving : bool;
  ps_start : option start_state;
  ps_errors : list string;
  ps_pc : boot_pc }.

Inductive boot_label :=
  | BtInitialize
  | BtControl (listening : bool)
  | BtStartCall
  | BtStartReturn
  | BtTakeError
  | BtSignal
  | BtStop.

(** Leaving the function stops the control plane. *)
Definition exit_with (r : option boot_error) (s : process) : process :=
  mkProcess (ps_plugin s) (ps_calls s) false (ps_start s) (ps_errors s) (BpExit r).
Definition goto (pc : boot_pc) (s : process) : process :=
  mkProcess (ps_plugin s) (ps_calls s) (ps_serving s) (ps_start s) (ps_errors s) pc.
Definition called (c : plugin_call) (b : B) (s : process) : process :=
  mkProcess b (ps_calls s ++ [c]) (ps_serving s) (ps_start s) (ps_errors s) (ps_pc s).

(** [BootstrapWithConfig] and its goroutine; the calls of the lifecycle service are left
    out.  Nothing runs after the exit. *)
Definition boot_exec (config : Config) (l : boot_label) (s : process) : option process :=
  match l, ps_pc s with
  | BtInitialize, BpInitialize =>
      let '(b, e) := pl_Initialize config (ps_plugin s) in
      let s := called CallInitialize b s in
      Some (match e with Some e => exit_with (Some (BootInitialize e)) s | None => goto BpControl s end)
  | BtControl listening, BpControl =>
      Some (if listening
            then mkProcess (ps_plugin s) (ps_calls s) true (Some StartPending) (ps_errors s) BpSelect
            else exit_with (Some BootControlPlane) s)
  | BtStartCall, (BpSelect | BpStop) =>
      match ps_start s with
      | Some StartPending =>
          let '(b, e) := pl_Start (ps_plugin s) in
          let s := called CallStart b s in
          Some (mkProcess (ps_plugin s) (ps_calls s) (ps_serving s) (Some (StartCalled e)) (ps_errors s) (ps_pc s))
      | _ => None
      end
  | BtStartReturn, (BpSelect | BpStop) =>
      match ps_start s with
      | Some (StartCalled e) =>
          Some (mkProcess (ps_plugin s) (ps_calls s) (ps_serving s) (Some StartDone)
                  (ps_errors s ++ option_list e) (ps_pc s))
      | _ => None
      end
  | BtTakeError, BpSelect =>
      match ps_errors s with e :: _ => Some (exit_with (Some (BootPlugin e)) s) | [] => None end
  | BtSignal, BpSelect => Some (goto BpStop s)
  | BtStop, BpStop =>
      let '(b, e) := pl_Stop (ps_plugin s) in
      Some (exit_with (match e with Some e => Some (BootStop e) | None => None end) (called CallStop b s))
  | _, _ => None
  end.

Definition new_process (b : B) : process := mkProcess b [] false None [] BpInitialize.

(** The calls so far, at each point. *)
Record boot_ok (s : process) : Prop := {
  bk_main : match ps_pc s with
    | BpInitialize => ps_calls s = [] ∧ ps_start s = None
    | BpControl => ps_calls s = [CallInitialize] ∧ ps_start s = None
    | BpSelect | BpStop => ps_start s ≠ None ∧
        ps_calls s = CallInitialize :: (match ps_start s with Some StartPending => [] | _ => [CallStart] end)
    | BpExit r =>
        match r with
        | Some (BootInitialize _) | Some BootControlPlane => ps_calls s = [CallInitialize]
        | Some (BootPlugin _) => ps_calls s = [CallInitialize; CallStart]
        | Some (BootStop _) | None =>
            ps_calls s = [CallInitialize; CallStop] ∨ ps_calls s = [CallInitialize; CallStart; CallStop]
        end
    end;
  bk_serving : ps_serving s = match ps_pc s with BpSelect | BpStop => true | _ => false end;
  bk_errors : ps_errors s ≠ [] → ps_start s = Some StartDone }.

Lemma boot_step config l s s' : boot_ok s → boot_exec config l s = Some s' → boot_ok s'.
Proof.
  intros [Hm Hs He]. destruct s as [b calls srv st errs pc]; simpl in *.
  destruct l, pc; simpl; try done.
  - destruct (pl_Initialize config b) as [b' [e|]]; intros [= <-]; destruct Hm as [-> ->]; by split.
  - destruct listening; intros [= <-]; destruct Hm as [-> ->]; split; simpl; try done.
    intros H. by specialize (He H).
  - destruct st as [[| |]|]; try done. destruct (pl_Start b) as [b' e]. intros [= <-]. destruct Hm as [_ ->]. split; simpl; try done.
    intros H. by specialize (He H).
  - destruct st as [[| |]|]; try done. destruct (pl_Start b) as [b' e]. intros [= <-]. destruct Hm as [_ ->]. split; simpl; try done.
    intros H. by specialize (He H).
  - destruct st as [[| |]|]; try done. intros [= <-]. destruct Hm as [_ ->]. by split.
  - destruct st as [[| |]|]; try done. intros [= <-]. destruct Hm as [_ ->]. by split.
  - destruct errs as [|e errs]; [done|]. intros [= <-]. destruct Hm as [_ ->]. rewrite He by done. by split; simpl.
  - intros [= <-]. by split; simpl.
  - destruct (pl_Stop b) as [b' [e|]]; intros [= <-]; destruct Hm as [_ ->]; split; simpl; try done;
      destruct st as [[| |]|]; auto.
Qed.

(** The plugin is initialized once and first, started at most once, and stopped last and
    only after a signal.  A process whose plugin fails to start exits without stopping
    it; one that exits without an error has stopped it. *)
Theorem bootstrap_lifecycle config ls b s :
  run_labels (boot_exec config) ls (new_process b) = Some s →
  ps_serving s = match ps_pc s with BpSelect | BpStop => true | _ => false end ∧
  ∀ r, ps_pc s = BpExit r →
    match r with
    | Some (BootInitialize _) | Some BootControlPlane => ps_calls s = [CallInitialize]
    | Some (BootPlugin _) => ps_calls s = [CallInitialize; CallStart]
    | Some (BootStop _) | None =>
        BtSignal ∈ ls ∧
        (ps_calls s = [CallInitialize; CallStop] ∨ ps_calls s = [CallInitialize; CallStart; CallStop])
    end.
Proof.
  intros Hrun. assert (boot_ok s) as [Hm Hs _].
  { apply (run_labels_invariant (boot_exec config) boot_ok ls (new_process b) s); [|by split|done].
    intros s0 l s1. apply boot_step. }
  split; [done|]. intros r Hr. rewrite Hr in Hm.
  assert (ps_pc s = BpStop ∨ CallStop ∈ ps_calls s → BtSignal ∈ ls) as Hsig.
  { clear Hm Hs Hr r. assert (∀ ls s0, run_labels (boot_exec config) ls s0 = Some s → ps_pc s0 ≠ BpStop →
      CallStop ∉ ps_calls s0 → ps_pc s = BpStop ∨ CallStop ∈ ps_calls s → BtSignal ∈ ls) as H.
    { clear ls Hrun. intros ls. induction ls as [|l ls IH]; intros s0; simpl; [intros [= ->] ???; naive_solver|].
      intros (s1 & H1 & H2)%bind_Some Hp Hc Hend. destruct (decide (ps_pc s1 = BpStop ∨ CallStop ∈ ps_calls s1)) as [H|H].
      - apply elem_of_cons. left. clear IH H2 Hend. destruct s0 as [b0 calls srv st errs pc]; simpl in *.
        destruct l, pc; simpl in *; try done; repeat case_match; simplify_eq/=; naive_solver set_solver.
      - apply elem_of_cons. right. apply (IH s1); [done|naive_solver..]. }
    by apply (H ls (new_process b) Hrun); [|apply not_elem_of_nil]. }
  destruct r as [[e| |e|e]|]; try done; (split; [|done]); apply Hsig; right; destruct Hm as [-> | ->]; set_solver.
Qed.
End Bootstrap.

(** ** Concrete runs *)

Module ServeDemo.

Definition text (_ : kv_request) : string := "error".
Definition requests : list (Z * kv_request) :=
  [(1, SetRequest "a" [1]); (2, GetRequest "a"); (2, GetRequest "b"); (3, DeleteRequest "a"); (4, ExistsRequest "a")].
Definition small : MemStore := mkMemStore ∅ ∅ (Some (mkMemConfig 1 Second)).

Example memstore_answers :
  (serve text requests small).2 =
    [SetResponse true ""; GetResponse true [1] ""; GetResponse false [] ""; DeleteResponse true ""; ExistsResponse false ""].
Proof. vm_compute. reflexivity. Qed.

(** The service cannot store an empty value in PostgreSQL. *)
Example empty_value_is_null :
  (@handle _ (@Postgres_KeyValueDriver _ PostgresDemo.engine_db) text 1 (SetRequest "a" []) PostgresDemo.t1).2 =
    SetResponse false "error".
Proof. vm_compute. reflexivity. Qed.

(** A port on the command line that is the default does not override the file. *)
Example default_port_flag_is_ignored :
  cfg_Port ∘ fc_config <$> serve_config "redis" "1" 9090 9090 None
    (inl (mkFullConfig (mkConfig "redis" "1" 7000 ∅) None None)) = Some 7000.
Proof. reflexivity. Qed.

Lemma dataplane_refines_map_witness :
  ∃ m' t, map_run ∅ requests.*2
      [SetResponse true ""; GetResponse true [1] ""; GetResponse false [] ""; DeleteResponse true ""; ExistsResponse false ""] m' ∧
    0 ≤ t ∧ kl_shows t (serve text requests small).1 m'.
Proof.
  refine (dataplane_refines_map text _ 0 requests small ∅ (serve text requests small).1 _ _ _ _).
  - discriminate.
  - intros t k _. reflexivity.
  - simpl. lia.
  - vm_compute. reflexivity.
Defined.
End ServeDemo.

(** * pkg/plugin/observability.go: tracing and the metrics server of a plugin

    Which components are started and shut down, and the handlers.  The OpenTelemetry
    library and the listener are inputs; components are numbered as they are created, and
    what is started and shut down is written to a log. *)

Module Observability.
Import GoFloat.
Local Open Scope Z_scope.

Record ObservabilityConfig := mkObservabilityConfig {
  oc_ServiceName : string;
  oc_ServiceVersion : string;
  oc_MetricsPort : Z;
  oc_EnableTracing : bool;
  oc_TraceExporter : string }.

Definition DefaultObservabilityConfig (serviceName serviceVersion : string) : ObservabilityConfig :=
  mkObservabilityConfig serviceName serviceVersion 0 false "stdout".

(** [om_shutdown]: the [sync.Once] has run. *)
Record ObservabilityManager := mkObservabilityManager {
  om_config : ObservabilityConfig;
  om_tracerProvider : option nat;
  om_metricsServer : option nat;
  om_shutdown : bool }.

Definition NewObservabilityManager (config : option ObservabilityConfig) : ObservabilityManager :=
  mkObservabilityManager
    (match config with Some c => c | None => mkObservabilityConfig "unknown" "0.0.0" 0 false "stdout" end)
    None None false.

Inductive obs_error := ErrResource | ErrExporter | ErrServerShutdown | ErrTracerShutdown.

(** The log: [n] is the number of the component. *)
Inductive obs_act :=
  | WarnExporter (exporter : string)
  | TracerUp (n : nat)
  | ServerUp (n : nat) (addr : string)
  | ServerDown (n : nat)
  | TracerDown (n : nat).

Definition set_tracer (n : nat) (o : ObservabilityManager) : ObservabilityManager :=
  mkObservabilityManager (om_config o) (Some n) (om_metricsServer o) (om_shutdown o).
Definition set_server (n : nat) (o : ObservabilityManager) : ObservabilityManager :=
  mkObservabilityManager (om_config o) (om_tracerProvider o) (Some n) (om_shutdown o).

(** Every exporter is the one that writes to standard output; all but the first name are
    warned about. *)
Definition exporter_warning (name : string) : list obs_act :=
  if bool_decide (name = "stdout"%string) then [] else [WarnExporter name].

(** [resource], [exporter]: the library creates them; [n]: the number of the provider. *)
Definition initializeTracing (resource exporter : bool) (n : nat) (o : ObservabilityManager)
    : ObservabilityManager * list obs_act * option obs_error :=
  if negb resource then (o, [], Some ErrResource)
  else if negb exporter then (o, exporter_warning (oc_TraceExporter (om_config o)), Some ErrExporter)
  else (set_tracer n o, exporter_warning (oc_TraceExporter (om_config o)) ++ [TracerUp n], None).

(** The listener runs in a goroutine that only logs its error. *)
Definition startMetricsServer (n : nat) (o : ObservabilityManager) : ObservabilityManager * list obs_act :=
  (set_server n o, [ServerUp n (":" +:+ pretty (oc_MetricsPort (om_config o)))]).

Definition Initialize (resource exporter : bool) (n : nat) (o : ObservabilityManager)
    : ObservabilityManager * list obs_act * option obs_error :=
  let '(o, acts, err) :=
    if oc_EnableTracing (om_config o) then initializeTracing resource exporter n o else (o, [], None) in
  match err with
  | Some e => (o, acts, Some e)
  | None =>
      if 0 <? oc_MetricsPort (om_config o)
      then let '(o, acts') := startMetricsServer n o in (o, acts ++ acts', None)
      else (o, acts, None)
  end.

(** [server], [tracer]: the component shuts down without an error. *)
Definition Shutdown (server tracer : bool) (o : ObservabilityManager)
    : ObservabilityManager * list obs_act * option obs_error :=
  if om_shutdown o then (o, [], None)
  else
    let e1 := match om_metricsServer o with Some _ => if server then None else Some ErrServerShutdown | None => None end in
    let e2 := match om_tracerProvider o with Some _ => if tracer then None else Some ErrTracerShutdown | None => None end in
    (mkObservabilityManager (om_config o) (om_tracerProvider o) (om_metricsServer o) true,
     (match om_metricsServer o with Some n => [ServerDown n] | None => [] end ++
      match om_tracerProvider o with Some n => [TracerDown n] | None => [] end),
     match e1 with Some _ => e1 | None => e2 end).

(** ** The handlers *)

Definition quoted_text (s : string) : string :=
  let q := String (Ascii.ascii_of_nat 34) "" in q +:+ s +:+ q.
Definition status_body (status : string) : string :=
  "{" +:+ quoted_text "status" +:+ ":" +:+ quoted_text status +:+ "}".

(** A response: its lines, the last of them followed by the value when there is one. *)
Record response := mkResponse { rs_status : Z; rs_lines : list string; rs_value : option float64 }.

Definition health_handler : response := mkResponse 200 [status_body "healthy"] None.
Definition ready_handler : response := mkResponse 200 [status_body "ready"] None.

(** The time since the time of the call: [t] and [t'] are the two readings of the clock. *)
Definition uptime (t t' : Z) : float64 := Seconds (t' - t).
Definition metrics_handler (o : ObservabilityManager) (t t' : Z) : response :=
  mkResponse 200
    ["# HELP backend_driver_info Backend driver information";
     "# TYPE backend_driver_info gauge";
     "backend_driver_info{name=" +:+ quoted_text (oc_ServiceName (om_config o)) +:+ ",version=" +:+
       quoted_text (oc_ServiceVersion (om_config o)) +:+ "} 1";
     "# HELP backend_driver_uptime_seconds Backend driver uptime in seconds";
     "# TYPE backend_driver_uptime_seconds counter";
     "backend_driver_uptime_seconds "]%string (Some (uptime t t')).

(** ** Properties *)

(** The components that were started, and those that were shut down. *)
Inductive component := Tracer (n : nat) | Server (n : nat).
Definition ups (acts : list obs_act) : list component :=
  omap (λ a, match a with TracerUp n => Some (Tracer n) | ServerUp n _ => Some (Server n) | _ => None end) acts.
Definition downs (acts : list obs_act) : list component :=
  omap (λ a, match a with TracerDown n => Some (Tracer n) | ServerDown n => Some (Server n) | _ => None end) acts.

Fixpoint shutdowns (calls : list (bool * bool)) (o : ObservabilityManager) : list obs_act * list (option obs_error) :=
  match calls with
  | [] => ([], [])
  | (server, tracer) :: calls =>
      let '(o, acts, e) := Shutdown server tracer o in
      let '(acts', es) := shutdowns calls o in (acts ++ acts', e :: es)
  end.

Lemma shutdowns_done calls o : om_shutdown o = true → shutdowns calls o = ([], replicate (length calls) None).
Proof.
  intros Ho. revert o Ho. induction calls as [|[server tracer] calls IH]; intros o Ho; [done|].
  cbn [shutdowns]. unfold Shutdown. rewrite Ho. by rewrite (IH o Ho).
Qed.

(** A manager that is initialized once and shut down any number of times, also after an
    initialization that failed: everything that was started is shut down, once; and only
    the first call of Shutdown can return an error. *)
Theorem shutdown_is_complete config resource exporter n calls :
  calls ≠ [] →
  let '(o, acts, err) := Initialize resource exporter n (NewObservabilityManager config) in
  let '(acts', es) := shutdowns calls o in
  ups acts' = [] ∧ downs acts = [] ∧ downs acts' ≡ₚ ups acts ∧ Forall (λ e, e = None) (tail es).
Proof.
  intros Hne. destruct calls as [|[server tracer] calls]; [done|].
  destruct (Initialize resource exporter n (NewObservabilityManager config)) as [[o acts] err] eqn:Ei.
  assert (om_shutdown o = false ∧ downs acts = [] ∧ ups (Shutdown server tracer o).1.2 = [] ∧
    downs (Shutdown server tracer o).1.2 ≡ₚ ups acts) as (Hs & H1 & H2 & H3).
  { revert Ei. unfold Initialize, initializeTracing, startMetricsServer, exporter_warning, NewObservabilityManager.
    destruct (match config with Some c => c | None => _ end) as [name version port tracing exp]. cbn.
    destruct tracing, resource, exporter; cbn; destruct (0 <? port), (bool_decide (exp = "stdout"%string)); cbn;
      intros E; simplify_eq; split_and!; try done; apply Permutation_swap. }
  cbn [shutdowns]. destruct (Shutdown server tracer o) as [[o' acts1] e] eqn:Es.
  assert (om_shutdown o' = true) as Ho' by (revert Es; unfold Shutdown; rewrite Hs; by intros E; simplify_eq).
  rewrite (shutdowns_done calls o' Ho'). rewrite app_nil_r. cbn in H2, H3 |- *. split_and!; [done..|].
  by apply Forall_replicate.
Qed.

(** Components that are started after a shutdown are never shut down. *)
Example initialize_after_shutdown_leaks :
  let o := NewObservabilityManager (Some (mkObservabilityConfig "redis" "1" 9090 true "stdout")) in
  let '(o, a1, _) := Shutdown true true o in
  let '(o, a2, _) := Initialize true true 1 o in
  let '(o, a3, _) := Shutdown true true o in
  ups (a1 ++ a2 ++ a3) = [Tracer 1; Server 1] ∧ downs (a1 ++ a2 ++ a3) = [].
Proof. split; reflexivity. Qed.

(** An hour after the start the uptime is what it was at the start. *)
Example uptime_is_zero t : uptime t t = f64_zero.
Proof. unfold uptime. by rewrite Z.sub_diag. Qed.
End Observability.
