(* ===== verification/Auth.v ===== *)
(** * cmd/prismctl/internal/auth: OIDC login and the token file

    oidc.go and token.go.  The identity provider and the HTTP library are arguments: a
    function takes the answer to the request it sends, and the request is a definition
    of its own.  The JSON decoders are parameters.  Times are in nanoseconds. *)

From Stdlib Require Import Ascii.
From stdpp Require Import pretty.
From S2P Require Import Prelude GoStrings Memstore MemPubSub Slots.
Local Open Scope Z_scope.

Record OIDCConfig := mkOIDCConfig {
  oc_Issuer : string;
  oc_ClientID : string;
  oc_ClientSecret : string;
  oc_Scopes : list string }.

Definition DefaultScopes : list string := ["openid"; "profile"; "email"; "offline_access"]%string.

(** [None]: the request failed; otherwise status and body. *)
Record http_response := mkHttpResponse { hr_status : Z; hr_body : string }.
Abbreviation answer := (option http_response).
Abbreviation form := (gmap string string).

(** The endpoints of the discovery document. *)
Record discovery := mkDiscovery {
  di_token : string;
  di_device : string;
  di_authorization : string;
  di_userinfo : string }.

(** [oauth2.Token]: [ot_Expiry] is [None] for the zero time; [ot_id_token] is what
    [Extra] finds. *)
Record oauth_token := mkOauthToken {
  ot_AccessToken : string;
  ot_TokenType : string;
  ot_RefreshToken : string;
  ot_Expiry : option Z;
  ot_id_token : option string }.

Record Token := mkToken {
  tk_AccessToken : string;
  tk_RefreshToken : string;
  tk_IDToken : string;
  tk_ExpiresAt : Z;
  tk_TokenType : string }.

Record DeviceCodeResponse := mkDeviceCodeResponse {
  dc_DeviceCode : string;
  dc_UserCode : string;
  dc_VerificationURI : string;
  dc_VerificationURIComplete : string;
  dc_ExpiresIn : Z;
  dc_Interval : Z }.

Inductive auth_error :=
  | ErrFetch
  | ErrStatus (status : Z) (body : string)
  | ErrDecode
  | ErrNoDeviceFlow
  | ErrNoUserinfo
  | ErrInvalidState
  | ErrAuthentication (error description : string)
  | ErrMissingCode
  | ErrCallbackServer
  | ErrContext
  | ErrExpiredCode
  | ErrDenied.

(** ** Tokens *)

Definition IsExpired (now : Z) (t : Token) : bool := tk_ExpiresAt t <? now.
Definition NeedsRefresh (now : Z) (t : Token) : bool := tk_ExpiresAt t - 5 * 60 * Second <? now.

Definition createToken (now : Z) (o : oauth_token) : Token :=
  mkToken (ot_AccessToken o) (ot_RefreshToken o) (default ""%string (ot_id_token o))
    (default (now + 3600 * Second) (ot_Expiry o)) (ot_TokenType o).

(** *** The token file *)

Section TokenFile.
Context (marshal : Token → option bytes) (unmarshal : bytes → option Token).

(** The file, [None] when it does not exist.  [failed]: the file as a failing write left
    it; [None] when the write succeeds. *)
Definition Token_Save (failed : option (option bytes)) (t : Token) (file : option bytes) : option bytes * bool :=
  match marshal t with
  | None => (file, false)
  | Some data => match failed with None => (Some data, true) | Some file' => (file', false) end
  end.
(** [io]: whether the disk works. *)
(** [None]: an error; [Some None]: there is no file. *)
Definition Token_Load (io : bool) (file : option bytes) : option (option Token) :=
  match file with
  | None => if io then Some None else None
  | Some data => if io then match unmarshal data with Some t => Some (Some t) | None => None end else None
  end.
Definition Token_Delete (io : bool) (file : option bytes) : option bytes * bool :=
  match file with None => (None, true) | Some _ => if io then (None, true) else (file, false) end.
Definition Token_Exists (file : option bytes) : bool := match file with Some _ => true | None => false end.
End TokenFile.

(** ** Requests *)

Record OIDCAuthenticator := mkOIDCAuthenticator {
  oa_config : OIDCConfig;
  oa_issuer : string;
  oa_endpoints : discovery }.

(** [strings.TrimSuffix(issuer, "/")] *)
Fixpoint trim_slash (s : string) : string :=
  match s with
  | EmptyString => EmptyString
  | String c s' =>
      if bool_decide (c = "/"%char) && bool_decide (s' = EmptyString) then EmptyString else String c (trim_slash s')
  end.

Section Flows.
Context (decode_discovery : string → option discovery).
Context (decode_token : string → option oauth_token).
Context (decode_device : string → option DeviceCodeResponse).
Context (decode_error : string → option string).

Definition discovery_url (cfg : OIDCConfig) : string := trim_slash (oc_Issuer cfg) +:+ "/.well-known/openid-configuration".

(** The answer to a request whose body is decoded on status 200; the error of the
    discovery leaves the body out. *)
Definition decoded {A} (decode : string → option A) (resp : answer) : A + auth_error :=
  match resp with
  | None => inr ErrFetch
  | Some r =>
      if hr_status r =? 200
      then match decode (hr_body r) with Some a => inl a | None => inr ErrDecode end
      else inr (ErrStatus (hr_status r) (hr_body r))
  end.

Definition NewOIDCAuthenticator (cfg : OIDCConfig) (resp : answer) : OIDCAuthenticator + auth_error :=
  match decoded decode_discovery resp with
  | inl d => inl (mkOIDCAuthenticator cfg (trim_slash (oc_Issuer cfg)) d)
  | inr e => inr e
  end.

Context (a : OIDCAuthenticator).

Definition with_secret (data : form) : form :=
  let secret := oc_ClientSecret (oa_config a) in
  if bool_decide (secret = ""%string) then data else <["client_secret"%string := secret]> data.
Definition scopes : string :=
  String.concat " " (match oc_Scopes (oa_config a) with [] => DefaultScopes | l => l end).

Definition code_form (code redirectURI : string) : form :=
  with_secret {[ "grant_type" := "authorization_code"; "code" := code; "redirect_uri" := redirectURI;
                 "client_id" := oc_ClientID (oa_config a) ]}%string.
Definition password_form (username password : string) : form :=
  with_secret {[ "grant_type" := "password"; "username" := username; "password" := password;
                 "client_id" := oc_ClientID (oa_config a); "scope" := scopes ]}%string.
Definition refresh_form (refreshToken : string) : form :=
  with_secret {[ "grant_type" := "refresh_token"; "refresh_token" := refreshToken;
                 "client_id" := oc_ClientID (oa_config a) ]}%string.
Definition device_form (deviceCode : string) : form :=
  with_secret {[ "grant_type" := "urn:ietf:params:oauth:grant-type:device_code"; "device_code" := deviceCode;
                 "client_id" := oc_ClientID (oa_config a) ]}%string.

(** [PostForm url data]: the answer of the provider. *)
Context (PostForm : string → form → answer).

(** A token request at [now]. *)
Definition token_request (now : Z) (data : form) : Token + auth_error :=
  match decoded decode_token (PostForm (di_token (oa_endpoints a)) data) with
  | inl o => inl (createToken now o)
  | inr e => inr e
  end.
Definition exchangeCodeForToken (now : Z) (code redirectURI : string) : Token + auth_error :=
  token_request now (code_form code redirectURI).
Definition LoginPassword (now : Z) (username password : string) : Token + auth_error :=
  token_request now (password_form username password).
Definition RefreshToken (now : Z) (refreshToken : string) : Token + auth_error :=
  token_request now (refresh_form refreshToken).

Definition LoginDeviceCode : DeviceCodeResponse + auth_error :=
  let endpoint := di_device (oa_endpoints a) in
  if bool_decide (endpoint = ""%string) then inr ErrNoDeviceFlow
  else decoded decode_device
         (PostForm endpoint {[ "client_id" := oc_ClientID (oa_config a); "scope" := scopes ]}%string).

(** [Get url authorization]: the answer to a request with that header, [None] also when
    the request cannot be made. *)
Definition GetUserinfo {U} (decode_userinfo : string → option U) (Get : string → string → answer) (token : Token) :
  U + auth_error :=
  let endpoint := di_userinfo (oa_endpoints a) in
  if bool_decide (endpoint = ""%string) then inr ErrNoUserinfo
  else decoded decode_userinfo (Get endpoint ("Bearer " +:+ tk_AccessToken token)%string).

(** *** The authorization code flow *)

Definition GenerateRandomState : string := EncodeToString ((λ i, 65 + (Z.of_nat i * 7) `mod` 26) <$> seq 0 16).

Record callback_request := mkCallbackRequest {
  rq_path : string;
  rq_state : string;
  rq_error : string;
  rq_description : string;
  rq_code : string }.

(** What the handler sends to the flow. *)
Inductive delivery := NoDelivery | DeliverError (e : auth_error) | DeliverCode (code : string).

Definition callback (state : string) (rq : callback_request) : delivery :=
  if negb (bool_decide (rq_path rq = "/callback"%string)) then NoDelivery
  else if negb (bool_decide (rq_state rq = state)) then DeliverError ErrInvalidState
  else if negb (bool_decide (rq_error rq = ""%string)) then
    DeliverError (ErrAuthentication (rq_error rq) (rq_description rq))
  else if bool_decide (rq_code rq = ""%string) then DeliverError ErrMissingCode
  else DeliverCode (rq_code rq).

(** The two channels hold one value each; a handler that finds its channel full waits.
    [fl_outcome]: what the flow went on with. *)
Record code_flow := mkCodeFlow {
  fl_codes : list string;
  fl_errors : list auth_error;
  fl_outcome : option (string + auth_error) }.

Inductive flow_label :=
  | FlRequest (rq : callback_request)
  | FlServerError
  | FlTakeCode
  | FlTakeError
  | FlContext.

Definition flow_exec (state : string) (l : flow_label) (f : code_flow) : option code_flow :=
  let ended o codes errors :=
    match fl_outcome f with None => Some (mkCodeFlow codes errors (Some o)) | Some _ => None end in
  let send_error e := mkCodeFlow (fl_codes f) (fl_errors f ++ [e]) (fl_outcome f) in
  match l with
  | FlRequest rq =>
      Some (match callback state rq with
            | NoDelivery => f
            | DeliverError e => send_error e
            | DeliverCode c => mkCodeFlow (fl_codes f ++ [c]) (fl_errors f) (fl_outcome f)
            end)
  | FlServerError => Some (send_error ErrCallbackServer)
  | FlTakeCode => match fl_codes f with c :: cs => ended (inl c) cs (fl_errors f) | [] => None end
  | FlTakeError => match fl_errors f with e :: es => ended (inr e) (fl_codes f) es | [] => None end
  | FlContext => ended (inr ErrContext) (fl_codes f) (fl_errors f)
  end.

Definition flow_state (state : string) : string := if bool_decide (state = ""%string) then GenerateRandomState else state.
Definition new_flow : code_flow := mkCodeFlow [] [] None.

(** [None]: the flow is still waiting. *)
Definition LoginAuthorizationCode (now callbackPort : Z) (f : code_flow) : option (Token + auth_error) :=
  match fl_outcome f with
  | None => None
  | Some (inr e) => Some (inr e)
  | Some (inl code) =>
      Some (exchangeCodeForToken now code ("http://localhost:" +:+ pretty callbackPort +:+ "/callback")%string)
  end.

(** *** Polling *)

(** The ticker at a positive interval fires, or the context ends. *)
Inductive poll_event := PollTick (now : Z) (resp : answer) | PollContext.

(** An answer other than 200: go on, go on more slowly, or an error. *)
Inductive poll_verdict := PollAgain | PollSlower | PollEnd (e : auth_error).
Definition poll_error (body : string) : poll_verdict :=
  match decode_error body with
  | None => PollEnd ErrDecode
  | Some e =>
      if bool_decide (e = "authorization_pending"%string) then PollAgain
      else if bool_decide (e = "slow_down"%string) then PollSlower
      else if bool_decide (e = "expired_token"%string) then PollEnd ErrExpiredCode
      else if bool_decide (e = "access_denied"%string) then PollEnd ErrDenied
      else PollEnd (ErrAuthentication e "")
  end.

(** The loop over what happens: the waits in force at each request, and the result when
    there is one.  [period]: the period of the ticker. *)
Fixpoint poll_loop (interval period : Z) (events : list poll_event) : result unit (list Z * option (Token + auth_error)) :=
  match events with
  | [] => Ok ([], None)
  | PollContext :: _ => Ok ([], Some (inr ErrContext))
  | PollTick now None :: _ => Ok ([period], Some (inr ErrFetch))
  | PollTick now (Some r) :: events =>
      if hr_status r =? 200 then
        Ok ([period], Some (match decode_token (hr_body r) with
                            | Some o => inl (createToken now o)
                            | None => inr ErrDecode
                            end))
      else
        let go period' :=
          match poll_loop interval period' events with
          | Ok (waits, res) => Ok (period :: waits, res)
          | Err e => Err e
          | Panic => Panic
          end in
        match poll_error (hr_body r) with
        | PollAgain => go period
        | PollSlower =>
            let slower := wrap64 (wrap64 (interval + 5) * Second) in
            if slower <=? 0 then Panic else go slower
        | PollEnd e => Ok ([period], Some (inr e))
        end
  end.

(** A ticker with a period that is not positive panics. *)
Definition PollForToken (interval : Z) (events : list poll_event) : result unit (list Z * option (Token + auth_error)) :=
  let period := wrap64 (interval * Second) in
  if period <=? 0 then Panic else poll_loop interval period events.
End Flows.

(** ** Properties *)

(** Errors in the channels come from a request or the server, codes only from a callback
    with the state of the flow. *)
Definition good_callback (state : string) (rq : callback_request) (code : string) : Prop :=
  rq_path rq = "/callback"%string ∧ rq_state rq = state ∧ rq_error rq = ""%string ∧
  rq_code rq = code ∧ code ≠ ""%string.

Lemma callback_code state rq code : callback state rq = DeliverCode code ↔ good_callback state rq code.
Proof.
  unfold callback, good_callback. repeat case_bool_decide; simpl; split; try done; try naive_solver.
Qed.

Definition flow_invariant (state : string) (ls : list flow_label) (f : code_flow) : Prop :=
  ∀ code, code ∈ fl_codes f ∨ fl_outcome f = Some (inl code) →
  ∃ rq, FlRequest rq ∈ ls ∧ good_callback state rq code.

Lemma flow_invariant_run state ls f : run_labels (flow_exec state) ls new_flow = Some f → flow_invariant state ls f.
Proof.
  assert (∀ done todo f0, flow_invariant state done f0 → run_labels (flow_exec state) todo f0 = Some f →
    flow_invariant state (done ++ todo) f) as H.
  { intros done todo. revert done. induction todo as [|l todo IH]; intros done f0 Hf; simpl.
    { intros [= <-]. by rewrite app_nil_r. }
    intros (f1 & H1 & H2)%bind_Some. rewrite cons_middle, app_assoc. apply (IH _ f1); [|done]. clear IH H2.
    assert (flow_invariant state (done ++ [l]) f0) as Hf'.
    { intros code Hc. destruct (Hf code Hc) as (rq & Hin & Hg). exists rq. split; [set_solver|done]. }
    destruct l; simpl in H1.
    - injection H1 as <-. destruct (callback state rq) as [|e|c] eqn:Ec; [done|exact Hf'|].
      apply callback_code in Ec. intros code [Hin|Ho]; simpl in *; [|by apply Hf'; right].
      apply elem_of_app in Hin as [Hin|Hin%list_elem_of_singleton]; [by apply Hf'; left|]. subst.
      exists rq. split; [set_solver|done].
    - injection H1 as <-. exact Hf'.
    - destruct (fl_codes f0) as [|c cs] eqn:Ec; [done|]. destruct (fl_outcome f0); [done|]. injection H1 as <-.
      intros code [Hin|[= ->]]; simpl in *; apply Hf'; left; rewrite Ec; set_solver.
    - destruct (fl_errors f0); [done|]. destruct (fl_outcome f0); [done|]. injection H1 as <-.
      intros code [Hin|?]; [|done]. apply Hf'. by left.
    - destruct (fl_outcome f0); [done|]. injection H1 as <-. intros code [Hin|?]; [|done]. apply Hf'. by left. }
  apply (H [] ls new_flow). intros code [[]%not_elem_of_nil|?]; done.
Qed.

Section Properties.
Context (decode_token : string → option oauth_token) (decode_error : string → option string).
Context (a : OIDCAuthenticator) (PostForm : string → form → answer).

(** C37. The authorization code flow exchanges a code only when the browser came back with
    the state of this login: whatever requests reach the callback server in whatever
    order, a token is the provider's answer to the code of a request for /callback that
    carried the state, no error and that code. *)
Theorem login_needs_matching_state state ls f now port token :
  run_labels (flow_exec (flow_state state)) ls new_flow = Some f →
  LoginAuthorizationCode decode_token a PostForm now port f = Some (inl token) →
  ∃ rq code, FlRequest rq ∈ ls ∧ good_callback (flow_state state) rq code ∧
    exchangeCodeForToken decode_token a PostForm now code
      ("http://localhost:" +:+ pretty port +:+ "/callback")%string = inl token.
Proof.
  intros Hr. apply flow_invariant_run in Hr. unfold LoginAuthorizationCode.
  destruct (fl_outcome f) as [[code|e]|] eqn:Eo; [|done..]. intros [= Ht].
  destruct (Hr code (or_intror Eo)) as (rq & Hin & Hg). by exists rq, code.
Qed.

(** The provider asked to go on. *)
Definition pending (ev : poll_event) : bool :=
  match ev with
  | PollTick _ (Some r) =>
      negb (hr_status r =? 200) && match poll_error decode_error (hr_body r) with PollEnd _ => false | _ => true end
  | _ => false
  end.
Definition slow_down (ev : poll_event) : bool :=
  match ev with
  | PollTick _ (Some r) => match poll_error decode_error (hr_body r) with PollSlower => true | _ => false end
  | _ => false
  end.

(** What the event that ends the polling means. *)
Definition poll_result (ev : poll_event) : Token + auth_error :=
  match ev with
  | PollContext => inr ErrContext
  | PollTick now resp =>
      match resp with
      | None => inr ErrFetch
      | Some r =>
          if hr_status r =? 200
          then match decode_token (hr_body r) with Some o => inl (createToken now o) | None => inr ErrDecode end
          else match poll_error decode_error (hr_body r) with PollEnd e => inr e | _ => inr ErrFetch end
      end
  end.

(** The requests of the pending answers, each after a wait of [interval] seconds, or of
    [interval + 5] once the provider has asked to slow down. *)
Fixpoint poll_waits (interval : Z) (slowed : bool) (evs : list poll_event) : list Z :=
  match evs with
  | [] => []
  | ev :: evs => (interval + (if slowed then 5 else 0)) * Second :: poll_waits interval (slowed || slow_down ev) evs
  end.

Lemma poll_loop_pending interval (slowed : bool) evs rest :
  0 < interval → (interval + 5) * Second ≤ max_int64 → Forall (λ ev, pending ev = true) evs →
  poll_loop decode_token decode_error interval ((interval + (if slowed then 5 else 0)) * Second) (evs ++ rest) =
    match poll_loop decode_token decode_error interval
            ((interval + (if slowed || existsb slow_down evs then 5 else 0)) * Second) rest with
    | Ok (waits, res) => Ok (poll_waits interval slowed evs ++ waits, res)
    | Err e => Err e
    | Panic => Panic
    end.
Proof.
  intros Hi Hm Hp. revert slowed. induction Hp as [|ev evs Hev Hp IH]; intros slowed.
  { simpl. rewrite orb_false_r. by destruct (poll_loop _ _ _ _ rest) as [[]|?|]. }
  assert (max_int64 = 9223372036854775807) as Hmax by done.
  assert (wrap64 (interval + 5) = interval + 5) as Hw by (apply wrap64_id; unfold in_int64, min_int64, Second in *; lia).
  assert (wrap64 ((interval + 5) * Second) = (interval + 5) * Second) as Hw2
    by (apply wrap64_id; unfold in_int64, min_int64, Second in *; lia).
  simpl app. simpl existsb. destruct ev as [now [r|]|]; [|done..]. simpl in Hev. apply andb_true_iff in Hev as [Hst Hv].
  apply negb_true_iff in Hst. cbn [poll_loop poll_waits]. rewrite Hst. simpl slow_down.
  destruct (poll_error decode_error (hr_body r)) as [| |e]; [..|done].
  - rewrite (IH slowed). rewrite orb_false_r. by destruct (poll_loop _ _ _ _ rest) as [[]|?|].
  - rewrite Hw, Hw2. destruct (Z.leb_spec ((interval + 5) * Second) 0); [unfold Second in *; lia|].
    rewrite (IH true).
    rewrite !orb_true_r. simpl.
    by destruct (poll_loop _ _ _ _ rest) as [[]|?|].
Qed.

Lemma poll_loop_end interval period ev rest : pending ev = false →
  poll_loop decode_token decode_error interval period (ev :: rest) =
    Ok (match ev with PollContext => [] | _ => [period] end, Some (poll_result ev)).
Proof.
  intros Hp. destruct ev as [now [r|]|]; [|done..]. simpl in *. destruct (hr_status r =? 200); [done|].
  simpl in Hp. by destruct (poll_error decode_error (hr_body r)).
Qed.

(** Polling for the token of a device login goes on while the provider says that the
    authorization is pending or asks to slow down, and ends with the first other event:
    the token, the provider's error, a failed request or the end of the context.  The
    requests are [interval] seconds apart, and [interval + 5] from the first time the
    provider asks to slow down; asking again does not slow it down further. *)
Theorem PollForToken_correct interval evs ev rest :
  0 < interval → (interval + 5) * Second ≤ max_int64 →
  Forall (λ ev, pending ev = true) evs → pending ev = false →
  PollForToken decode_token decode_error interval evs = Ok (poll_waits interval false evs, None) ∧
  PollForToken decode_token decode_error interval (evs ++ ev :: rest) =
    Ok (poll_waits interval false evs ++
          match ev with
          | PollContext => []
          | _ => [(interval + (if existsb slow_down evs then 5 else 0)) * Second]
          end, Some (poll_result ev)).
Proof.
  intros Hi Hm Hp Hev. unfold PollForToken.
  assert (wrap64 (interval * Second) = (interval + 0) * Second) as ->.
  { rewrite Z.add_0_r. apply wrap64_id. unfold in_int64, min_int64, Second in *. lia. }
  destruct (Z.leb_spec ((interval + 0) * Second) 0); [unfold Second in *; lia|]. split.
  - pose proof (poll_loop_pending interval false evs [] Hi Hm Hp) as H1. rewrite app_nil_r in H1.
    simpl in H1. rewrite app_nil_r in H1. exact H1.
  - rewrite (poll_loop_pending interval false evs (ev :: rest) Hi Hm Hp). simpl orb. by rewrite poll_loop_end.
Qed.
End Properties.

(** The file gives back the token that was saved; a token that was deleted is absent. *)
Theorem token_file_roundtrip marshal unmarshal t file file' :
  (∀ t data, marshal t = Some data → unmarshal data = Some t) →
  Token_Save marshal None t file = (file', true) →
  Token_Load unmarshal true file' = Some (Some t) ∧ Token_Exists file' = true ∧
  Token_Load unmarshal true (Token_Delete true file').1 = Some None.
Proof.
  intros Hm. unfold Token_Save. destruct (marshal t) as [data|] eqn:E; [|done]. intros [= <-]. simpl.
  by rewrite (Hm _ _ E).
Qed.

(** ** Concrete flows *)

Module AuthDemo.

Definition cfg : OIDCConfig := mkOIDCConfig "http://localhost:5556/dex/" "prismctl" "" [].
Definition dex : OIDCAuthenticator := mkOIDCAuthenticator cfg "http://localhost:5556/dex" (mkDiscovery "token" "" "auth" "").
(** A decoder for bodies that are the access token itself. *)
Definition plain (body : string) : option oauth_token := Some (mkOauthToken body "bearer" "" None None).
Definition some_error (body : string) : option string := Some body.
Definition ok_server (url : string) (data : form) : answer := Some (mkHttpResponse 200 "secret").

Example issuer_is_trimmed : discovery_url cfg = "http://localhost:5556/dex/.well-known/openid-configuration"%string.
Proof. reflexivity. Qed.

(** The state that protects the callback is the same for every login. *)
Example state_is_predictable : flow_state "" = "41484f56434a5158454c535a474e5542"%string.
Proof. vm_compute. reflexivity. Qed.

Definition back (state code : string) : callback_request := mkCallbackRequest "/callback" state "" "" code.

Definition login : list flow_label := [FlRequest (back "s" "c1"); FlTakeCode].
Definition logged_in : code_flow := mkCodeFlow [] [] (Some (inl "c1"%string)).

(** A request with another state ends the login with an error. *)
Example stray_request_ends_login :
  (λ f, LoginAuthorizationCode plain dex ok_server 0 8080 f) <$>
    run_labels (flow_exec "s") [FlRequest (back "x" "c0"); FlTakeError] new_flow = Some (Some (inr ErrInvalidState)).
Proof. vm_compute. reflexivity. Qed.

(** A provider that gives no interval makes the poll panic. *)
Example zero_interval_panics : PollForToken plain some_error 0 [] = Panic.
Proof. reflexivity. Qed.

(** A refresh whose answer has no new refresh token loses the old one, and a token
    without an expiry is taken to be good for an hour. *)
Example refresh_loses_refresh_token :
  RefreshToken plain dex ok_server 0 "old" = inl (mkToken "secret" "" "" (3600 * Second) "bearer").
Proof. vm_compute. reflexivity. Qed.

Lemma login_needs_matching_state_witness :
  ∃ rq code, FlRequest rq ∈ login ∧ good_callback "s" rq code ∧
    exchangeCodeForToken plain dex ok_server 0 code "http://localhost:8080/callback" =
      inl (mkToken "secret" "" "" (3600 * Second) "bearer").
Proof.
  refine (login_needs_matching_state plain dex ok_server "s" login logged_in 0 8080 _ _ _).
  - vm_compute. reflexivity.
  - vm_compute. reflexivity.
Defined.

Definition answers (body : string) : poll_event := PollTick 7 (Some (mkHttpResponse 400 body)).

Lemma PollForToken_correct_witness :
  PollForToken plain some_error 5 [answers "authorization_pending"; answers "slow_down"; answers "slow_down"] =
    Ok ([5 * Second; 5 * Second; 10 * Second], None) ∧
  PollForToken plain some_error 5
      ([answers "authorization_pending"; answers "slow_down"; answers "slow_down"] ++ [answers "access_denied"]) =
    Ok ([5 * Second; 5 * Second; 10 * Second; 10 * Second], Some (inr ErrDenied)).
Proof.
  refine (PollForToken_correct plain some_error 5 [answers "authorization_pending"; answers "slow_down"; answers "slow_down"]
    (answers "access_denied") [] _ _ _ _).
  - lia.
  - vm_compute. discriminate.
  - by repeat constructor.
  - reflexivity.
Defined.
End AuthDemo.
