(* ===== verification/Prismctl.v ===== *)
(** * cmd/prismctl: the client of the proxy and the commands

    internal/client/client.go and the commands login, logout, whoami, health, namespace,
    session, publish and mailbox of cmd/.  A command runs in a small monad: the world it
    works on (the token file, the proxy, the requests sent to it so far), the lines it shows
    and its result or error.  The proxy and the JSON coders are parameters.  Of a line that
    ends in an error's text only the fixed part is kept. *)

From Stdlib Require Import Ascii.
From stdpp Require Import pretty.
From S2P Require Import Prelude Backoff GoStrings Memstore MemPubSub Slots Auth.
Import GoFloat.
Local Open Scope string_scope.
Local Open Scope Z_scope.

(** ** JSON documents *)

Inductive json :=
  | JNull
  | JBool (b : bool)
  | JNumber (x : float64)
  | JString (s : string)
  | JArray (l : list json)
  | JObject (fields : list (string * json)).

(** A [map[string]interface{}]; the nil map is the empty one. *)
Abbreviation object := (list (string * json)).

Fixpoint get (key : string) (o : object) : option json :=
  match o with
  | [] => None
  | (k, v) :: o => if bool_decide (k = key) then Some v else get key o
  end.

(** [o[key].(string)] *)
Definition get_string (key : string) (o : object) : option string :=
  match get key o with Some (JString s) => Some s | _ => None end.
(** The same with the failure ignored. *)
Definition string_or_empty (key : string) (o : object) : string := default "" (get_string key o).

Definition as_object (v : json) : object := match v with JObject o => o | _ => [] end.

(** The list under [key]; an element that is not an object becomes a nil map. *)
Definition get_objects (key : string) (o : object) : option (list object) :=
  match get key o with Some (JArray l) => Some (as_object <$> l) | _ => None end.

(** ** internal/client/client.go *)

Record ProxyConfig := mkProxyConfig { px_URL : string; px_Timeout : Z }.

Record Client := mkClient { cl_baseURL : string; cl_token : option Token; cl_timeout : Z }.

Definition NewClient (cfg : ProxyConfig) (token : option Token) : Client :=
  mkClient (px_URL cfg) token (wrap64 (px_Timeout cfg * Second)).

(** What is sent as a JSON body. *)
Inductive filter_value := FInt (n : Z) | FStrings (l : list string) | FString (s : string).
Inductive request_body :=
  | BPublish (topic : string) (payload : bytes) (md : gmap string string)
  | BFilter (f : gmap string filter_value).

Record request := mkRequest {
  rq_method : string;
  rq_url : string;
  rq_header : gmap string string;
  rq_body : option string }.

Inductive client_error :=
  | ErrMarshal
  | ErrCreateRequest
  | ErrRequest
  | ErrRequestStatus (status : Z) (body : string)
  | ErrDecodeResponse
  | ErrFormat
  | ErrMessageID.

(** ** encoding/base64 *)

Definition b64_value (c : Z) : option Z :=
  if (65 <=? c) && (c <=? 90) then Some (c - 65)
  else if (97 <=? c) && (c <=? 122) then Some (c - 71)
  else if (48 <=? c) && (c <=? 57) then Some (c + 4)
  else if c =? 43 then Some 62
  else if c =? 47 then Some 63
  else None.

(** Two, three or four digits give one, two or three bytes; the bits left over are ignored. *)
Definition b64_bytes (a b : Z) (c d : option Z) : bytes :=
  let n := a * 2 ^ 18 + b * 2 ^ 12 + default 0 c * 2 ^ 6 + default 0 d in
  n / 2 ^ 16 :: match c with
                | None => []
                | Some _ => (n / 2 ^ 8) `mod` (2 ^ 8) :: match d with None => [] | Some _ => [n `mod` (2 ^ 8)] end
                end.

(** Padding is accepted in the last group only. *)
Fixpoint b64_groups (l : bytes) : option bytes :=
  match l with
  | [] => Some []
  | a :: b :: c :: d :: rest =>
      a ← b64_value a; b ← b64_value b;
      if (d =? 61) && bool_decide (rest = []) then
        if c =? 61 then Some (b64_bytes a b None None)
        else c ← b64_value c; Some (b64_bytes a b (Some c) None)
      else
        c ← b64_value c; d ← b64_value d;
        out ← b64_groups rest; Some (b64_bytes a b (Some c) (Some d) ++ out)%list
  | _ => None
  end.

(** [base64.StdEncoding.DecodeString]: line breaks are skipped. *)
Definition b64_decode (s : string) : option bytes :=
  b64_groups (List.filter (λ c, negb ((c =? 10) || (c =? 13))) (string_bytes s)).

Definition bytes_string (b : bytes) : string :=
  String.string_of_list_ascii ((λ z, ascii_of_N (Z.to_N z)) <$> b).

(** ** Commands *)

Inductive ui :=
  | UInfo (s : string)
  | USuccess (s : string)
  | UWarning (s : string)
  | UError (s : string)
  | UKeyValue (k v : string)
  | UListItem (s : string)
  | USubtle (s : string)
  | UHeader (s : string)
  | UPrintln (s : string)
  | URow (cells : list string).

Inductive cmd_error :=
  | ErrPrismDir
  | ErrAuth (e : auth_error)
  | ErrLoadToken
  | ErrNotAuthenticated
  | ErrTokenExpired
  | ErrSaveToken
  | ErrDeleteToken
  | ErrDeviceFlow
  | ErrClient (e : client_error)
  | ErrReadFile
  | ErrMissingData
  | ErrTimeFormat.

Section Commands.
Context {Srv : Type} (Do : Srv → request → Srv * answer).
Context (marshal_body : request_body → option string) (valid_url : string → bool).
Context (decode : string → option object).
Context (marshal : Token → option bytes) (unmarshal : bytes → option Token).

Record world := mkWorld {
  w_file : option bytes;  (* the token file *)
  w_srv : Srv;
  w_sent : list request }.

(** A command: the new world, what it showed, and its result. *)
Definition cmd (A : Type) : Type := world → world * list ui * (A + cmd_error).

Definition ret {A} (a : A) : cmd A := λ w, (w, [], inl a).
Definition fail {A} (e : cmd_error) : cmd A := λ w, (w, [], inr e).
Definition say (l : list ui) : cmd unit := λ w, (w, l, inl ()).
Definition bind {A B} (m : cmd A) (k : A → cmd B) : cmd B := λ w,
  let '(w1, l1, r) := m w in
  match r with
  | inl a => let '(w2, l2, r2) := k a w1 in (w2, (l1 ++ l2)%list, r2)
  | inr e => (w1, l1, inr e)
  end.
Local Notation "x '<~' m ; k" := (bind m (λ x, k))
  (at level 100, m at next level, k at level 200, right associativity).
Local Notation "m ;; k" := (bind m (λ _, k)) (at level 100, k at level 200, right associativity).

(** Show an error and return it. *)
Definition refuse {A} (what : string) (e : cmd_error) : cmd A := say [UError what];; fail e.

(** *** The client *)

Definition newRequest (c : Client) (method path : string) (body : option request_body)
    : request + client_error :=
  let url := cl_baseURL c +:+ path in
  match (match body with
         | None => inl None
         | Some b => match marshal_body b with Some data => inl (Some data) | None => inr ErrMarshal end
         end) with
  | inr e => inr e
  | inl data =>
      if negb (valid_url url) then inr ErrCreateRequest
      else
        let header := match body with Some _ => {[ "Content-Type" := "application/json" ]} | None => ∅ end in
        let header := match cl_token c with
                      | Some t => <["Authorization" := "Bearer " +:+ tk_AccessToken t]> header
                      | None => header
                      end in
        inl (mkRequest method url header data)
  end.

(** [c.client.Do(req)] *)
Definition send (rq : request) (w : world) : world * answer :=
  let '(srv, a) := Do (w_srv w) rq in (mkWorld (w_file w) srv (w_sent w ++ [rq])%list, a).

(** The status and the body of an answer. *)
Definition checked (a : answer) : string + client_error :=
  match a with
  | None => inr ErrRequest
  | Some r => if hr_status r =? 200 then inl (hr_body r) else inr (ErrRequestStatus (hr_status r) (hr_body r))
  end.

Definition doRequest (c : Client) (method path : string) (body : option request_body) (w : world)
    : world * (object + client_error) :=
  match newRequest c method path body with
  | inr e => (w, inr e)
  | inl rq =>
      let '(w', a) := send rq w in
      (w', match checked a with
           | inr e => inr e
           | inl text => match decode text with Some o => inl o | None => inr ErrDecodeResponse end
           end)
  end.

Definition Health (c : Client) := doRequest c "GET" "/health" None.
Definition Ready (c : Client) := doRequest c "GET" "/ready" None.

Definition Metrics (c : Client) (w : world) : world * (string + client_error) :=
  match newRequest c "GET" "/metrics" None with
  | inr e => (w, inr e)
  | inl rq => let '(w', a) := send rq w in (w', checked a)
  end.

(** A list under [key] of the answer. *)
Definition listed (key : string) (r : world * (object + client_error)) : world * (list object + client_error) :=
  (r.1, match r.2 with
        | inr e => inr e
        | inl o => match get_objects key o with Some l => inl l | None => inr ErrFormat end
        end).

Definition ListNamespaces (c : Client) (w : world) := listed "namespaces" (doRequest c "GET" "/api/v1/namespaces" None w).

Definition namespace_path (name : string) : string := "/api/v1/namespaces/" +:+ name.

Definition GetNamespace (c : Client) (name : string) := doRequest c "GET" (namespace_path name) None.

Definition sessions_path (namespace : string) : string :=
  if bool_decide (namespace = "") then "/api/v1/sessions" else "/api/v1/sessions" +:+ "?namespace=" +:+ namespace.

Definition ListSessions (c : Client) (namespace : string) (w : world) :=
  listed "sessions" (doRequest c "GET" (sessions_path namespace) None w).

Definition PublishMessage (c : Client) (namespace topic : string) (payload : bytes)
    (md : gmap string string) (w : world) : world * (string + client_error) :=
  let '(w', r) := doRequest c "POST" (namespace_path namespace +:+ "/publish") (Some (BPublish topic payload md)) w in
  (w', match r with
       | inr e => inr e
       | inl o => match get_string "message_id" o with Some id => inl id | None => inr ErrMessageID end
       end).

Definition QueryMailbox (c : Client) (namespace : string) (filter : gmap string filter_value) (w : world) :=
  listed "events" (doRequest c "POST" (namespace_path namespace +:+ "/mailbox/query") (Some (BFilter filter)) w).

Definition GetMailboxEvent (c : Client) (namespace messageID : string) :=
  doRequest c "GET" (namespace_path namespace +:+ "/mailbox/events/" +:+ messageID) None.

(** A client call in a command; [what] is shown with its error. *)
Definition call {A} (f : world → world * (A + client_error)) : cmd (A + client_error) :=
  λ w, let '(w', r) := f w in (w', [], inl r).
Definition required {A} (what : string) (f : world → world * (A + client_error)) : cmd A :=
  r <~ call f;
  match r with inl a => ret a | inr e => refuse what (ErrClient e) end.

(** *** namespace.go *)

Context (proxy : ProxyConfig) (token_path : string).
(** The clock and whether the disk works when the token is read. *)
Context (now : Z) (io : bool).

Definition loadAndValidateToken : cmd Token := λ w,
  match Token_Load unmarshal io (w_file w) with
  | None => refuse "Failed to load token" ErrLoadToken w
  | Some None => refuse "Not authenticated. Run 'prism login' first." ErrNotAuthenticated w
  | Some (Some t) =>
      if IsExpired now t then (say [UWarning "Token expired. Run 'prism login' again."];; fail ErrTokenExpired) w
      else ret t w
  end.

Definition counted (n : nat) (what : string) : string := "Found " +:+ pretty n +:+ what.

(** The lines about one namespace. *)
Definition namespace_lines (ns : object) : list ui :=
  let desc := string_or_empty "description" ns in
  UListItem (string_or_empty "name" ns) ::
  (if bool_decide (desc = "") then [] else [USubtle ("    " +:+ desc)]).

Definition runNamespaceList : cmd unit :=
  token <~ loadAndValidateToken;
  let c := NewClient proxy (Some token) in
  namespaces <~ required "Failed to list namespaces" (ListNamespaces c);
  match namespaces with
  | [] => say [UInfo "No namespaces found"]
  | _ => say ([USuccess (counted (length namespaces) " namespace(s)"); UPrintln ""] ++
              (namespaces ≫= namespace_lines))
  end.

(** [fmt.Sprintf("%v", names)] *)
Definition bracketed (l : list string) : string := "[" +:+ String.concat " " l +:+ "]".

Definition backend_names (ns : object) : option (list string) :=
  match get "backends" ns with
  | Some (JArray (b :: l)) => Some ((λ v, match v with JString s => s | _ => "" end) <$> b :: l)
  | _ => None
  end.

Definition nonempty_value (label key : string) (o : object) : list ui :=
  match get_string key o with
  | Some s => if bool_decide (s = "") then [] else [UKeyValue label s]
  | None => []
  end.
Definition any_value (label key : string) (o : object) : list ui :=
  match get_string key o with Some s => [UKeyValue label s] | None => [] end.

Definition runNamespaceShow (name : string) : cmd unit :=
  token <~ loadAndValidateToken;
  let c := NewClient proxy (Some token) in
  ns <~ required "Failed to get namespace" (GetNamespace c name);
  say ([UHeader ("Namespace: " +:+ name); UPrintln ""] ++
       nonempty_value "Description" "description" ns ++ any_value "Created" "created_at" ns ++
       match backend_names ns with Some l => [UKeyValue "Backends" (bracketed l)] | None => [] end).

(** *** session.go *)

Definition cut (n : nat) (s : string) : string :=
  if (n <? String.length s)%nat then String.substring 0 n s else s.

Definition session_row (s : object) : list string :=
  [cut 36 (string_or_empty "id" s); cut 30 (string_or_empty "principal" s);
   cut 20 (string_or_empty "namespace" s); cut 19 (string_or_empty "started_at" s)].

Definition runSessionList (sessionNamespace : string) : cmd unit :=
  token <~ loadAndValidateToken;
  let c := NewClient proxy (Some token) in
  sessions <~ required "Failed to list sessions" (ListSessions c sessionNamespace);
  match sessions with
  | [] => say [UInfo "No active sessions"]
  | _ => say ([USuccess (counted (length sessions) " active session(s)"); UPrintln "";
               URow ["Session ID"; "Principal"; "Namespace"; "Started"]] ++ (URow ∘ session_row <$> sessions))
  end.

(** *** health.go *)

Definition runHealth : cmd unit :=
  let c := NewClient proxy None in
  data <~ required "Health check failed" (Health c);
  say (USuccess "Proxy is healthy" :: any_value "Status" "status" data ++
       any_value "Version" "version" data ++ any_value "Uptime" "uptime" data).

(** *** publish.go *)

Record publish_flags := mkPublishFlags {
  pf_file : string;
  pf_contentType : string;
  pf_correlationID : string;
  pf_principal : string;
  pf_schemaID : string;
  pf_encryption : string;
  pf_headers : list string;
  pf_count : Z }.

Fixpoint parseHeader (header : string) : option (string * string) :=
  match header with
  | EmptyString => None
  | String c rest =>
      if bool_decide (c = "="%char) then Some ("", rest)
      else match parseHeader rest with Some (k, v) => Some (String c k, v) | None => None end
  end.

Definition set_if (v key : string) (md : gmap string string) : gmap string string :=
  if bool_decide (v = "") then md else <[key := v]> md.

Definition standard_headers (f : publish_flags) (namespace : string) : gmap string string :=
  let md : gmap string string := {[ "prism-content-type" := pf_contentType f ]} in
  let md := set_if (pf_correlationID f) "prism-correlation-id" md in
  let md := set_if (pf_principal f) "prism-principal" md in
  let md := set_if (pf_schemaID f) "prism-schema-id" md in
  let md := set_if (pf_encryption f) "prism-encryption" md in
  <["prism-namespace" := namespace]> md.

(** The custom headers, in their order, on top of the standard ones. *)
Definition custom_header (md : gmap string string) (header : string) : gmap string string :=
  match parseHeader header with Some (k, v) => <[k := v]> md | None => md end.
Definition header_warning (header : string) : list ui :=
  match parseHeader header with
  | Some _ => []
  | None => [UWarning ("Skipping invalid header format: " +:+ header)]
  end.
Definition build_metadata (f : publish_flags) (namespace : string) : gmap string string :=
  foldl custom_header (standard_headers f namespace) (pf_headers f).

(** The metadata of message [i], counted from 0. *)
Definition message_metadata (f : publish_flags) (md : gmap string string) (i : Z) : gmap string string :=
  if 1 <? pf_count f then <["x-sequence" := pretty (i + 1)]> md else md.

(** What is shown for a message that was published; the preview of a single message's
    payload and metadata is left out. *)
Definition published_lines (f : publish_flags) (namespace topic : string) (payload : bytes) (i : Z)
    (messageID : string) : list ui :=
  if pf_count f =? 1 then
    [USuccess "Published message"; UKeyValue "Message ID" messageID; UKeyValue "Namespace" namespace;
     UKeyValue "Topic" topic; UKeyValue "Payload Size" (pretty (length payload) +:+ " bytes")]
  else if (i =? 0) || (Z.rem (i + 1) 10 =? 0) || (i =? pf_count f - 1) then
    [UInfo ("Published message " +:+ pretty (i + 1) +:+ "/" +:+ pretty (pf_count f) +:+ " (ID: " +:+ messageID +:+ ")")]
  else [].

(** The loop over the messages [i .. i + n - 1]; the numbers of successes and failures. *)
Fixpoint publish_loop (c : Client) (f : publish_flags) (namespace topic : string) (payload : bytes)
    (md : gmap string string) (n : nat) (i successCount failCount : Z) : cmd (Z * Z) :=
  match n with
  | O => ret (successCount, failCount)
  | S n =>
      r <~ call (PublishMessage c namespace topic payload (message_metadata f md i));
      match r with
      | inr _ =>
          say [UError ("Failed to publish message " +:+ pretty (i + 1))];;
          publish_loop c f namespace topic payload md n (i + 1) successCount (failCount + 1)
      | inl messageID =>
          say (published_lines f namespace topic payload i messageID);;
          publish_loop c f namespace topic payload md n (i + 1) (successCount + 1) failCount
      end
  end.

(** [file]: the contents of the file named by the flag, [None] when it cannot be read;
    [data]: the third argument. *)
Definition publish_payload (f : publish_flags) (file : option bytes) (data : option string) : cmd bytes :=
  if negb (bool_decide (pf_file f = "")) then
    match file with
    | None => refuse "Failed to read file" ErrReadFile
    | Some payload =>
        say [UInfo ("Read " +:+ pretty (length payload) +:+ " bytes from " +:+ pf_file f)];; ret payload
    end
  else
    match data with
    | None => refuse "DATA argument is required when --file is not specified" ErrMissingData
    | Some s => ret (string_bytes s)
    end.

Definition publish_summary (f : publish_flags) (successCount failCount : Z) : ui :=
  if failCount =? 0 then USuccess ("Successfully published " +:+ pretty successCount +:+ " message(s)")
  else UWarning ("Published " +:+ pretty successCount +:+ "/" +:+ pretty (pf_count f) +:+ " messages (" +:+
                 pretty failCount +:+ " failed)").

Definition runPublishMessage (f : publish_flags) (namespace topic : string) (file : option bytes)
    (data : option string) : cmd unit :=
  token <~ loadAndValidateToken;
  payload <~ publish_payload f file data;
  let md := build_metadata f namespace in
  say (pf_headers f ≫= header_warning);;
  let c := NewClient proxy (Some token) in
  say [UInfo ("Publishing " +:+ pretty (pf_count f) +:+ " message(s) to namespace '" +:+ namespace +:+
              "', topic '" +:+ topic +:+ "'")];;
  counts <~ publish_loop c f namespace topic payload md (Z.to_nat (pf_count f)) 0 0 0;
  say [UPrintln ""; publish_summary f counts.1 counts.2].

(** *** mailbox.go *)

Record mailbox_flags := mkMailboxFlags {
  mb_limit : Z;
  mb_offset : Z;
  mb_startTime : string;
  mb_endTime : string;
  mb_topics : list string;
  mb_principals : list string;
  mb_correlationID : string;
  mb_showPayload : bool;
  mb_format : string }.

(** init: a flag definition writes its default into its variable; both commands define
    [--show-payload] and [--format] on the same variables, the query command first. *)
Definition define_query_flags (_ : mailbox_flags) : mailbox_flags :=
  mkMailboxFlags 10 0 "" "" [] [] "" false "table".
Definition define_get_flags (f : mailbox_flags) : mailbox_flags :=
  mkMailboxFlags (mb_limit f) (mb_offset f) (mb_startTime f) (mb_endTime f) (mb_topics f)
    (mb_principals f) (mb_correlationID f) true "table".
Definition mailbox_init : mailbox_flags :=
  define_get_flags (define_query_flags (mkMailboxFlags 0 0 "" "" [] [] "" false "")).

(** [parse_time]: [time.Parse(time.RFC3339, _)] in milliseconds since 1970; [format_time]
    prints such a time; [reindent]: the JSON document printed with indentation, [None] for
    a text that is not JSON; [format_v]: [%v]. *)
Context (parse_time : string → option Z) (format_time : Z → string).
Context (reindent : string → option string) (format_v : json → string).

Definition time_filter (key value what : string) (filter : gmap string filter_value)
    : cmd (gmap string filter_value) :=
  if bool_decide (value = "") then ret filter
  else match parse_time value with
       | None => refuse what ErrTimeFormat
       | Some ms => ret (<[key := FInt ms]> filter)
       end.

Definition mailbox_filter (f : mailbox_flags) : cmd (gmap string filter_value) :=
  let filter : gmap string filter_value := ∅ in
  let filter := if 0 <? mb_limit f then <["limit" := FInt (mb_limit f)]> filter else filter in
  let filter := if 0 <? mb_offset f then <["offset" := FInt (mb_offset f)]> filter else filter in
  filter <~ time_filter "start_time" (mb_startTime f) "Invalid start-time format" filter;
  filter <~ time_filter "end_time" (mb_endTime f) "Invalid end-time format" filter;
  let filter := match mb_topics f with [] => filter | l => <["topics" := FStrings l]> filter end in
  let filter := match mb_principals f with [] => filter | l => <["principals" := FStrings l]> filter end in
  ret (if bool_decide (mb_correlationID f = "") then filter
       else <["correlation_id" := FString (mb_correlationID f)]> filter).

Definition displayTruncatedPayload (payload : string) : list ui :=
  if (500 <? String.length payload)%nat then
    [UPrintln (String.substring 0 500 payload +:+ "...");
     USubtle ("(truncated, " +:+ pretty (String.length payload) +:+ " bytes total)")]
  else [UPrintln payload].

(** A body that is base64 text is shown decoded, one that is then JSON indented. *)
Definition payload_lines (body : string) : list ui :=
  let body := match b64_decode body with Some b => bytes_string b | None => body end in
  USubtle "Payload:" ::
  match reindent body with
  | Some formatted => [UPrintln formatted]
  | None => displayTruncatedPayload body
  end.

(** [f64_to_int64 ovf]: the conversion of a timestamp. *)
Context (ovf : Z).

Definition displayEvent (event : object) (index : nat) (showPayload : bool) : list ui :=
  (if (0 <? index)%nat then [UHeader ("Message #" +:+ pretty index)] else []) ++
  any_value "Message ID" "message_id" event ++
  match get "timestamp" event with
  | Some (JNumber x) => [UKeyValue "Timestamp" (format_time (f64_to_int64 ovf x))]
  | _ => []
  end ++
  any_value "Topic" "topic" event ++
  nonempty_value "Content Type" "content_type" event ++
  nonempty_value "Schema ID" "schema_id" event ++
  nonempty_value "Encryption" "encryption" event ++
  nonempty_value "Correlation ID" "correlation_id" event ++
  nonempty_value "Principal" "principal" event ++
  nonempty_value "Namespace" "namespace" event ++
  match get "custom_headers" event with
  | Some (JObject (h :: hs)) =>
      UPrintln "" :: USubtle "Custom Headers:" ::
      ((λ kv, USubtle ("  " +:+ kv.1 +:+ ": " +:+ format_v kv.2)) <$> h :: hs)
  | _ => []
  end ++
  match get_string "body" event with
  | Some body =>
      if bool_decide (body = "") then []
      else if showPayload then UPrintln "" :: payload_lines body
      else [USubtle ("Payload: " +:+ pretty (String.length body) +:+ " bytes (use --show-payload to display)")]
  | None => []
  end.

(** The events one after the other, numbered from [i], with a rule between them. *)
Fixpoint display_events (i : nat) (events : list object) (showPayload : bool) : list ui :=
  match events with
  | [] => []
  | [e] => displayEvent e i showPayload
  | e :: events => displayEvent e i showPayload ++ UPrintln "---" :: display_events (S i) events showPayload
  end.

(** [json_output]: the indented JSON of what was received. *)
Context (json_output : list object → string).

Definition runMailboxQuery (f : mailbox_flags) (namespace : string) : cmd unit :=
  token <~ loadAndValidateToken;
  filter <~ mailbox_filter f;
  let c := NewClient proxy (Some token) in
  say [UInfo ("Querying mailbox '" +:+ namespace +:+ "'")];;
  events <~ required "Failed to query mailbox" (QueryMailbox c namespace filter);
  match events with
  | [] => say [UInfo "No messages found"]
  | _ =>
      if bool_decide (mb_format f = "json") then say [UPrintln (json_output events)]
      else say ([USuccess (counted (length events) " message(s)"); UPrintln ""] ++
                display_events 1 events (mb_showPayload f))
  end.

Definition runMailboxGet (f : mailbox_flags) (namespace messageID : string) : cmd unit :=
  token <~ loadAndValidateToken;
  let c := NewClient proxy (Some token) in
  say [UInfo ("Retrieving message '" +:+ messageID +:+ "' from mailbox '" +:+ namespace +:+ "'")];;
  event <~ required "Failed to get message" (GetMailboxEvent c namespace messageID);
  if bool_decide (mb_format f = "json") then say [UPrintln (json_output [event])]
  else say ([USuccess "Message found"; UPrintln ""] ++ displayEvent event 0 (mb_showPayload f)).

(** *** login.go, logout.go and whoami.go *)

Record login_flags := mkLoginFlags {
  lf_useDeviceCode : bool;
  lf_username : string;
  lf_password : string;
  lf_openBrowser : bool;
  lf_callbackPort : Z }.

Context (oidc : OIDCConfig) (format_expiry : Z → string).
Context (decode_discovery : string → option discovery) (decode_token : string → option oauth_token).
(** The provider: the discovery document, the token endpoint, the user information. *)
Context (discovered : answer) (PostForm : string → form → answer) (Userinfo : string → string → answer).

Definition auth_url (callbackPort : Z) (state : string) : string :=
  oc_Issuer oidc +:+ "/auth?client_id=" +:+ oc_ClientID oidc +:+ "&redirect_uri=http://localhost:" +:+
  pretty callbackPort +:+ "/callback&response_type=code&scope=openid+profile+email+offline_access&state=" +:+ state.

(** openURL: the program that is started, [None] when there is none. *)
Definition openURL (available : string → bool) (url : string) : option (string * list string) :=
  if available "open" then Some ("open", [url])
  else if available "xdg-open" then Some ("xdg-open", [url])
  else if available "start" then Some ("cmd", ["/c"; "start"; url])
  else None.

(** [opened]: whether the program, when there is one, was started. *)
Definition browser_lines (f : login_flags) (available : string → bool) (opened : bool) (url : string) : list ui :=
  if lf_openBrowser f then
    UInfo "Opening browser for authentication..." ::
    match openURL available url with
    | Some _ => if opened then [] else [UWarning "Failed to open browser"; UInfo ("Please open this URL manually: " +:+ url)]
    | None => [UWarning "Failed to open browser"; UInfo ("Please open this URL manually: " +:+ url)]
    end
  else [UInfo ("Open this URL in your browser: " +:+ url)].

Definition authenticated (r : Token + auth_error) : cmd Token :=
  match r with inl t => ret t | inr e => refuse "Authentication failed" (ErrAuth e) end.

(** [flow]: the authorization code flow once it has an outcome; [None]: the command is
    still waiting for it. *)
Definition login_token (f : login_flags) (a : OIDCAuthenticator) (available : string → bool) (opened : bool)
    (flow : code_flow) : option (cmd Token) :=
  if negb (bool_decide (lf_username f = "")) && negb (bool_decide (lf_password f = "")) then
    Some (say [UWarning "Using password flow (testing only)"];;
          authenticated (LoginPassword decode_token a PostForm now (lf_username f) (lf_password f)))
  else if lf_useDeviceCode f then
    Some (say [UWarning "Device code flow is deprecated and broken in Dex v2.37.0"];; fail ErrDeviceFlow)
  else
    match LoginAuthorizationCode decode_token a PostForm now (lf_callbackPort f) flow with
    | None => None
    | Some r =>
        Some (say ([UInfo "Starting OAuth authorization flow...";
                    UInfo ("Callback server starting on http://localhost:" +:+ pretty (lf_callbackPort f))] ++
                   browser_lines f available opened (auth_url (lf_callbackPort f) GenerateRandomState));;
              authenticated r)
    end.

Definition save_token (failed : option (option bytes)) (t : Token) : cmd unit := λ w,
  let '(file, ok) := Token_Save marshal failed t (w_file w) in
  let w' := mkWorld file (w_srv w) (w_sent w) in
  if ok then ret () w' else refuse "Failed to save token" ErrSaveToken w'.

Definition user_line (userinfo : object + auth_error) : list ui :=
  match userinfo with
  | inr _ => []
  | inl o =>
      match get_string "name" o with
      | Some name => [UKeyValue "User" name]
      | None => any_value "User" "email" o
      end
  end.

(** [mkdir]: whether ~/.prism exists or could be made. *)
Definition runLogin (f : login_flags) (mkdir : bool) (available : string → bool) (opened : bool)
    (flow : code_flow) (failed : option (option bytes)) : option (cmd unit) :=
  if negb mkdir then Some (fail ErrPrismDir)
  else
    match NewOIDCAuthenticator decode_discovery oidc discovered with
    | inr e => Some (refuse "Failed to initialize OIDC" (ErrAuth e))
    | inl a =>
        match login_token f a available opened flow with
        | None => None
        | Some m =>
            Some (
              token <~ m;
              save_token failed token;;
              let userinfo := GetUserinfo a decode Userinfo token in
              say (match userinfo with inr _ => [UWarning "Failed to get user info"] | inl _ => [] end ++
                   [UPrintln ""; USuccess "Authenticated successfully!"] ++ user_line userinfo ++
                   [UKeyValue "Token expires" (format_expiry (tk_ExpiresAt token));
                    UKeyValue "Token saved to" token_path]))
        end
    end.

Definition runLogout : cmd unit := λ w,
  if negb (Token_Exists (w_file w)) then say [UInfo "No token found (already logged out)"] w
  else
    let '(file, ok) := Token_Delete io (w_file w) in
    let w' := mkWorld file (w_srv w) (w_sent w) in
    if ok then say [USuccess ("Token removed from " +:+ token_path)] w'
    else refuse "Failed to delete token" ErrDeleteToken w'.

Definition runWhoami : cmd unit :=
  token <~ loadAndValidateToken;
  match NewOIDCAuthenticator decode_discovery oidc discovered with
  | inr e => refuse "Failed to initialize OIDC" (ErrAuth e)
  | inl a =>
      match GetUserinfo a decode Userinfo token with
      | inr e => refuse "Failed to get user info" (ErrAuth e)
      | inl userinfo =>
          say ([USuccess "Authenticated"; UPrintln ""] ++ any_value "Name" "name" userinfo ++
               any_value "Email" "email" userinfo ++
               [UKeyValue "Token expires" (format_expiry (tk_ExpiresAt token))] ++
               (if NeedsRefresh now token then [UPrintln ""; UWarning "Token expires soon, consider refreshing"]
                else []))
      end
  end.
End Commands.
