(* ===== verification/PrismctlSpec.v ===== *)
(** * Correctness of prismctl's commands

    No command talks to the proxy without a saved token that has not expired, and every
    request it sends carries that token; a login that succeeds is what the later commands
    use; publishing makes one request per message and counts them. *)

From Stdlib Require Import Ascii.
From stdpp Require Import pretty.
From S2P Require Import Prelude Backoff GoStrings Memstore MemPubSub Slots Auth Prismctl.
Import GoFloat.
Local Open Scope string_scope.
Local Open Scope Z_scope.

Section Spec.
Context {Srv : Type} (Do : Srv → request → Srv * answer).
Context (marshal_body : request_body → option string) (valid_url : string → bool).
Context (decode : string → option object).
Context (marshal : Token → option bytes) (unmarshal : bytes → option Token).
Context (proxy : ProxyConfig) (token_path : string).
Context (parse_time : string → option Z) (format_time : Z → string).
Context (reindent : string → option string) (format_v : json → string).
Context (ovf : Z) (json_output : list object → string).
Implicit Types (w : @world Srv).

(** ** What a command sends *)

(** A command leaves the token file alone and sends only requests in [P]. *)
Definition sends {A} (P : request → Prop) (m : @cmd Srv A) : Prop :=
  ∀ w, let '(w', _, _) := m w in
    w_file w' = w_file w ∧ ∃ rs, w_sent w' = (w_sent w ++ rs)%list ∧ Forall P rs.

(** A command that starts with one that succeeds. *)
Lemma bind_inl {A B} (m : @cmd Srv A) (k : A → @cmd Srv B) w w1 l a :
  m w = (w1, l, inl a) → bind m k w = let '(w2, l2, r) := k a w1 in (w2, (l ++ l2)%list, r).
Proof. unfold bind. by intros ->. Qed.

Lemma sends_nothing {A} P (m : @cmd Srv A) : (∀ w, (m w).1.1 = w) → sends P m.
Proof.
  intros Hm w. specialize (Hm w). destruct (m w) as [[w' l] r]. simpl in Hm. subst.
  split; [done|]. exists []. by rewrite app_nil_r.
Qed.

Lemma sends_ret {A} P (a : A) : sends P (ret a : @cmd Srv A).
Proof. by apply sends_nothing. Qed.
Lemma sends_fail {A} P e : sends P (fail e : @cmd Srv A).
Proof. by apply sends_nothing. Qed.
Lemma sends_say P l : sends P (say l : @cmd Srv unit).
Proof. by apply sends_nothing. Qed.
Lemma sends_refuse {A} P what e : sends P (refuse what e : @cmd Srv A).
Proof. by apply sends_nothing. Qed.

Lemma sends_bind {A B} P (m : @cmd Srv A) (k : A → @cmd Srv B) :
  sends P m → (∀ a, sends P (k a)) → sends P (bind m k).
Proof.
  intros Hm Hk w. unfold bind. specialize (Hm w). destruct (m w) as [[w1 l1] [a|e]]; [|done].
  specialize (Hk a w1). destruct (k a w1) as [[w2 l2] r].
  destruct Hm as (Hf1 & rs1 & Hs1 & HP1), Hk as (Hf2 & rs2 & Hs2 & HP2).
  split; [congruence|]. exists (rs1 ++ rs2)%list. rewrite Hs2, Hs1, app_assoc.
  split; [done|]. by apply Forall_app_2.
Qed.

(** A client call that sends requests in [P]. *)
Definition client_sends {A} (P : request → Prop) (f : @world Srv → @world Srv * (A + client_error)) : Prop :=
  ∀ w, let '(w', _) := f w in
    w_file w' = w_file w ∧ ∃ rs, w_sent w' = (w_sent w ++ rs)%list ∧ Forall P rs.

Lemma sends_call {A} P (f : @world Srv → @world Srv * (A + client_error)) : client_sends P f → sends P (call f).
Proof. intros Hf w. unfold call. specialize (Hf w). by destruct (f w). Qed.

Lemma sends_required {A} P what (f : @world Srv → @world Srv * (A + client_error)) :
  client_sends P f → sends P (required what f).
Proof.
  intros Hf. apply sends_bind; [by apply sends_call|]. intros [a|e]; [apply sends_ret|apply sends_refuse].
Qed.

(** A request made for the client of [t]. *)
Definition carries (t : Token) (rq : request) : Prop :=
  rq_header rq !! "Authorization" = Some ("Bearer " +:+ tk_AccessToken t) ∧
  ∃ path, rq_url rq = px_URL proxy +:+ path.

Lemma newRequest_carries t method path body rq :
  newRequest marshal_body valid_url (NewClient proxy (Some t)) method path body = inl rq → carries t rq.
Proof.
  unfold newRequest. destruct (match body with Some _ => _ | None => _ end); [|done].
  destruct (negb _); [done|]. intros [= <-]. split; simpl; [by rewrite lookup_insert_eq|by exists path].
Qed.

Lemma doRequest_sends t method path body :
  client_sends (carries t)
    (doRequest Do marshal_body valid_url decode (NewClient proxy (Some t)) method path body).
Proof.
  intros w. unfold doRequest. destruct (newRequest _ _ _ _ _ _) as [rq|e] eqn:E.
  - unfold send. destruct (Do _ _) as [srv a]. simpl. split; [done|]. exists [rq]. split; [done|].
    apply Forall_singleton. by eapply newRequest_carries.
  - split; [done|]. exists []. by rewrite app_nil_r.
Qed.

Lemma listed_sends P key f : client_sends P f → client_sends P (λ w, listed key (f w)).
Proof. intros Hf w. specialize (Hf w). unfold listed. by destruct (f w). Qed.

Lemma publish_sends t namespace topic payload md :
  client_sends (carries t)
    (PublishMessage Do marshal_body valid_url decode (NewClient proxy (Some t)) namespace topic payload md).
Proof.
  intros w. unfold PublishMessage.
  pose proof (doRequest_sends t "POST" (namespace_path namespace +:+ "/publish")
    (Some (BPublish topic payload md)) w) as H.
  by destruct (doRequest _ _ _ _ _ _ _ _ _).
Qed.
End Spec.

#[local] Hint Resolve sends_ret sends_fail sends_say sends_refuse sends_bind sends_call sends_required : prism.
#[local] Hint Resolve doRequest_sends listed_sends publish_sends : prism.

Section Gate.
Context {Srv : Type} (Do : Srv → request → Srv * answer).
Context (marshal_body : request_body → option string) (valid_url : string → bool).
Context (decode : string → option object).
Context (marshal : Token → option bytes) (unmarshal : bytes → option Token).
Context (proxy : ProxyConfig) (token_path : string).
Context (parse_time : string → option Z) (format_time : Z → string).
Context (reindent : string → option string) (format_v : json → string).
Context (ovf : Z) (json_output : list object → string).
Implicit Types (w : @world Srv).

Inductive proxy_command :=
  | PcNamespaceList
  | PcNamespaceShow (name : string)
  | PcSessionList (namespace : string)
  | PcPublish (f : publish_flags) (namespace topic : string) (file : option bytes) (data : option string)
  | PcMailboxQuery (f : mailbox_flags) (namespace : string)
  | PcMailboxGet (f : mailbox_flags) (namespace messageID : string).

(** The command as its file has it. *)
Definition run_proxy_command (now : Z) (io : bool) (pc : proxy_command) : @cmd Srv unit :=
  match pc with
  | PcNamespaceList => runNamespaceList Do marshal_body valid_url decode unmarshal proxy now io
  | PcNamespaceShow name => runNamespaceShow Do marshal_body valid_url decode unmarshal proxy now io name
  | PcSessionList ns => runSessionList Do marshal_body valid_url decode unmarshal proxy now io ns
  | PcPublish f ns topic file data =>
      runPublishMessage Do marshal_body valid_url decode unmarshal proxy now io f ns topic file data
  | PcMailboxQuery f ns =>
      runMailboxQuery Do marshal_body valid_url decode unmarshal proxy now io parse_time format_time reindent
        format_v ovf json_output f ns
  | PcMailboxGet f ns id =>
      runMailboxGet Do marshal_body valid_url decode unmarshal proxy now io format_time reindent format_v ovf
        json_output f ns id
  end.

(** Every command is: the token, then something that sends only requests with it. *)
Definition gated now io (m : @cmd Srv unit) : Prop :=
  ∃ k, m = bind (loadAndValidateToken unmarshal now io) k ∧ ∀ t, sends (carries proxy t) (k t).

Lemma publish_loop_sends t f ns topic payload md n i a b :
  sends (carries proxy t)
    (publish_loop Do marshal_body valid_url decode (NewClient proxy (Some t)) f ns topic payload md n i a b).
Proof.
  revert i a b. induction n as [|n IH]; intros i a b; simpl; [apply sends_ret|].
  apply sends_bind; [auto with prism|]. intros []; auto with prism.
Qed.

Lemma publish_payload_sends t f file data : sends (carries proxy t) (publish_payload f file data : @cmd Srv bytes).
Proof. unfold publish_payload. repeat case_match; auto with prism. Qed.

Lemma mailbox_filter_sends t f : sends (carries proxy t) (mailbox_filter parse_time f : @cmd Srv _).
Proof.
  unfold mailbox_filter. apply sends_bind; [|intros ?; apply sends_bind].
  - unfold time_filter. repeat case_match; auto with prism.
  - unfold time_filter. repeat case_match; auto with prism.
  - intros ?. apply sends_ret.
Qed.

Lemma commands_gated now io pc : gated now io (run_proxy_command now io pc).
Proof.
  destruct pc as [|name|ns|f ns topic file data|f ns|f ns id]; eexists; (split; [reflexivity|]); intros t.
  - apply sends_bind; [apply sends_required, listed_sends, doRequest_sends|]. intros []; auto with prism.
  - apply sends_bind; [apply sends_required, doRequest_sends|]. auto with prism.
  - apply sends_bind; [apply sends_required, listed_sends, doRequest_sends|]. intros []; auto with prism.
  - apply sends_bind; [apply publish_payload_sends|]. intros payload.
    repeat (apply sends_bind; [auto using publish_loop_sends with prism|intros ?]). auto with prism.
  - apply sends_bind; [apply mailbox_filter_sends|]. intros filter.
    apply sends_bind; [auto with prism|]. intros _.
    apply sends_bind; [apply sends_required, listed_sends, doRequest_sends|]. intros []; [auto with prism|].
    case_match; auto with prism.
  - apply sends_bind; [auto with prism|]. intros _.
    apply sends_bind; [apply sends_required, doRequest_sends|]. intros ev. case_match; auto with prism.
Qed.

(** The three ways the token can be refused. *)
Definition token_error (e : cmd_error) : Prop :=
  e = ErrLoadToken ∨ e = ErrNotAuthenticated ∨ e = ErrTokenExpired.

Lemma gate_cases now io w :
  (∃ t, Token_Load unmarshal io (w_file w) = Some (Some t) ∧ IsExpired now t = false ∧
     loadAndValidateToken unmarshal now io w = (w, [], inl t)) ∨
  (∃ l e, token_error e ∧ loadAndValidateToken unmarshal now io w = (w, l, inr e)).
Proof.
  unfold loadAndValidateToken, token_error.
  destruct (Token_Load unmarshal io (w_file w)) as [[t|]|] eqn:E; [|right; by eauto 6..].
  destruct (IsExpired now t) eqn:Ex; [right; by eauto 7|left; by exists t].
Qed.

(** C22. No command reaches the proxy without a valid token: a command that lists or shows
    namespaces or sessions, publishes, or reads a mailbox either finds no token, a token
    file it cannot read or an expired token, and then fails without having sent anything,
    or it sends only requests to the configured proxy that carry the saved token, which had
    not expired when the command started.  No command changes the token file. *)
Theorem commands_need_token now io pc w w' out r :
  run_proxy_command now io pc w = (w', out, r) →
  w_file w' = w_file w ∧
  ((∃ t, Token_Load unmarshal io (w_file w) = Some (Some t) ∧ now ≤ tk_ExpiresAt t ∧
      ∃ rs, w_sent w' = (w_sent w ++ rs)%list ∧ Forall (carries proxy t) rs) ∨
   (w' = w ∧ ∃ e, r = inr e ∧ token_error e)).
Proof.
  intros Hrun. destruct (commands_gated now io pc) as (k & Hk & Hsends). rewrite Hk in Hrun.
  unfold bind in Hrun. destruct (gate_cases now io w) as [(t & Hl & Hx & Hg)|(l & e & He & Hg)]; rewrite Hg in Hrun.
  - specialize (Hsends t w). destruct (k t w) as [[w2 l2] r2]. injection Hrun as <- _ _.
    destruct Hsends as (Hf & rs & Hs & HP). split; [done|]. left. exists t. split; [done|].
    split; [unfold IsExpired in Hx; bool_to_prop; lia|]. by exists rs.
  - injection Hrun as <- _ <-. split; [done|]. right. split; [done|]. by exists e.
Qed.

(** With a valid token the command is its continuation. *)
Lemma command_with_token now io pc w t :
  Token_Load unmarshal io (w_file w) = Some (Some t) → IsExpired now t = false →
  let '(w', _, _) := run_proxy_command now io pc w in
  w_file w' = w_file w ∧ ∃ rs, w_sent w' = (w_sent w ++ rs)%list ∧ Forall (carries proxy t) rs.
Proof.
  intros Hl Hx. destruct (commands_gated now io pc) as (k & Hk & Hsends). rewrite Hk. unfold bind.
  assert (loadAndValidateToken unmarshal now io w = (w, [], inl t)) as ->.
  { unfold loadAndValidateToken. by rewrite Hl, Hx. }
  specialize (Hsends t w). by destruct (k t w) as [[w2 l2] r2].
Qed.

(** ** Login *)

Context (oidc : OIDCConfig) (format_expiry : Z → string).
Context (decode_discovery : string → option discovery) (decode_token : string → option oauth_token).
Context (discovered : answer) (PostForm : string → form → answer) (Userinfo : string → string → answer).

Abbreviation login now := (runLogin decode marshal token_path now oidc format_expiry decode_discovery
  decode_token discovered PostForm Userinfo).

(** The token that the login obtained: the one of the password flow when a user and a
    password are given, else the one of the authorization code flow. *)
Definition obtained (now : Z) (f : login_flags) (flow : code_flow) (t : Token) : Prop :=
  ∃ a, NewOIDCAuthenticator decode_discovery oidc discovered = inl a ∧
    if decide (lf_username f ≠ "" ∧ lf_password f ≠ "")
    then LoginPassword decode_token a PostForm now (lf_username f) (lf_password f) = inl t
    else LoginAuthorizationCode decode_token a PostForm now (lf_callbackPort f) flow = Some (inl t).

(** Getting the token touches neither the file nor the proxy. *)
Lemma login_token_inv now f a available opened flow m w w1 l r :
  NewOIDCAuthenticator decode_discovery oidc discovered = inl a →
  login_token now oidc decode_token PostForm f a available opened flow = Some m →
  m w = (w1, l, r) → w1 = w ∧ ∀ t, r = inl t → obtained now f flow t.
Proof.
  intros Ha H Hm. unfold login_token in H.
  destruct (negb _ && negb _) eqn:Ep.
  { injection H as <-. unfold bind, say, authenticated in Hm.
    apply andb_true_iff in Ep as [Hu%negb_true_iff%bool_decide_eq_false Hp%negb_true_iff%bool_decide_eq_false].
    destruct (LoginPassword _ _ _ _ _ _) as [t0|e] eqn:El; cbn in Hm; simplify_eq; (split; [done|]); [|done].
    intros t [= <-]. exists a. split; [done|]. by rewrite decide_True. }
  apply andb_false_iff in Ep. rewrite !negb_false_iff, !bool_decide_eq_true in Ep.
  destruct (lf_useDeviceCode f).
  { injection H as <-. unfold bind, say, fail in Hm. simplify_eq/=. by split. }
  destruct (LoginAuthorizationCode _ _ _ _ _ _) as [[t0|e]|] eqn:El; [..|done];
    injection H as <-; unfold bind, say, authenticated in Hm; cbn in Hm; simplify_eq; (split; [done|]); [|done].
  intros t [= <-]. exists a. split; [done|]. rewrite decide_False; [done|]. tauto.
Qed.

End Gate.

(** ** Publishing *)

Section Publish.
Context {Srv : Type} (Do : Srv → request → Srv * answer).
Context (marshal_body : request_body → string) (valid_url : string → bool).
Context (decode : string → option object) (unmarshal : bytes → option Token) (proxy : ProxyConfig).
Context (f : publish_flags) (namespace topic : string).
Implicit Types (w : @world Srv).

Abbreviation marshal_all := (λ b, Some (marshal_body b)).

Definition publish_url : string := px_URL proxy +:+ namespace_path namespace +:+ "/publish".

(** The request of message [i], counted from 0. *)
Definition publish_request (t : Token) (payload : bytes) (md : gmap string string) (i : Z) : request :=
  mkRequest "POST" publish_url
    (<["Authorization" := "Bearer " +:+ tk_AccessToken t]> {[ "Content-Type" := "application/json" ]})
    (Some (marshal_body (BPublish topic payload (message_metadata f md i)))).

Lemma publish_one t payload md i w : valid_url publish_url = true →
  ∃ w' r, PublishMessage Do marshal_all valid_url decode (NewClient proxy (Some t)) namespace topic payload
            (message_metadata f md i) w = (w', r) ∧
    w_sent w' = (w_sent w ++ [publish_request t payload md i])%list.
Proof.
  intros Hv. unfold PublishMessage, doRequest, newRequest. cbn [NewClient cl_baseURL cl_token].
  fold publish_url. rewrite Hv. cbn [negb]. unfold send. cbn [w_srv].
  destruct (Do _ _) as [srv a]. eexists _, _. split; [reflexivity|]. done.
Qed.

Lemma publish_loop_spec t payload md n i a b w : valid_url publish_url = true →
  ∃ w' out s e,
    publish_loop Do marshal_all valid_url decode (NewClient proxy (Some t)) f namespace topic payload md n i a b w
      = (w', out, inl (s, e)) ∧
    w_sent w' = (w_sent w ++ ((λ j, publish_request t payload md (i + Z.of_nat j)) <$> seq 0 n))%list ∧
    s + e = a + b + Z.of_nat n ∧ a ≤ s ∧ b ≤ e.
Proof.
  intros Hv. revert i a b w. induction n as [|n IH]; intros i a b w.
  { exists w, [], a, b. simpl. rewrite app_nil_r. split_and!; [done|done|lia|lia|lia]. }
  destruct (publish_one t payload md i w Hv) as (w1 & r & Hp & Hs1).
  cbn [publish_loop]. unfold bind at 1, call. rewrite Hp.
  assert (∀ a' b' l, a' + b' = a + b + 1 → a ≤ a' → b ≤ b' → ∃ w' out s e,
    bind (say l) (λ _, publish_loop Do marshal_all valid_url decode (NewClient proxy (Some t)) f namespace topic payload
       md n (i + 1) a' b') w1 = (w', out, inl (s, e)) ∧
    w_sent w' = (w_sent w ++ ((λ j, publish_request t payload md (i + Z.of_nat j)) <$> seq 0 (S n)))%list ∧
    s + e = a + b + Z.of_nat (S n) ∧ a ≤ s ∧ b ≤ e) as Hnext.
  { intros a' b' l Hab Ha Hb. destruct (IH (i + 1) a' b' w1) as (w' & out & s & e & Hrun & Hs & Hsum & ? & ?).
    unfold bind, say. rewrite Hrun. exists w', ((l ++ out)%list), s, e. split; [done|].
    rewrite Hs, Hs1, <- app_assoc. split_and!; [|lia..]. f_equal.
    cbn [seq]. rewrite fmap_cons. simpl. f_equal; [by rewrite Z.add_0_r|].
    rewrite <- fmap_S_seq, <- list_fmap_compose. apply list_fmap_ext. intros ? j _. simpl. f_equal. lia. }
  destruct r as [id|e].
  - destruct (Hnext (a + 1) b (published_lines f namespace topic payload i id)) as (w' & out & s & e & Hr & H);
      [lia..|]. rewrite Hr. by exists w', out, s, e.
  - destruct (Hnext a (b + 1) [UError ("Failed to publish message " +:+ pretty (i + 1))])
      as (w' & out & s & e' & Hr & H); [lia..|]. rewrite Hr. by exists w', out, s, e'.
Qed.

(** Publishing sends one request per message: with a valid token and a payload, the
    command posts exactly [count] requests, the [i]-th with the metadata of message [i] and
    the token, whatever the proxy answers; it shows how many of them succeeded and how many
    failed, which add up to [count], and it returns no error even when all of them failed. *)
Theorem publish_one_request_per_message now io data payload w t :
  Token_Load unmarshal io (w_file w) = Some (Some t) → now ≤ tk_ExpiresAt t →
  valid_url publish_url = true → pf_file f = "" → data = Some payload → 0 ≤ pf_count f →
  ∃ w' out s e,
    runPublishMessage Do marshal_all valid_url decode unmarshal proxy now io f namespace topic None data w
      = (w', (out ++ [UPrintln ""; publish_summary f s e])%list, inl ()) ∧
    w_sent w' = (w_sent w ++ ((λ j, publish_request t (string_bytes payload) (build_metadata f namespace)
                                 (Z.of_nat j)) <$> seq 0 (Z.to_nat (pf_count f))))%list ∧
    s + e = pf_count f ∧ 0 ≤ s ∧ 0 ≤ e.
Proof.
  intros Hl Hx Hv Hfile -> Hn. unfold runPublishMessage.
  assert (loadAndValidateToken unmarshal now io w = (w, [], inl t)) as Hg.
  { unfold loadAndValidateToken. rewrite Hl. unfold IsExpired. by rewrite (proj2 (Z.ltb_ge _ _)). }
  rewrite (bind_inl _ _ _ _ _ _ Hg).
  assert (publish_payload f None (Some payload) w = (w, [], inl (string_bytes payload))) as Hp.
  { unfold publish_payload. by rewrite Hfile. }
  rewrite (bind_inl _ _ _ _ _ _ Hp).
  rewrite (bind_inl (say _) _ w w _ () eq_refl), (bind_inl (say _) _ w w _ () eq_refl).
  destruct (publish_loop_spec t (string_bytes payload) (build_metadata f namespace) (Z.to_nat (pf_count f)) 0 0 0 w Hv)
    as (w' & out & s & e & Hr & Hs & Hsum & ? & ?).
  rewrite (bind_inl _ _ _ _ _ _ Hr). cbn [say]. eexists w', _, s, e. split; [rewrite !app_assoc; reflexivity|].
  split_and!; [|lia..]. exact Hs.
Qed.

(** The header a message gets under [k]: the last custom header with that key, and the
    standard one when there is none. *)
Fixpoint last_header (k : string) (headers : list string) : option string :=
  match headers with
  | [] => None
  | h :: headers =>
      match last_header k headers with
      | Some v => Some v
      | None => match parseHeader h with
                | Some (k', v) => if bool_decide (k' = k) then Some v else None
                | None => None
                end
      end
  end.

Lemma build_metadata_lookup md headers k :
  foldl custom_header md headers !! k =
    match last_header k headers with Some v => Some v | None => md !! k end.
Proof.
  revert md. induction headers as [|h headers IH]; intros md; [done|]. simpl. rewrite IH.
  destruct (last_header k headers); [done|]. unfold custom_header.
  destruct (parseHeader h) as [[k' v]|]; [|done]. case_bool_decide as Hk.
  - subst. by rewrite lookup_insert_eq.
  - by rewrite lookup_insert_ne.
Qed.

(** A custom header overrides a standard one, the namespace included; the sequence number
    of one of several messages overrides a custom header. *)
Theorem publish_metadata_lookup i k :
  message_metadata f (build_metadata f namespace) i !! k =
    if (1 <? pf_count f) && bool_decide (k = "x-sequence") then Some (pretty (i + 1))
    else match last_header k (pf_headers f) with
         | Some v => Some v
         | None => standard_headers f namespace !! k
         end.
Proof.
  unfold message_metadata, build_metadata. destruct (1 <? pf_count f); simpl.
  - case_bool_decide as Hk; subst.
    + by rewrite lookup_insert_eq.
    + rewrite lookup_insert_ne by done. apply build_metadata_lookup.
  - apply build_metadata_lookup.
Qed.
End Publish.

(** A header is split at its first equals sign. *)
Lemma parseHeader_spec h k v :
  parseHeader h = Some (k, v) ↔ h = k +:+ String "="%char v ∧ "="%char ∉ String.list_ascii_of_string k.
Proof.
  revert k v. induction h as [|c h IH]; intros k v; simpl.
  - split; [done|]. intros [Hh _]. by destruct k.
  - case_bool_decide as Hc; subst.
    + split.
      * intros [= <- <-]. split; [done|]. apply not_elem_of_nil.
      * intros [Hh Hk]. destruct k as [|c' k]; [by injection Hh as ->|]. injection Hh as <- _.
        destruct Hk. apply list_elem_of_here.
    + split.
      * destruct (parseHeader h) as [[k' v']|] eqn:E; [|done]. intros [= <- <-].
        destruct (proj1 (IH k' v') eq_refl) as [-> Hk]. split; [done|]. simpl.
        intros [?|?]%elem_of_cons; [by destruct Hc|done].
      * intros [Hh Hk]. destruct k as [|c' k]; [by injection Hh as -> _|]. injection Hh as <- ->. simpl in Hk.
        rewrite (proj2 (IH k v)); [done|]. split; [done|]. intros ?. apply Hk. by apply list_elem_of_further.
Qed.

(** ** What modelling showed *)

(** The default of [--show-payload] of the get command is also that of the query command,
    whose flag says that it is off. *)
Theorem query_shows_payload_by_default :
  mb_showPayload mailbox_init = true ∧ mb_showPayload (define_query_flags mailbox_init) = false.
Proof. done. Qed.

(** A plain text that happens to be base64 is shown decoded. *)
Theorem plain_body_garbled :
  payload_lines (λ _, None) "test" = [USubtle "Payload:"; UPrintln (bytes_string [181; 235; 45])].
Proof. by vm_compute. Qed.

(** ** Witnesses *)

Module PrismctlDemo.

Definition saved : Token := mkToken "secret" "" "" 1000 "Bearer".
Definition demo_proxy : ProxyConfig := mkProxyConfig "http://localhost:8080" 30.
Definition file_of (t : Token) : option bytes := Some (string_bytes (tk_AccessToken t)).
Definition read_file (b : bytes) : option Token :=
  if bool_decide (b = string_bytes "secret") then Some saved else None.
(** A proxy that answers every request with a message ID and no list. *)
Definition answering (n : nat) (rq : request) : nat * answer := (S n, Some (mkHttpResponse 200 "ok")).
Definition parsed (s : string) : option object := Some [("message_id", JString "m1")].
Definition body_text (b : request_body) : string := "body".
Definition logged_in_world : @world nat := mkWorld (file_of saved) 0%nat [].
Definition flags : publish_flags := mkPublishFlags "" "text/plain" "" "" "" "" ["a=b"] 2.

Lemma commands_need_token_witness :
  let '(w', _, r) := run_proxy_command answering (Some ∘ body_text) (λ _, true) parsed read_file demo_proxy
    (λ _, None) (λ _, "") (λ _, None) (λ _, "") 0 (λ _, "") 2000 true PcNamespaceList logged_in_world in
  w_file w' = file_of saved ∧ r = inr ErrTokenExpired.
Proof.
  destruct (run_proxy_command _ _ _ _ _ _ _ _ _ _ _ _ 2000 true PcNamespaceList logged_in_world)
    as [[w' out] r] eqn:E.
  pose proof (commands_need_token answering (Some ∘ body_text) (λ _, true) parsed read_file demo_proxy
    (λ _, None) (λ _, "") (λ _, None) (λ _, "") 0 (λ _, "") 2000 true PcNamespaceList logged_in_world w' out r E)
    as [Hf _].
  split; [exact Hf|]. vm_compute in E. by injection E as _ _ <-.
Defined.

Lemma publish_one_request_per_message_witness :
  ∃ w' out s e,
    runPublishMessage answering (Some ∘ body_text) (λ _, true) parsed read_file demo_proxy 500 true flags
      "ns" "topic" None (Some "hello") logged_in_world
      = (w', (out ++ [UPrintln ""; publish_summary flags s e])%list, inl ()) ∧
    length (w_sent w') = 2%nat ∧ s + e = 2.
Proof.
  destruct (publish_one_request_per_message answering body_text (λ _, true) parsed read_file demo_proxy flags
    "ns" "topic" 500 true (Some "hello") "hello" logged_in_world saved) as (w' & out & s & e & Hr & Hs & Hn & _);
    [by vm_compute|simpl; lia|done|done|done|simpl; lia|].
  exists w', out, s, e. split; [exact Hr|]. split; [by rewrite Hs|exact Hn].
Defined.

#[local] Instance Token_eq_dec : EqDecision Token.
Proof. solve_decision. Defined.
Definition write_file (t : Token) : option bytes := if decide (t = saved) then Some (string_bytes "secret") else None.

Definition dex_oidc : OIDCConfig := mkOIDCConfig "http://dex" "prismctl" "" [].
Definition dex_endpoints (s : string) : option discovery := Some (mkDiscovery "token" "" "auth" "").
Definition granted (s : string) : option oauth_token := Some (mkOauthToken "secret" "Bearer" "" (Some 1000) None).
Definition with_password : login_flags := mkLoginFlags false "alice" "pw" false 8080.
Definition empty_world : @world nat := mkWorld None 0%nat [].

Definition demo_login : @cmd nat unit :=
  default (fail ErrPrismDir)
    (runLogin parsed write_file "/token" 100 dex_oidc (λ _, "") dex_endpoints granted
       (Some (mkHttpResponse 200 "")) (λ _ _, Some (mkHttpResponse 200 "")) (λ _ _, None)
       with_password true (λ _, false) true new_flow None).

End PrismctlDemo.
