(* ===== verification/Launcher.v ===== *)
(** * pkg/launcher: manifests, the pattern registry and the service builder

    manifest.go, discovery.go and builder.go.  The file system is a parameter
    ([FileSystem]), and so is the YAML decoder; the functions of path/filepath that the
    code calls are written out for Unix paths.  Of a manifest the fields that the
    launcher reads are kept.  Builder methods change the configuration the builder
    points to; a builder is a value here, since no caller looks at the configuration
    it handed in afterwards. *)

From S2P Require Import Prelude Backoff Isolation.
From Stdlib Require Import SpecFloat Ascii.
Import GoFloat.
Local Open Scope Z_scope.

(** ** path/filepath *)

Module filepath.
Definition slash : Ascii.ascii := "/"%char.

(** The components between the slashes. *)
Fixpoint split (s : string) : list string :=
  match s with
  | EmptyString => [""%string]
  | String a s =>
      if bool_decide (a = slash) then ""%string :: split s
      else match split s with
           | c :: cs => String a c :: cs
           | [] => [String a ""]
           end
  end.

Fixpoint join (cs : list string) : string :=
  match cs with
  | [] => ""
  | [c] => c
  | c :: cs => c +:+ String slash (join cs)
  end.

Definition IsAbs (s : string) : bool :=
  match s with String a _ => bool_decide (a = slash) | EmptyString => false end.

(** One component on top of the cleaned ones (the last one first). *)
Definition clean_step (rooted : bool) (st : list string) (c : string) : list string :=
  if bool_decide (c = ""%string) || bool_decide (c = "."%string) then st
  else if bool_decide (c = ".."%string) then
    match st with
    | x :: st' => if bool_decide (x = ".."%string) then c :: st else st'
    | [] => if rooted then [] else [c]
    end
  else c :: st.

Definition Clean (s : string) : string :=
  let rooted := IsAbs s in
  let body := join (reverse (foldl (clean_step rooted) [] (split s))) in
  if rooted then String slash body
  else if bool_decide (body = ""%string) then "." else body.

Definition Join (a b : string) : string :=
  if bool_decide (a = ""%string) then
    if bool_decide (b = ""%string) then "" else Clean b
  else Clean (a +:+ String slash b).

(** [Dir]: up to and including the last slash, cleaned. *)
Definition Dir (s : string) : string :=
  match reverse (split s) with
  | [] | [_] => Clean ""
  | _ :: cs => Clean (join (reverse (""%string :: cs)))
  end.
End filepath.

(** ** The file system *)

Record FileSystem := mkFileSystem {
  fs_Getwd : option string;
  fs_ReadFile : string → option (list Z);
  fs_Stat : string → option Z  (* the mode of the file *);
  fs_ReadDir : string → option (list (string * bool))  (* names, whether directories *) }.

(** ** manifest.go *)

Record HealthCheckConfig := mkHealthCheckConfig {
  hc_Port : Z;
  hc_Path : string;
  hc_Interval : Z;
  hc_Timeout : Z;
  hc_FailureThreshold : Z }.

Record Manifest := mkManifest {
  mf_Name : string;
  mf_Version : string;
  mf_Executable : string;
  mf_IsolationLevel : string;
  mf_HealthCheck : HealthCheckConfig;
  mf_Environment : gmap string string;
  mf_manifestPath : string }.

Inductive manifest_error :=
  | ErrReadManifest
  | ErrParseManifest
  | ErrResolvePath
  | ErrNameEmpty
  | ErrVersionEmpty
  | ErrExecutableEmpty
  | ErrIsolationLevel (level : string)
  | ErrExecutableMissing (path : string)
  | ErrNotExecutable (path : string)
  | ErrPort (port : Z)
  | ErrHealthPath.

Definition set_manifestPath (path : string) (m : Manifest) : Manifest :=
  mkManifest (mf_Name m) (mf_Version m) (mf_Executable m) (mf_IsolationLevel m)
    (mf_HealthCheck m) (mf_Environment m) path.
Definition set_HealthCheck (h : HealthCheckConfig) (m : Manifest) : Manifest :=
  mkManifest (mf_Name m) (mf_Version m) (mf_Executable m) (mf_IsolationLevel m) h
    (mf_Environment m) (mf_manifestPath m).

Definition ExecutablePath (m : Manifest) : string :=
  if filepath.IsAbs (mf_Executable m) then mf_Executable m
  else filepath.Join (filepath.Dir (mf_manifestPath m)) (mf_Executable m).

(** The defaults of the health check. *)
Definition default_HealthCheck (h : HealthCheckConfig) : HealthCheckConfig :=
  mkHealthCheckConfig (hc_Port h) (hc_Path h)
    (if hc_Interval h =? 0 then 30 * Second else hc_Interval h)
    (if hc_Timeout h =? 0 then 5 * Second else hc_Timeout h)
    (if hc_FailureThreshold h =? 0 then 3 else hc_FailureThreshold h).

Definition IsolationLevelProto (m : Manifest) : Z :=
  if bool_decide (mf_IsolationLevel m = "none"%string) then 0
  else if bool_decide (mf_IsolationLevel m = "namespace"%string) then 1
  else if bool_decide (mf_IsolationLevel m = "session"%string) then 2
  else 0.

Section Manifest.
Context (fs : FileSystem) (Unmarshal : list Z → option Manifest).

Definition Validate (m : Manifest) : result manifest_error Manifest :=
  let h := mf_HealthCheck m in
  let execPath := ExecutablePath m in
  if bool_decide (mf_Name m = ""%string) then Err ErrNameEmpty
  else if bool_decide (mf_Version m = ""%string) then Err ErrVersionEmpty
  else if bool_decide (mf_Executable m = ""%string) then Err ErrExecutableEmpty
  else if negb (bool_decide (mf_IsolationLevel m ∈ ["none"; "namespace"; "session"]%string))
  then Err (ErrIsolationLevel (mf_IsolationLevel m))
  else match fs_Stat fs execPath with
  | None => Err (ErrExecutableMissing execPath)
  | Some mode =>
      if Z.land mode 73 =? 0 then Err (ErrNotExecutable execPath)
      else if (hc_Port h <? 1) || (65535 <? hc_Port h) then Err (ErrPort (hc_Port h))
      else if bool_decide (hc_Path h = ""%string) then Err ErrHealthPath
      else Ok (set_HealthCheck (default_HealthCheck h) m)
  end.

Definition Abs (path : string) : option string :=
  if filepath.IsAbs path then Some (filepath.Clean path)
  else (λ wd, filepath.Join wd path) <$> fs_Getwd fs.

Definition LoadManifest (path : string) : result manifest_error Manifest :=
  match fs_ReadFile fs path with
  | None => Err ErrReadManifest
  | Some data =>
      match Unmarshal data with
      | None => Err ErrParseManifest
      | Some manifest =>
          match Abs path with
          | None => Err ErrResolvePath
          | Some absPath => Validate (set_manifestPath absPath manifest)
          end
      end
  end.

(** ** discovery.go *)

Record Registry := mkRegistry {
  rg_patterns : gmap string Manifest;
  rg_directory : string }.

Inductive discover_error :=
  | ErrDirNotFound
  | ErrReadDir
  | ErrNoPatterns.

Definition NewRegistry (directory : string) : Registry := mkRegistry ∅ directory.

(** The manifest of one entry of the directory, when there is one and it loads. *)
Definition entry_manifest (directory : string) (entry : string * bool) : option Manifest :=
  if negb entry.2 then None
  else
    let manifestPath := filepath.Join (filepath.Join directory entry.1) "manifest.yaml" in
    match fs_Stat fs manifestPath with
    | None => None
    | Some _ => match LoadManifest manifestPath with Ok m => Some m | _ => None end
    end.

Definition discover_entry (acc : Registry * Z) (entry : string * bool) : Registry * Z :=
  let '(r, discovered) := acc in
  match entry_manifest (rg_directory r) entry with
  | None => (r, discovered)
  | Some m => (mkRegistry (<[mf_Name m := m]> (rg_patterns r)) (rg_directory r), discovered + 1)
  end.

Definition Discover (r : Registry) : Registry * option discover_error :=
  match fs_Stat fs (rg_directory r) with
  | None => (r, Some ErrDirNotFound)
  | Some _ =>
      match fs_ReadDir fs (rg_directory r) with
      | None => (r, Some ErrReadDir)
      | Some entries =>
          let '(r, discovered) := foldl discover_entry (r, 0) entries in
          (r, if discovered =? 0 then Some ErrNoPatterns else None)
      end
  end.

Definition GetPattern (name : string) (r : Registry) : option Manifest := rg_patterns r !! name.
Definition ListManifests (r : Registry) : list Manifest := (map_to_list (rg_patterns r)).*2.
Definition Count (r : Registry) : Z := Z.of_nat (size (rg_patterns r)).

(** The patterns are cleared first; an error leaves the registry without any. *)
Definition Reload (r : Registry) : Registry * option discover_error :=
  Discover (mkRegistry ∅ (rg_directory r)).
End Manifest.

(** ** builder.go *)

Record Config := mkConfig {
  lc_PatternsDir : string;
  lc_DefaultIsolation : IsolationLevel;
  lc_ResyncInterval : Z;
  lc_BackOffPeriod : Z;
  lc_CPULimit : float64;
  lc_MemoryLimit : string }.

Definition DefaultConfig : Config :=
  mkConfig "./patterns" IsolationNamespace (30 * Second) (5 * Second) f64_two "1Gi".

Inductive builder_error :=
  | ErrPatternsDir
  | ErrResyncInterval
  | ErrBackOffPeriod
  | ErrCPULimit
  | ErrMemoryLimit
  | ErrNilConfig.

Record ServiceBuilder := mkServiceBuilder {
  sb_config : Config;
  sb_err : option builder_error }.

Definition NewBuilder : ServiceBuilder := mkServiceBuilder DefaultConfig None.

(** The common shape of the methods: nothing after an error, an error, or a change. *)
Definition builder_step (bad : bool) (e : builder_error) (f : Config → Config)
    (b : ServiceBuilder) : ServiceBuilder :=
  match sb_err b with
  | Some _ => b
  | None =>
      if bad then mkServiceBuilder (sb_config b) (Some e)
      else mkServiceBuilder (f (sb_config b)) None
  end.

Definition WithPatternsDir (dir : string) : ServiceBuilder → ServiceBuilder :=
  builder_step (bool_decide (dir = ""%string)) ErrPatternsDir (λ c,
    mkConfig dir (lc_DefaultIsolation c) (lc_ResyncInterval c) (lc_BackOffPeriod c)
      (lc_CPULimit c) (lc_MemoryLimit c)).
Definition WithDefaultIsolation (level : IsolationLevel) : ServiceBuilder → ServiceBuilder :=
  builder_step false ErrNilConfig (λ c,
    mkConfig (lc_PatternsDir c) level (lc_ResyncInterval c) (lc_BackOffPeriod c)
      (lc_CPULimit c) (lc_MemoryLimit c)).
Definition WithNoneIsolation : ServiceBuilder → ServiceBuilder := WithDefaultIsolation IsolationNone.
Definition WithNamespaceIsolation : ServiceBuilder → ServiceBuilder :=
  WithDefaultIsolation IsolationNamespace.
Definition WithSessionIsolation : ServiceBuilder → ServiceBuilder :=
  WithDefaultIsolation IsolationSession.
Definition Builder_WithResyncInterval (interval : Z) : ServiceBuilder → ServiceBuilder :=
  builder_step (interval <? Second) ErrResyncInterval (λ c,
    mkConfig (lc_PatternsDir c) (lc_DefaultIsolation c) interval (lc_BackOffPeriod c)
      (lc_CPULimit c) (lc_MemoryLimit c)).
Definition Builder_WithBackOffPeriod (period : Z) : ServiceBuilder → ServiceBuilder :=
  builder_step (period <? 0) ErrBackOffPeriod (λ c,
    mkConfig (lc_PatternsDir c) (lc_DefaultIsolation c) (lc_ResyncInterval c) period
      (lc_CPULimit c) (lc_MemoryLimit c)).
Definition WithCPULimit (limit : float64) : ServiceBuilder → ServiceBuilder :=
  builder_step (f64_leb limit f64_zero) ErrCPULimit (λ c,
    mkConfig (lc_PatternsDir c) (lc_DefaultIsolation c) (lc_ResyncInterval c)
      (lc_BackOffPeriod c) limit (lc_MemoryLimit c)).
Definition WithMemoryLimit (limit : string) : ServiceBuilder → ServiceBuilder :=
  builder_step (bool_decide (limit = ""%string)) ErrMemoryLimit (λ c,
    mkConfig (lc_PatternsDir c) (lc_DefaultIsolation c) (lc_ResyncInterval c)
      (lc_BackOffPeriod c) (lc_CPULimit c) limit).
Definition WithResourceLimits (cpuLimit : float64) (memoryLimit : string) (b : ServiceBuilder)
    : ServiceBuilder := WithMemoryLimit memoryLimit (WithCPULimit cpuLimit b).
Definition WithDevelopmentDefaults (b : ServiceBuilder) : ServiceBuilder :=
  WithNamespaceIsolation (Builder_WithBackOffPeriod Second (Builder_WithResyncInterval (5 * Second) b)).
Definition WithProductionDefaults (b : ServiceBuilder) : ServiceBuilder :=
  WithResourceLimits f64_two "1Gi" (WithNamespaceIsolation
    (Builder_WithBackOffPeriod (5 * Second) (Builder_WithResyncInterval (30 * Second) b))).
(** [None] is the nil pointer. *)
Definition WithConfig (config : option Config) : ServiceBuilder → ServiceBuilder :=
  match config with
  | None => builder_step true ErrNilConfig (λ c, c)
  | Some c => builder_step false ErrNilConfig (λ _, c)
  end.

Definition GetConfig (b : ServiceBuilder) : Config := sb_config b.

Definition validateConfig (c : Config) : option builder_error :=
  if bool_decide (lc_PatternsDir c = ""%string) then Some ErrPatternsDir
  else if lc_ResyncInterval c <? Second then Some ErrResyncInterval
  else if lc_BackOffPeriod c <? 0 then Some ErrBackOffPeriod
  else if f64_leb (lc_CPULimit c) f64_zero then Some ErrCPULimit
  else if bool_decide (lc_MemoryLimit c = ""%string) then Some ErrMemoryLimit
  else None.

(** ** Theorems *)

(** *** Paths *)

Lemma join_abs cs : cs ≠ [] → filepath.IsAbs (filepath.join (""%string :: cs)) = true.
Proof. by destruct cs. Qed.

Lemma Clean_abs s : filepath.IsAbs s = true → filepath.IsAbs (filepath.Clean s) = true.
Proof. intros H. unfold filepath.Clean. rewrite H. done. Qed.

Lemma IsAbs_app s1 s2 : filepath.IsAbs s1 = true → filepath.IsAbs (s1 +:+ s2) = true.
Proof. by destruct s1. Qed.

Lemma IsAbs_nonempty s : filepath.IsAbs s = true → s ≠ ""%string.
Proof. by destruct s. Qed.

Lemma Join_abs a b : filepath.IsAbs a = true → filepath.IsAbs (filepath.Join a b) = true.
Proof.
  intros H. unfold filepath.Join. rewrite bool_decide_eq_false_2 by (by apply IsAbs_nonempty).
  by apply Clean_abs, IsAbs_app.
Qed.

Lemma split_nonempty s : filepath.split s ≠ [].
Proof. destruct s as [|a s]; simpl; [done|]. repeat case_match; done. Qed.

(** The first component of an absolute path is empty, and there is another one. *)
Lemma split_abs s :
  filepath.IsAbs s = true → ∃ c cs, filepath.split s = ""%string :: c :: cs.
Proof.
  destruct s as [|a s]; simpl; [done|]. intros H. rewrite H.
  destruct (filepath.split s) as [|c cs] eqn:E; [by apply split_nonempty in E|]. eauto.
Qed.

Lemma Dir_abs s : filepath.IsAbs s = true → filepath.IsAbs (filepath.Dir s) = true.
Proof.
  intros (c & cs & E)%split_abs. unfold filepath.Dir. rewrite E, reverse_cons.
  destruct (reverse (c :: cs)) as [|x r] eqn:Er.
  { apply (f_equal length) in Er. by rewrite length_reverse in Er. }
  simpl. destruct (r ++ [""%string]) as [|y r'] eqn:Ey; [by destruct r|].
  rewrite <- Ey. apply Clean_abs. rewrite reverse_cons, reverse_snoc. apply join_abs.
  by intros [_ [=]]%app_nil.
Qed.

(** *** Manifests *)

Section Theorems.
Context (fs : FileSystem) (Unmarshal : list Z → option Manifest).

(** What the launcher relies on in a manifest. *)
Record manifest_ok (m : Manifest) : Prop := {
  mk_name : mf_Name m ≠ ""%string;
  mk_version : mf_Version m ≠ ""%string;
  mk_level : mf_IsolationLevel m ∈ ["none"; "namespace"; "session"]%string;
  mk_exec : ∃ mode, fs_Stat fs (ExecutablePath m) = Some mode ∧ Z.land mode 73 ≠ 0;
  mk_abs : filepath.IsAbs (ExecutablePath m) = true;
  mk_port : 1 ≤ hc_Port (mf_HealthCheck m) ≤ 65535;
  mk_path : hc_Path (mf_HealthCheck m) ≠ ""%string;
  mk_times : hc_Interval (mf_HealthCheck m) ≠ 0 ∧ hc_Timeout (mf_HealthCheck m) ≠ 0 ∧
             hc_FailureThreshold (mf_HealthCheck m) ≠ 0 }.

(** Working directories are absolute. *)
Definition fs_ok : Prop := ∀ wd, fs_Getwd fs = Some wd → filepath.IsAbs wd = true.

Lemma Abs_abs path p : fs_ok → Abs fs path = Some p → filepath.IsAbs p = true.
Proof.
  intros Hfs. unfold Abs. destruct (filepath.IsAbs path) eqn:E.
  - intros [= <-]. by apply Clean_abs.
  - intros (wd & Hw & ->)%fmap_Some. by apply Join_abs, Hfs.
Qed.

Lemma Validate_ok m m' :
  filepath.IsAbs (mf_manifestPath m) = true → Validate fs m = Ok m' → manifest_ok m'.
Proof.
  intros Habs. unfold Validate. intros H. split_match_in H. bool_to_prop.
  assert (filepath.IsAbs (ExecutablePath m) = true) as He.
  { unfold ExecutablePath. case_match; [done|]. by apply Join_abs, Dir_abs. }
  split; simpl; try done; [by eexists|].
  split_and!; repeat case_match; bool_to_prop; done.
Qed.

Lemma LoadManifest_ok path m : fs_ok → LoadManifest fs Unmarshal path = Ok m → manifest_ok m.
Proof.
  intros Hfs. unfold LoadManifest. intros H. split_match_in H.
  eapply Validate_ok, H. by eapply Abs_abs.
Qed.

(** *** The registry *)

Definition registry_ok (r : Registry) : Prop :=
  ∀ name m, GetPattern name r = Some m → mf_Name m = name ∧ manifest_ok m.

(** The manifests of a directory that load, in the order of its entries. *)
Definition found (dir : string) (entries : list (string * bool)) : list Manifest :=
  omap (entry_manifest fs Unmarshal dir) entries.

Lemma entry_manifest_ok dir e m :
  fs_ok → entry_manifest fs Unmarshal dir e = Some m → manifest_ok m.
Proof.
  intros Hfs. unfold entry_manifest. intros H. split_match_in H. by eapply LoadManifest_ok.
Qed.

Lemma discover_fold dir entries p n :
  foldl (discover_entry fs Unmarshal) (mkRegistry p dir, n) entries =
  (mkRegistry (foldl (λ p m, <[mf_Name m := m]> p) p (found dir entries)) dir,
   n + Z.of_nat (length (found dir entries))).
Proof.
  revert p n. induction entries as [|e entries IH]; intros p n; simpl; [by rewrite Z.add_0_r|].
  unfold found. simpl. destruct (entry_manifest _ _ _ _) as [m|]; simpl; rewrite IH; [|done].
  f_equal. unfold found. lia.
Qed.

Lemma insert_all_lookup (ms : list Manifest) (p : gmap string Manifest) name :
  foldl (λ p m, <[mf_Name m := m]> p) p ms !! name =
  match last (filter (λ m, mf_Name m = name) ms) with Some m => Some m | None => p !! name end.
Proof.
  revert p. induction ms as [|m ms IH]; intros p; simpl; [done|]. rewrite IH, filter_cons.
  destruct (decide (mf_Name m = name)) as [<-|Hne].
  - rewrite last_cons, lookup_insert_eq. by case_match.
  - by rewrite lookup_insert_ne.
Qed.

(** Discovery: a scan reports success exactly when the directory can be read and
    one of its subdirectories has a manifest that loads; a name then resolves to the
    last such manifest of that name, or to what was registered before; a scan that
    cannot read the directory changes nothing.  Every registered manifest is filed
    under its own name and fit for use: it names an existing executable by an absolute
    path, a known isolation level, a valid port, and no zero timeouts. *)
Theorem Discover_correct r :
  fs_ok →
  let '(r', err) := Discover fs Unmarshal r in
  match fs_Stat fs (rg_directory r), fs_ReadDir fs (rg_directory r) with
  | Some _, Some entries =>
      (err = None ↔ found (rg_directory r) entries ≠ []) ∧
      ∀ name, GetPattern name r' =
        match last (filter (λ m, mf_Name m = name) (found (rg_directory r) entries)) with
        | Some m => Some m
        | None => GetPattern name r
        end
  | _, _ => err ≠ None ∧ r' = r
  end ∧ (registry_ok r → registry_ok r').
Proof.
  intros Hfs. destruct r as [p dir]. unfold Discover. simpl.
  destruct (fs_Stat fs dir) as [mode|]; [|done].
  destruct (fs_ReadDir fs dir) as [entries|]; [|done]. rewrite discover_fold. simpl. split.
  - split; [|intros; by apply insert_all_lookup].
    by destruct (found dir entries).
  - intros Hr name m. unfold GetPattern. simpl. rewrite insert_all_lookup.
    destruct (last _) as [m'|] eqn:El; [|by apply Hr]. intros [= ->].
    apply last_Some_elem_of, list_elem_of_filter in El as [Hn [e [_ He]]%list_elem_of_omap].
    split; [done|]. by eapply entry_manifest_ok.
Qed.
End Theorems.

(** *** The builder *)

(** The calls on a builder; the presets are sequences of them. *)
Inductive builder_op :=
  | OpPatternsDir (dir : string)
  | OpIsolation (level : IsolationLevel)
  | OpResync (interval : Z)
  | OpBackOff (period : Z)
  | OpCPU (limit : float64)
  | OpMemory (limit : string)
  | OpDevelopment
  | OpProduction
  | OpConfig (config : option Config).

Definition apply_op (b : ServiceBuilder) (op : builder_op) : ServiceBuilder :=
  match op with
  | OpPatternsDir dir => WithPatternsDir dir b
  | OpIsolation level => WithDefaultIsolation level b
  | OpResync i => Builder_WithResyncInterval i b
  | OpBackOff p => Builder_WithBackOffPeriod p b
  | OpCPU l => WithCPULimit l b
  | OpMemory l => WithMemoryLimit l b
  | OpDevelopment => WithDevelopmentDefaults b
  | OpProduction => WithProductionDefaults b
  | OpConfig c => WithConfig c b
  end.

(** What is wrong with a call, taken alone. *)
Definition op_error (op : builder_op) : option builder_error :=
  match op with
  | OpPatternsDir dir => if bool_decide (dir = ""%string) then Some ErrPatternsDir else None
  | OpResync i => if i <? Second then Some ErrResyncInterval else None
  | OpBackOff p => if p <? 0 then Some ErrBackOffPeriod else None
  | OpCPU l => if f64_leb l f64_zero then Some ErrCPULimit else None
  | OpMemory l => if bool_decide (l = ""%string) then Some ErrMemoryLimit else None
  | OpConfig None => Some ErrNilConfig
  | _ => None
  end.

(** A configuration that is handed in whole is only checked by [Build]. *)
Definition op_checked (op : builder_op) : Prop :=
  match op with OpConfig (Some c) => validateConfig c = None | _ => True end.

Lemma apply_op_sticky b op e : sb_err b = Some e → apply_op b op = b.
Proof.
  intros He. destruct b as [c err]. simpl in He. subst err.
  destruct op as [| | | | | | | |[]]; done.
Qed.

Definition op_preset (op : builder_op) : list builder_op :=
  match op with
  | OpDevelopment => [OpResync (5 * Second); OpBackOff Second; OpIsolation IsolationNamespace]
  | OpProduction =>
      [OpResync (30 * Second); OpBackOff (5 * Second); OpIsolation IsolationNamespace;
       OpCPU f64_two; OpMemory "1Gi"]
  | _ => [op]
  end.

Lemma apply_op_preset b op : apply_op b op = foldl apply_op b (op_preset op).
Proof. by destruct op. Qed.

Lemma apply_single_spec b op :
  op_preset op = [op] → sb_err b = None → validateConfig (sb_config b) = None → op_checked op →
  sb_err (apply_op b op) = op_error op ∧ validateConfig (sb_config (apply_op b op)) = None.
Proof.
  destruct b as [[dir lv rs bo cpu mem] err]. simpl. intros Hp -> Hv Hc.
  unfold validateConfig in *. simpl in Hv. split_match_in Hv.
  destruct op as [d|l|i|p|f|s| | |[c|]]; try done; simpl in *;
    unfold WithPatternsDir, WithDefaultIsolation, Builder_WithResyncInterval,
      Builder_WithBackOffPeriod, WithCPULimit, WithMemoryLimit, WithConfig, builder_step; simpl;
    split_match; try done; congruence.
Qed.

Lemma apply_clean b ops :
  Forall (λ op, op_preset op = [op] ∧ op_checked op ∧ op_error op = None) ops →
  sb_err b = None → validateConfig (sb_config b) = None →
  sb_err (foldl apply_op b ops) = None ∧ validateConfig (sb_config (foldl apply_op b ops)) = None.
Proof.
  intros Hall. revert b. induction Hall as [|op ops (Hp & Hc & Ho) Hall IH]; intros b He Hv; simpl;
    [done|].
  destruct (apply_single_spec b op Hp He Hv Hc). apply IH; congruence.
Qed.

Lemma apply_op_spec b op :
  sb_err b = None → validateConfig (sb_config b) = None → op_checked op →
  sb_err (apply_op b op) = op_error op ∧ validateConfig (sb_config (apply_op b op)) = None.
Proof.
  intros He Hv Hc. destruct op; try by apply apply_single_spec.
  all: rewrite apply_op_preset; apply apply_clean; [by repeat constructor|done|done].
Qed.

(** The builder reports the first mistake of a chain of calls and nothing else:
    after any calls, the error is the one of the first bad call, and what it has built
    up is a configuration that [Build] accepts, provided that configurations handed in
    whole are acceptable themselves. *)
Theorem builder_reports_first_error ops :
  Forall op_checked ops →
  let b := foldl apply_op NewBuilder ops in
  sb_err b = head (omap op_error ops) ∧ validateConfig (sb_config b) = None.
Proof.
  intros Hall. assert (∀ b, sb_err b = None → validateConfig (sb_config b) = None →
    let b' := foldl apply_op b ops in
    sb_err b' = head (omap op_error ops) ∧ validateConfig (sb_config b') = None) as H;
    [|by apply H].
  induction Hall as [|op ops Hop Hall IH]; intros b Hb Hv; simpl; [done|].
  destruct (apply_op_spec b op Hb Hv Hop) as [He Hv'].
  destruct (op_error op) as [e|]; [|by apply IH]. simpl.
  assert (foldl apply_op (apply_op b op) ops = apply_op b op) as ->; [|done].
  clear IH Hall. induction ops as [|op' ops IH]; simpl; [done|]. by rewrite (apply_op_sticky _ _ e).
Qed.

Module LauncherDemo.
Definition manifest (port : Z) : Manifest :=
  mkManifest "consumer" "1.0" "bin/run" "namespace"
    (mkHealthCheckConfig port "/health" 0 0 0) ∅ "".

(** Three subdirectories: two with manifests (one of them with a bad port), one without. *)
Definition files : FileSystem :=
  mkFileSystem (Some "/home"%string)
    (λ path, if bool_decide (path = "/home/patterns/a/manifest.yaml"%string) then Some [1]
             else if bool_decide (path = "/home/patterns/b/manifest.yaml"%string) then Some [2]
             else None)
    (λ path, if bool_decide (path ∈ ["/home/patterns"; "/home/patterns/a/manifest.yaml";
                                     "/home/patterns/b/manifest.yaml"]%string) then Some 420
             else if bool_decide (path ∈ ["/home/patterns/a/bin/run"; "/home/patterns/b/bin/run"]%string)
             then Some 493 else None)
    (λ _, Some [("a", true); ("README", false); ("b", true); ("c", true)]%string).
Definition yaml (data : list Z) : option Manifest :=
  if bool_decide (data = [1]) then Some (manifest 8080) else Some (manifest 99999).

Lemma files_ok : fs_ok files.
Proof. by intros wd [= <-]. Qed.

Lemma Discover_correct_witness :
  (Discover files yaml (NewRegistry "/home/patterns")).2 = None ∧
  registry_ok files (Discover files yaml (NewRegistry "/home/patterns")).1.
Proof.
  pose proof (Discover_correct files yaml (NewRegistry "/home/patterns") files_ok) as H.
  destruct (Discover files yaml (NewRegistry "/home/patterns")) as [r' err] eqn:E.
  destruct H as [H Hr]. split; [|by apply Hr]. apply H. vm_compute. discriminate.
Defined.

Lemma builder_reports_first_error_witness :
  let b := foldl apply_op NewBuilder
             [OpPatternsDir "/srv"; OpBackOff (-1); OpDevelopment; OpMemory ""] in
  sb_err b = Some ErrBackOffPeriod ∧ validateConfig (sb_config b) = None.
Proof.
  apply (builder_reports_first_error [OpPatternsDir "/srv"; OpBackOff (-1); OpDevelopment; OpMemory ""]).
  by repeat constructor.
Defined.

(** Paths are cleaned the way the documentation of path/filepath says. *)
Example clean_examples :
  filepath.Clean "a//b/./c/.." = "a/b"%string ∧ filepath.Clean "/../a" = "/a"%string ∧
  filepath.Clean "" = "."%string ∧ filepath.Clean "../../x" = "../../x"%string ∧
  filepath.Dir "/a/b/m.yaml" = "/a/b"%string ∧ filepath.Dir "m.yaml" = "."%string ∧
  filepath.Join "/a/b" "../c" = "/a/c"%string.
Proof. by vm_compute. Qed.

(** A CPU limit that is not a number passes every check. *)
Example nan_cpu_limit_is_accepted :
  validateConfig (sb_config (WithCPULimit S754_nan NewBuilder)) = None ∧
  sb_err (WithCPULimit S754_nan NewBuilder) = None.
Proof. by vm_compute. Qed.

(** A reload that fails leaves no pattern registered. *)
Example failed_reload_forgets_patterns :
  let r := (Discover files yaml (NewRegistry "/home/patterns")).1 in
  let gone := mkFileSystem (Some "/home"%string) (λ _, None) (λ _, None) (λ _, None) in
  Count r = 1 ∧ Count (Reload gone yaml r).1 = 0.
Proof. by vm_compute. Qed.
End LauncherDemo.
