(* ===== verification/LauncherMetrics.v ===== *)
(** * pkg/launcher/metrics.go: counters and launch latencies

    The collector counts lifecycle events per pattern and isolation level and keeps the
    last thousand launch durations.  The percentiles are taken from an array that two
    nested loops sort in place; the loops are modelled index by index.  [ProcessInfo]
    and the map of tracked processes, which a snapshot counts, are those of service.go.
    The text exports are left out. *)

From S2P Require Import Prelude Isolation.
Local Open Scope Z_scope.

(** ** service.go: tracked processes *)

Record ProcessInfo := mkProcessInfo {
  pi_ProcessID : string;
  pi_PatternName : string;
  pi_Namespace : string;
  pi_SessionID : string;
  pi_Isolation : IsolationLevel;
  pi_Address : string;
  pi_PID : Z;
  pi_StartTime : Z;
  pi_Config : gmap string string }.

(** [String] of an isolation level. *)
Definition level_String (level : IsolationLevel) : string :=
  match level with
  | IsolationNone => "None"
  | IsolationNamespace => "Namespace"
  | IsolationSession => "Session"
  | IsolationOther _ => "Unknown"
  end.

(** ** metrics.go *)

Record launchDuration := mkLaunchDuration {
  ld_PatternName : string;
  ld_Isolation : IsolationLevel;
  ld_Duration : Z;
  ld_Success : bool;
  ld_Timestamp : Z }.

Abbreviation counters := (gmap string Z).

Record MetricsCollector := mkMetricsCollector {
  mc_starts : counters;
  mc_stops : counters;
  mc_failures : counters;
  mc_restarts : counters;
  mc_healthOk : counters;
  mc_healthFail : counters;
  mc_launchDurations : list launchDuration;
  mc_startTime : Z }.

Definition NewMetricsCollector (now : Z) : MetricsCollector :=
  mkMetricsCollector ∅ ∅ ∅ ∅ ∅ ∅ [] now.

(** [m[key]++]: a missing key counts as zero. *)
Definition incr (key : string) (m : counters) : counters :=
  <[key := wrap64 (default 0 (m !! key) + 1)]> m.

Definition level_key (patternName : string) (isolation : IsolationLevel) : string :=
  (patternName +:+ ":" +:+ level_String isolation)%string.

Definition RecordProcessStart (patternName : string) (isolation : IsolationLevel)
    (mc : MetricsCollector) : MetricsCollector :=
  mkMetricsCollector (incr (level_key patternName isolation) (mc_starts mc)) (mc_stops mc)
    (mc_failures mc) (mc_restarts mc) (mc_healthOk mc) (mc_healthFail mc)
    (mc_launchDurations mc) (mc_startTime mc).
Definition RecordProcessStop (patternName : string) (isolation : IsolationLevel)
    (mc : MetricsCollector) : MetricsCollector :=
  mkMetricsCollector (mc_starts mc) (incr (level_key patternName isolation) (mc_stops mc))
    (mc_failures mc) (mc_restarts mc) (mc_healthOk mc) (mc_healthFail mc)
    (mc_launchDurations mc) (mc_startTime mc).
Definition RecordProcessFailure (patternName : string) (isolation : IsolationLevel)
    (mc : MetricsCollector) : MetricsCollector :=
  mkMetricsCollector (mc_starts mc) (mc_stops mc)
    (incr (level_key patternName isolation) (mc_failures mc)) (mc_restarts mc) (mc_healthOk mc)
    (mc_healthFail mc) (mc_launchDurations mc) (mc_startTime mc).
Definition RecordProcessRestart (patternName : string) (isolation : IsolationLevel)
    (mc : MetricsCollector) : MetricsCollector :=
  mkMetricsCollector (mc_starts mc) (mc_stops mc) (mc_failures mc)
    (incr (level_key patternName isolation) (mc_restarts mc)) (mc_healthOk mc)
    (mc_healthFail mc) (mc_launchDurations mc) (mc_startTime mc).
Definition RecordHealthCheckSuccess (patternName : string) (mc : MetricsCollector)
    : MetricsCollector :=
  mkMetricsCollector (mc_starts mc) (mc_stops mc) (mc_failures mc) (mc_restarts mc)
    (incr patternName (mc_healthOk mc)) (mc_healthFail mc) (mc_launchDurations mc)
    (mc_startTime mc).
Definition RecordHealthCheckFailure (patternName : string) (mc : MetricsCollector)
    : MetricsCollector :=
  mkMetricsCollector (mc_starts mc) (mc_stops mc) (mc_failures mc) (mc_restarts mc)
    (mc_healthOk mc) (incr patternName (mc_healthFail mc)) (mc_launchDurations mc)
    (mc_startTime mc).

Definition RecordLaunchDuration (now : Z) (patternName : string) (isolation : IsolationLevel)
    (duration : Z) (success : bool) (mc : MetricsCollector) : MetricsCollector :=
  let ds := mc_launchDurations mc in
  let ds := if 1000 <=? Z.of_nat (length ds) then drop 1 ds else ds in
  mkMetricsCollector (mc_starts mc) (mc_stops mc) (mc_failures mc) (mc_restarts mc)
    (mc_healthOk mc) (mc_healthFail mc)
    (ds ++ [mkLaunchDuration patternName isolation duration success now]) (mc_startTime mc).

(** *** Percentiles *)

(** The body of the inner loop: exchange [d[i]] and [d[j]] when they are out of order. *)
Definition exchange (i : nat) (d : list Z) (j : nat) : list Z :=
  match d !! i, d !! j with
  | Some x, Some y => if y <? x then <[i := y]> (<[j := x]> d) else d
  | _, _ => d
  end.
Definition inner_loop (d : list Z) (i : nat) : list Z :=
  foldl (exchange i) d (seq (S i) (length d - S i)).
Definition sort_durations (d : list Z) : list Z := foldl inner_loop d (seq 0 (length d)).

Definition percentile_index (n q : Z) : Z :=
  let i := n * q / 100 in if n <=? i then n - 1 else i.

Definition calculateLatencyPercentiles (mc : MetricsCollector) : Z * Z * Z :=
  match mc_launchDurations mc with
  | [] => (0, 0, 0)
  | ds =>
      let d := sort_durations (ld_Duration <$> ds) in
      let n := Z.of_nat (length d) in
      let at_ q := default 0 (d !! Z.to_nat (percentile_index n q)) in
      (at_ 50, at_ 95, at_ 99)
  end.

(** *** Snapshots *)

Record MetricsSnapshot := mkMetricsSnapshot {
  sn_TotalProcesses : Z;
  sn_RunningProcesses : Z;
  sn_TerminatingProcesses : Z;
  sn_FailedProcesses : Z;
  sn_IsolationDistribution : counters;
  sn_starts : counters;
  sn_stops : counters;
  sn_failures : counters;
  sn_restarts : counters;
  sn_healthOk : counters;
  sn_healthFail : counters;
  sn_P50 : Z;
  sn_P95 : Z;
  sn_P99 : Z;
  sn_UptimeSeconds : Z }.

(** The loop that copies a map entry by entry. *)
Definition copyCounterMap (m : counters) : counters :=
  foldl (λ copy e, <[e.1 := e.2]> copy) ∅ (map_to_list m).

(** The loop over the tracked processes. *)
Definition count_process (acc : Z * counters) (e : string * ProcessInfo) : Z * counters :=
  (acc.1 + 1, incr (level_String (pi_Isolation e.2)) acc.2).

Definition GetMetrics (now : Z) (processes : gmap string ProcessInfo) (mc : MetricsCollector)
    : MetricsSnapshot :=
  let '(running, dist) := foldl count_process (0, ∅) (map_to_list processes) in
  let '(p50, p95, p99) := calculateLatencyPercentiles mc in
  mkMetricsSnapshot (Z.of_nat (size processes)) running 0 0 dist
    (copyCounterMap (mc_starts mc)) (copyCounterMap (mc_stops mc))
    (copyCounterMap (mc_failures mc)) (copyCounterMap (mc_restarts mc))
    (copyCounterMap (mc_healthOk mc)) (copyCounterMap (mc_healthFail mc))
    p50 p95 p99 ((now - mc_startTime mc) ÷ Second).

(** ** The sort *)

(** The first [i] entries are in place: none of them is above a later one. *)
Definition placed (i : nat) (d : list Z) : Prop :=
  ∀ a b x y, (a < i)%nat → (a ≤ b)%nat → d !! a = Some x → d !! b = Some y → x ≤ y.

(** The entry at [i] is not above those from [i] up to [j]. *)
Definition lowest (i j : nat) (d : list Z) : Prop :=
  ∀ b x y, (i ≤ b < j)%nat → d !! i = Some x → d !! b = Some y → x ≤ y.

Lemma exchange_lookup i j d x y :
  i ≠ j → d !! i = Some x → d !! j = Some y →
  exchange i d j !! i = Some (x `min` y) ∧ exchange i d j !! j = Some (x `max` y) ∧
  ∀ k, k ≠ i → k ≠ j → exchange i d j !! k = d !! k.
Proof.
  intros Hne Hi Hj. pose proof (lookup_lt_Some _ _ _ Hi). pose proof (lookup_lt_Some _ _ _ Hj).
  unfold exchange. rewrite Hi, Hj. destruct (Z.ltb_spec y x).
  - rewrite Z.min_r, Z.max_l by lia. split_and!.
    + apply list_lookup_insert_eq. by rewrite length_insert.
    + by rewrite list_lookup_insert_ne, list_lookup_insert_eq.
    + intros k ??. by rewrite !list_lookup_insert_ne.
  - rewrite Z.min_l, Z.max_r by lia. done.
Qed.

Lemma exchange_Permutation i d j : exchange i d j ≡ₚ d.
Proof.
  unfold exchange. destruct (d !! i) as [x|] eqn:Hi; [|done].
  destruct (d !! j) as [y|] eqn:Hj; [|done]. case_match; [|done].
  by apply Permutation_insert_swap.
Qed.

Lemma exchange_step i j d :
  (i < j < length d)%nat → placed i d → lowest i j d →
  placed i (exchange i d j) ∧ lowest i (S j) (exchange i d j).
Proof.
  intros Hij Hp Hl. destruct (lookup_lt_is_Some_2 d i) as [x Hi]; [lia|].
  destruct (lookup_lt_is_Some_2 d j) as [y Hj]; [lia|].
  destruct (exchange_lookup i j d x y) as (Ei & Ej & Ek); [lia|done|done|]. split.
  - intros a b u v Ha Hab. rewrite (Ek a) by lia. intros Hu Hv.
    destruct (decide (b = i)) as [->|]; [|destruct (decide (b = j)) as [->|]].
    + rewrite Ei in Hv. simplify_eq. apply Z.min_glb; [apply (Hp a i u x)|apply (Hp a j u y)]; (done || lia).
    + rewrite Ej in Hv. simplify_eq. transitivity x; [apply (Hp a i u x); (done || lia)|lia].
    + rewrite Ek in Hv by done. by apply (Hp a b).
  - intros b u v Hb. rewrite Ei. intros [= <-].
    destruct (decide (b = i)) as [->|]; [rewrite Ei; intros [= <-]; lia|].
    destruct (decide (b = j)) as [->|]; [rewrite Ej; intros [= <-]; lia|].
    rewrite Ek by done. intros Hv. transitivity x; [lia|].
    eapply (Hl b); [lia|done|done].
Qed.

(** The inner loop from [j] on. *)
Lemma inner_steps i k d j :
  (i < j)%nat → (j + k ≤ length d)%nat → placed i d → lowest i j d →
  let d' := foldl (exchange i) d (seq j k) in
  d' ≡ₚ d ∧ placed i d' ∧ lowest i (j + k) d'.
Proof.
  revert d j. induction k as [|k IH]; intros d j Hij Hk Hp Hl; simpl.
  { rewrite Nat.add_0_r. done. }
  destruct (exchange_step i j d) as [Hp' Hl']; [lia|done|done|].
  pose proof (exchange_Permutation i d j) as Hperm.
  destruct (IH (exchange i d j) (S j)) as (E & Hp2 & Hl2); [lia| |done|done|].
  { rewrite Hperm. lia. }
  replace (j + S k)%nat with (S j + k)%nat by lia. split_and!; [by rewrite E|done|done].
Qed.

Lemma inner_loop_spec d i :
  (i < length d)%nat → placed i d → inner_loop d i ≡ₚ d ∧ placed (S i) (inner_loop d i).
Proof.
  intros Hi Hp. destruct (inner_steps i (length d - S i) d (S i)) as (E & Hp' & Hl);
    [lia|lia|done| |].
  { intros b x y Hb Hx Hy. assert (b = i) as -> by lia. simplify_eq. lia. }
  split; [done|]. fold (inner_loop d i) in *.
  replace (S i + (length d - S i))%nat with (length d) in Hl by lia.
  intros a b x y Ha Hab Hx Hy. destruct (decide (a = i)) as [->|]; [|apply (Hp' a b); (done || lia)].
  eapply (Hl b); [|done|done]. apply lookup_lt_Some in Hy. rewrite E in Hy. lia.
Qed.

Lemma sort_durations_spec d :
  sort_durations d ≡ₚ d ∧ placed (length d) (sort_durations d).
Proof.
  assert (∀ k i d', (i + k = length d')%nat → placed i d' →
    let r := foldl inner_loop d' (seq i k) in r ≡ₚ d' ∧ placed (i + k) r) as H.
  { clear d. induction k as [|k IH]; intros i d Hk Hp; simpl; [rewrite Nat.add_0_r; done|].
    destruct (inner_loop_spec d i) as [E Hp']; [lia|done|].
    destruct (IH (S i) (inner_loop d i)) as [E2 Hp2]; [rewrite E; lia|done|].
    replace (i + S k)%nat with (S i + k)%nat by lia. split; [by rewrite E2|done]. }
  apply (H (length d) 0%nat d); [done|]. intros a b x y Ha. lia.
Qed.

Lemma placed_Sorted d n : (length d ≤ n)%nat → placed n d → Sorted Z.le d.
Proof.
  revert n. induction d as [|x d IH]; intros n Hn Hp; constructor.
  - apply (IH (n - 1)%nat); simpl in Hn; [lia|].
    intros a b u v Ha Hab Hu Hv. apply (Hp (S a) (S b) u v); [lia|lia|done|done].
  - destruct d as [|y d]; constructor. simpl in Hn. apply (Hp 0%nat 1%nat x y); [lia|lia|done|done].
Qed.

(** The in-place sort agrees with a merge sort. *)
Lemma sort_durations_merge_sort d : sort_durations d = merge_sort Z.le d.
Proof.
  destruct (sort_durations_spec d) as [E Hp]. apply (Sorted_unique Z.le).
  - apply (placed_Sorted _ (length d)); [by rewrite E|done].
  - apply (Sorted_merge_sort Z.le).
  - by rewrite merge_sort_Permutation.
Qed.

(** ** Ranks *)

Lemma sorted_rank d i (v : Z) :
  StronglySorted Z.le d → d !! i = Some v →
  (length (filter (λ x : Z, (x < v)%Z) d) ≤ i < length (filter (λ x : Z, (x ≤ v)%Z) d))%nat.
Proof.
  intros Hs Hi. pose proof (lookup_lt_Some _ _ _ Hi) as Hlt.
  rewrite <- (take_drop_middle _ _ _ Hi) in Hs |- *.
  apply StronglySorted_app in Hs as (Hle & _ & Hs).
  apply StronglySorted_inv in Hs as [_ Hge]. rewrite !filter_app, !length_app.
  rewrite filter_cons_False, filter_cons_True by lia. simpl.
  rewrite (filter_none (λ x, x < v) (drop (S i) d)), (filter_all (λ x, x ≤ v) (take i d)).
  - pose proof (length_filter (λ x, x < v) (take i d)). rewrite length_take in *. simpl. lia.
  - apply Forall_forall. intros x Hx. apply (Hle x v); [done|]. by left.
  - eapply Forall_impl; [exact Hge|]. simpl. lia.
Qed.

(** The value [v] has rank [i] in [d]: no more than [i] entries are below it, more than
    [i] are not above it. *)
Definition has_rank (d : list Z) (i : Z) (v : Z) : Prop :=
  v ∈ d ∧ Z.of_nat (length (filter (λ x, x < v) d)) ≤ i < Z.of_nat (length (filter (λ x, x ≤ v) d)).

Lemma percentile_index_bounds n q :
  0 < n → 0 ≤ q < 100 → 0 ≤ percentile_index n q < n ∧ percentile_index n q = n * q / 100.
Proof.
  intros Hn Hq. assert (0 ≤ n * q / 100 < n).
  { split; [apply Z.div_pos; lia|]. apply Z.div_lt_upper_bound; nia. }
  unfold percentile_index. case_match; bool_to_prop; lia.
Qed.

Lemma sorted_percentile d q :
  d ≠ [] → 0 ≤ q < 100 →
  let s := sort_durations d in
  has_rank d (Z.of_nat (length d) * q / 100)
    (default 0 (s !! Z.to_nat (percentile_index (Z.of_nat (length s)) q))).
Proof.
  intros Hd Hq s. destruct (sort_durations_spec d) as [Hp _]. fold s in Hp.
  assert (length s = length d) as El by (by rewrite Hp).
  assert (0 < Z.of_nat (length d)) by (destruct d; simpl; [done|lia]).
  destruct (percentile_index_bounds (Z.of_nat (length s)) q) as [Hb Ei]; [lia|done|].
  rewrite Ei, El in *. set (i := Z.of_nat (length d) * q / 100) in *.
  destruct (lookup_lt_is_Some_2 s (Z.to_nat i)) as [v Hv]; [lia|]. rewrite Hv. simpl.
  assert (StronglySorted Z.le s) as Hs.
  { unfold s. rewrite sort_durations_merge_sort. by apply (StronglySorted_merge_sort Z.le). }
  pose proof (sorted_rank s (Z.to_nat i) v Hs Hv) as Hr. split.
  - rewrite <- Hp. by eapply list_elem_of_lookup_2.
  - rewrite <- !Hp at 1 2. lia.
Qed.

(** ** Theorems *)

Lemma copy_fold (l : list (string * Z)) (m : counters) :
  NoDup l.*1 → foldl (λ copy e, <[e.1 := e.2]> copy) m l = list_to_map l ∪ m.
Proof.
  revert m. induction l as [|[k v] l IH]; intros m; simpl; [by rewrite (left_id_L ∅ (∪))|].
  intros [Hk Hnd]%NoDup_cons. rewrite IH by done. simpl.
  rewrite <- insert_union_r by (by apply not_elem_of_list_to_map_1). by rewrite insert_union_l.
Qed.

Lemma copyCounterMap_id m : copyCounterMap m = m.
Proof.
  unfold copyCounterMap. rewrite copy_fold by apply NoDup_fst_map_to_list.
  by rewrite list_to_map_to_list, (right_id_L ∅ (∪)).
Qed.

Definition at_level (lv : string) (l : list (string * ProcessInfo)) : Z :=
  Z.of_nat (length (filter (λ e, level_String (pi_Isolation e.2) = lv) l)).

Lemma count_process_fold l n (dist : counters) lv :
  0 ≤ default 0 (dist !! lv) → default 0 (dist !! lv) + Z.of_nat (length l) ≤ max_int64 →
  let r := foldl count_process (n, dist) l in
  r.1 = n + Z.of_nat (length l) ∧ default 0 (r.2 !! lv) = default 0 (dist !! lv) + at_level lv l.
Proof.
  revert n dist. induction l as [|e l IH]; intros n dist H0 Hmax; simpl; [unfold at_level; simpl; lia|].
  simpl in Hmax. set (dist' := incr (level_String (pi_Isolation e.2)) dist).
  assert (default 0 (dist' !! lv) =
          default 0 (dist !! lv) + (if decide (level_String (pi_Isolation e.2) = lv) then 1 else 0)) as E.
  { unfold dist', incr. destruct (decide _) as [<-|Hne].
    - rewrite lookup_insert_eq. simpl. apply wrap64_id. unfold in_int64, min_int64. lia.
    - rewrite lookup_insert_ne by done. lia. }
  destruct (IH (n + 1) dist') as [E1 E2]; [rewrite E; case_decide; lia|rewrite E; case_decide; lia|].
  change (count_process (n, dist) e) with (n + 1, dist').
  rewrite E1, E2, E. unfold at_level.
  rewrite filter_cons. case_decide; simpl; lia.
Qed.

(** A snapshot: the counters are those of the collector, every tracked process is
    counted as running, and once under its isolation level. *)
Lemma GetMetrics_spec now ps mc lv :
  Z.of_nat (size ps) ≤ max_int64 →
  let s := GetMetrics now ps mc in
  sn_TotalProcesses s = Z.of_nat (size ps) ∧ sn_RunningProcesses s = Z.of_nat (size ps) ∧
  default 0 (sn_IsolationDistribution s !! lv) = at_level lv (map_to_list ps) ∧
  sn_starts s = mc_starts mc ∧ sn_stops s = mc_stops mc ∧ sn_failures s = mc_failures mc ∧
  sn_restarts s = mc_restarts mc.
Proof.
  intros Hmax. unfold GetMetrics.
  destruct (count_process_fold (map_to_list ps) 0 ∅ lv) as [E1 E2]; [done| |].
  { rewrite lookup_empty, length_map_to_list. done. }
  destruct (foldl _ _ _) as [n dist]. destruct (calculateLatencyPercentiles mc) as [[p50 p95] p99].
  simpl in *. rewrite !copyCounterMap_id, E1, E2, lookup_empty, length_map_to_list. done.
Qed.

(** The collector keeps the last thousand launches. *)
Lemma launch_window mc ls :
  (length (mc_launchDurations mc) ≤ 1000)%nat →
  mc_launchDurations
    (foldl (λ mc l, RecordLaunchDuration (ld_Timestamp l) (ld_PatternName l) (ld_Isolation l)
                      (ld_Duration l) (ld_Success l) mc) mc ls) =
  let all := mc_launchDurations mc ++ ls in drop (length all - 1000) all.
Proof.
  revert mc. induction ls as [|l ls IH]; intros mc Hlen; simpl.
  { rewrite app_nil_r. replace (_ - 1000)%nat with 0%nat by lia. done. }
  set (ds := mc_launchDurations mc) in *.
  set (ds' := if 1000 <=? Z.of_nat (length ds) then drop 1 ds else ds).
  assert (length ds' ≤ 999)%nat as Hd.
  { unfold ds'. case_match; bool_to_prop; rewrite ?length_drop; lia. }
  rewrite IH; simpl; fold ds ds'; [|rewrite length_app; simpl; lia].
  replace (mkLaunchDuration _ _ _ _ _) with l by (by destruct l).
  rewrite <- (assoc_L (++)). simpl. unfold ds' in *. case_match eqn:E; [|done]. bool_to_prop.
  destruct ds as [|x ds0]; simpl in *; [lia|]. rewrite drop_0, !length_app. simpl.
  replace (length ds0 + S (length ls) - 999)%nat with
    (S (length ds0 + S (length ls) - 1000))%nat by lia. done.
Qed.

(** Launch latencies: the percentiles a snapshot reports are values that were
    recorded, and they have the ranks their names say among the recorded durations,
    whatever their order: no more than 50 (95, 99) of a hundred are shorter, and more
    are not longer.  Without a launch all are zero. *)
Theorem latency_percentiles_correct mc p50 p95 p99 :
  calculateLatencyPercentiles mc = (p50, p95, p99) →
  let d := ld_Duration <$> mc_launchDurations mc in
  let n := Z.of_nat (length d) in
  (d = [] → p50 = 0 ∧ p95 = 0 ∧ p99 = 0) ∧
  (d ≠ [] → has_rank d (n * 50 / 100) p50 ∧ has_rank d (n * 95 / 100) p95 ∧
             has_rank d (n * 99 / 100) p99).
Proof.
  unfold calculateLatencyPercentiles. destruct (mc_launchDurations mc) as [|l ls].
  { intros [= <- <- <-]. done. }
  set (d := ld_Duration <$> l :: ls). intros [= <- <- <-]. split; [done|]. intros Hd.
  split_and!; by apply sorted_percentile.
Qed.

Module MetricsDemo.
Definition launched (ds : list Z) : MetricsCollector :=
  foldl (λ mc d, RecordLaunchDuration 0 "p" IsolationNone d true mc) (NewMetricsCollector 0) ds.

Lemma latency_percentiles_correct_witness :
  let d := [7; 3; 9; 3; 1] in
  (d = [] → 3 = 0 ∧ 9 = 0 ∧ 9 = 0) ∧
  (d ≠ [] → has_rank d 2 3 ∧ has_rank d 4 9 ∧ has_rank d 4 9).
Proof.
  apply (latency_percentiles_correct (launched [7; 3; 9; 3; 1]) 3 9 9). vm_compute. reflexivity.
Defined.
End MetricsDemo.
