(* ===== verification/LauncherService.v ===== *)
(** * pkg/launcher: the service and its process syncer

    service.go, syncer.go and cleanup.go on top of the isolation managers.  A
    [Launcher] has the service (tracked processes, metrics), one isolation manager per
    level, and the syncer that the three managers share.  The RPCs [LaunchPattern] and
    [TerminatePattern] block in calls of a manager, and [SyncProcess] starts operating
    system processes and waits for them to become healthy; all of them are program
    counters, and [la_exec] runs one step: a section under a lock, or a call of a
    manager or of the operating system.

    The operating system answers through [sync_env]; what it is asked for is logged in
    [la_os].  Handles are pointers, so they live in a heap: a sync keeps the pointer it
    read while the map changes.  [Process] of a handle is never nil.  Process ids are
    unique as long as a process is tracked, which nothing here relies on.  Log lines,
    [time.Sleep] and the cancellation of the command's context are left out. *)

From S2P Require Import Prelude WorkQueue Backoff ProcMgr Isolation Launcher LauncherMetrics.
Import GoFloat.
Local Open Scope Z_scope.

(** ** Data *)

Record processConfig := mkProcessConfigL {
  pcg_PatternName : string;
  pcg_Manifest : Manifest;
  pcg_Key : IsolationKey;
  pcg_Config : gmap string string }.

Record processHandle := mkProcessHandleL {
  ph_PID : Z;
  ph_Config : processConfig;
  ph_StartTime : Z;
  ph_GRPCPort : Z;
  ph_HealthPort : Z;
  ph_RestartCount : Z;
  ph_LastError : option string;
  ph_ErrorCount : Z;
  ph_LastHealthy : Z }.

Definition set_health (restarts errors : Z) (lastError : option string) (lastHealthy : Z)
    (h : processHandle) : processHandle :=
  mkProcessHandleL (ph_PID h) (ph_Config h) (ph_StartTime h) (ph_GRPCPort h) (ph_HealthPort h)
    restarts lastError errors lastHealthy.

(** [patternProcessSyncer]: the handles by process id, and their heap. *)
Record Syncer := mkSyncer {
  sy_processes : gmap ProcessID nat;
  sy_heap : gmap nat processHandle;
  sy_next : nat }.

Inductive os_event :=
  | OsStart (pid grpcPort : Z) (config : processConfig)
  | OsKill (pid : Z)
  | OsTerm (pid : Z).

(** How a wait for a process that got SIGTERM ends. *)
Inductive term_outcome := TExited | TKilled | TKillFailed | TSurvived.

(** The answers of the operating system and of the health endpoint. *)
Record sync_env := mkSyncEnv {
  se_alive : bool;
  se_healthy : bool;
  se_start : option Z;
  se_failures : nat  (* failed checks while waiting *);
  se_becomes_healthy : bool;
  se_term : term_outcome }.

(** Where a call of [SyncProcess] is, with its configuration, the handle it found and
    the new handle. *)
Inductive sync_pc :=
  | SLaunch (pc : processConfig) (h : option nat)
  | SStore (pc : processConfig) (h : option nat) (new : processHandle)
  | SWait (pc : processConfig) (h : option nat) (new : nat).

Record LaunchRequest := mkLaunchRequest {
  lr_PatternName : string;
  lr_Isolation : Z;
  lr_Namespace : string;
  lr_SessionId : string;
  lr_Config : gmap string string;
  lr_GracePeriodSecs : Z }.

Record TerminateRequest := mkTerminateRequest {
  tr_ProcessId : string;
  tr_GracePeriodSecs : Z }.

Inductive rpc := RpcLaunch (req : LaunchRequest) | RpcTerminate (req : TerminateRequest).

Record LaunchResponse := mkLaunchResponse {
  lp_ProcessId : string;
  lp_Address : string;
  lp_Healthy : bool }.

Section Service.
Context {Q : Type} `{!DelayQueue Q} (ovf : Z) (config : Config).

Abbreviation Cfg := (option (@ProcessConfig processConfig)).
Abbreviation IsoManager := (@IsolationManager processConfig Q).

(** ** State *)

Inductive rpc_error :=
  | ErrPatternNameRequired
  | ErrPatternUnknown (name : string)
  | ErrNamespaceRequired
  | ErrSessionRequired
  | ErrNoManager (level : IsolationLevel)
  | ErrLaunchFailed (a : @answer processConfig)
  | ErrProcessUnknown (id : string).

Inductive rpc_answer :=
  | LaunchOk (resp : LaunchResponse)
  | TerminateResponse (success : bool) (error : option (@answer processConfig))
  | RpcErr (e : rpc_error).

Inductive rpc_pc :=
  | RpcStart
  | LaunchWait (level : IsolationLevel) (call : nat) (launchStart : Z)
  | LaunchRecord (level : IsolationLevel) (h : @ProcessHandle processConfig)
  | LaunchReply (h : @ProcessHandle processConfig)
  | TermWait (info : ProcessInfo) (call : nat)
  | TermRemove (info : ProcessInfo)
  | RpcDone (a : rpc_answer).

Record Launcher := mkLauncher {
  la_registry : Registry;
  la_processes : gmap string ProcessInfo;
  la_metrics : MetricsCollector;
  la_none : IsoManager;
  la_namespace : IsoManager;
  la_session : IsoManager;
  la_syncer : Syncer;
  la_syncs : gmap (nat * nat) sync_pc  (* by manager and worker *);
  la_rpcs : list (rpc * rpc_pc);
  la_os : list os_event;
  la_panicked : bool }.

Definition set_tracked (m : gmap string ProcessInfo) (la : Launcher) : Launcher :=
  mkLauncher (la_registry la) m (la_metrics la) (la_none la) (la_namespace la) (la_session la)
    (la_syncer la) (la_syncs la) (la_rpcs la) (la_os la) (la_panicked la).
Definition set_lmetrics (m : MetricsCollector) (la : Launcher) : Launcher :=
  mkLauncher (la_registry la) (la_processes la) m (la_none la) (la_namespace la) (la_session la)
    (la_syncer la) (la_syncs la) (la_rpcs la) (la_os la) (la_panicked la).
Definition set_syncer (s : Syncer) (la : Launcher) : Launcher :=
  mkLauncher (la_registry la) (la_processes la) (la_metrics la) (la_none la) (la_namespace la)
    (la_session la) s (la_syncs la) (la_rpcs la) (la_os la) (la_panicked la).
Definition set_syncs (s : gmap (nat * nat) sync_pc) (la : Launcher) : Launcher :=
  mkLauncher (la_registry la) (la_processes la) (la_metrics la) (la_none la) (la_namespace la)
    (la_session la) (la_syncer la) s (la_rpcs la) (la_os la) (la_panicked la).
Definition set_rpcs (r : list (rpc * rpc_pc)) (la : Launcher) : Launcher :=
  mkLauncher (la_registry la) (la_processes la) (la_metrics la) (la_none la) (la_namespace la)
    (la_session la) (la_syncer la) (la_syncs la) r (la_os la) (la_panicked la).
Definition os_log (es : list os_event) (la : Launcher) : Launcher :=
  mkLauncher (la_registry la) (la_processes la) (la_metrics la) (la_none la) (la_namespace la)
    (la_session la) (la_syncer la) (la_syncs la) (la_rpcs la) (la_os la ++ es) (la_panicked la).
Definition panic (la : Launcher) : Launcher :=
  mkLauncher (la_registry la) (la_processes la) (la_metrics la) (la_none la) (la_namespace la)
    (la_session la) (la_syncer la) (la_syncs la) (la_rpcs la) (la_os la) true.

(** [s.isolationManagers[level]]. *)
Definition get_mgr (level : IsolationLevel) (la : Launcher) : option IsoManager :=
  match level with
  | IsolationNone => Some (la_none la)
  | IsolationNamespace => Some (la_namespace la)
  | IsolationSession => Some (la_session la)
  | IsolationOther _ => None
  end.
Definition put_mgr (level : IsolationLevel) (im : IsoManager) (la : Launcher) : Launcher :=
  let put n ns s :=
    mkLauncher (la_registry la) (la_processes la) (la_metrics la) n ns s (la_syncer la)
      (la_syncs la) (la_rpcs la) (la_os la) (la_panicked la) in
  match level with
  | IsolationNone => put im (la_namespace la) (la_session la)
  | IsolationNamespace => put (la_none la) im (la_session la)
  | IsolationSession => put (la_none la) (la_namespace la) im
  | IsolationOther _ => la
  end.
Definition level_index (level : IsolationLevel) : nat :=
  match level with
  | IsolationNone => 0
  | IsolationNamespace => 1
  | IsolationSession => 2
  | IsolationOther _ => 3
  end.

(** ** NewService *)

Definition manager_opts : list Option :=
  [WithResyncInterval (lc_ResyncInterval config); WithBackOffPeriod (lc_BackOffPeriod config)].
Definition manager_config : PMConfig :=
  (NewIsolationManager (B := processConfig) (Q := Q) IsolationNone manager_opts).1.
Definition new_manager (level : IsolationLevel) : IsoManager :=
  (NewIsolationManager level manager_opts).2.

(** The service over a registry whose discovery succeeded. *)
Definition NewService (now : Z) (registry : Registry) : Launcher :=
  mkLauncher registry ∅ (NewMetricsCollector now) (new_manager IsolationNone)
    (new_manager IsolationNamespace) (new_manager IsolationSession)
    (mkSyncer ∅ ∅ 0) ∅ [] [] false.

Definition protoToIsolationLevel (level : Z) : IsolationLevel :=
  if level =? 1 then IsolationNone
  else if level =? 2 then IsolationNamespace
  else if level =? 3 then IsolationSession
  else lc_DefaultIsolation config.

(** ** The syncer *)

(** The id under which the syncer files the process of a configuration. *)
Definition sync_id (pc : processConfig) : ProcessID :=
  key_ProcessID (lc_DefaultIsolation config) (pcg_Key pc).

Definition handle_at (loc : nat) (la : Launcher) : option processHandle :=
  sy_heap (la_syncer la) !! loc.
Definition put_handle (loc : nat) (h : processHandle) (la : Launcher) : Launcher :=
  let s := la_syncer la in
  set_syncer (mkSyncer (sy_processes s) (<[loc := h]> (sy_heap s)) (sy_next s)) la.

(** One health check, counted. *)
Definition checkHealth (ok : bool) (pc : processConfig) (la : Launcher) : Launcher :=
  set_lmetrics ((if ok then RecordHealthCheckSuccess else RecordHealthCheckFailure)
                  (pcg_PatternName pc) (la_metrics la)) la.

(** The polls of [waitForHealthy]. *)
Definition waitForHealthy (env : sync_env) (pc : processConfig) (la : Launcher) : Launcher :=
  let la := Nat.iter (se_failures env) (checkHealth false pc) la in
  if se_becomes_healthy env then checkHealth true pc la else la.

Definition restart_level (h : processHandle) : IsolationLevel :=
  let level := mf_IsolationLevel (pcg_Manifest (ph_Config h)) in
  if bool_decide (level = "none"%string) then IsolationNone
  else if bool_decide (level = "namespace"%string) then IsolationNamespace
  else if bool_decide (level = "session"%string) then IsolationSession
  else lc_DefaultIsolation config.

Definition maxErrors : Z := 5.

(** A sync goes on, or returns [(terminal, err)]. *)
Definition sync_outcome : Type := sync_pc + (bool * option go_error).

(** [SyncProcess] up to the launch: look at the process that is there. *)
Definition sync_check (now : Z) (env : sync_env) (pc : processConfig) (la : Launcher)
    : Launcher * sync_outcome :=
  match sy_processes (la_syncer la) !! sync_id pc with
  | None => (la, inl (SLaunch pc None))
  | Some loc =>
      match handle_at loc la with
      | None => (la, inl (SLaunch pc (Some loc)))
      | Some h =>
          if se_alive env then
            let la := checkHealth (se_healthy env) (ph_Config h) la in
            if se_healthy env then
              (put_handle loc (set_health (ph_RestartCount h) 0 (ph_LastError h) now h) la,
               inr (false, None))
            else
              let errors := ph_ErrorCount h + 1 in
              let la := put_handle loc (set_health (ph_RestartCount h) errors (ph_LastError h)
                                          (ph_LastHealthy h) h) la in
              let la := os_log [OsKill (ph_PID h)] la in
              if maxErrors <=? errors then
                (la, inr (true, Some (ErrSync "process exceeded max consecutive errors")))
              else (la, inl (SLaunch pc (Some loc)))
          else
            let la := put_handle loc (set_health (ph_RestartCount h + 1) (ph_ErrorCount h)
                                        (ph_LastError h) (ph_LastHealthy h) h) la in
            (set_lmetrics (RecordProcessRestart (pcg_PatternName pc) (restart_level h)
                             (la_metrics la)) la,
             inl (SLaunch pc (Some loc)))
      end
  end.

Definition allocatePort (la : Launcher) : Z :=
  50051 + Z.of_nat (size (sy_processes (la_syncer la))) * 10.

Definition launchProcess (now : Z) (pid : Z) (pc : processConfig) (la : Launcher) : processHandle :=
  let grpcPort := allocatePort la in
  mkProcessHandleL pid pc now grpcPort (grpcPort + 1) 0 None 0 0.

(** The environment of the process, later entries override earlier ones; the two maps
    are ranged over in any order. *)
Definition process_env (inherited : list (string * string)) (id : ProcessID) (h : processHandle)
    (show : Z → string) : list (string * string) :=
  let pc := ph_Config h in
  inherited ++
  [("PATTERN_NAME"%string, pcg_PatternName pc);
   ("NAMESPACE"%string, ik_Namespace (pcg_Key pc));
   ("SESSION_ID"%string, ik_Session (pcg_Key pc));
   ("GRPC_PORT"%string, show (ph_GRPCPort h));
   ("HEALTH_PORT"%string, show (ph_HealthPort h));
   ("PROCESS_ID"%string, id)] ++
  map_to_list (pcg_Config pc) ++ map_to_list (mf_Environment (pcg_Manifest pc)).

(** Start a process; the counters of the handle it replaces are carried over. *)
Definition sync_launch (now : Z) (env : sync_env) (h : option nat) (pc : processConfig)
    (la : Launcher) : Launcher * sync_outcome :=
  let old := h ≫= λ loc, (loc,.) <$> handle_at loc la in
  match se_start env with
  | None =>
      (match old with
       | Some (loc, o) =>
           put_handle loc (set_health (ph_RestartCount o) (ph_ErrorCount o + 1)
                             (Some "start process"%string) (ph_LastHealthy o) o) la
       | None => la
       end, inr (false, Some (ErrSync "launch process")))
  | Some pid =>
      let new := launchProcess now pid pc la in
      let la := os_log [OsStart pid (ph_GRPCPort new) pc] la in
      let new :=
        match old with
        | Some (_, o) => set_health (ph_RestartCount o) (ph_ErrorCount o) (ph_LastError o) 0 new
        | None => new
        end in
      (la, inl (SStore pc h new))
  end.

Definition sync_store (h : option nat) (new : processHandle) (pc : processConfig) (la : Launcher)
    : Launcher * sync_outcome :=
  let s := la_syncer la in
  (set_syncer (mkSyncer (<[sync_id pc := sy_next s]> (sy_processes s))
                 (<[sy_next s := new]> (sy_heap s)) (S (sy_next s))) la,
   inl (SWait pc h (sy_next s))).

(** Wait for the new process; then the tracked process gets pid and address of the
    old handle, which is nil when there was none. *)
Definition sync_wait (now : Z) (env : sync_env) (show : Z → string) (h : option nat) (newloc : nat)
    (pc : processConfig) (la : Launcher) : Launcher * sync_outcome :=
  match handle_at newloc la with
  | None => (la, inr (false, None))
  | Some new =>
      let la := waitForHealthy env (ph_Config new) la in
      if negb (se_becomes_healthy env) then
        let la := os_log [OsKill (ph_PID new)] la in
        (put_handle newloc (set_health (ph_RestartCount new) (ph_ErrorCount new + 1)
                              (Some "health check timeout"%string) (ph_LastHealthy new) new) la,
         inr (false, Some (ErrSync "health check failed")))
      else
        let la := put_handle newloc (set_health (ph_RestartCount new) 0 None now new) la in
        match la_processes la !! sync_id pc with
        | None => (la, inr (false, None))
        | Some info =>
            match h ≫= λ loc, handle_at loc la with
            | None => (panic la, inr (false, None))
            | Some old =>
                (set_tracked (<[sync_id pc :=
                   mkProcessInfo (pi_ProcessID info) (pi_PatternName info) (pi_Namespace info)
                     (pi_SessionID info) (pi_Isolation info)
                     ("localhost:" +:+ show (ph_GRPCPort old))%string (ph_PID old)
                     (pi_StartTime info) (pi_Config info)]> (la_processes la)) la,
                 inr (false, None))
            end
        end
  end.

Definition SyncProcess (now : Z) (env : sync_env) (show : Z → string) (pos : option sync_pc)
    (pc : processConfig) (la : Launcher) : Launcher * sync_outcome :=
  match pos with
  | None => sync_check now env pc la
  | Some (SLaunch pc h) => sync_launch now env h pc la
  | Some (SStore pc h new) => sync_store h new pc la
  | Some (SWait pc h new) => sync_wait now env show h new pc la
  end.

Definition SyncTerminatingProcess (env : sync_env) (pc : processConfig) (la : Launcher)
    : Launcher * option go_error :=
  match sy_processes (la_syncer la) !! sync_id pc ≫= λ loc, handle_at loc la with
  | None => (la, None)
  | Some h =>
      let la := os_log [OsTerm (ph_PID h)] la in
      match se_term env with
      | TExited => (la, None)
      | TKilled => (os_log [OsKill (ph_PID h)] la, None)
      | TKillFailed => (la, Some (ErrSync "force kill"))
      | TSurvived => (os_log [OsKill (ph_PID h)] la, Some (ErrSync "process did not die after SIGKILL"))
      end
  end.

Definition SyncTerminatedProcess (pc : processConfig) (la : Launcher) : Launcher * option go_error :=
  let s := la_syncer la in
  (set_syncer (mkSyncer (delete (sync_id pc) (sy_processes s)) (sy_heap s) (sy_next s)) la, None).

(** A step of the syncer on behalf of a worker.  The configuration of an update that
    has none is a nil interface, which is not a [*isolation.ProcessConfig]. *)
Definition syncer_step (now : Z) (env : sync_env) (show : Z → string) (kind : sync_kind)
    (pos : option sync_pc) (cfg : option Cfg) (la : Launcher) : Launcher * sync_outcome :=
  match cfg with
  | None => (la, inr (false, Some (ErrSync "invalid config type: expected *isolation.ProcessConfig")))
  | Some None => (panic la, inr (false, None))
  | Some (Some c) =>
      let pc := pcf_BackendConfig c in
      match kind with
      | KSync => SyncProcess now env show pos pc la
      | KTerminating => let '(la, err) := SyncTerminatingProcess env pc la in (la, inr (false, err))
      | KTerminated => let '(la, err) := SyncTerminatedProcess pc la in (la, inr (false, err))
      end
  end.

(** ** RPCs *)

Definition launch_key (req : LaunchRequest) : IsolationKey :=
  mkIsolationKey (lr_Namespace req) (lr_SessionId req).

(** The checks of [LaunchPattern], and the configuration of the process. *)
Definition launch_request (req : LaunchRequest) (la : Launcher)
    : result rpc_error (IsolationLevel * Cfg) :=
  let name := lr_PatternName req in
  if bool_decide (name = ""%string) then Err ErrPatternNameRequired
  else match GetPattern name (la_registry la) with
  | None => Err (ErrPatternUnknown name)
  | Some manifest =>
      let level := protoToIsolationLevel (lr_Isolation req) in
      if bool_decide (level_index level = 1%nat) && bool_decide (lr_Namespace req = ""%string)
      then Err ErrNamespaceRequired
      else if bool_decide (level_index level = 2%nat) && bool_decide (lr_SessionId req = ""%string)
      then Err ErrSessionRequired
      else
        let key := launch_key req in
        Ok (level, Some (mkProcessConfig key (mkProcessConfigL name manifest key (lr_Config req))
                           (lr_GracePeriodSecs req)))
  end.

(** Begin a call of a manager; its number is the length of the list of calls. *)
Definition manager_call (r : request) (im : IsoManager) : IsoManager * nat :=
  (set_calls (im_calls im ++ [mkCall r (start_pc r)]) im, length (im_calls im)).

(** What a call of a manager returned, when it has. *)
Definition call_result (i : nat) (im : IsoManager) : option (@answer processConfig) :=
  match im_calls im !! i with
  | Some (mkCall _ (Returned a)) => Some a
  | _ => None
  end.

(** The next step of [LaunchPattern]. *)
Definition LaunchPattern (now : Z) (req : LaunchRequest) (pc : rpc_pc) (la : Launcher)
    : option (Launcher * rpc_pc) :=
  let name := lr_PatternName req in
  match pc with
  | RpcStart =>
      match launch_request req la with
      | Ok (level, cfg) =>
          match get_mgr level la with
          | None => Some (la, RpcDone (RpcErr (ErrNoManager level)))
          | Some im =>
              let '(im, i) := manager_call (RGetOrCreate (launch_key req) cfg) im in
              Some (put_mgr level im la, LaunchWait level i now)
          end
      | Err e => Some (la, RpcDone (RpcErr e))
      | Panic => None
      end
  | LaunchWait level i launchStart =>
      im ← get_mgr level la;
      a ← call_result i im;
      Some
        (match a with
         | Handle h =>
             (set_lmetrics (RecordLaunchDuration now name level (now - launchStart) true
                (RecordProcessStart name level (la_metrics la))) la, LaunchRecord level h)
         | _ =>
             (set_lmetrics (RecordLaunchDuration now name level (now - launchStart) false
                (RecordProcessFailure name level (la_metrics la))) la,
              RpcDone (RpcErr (ErrLaunchFailed a)))
         end)
  | LaunchRecord level h =>
      let info := mkProcessInfo (hd_ID h) name (lr_Namespace req) (lr_SessionId req) level "" 0 now
                    (lr_Config req) in
      Some (set_tracked (<[hd_ID h := info]> (la_processes la)) la, LaunchReply h)
  | LaunchReply h =>
      match la_processes la !! hd_ID h with
      | None => Some (panic la, pc)
      | Some info =>
          Some (la, RpcDone (LaunchOk (mkLaunchResponse (hd_ID h) (pi_Address info) (hd_Health h))))
      end
  | _ => None
  end.

(** The next step of [TerminatePattern]. *)
Definition TerminatePattern (req : TerminateRequest) (pc : rpc_pc) (la : Launcher)
    : option (Launcher * rpc_pc) :=
  match pc with
  | RpcStart =>
      match la_processes la !! tr_ProcessId req with
      | None => Some (la, RpcDone (RpcErr (ErrProcessUnknown (tr_ProcessId req))))
      | Some info =>
          match get_mgr (pi_Isolation info) la with
          | None => Some (la, RpcDone (RpcErr (ErrNoManager (pi_Isolation info))))
          | Some im =>
              let key := mkIsolationKey (pi_Namespace info) (pi_SessionID info) in
              let gracePeriod :=
                if tr_GracePeriodSecs req =? 0 then 10 else tr_GracePeriodSecs req in
              let '(im, i) := manager_call (RTerminate key gracePeriod) im in
              Some (put_mgr (pi_Isolation info) im la, TermWait info i)
          end
      end
  | TermWait info i =>
      im ← get_mgr (pi_Isolation info) la;
      a ← call_result i im;
      match a with
      | TerminateOk =>
          Some (set_lmetrics (RecordProcessStop (pi_PatternName info) (pi_Isolation info)
                  (la_metrics la)) la, TermRemove info)
      | _ => Some (la, RpcDone (TerminateResponse false (Some a)))
      end
  | TermRemove info =>
      Some (set_tracked (delete (tr_ProcessId req) (la_processes la)) la,
            RpcDone (TerminateResponse true None))
  | _ => None
  end.

(** *** Queries *)

Record PatternInfo := mkPatternInfo {
  pt_PatternName : string;
  pt_ProcessId : string;
  pt_Address : string;
  pt_UptimeSeconds : Z;
  pt_Namespace : string;
  pt_SessionId : string;
  pt_Pid : Z }.

Definition pattern_info (now : Z) (info : ProcessInfo) : PatternInfo :=
  mkPatternInfo (pi_PatternName info) (pi_ProcessID info) (pi_Address info)
    ((now - pi_StartTime info) ÷ Second) (pi_Namespace info) (pi_SessionID info)
    (wrap32 (pi_PID info)).

(** [STATE_RUNNING] is 2 and [STATE_UNSPECIFIED] is 0. *)
Definition ListPatterns (now : Z) (patternName namespace : string) (state : Z) (la : Launcher)
    : list PatternInfo * Z :=
  let keep info :=
    (bool_decide (patternName = ""%string) || bool_decide (pi_PatternName info = patternName)) &&
    (bool_decide (namespace = ""%string) || bool_decide (pi_Namespace info = namespace)) &&
    ((state =? 2) || (state =? 0)) in
  (pattern_info now <$> filter keep (map_to_list (la_processes la)).*2,
   wrap32 (Z.of_nat (size (la_processes la)))).

Definition Launcher_GetProcessStatus (now : Z) (id : string) (la : Launcher) : option PatternInfo :=
  pattern_info now <$> la_processes la !! id.

Record HealthResponse := mkHealthResponse {
  hr_TotalProcesses : Z;
  hr_RunningProcesses : Z;
  hr_IsolationDistribution : gmap string Z;
  hr_Processes : list PatternInfo;
  hr_UptimeSeconds : Z }.

(** The table is read twice; nothing is ever reported as unhealthy, terminating or
    failed. *)
Definition Launcher_Health (now startTime : Z) (includeProcesses : bool)
    (processes1 processes2 : gmap string ProcessInfo) : HealthResponse :=
  let infos := (map_to_list processes1).*2 in
  mkHealthResponse (wrap32 (Z.of_nat (size processes1))) (wrap32 (Z.of_nat (length infos)))
    (foldr (λ info dist, let key := level_String (pi_Isolation info) in
              <[key := wrap32 (default 0 (dist !! key) + 1)]> dist) ∅ (map_to_list processes2).*2)
    (if includeProcesses then pattern_info now <$> infos else [])
    ((now - startTime) ÷ Second).

(** ** cleanup.go *)

(** The pids of the tracked processes; a pid of zero has not been set yet. *)
Definition trackedPIDs (la : Launcher) : list Z :=
  filter (λ pid, 0 < pid) (pi_PID <$> (map_to_list (la_processes la)).*2).

(** [systemPIDs]: the processes with PATTERN_NAME in their environment.  [term pid] is
    how the termination of an orphan ends. *)
Definition orphans (systemPIDs : list Z) (la : Launcher) : list Z :=
  filter (λ pid, pid ∉ trackedPIDs la) systemPIDs.

Definition terminateOrphan (outcome : term_outcome) (pid : Z) : list os_event :=
  match outcome with
  | TExited => [OsTerm pid]
  | _ => [OsTerm pid; OsKill pid]
  end.

Definition detectAndCleanup (systemPIDs : list Z) (term : Z → term_outcome) (la : Launcher)
    : Launcher :=
  os_log (orphans systemPIDs la ≫= λ pid, terminateOrphan (term pid) pid) la.

Definition CleanupProcess (id : string) (la : Launcher) : Launcher :=
  set_tracked (delete id (la_processes la)) la.
Definition VerifyCleanup (id : string) (la : Launcher) : bool :=
  bool_decide (la_processes la !! id = None).

(** ** The system *)

Inductive la_label :=
  | ARpc (r : rpc)
  | ARpcStep (now : Z) (j : nat)
  | AManager (level : IsolationLevel) (l : @im_label processConfig)
  | ASync (level : IsolationLevel) (w : nat) (now : Z) (env : sync_env) (show : Z → string)
  | AOrphans (systemPIDs : list Z) (term : Z → term_outcome)
  | ACleanup (id : string).

(** Steps a manager takes by itself: not a new call, not the return of the syncer. *)
Definition manager_label (l : @im_label processConfig) : bool :=
  match l with
  | ICall _ => false
  | IManager (LSyncReturn _ _ _ _) => false
  | _ => true
  end.

Definition rpc_step (now : Z) (r : rpc) (pc : rpc_pc) (la : Launcher)
    : option (Launcher * rpc_pc) :=
  match r with
  | RpcLaunch req => LaunchPattern now req pc la
  | RpcTerminate req => TerminatePattern req pc la
  end.

(** The worker is in a call of the syncer. *)
Definition sync_step (level : IsolationLevel) (w : nat) (now : Z) (env : sync_env)
    (show : Z → string) (la : Launcher) : option Launcher :=
  im ← get_mgr level la;
  wk ← pm_workers (im_pm im) !! w;
  match w_pc wk with
  | WSync kind _ update =>
      let key := (level_index level, w) in
      let '(la', out) := syncer_step now env show kind (la_syncs la !! key) (pu_Config update) la in
      match out with
      | inl pos => Some (set_syncs (<[key := pos]> (la_syncs la')) la')
      | inr (terminal, err) =>
          im' ← im_exec ovf manager_config (IManager (LSyncReturn w now terminal err)) im;
          Some (put_mgr level im' (set_syncs (delete key (la_syncs la')) la'))
      end
  | _ => None
  end.

Definition la_exec (l : la_label) (la : Launcher) : option Launcher :=
  if la_panicked la then None
  else match l with
  | ARpc r => Some (set_rpcs (la_rpcs la ++ [(r, RpcStart)]) la)
  | ARpcStep now j =>
      '(r, pc) ← la_rpcs la !! j;
      '(la', pc') ← rpc_step now r pc la;
      Some (set_rpcs (<[j := (r, pc')]> (la_rpcs la')) la')
  | AManager level l =>
      if manager_label l then
        im ← get_mgr level la;
        im' ← im_exec ovf manager_config l im;
        Some (put_mgr level im' la)
      else None
  | ASync level w now env show => sync_step level w now env show la
  | AOrphans pids term => Some (detectAndCleanup pids term la)
  | ACleanup id => Some (CleanupProcess id la)
  end.

Definition la_run : list la_label → Launcher → option Launcher := run_labels la_exec.

Inductive la_reachable : Launcher → Prop :=
  | la_reach_init now registry : la_reachable (NewService now registry)
  | la_reach_step la l la' : la_reachable la → la_exec l la = Some la' → la_reachable la'.
End Service.


(** ** [Build] *)

Section Build.
Context {Q : Type} `{!DelayQueue Q} (fs : FileSystem) (Unmarshal : list Z → option Manifest).

Inductive build_error :=
  | ErrBuilder (e : builder_error)
  | ErrInvalidConfig (e : builder_error)
  | ErrDiscover (e : discover_error).

Definition Build (now : Z) (b : ServiceBuilder) : result build_error (@Launcher Q) :=
  match sb_err b with
  | Some e => Err (ErrBuilder e)
  | None =>
      match validateConfig (sb_config b) with
      | Some e => Err (ErrInvalidConfig e)
      | None =>
          let '(r, err) := Discover fs Unmarshal (NewRegistry (lc_PatternsDir (sb_config b))) in
          match err with
          | Some e => Err (ErrDiscover e)
          | None => Ok (NewService (sb_config b) now r)
          end
      end
  end.

Definition MustBuild (now : Z) (b : ServiceBuilder) : result build_error (@Launcher Q) :=
  match Build now b with Ok la => Ok la | _ => Panic end.

Definition QuickStart (now : Z) (patternsDir : string) : result build_error (@Launcher Q) :=
  Build now (WithNamespaceIsolation (WithPatternsDir patternsDir NewBuilder)).
End Build.
