(* ===== verification/LauncherSpec.v ===== *)
(** * Correctness of the launcher

    What the composition of service, isolation managers, process managers and syncer
    guarantees, and where it falls short: processes are kept apart by the default
    isolation level only, a termination that was asked for never completes, a first start
    can dereference a nil handle, and a restarted process is taken for an orphan. *)

From S2P Require Import Prelude WorkQueue Backoff ProcMgr ProcMgrInv ProcMgrSync ProcMgrProv Isolation IsolationSpec Launcher LauncherMetrics LauncherService.
Import GoFloat.
Local Open Scope Z_scope.

Section Spec.
Context {Q : Type} `{!DelayQueue Q} (ovf : Z) (config : Config).

Abbreviation Cfg := (option (@ProcessConfig processConfig)).
Abbreviation IsoManager := (@IsolationManager processConfig Q).
Abbreviation manager_config := (manager_config (Q := Q) config).
Abbreviation im_exec := (im_exec (B := processConfig) (Q := Q) ovf manager_config).
Abbreviation la_exec := (la_exec (Q := Q) ovf config).
Abbreviation la_run := (la_run (Q := Q) ovf config).
Abbreviation la_reachable := (la_reachable (Q := Q) ovf config).
Abbreviation sync_id := (sync_id config).

Implicit Types (im : IsoManager) (la : @Launcher Q).

(** ** Completion channels *)

(** The call has not seen its completion channel closed. *)
Definition unfinished (c : @call processConfig) : Prop :=
  match cl_pc c with TRemove | Returned TerminateOk => False | _ => True end.

Record mgr_inv im : Prop := {
  mi_reach : im_reachable (Q := Q) ovf manager_config im;
  mi_closed : pm_closed (im_pm im) = ∅;
  mi_calls i c : im_calls im !! i = Some c → unfinished c }.

Lemma manager_invs im :
  im_reachable (Q := Q) ovf manager_config im →
  im_inv ovf manager_config im ∧ pm_wf (im_pm im) ∧ static_inv (im_pm im).
Proof.
  intros Hr%inv_reachable. pose proof (ii_static _ _ _ Hr) as Hs. split_and!; [done| |].
  - by eapply wf_reachable, reachable_static_reachable.
  - by eapply static_reachable.
Qed.

Lemma mgr_calls_goto i c pc im :
  (∀ i c, im_calls im !! i = Some c → unfinished c) →
  unfinished (mkCall (cl_request c) pc) →
  ∀ j c', im_calls (call_goto i c pc im) !! j = Some c' → unfinished c'.
Proof.
  intros Hall Hc j c'. simpl. intros [(<- & <- & _)|[_ ?]]%list_lookup_insert_Some; eauto.
Qed.

(** A step of a call, when no channel is closed. *)
Lemma mgr_call_step now i c im im' pc :
  mgr_inv im → im_calls im !! i = Some c → call_step ovf manager_config now i c im = Some (im', pc) →
  pm_closed (im_pm im') = ∅ ∧ im_calls im' = im_calls im ∧ unfinished (mkCall (cl_request c) pc).
Proof.
  intros [Hr Hcl Hcalls] Hc. destruct (manager_invs _ Hr) as (_ & Hwf & _).
  assert (∀ now u pm, exec ovf manager_config (LUpdate now u) (im_pm im) = Some pm →
            pm_closed pm = ∅) as Hup.
  { intros ??? He. by eapply closed_exec_other in He as ->. }
  specialize (Hcalls _ _ Hc). unfold call_step.
  destruct c as [[key cfg|key g] p]; destruct p; simpl in *; try done.
  - case_match; intros [= <- <-]; done.
  - case_match; intros [= <- <-]; done.
  - destruct (exec _ _ _ _) as [pm|] eqn:He; simpl; [|done]. intros [= <- <-]. by apply Hup in He.
  - case_match; intros [= <- <-]; done.
  - case_match; intros [= <- <-]; done.
  - destruct (exec _ _ _ _) as [pm|] eqn:He; simpl; [|done]. intros [= <- <-]. by apply Hup in He.
  - case_bool_decide; [|done]. set_solver.
Qed.

(** The steps of a manager that are not the return of a syncer. *)
Lemma mgr_step l im im' :
  mgr_inv im → manager_label l = true → im_exec l im = Some im' → mgr_inv im'.
Proof.
  intros Hinv Hl He. pose proof Hinv as [Hr Hcl Hcalls].
  destruct (manager_invs _ Hr) as (_ & Hwf & _). pose proof (im_reach_step _ _ _ _ _ Hr He) as Hr'.
  destruct l as [r|now i|i|l|now id]; simpl in *; try done.
  - destruct (im_calls im !! i) as [c|] eqn:Hc; simpl in He; [|done].
    destruct (call_step _ _ _ _ _ _) as [[im1 pc]|] eqn:Hs; simplify_eq/=.
    destruct (mgr_call_step _ _ _ _ _ _ Hinv Hc Hs) as (E1 & E2 & Hu).
    split; [done|done|]. apply mgr_calls_goto; [|done]. by rewrite E2.
  - destruct (im_calls im !! i) as [c|] eqn:Hc; simpl in He; [|done].
    destruct (call_timeout _ _) as [pc|] eqn:Ht; simplify_eq/=. split; [done|done|].
    apply mgr_calls_goto; [done|]. unfold call_timeout in Ht. by repeat case_match; simplify_eq.
  - destruct (internal l) eqn:Hi; [|done].
    destruct (exec _ _ _ _) as [pm|] eqn:Hx; simplify_eq/=. split; simpl; [done| |done].
    eapply closed_exec_other in Hx as ->; [done|done| |by destruct l].
    intros w now t e ->. done.
  - destruct (exec _ _ _ _) as [pm|] eqn:Hx; simplify_eq/=. split; simpl; [done| |done].
    by eapply closed_exec_other in Hx as ->.
Qed.

(** The return of a syncer that refuses updates without configuration. *)
Lemma mgr_return w now t e wk k loc u im im' :
  mgr_inv im → pm_workers (im_pm im) !! w = Some wk → w_pc wk = WSync k loc u →
  (pu_Config u = None → e ≠ None) →
  im_exec (IManager (LSyncReturn w now t e)) im = Some im' → mgr_inv im'.
Proof.
  intros [Hr Hcl Hcalls] Hw Hpc He Hx. pose proof (im_reach_step _ _ _ _ _ Hr Hx) as Hr'.
  destruct (manager_invs _ Hr) as (Hinv & Hwf & Hst). simpl in Hx.
  destruct (exec _ _ _ _) as [pm|] eqn:Hex; simplify_eq/=. split; simpl; [done| |done].
  apply exec_return in Hex as (Hnow & wk' & k' & loc' & u' & Hw' & Hpc' & ->).
  rewrite Hw in Hw'. injection Hw' as <-. rewrite Hpc in Hpc'. injection Hpc' as <- <- <-.
  apply set_eq. intros ch. split; [|done]. intros Hch.
  eapply closed_sync_return in Hch as [Hch|(_ & _ & _ & He' & Hn)];
    [by rewrite <- Hcl|by apply He in Hn|done|done|apply (ii_prov _ _ _ Hinv)|done|done].
Qed.

Lemma mgr_new level : mgr_inv (new_manager config level).
Proof. split; [constructor|done|done]. Qed.

Lemma mgr_request r im : mgr_inv im → mgr_inv (manager_call r im).1.
Proof.
  intros [Hr Hcl Hcalls]. split; [|done|].
  - by eapply (im_reach_step _ _ _ (ICall r)).
  - simpl. intros i c [?|[_ Hc]]%lookup_app_Some; [eauto|].
    apply list_lookup_singleton_Some in Hc as [_ <-]. by destruct r.
Qed.

(** ** The invariant of the system *)

(** An RPC that has not learnt of a completed termination. *)
Definition rpc_open (pc : rpc_pc) : Prop :=
  match pc with TermRemove _ | RpcDone (TerminateResponse true _) => False | _ => True end.

(** Handles are filed under the id of their own configuration. *)
Definition filed (s : Syncer) : Prop :=
  (∀ id loc h, sy_processes s !! id = Some loc → sy_heap s !! loc = Some h →
     sync_id (ph_Config h) = id) ∧
  (∀ loc h, sy_heap s !! loc = Some h → (loc < sy_next s)%nat) ∧
  (∀ id loc, sy_processes s !! id = Some loc → (loc < sy_next s)%nat).

Definition pos_ok (pos : sync_pc) : Prop :=
  match pos with SStore pc _ new => ph_Config new = pc | _ => True end.

Record la_inv la : Prop := {
  li_mgr level im : get_mgr level la = Some im → mgr_inv im;
  li_rpcs j r pc : la_rpcs la !! j = Some (r, pc) → rpc_open pc;
  li_filed : filed (la_syncer la);
  li_syncs key pos : la_syncs la !! key = Some pos → pos_ok pos }.

Lemma get_put_mgr (P : IsoManager → Prop) level im la :
  (∀ level im, get_mgr level la = Some im → P im) → P im →
  ∀ level' im', get_mgr level' (put_mgr level im la) = Some im' → P im'.
Proof.
  intros Hall Him level' im' H. destruct level, level'; simpl in *; simplify_eq; try done;
    first [by apply (Hall IsolationNone)|by apply (Hall IsolationNamespace)
          |by apply (Hall IsolationSession)].
Qed.

(** What a step of the syncer leaves alone. *)
Definition same_service la la' : Prop :=
  la_none la' = la_none la ∧ la_namespace la' = la_namespace la ∧ la_session la' = la_session la ∧
  la_rpcs la' = la_rpcs la ∧ la_syncs la' = la_syncs la.

Lemma same_service_mgr la la' level : same_service la la' → get_mgr level la' = get_mgr level la.
Proof. intros (E1 & E2 & E3 & _). destruct level; simpl; by rewrite ?E1, ?E2, ?E3. Qed.

Lemma same_service_trans la1 la2 la3 :
  same_service la1 la2 → same_service la2 la3 → same_service la1 la3.
Proof. unfold same_service. intuition congruence. Qed.

Lemma wait_frame env pc la :
  same_service la (waitForHealthy env pc la) ∧ la_syncer (waitForHealthy env pc la) = la_syncer la ∧
  la_processes (waitForHealthy env pc la) = la_processes la ∧
  la_os (waitForHealthy env pc la) = la_os la ∧ la_panicked (waitForHealthy env pc la) = la_panicked la.
Proof.
  assert (∀ n, let la' := Nat.iter n (checkHealth false pc) la in
    same_service la la' ∧ la_syncer la' = la_syncer la ∧ la_processes la' = la_processes la ∧
    la_os la' = la_os la ∧ la_panicked la' = la_panicked la) as H.
  { induction n as [|n IH]; simpl; done. }
  unfold waitForHealthy. specialize (H (se_failures env)). by case_match.
Qed.

Lemma filed_put loc h0 h la :
  filed (la_syncer la) → handle_at loc la = Some h0 → ph_Config h = ph_Config h0 →
  filed (la_syncer (put_handle loc h la)).
Proof.
  intros (F1 & F2 & F3) Hh Ec. unfold handle_at in Hh. split_and!; simpl; [| |done].
  - intros id loc' h' Hp [[<- <-]|[_ ?]]%lookup_insert_Some; [rewrite Ec|]; eauto.
  - intros loc' h' [[<- <-]|[_ ?]]%lookup_insert_Some; eauto.
Qed.

Lemma filed_store new pc h la :
  filed (la_syncer la) → ph_Config new = pc →
  filed (la_syncer (sync_store config h new pc la).1).
Proof.
  intros (F1 & F2 & F3) Ec. split_and!; simpl.
  - intros id loc h' [[<- <-]|[Hne Hp]]%lookup_insert_Some.
    + rewrite lookup_insert_eq. intros [= <-]. by rewrite Ec.
    + apply F3 in Hp as Hlt. rewrite lookup_insert_ne by lia. eauto.
  - intros loc h' [[<- <-]|[_ ?%F2]]%lookup_insert_Some; lia.
  - intros id loc [[<- <-]|[_ ?%F3]]%lookup_insert_Some; lia.
Qed.

Definition out_ok (out : sync_outcome) : Prop :=
  match out with inl pos => pos_ok pos | inr _ => True end.

Lemma SyncProcess_spec now env show pos pc la la' out :
  filed (la_syncer la) → (∀ p, pos = Some p → pos_ok p) →
  SyncProcess config now env show pos pc la = (la', out) →
  same_service la la' ∧ filed (la_syncer la') ∧ out_ok out.
Proof.
  intros Hf Hpos. destruct pos as [[pc0 h|pc0 h new|pc0 h loc]|]; simpl.
  - unfold sync_launch. destruct (se_start env) as [pid|]; intros [= <- <-].
    + split_and!; [done|done|]. simpl. by repeat case_match.
    + destruct (h ≫= _) as [[loc o]|] eqn:Ho; [|done]. split_and!; [done| |done].
      apply bind_Some in Ho as (loc' & -> & (o' & Ho & [= <- <-])%fmap_Some). by eapply filed_put.
  - intros E. injection E as <- <-. split_and!; [done| |done]. apply (filed_store new pc0 h la); [done|].
    by apply (Hpos _ eq_refl).
  - unfold sync_wait. destruct (handle_at loc la) as [new|] eqn:Hn; [|by intros [= <- <-]].
    destruct (wait_frame env (ph_Config new) la) as (Hs & Ey & Ep & _).
    set (la1 := waitForHealthy _ _ _) in *. unfold handle_at in *. rewrite <- Ey in Hn, Hf.
    repeat case_match; intros [= <- <-]; (split_and!; [exact Hs|by eapply filed_put|done]).
  - unfold sync_check. destruct (sy_processes _ !! _) as [loc|]; [|by intros [= <- <-]].
    destruct (handle_at loc la) as [h|] eqn:Hh; [|by intros [= <- <-]].
    repeat case_match; intros [= <- <-]; (split_and!; [done|by eapply (filed_put loc h)|done]).
Qed.

Lemma syncer_step_spec now env show kind pos cfg la la' out :
  filed (la_syncer la) → (∀ p, pos = Some p → pos_ok p) →
  syncer_step config now env show kind pos cfg la = (la', out) →
  same_service la la' ∧ filed (la_syncer la') ∧ out_ok out ∧
  (cfg = None → ∃ e, out = inr (false, Some e)).
Proof.
  intros Hf Hpos. destruct cfg as [[c|]|]; simpl.
  - destruct kind.
    + intros E. apply SyncProcess_spec in E as (? & ? & ?); done.
    + unfold SyncTerminatingProcess. repeat case_match; simplify_eq/=; intros; simplify_eq; done.
    + intros [= <- <-]. split_and!; try done. destruct Hf as (F1 & F2 & F3).
      split_and!; simpl; [|done|].
      * intros id loc h [_ ?]%lookup_delete_Some. eauto.
      * intros id loc [_ ?]%lookup_delete_Some. eauto.
  - intros [= <- <-]. done.
  - intros [= <- <-]. split_and!; [done|done|done|]. by eexists.
Qed.

(** ** RPCs *)

Lemma call_result_open i im : mgr_inv im → call_result i im ≠ Some TerminateOk.
Proof.
  intros Hm. unfold call_result. destruct (im_calls im !! i) as [[r pc]|] eqn:Hc; [|done].
  apply (mi_calls _ Hm) in Hc. destruct pc as [| | | | | | | |[]]; simpl; done.
Qed.

(** A step of an RPC changes managers by a request at most, and keeps the syncer. *)
Definition rpc_frame la la' : Prop :=
  (∀ level im, get_mgr level la' = Some im → mgr_inv im) ∧ la_rpcs la' = la_rpcs la ∧
  la_syncer la' = la_syncer la ∧ la_syncs la' = la_syncs la.

Lemma rpc_frame_put level r im la :
  (∀ level im, get_mgr level la = Some im → mgr_inv im) → get_mgr level la = Some im →
  rpc_frame la (put_mgr level (manager_call r im).1 la).
Proof.
  intros Hm Hg. split_and!; [|by destruct level..].
  apply get_put_mgr; [done|]. apply mgr_request; eauto.
Qed.

Lemma launch_step now req pc la la' pc' :
  (∀ level im, get_mgr level la = Some im → mgr_inv im) →
  LaunchPattern config now req pc la = Some (la', pc') → rpc_frame la la' ∧ rpc_open pc'.
Proof.
  intros Hm. destruct pc; simpl; try done.
  - destruct (launch_request config req la) as [[level cfg]|e|]; [|by intros [= <- <-]|done].
    destruct (get_mgr level la) as [im|] eqn:Hg; intros [= <- <-]; [|done].
    split; [|done]. exact (rpc_frame_put level _ im la Hm Hg).
  - destruct (get_mgr level la) as [im|]; simpl; [|done].
    destruct (call_result call im) as [[]|]; simpl; intros [= <- <-]; split_and!; done.
  - intros [= <- <-]. done.
  - case_match; intros [= <- <-]; done.
Qed.

Lemma terminate_step req pc la la' pc' :
  (∀ level im, get_mgr level la = Some im → mgr_inv im) → rpc_open pc →
  TerminatePattern req pc la = Some (la', pc') → rpc_frame la la' ∧ rpc_open pc'.
Proof.
  intros Hm Ho. destruct pc; simpl; try done.
  - destruct (la_processes la !! _) as [info|]; [|by intros [= <- <-]].
    destruct (get_mgr _ la) as [im|] eqn:Hg; intros [= <- <-]; [|done].
    split; [|done]. exact (rpc_frame_put _ _ im la Hm Hg).
  - destruct (get_mgr _ la) as [im|] eqn:Hg; simpl; [|done].
    pose proof (call_result_open call im (Hm _ _ Hg)) as Hr.
    destruct (call_result call im) as [[]|]; simpl; intros [= <- <-]; done.
Qed.

(** ** Every step *)

Local Arguments Isolation.im_exec : simpl never.

Lemma la_inv_new now r : la_inv (NewService config now r).
Proof.
  split; simpl; try done. intros level im H. destruct level; simplify_eq/=; apply mgr_new.
Qed.

Lemma la_inv_sync level w now env show la la' :
  la_inv la → sync_step ovf config level w now env show la = Some la' → la_inv la'.
Proof.
  intros [I1 I2 I3 I4]. unfold sync_step.
  destruct (get_mgr level la) as [im|] eqn:Hg; simpl; [|done].
  destruct (pm_workers (im_pm im) !! w) as [wk|] eqn:Hw; simpl; [|done].
  destruct (w_pc wk) as [| | |kind loc u| | |] eqn:Hpc; try done.
  destruct (syncer_step _ _ _ _ _ _ _ _) as [la1 out] eqn:Hs.
  apply syncer_step_spec in Hs as (Hsame & Hf & Ho & Hnone); [|done|intros p; apply I4].
  pose proof Hsame as (E1 & E2 & E3 & E4 & E5).
  assert (∀ level im, get_mgr level la1 = Some im → mgr_inv im) as Hm.
  { intros level' im'. rewrite (same_service_mgr la) by done. eauto. }
  destruct out as [pos|[t e]].
  - intros [= <-]. split; simpl; [|by rewrite E4|done|].
    + intros level' im' H. apply (Hm level'). by destruct level'.
    + intros key p [[_ <-]|[_ Hp]]%lookup_insert_Some; [done|]. rewrite E5 in Hp. eauto.
  - destruct (im_exec (IManager (LSyncReturn w now t e)) im) as [im'|] eqn:Hx; simpl; [|done].
    intros [= <-]. assert (mgr_inv im') as Hm'.
    { eapply mgr_return; [by eapply I1|done|done| |done]. intros (e' & [= _ ->])%Hnone. done. }
    assert (∀ key pos, delete (level_index level, w) (la_syncs la1) !! key = Some pos → pos_ok pos)
      as Hd. { intros key pos [_ Hp]%lookup_delete_Some. rewrite E5 in Hp. eauto. }
    split; [|by destruct level; simpl; rewrite ?E4|by destruct level|by destruct level].
    apply get_put_mgr; [|done]. intros level' im0 H.
    apply (Hm level'). by destruct level'.
Qed.

Lemma la_inv_exec l la la' : la_inv la → la_exec l la = Some la' → la_inv la'.
Proof.
  intros Hinv. pose proof Hinv as [I1 I2 I3 I4]. unfold la_exec. destruct (la_panicked la); [done|].
  destruct l as [r|now j|level l|level w now env show|pids term|id]; simpl.
  - intros [= <-]. split; try done. simpl. intros j r' pc [?|[_ Hr]]%lookup_app_Some; [eauto|].
    by apply list_lookup_singleton_Some in Hr as [_ [= <- <-]].
  - destruct (la_rpcs la !! j) as [[r pc]|] eqn:Hj; simpl; [|done].
    destruct (rpc_step _ _ _ _ _) as [[la1 pc']|] eqn:Hs; simpl; [|done]. intros [= <-].
    assert (rpc_frame la la1 ∧ rpc_open pc') as [(Hm & E1 & E2 & E3) Ho].
    { destruct r; simpl in Hs; [by eapply launch_step|eapply terminate_step; eauto]. }
    split; simpl; rewrite ?E1, ?E2, ?E3; try done.
    intros j' r' pc0 [(_ & [= <- <-] & _)|[_ ?]]%list_lookup_insert_Some; eauto.
  - destruct (manager_label l) eqn:Hl; [|done].
    destruct (get_mgr level la) as [im|] eqn:Hg; simpl; [|done].
    destruct (im_exec l im) as [im'|] eqn:Hx; simpl; [|done]. intros [= <-].
    assert (mgr_inv im') as Hm' by (eapply mgr_step; eauto).
    split; [|by destruct level..]. by apply get_put_mgr.
  - by apply la_inv_sync.
  - intros [= <-]. by split.
  - intros [= <-]. by split.
Qed.

Lemma la_inv_reachable la : la_reachable la → la_inv la.
Proof. induction 1; eauto using la_inv_new, la_inv_exec. Qed.

(** ** What the syncer does to a process *)

(** No termination that was asked for ever succeeds: the update that
    [TerminateProcess] submits has no configuration, so the syncer rejects it and the
    completion channel is never closed.  In no reachable state is there a
    [TerminatePattern] that was told that the process is gone or answered with
    success, so the process stays in the table of tracked processes. *)
Theorem terminate_never_succeeds la :
  la_reachable la →
  (∀ j req pc, la_rpcs la !! j = Some (RpcTerminate req, pc) →
     (∀ info, pc ≠ TermRemove info) ∧ (∀ e, pc ≠ RpcDone (TerminateResponse true e))) ∧
  (∀ level im, get_mgr level la = Some im → pm_closed (im_pm im) = ∅).
Proof.
  intros Hr%la_inv_reachable. split.
  - intros j req pc Hj%(li_rpcs _ Hr). split; [by intros ? ->|by intros ? ->].
  - intros level im Hg%(li_mgr _ Hr). apply Hg.
Qed.

(** The processes of the operating system are kept apart by the default isolation
    level, whatever level a request asked for: the handle that the syncer files under
    an id belongs to a key of that id at the default level, and two requests have the
    same handle exactly when their keys are in one class of the default level. *)
Theorem processes_by_default_level la id1 id2 loc1 loc2 h1 h2 :
  la_reachable la →
  sy_processes (la_syncer la) !! id1 = Some loc1 → handle_at loc1 la = Some h1 →
  sy_processes (la_syncer la) !! id2 = Some loc2 → handle_at loc2 la = Some h2 →
  sync_id (ph_Config h1) = id1 ∧
  (id1 = id2 ↔
   same_class (lc_DefaultIsolation config) (pcg_Key (ph_Config h1)) (pcg_Key (ph_Config h2))).
Proof.
  intros Hr%la_inv_reachable P1 H1 P2 H2. pose proof (li_filed _ Hr) as (F & _).
  pose proof (F _ _ _ P1 H1) as E1. pose proof (F _ _ _ P2 H2) as E2. split; [done|].
  subst id1 id2. unfold LauncherService.sync_id. apply key_ProcessID_class.
Qed.

(** The check that precedes a launch gives a process up. *)
Definition gives_up (env : sync_env) (pc : processConfig) la : Prop :=
  ∃ loc h, sy_processes (la_syncer la) !! sync_id pc = Some loc ∧ handle_at loc la = Some h ∧
    se_alive env = true ∧ se_healthy env = false ∧ maxErrors ≤ ph_ErrorCount h + 1.

Lemma check_terminal now env pc la la' e :
  sync_check config now env pc la = (la', inr (true, e)) → gives_up env pc la.
Proof.
  unfold sync_check. destruct (sy_processes _ !! _) as [loc|] eqn:Hp; [|done].
  destruct (handle_at loc la) as [h|] eqn:Hh; [|done].
  destruct (se_alive env) eqn:Ha; [|done]. destruct (se_healthy env) eqn:Hb; [done|].
  destruct (maxErrors <=? _) eqn:Hm; [|done]. intros _. exists loc, h. split_and!; try done. lia.
Qed.

(** The circuit breaker: a sync is terminal exactly when it begins with a process
    that is alive and unhealthy for at least the fifth time in a row.  A process that
    dies or does not come up is restarted for ever, and a configuration of the wrong
    type is an error that is tried again. *)
Theorem circuit_breaker now env show kind pos cfg la la' out :
  syncer_step config now env show kind pos cfg la = (la', out) →
  ((∃ e, out = inr (true, e)) ↔
   kind = KSync ∧ pos = None ∧ ∃ c, cfg = Some (Some c) ∧ gives_up env (pcf_BackendConfig c) la).
Proof.
  intros Hs. split.
  - intros [e ->]. destruct cfg as [[c|]|]; simpl in Hs; [|by simplify_eq..].
    destruct kind; simpl in Hs; [|by repeat case_match; simplify_eq..].
    destruct pos as [[]|]; simpl in Hs;
      [by unfold sync_launch in Hs; repeat case_match; simplify_eq|by simplify_eq
      |by unfold sync_wait in Hs; repeat case_match; simplify_eq|].
    split_and!; [done|done|]. eexists. split; [done|]. by apply check_terminal in Hs.
  - intros (-> & -> & c & -> & loc & h & Hp & Hh & Ha & Hb & He). simpl in Hs.
    unfold sync_check in Hs. rewrite Hp, Hh, Ha, Hb in Hs.
    rewrite (proj2 (Z.leb_le _ _) He) in Hs. simplify_eq. eauto.
Qed.

(** A restarted process is taken for an orphan: when the restart of a tracked process
    succeeds, the table gets the pid of the process it replaced, so the next round of
    the orphan detector, which sees the new process, terminates it. *)
Theorem restarted_process_is_orphan now env show loc newloc old new pc info pids term la :
  handle_at loc la = Some old → handle_at newloc la = Some new → loc ≠ newloc →
  se_becomes_healthy env = true → la_processes la !! sync_id pc = Some info →
  ph_PID old ≠ ph_PID new →
  (∀ id info', la_processes la !! id = Some info' → pi_PID info' ≠ ph_PID new) →
  ph_PID new ∈ pids →
  OsTerm (ph_PID new) ∈
    la_os (detectAndCleanup pids term (sync_wait config now env show (Some loc) newloc pc la).1).
Proof.
  intros Ho Hn Hne Hh Hi Hpid Hnot Hin. unfold sync_wait. rewrite Hn, Hh. simpl.
  destruct (wait_frame env (ph_Config new) la) as (_ & Ey & Ep & Eo & _).
  rewrite Ep, Hi. unfold handle_at in *. simpl. rewrite Ey, lookup_insert_ne, Ho by done. simpl.
  apply elem_of_app. right. apply list_elem_of_bind. exists (ph_PID new).
  split; [destruct (term _); set_solver|]. unfold orphans. apply list_elem_of_filter. split; [|done].
  unfold trackedPIDs. rewrite list_elem_of_filter, list_elem_of_fmap. simpl.
  intros [_ (info' & E & ([id ?] & -> & H)%list_elem_of_fmap)].
  apply elem_of_map_to_list in H. simpl in *.
  apply lookup_insert_Some in H as [[_ <-]|[_ H]]; [done|]. by eapply Hnot.
Qed.
End Spec.

(** ** Runs *)

Module LauncherServiceDemo.
Definition manifest : Manifest :=
  mkManifest "kv" "1" "./kv" "session" (mkHealthCheckConfig 0 "/health" 0 0 0) ∅ "/p/kv/manifest.yaml".
Definition registry : Registry := mkRegistry {["kv"%string := manifest]} "/p".
Definition start : @Launcher workQueue := NewService DefaultConfig 1 registry.
Abbreviation from_start ls := (la_run 0 DefaultConfig ls start).
Definition after (ls : list la_label) : @Launcher workQueue := default start (from_start ls).

Lemma after_la_reachable ls :
  is_Some (from_start ls) → la_reachable (Q := workQueue) 0 DefaultConfig (after ls).
Proof.
  intros [la E]. unfold after. rewrite E. simpl.
  eapply (run_labels_invariant _ _ _ _ _ (la_reach_step _ _)); [constructor|exact E].
Qed.

(** A launch of the pattern, which asks for level [lvl] of the protocol. *)
Definition launch (lvl : Z) (namespace session : string) : rpc :=
  RpcLaunch (mkLaunchRequest "kv" lvl namespace session ∅ 10).
Definition show (n : Z) : string := "port".

(** The operating system starts process [pid], which becomes healthy. *)
Definition up (pid : Z) : sync_env := mkSyncEnv true true (Some pid) 0 true TExited.
(** A process that has died; its successor [pid] becomes healthy. *)
Definition died (pid : Z) : sync_env := mkSyncEnv false false (Some pid) 0 true TExited.

(** RPC [j] starts, makes call [i] of the manager, and the update is submitted. *)
Definition submit (lvl : IsolationLevel) (j i : nat) (t : Z) (r : rpc) : list la_label :=
  [ARpc r; ARpcStep t j; AManager lvl (IStep t i); AManager lvl (IStep t i)].
Definition begin_turn (lvl : IsolationLevel) (w : nat) : list la_label :=
  [AManager lvl (IManager (LReceive w)); AManager lvl (IManager (LLock w));
   AManager lvl (IManager (LExecute w))].
Definition end_turn (lvl : IsolationLevel) (w : nat) (t : Z) : list la_label :=
  [AManager lvl (IManager (LComplete w t f64_half))].
Definition sync (lvl : IsolationLevel) (w : nat) (t : Z) (env : sync_env) : la_label :=
  ASync lvl w t env show.
(** A turn of a worker with [n] steps of the syncer. *)
Definition turn (lvl : IsolationLevel) (w n : nat) (t : Z) (env : sync_env) : list la_label :=
  begin_turn lvl w ++ replicate n (sync lvl w t env) ++ end_turn lvl w t.
(** The call returns its handle and the RPC answers. *)
Definition reply (lvl : IsolationLevel) (j i : nat) (t : Z) : list la_label :=
  [AManager lvl (IStep t i); ARpcStep t j; ARpcStep t j; ARpcStep t j].
(** The periodic resync of the worker that is due. *)
Definition resync (lvl : IsolationLevel) (t : Z) : list la_label :=
  [AManager lvl (IManager (LConsDequeue t)); AManager lvl (IManager (LConsLock t));
   AManager lvl (IManager LConsSignal)].

Definition answer_of (ls : list la_label) (j : nat) : option rpc_pc :=
  (λ x, x.2) <$> la_rpcs (after ls) !! j.

(** A session is launched and served. *)
Definition served : list la_label :=
  submit IsolationSession 0 0 2 (launch 3 "a" "s1") ++ turn IsolationSession 0 4 3 (up 100) ++
  reply IsolationSession 0 0 5.
Example served_ok :
  answer_of served 0 = Some (RpcDone (LaunchOk (mkLaunchResponse "session:s1" "" true))).
Proof. vm_compute. reflexivity. Qed.

(** Its termination is rejected by the syncer and runs into the timeout of the manager;
    the process is still tracked. *)
Definition terminated : list la_label :=
  served ++ submit IsolationSession 1 1 6 (RpcTerminate (mkTerminateRequest "session:s1" 0)) ++
  turn IsolationSession 0 1 7 (up 0) ++ [AManager IsolationSession (ITimeout 1); ARpcStep 8 1].
Example terminate_times_out :
  answer_of terminated 1 =
    Some (RpcDone (TerminateResponse false (Some (ErrTerminateTimeout "session:s1")))) ∧
  is_Some (la_processes (after terminated) !! "session:s1"%string) ∧
  la_os (after terminated) = la_os (after served).
Proof. vm_compute. eauto. Qed.

Lemma terminate_never_succeeds_witness :
  la_reachable (Q := workQueue) 0 DefaultConfig (after terminated) ∧
  ∀ e, answer_of terminated 1 ≠ Some (RpcDone (TerminateResponse true e)).
Proof.
  assert (la_reachable (Q := workQueue) 0 DefaultConfig (after terminated)) as Hr
    by (apply after_la_reachable; eexists; vm_compute; reflexivity).
  split; [exact Hr|]. intros e He. unfold answer_of in He.
  refine (proj2 (proj1 (terminate_never_succeeds 0 DefaultConfig (after terminated) Hr) 1%nat
                   (mkTerminateRequest "session:s1" 0) _ _) e eq_refl).
  revert He. vm_compute. done.
Defined.

(** A second session asks for a process of its own and gets the first one's: the
    default level is the namespace. *)
Definition two_sessions : list la_label :=
  served ++ submit IsolationSession 1 1 6 (launch 3 "a" "s2") ++ turn IsolationSession 1 1 7 (up 200) ++
  reply IsolationSession 1 1 8.
Example sessions_share_a_process :
  answer_of two_sessions 1 = Some (RpcDone (LaunchOk (mkLaunchResponse "session:s2" "" true))) ∧
  length (la_os (after two_sessions)) = 1%nat.
Proof. vm_compute. done. Qed.

Definition config_of (namespace session : string) : processConfig :=
  mkProcessConfigL "kv" manifest (mkIsolationKey namespace session) ∅.
Definition handle_after (ls : list la_label) (loc : nat) : processHandle :=
  default (mkProcessHandleL 0 (config_of "" "") 0 0 0 0 None 0 0) (handle_at loc (after ls)).

(** Two namespaces, with a process each. *)
Definition namespace_up (j : nat) (namespace : string) (pid : Z) (t : Z) : list la_label :=
  submit IsolationNamespace j j t (launch 2 namespace "s1") ++ turn IsolationNamespace j 4 t (up pid) ++
  reply IsolationNamespace j j t.
Definition two_namespaces : list la_label := namespace_up 0 "a" 100 2 ++ namespace_up 1 "b" 200 3.

Lemma processes_by_default_level_witness :
  ~ same_class IsolationNamespace (pcg_Key (ph_Config (handle_after two_namespaces 0)))
      (pcg_Key (ph_Config (handle_after two_namespaces 1))).
Proof.
  intros H.
  discriminate (proj2 (proj2 (processes_by_default_level 0 DefaultConfig (after two_namespaces)
                  "ns:a" "ns:b" 0 1 (handle_after two_namespaces 0) (handle_after two_namespaces 1)
                  (after_la_reachable two_namespaces (ltac:(eexists; vm_compute; reflexivity)))
                  (ltac:(vm_compute; reflexivity)) (ltac:(vm_compute; reflexivity))
                  (ltac:(vm_compute; reflexivity)) (ltac:(vm_compute; reflexivity)))) H).
Defined.

(** A launch for the namespace and one for a session of it begin together; the sync of
    the second one found no handle, and when its process is healthy the first one is
    tracked: the launcher dereferences nil. *)
Definition launch_race : list la_label :=
  submit IsolationNamespace 0 0 2 (launch 2 "a" "s1") ++
  submit IsolationSession 1 0 2 (launch 3 "a" "s2") ++
  begin_turn IsolationNamespace 0 ++ begin_turn IsolationSession 0 ++
  [sync IsolationNamespace 0 3 (up 100); sync IsolationSession 0 3 (up 200)] ++
  replicate 3 (sync IsolationNamespace 0 4 (up 100)) ++ end_turn IsolationNamespace 0 4 ++
  reply IsolationNamespace 0 0 5 ++ replicate 3 (sync IsolationSession 0 6 (up 200)).
Example launch_race_panics :
  answer_of launch_race 0 = Some (RpcDone (LaunchOk (mkLaunchResponse "ns:a" "" true))) ∧
  la_panicked (after launch_race) = true.
Proof. vm_compute. done. Qed.

(** The process of namespace [a] dies and is restarted; the restart is at its last step. *)
Definition restarting : list la_label :=
  two_namespaces ++ resync IsolationNamespace (100 * Second) ++ begin_turn IsolationNamespace 0 ++
  replicate 3 (sync IsolationNamespace 0 (100 * Second) (died 101)).
Definition restarted : list la_label :=
  restarting ++ [sync IsolationNamespace 0 (100 * Second) (died 101)] ++
  end_turn IsolationNamespace 0 (100 * Second).

(** The restarted process and the next namespace get the same port. *)
Example port_collision :
  (λ e, if e is OsStart pid port _ then Some (pid, port) else None) <$>
    la_os (after (restarted ++ namespace_up 2 "c" 300 (101 * Second))) =
  [Some (100, 50051); Some (200, 50061); Some (101, 50071); Some (300, 50071)].
Proof. vm_compute. reflexivity. Qed.

Lemma restarted_process_is_orphan_witness :
  OsTerm 101 ∈ la_os (detectAndCleanup [101; 200] (λ _, TExited)
     (sync_wait DefaultConfig (100 * Second) (died 101) show (Some 0%nat) 2 (config_of "a" "s1")
        (after restarting)).1).
Proof.
  refine (restarted_process_is_orphan DefaultConfig (100 * Second) (died 101) show 0 2
            (handle_after restarting 0) (handle_after restarting 2) (config_of "a" "s1")
            (default (mkProcessInfo "" "" "" "" IsolationNone "" 0 0 ∅)
               (la_processes (after restarting) !! "ns:a"%string)) [101; 200] (λ _, TExited)
            (after restarting) _ _ _ _ _ _ _ _).
  - vm_compute. reflexivity.
  - vm_compute. reflexivity.
  - lia.
  - reflexivity.
  - vm_compute. reflexivity.
  - vm_compute. done.
  - assert (map_Forall (λ _ i, pi_PID i ≠ 101) (la_processes (after restarting))) as H.
    { apply map_Forall_to_list. vm_compute. repeat constructor; done. }
    exact H.
  - vm_compute. by left.
Defined.

(** Five unhealthy checks in a row are the end of a process. *)
Definition sick_handle (errors : Z) : processHandle :=
  set_health 0 errors None 0 (handle_after two_namespaces 0).
Definition sick : sync_env := mkSyncEnv true false None 0 false TExited.

Lemma circuit_breaker_witness :
  ∃ e, (syncer_step DefaultConfig 9 sick show KSync None
          (Some (Some (mkProcessConfig (mkIsolationKey "a" "s1") (config_of "a" "s1") 10)))
          (put_handle 0 (sick_handle 4) (after two_namespaces))).2 = inr (true, e).
Proof.
  refine (proj2 (circuit_breaker DefaultConfig 9 sick show KSync None
            (Some (Some (mkProcessConfig (mkIsolationKey "a" "s1") (config_of "a" "s1") 10)))
            (put_handle 0 (sick_handle 4) (after two_namespaces)) _ _ (surjective_pairing _)) _).
  split_and!; [done|done|]. eexists. split; [done|]. exists 0%nat, (sick_handle 4).
  split_and!; vm_compute; done.
Defined.
End LauncherServiceDemo.
