(* ===== verification/LocalStack.v ===== *)
(** * cmd/prismctl/cmd/local.go: the local development stack

    Starting, stopping and inspecting the processes of a local stack, which are found
    again through their pid files, and the request for a namespace, composed with the
    control plane of the admin node that the stack starts.  The host is the set of
    running processes, the pid files and the interrupts that were sent; what the file
    system and the operating system answer is an argument of each step. *)

From Stdlib Require Import Ascii.
From S2P Require Import Prelude GoStrings Launcher AdminTypes AdminFsm AdminFsmSpec Partition ControlPlane LauncherAdmin.
Local Open Scope Z_scope.

(** ** The host *)

Record host := mkHost {
  ho_running : gset Z;
  ho_pidfiles : gmap string string;
  ho_interrupted : list Z }.

Definition set_running (r : gset Z) (h : host) : host := mkHost r (ho_pidfiles h) (ho_interrupted h).
Definition write_pidfile (name : string) (pid : Z) (h : host) : host :=
  mkHost (ho_running h) (<[name := print_uint pid]> (ho_pidfiles h)) (ho_interrupted h).
Definition remove_pidfile (name : string) (h : host) : host :=
  mkHost (ho_running h) (delete name (ho_pidfiles h)) (ho_interrupted h).

(** [fmt.Sscanf(s, "%d", &pid)]: blanks, a sign, digits; the rest is ignored.  A newline
    is not a blank. *)
Fixpoint skip_blanks (s : string) : string :=
  match s with
  | String a s' => if strings.is_space a && negb (bool_decide (a = "010"%char)) then skip_blanks s' else s
  | EmptyString => EmptyString
  end.
Definition Sscanf_int (s : string) : option Z :=
  let '(neg, s) :=
    match skip_blanks s with
    | String a s' =>
        if bool_decide (a = "-"%char) then (true, s')
        else if bool_decide (a = "+"%char) then (false, s') else (false, String a s')
    | EmptyString => (false, EmptyString)
    end in
  match ParseUint (span_digits s) with
  | Some n =>
      let n := if (neg : bool) then - n else n in
      if (min_int64 <=? n) && (n <=? max_int64) then Some n else None
  | None => None
  end.

(** [process.Signal]: a nil signal is of no supported type; a process that is gone
    cannot be signalled. *)
Inductive signal := Interrupt.
Definition Signal (sig : option signal) (pid : Z) (h : host) : host * bool :=
  match sig with
  | None => (h, false)
  | Some Interrupt =>
      if bool_decide (pid ∈ ho_running h)
      then (mkHost (ho_running h) (ho_pidfiles h) (ho_interrupted h ++ [pid]), true)
      else (h, false)
  end.

(** ** Finding the binaries *)

Section Directories.
(** Whether a path is not missing. *)
Context (exists_ : string → bool).

Definition requiredBinaries : list string := ["prism-proxy"; "prism-admin"; "pattern-launcher"]%string.
Definition isInBinariesDir (dir : string) : bool :=
  forallb (λ binary, exists_ (filepath.Join dir binary)) requiredBinaries.

Definition binaries_dirs : list string := ["."; "build/binaries"; "../build/binaries"; "../../build/binaries"]%string.
Definition findBinariesDir : option string := List.find isInBinariesDir binaries_dirs.
End Directories.

(** ** Starting *)

Inductive health_check := NoHealthCheck | GrpcHealth (addr : string) | HttpHealth (url : string).

Record component := mkComponent {
  cp_name : string;
  cp_binary : string;
  cp_args : list string;
  cp_logFile : string;
  cp_health : health_check;
  cp_timeout : Z }.

Definition components (absBinDir logsDir patternsDir : string) : list component :=
  [mkComponent "prism-admin" (filepath.Join absBinDir "prism-admin") ["serve"; "--port=8981"]
     (filepath.Join logsDir "admin.log") (GrpcHealth "localhost:8981") (10 * Second);
   mkComponent "pattern-launcher" (filepath.Join absBinDir "pattern-launcher")
     ["--admin-endpoint=localhost:8981"; "--launcher-id=launcher-01"; "--grpc-port=7070";
      "--patterns-dir=" +:+ patternsDir]
     (filepath.Join logsDir "launcher.log") (HttpHealth "http://localhost:9093/health") (10 * Second);
   mkComponent "keyvalue-runner" (filepath.Join absBinDir "keyvalue-runner") ["--proxy-addr=localhost:9090"]
     (filepath.Join logsDir "keyvalue.log") NoHealthCheck (2 * Second)]%string.

(** The polls of a health check: a tick with the status of the answer, [None] when there
    is none, or with whether a gRPC client could be made; the timeout. *)
Inductive health_event := HttpTick (status : option Z) | GrpcTick (client : bool) | HealthTimeout.

(** [Some true]: ready; [Some false]: timed out; [None]: still waiting. *)
Fixpoint waitForHTTPHealth (events : list health_event) : option bool :=
  match events with
  | HealthTimeout :: _ => Some false
  | HttpTick (Some 200) :: _ => Some true
  | _ :: events => waitForHTTPHealth events
  | [] => None
  end.
(** Making a client opens no connection. *)
Fixpoint waitForGRPCHealth (events : list health_event) : option bool :=
  match events with
  | HealthTimeout :: _ => Some false
  | GrpcTick true :: _ => Some true
  | _ :: events => waitForGRPCHealth events
  | [] => None
  end.

(** What happens to one component: the binary is there, the log file can be made, the
    process starts with a pid, the pid file can be written, the polls of its check. *)
Record start_env := mkStartEnv {
  se_binary : bool;
  se_log : bool;
  se_pid : option Z;
  se_pidfile : bool;
  se_health : list health_event }.

Inductive local_error :=
  | ErrNoBinaries
  | ErrLogsDir
  | ErrAbs
  | ErrNoPatterns
  | ErrBinaryNotFound (binary : string)
  | ErrLogFile (name : string)
  | ErrStart (name : string)
  | ErrHealth (name : string).

(** Whether the check of a component fails; one that has no outcome is still running. *)
Definition health_fails (c : component) (e : start_env) : option bool :=
  match cp_health c with
  | NoHealthCheck => Some false
  | GrpcHealth _ => negb <$> waitForGRPCHealth (se_health e)
  | HttpHealth _ => negb <$> waitForHTTPHealth (se_health e)
  end.

(** One round of the loop: an error, or the pid. *)
Definition start_component (c : component) (e : start_env) (h : host) : host * (Z + local_error) :=
  if negb (se_binary e) then (h, inr (ErrBinaryNotFound (cp_binary c)))
  else if negb (se_log e) then (h, inr (ErrLogFile (cp_name c)))
  else match se_pid e with
       | None => (h, inr (ErrStart (cp_name c)))
       | Some pid =>
           let h := set_running ({[ pid ]} ∪ ho_running h) h in
           (if se_pidfile e then write_pidfile (cp_name c) pid h else h, inl pid)
       end.

(** The pids that were started and the first error of the loop. *)
Fixpoint start_loop (ces : list (component * start_env)) (h : host) : host * list Z * option local_error :=
  match ces with
  | [] => (h, [], None)
  | (c, e) :: ces =>
      match start_component c e h with
      | (h, inr err) => (h, [], Some err)
      | (h, inl pid) => let '(h, pids, err) := start_loop ces h in (h, pid :: pids, err)
      end
  end.

(** The outcome of the health checks, all of which are waited for: [arrival] says which
    of the errors comes first. *)
Definition await_health (arrival : nat) (ces : list (component * start_env)) : option (option local_error) :=
  outcomes ← mapM (λ ce, pair (cp_name ce.1) <$> health_fails ce.1 ce.2) ces;
  match (filter (λ o, o.2 = true) outcomes).*1 with
  | [] => Some None
  | f :: fs => Some (Some (ErrHealth (default f ((f :: fs) !! (arrival mod S (length fs))%nat))))
  end.

Record stack_env := mkStackEnv {
  ke_exists : string → bool;
  ke_mkdir : bool;
  ke_abs : option string;
  ke_start : string → start_env;
  ke_arrival : nat }.

(** The pids started, and the outcome: [None] while the health checks go on. *)
Definition startLocalStack (env : stack_env) (h : host) : host * list Z * option (option local_error) :=
  match findBinariesDir (ke_exists env) with
  | None => (h, [], Some (Some ErrNoBinaries))
  | Some binDir =>
      let logsDir := filepath.Join binDir "../logs" in
      if negb (ke_mkdir env) then (h, [], Some (Some ErrLogsDir))
      else match ke_abs env with
      | None => (h, [], Some (Some ErrAbs))
      | Some absBinDir =>
          let patternsDir := filepath.Join absBinDir "../../patterns" in
          if negb (ke_exists env patternsDir) then (h, [], Some (Some ErrNoPatterns))
          else
            let ces := (λ c, (c, ke_start env (cp_name c))) <$> components absBinDir logsDir patternsDir in
            let '(h, pids, err) := start_loop ces h in
            (h, pids, match err with Some e => Some (Some e) | None => await_health (ke_arrival env) ces end)
      end
  end.

(** ** Stopping and looking *)

Definition stop_order : list string := ["keyvalue-runner"; "pattern-launcher"; "prism-admin"]%string.

(** [FindProcess] always succeeds here. *)
Definition stop_component (h : host) (name : string) : host :=
  match ho_pidfiles h !! name ≫= Sscanf_int with
  | None => h
  | Some pid =>
      let '(h, ok) := Signal (Some Interrupt) pid h in
      if (ok : bool) then remove_pidfile name h else h
  end.

(** [None]: the binaries were not found. *)
Definition stopLocalStack (exists_ : string → bool) (h : host) : option host :=
  match findBinariesDir exists_ with
  | None => None
  | Some _ => Some (foldl stop_component h stop_order)
  end.

Inductive status := NotRunning | InvalidPID | Exited (pid : Z) | Running (pid : Z).

Definition component_status (h : host) (name : string) : status :=
  match ho_pidfiles h !! name with
  | None => NotRunning
  | Some data =>
      match Sscanf_int data with
      | None => InvalidPID
      | Some pid => if (Signal None pid h).2 then Running pid else Exited pid
      end
  end.

Definition status_order : list string := ["prism-admin"; "pattern-launcher"; "keyvalue-runner"]%string.
Definition showLocalStackStatus (exists_ : string → bool) (h : host) : option (list (string * status)) :=
  match findBinariesDir exists_ with
  | None => None
  | Some _ => Some ((λ name, (name, component_status h name)) <$> status_order)
  end.

(** The log files by the names of the command. *)
Definition logMap : gmap string string :=
  {[ "admin" := "admin.log"; "proxy1" := "proxy1.log"; "proxy2" := "proxy2.log"; "launcher" := "launcher.log";
     "keyvalue" := "keyvalue.log" ]}%string.
Definition showComponentLog (read : string → option string) (logsDir name : string) : option string :=
  match logMap !! name with
  | None => None
  | Some file => read (filepath.Join logsDir file)
  end.

(** ** The namespace of the stack *)

Inductive provision_error := ErrNoProxyAvailable | ErrCreate (e : rpc_error) | ErrRejected (message : string) | ErrConnect.

Definition provision_request (namespace : string) : CreateNamespaceRequest :=
  mkCreateNamespaceRequest namespace "prismctl-local" (Some {[ "source" := "prismctl-local" ]}) "local-user"%string.

(** Whether the text of the error has "no proxy assigned to partition" in it. *)
Definition no_proxy_assigned (e : rpc_error) : bool := match e with ErrNoProxyForPartition _ _ => true | _ => false end.

(** [call]: the service behind the connection, [None] when its handler panics. *)
Definition provisionNamespace {S} (call : CreateNamespaceRequest → S → option (S * result rpc_error CreateNamespaceResponse))
    (connected : bool) (namespace : string) (s : S) : option (S * (CreateNamespaceResponse + provision_error)) :=
  if negb connected then Some (s, inr ErrConnect)
  else match call (provision_request namespace) s with
       | None | Some (_, Panic) => None
       | Some (s, Err e) => Some (s, inr (if no_proxy_assigned e then ErrNoProxyAvailable else ErrCreate e))
       | Some (s, Ok resp) => Some (s, if cnp_Success resp then inl resp else inr (ErrRejected (cnp_Message resp)))
       end.

(** ** Properties *)

Lemma span_digits_id s : all_chars is_digit s = true → span_digits s = s.
Proof. induction s as [|a s IH]; simpl; [done|]. intros [-> H]%andb_true_iff. by rewrite IH. Qed.

Lemma digit_is_plain a : is_digit a = true → strings.is_space a = false ∧ a ≠ "-"%char ∧ a ≠ "+"%char.
Proof.
  intros H. split_and!; [by apply digit_not_space|by intros ->..].
Qed.

(** The pid that was written is read back. *)
Lemma Sscanf_print pid : 0 ≤ pid ≤ max_int64 → Sscanf_int (print_uint pid) = Some pid.
Proof.
  intros Hp. unfold Sscanf_int. pose proof (print_uint_digits pid) as Hd.
  assert (ParseUint (print_uint pid) = Some pid) as Hparse
    by (apply ParseUint_print; unfold max_int64 in *; lia).
  destruct (print_uint pid) as [|a t] eqn:E; [done|]. simpl in Hd. apply andb_true_iff in Hd as [Ha Ht].
  destruct (digit_is_plain a Ha) as (Hs & Hm & Hpl). simpl skip_blanks. rewrite Hs. simpl.
  rewrite !bool_decide_eq_false_2 by done. simpl span_digits. rewrite Ha, (span_digits_id t Ht), Hparse.
  destruct (Z.leb_spec min_int64 pid), (Z.leb_spec pid max_int64); unfold min_int64 in *; try done; lia.
Qed.

(** *** Stopping *)

(** The process that stopping [name] interrupts. *)
Definition target (h : host) (name : string) : option Z :=
  pid ← ho_pidfiles h !! name ≫= Sscanf_int;
  if bool_decide (pid ∈ ho_running h) then Some pid else None.

Lemma stop_component_eq h name :
  stop_component h name =
    match target h name with
    | None => h
    | Some pid => mkHost (ho_running h) (delete name (ho_pidfiles h)) (ho_interrupted h ++ [pid])
    end.
Proof.
  unfold stop_component, target. destruct (_ ≫= Sscanf_int) as [pid|]; simpl; [|done]. by case_bool_decide.
Qed.

Lemma stop_component_target h name name' : name' ≠ name → target (stop_component h name) name' = target h name'.
Proof.
  intros Hne. rewrite stop_component_eq. destruct (target h name); [|done]. unfold target. simpl.
  by rewrite lookup_delete_ne.
Qed.

Lemma stop_fold names h : NoDup names →
  let h' := foldl stop_component h names in
  ho_running h' = ho_running h ∧ ho_interrupted h' = ho_interrupted h ++ omap (target h) names ∧
  ∀ name, ho_pidfiles h' !! name =
    if bool_decide (name ∈ names ∧ is_Some (target h name)) then None else ho_pidfiles h !! name.
Proof.
  revert h. induction names as [|n names IH]; intros h Hnd; csimpl.
  { by rewrite app_nil_r. }
  apply NoDup_cons in Hnd as [Hn Hnd]. destruct (IH (stop_component h n) Hnd) as (Hr & Hi & Hf).
  assert (∀ name, name ∈ names → target (stop_component h n) name = target h name) as Ht.
  { intros name Hin. apply stop_component_target. set_solver. }
  assert (omap (target (stop_component h n)) names = omap (target h) names) as Ho.
  { clear -Ht. induction names as [|m names IHn]; csimpl; [done|]. rewrite (Ht m) by set_solver.
    rewrite IHn; [done|]. intros name Hin. apply Ht. set_solver. }
  rewrite Hr, Hi, Ho. split_and!.
  - rewrite stop_component_eq. by destruct (target h n).
  - rewrite stop_component_eq. destruct (target h n); simpl; [by rewrite <- app_assoc|done].
  - intros name. rewrite Hf. destruct (decide (name = n)) as [->|Hne].
    + rewrite bool_decide_eq_false_2 by naive_solver. rewrite stop_component_eq.
      destruct (target h n) as [pid|] eqn:E; simpl.
      * rewrite lookup_delete_eq, bool_decide_eq_true_2; [done|]. split; [apply list_elem_of_here|by eexists].
      * rewrite bool_decide_eq_false_2; [done|]. by intros [_ [? ?]].
    + rewrite stop_component_target by done. assert (ho_pidfiles (stop_component h n) !! name = ho_pidfiles h !! name) as ->.
      { rewrite stop_component_eq. destruct (target h n); [|done]. by apply lookup_delete_ne. }
      rewrite (bool_decide_ext (name ∈ names ∧ _) (name ∈ n :: names ∧ is_Some (target h name))); [done|].
      rewrite elem_of_cons. naive_solver.
Qed.

(** *** Starting *)

(** The pids are numbers that fit a pid file, and every pid file is written. *)
Definition good_start (env : stack_env) : Prop :=
  ∀ name, se_pidfile (ke_start env name) = true ∧
    ∀ pid, se_pid (ke_start env name) = Some pid → 0 ≤ pid ≤ max_int64.

Lemma start_loop_pidfiles env cs h h' pids err : good_start env → NoDup (cp_name <$> cs) →
  start_loop ((λ c, (c, ke_start env (cp_name c))) <$> cs) h = (h', pids, err) →
  (∀ name, name ∉ cp_name <$> cs → ho_pidfiles h' !! name = ho_pidfiles h !! name) ∧
  ho_interrupted h' = ho_interrupted h ∧
  ∀ pid, pid ∈ pids → ∃ name, name ∈ cp_name <$> cs ∧ ho_pidfiles h' !! name ≫= Sscanf_int = Some pid.
Proof.
  intros Hg. revert h pids. induction cs as [|c cs IH]; intros h pids Hnd; csimpl.
  { intros [= <- <- <-]. split_and!; [done..|]. by intros pid []%not_elem_of_nil. }
  apply NoDup_cons in Hnd as [Hn Hnd]. destruct (Hg (cp_name c)) as [Hfile Hpid]. unfold start_component.
  destruct (se_binary _); simpl; [|intros [= <- <- <-]; split_and!; [done..|by intros pid []%not_elem_of_nil]].
  destruct (se_log _); simpl; [|intros [= <- <- <-]; split_and!; [done..|by intros pid []%not_elem_of_nil]].
  destruct (se_pid _) as [pid|]; [|intros [= <- <- <-]; split_and!; [done..|by intros pid []%not_elem_of_nil]].
  rewrite Hfile. destruct (start_loop _ _) as [[h1 pids1] err1] eqn:E. intros [= <- <- <-].
  destruct (IH _ _ Hnd E) as (Hf & Hi & Hp). simpl in Hf, Hi. split_and!.
  - intros name Hname. rewrite Hf by set_solver. apply lookup_insert_ne. set_solver.
  - done.
  - intros q [->|Hq]%elem_of_cons.
    + exists (cp_name c). split; [apply list_elem_of_here|]. rewrite Hf by done. simpl. rewrite lookup_insert_eq.
      by apply Sscanf_print, Hpid.
    + destruct (Hp q Hq) as (name & Hin & Hname). exists name. split; [by apply list_elem_of_further|done].
Qed.

(** Whatever goes wrong while the stack is started, stopping it reaches every process
    that was started and is still alive: it is interrupted and its pid file removed, and
    nothing else is interrupted but what the pid files of the stack name. *)
Theorem stop_reaches_what_was_started env h h1 pids r alive :
  good_start env → startLocalStack env h = (h1, pids, r) → pids ≠ [] →
  ∃ h2, stopLocalStack (ke_exists env) (set_running alive h1) = Some h2 ∧
    (∀ pid, pid ∈ pids → pid ∈ alive → pid ∈ ho_interrupted h2) ∧
    (∀ name pid, name ∈ stop_order → ho_pidfiles h2 !! name ≫= Sscanf_int = Some pid → pid ∉ alive) ∧
    (∀ pid, pid ∈ ho_interrupted h2 → pid ∈ ho_interrupted h ∨
       pid ∈ alive ∧ ∃ name, name ∈ stop_order ∧ ho_pidfiles h1 !! name ≫= Sscanf_int = Some pid).
Proof.
  intros Hg Hs Hne. unfold startLocalStack in Hs. unfold stopLocalStack.
  destruct (findBinariesDir (ke_exists env)) as [dir|]; [|by injection Hs; intros; subst].
  destruct (ke_mkdir env); [|by injection Hs; intros; subst].
  destruct (ke_abs env) as [abs|]; [|by injection Hs; intros; subst]. cbv zeta in Hs. cbn [negb] in Hs.
  destruct (ke_exists env _); [|by injection Hs; intros; subst]. cbn [negb] in Hs.
  destruct (start_loop _ h) as [[h' pids'] err] eqn:E. injection Hs as -> -> _.
  assert (NoDup (cp_name <$> components abs (filepath.Join dir "../logs") (filepath.Join abs "../../patterns"))) as Hnd
    by (apply (bool_decide_unpack _); by vm_compute).
  destruct (start_loop_pidfiles _ _ _ _ _ _ Hg Hnd E) as (_ & Hi & Hp).
  eexists. split; [done|]. assert (NoDup stop_order) as Hord by (apply (bool_decide_unpack _); by vm_compute).
  destruct (stop_fold stop_order (set_running alive h1) Hord) as (_ & Hi2 & Hf2). rewrite Hi2. simpl ho_interrupted.
  rewrite Hi. split_and!.
  - intros pid Hin Halive. apply elem_of_app. right. destruct (Hp pid Hin) as (name & Hname & Hpid).
    apply list_elem_of_omap. exists name. split; [clear -Hname; simpl in Hname; set_solver|].
    unfold target. simpl. rewrite Hpid. simpl. by rewrite bool_decide_eq_true_2.
  - intros name pid Hname Hpid Halive. rewrite Hf2 in Hpid. case_bool_decide as Hb; [done|]. apply Hb. split; [done|].
    unfold target. simpl in *. rewrite Hpid. simpl. rewrite bool_decide_eq_true_2 by done. by eexists.
  - intros pid [Hin|Hin]%elem_of_app; [by left|right]. apply list_elem_of_omap in Hin as (name & Hname & Ht).
    unfold target in Ht. simpl in Ht. apply bind_Some in Ht as (q & Hq & Ht). case_bool_decide; [|done].
    injection Ht as ->. split; [done|]. by exists name.
Qed.

(** *** Looking *)

(** The status asks with a nil signal, which is always refused: no component is ever
    reported as running. *)
Theorem nothing_is_reported_running exists_ h report name st :
  showLocalStackStatus exists_ h = Some report → (name, st) ∈ report → ∀ pid, st ≠ Running pid.
Proof.
  assert (∀ n pid, component_status h n ≠ Running pid) as Hno.
  { intros n pid. unfold component_status. destruct (ho_pidfiles h !! n) as [data|]; [|done]. by destruct (Sscanf_int data). }
  unfold showLocalStackStatus. destruct (findBinariesDir exists_); [|done]. intros [= <-] Hin pid ->.
  rewrite !elem_of_cons, elem_of_nil in Hin. destruct Hin as [[= _ H]|[[= _ H]|[[= _ H]|[]]]]; by destruct (Hno _ pid (eq_sym H)).
Qed.

(** *** The namespace *)

(** Only a registration of a proxy and its heartbeats touch the proxies. *)
Lemma dispatch_proxies now cmd f f' :
  cmd_Type cmd ≠ COMMAND_TYPE_REGISTER_PROXY → cmd_Type cmd ≠ COMMAND_TYPE_UPDATE_PROXY_STATUS →
  dispatch now cmd f = Ok f' → GetAllProxies f' = GetAllProxies f.
Proof.
  intros H1 H2. unfold dispatch. destruct (cmd_Type cmd) eqn:E; try done.
  - destruct (GetCreateNamespace cmd) as [c|]; simpl; [|done]. unfold applyCreateNamespace.
    destruct (map_get _ _); (destruct (map_set _ _ _); simpl; [|done..]); by intros [= <-].
  - destruct (GetRegisterLauncher cmd) as [c|]; simpl; [|done]. unfold applyRegisterLauncher.
    destruct (map_set _ _ _); simpl; [|done..]. by intros [= <-].
  - destruct (GetAssignPattern cmd) as [c|]; simpl; [|done]. unfold applyAssignPattern.
    destruct (map_get _ (as_Patterns _)); (destruct (map_set _ _ _); simpl; [|done..]).
    + by intros [= <-].
    + destruct (map_get _ (as_Launchers _)); [|by intros [= <-]]. case_match; [|by intros [= <-]].
      destruct (map_set _ _ _); simpl; [|done..]. by intros [= <-].
  - destruct (GetUpdateLauncherStatus cmd) as [c|]; simpl; [|done]. unfold applyUpdateLauncherStatus.
    destruct (map_get _ _); [|done]. destruct (map_set _ _ _); simpl; [|done..]. by intros [= <-].
Qed.

Section Namespace.
Context {D : Type} (marshal : Command → option D) (unmarshal : D → option Command).
(** Protobuf writes every command and reads back what it wrote. *)
Context (marshal_total : ∀ cmd, is_Some (marshal cmd)).
Context (unmarshal_marshal : ∀ cmd data, marshal cmd = Some data → unmarshal data = Some cmd).

(** The cluster of the stack has no proxy. *)
Record no_proxy (c : AdminClient) (s : server) : Prop := {
  np_proxies : GetAllProxies (sv_fsm s) = [];
  np_capacity : ∃ a, capacity_of marshal c s a }.

Lemma propose_no_proxy cmd data s s' : marshal cmd = Some data →
  cmd_Type cmd ≠ COMMAND_TYPE_REGISTER_PROXY → cmd_Type cmd ≠ COMMAND_TYPE_UPDATE_PROXY_STATUS →
  propose unmarshal data s = Some s' → GetAllProxies (sv_fsm s') = GetAllProxies (sv_fsm s).
Proof using unmarshal_marshal.
  intros Hm H1 H2. rewrite (propose_eq marshal unmarshal unmarshal_marshal _ _ _ Hm).
  destruct (dispatch _ _ _) as [f|e|] eqn:Hd; [|by intros [= <-]|done]. intros [= <-].
  exact (dispatch_proxies _ _ _ _ H1 H2 Hd).
Qed.

Lemma no_proxy_step c s ev s' : no_proxy c s → admin_exec marshal unmarshal c ev s = Some s' → no_proxy c s'.
Proof using marshal_total unmarshal_marshal.
  intros [Hp [a Ha]] He.
  pose proof (capacity_simulation marshal unmarshal marshal_total unmarshal_marshal c ev s a Ha) as Hs.
  rewrite He in Hs. destruct (capacity_step c ev a) as [a'|]; [|done]. split; [|by exists a'].
  rewrite <- Hp. destruct Ha as [Hok _ _ _ Hpend]. destruct ev as [|now|k|cmd]; simpl in He.
  - destruct (register_eq marshal unmarshal marshal_total unmarshal_marshal c s Hok) as (f & Hd & Hr).
    rewrite Hr in He. injection He as <-. by refine (dispatch_proxies _ _ _ _ _ _ Hd).
  - destruct (heartbeat_eq marshal unmarshal marshal_total now c s) as (data & _ & Hh). rewrite Hh in He.
    by injection He as <-.
  - apply bind_Some in He as (data & Hdata & He).
    destruct (proj1 (Forall_lookup _ _) Hpend _ _ Hdata) as [now Hm].
    by rewrite (propose_no_proxy _ _ _ _ Hm ltac:(done) ltac:(done) He).
  - destruct (marshal (assign_command (sv_now s) cmd)) as [data|] eqn:Hm; [|done].
    by apply (propose_no_proxy _ _ _ _ Hm).
Qed.

(** The stack starts an admin node and a launcher and no proxy, so every request for a
    namespace fails, whatever the launcher and the cluster have done before. *)
Theorem local_namespace_needs_proxy c evs b now s namespace :
  run_labels (admin_exec marshal unmarshal c) evs (mkServer (NewAdminStateMachine b) now 0 []) = Some s →
  provisionNamespace (CreateNamespace marshal unmarshal (leader_env s) (sv_now s) (Err ErrForwarded)) true namespace
    (sv_fsm s) = Some (sv_fsm s, inr ErrNoProxyAvailable).
Proof using marshal_total unmarshal_marshal.
  intros Hrun. assert (no_proxy c s) as [Hp _].
  { apply (run_labels_invariant (admin_exec marshal unmarshal c) (no_proxy c) evs _ s) in Hrun; [done| |].
    - intros s0 l s1. apply no_proxy_step.
    - split; [done|]. exists (mkCapacity None ∅ 0). split; simpl;
        [apply NewAdminStateMachine_ok|by vm_compute|by vm_compute|done|constructor]. }
  unfold provisionNamespace, CreateNamespace, getProxyForPartition. simpl. by rewrite Hp.
Qed.
End Namespace.

(** ** Concrete runs *)

Module LocalDemo.

Definition everything (_ : string) : bool := true.
Definition good (pid : Z) : start_env := mkStartEnv true true (Some pid) true [GrpcTick true; HttpTick None; HttpTick (Some 200)].
Definition pids_from (base : Z) (name : string) : start_env :=
  good (base + (if bool_decide (name = "prism-admin"%string) then 0
                else if bool_decide (name = "pattern-launcher"%string) then 1 else 2)).
Definition stack (base : Z) : stack_env := mkStackEnv everything true (Some "/prism/build/binaries") (pids_from base) 0.
Definition bare : host := mkHost ∅ ∅ [].

Example stack_comes_up :
  (λ '(_, pids, r), (pids, r)) (startLocalStack (stack 100) bare) = ([100; 101; 102], Some None).
Proof. vm_compute. reflexivity. Qed.

(** Starting twice overwrites the pid files: the first processes are never stopped. *)
Example second_start_leaks :
  ho_interrupted <$> stopLocalStack everything (startLocalStack (stack 200) (startLocalStack (stack 100) bare).1.1).1.1
    = Some [202; 201; 200].
Proof. vm_compute. reflexivity. Qed.

(** A process whose pid file could not be written is not stopped either. *)
Example unwritten_pidfile_leaks :
  let env name := mkStartEnv true true (Some 7) (negb (bool_decide (name = "prism-admin"%string))) [GrpcTick true; HttpTick (Some 200)] in
  let h := (startLocalStack (mkStackEnv everything true (Some "/b") env 0) bare).1.1 in
  ho_pidfiles h !! "prism-admin"%string = None.
Proof. vm_compute. reflexivity. Qed.

(** The check of the admin node succeeds when nothing listens. *)
Example grpc_check_needs_no_server : waitForGRPCHealth [GrpcTick true] = Some true.
Proof. reflexivity. Qed.

(** The launcher is missing: the admin node stays up, and stopping reaches it. *)
Definition broken : stack_env :=
  mkStackEnv everything true (Some "/prism/build/binaries")
    (λ name, if bool_decide (name = "pattern-launcher"%string)
             then mkStartEnv false true None true [] else pids_from 100 name) 0.
Definition half_up : host := mkHost {[ 100 ]} {[ "prism-admin"%string := "100"%string ]} [].

Lemma stop_reaches_what_was_started_witness :
  ∃ h2, stopLocalStack everything (set_running {[ 100 ]} half_up) = Some h2 ∧
    (∀ pid, pid ∈ [100] → pid ∈ ({[ 100 ]} : gset Z) → pid ∈ ho_interrupted h2) ∧
    (∀ name pid, name ∈ stop_order → ho_pidfiles h2 !! name ≫= Sscanf_int = Some pid → pid ∉ ({[ 100 ]} : gset Z)) ∧
    (∀ pid, pid ∈ ho_interrupted h2 → pid ∈ [] ∨
       pid ∈ ({[ 100 ]} : gset Z) ∧ ∃ name, name ∈ stop_order ∧ ho_pidfiles half_up !! name ≫= Sscanf_int = Some pid).
Proof.
  refine (stop_reaches_what_was_started broken bare half_up [100]
    (Some (Some (ErrBinaryNotFound "/prism/build/binaries/pattern-launcher"))) {[ 100 ]} _ _ _).
  - intros name. simpl. case_bool_decide; [done|]. split; [done|]. intros pid [= <-]. unfold max_int64.
    repeat case_bool_decide; lia.
  - vm_compute. reflexivity.
  - discriminate.
Defined.
End LocalDemo.
