(* ===== verification/LauncherOrphans.v ===== *)
(** * pkg/launcher/cleanup.go: finding orphans

    The scan of /proc, the wait for an orphan that was told to end, and the health
    monitor, composed with the orphan detector of [LauncherService].  The file system and
    the signals are arguments. *)

From Stdlib Require Import Ascii.
From S2P Require Import Prelude GoStrings Isolation LauncherMetrics LauncherService.
Local Open Scope Z_scope.

(** ** The scan *)

(** The entries of /proc, [None] when it cannot be read, with whether they are
    directories; the environment of a process. *)
Record proc_fs := mkProcFs {
  pf_entries : option (list (string * bool));
  pf_environ : Z → option string }.

(** [strconv.Atoi] *)
Definition Atoi (s : string) : option Z :=
  let '(neg, s) :=
    match s with
    | String a s' =>
        if bool_decide (a = "-"%char) then (true, s')
        else if bool_decide (a = "+"%char) then (false, s') else (false, s)
    | EmptyString => (false, s)
    end in
  match ParseUint s with
  | Some n =>
      let n := if (neg : bool) then - n else n in
      if (min_int64 <=? n) && (n <=? max_int64) then Some n else None
  | None => None
  end.

Definition getPIDsFromPS : list Z := [].
Definition getAllPIDs (fs : proc_fs) : list Z :=
  match pf_entries fs with
  | None => getPIDsFromPS
  | Some entries => omap (λ '(name, dir), if (dir : bool) then Atoi name else None) entries
  end.

Definition isPatternProcess (fs : proc_fs) (pid : Z) : bool :=
  match pf_environ fs pid with
  | None => false
  | Some data => existsb (strings.HasPrefix "PATTERN_NAME=") (strings.Split "000"%char data)
  end.

Definition findPatternProcesses (fs : proc_fs) : list Z := List.filter (isPatternProcess fs) (getAllPIDs fs).

(** ** The wait *)

Inductive orphan_event := OrphanTick (alive : bool) | OrphanTimeout (killed : bool).

(** What is sent, and the result: [None] while it waits, [Some false] an error. *)
Fixpoint orphan_wait (pid : Z) (events : list orphan_event) : list os_event * option bool :=
  match events with
  | [] => ([], None)
  | OrphanTimeout killed :: _ => ([OsKill pid], Some killed)
  | OrphanTick false :: _ => ([], Some true)
  | OrphanTick true :: events => orphan_wait pid events
  end.

(** [signalled]: SIGTERM could be sent. *)
Definition terminateOrphan_run (signalled : bool) (pid : Z) (events : list orphan_event) : list os_event * option bool :=
  if signalled then let '(es, r) := orphan_wait pid events in (OsTerm pid :: es, r) else ([], Some true).

(** ** The health monitor *)

(** The processes it reports as dead; it changes nothing. *)
Definition checkAllProcesses {Q} (alive : Z → bool) (la : @Launcher Q) : list string :=
  omap (λ '(id, info), if (0 <? pi_PID info) && negb (alive (pi_PID info)) then Some id else None)
    (map_to_list (la_processes la)).

(** ** Properties *)

(** The wait ends with the first sign that the process is gone, or with the timeout; it
    is the outcome that the detector is run with. *)
Lemma orphan_wait_ends pid ticks ev rest : Forall (λ e, e = OrphanTick true) ticks → ev ≠ OrphanTick true →
  terminateOrphan_run true pid (ticks ++ ev :: rest) =
    match ev with
    | OrphanTimeout true => (terminateOrphan TKilled pid, Some true)
    | OrphanTimeout false => (terminateOrphan TKillFailed pid, Some false)
    | OrphanTick _ => (terminateOrphan TExited pid, Some true)
    end.
Proof.
  intros Ht Hev. unfold terminateOrphan_run. induction Ht as [|e ticks -> Ht IH]; simpl; [|exact IH].
  by destruct ev as [[]|[]].
Qed.

(** A process whose environment has the variable, by its entry in /proc. *)
Definition pattern_process (fs : proc_fs) (pid : Z) : Prop :=
  ∃ entries name data var, pf_entries fs = Some entries ∧ (name, true) ∈ entries ∧ Atoi name = Some pid ∧
    pf_environ fs pid = Some data ∧ var ∈ strings.Split "000"%char data ∧
    strings.HasPrefix "PATTERN_NAME=" var = true.

Lemma findPatternProcesses_spec fs pid : pid ∈ findPatternProcesses fs ↔ pattern_process fs pid.
Proof.
  unfold findPatternProcesses. rewrite list_elem_of_In, filter_In, <- list_elem_of_In.
  unfold getAllPIDs, isPatternProcess, pattern_process. destruct (pf_entries fs) as [entries|].
  2:{ split; [intros [[]%not_elem_of_nil _]|naive_solver]. }
  rewrite list_elem_of_omap. split.
  - intros [([name []] & Hin & Ha) Hp]; [|done]. destruct (pf_environ fs pid) as [data|]; [|done].
    apply existsb_exists in Hp as (var & Hvar%list_elem_of_In & Hpre). by exists entries, name, data, var.
  - intros (es & name & data & var & [= <-] & Hin & Ha & -> & Hvar & Hpre). split; [by exists (name, true)|].
    apply existsb_exists. exists var. split; [by apply list_elem_of_In|done].
Qed.

(** A round of the detector tells exactly those processes to end whose environment names
    a pattern and which the launcher does not track: the processes of another launcher on
    the host and the children of a pattern, which inherit its environment, among them. *)
Theorem orphans_signalled {Q} fs term (la : @Launcher Q) : ∃ es,
  la_os (detectAndCleanup (findPatternProcesses fs) term la) = la_os la ++ es ∧
  ∀ pid, OsTerm pid ∈ es ↔ pattern_process fs pid ∧ pid ∉ trackedPIDs la.
Proof.
  eexists. split; [done|]. intros pid. rewrite list_elem_of_bind. unfold orphans. split.
  - intros (q & Ht & [Hq Hin]%list_elem_of_filter). rewrite <- findPatternProcesses_spec.
    assert (q = pid) as ->; [|done]. unfold terminateOrphan in Ht. destruct (term q); set_solver.
  - intros [Hp%findPatternProcesses_spec Hn]. exists pid. split; [|by apply list_elem_of_filter].
    unfold terminateOrphan. destruct (term pid); apply list_elem_of_here.
Qed.

(** ** Concrete scans *)

Module OrphanDemo.

Definition env (vars : string) : string := "PATH=/bin" +:+ String "000"%char vars.
Definition host_proc : proc_fs :=
  mkProcFs (Some [("100", true); ("self", true); ("200", true); ("300", true); ("400", false)]%string)
    (λ pid, if pid =? 100 then Some (env "PATTERN_NAME=redis")
            else if pid =? 200 then Some (env "PATTERN_NAME=redis")
            else Some (env "MY_PATTERN_NAME=x")).

(** The child 200 of the pattern 100 is found as well. *)
Example children_are_found : findPatternProcesses host_proc = [100; 200].
Proof. vm_compute. reflexivity. Qed.
End OrphanDemo.
