(* ===== verification/LauncherExport.v ===== *)
(** * pkg/launcher/metrics.go: the exports of a snapshot

    ExportPrometheus and ExportJSON.  The order in which a map is ranged over is an
    argument; [%v] of a map sorts the keys.  The text of the Prometheus format is read back
    sample by sample.
    The module [Errors] models errors.go. *)

From Stdlib Require Import Ascii SpecFloat.
From stdpp Require Import sorting pretty.
From S2P Require Import Prelude GoStrings Backoff RedisRegistry Isolation LauncherMetrics.
Import GoFloat.
Local Open Scope Z_scope.

Definition newline : char := "010"%char.
Definition quote_char : char := ascii_of_nat 34.
Definition in_quotes (s : string) : string := String quote_char (s +:+ String quote_char "").

(** ** fmt *)

(** [%d]. *)
Definition print_int (n : Z) : string :=
  if n <? 0 then String "-"%char (print_uint (- n)) else print_uint n.

(** [num / den] to the nearest integer, ties to the even one. *)
Definition round_half_even (num den : Z) : Z :=
  let q := num `div` den in
  match 2 * (num `mod` den) ?= den with
  | Lt => q
  | Gt => q + 1
  | Eq => if Z.even q then q else q + 1
  end.

(** [%.3f]. *)
Definition thousandths (m e : Z) : Z :=
  if 0 <=? e then 1000 * m * 2 ^ e else round_half_even (1000 * m) (2 ^ (- e)).
Definition pad3 (n : Z) : string :=
  (if n <? 10 then "00"%string else if n <? 100 then "0"%string else ""%string) +:+ print_uint n.
Definition sign_of (s : bool) : string := if s then "-"%string else ""%string.
Definition fixed3 (x : float64) : string :=
  match x with
  | S754_zero s => sign_of s +:+ "0.000"
  | S754_infinity s => if s then "-Inf" else "+Inf"
  | S754_nan => "NaN"
  | S754_finite s m e =>
      let n := thousandths (Z.pos m) e in
      sign_of s +:+ print_uint (n `div` 1000) +:+ "." +:+ pad3 (n `mod` 1000)
  end%string.

(** ** ExportPrometheus *)

(** The metrics with one sample per key. *)
Inductive family := FIsolation | FStarts | FStops | FFailures | FRestarts | FHealthOk | FHealthFail.
#[export] Instance family_eq_dec : EqDecision family.
Proof. solve_decision. Defined.

Definition family_values (f : family) (ms : MetricsSnapshot) : counters :=
  match f with
  | FIsolation => sn_IsolationDistribution ms
  | FStarts => sn_starts ms
  | FStops => sn_stops ms
  | FFailures => sn_failures ms
  | FRestarts => sn_restarts ms
  | FHealthOk => sn_healthOk ms
  | FHealthFail => sn_healthFail ms
  end.

Definition family_head (f : family) : string :=
  match f with
  | FIsolation => "pattern_launcher_isolation_level{level="
  | FStarts => "pattern_launcher_process_starts_total{pattern_isolation="
  | FStops => "pattern_launcher_process_stops_total{pattern_isolation="
  | FFailures => "pattern_launcher_process_failures_total{pattern_isolation="
  | FRestarts => "pattern_launcher_process_restarts_total{pattern_isolation="
  | FHealthOk | FHealthFail => "pattern_launcher_health_checks_total{pattern="
  end%string.
Definition family_tail (f : family) : string :=
  match f with
  | FHealthOk => ",result=" +:+ in_quotes "success" +:+ "} "
  | FHealthFail => ",result=" +:+ in_quotes "failure" +:+ "} "
  | _ => "} "
  end%string.

Definition sample (f : family) (kv : string * Z) : string :=
  family_head f +:+ String quote_char (kv.1 +:+ String quote_char (family_tail f +:+ print_int kv.2)).

Section Exports.
Context (order : counters → list (string * Z)).

Definition samples (f : family) (ms : MetricsSnapshot) : list string := sample f <$> order (family_values f ms).

Definition export_lines (ms : MetricsSnapshot) : list string :=
  ["# HELP pattern_launcher_processes_total Total number of processes";
   "# TYPE pattern_launcher_processes_total gauge";
   "pattern_launcher_processes_total{state=" +:+ in_quotes "running" +:+ "} " +:+ print_int (sn_RunningProcesses ms);
   "pattern_launcher_processes_total{state=" +:+ in_quotes "terminating" +:+ "} " +:+ print_int (sn_TerminatingProcesses ms);
   "pattern_launcher_processes_total{state=" +:+ in_quotes "failed" +:+ "} " +:+ print_int (sn_FailedProcesses ms);
   "";
   "# HELP pattern_launcher_isolation_level Process count by isolation level";
   "# TYPE pattern_launcher_isolation_level gauge"]%string ++
  samples FIsolation ms ++
  ["";
   "# HELP pattern_launcher_process_starts_total Total process starts";
   "# TYPE pattern_launcher_process_starts_total counter"]%string ++
  samples FStarts ms ++
  ["";
   "# HELP pattern_launcher_process_stops_total Total process stops";
   "# TYPE pattern_launcher_process_stops_total counter"]%string ++
  samples FStops ms ++
  ["";
   "# HELP pattern_launcher_process_failures_total Total process failures";
   "# TYPE pattern_launcher_process_failures_total counter"]%string ++
  samples FFailures ms ++
  ["";
   "# HELP pattern_launcher_process_restarts_total Total process restarts";
   "# TYPE pattern_launcher_process_restarts_total counter"]%string ++
  samples FRestarts ms ++
  ["";
   "# HELP pattern_launcher_health_checks_total Total health checks";
   "# TYPE pattern_launcher_health_checks_total counter"]%string ++
  samples FHealthOk ms ++ samples FHealthFail ms ++
  ["";
   "# HELP pattern_launcher_launch_duration_seconds Launch duration percentiles";
   "# TYPE pattern_launcher_launch_duration_seconds summary";
   "pattern_launcher_launch_duration_seconds{quantile=" +:+ in_quotes "0.5" +:+ "} " +:+ fixed3 (Seconds (sn_P50 ms));
   "pattern_launcher_launch_duration_seconds{quantile=" +:+ in_quotes "0.95" +:+ "} " +:+ fixed3 (Seconds (sn_P95 ms));
   "pattern_launcher_launch_duration_seconds{quantile=" +:+ in_quotes "0.99" +:+ "} " +:+ fixed3 (Seconds (sn_P99 ms));
   "";
   "# HELP pattern_launcher_uptime_seconds Launcher uptime in seconds";
   "# TYPE pattern_launcher_uptime_seconds counter";
   "pattern_launcher_uptime_seconds " +:+ print_int (sn_UptimeSeconds ms);
   ""]%string.

(** Every line ends in a newline. *)
Fixpoint text_of (lines : list string) : string :=
  match lines with [] => ""%string | l :: ls => l +:+ String newline (text_of ls) end.

Definition ExportPrometheus (ms : MetricsSnapshot) : string := text_of (export_lines ms).
End Exports.

(** ** ExportJSON *)

(** [%v] of a map. *)
Definition key_le (a b : string * Z) : Prop := Is_true (String.leb a.1 b.1).
#[export] Instance key_le_dec : RelDecision key_le := λ a b, Is_true_dec (String.leb a.1 b.1).
Definition sorted_entries (m : counters) : list (string * Z) :=
  merge_sort key_le (map_to_list m).
Definition print_map (m : counters) : string :=
  "map[" +:+ String.concat " " ((λ kv, kv.1 +:+ ":" +:+ print_int kv.2) <$> sorted_entries m) +:+ "]".

Definition json_field (last : bool) (kv : string * string) : string :=
  "  " +:+ in_quotes kv.1 +:+ ": " +:+ kv.2 +:+ (if last then "" else ",").
Definition ExportJSON (ms : MetricsSnapshot) : string :=
  (String.concat (String newline "")
    (["{"] ++
     (json_field false <$>
       [("total_processes", print_int (sn_TotalProcesses ms));
        ("running_processes", print_int (sn_RunningProcesses ms));
        ("terminating_processes", print_int (sn_TerminatingProcesses ms));
        ("failed_processes", print_int (sn_FailedProcesses ms));
        ("isolation_distribution", print_map (sn_IsolationDistribution ms));
        ("process_starts_total", print_map (sn_starts ms));
        ("process_stops_total", print_map (sn_stops ms));
        ("process_failures_total", print_map (sn_failures ms));
        ("process_restarts_total", print_map (sn_restarts ms));
        ("health_check_success_total", print_map (sn_healthOk ms));
        ("health_check_failure_total", print_map (sn_healthFail ms));
        ("launch_duration_p50_seconds", fixed3 (Seconds (sn_P50 ms)));
        ("launch_duration_p95_seconds", fixed3 (Seconds (sn_P95 ms)));
        ("launch_duration_p99_seconds", fixed3 (Seconds (sn_P99 ms)))]) ++
     [json_field true ("uptime_seconds", print_int (sn_UptimeSeconds ms)); "}"]))%string.

(** ** Reading the text back *)

Fixpoint strip (p s : string) : option string :=
  match p, s with
  | EmptyString, _ => Some s
  | String a p, String b s => if bool_decide (a = b) then strip p s else None
  | _, _ => None
  end.

(** A sample of the metric [name] on a line, with the key under [label] and the other
    labels [more]: the key and the value. *)
Definition read_sample (name label more : string) (line : string) : option (string * Z) :=
  '(name', rest) ← strings.Cut "{"%char line;
  if negb (bool_decide (name' = name)) then None
  else
    '(label', rest) ← strings.Cut "="%char rest;
    if negb (bool_decide (label' = label)) then None
    else
      rest ← strip (String quote_char "") rest;
      '(key, rest) ← strings.Cut quote_char rest;
      '(more', rest) ← strings.Cut "}"%char rest;
      if negb (bool_decide (more' = more)) then None
      else
        value ← strip " " rest;
        n ← ParseUint value;
        Some (key, n).
Definition read_metric (name label more : string) (text : string) : list (string * Z) :=
  omap (read_sample name label more) (strings.Split newline text).

(** A key and a value that the format can hold. *)
Definition plain_key (k : string) : bool :=
  all_chars (λ a, not_char quote_char a && not_char newline a) k.
Definition plain_counters (m : counters) : Prop := map_Forall (λ k n, plain_key k = true ∧ 0 ≤ n < 2 ^ 63) m.

Lemma strip_head_app p s : strip p (p +:+ s) = Some s.
Proof. induction p as [|a p IH]; [done|]. simpl. by rewrite bool_decide_true. Qed.

Lemma strip_char a s : strip (String a "") (String a s) = Some s.
Proof. exact (strip_head_app (String a "") s). Qed.

Lemma plain_key_char c k : c = quote_char ∨ c = newline → plain_key k = true → all_chars (not_char c) k = true.
Proof. intros Hc. apply all_chars_impl. intros a. rewrite andb_true_iff. by intros [??]; destruct Hc; subst. Qed.

Lemma digits_one_line s : all_chars is_digit s = true → all_chars (not_char newline) s = true.
Proof.
  apply all_chars_impl. intros a Ha. unfold not_char, is_char. case_bool_decide; [by subst|done].
Qed.

Lemma print_uint_one_line n : all_chars (not_char newline) (print_uint n) = true.
Proof. apply digits_one_line, print_uint_digits. Qed.

Lemma print_int_one_line n : all_chars (not_char newline) (print_int n) = true.
Proof. unfold print_int. case_match; [apply (print_uint_one_line (- n))|apply print_uint_one_line]. Qed.

(** The line of the uptime has no labels. *)
Lemma print_int_no_brace n : all_chars (not_char "{"%char) (print_int n) = true.
Proof.
  assert (∀ m, all_chars (not_char "{"%char) (print_uint m) = true) as H.
  { intros m. eapply all_chars_impl; [|apply print_uint_digits].
    intros a Ha. unfold not_char, is_char. case_bool_decide; [by subst|done]. }
  unfold print_int. case_match; [apply (H (- n))|apply H].
Qed.

Lemma Cut_absent c s : all_chars (not_char c) s = true → strings.Cut c s = None.
Proof.
  induction s as [|a s IH]; [done|]. cbn [all_chars strings.Cut]. unfold not_char at 1.
  rewrite andb_true_iff, negb_true_iff. intros [-> Hs]. by rewrite IH.
Qed.

Lemma read_unlabelled name label more line :
  all_chars (not_char "{"%char) line = true → read_sample name label more line = None.
Proof. intros Hl. unfold read_sample. by rewrite Cut_absent. Qed.

Lemma fixed3_one_line x : all_chars (not_char newline) (fixed3 x) = true.
Proof.
  destruct x as [[]|[]| |[] m e]; try done; cbn [fixed3 sign_of]; unfold pad3;
    rewrite ?all_chars_app; repeat case_match; by rewrite ?all_chars_app, ?print_uint_one_line.
Qed.

Lemma sample_one_line f k n : plain_key k = true → all_chars (not_char newline) (sample f (k, n)) = true.
Proof.
  intros Hk. apply (plain_key_char newline) in Hk; [|by right]. unfold sample. simpl.
  rewrite all_chars_app. simpl. rewrite all_chars_app. simpl. rewrite all_chars_app, Hk, print_int_one_line.
  by destruct f.
Qed.

Lemma Split_text ls : Forall (λ l, all_chars (not_char newline) l = true) ls →
  strings.Split newline (text_of ls) = ls ++ [""%string].
Proof. induction 1 as [|l ls Hl _ IH]; [done|]. simpl. rewrite strings.Split_app by done. by rewrite IH. Qed.

(** The metric of a family. *)
Definition name_of (f : family) : string :=
  match f with
  | FIsolation => "pattern_launcher_isolation_level"
  | FStarts => "pattern_launcher_process_starts_total"
  | FStops => "pattern_launcher_process_stops_total"
  | FFailures => "pattern_launcher_process_failures_total"
  | FRestarts => "pattern_launcher_process_restarts_total"
  | FHealthOk | FHealthFail => "pattern_launcher_health_checks_total"
  end%string.
Definition label_of (f : family) : string :=
  match f with FIsolation => "level" | FHealthOk | FHealthFail => "pattern" | _ => "pattern_isolation" end%string.
Definition more_of (f : family) : string :=
  match f with
  | FHealthOk => ",result=" +:+ in_quotes "success"
  | FHealthFail => ",result=" +:+ in_quotes "failure"
  | _ => ""
  end%string.

Abbreviation read_of f := (read_sample (name_of f) (label_of f) (more_of f)).

Lemma sample_shape f k n :
  sample f (k, n) = name_of f +:+ String "{" (label_of f +:+ String "=" (String quote_char
                      (k +:+ String quote_char (more_of f +:+ String "}" (String " " (print_int n)))))).
Proof. unfold sample. by destruct f. Qed.

Lemma name_of_no_brace f : all_chars (not_char "{"%char) (name_of f) = true.
Proof. by destruct f. Qed.
Lemma label_of_no_eq f : all_chars (not_char "="%char) (label_of f) = true.
Proof. by destruct f. Qed.
Lemma more_of_no_brace f : all_chars (not_char "}"%char) (more_of f) = true.
Proof. by destruct f. Qed.

(** A sample is read by its own family and by no other. *)
Lemma read_of_sample f g k n : plain_key k = true → 0 ≤ n < 2 ^ 63 →
  read_of f (sample g (k, n)) = if decide (f = g) then Some (k, n) else None.
Proof.
  intros Hk Hn. rewrite sample_shape. unfold read_sample.
  rewrite strings.Cut_app by apply name_of_no_brace. cbn [mbind option_bind].
  case_bool_decide as En; cbn [negb]; [|by rewrite decide_False by (by intros ->)].
  rewrite strings.Cut_app by apply label_of_no_eq. cbn [mbind option_bind].
  case_bool_decide as El; cbn [negb]; [|by rewrite decide_False by (by intros ->)].
  rewrite strip_char. cbn [mbind option_bind].
  rewrite strings.Cut_app by (by apply plain_key_char; [left|]). cbn [mbind option_bind].
  rewrite strings.Cut_app by apply more_of_no_brace. cbn [mbind option_bind].
  case_bool_decide as Em; cbn [negb]; [|by rewrite decide_False by (by intros ->)].
  rewrite decide_True by (by destruct f, g). rewrite strip_char. cbn [mbind option_bind].
  unfold print_int. rewrite (proj2 (Z.ltb_ge n 0)) by lia. by rewrite ParseUint_print by lia.
Qed.

Section ReadBack.
Context (order : counters → list (string * Z)).
Context (order_perm : ∀ m, order m ≡ₚ map_to_list m).

Lemma order_plain m k n : plain_counters m → (k, n) ∈ order m → plain_key k = true ∧ 0 ≤ n < 2 ^ 63.
Proof. intros Hm. rewrite order_perm, elem_of_map_to_list. apply Hm. Qed.

Lemma read_family f g ms : plain_counters (family_values g ms) →
  omap (read_of f) (samples order g ms) = if decide (f = g) then order (family_values g ms) else [].
Proof.
  intros Hm. unfold samples.
  assert (∀ k n, (k, n) ∈ order (family_values g ms) → plain_key k = true ∧ 0 ≤ n < 2 ^ 63) as Hl
    by (intros; by eapply order_plain).
  induction (order (family_values g ms)) as [|[k n] l IH]; [by case_decide|]. cbn [fmap list_fmap].
  destruct (Hl k n) as [Hk Hn]; [left|]. specialize (IH (λ k n H, Hl k n (list_elem_of_further _ _ _ H))).
  cbn [omap list_omap]. rewrite read_of_sample, IH by done. by destruct (decide (f = g)).
Qed.

Lemma export_one_line ms : (∀ f, plain_counters (family_values f ms)) →
  Forall (λ l, all_chars (not_char newline) l = true) (export_lines order ms).
Proof.
  intros Hm. assert (∀ f, Forall (λ l, all_chars (not_char newline) l = true) (samples order f ms)) as Hs.
  { intros f. unfold samples. apply Forall_fmap, Forall_forall. intros [k n] Hin. apply sample_one_line.
    by eapply order_plain in Hin as [??]. }
  unfold export_lines. rewrite !Forall_app. split_and!; try apply Hs; repeat constructor;
    rewrite ?all_chars_app, ?print_int_one_line, ?fixed3_one_line; reflexivity.
Qed.

Lemma read_export ms f : (∀ g, plain_counters (family_values g ms)) →
  read_metric (name_of f) (label_of f) (more_of f) (ExportPrometheus order ms) = order (family_values f ms).
Proof.
  intros Hm. unfold read_metric, ExportPrometheus. rewrite Split_text by by apply export_one_line.
  unfold export_lines. rewrite !omap_app, !read_family by done.
  repeat match goal with |- context [omap (read_of f) ?l] =>
    replace (omap (read_of f) l) with (@nil (string * Z)) by (by destruct f) end.
  destruct f; simpl; rewrite read_unlabelled by (by rewrite all_chars_app, print_int_no_brace);
    by rewrite ?app_nil_r.
Qed.

(** The samples of a metric in the text, and the map they make up. *)
Definition exported (name label more text : string) (m : counters) : Prop :=
  read_metric name label more text = order m ∧ list_to_map (read_metric name label more text) = m.

Lemma exported_order name label more text m :
  read_metric name label more text = order m → exported name label more text m.
Proof.
  intros Hr. split; [done|]. rewrite Hr. rewrite (list_to_map_proper (order m) (map_to_list m)).
  - apply list_to_map_to_list.
  - rewrite order_perm. apply NoDup_fst_map_to_list.
  - apply order_perm.
Qed.

(** C23. The counters can be read back from the exported text under the names of their
    metrics: the samples found under the name and label of a metric are the entries of
    its map, each once, in the order in which the map was ranged over, and no others.
    This is for a snapshot in which no key of any of the seven maps has a quote or a
    newline, which the code does not escape, and all counts are non-negative. *)
Theorem export_roundtrip ms :
  Forall plain_counters
    [sn_IsolationDistribution ms; sn_starts ms; sn_stops ms; sn_failures ms; sn_restarts ms;
     sn_healthOk ms; sn_healthFail ms] →
  let text := ExportPrometheus order ms in
  (exported "pattern_launcher_isolation_level" "level" "" text (sn_IsolationDistribution ms) ∧
   exported "pattern_launcher_process_starts_total" "pattern_isolation" "" text (sn_starts ms) ∧
   exported "pattern_launcher_process_stops_total" "pattern_isolation" "" text (sn_stops ms) ∧
   exported "pattern_launcher_process_failures_total" "pattern_isolation" "" text (sn_failures ms) ∧
   exported "pattern_launcher_process_restarts_total" "pattern_isolation" "" text (sn_restarts ms) ∧
   exported "pattern_launcher_health_checks_total" "pattern"
     (",result=" +:+ in_quotes "success") text (sn_healthOk ms) ∧
   exported "pattern_launcher_health_checks_total" "pattern"
     (",result=" +:+ in_quotes "failure") text (sn_healthFail ms))%string.
Proof.
  rewrite !Forall_cons. intros (P1 & P2 & P3 & P4 & P5 & P6 & P7 & _).
  assert (∀ g, plain_counters (family_values g ms)) as Hm by (by intros []).
  cbn zeta. split_and!; apply exported_order.
  - exact (read_export ms FIsolation Hm).
  - exact (read_export ms FStarts Hm).
  - exact (read_export ms FStops Hm).
  - exact (read_export ms FFailures Hm).
  - exact (read_export ms FRestarts Hm).
  - exact (read_export ms FHealthOk Hm).
  - exact (read_export ms FHealthFail Hm).
Qed.
End ReadBack.

(** The JSON export writes Go maps: the value of the field does not begin the way a JSON
    value does. *)
Theorem json_export_has_go_maps ms :
  ∃ before after, ExportJSON ms = before +:+ in_quotes "isolation_distribution" +:+ ": map[" +:+ after.
Proof.
  eexists (String.concat (String newline "") ("{"%string :: (json_field false <$>
     [("total_processes"%string, print_int (sn_TotalProcesses ms)); ("running_processes"%string, print_int (sn_RunningProcesses ms));
      ("terminating_processes"%string, print_int (sn_TerminatingProcesses ms));
      ("failed_processes"%string, print_int (sn_FailedProcesses ms))])) +:+ String newline "  "), _.
  unfold ExportJSON, json_field, print_map. cbn [fmap list_fmap app fst snd String.concat].
  rewrite !string_app_assoc. reflexivity.
Qed.

(** ** Examples *)

Module ExportDemo.
Definition snapshot : MetricsSnapshot :=
  mkMetricsSnapshot 2 2 0 0 {[ "Namespace"%string := 2 ]} {[ "kv:Namespace"%string := 3; "mq:None"%string := 1 ]}
    ∅ ∅ ∅ {[ "kv"%string := 7 ]} {[ "kv"%string := 1 ]} 1500000000 2500500000 2500500000 60.

Example three_decimals :
  fixed3 <$> [Seconds 1500000000; Seconds 2500500000; Seconds 0; Seconds (-1500000)] =
  ["1.500"; "2.500"; "0.000"; "-0.002"]%string.
Proof. vm_compute. reflexivity. Qed.

Lemma export_roundtrip_witness :
  exported map_to_list "pattern_launcher_process_starts_total" "pattern_isolation" ""
    (ExportPrometheus map_to_list snapshot) (sn_starts snapshot).
Proof.
  apply (export_roundtrip map_to_list (λ m, Permutation_refl (map_to_list m)) snapshot).
  do 7 (apply Forall_cons; split; [apply (bool_decide_unpack _); vm_compute; exact I|]). apply Forall_nil_2.
Defined.

(** A key with a quote is exported as it is, and the sample is lost. *)
Example quoted_key_is_lost :
  let m := {[ String quote_char "p:None" := 1 ]} in
  let ms := mkMetricsSnapshot 1 1 0 0 ∅ m ∅ ∅ ∅ ∅ ∅ 0 0 0 0 in
  read_metric "pattern_launcher_process_starts_total" "pattern_isolation" "" (ExportPrometheus map_to_list ms) = [].
Proof. vm_compute. reflexivity. Qed.
End ExportDemo.

(** * pkg/launcher/errors.go: errors with a code, a context and a suggestion

    The builder methods return the receiver, and every constructor owns the value it
    builds, so they are functions on records.  The order in which a map is ranged over is
    an argument. *)

Module Errors.
Local Open Scope Z_scope.
Local Open Scope string_scope.

Abbreviation ErrorCode := string (only parsing).

Definition ErrorCodePatternNotFound : ErrorCode := "PATTERN_NOT_FOUND".
Definition ErrorCodeInvalidManifest : ErrorCode := "INVALID_MANIFEST".
Definition ErrorCodeExecutableNotFound : ErrorCode := "EXECUTABLE_NOT_FOUND".
Definition ErrorCodeExecutableNotRunnable : ErrorCode := "EXECUTABLE_NOT_RUNNABLE".
Definition ErrorCodeProcessStartFailed : ErrorCode := "PROCESS_START_FAILED".
Definition ErrorCodeProcessCrashed : ErrorCode := "PROCESS_CRASHED".
Definition ErrorCodeHealthCheckFailed : ErrorCode := "HEALTH_CHECK_FAILED".
Definition ErrorCodeTerminationFailed : ErrorCode := "TERMINATION_FAILED".
Definition ErrorCodeMaxErrorsExceeded : ErrorCode := "MAX_ERRORS_EXCEEDED".
Definition ErrorCodeInvalidConfiguration : ErrorCode := "INVALID_CONFIGURATION".
Definition ErrorCodeInvalidIsolationLevel : ErrorCode := "INVALID_ISOLATION_LEVEL".
Definition ErrorCodeMissingNamespace : ErrorCode := "MISSING_NAMESPACE".
Definition ErrorCodeMissingSessionID : ErrorCode := "MISSING_SESSION_ID".
Definition ErrorCodePortAllocationFailed : ErrorCode := "PORT_ALLOCATION_FAILED".
Definition ErrorCodeResourceLimitExceeded : ErrorCode := "RESOURCE_LIMIT_EXCEEDED".
Definition ErrorCodeInternalError : ErrorCode := "INTERNAL_ERROR".

Definition error_codes : list ErrorCode :=
  [ErrorCodePatternNotFound; ErrorCodeInvalidManifest; ErrorCodeExecutableNotFound;
   ErrorCodeExecutableNotRunnable; ErrorCodeProcessStartFailed; ErrorCodeProcessCrashed;
   ErrorCodeHealthCheckFailed; ErrorCodeTerminationFailed; ErrorCodeMaxErrorsExceeded;
   ErrorCodeInvalidConfiguration; ErrorCodeInvalidIsolationLevel; ErrorCodeMissingNamespace;
   ErrorCodeMissingSessionID; ErrorCodePortAllocationFailed; ErrorCodeResourceLimitExceeded;
   ErrorCodeInternalError].

(** A context value: a string, an int, or a value of another type, by what [%v] makes of it. *)
Inductive context_value :=
  | VString (s : string)
  | VInt (n : Z)
  | VOther (formatted : string).
Definition format_v (v : context_value) : string :=
  match v with VString s => s | VInt n => pretty n | VOther s => s end.

Record LauncherErrorOf (E : Type) := mkLauncherError {
  Code : ErrorCode;
  Message : string;
  Context : gmap string context_value;
  Cause : option E;
  Suggestion : string }.
Arguments mkLauncherError {_}.
Arguments Code {_}.
Arguments Message {_}.
Arguments Context {_}.
Arguments Cause {_}.
Arguments Suggestion {_}.

(** An error: a text, an error that [fmt.Errorf] wrapped with [%w], an error of the launcher. *)
Inductive error :=
  | TextError (text : string)
  | WrapError (prefix : string) (inner : error)
  | AsLauncherError (e : LauncherErrorOf error).
Abbreviation LauncherError := (LauncherErrorOf error).

Section Texts.
Context (order : gmap string context_value → list (string * context_value)).

Definition context_parts (ctx : gmap string context_value) : list string :=
  if decide (ctx = ∅) then []
  else ["Context: " +:+ String.concat ", " ((λ kv, kv.1 +:+ "=" +:+ format_v kv.2) <$> order ctx)].

Fixpoint Error (err : error) : string :=
  match err with
  | TextError text => text
  | WrapError prefix inner => prefix +:+ ": " +:+ Error inner
  | AsLauncherError (mkLauncherError code message ctx cause suggestion) =>
      String.concat "; "
        (["[" +:+ code +:+ "] " +:+ message] ++ context_parts ctx ++
         match cause with Some c => ["Cause: " +:+ Error c] | None => [] end ++
         if decide (suggestion = "") then [] else ["Suggestion: " +:+ suggestion])
  end.
End Texts.

Definition Unwrap (err : error) : option error :=
  match err with
  | TextError _ => None
  | WrapError _ inner => Some inner
  | AsLauncherError e => Cause e
  end.

Definition NewError (code : ErrorCode) (message : string) : LauncherError :=
  mkLauncherError code message ∅ None "".
Definition WithContext (key : string) (value : context_value) (e : LauncherError) : LauncherError :=
  mkLauncherError (Code e) (Message e) (<[key := value]> (Context e)) (Cause e) (Suggestion e).
Definition WithCause (cause : option error) (e : LauncherError) : LauncherError :=
  mkLauncherError (Code e) (Message e) (Context e) cause (Suggestion e).
Definition WithSuggestion (suggestion : string) (e : LauncherError) : LauncherError :=
  mkLauncherError (Code e) (Message e) (Context e) (Cause e) suggestion.

(** ** The constructors *)

Definition nl : string := String (Ascii.ascii_of_nat 10) "".
Definition dquote : string := String (Ascii.ascii_of_nat 34) "".
Definition lines (l : list string) : string := String.concat nl l.

Definition ErrPatternNotFound (patternName patternsDir : string) : LauncherError :=
  WithSuggestion ("Verify pattern exists: ls -la " +:+ patternsDir +:+ "/" +:+ patternName +:+ "/manifest.yaml")
    (WithContext "patterns_dir" (VString patternsDir)
      (WithContext "pattern_name" (VString patternName)
        (NewError ErrorCodePatternNotFound ("Pattern '" +:+ patternName +:+ "' not found")))).

Definition ErrInvalidManifest (patternName : string) (cause : option error) : LauncherError :=
  WithSuggestion (lines
      ["Check manifest.yaml syntax and ensure all required fields are present:";
       "  - name"; "  - version"; "  - executable"; "  - isolation_level";
       "  - healthcheck.port"; "  - healthcheck.path"])
    (WithCause cause (WithContext "pattern_name" (VString patternName)
      (NewError ErrorCodeInvalidManifest ("Pattern '" +:+ patternName +:+ "' has invalid manifest")))).

Definition ErrExecutableNotFound (patternName execPath : string) : LauncherError :=
  WithSuggestion (lines
      ["Build the pattern executable:"; "  cd patterns/" +:+ patternName +:+ " && go build -o " +:+ execPath])
    (WithContext "executable_path" (VString execPath) (WithContext "pattern_name" (VString patternName)
      (NewError ErrorCodeExecutableNotFound ("Pattern '" +:+ patternName +:+ "' executable not found")))).

Definition ErrExecutableNotRunnable (patternName execPath : string) : LauncherError :=
  WithSuggestion (lines ["Make executable runnable:"; "  chmod +x " +:+ execPath])
    (WithContext "executable_path" (VString execPath) (WithContext "pattern_name" (VString patternName)
      (NewError ErrorCodeExecutableNotRunnable ("Pattern '" +:+ patternName +:+ "' executable is not runnable")))).

Definition ErrProcessStartFailed (patternName : string) (cause : option error) : LauncherError :=
  WithSuggestion (lines
      ["Common causes:"; "  1. Executable not found or not runnable";
       "  2. Missing dependencies (libraries, environment variables)";
       "  3. Insufficient permissions"; "  4. Port already in use";
       "Check pattern logs for more details"])
    (WithCause cause (WithContext "pattern_name" (VString patternName)
      (NewError ErrorCodeProcessStartFailed ("Failed to start pattern '" +:+ patternName +:+ "' process")))).

Definition ErrHealthCheckFailed (patternName healthURL : string) (cause : option error) : LauncherError :=
  WithSuggestion (lines
      ["Verify health endpoint is responding:"; "  curl " +:+ healthURL;
       "Ensure pattern implements /health endpoint correctly"])
    (WithCause cause (WithContext "health_url" (VString healthURL)
      (WithContext "pattern_name" (VString patternName)
        (NewError ErrorCodeHealthCheckFailed ("Pattern '" +:+ patternName +:+ "' health check failed"))))).

Definition crash_suggestion (restartCount : Z) : string :=
  if (3 <=? restartCount)%Z then lines
    ["Process has crashed multiple times. This may indicate a persistent issue:";
     "  1. Check pattern logs for errors"; "  2. Verify dependencies are available";
     "  3. Check resource limits (CPU, memory)";
     "  4. Test pattern standalone: ./patterns/<name>/<executable>"]
  else "Check pattern logs for crash details".
Definition ErrProcessCrashed (patternName processID : string) (restartCount : Z) : LauncherError :=
  WithSuggestion (crash_suggestion restartCount)
    (WithContext "restart_count" (VInt restartCount)
      (WithContext "process_id" (VString processID)
        (WithContext "pattern_name" (VString patternName)
          (NewError ErrorCodeProcessCrashed ("Pattern '" +:+ patternName +:+ "' process crashed"))))).

Definition ErrMaxErrorsExceeded (patternName : string) (errorCount : Z) : LauncherError :=
  WithSuggestion (lines
      ["Process has been marked terminal due to repeated failures.";
       "This is a circuit breaker to prevent infinite restart loops.";
       "Manual intervention required:";
       "  1. Investigate why the pattern keeps failing";
       "  2. Fix the underlying issue";
       "  3. Terminate the pattern: prismctl pattern terminate <process_id>";
       "  4. Relaunch the pattern: prismctl pattern launch <pattern_name>"])
    (WithContext "max_errors" (VInt 5)
      (WithContext "error_count" (VInt errorCount)
        (WithContext "pattern_name" (VString patternName)
          (NewError ErrorCodeMaxErrorsExceeded
            ("Pattern '" +:+ patternName +:+ "' exceeded maximum consecutive errors"))))).

Definition ErrMissingNamespace (patternName : string) : LauncherError :=
  WithSuggestion (lines
      ["Provide a namespace in the launch request:"; "  LaunchRequest{";
       "    PatternName: " +:+ dquote +:+ patternName +:+ dquote +:+ ",";
       "    Isolation:   IsolationLevel_ISOLATION_NAMESPACE,";
       "    Namespace:   " +:+ dquote +:+ "tenant-a" +:+ dquote +:+ ",  // Required"; "  }"])
    (WithContext "pattern_name" (VString patternName)
      (NewError ErrorCodeMissingNamespace "Namespace is required for NAMESPACE isolation level")).

Definition ErrMissingSessionID (patternName : string) : LauncherError :=
  WithSuggestion (lines
      ["Provide a session ID in the launch request:"; "  LaunchRequest{";
       "    PatternName: " +:+ dquote +:+ patternName +:+ dquote +:+ ",";
       "    Isolation:   IsolationLevel_ISOLATION_SESSION,";
       "    Namespace:   " +:+ dquote +:+ "tenant-a" +:+ dquote +:+ ",";
       "    SessionId:   " +:+ dquote +:+ "user-123" +:+ dquote +:+ ",  // Required"; "  }"])
    (WithContext "pattern_name" (VString patternName)
      (NewError ErrorCodeMissingSessionID "Session ID is required for SESSION isolation level")).

Definition ErrInvalidConfiguration (field : string) (value : context_value) (reason : string) : LauncherError :=
  WithSuggestion (lines
      ["Review launcher configuration and ensure all values are valid.";
       "See Config struct documentation for valid ranges."])
    (WithContext "value" value (WithContext "field" (VString field)
      (NewError ErrorCodeInvalidConfiguration ("Invalid configuration: " +:+ reason)))).

Definition ErrTerminationFailed (processID : string) (cause : option error) : LauncherError :=
  WithSuggestion (lines
      ["Try force termination:"; "  1. Find process: ps aux | grep <pattern-name>";
       "  2. Force kill: kill -9 <pid>";
       "If process is stuck, check for zombie processes or file descriptor leaks"])
    (WithCause cause (WithContext "process_id" (VString processID)
      (NewError ErrorCodeTerminationFailed ("Failed to terminate process '" +:+ processID +:+ "'")))).

(** ** Reading an error *)

Definition IsErrorCode (err : error) (code : ErrorCode) : bool :=
  match err with AsLauncherError e => bool_decide (Code e = code) | _ => false end.
Definition GetErrorCode (err : error) : ErrorCode :=
  match err with AsLauncherError e => Code e | _ => "" end.
Definition GetSuggestion (err : error) : string :=
  match err with AsLauncherError e => Suggestion e | _ => "" end.

(** [errors.As]: the first error of the launcher along [Unwrap]. *)
Fixpoint As (err : error) : option LauncherError :=
  match err with
  | TextError _ => None
  | WrapError _ inner => As inner
  | AsLauncherError e => Some e
  end.

(** ** Properties *)

(** The code between the brackets at the start of a text. *)
Definition read_code (text : string) : option ErrorCode :=
  match text with
  | String a rest => if is_char "["%char a then fst <$> strings.Cut "]"%char rest else None
  | EmptyString => None
  end.

Definition occurs_in (part text : string) : Prop := ∃ before after, text = before +:+ part +:+ after.

Lemma string_app_nil_r s : s +:+ "" = s.
Proof. induction s as [|a s IH]; [done|]. change (String a (s +:+ "") = String a s). by rewrite IH. Qed.

Lemma occurs_in_refl s : occurs_in s s.
Proof. exists "", "". by rewrite string_app_nil_r. Qed.

Lemma occurs_in_app_l s a t : occurs_in s t → occurs_in s (a +:+ t).
Proof. intros (b & c & ->). exists (a +:+ b), c. by rewrite !string_app_assoc. Qed.

Lemma occurs_in_app_r s a t : occurs_in s t → occurs_in s (t +:+ a).
Proof. intros (b & c & ->). exists b, (c +:+ a). by rewrite !string_app_assoc. Qed.

Lemma occurs_in_trans s t u : occurs_in s t → occurs_in t u → occurs_in s u.
Proof. intros H (b & c & ->). by apply occurs_in_app_l, occurs_in_app_r. Qed.

Lemma concat_cons sep x l : l ≠ [] → String.concat sep (x :: l) = x +:+ sep +:+ String.concat sep l.
Proof. by destruct l. Qed.

Lemma occurs_in_concat sep s l : s ∈ l → occurs_in s (String.concat sep l).
Proof.
  induction l as [|x l IH]; [by rewrite elem_of_nil|]. rewrite elem_of_cons. intros Hs.
  destruct l as [|y l]; [destruct Hs as [->|Hs]; [apply occurs_in_refl|by apply elem_of_nil in Hs]|].
  rewrite concat_cons by done. destruct Hs as [->|Hs].
  - apply occurs_in_app_r, occurs_in_refl.
  - by apply occurs_in_app_l, occurs_in_app_l, IH.
Qed.

Section ErrorText.
Context (order : gmap string context_value → list (string * context_value)).
Context (order_perm : ∀ m, order m ≡ₚ map_to_list m).

Definition parts (e : LauncherError) : list string :=
  context_parts order (Context e) ++
  match Cause e with Some c => ["Cause: " +:+ Error order c] | None => [] end ++
  if decide (Suggestion e = "") then [] else ["Suggestion: " +:+ Suggestion e].

Lemma Error_parts e :
  Error order (AsLauncherError e) = String.concat "; " (("[" +:+ Code e +:+ "] " +:+ Message e) :: parts e).
Proof. by destruct e. Qed.

Lemma Error_head e : ∃ rest, Error order (AsLauncherError e) = "[" +:+ Code e +:+ String "]"%char rest.
Proof.
  rewrite Error_parts. destruct (decide (parts e = [])) as [->|Hne].
  - exists (" " +:+ Message e). done.
  - rewrite concat_cons by done. exists (" " +:+ Message e +:+ "; " +:+ String.concat "; " (parts e)).
    rewrite !string_app_assoc. done.
Qed.

(** The code of an error can be read back from its text, whatever the message, the context
    and the cause are. *)
Theorem error_code_roundtrip e :
  all_chars (not_char "]"%char) (Code e) = true →
  read_code (Error order (AsLauncherError e)) = Some (GetErrorCode (AsLauncherError e)).
Proof.
  intros Hc. destruct (Error_head e) as [rest ->]. 
  change (fst <$> strings.Cut "]"%char (Code e +:+ String "]"%char rest) = Some (Code e)).
  by rewrite strings.Cut_app.
Qed.

(** The text of an error loses nothing: it has the message, every entry of the context in
    whatever order the map is ranged over, the text of the cause and the suggestion. *)
Theorem error_text_complete e :
  let text := Error order (AsLauncherError e) in
  occurs_in (Message e) text ∧
  (∀ k v, Context e !! k = Some v → occurs_in (k +:+ "=" +:+ format_v v) text) ∧
  (∀ c, Cause e = Some c → occurs_in (Error order c) text) ∧
  occurs_in (Suggestion e) text.
Proof.
  cbn zeta. rewrite Error_parts. split_and!.
  - eapply occurs_in_trans; [|apply occurs_in_concat; left].
    apply occurs_in_app_l, occurs_in_app_l, occurs_in_app_l, occurs_in_refl.
  - intros k v Hk. eapply occurs_in_trans; [|apply occurs_in_concat; right; unfold parts, context_parts].
    2:{ apply elem_of_app; left. destruct (decide (Context e = ∅)) as [He|_]; [by rewrite He in Hk|left]. }
    apply occurs_in_app_l, occurs_in_concat, list_elem_of_fmap. exists (k, v). split; [done|].
    rewrite order_perm. by apply elem_of_map_to_list.
  - intros c Hc. eapply occurs_in_trans; [|apply occurs_in_concat; right; unfold parts; rewrite Hc].
    2:{ apply elem_of_app; right; left. }
    apply occurs_in_app_l, occurs_in_refl.
  - destruct (decide (Suggestion e = "")) as [->|Hs]; [by exists "", (String.concat "; " (("[" +:+ Code e +:+ "] " +:+ Message e) :: parts e))|].
    eapply occurs_in_trans; [|apply occurs_in_concat; right; unfold parts].
    2:{ apply elem_of_app; right. apply elem_of_app; right. rewrite decide_False by done. left. }
    apply occurs_in_app_l, occurs_in_refl.
Qed.
End ErrorText.

(** The codes are distinct and none has a bracket, so each of them is read back. *)
Theorem error_codes_readable :
  NoDup error_codes ∧ Forall (λ c, all_chars (not_char "]"%char) c = true) error_codes.
Proof. split; [apply (bool_decide_unpack _); vm_compute; exact I|repeat constructor]. Qed.

(** [IsErrorCode] looks at the error itself: a code that it finds is the one [errors.As]
    finds, and once the error is wrapped with [%w] it finds none. *)
Theorem IsErrorCode_correct err code :
  (IsErrorCode err code = true → ∃ e, As err = Some e ∧ Code e = code) ∧
  (∀ prefix, As (WrapError prefix err) = As err ∧ IsErrorCode (WrapError prefix err) code = false ∧
             GetErrorCode (WrapError prefix err) = "" ∧ GetSuggestion (WrapError prefix err) = "").
Proof.
  split; [|done]. destruct err as [| |e]; try done. simpl. rewrite bool_decide_eq_true. eauto.
Qed.

(** The suggestion changes at the third restart. *)
Theorem crash_suggestion_escalates name id n m : (n < 3)%Z → (3 <= m)%Z →
  Suggestion (ErrProcessCrashed name id n) ≠ Suggestion (ErrProcessCrashed name id m) ∧
  Code (ErrProcessCrashed name id n) = Code (ErrProcessCrashed name id m).
Proof.
  intros Hn Hm. split; [|done]. cbn [Suggestion ErrProcessCrashed WithSuggestion]. unfold crash_suggestion.
  rewrite (proj2 (Z.leb_gt 3 n)) by done. by rewrite (proj2 (Z.leb_le 3 m)) by done.
Qed.

Example not_found_text :
  Error map_to_list (AsLauncherError (NewError ErrorCodeInternalError "no space")) = "[INTERNAL_ERROR] no space".
Proof. reflexivity. Qed.
Example wrapped_code_is_lost :
  IsErrorCode (WrapError "launch" (AsLauncherError (ErrMissingNamespace "p"))) ErrorCodeMissingNamespace = false.
Proof. reflexivity. Qed.
End Errors.
