(* ===== verification/LauncherMain.v ===== *)
(** * cmd/pattern-launcher/main.go: the launcher as a process

    The flags, the service over the discovered patterns, the registration with the control
    plane, the heartbeats and the HTTP handlers.  [log.Fatalf] ends the process; the
    listeners of the metrics and of the health server only log their errors. *)

From stdpp Require Import pretty.
From S2P Require Import Prelude Backoff WorkQueue ProcMgr AdminTypes AdminFsm ControlPlane Isolation Launcher LauncherMetrics LauncherService LauncherAdmin.
Import GoFloat.
Local Open Scope Z_scope.

Record launcher_flags := mkFlags {
  fl_grpcPort : Z;
  fl_metricsPort : Z;
  fl_healthPort : Z;
  fl_patternsDir : string;
  fl_isolation : string;
  fl_adminEndpoint : string;
  fl_launcherID : string;
  fl_region : string;
  fl_maxProcs : Z }.
Definition default_flags : launcher_flags :=
  mkFlags 8982 9092 9093 "./patterns" "namespace" "" "launcher-01" "local" 20.

Definition parseIsolationLevel (level : string) : IsolationLevel :=
  if bool_decide (level = "none"%string) then IsolationNone
  else if bool_decide (level = "namespace"%string) then IsolationNamespace
  else if bool_decide (level = "session"%string) then IsolationSession
  else IsolationNamespace.

Definition service_config (fl : launcher_flags) : Config :=
  mkConfig (fl_patternsDir fl) (parseIsolationLevel (fl_isolation fl)) (30 * Second) (5 * Second) f64_two "1Gi".

Definition admin_config (fl : launcher_flags) : AdminClientConfig :=
  mkAdminClientConfig (fl_adminEndpoint fl) (fl_launcherID fl)
    ("localhost:" +:+ pretty (fl_grpcPort fl)) (fl_region fl) (wrap32 (fl_maxProcs fl)).

Inductive fatal :=
  | FatalService (e : discover_error)
  | FatalAdminClient
  | FatalListen (addr : string).

Section Main.
Context {Q : Type} `{!DelayQueue Q} (fs : FileSystem) (Unmarshal : list Z → option Manifest).
Context {S : Type} `{!ControlPlaneClient S}.

(** A launcher that runs: the service, and the client whose heartbeat loop was started. *)
Record running := mkRunning {
  ru_service : @Launcher Q;
  ru_grpcAddr : string;
  ru_heartbeats : option AdminClient }.

Definition new_service (now : Z) (config : Config) : result discover_error (@Launcher Q) :=
  let '(r, err) := Discover fs Unmarshal (NewRegistry (lc_PatternsDir config)) in
  match err with Some e => Err e | None => Ok (NewService config now r) end.

(** The registration: [inr] the client is kept and sends heartbeats when it succeeded. *)
Definition join_cluster (fl : launcher_flags) (dialled : bool) (s : S) : S * (fatal + option AdminClient) :=
  if bool_decide (fl_adminEndpoint fl = ""%string) then (s, inr None)
  else match NewAdminClient dialled (admin_config fl) with
       | None => (s, inl FatalAdminClient)
       | Some c =>
           let '(s, r) := Client_Register c s in
           (s, inr (match r with inl _ => Some c | inr _ => None end))
       end.

(** main, up to the wait for a signal. *)
Definition main_start (now : Z) (fl : launcher_flags) (dialled listens : bool) (s : S) : S * result fatal running :=
  match new_service now (service_config fl) with
  | Ok service =>
      let '(s, joined) := join_cluster fl dialled s in
      match joined with
      | inl e => (s, Err e)
      | inr client =>
          let addr := (":" +:+ pretty (fl_grpcPort fl))%string in
          if listens then (s, Ok (mkRunning service addr client)) else (s, Err (FatalListen addr))
      end
  | Err e => (s, Err (FatalService e))
  | Panic => (s, Panic)
  end.

(** The heartbeats of the process until it is stopped. *)
Definition main_run (ticks : list Z) (r : running) (s : S) : S :=
  match ru_heartbeats r with Some c => StartHeartbeatLoop ticks c s | None => s end.

(** ** The HTTP handlers *)

Record http_response := mkHttpResponse { ht_status : Z; ht_body : string }.

(** The lines of the body, whatever the service does. *)
Definition metricsHandler : list string :=
  ["# HELP pattern_launcher_processes_total Total number of pattern processes";
   "# TYPE pattern_launcher_processes_total gauge";
   "pattern_launcher_processes_total 0";
   "";
   "# HELP pattern_launcher_uptime_seconds Launcher uptime in seconds";
   "# TYPE pattern_launcher_uptime_seconds counter";
   "pattern_launcher_uptime_seconds 0"]%string.

(** The health call of the service returns no error and is always healthy. *)
Definition healthHandler (now startTime : Z) (processes1 processes2 : gmap string ProcessInfo) : http_response :=
  let resp := Launcher_Health now startTime false processes1 processes2 in
  mkHttpResponse 200 ("healthy: " +:+ pretty (hr_RunningProcesses resp) +:+ " processes running").

Definition readyHandler : http_response := mkHttpResponse 200 "ready".
End Main.

(** ** The calls the control plane sees *)

Inductive cp_call :=
  | CallRegister (req : LauncherRegistration)
  | CallHeartbeat (req : LauncherHeartbeatRequest).

(** A server that also writes down its calls. *)
#[export] Instance recorded {S} `{!ControlPlaneClient S} : ControlPlaneClient (list cp_call * S) := {|
  cp_RegisterLauncher req ls :=
    let '(s, r) := cp_RegisterLauncher req ls.2 in ((ls.1 ++ [CallRegister req], s), r);
  cp_LauncherHeartbeat req ls :=
    let '(s, r) := cp_LauncherHeartbeat req ls.2 in ((ls.1 ++ [CallHeartbeat req], s), r) |}.

Section Calls.
Context {Q : Type} `{!DelayQueue Q} (fs : FileSystem) (Unmarshal : list Z → option Manifest).
Context {S : Type} `{!ControlPlaneClient S}.
Implicit Types (ls : list cp_call * S).

Definition main_client (fl : launcher_flags) : AdminClient :=
  mkAdminClient (fl_launcherID fl) ("localhost:" +:+ pretty (fl_grpcPort fl)) (fl_region fl) (wrap32 (fl_maxProcs fl)).

Lemma heartbeats_calls ticks c ls :
  (StartHeartbeatLoop ticks c ls).1 = ls.1 ++ ((λ now, CallHeartbeat (heartbeat_request now c)) <$> ticks).
Proof.
  revert ls. induction ticks as [|now ticks IH]; intros ls; [by rewrite app_nil_r|].
  cbn [StartHeartbeatLoop fmap list_fmap]. rewrite IH. unfold sendHeartbeat. simpl.
  destruct (cp_LauncherHeartbeat _ ls.2) as [s r]. simpl. by rewrite <- app_assoc.
Qed.

(** What the control plane sees of a launcher that runs: nothing without an endpoint;
    else one registration with the address, the region and the capacity of the flags, and
    when it was accepted one heartbeat per tick; when it was refused, nothing more. *)
Theorem launcher_calls now fl dialled listens s r ls' ticks :
  main_start (Q := Q) fs Unmarshal now fl dialled listens ([], s) = (ls', Ok r) →
  (main_run ticks r ls').1 =
    if bool_decide (fl_adminEndpoint fl = ""%string) then []
    else CallRegister (registration (main_client fl)) ::
         match (Client_Register (main_client fl) s).2 with
         | inl _ => (λ now, CallHeartbeat (heartbeat_request now (main_client fl))) <$> ticks
         | inr _ => []
         end.
Proof.
  unfold main_start, new_service, join_cluster, main_run.
  destruct (Discover _ _ _) as [reg [e|]]; [done|].
  case_bool_decide as He.
  { intros H. by destruct listens; simplify_eq/=. }
  destruct dialled; cbn [NewAdminClient admin_config]; [|done]. fold (main_client fl).
  unfold Client_Register. simpl. destruct (cp_RegisterLauncher _ s) as [s' a]. simpl.
  destruct listens; [|destruct a as [a|]; [destruct (lra_Success a)|]; done].
  destruct a as [a|]; [destruct (lra_Success a)|]; intros H; simplify_eq/=; [|done..].
  rewrite heartbeats_calls. done.
Qed.

(** A start that ends in an error after the registration leaves the launcher registered:
    it never deregisters, and sends no heartbeat. *)
Theorem failed_start_stays_registered now fl s :
  fl_adminEndpoint fl ≠ ""%string →
  (∃ la, new_service (Q := Q) fs Unmarshal now (service_config fl) = Ok la) →
  ∃ s', main_start (Q := Q) fs Unmarshal now fl true false ([], s) =
    (([CallRegister (registration (main_client fl))], s'), Err (FatalListen (":" +:+ pretty (fl_grpcPort fl)))).
Proof.
  intros He [la Hla]. unfold main_start. rewrite Hla. unfold join_cluster. rewrite bool_decide_false by done.
  cbn [NewAdminClient admin_config]. fold (main_client fl). unfold Client_Register. simpl.
  destruct (cp_RegisterLauncher _ s) as [s' a]. simpl. eauto.
Qed.

(** The flag that sets the isolation level changes nothing. *)
Theorem isolation_flag_has_no_effect now fl level dialled listens (s : S) :
  let fl' := mkFlags (fl_grpcPort fl) (fl_metricsPort fl) (fl_healthPort fl) (fl_patternsDir fl) level
               (fl_adminEndpoint fl) (fl_launcherID fl) (fl_region fl) (fl_maxProcs fl) in
  main_start (Q := Q) fs Unmarshal now fl' dialled listens s = main_start fs Unmarshal now fl dialled listens s.
Proof. reflexivity. Qed.
End Calls.

(** The level is read back from its name, in lower case. *)
Example isolation_levels :
  parseIsolationLevel <$> ["none"; "namespace"; "session"; "SESSION"]%string =
  [IsolationNone; IsolationNamespace; IsolationSession; IsolationNamespace].
Proof. reflexivity. Qed.

(** 2^31 processes do not fit the field of the registration. *)
Example max_processes_wraps :
  acc_MaxProcesses (admin_config (mkFlags 8982 9092 9093 "p" "none" "a:1" "l" "r" (2 ^ 31))) = - 2 ^ 31.
Proof. reflexivity. Qed.
