(* ===== verification/LoadMetrics.v ===== *)
(** * cmd/prism-loadtest/cmd/root.go: the load test's measurements

    [MetricsCollector]: counters, extreme latencies and a latency histogram, written by
    the worker goroutines under a mutex, so that each recording is one step; and the
    figures the reports are printed from.  Latencies are [time.Duration]s: 64-bit numbers
    of nanoseconds.
    The last part has the theorems. *)

From S2P Require Import Prelude Backoff Filter RedisRegistry.
From stdpp Require Import sorting.
Import GoFloat.
Local Open Scope Z_scope.

Definition Microsecond : Z := 1000.

(** ** MetricsCollector *)

Record MetricsCollector := mkMetrics {
  mc_TotalRequests : Z;
  mc_SuccessfulReqs : Z;
  mc_FailedReqs : Z;
  mc_TotalLatencyNs : Z;
  mc_MinLatencyNs : Z;
  mc_MaxLatencyNs : Z;
  mc_StartTime : Z;
  mc_LatencyBuckets : gmap Z Z }.

Definition NewMetricsCollector (now : Z) : MetricsCollector :=
  mkMetrics 0 0 0 0 max_int64 0 now ∅.

(** The upper end, in microseconds, of the bucket a latency falls into. *)
Definition getLatencyBucket (latencyUs : Z) : Z :=
  if latencyUs <? 10 then 10
  else if latencyUs <? 50 then 50
  else if latencyUs <? 100 then 100
  else if latencyUs <? 500 then 500
  else if latencyUs <? 1000 then 1000
  else if latencyUs <? 5000 then 5000
  else if latencyUs <? 10000 then 10000
  else if latencyUs <? 50000 then 50000
  else if latencyUs <? 100000 then 100000
  else 100000.

Definition bucket_bounds : list Z := [10; 50; 100; 500; 1000; 5000; 10000; 50000; 100000].

Fixpoint first_above (current : Z) (buckets : list Z) : Z :=
  match buckets with
  | [] => 100001
  | b :: buckets => if current <? b then b else first_above current buckets
  end.
Definition nextBucket (current : Z) : Z := first_above current bucket_bounds.

(** A missing key of the histogram reads as zero. *)
Definition bucket_count (m : gmap Z Z) (bucket : Z) : Z := default 0 (m !! bucket).

Definition latency_bucket (latency : Z) : Z := getLatencyBucket (Z.quot latency Microsecond).

Definition RecordSuccess (latency : Z) (m : MetricsCollector) : MetricsCollector :=
  let bucket := latency_bucket latency in
  mkMetrics (wrap64 (mc_TotalRequests m + 1)) (wrap64 (mc_SuccessfulReqs m + 1)) (mc_FailedReqs m)
    (wrap64 (mc_TotalLatencyNs m + latency))
    (if latency <? mc_MinLatencyNs m then latency else mc_MinLatencyNs m)
    (if mc_MaxLatencyNs m <? latency then latency else mc_MaxLatencyNs m)
    (mc_StartTime m)
    (<[bucket := wrap64 (bucket_count (mc_LatencyBuckets m) bucket + 1)]> (mc_LatencyBuckets m)).

Definition RecordFailure (m : MetricsCollector) : MetricsCollector :=
  mkMetrics (wrap64 (mc_TotalRequests m + 1)) (mc_SuccessfulReqs m) (wrap64 (mc_FailedReqs m + 1))
    (mc_TotalLatencyNs m) (mc_MinLatencyNs m) (mc_MaxLatencyNs m) (mc_StartTime m)
    (mc_LatencyBuckets m).

(** *** Percentiles *)

Record percentiles := mkPercentiles { pc_p50 : Z; pc_p95 : Z; pc_p99 : Z }.

Definition threshold (totalCount pct : Z) : Z := Z.quot (wrap64 (totalCount * pct)) 100.

(** [if p == 0 && cumulative >= threshold { p = bucketDuration }]. *)
Definition reach (p cumulative thr bucketDuration : Z) : Z :=
  if (p =? 0) && (thr <=? cumulative) then bucketDuration else p.

(** The loop over the buckets; [fuel] bounds its iterations. *)
Fixpoint percentile_loop (fuel : nat) (buckets : gmap Z Z) (total bucket cumulative : Z)
    (p : percentiles) : option percentiles :=
  match fuel with
  | O => None
  | S fuel =>
      if 100000 <? bucket then Some p
      else
        let count := bucket_count buckets bucket in
        if count =? 0 then percentile_loop fuel buckets total (nextBucket bucket) cumulative p
        else
          let cumulative := wrap64 (cumulative + count) in
          let bucketDuration := wrap64 (bucket * Microsecond) in
          let p50 := reach (pc_p50 p) cumulative (threshold total 50) bucketDuration in
          let p95 := reach (pc_p95 p) cumulative (threshold total 95) bucketDuration in
          if (pc_p99 p =? 0) && (threshold total 99 <=? cumulative)
          then Some (mkPercentiles p50 p95 bucketDuration)
          else percentile_loop fuel buckets total (nextBucket bucket) cumulative
                 (mkPercentiles p50 p95 (pc_p99 p))
  end.

(** The buckets are 0, the nine bounds and the sentinel. *)
Definition percentile_fuel : nat := 11.

Definition calculatePercentiles (m : MetricsCollector) : option percentiles :=
  percentile_loop percentile_fuel (mc_LatencyBuckets m) (mc_SuccessfulReqs m) 0 0
    (mkPercentiles 0 0 0).

(** ** Reports *)

(** [Duration.Round]: to the nearest multiple, halves away from zero, saturating. *)
Definition Round (d m : Z) : Z :=
  if m <=? 0 then d
  else
    let r := Z.rem d m in
    if d <? 0 then
      if (- r) + (- r) <? m then d - r
      else let d1 := wrap64 (d - m - r) in if d1 <? d then d1 else min_int64
    else
      if r + r <? m then d - r
      else let d1 := wrap64 (d + m - r) in if d <? d1 then d1 else max_int64.

(** [float64(a) / float64(b) * 100]. *)
Definition percentage (a b : Z) : float64 :=
  f64_mul (f64_div (f64_of_int a) (f64_of_int b)) (f64_of_int 100).

Definition avg_latency (m : MetricsCollector) : Z :=
  if 0 <? mc_SuccessfulReqs m then Z.quot (mc_TotalLatencyNs m) (mc_SuccessfulReqs m) else 0.

(** The values a report is printed from; the percentiles are missing from the report of
    a test without a successful request. *)
Record report := mkReport {
  rp_Duration : Z;
  rp_TotalRequests : Z;
  rp_Successful : Z;
  rp_SuccessRate : float64;
  rp_Failed : Z;
  rp_Throughput : float64;
  rp_Min : Z;
  rp_Max : Z;
  rp_Avg : Z;
  rp_Percentiles : option percentiles }.

Definition round_percentiles (p : percentiles) : percentiles :=
  mkPercentiles (Round (pc_p50 p) Microsecond) (Round (pc_p95 p) Microsecond)
    (Round (pc_p99 p) Microsecond).

Definition Report (now : Z) (m : MetricsCollector) : report :=
  let elapsed := now - mc_StartTime m in
  mkReport (Round elapsed Millisecond) (mc_TotalRequests m) (mc_SuccessfulReqs m)
    (percentage (mc_SuccessfulReqs m) (mc_TotalRequests m)) (mc_FailedReqs m)
    (f64_div (f64_of_int (mc_TotalRequests m)) (Seconds elapsed))
    (Round (mc_MinLatencyNs m) Microsecond) (Round (mc_MaxLatencyNs m) Microsecond)
    (Round (avg_latency m) Microsecond)
    (if 0 <? mc_SuccessfulReqs m then round_percentiles <$> calculatePercentiles m else None).

(** mixed.go: the same figures for one kind of operation, with a success rate of 100%
    for no requests and percentiles that are always printed. *)
Record operation_stats := mkStats {
  os_TotalRequests : Z;
  os_Successful : Z;
  os_SuccessRate : float64;
  os_Failed : Z;
  os_Min : Z;
  os_Max : Z;
  os_Avg : Z;
  os_Percentiles : option percentiles }.

Definition success_rate (m : MetricsCollector) : float64 :=
  if 0 <? mc_TotalRequests m then percentage (mc_SuccessfulReqs m) (mc_TotalRequests m)
  else f64_of_int 100.

Definition printOperationStats (m : MetricsCollector) : operation_stats :=
  mkStats (mc_TotalRequests m) (mc_SuccessfulReqs m) (success_rate m) (mc_FailedReqs m)
    (Round (mc_MinLatencyNs m) Microsecond) (Round (mc_MaxLatencyNs m) Microsecond)
    (Round (avg_latency m) Microsecond) (round_percentiles <$> calculatePercentiles m).

(** [float64(a) / float64(b)] where [b] is positive, 0 otherwise. *)
Definition average (a b : Z) : float64 :=
  if 0 <? b then f64_div (f64_of_int a) (f64_of_int b) else f64_zero.

(** ** What a collector has seen *)

(** One finished request: the latency of a success, or a failure. *)
Definition observe (m : MetricsCollector) (o : option Z) : MetricsCollector :=
  match o with Some latency => RecordSuccess latency m | None => RecordFailure m end.

Definition collect (now : Z) (obs : list (option Z)) : MetricsCollector :=
  foldl observe (NewMetricsCollector now) obs.

Definition latencies (obs : list (option Z)) : list Z := omap id obs.

(** The latencies in increasing order, and the one of a given rank, counted from 1. *)
Definition order_statistic (rank : nat) (ls : list Z) : option Z :=
  merge_sort Z.le ls !! (rank - 1)%nat.

(** Rank of the [pct]-th percentile among [n] latencies: [n * pct / 100], at least 1. *)
Definition percentile_rank (n pct : nat) : nat := Nat.max 1 (n * pct / 100).

(** ** cmd/prism-loadtest: the measurements are those of the requests

    Whatever order the workers record their results in, the collector's counters and
    histogram are those of the recorded results as a multiset, and the percentiles a
    report prints are the bucket bounds of the exact order statistics. *)

(** ** Counting *)

(** How many latencies fall into [bucket]. *)
Definition in_bucket (bucket : Z) (ls : list Z) : nat :=
  length (filter (λ l, latency_bucket l = bucket) ls).

(** How many fall into [bucket] or a smaller one. *)
Definition up_to (bucket : Z) (ls : list Z) : nat :=
  length (filter (λ l, latency_bucket l ≤ bucket) ls).

Definition below (bucket : Z) (ls : list Z) : nat :=
  length (filter (λ l, latency_bucket l < bucket) ls).

Lemma up_to_split b ls : up_to b ls = (below b ls + in_bucket b ls)%nat.
Proof.
  unfold up_to, below, in_bucket. induction ls as [|l ls IH]; [done|]. rewrite !filter_cons.
  repeat case_decide; simpl; lia.
Qed.

Lemma below_le b b' ls : b ≤ b' → (below b ls ≤ below b' ls)%nat.
Proof.
  intros Hb. unfold below. induction ls as [|l ls IH]; [done|]. rewrite !filter_cons.
  repeat case_decide; simpl; lia.
Qed.

Lemma up_to_length b ls : (up_to b ls ≤ length ls)%nat.
Proof. apply length_filter. Qed.

(** In a sorted list, the elements of a downward closed set are those before its size. *)
Lemma latency_rank (P : Z → Prop) `{∀ x, Decision (P x)} ls i x :
  (∀ x y, x ≤ y → P y → P x) → StronglySorted Z.le ls → ls !! i = Some x →
  P x ↔ (i < length (filter P ls))%nat.
Proof.
  intros HP Hs. revert i. induction Hs as [|y ls Hs IH Hall]; intros i Hi; [done|].
  rewrite filter_cons. destruct i as [|i]; simpl in Hi.
  - injection Hi as ->. case_decide as Hx; simpl; split; intros; try done; try lia.
    rewrite filter_none in H0; [simpl in *; lia|].
    eapply Forall_impl; [exact Hall|]. intros z Hz HPz. by eapply Hx, HP.
  - rewrite (IH i Hi). case_decide as Hy; simpl; [lia|].
    rewrite filter_none; [simpl; lia|].
    eapply Forall_impl; [exact Hall|]. intros z Hz HPz. by eapply Hy, HP.
Qed.

Lemma latency_bucket_mono l l' : l ≤ l' → latency_bucket l ≤ latency_bucket l'.
Proof.
  intros Hl. unfold latency_bucket, Microsecond, getLatencyBucket.
  pose proof (Z.quot_le_mono l l' 1000 ltac:(lia) Hl). repeat case_match; bool_to_prop; lia.
Qed.

(** The bucket of an order statistic, from the cumulated counts. *)
Lemma order_statistic_bucket rank ls x b :
  (0 < rank)%nat → order_statistic rank ls = Some x →
  (below b ls < rank ≤ up_to b ls)%nat → latency_bucket x = b.
Proof.
  unfold order_statistic. intros Hr Hx [Hlo Hhi].
  assert (StronglySorted Z.le (merge_sort Z.le ls)) as Hs by apply (StronglySorted_merge_sort Z.le).
  pose proof (merge_sort_Permutation Z.le ls) as Hperm.
  assert (latency_bucket x ≤ b).
  { eapply (latency_rank (λ l, latency_bucket l ≤ b) _ (rank - 1) x); [|done|done|].
    - intros u v Huv. pose proof (latency_bucket_mono u v Huv). lia.
    - rewrite Hperm. unfold up_to in Hhi. lia. }
  destruct (decide (latency_bucket x < b)) as [Hb|]; [|lia].
  eapply (latency_rank (λ l, latency_bucket l < b) _ (rank - 1) x) in Hb; [|..|done|done].
  - rewrite Hperm in Hb. unfold below in Hlo. lia.
  - intros u v Huv. pose proof (latency_bucket_mono u v Huv). lia.
Qed.

(** ** The loop over the buckets *)

Section Percentiles.
Context (ls : list Z) (buckets : gmap Z Z) (total : Z).
Context (Hcount : ∀ b, bucket_count buckets b = Z.of_nat (in_bucket b ls)).
Context (Htotal : total = Z.of_nat (length ls)) (Hsmall : total * 99 ≤ max_int64).

(** One percentile: the first non-empty bucket at which the count reaches [thr]. *)
Fixpoint first_reaching (thr : Z) (cum : nat) (bs : list Z) : Z :=
  match bs with
  | [] => 0
  | b :: bs =>
      if (in_bucket b ls =? 0)%nat then first_reaching thr cum bs
      else if thr <=? Z.of_nat (cum + in_bucket b ls) then b * Microsecond
      else first_reaching thr (cum + in_bucket b ls) bs
  end.

(** [bs] are the buckets the loop visits from the first of them on. *)
Fixpoint visits (bs : list Z) : Prop :=
  match bs with
  | [] => True
  | b :: bs => 0 < b ≤ 100000 ∧ nextBucket b = default 100001 (head bs) ∧ visits bs
  end.

Definition reached (p p' : Z) : Z := if p =? 0 then p' else p.

Lemma threshold_exact pct : 0 ≤ pct ≤ 99 → threshold total pct = total * pct / 100.
Proof.
  intros Hp. unfold threshold. rewrite wrap64_id.
  - apply Z.quot_div_nonneg; lia.
  - unfold in_int64, min_int64, max_int64 in *. nia.
Qed.

Lemma threshold_mono pct pct' : 0 ≤ pct ≤ pct' → pct' ≤ 99 → threshold total pct ≤ threshold total pct'.
Proof. intros. rewrite !threshold_exact by lia. apply Z.div_le_mono; nia. Qed.

Lemma reach_reached p thr cum b bs : 0 < b →
  in_bucket b ls ≠ 0%nat →
  reached p (first_reaching thr cum (b :: bs)) =
    reached (reach p (Z.of_nat (cum + in_bucket b ls)) thr (b * Microsecond))
      (first_reaching thr (cum + in_bucket b ls) bs).
Proof.
  intros Hb Hn. simpl. rewrite (proj2 (Nat.eqb_neq _ _)) by done. unfold reached, reach, Microsecond.
  repeat case_match; bool_to_prop; simpl in *; try done; try lia; destruct_or?; congruence.
Qed.

(** Once the count has reached the threshold, later buckets do not matter. *)
Lemma reach_done p cum thr b p' : 0 < b → thr ≤ cum →
  reached (reach p cum thr (b * Microsecond)) p' = reach p cum thr (b * Microsecond).
Proof.
  intros Hb Ht. unfold reached, reach, Microsecond. rewrite (proj2 (Z.leb_le _ _) Ht), andb_true_r.
  destruct (Z.eqb_spec p 0).
  - by rewrite (proj2 (Z.eqb_neq _ _)) by lia.
  - by rewrite (proj2 (Z.eqb_neq _ _)) by lia.
Qed.

Lemma percentile_loop_list bs fuel cum p :
  (length bs < fuel)%nat → visits bs → pc_p99 p = 0 →
  Z.of_nat (cum + sum_list_with (λ b, in_bucket b ls) bs) ≤ max_int64 →
  percentile_loop fuel buckets total (default 100001 (head bs)) (Z.of_nat cum) p =
    Some (mkPercentiles
      (reached (pc_p50 p) (first_reaching (threshold total 50) cum bs))
      (reached (pc_p95 p) (first_reaching (threshold total 95) cum bs))
      (first_reaching (threshold total 99) cum bs)).
Proof.
  revert fuel cum p. induction bs as [|b bs IH]; intros fuel cum p Hf Hv Hp Hb.
  { destruct fuel; [simpl in *; lia|]. destruct p as [p50 p95 p99]; simpl in *; subst p99.
    unfold reached. destruct (Z.eqb_spec p50 0), (Z.eqb_spec p95 0); by subst. }
  destruct fuel as [|fuel]; [simpl in *; lia|]. destruct Hv as (Hb0 & Hnext & Hv).
  change (default 100001 (head (b :: bs))) with b. cbn [percentile_loop].
  rewrite (proj2 (Z.ltb_ge _ _)) by lia.
  rewrite Hcount, Hnext. simpl in Hb, Hf.
  destruct (decide (in_bucket b ls = 0%nat)) as [H0|Hn].
  { rewrite H0. cbn [Z.of_nat Z.eqb]. rewrite IH by (done || lia). cbn [first_reaching]. by rewrite H0. }
  rewrite (proj2 (Z.eqb_neq _ _)) by lia. rewrite !wrap64_id.
  2-3: unfold in_int64, min_int64, max_int64, Microsecond in *; lia.
  rewrite <- Nat2Z.inj_add, Hp. rewrite !reach_reached by (done || lia).
  pose proof (threshold_mono 50 99 ltac:(lia) ltac:(lia)).
  pose proof (threshold_mono 95 99 ltac:(lia) ltac:(lia)).
  simpl. rewrite (proj2 (Nat.eqb_neq _ _)) by done.
  destruct (Z.leb_spec (threshold total 99) (Z.of_nat (cum + in_bucket b ls))) as [H99|H99].
  - by rewrite !reach_done by lia.
  - rewrite IH by (done || simpl; lia). done.
Qed.

(** How many latencies fall into none of the buckets [bs]. *)
Definition outside (bs : list Z) : nat := length (filter (λ l, latency_bucket l ∉ bs) ls).

Lemma outside_cons b bs : b ∉ bs → outside bs = (outside (b :: bs) + in_bucket b ls)%nat.
Proof.
  intros Hb. unfold outside, in_bucket. clear -Hb. induction ls as [|l ls' IH]; [done|].
  rewrite !filter_cons. repeat case_decide; simpl; try lia; set_solver.
Qed.

Lemma outside_below b bs :
  (∀ l, l ∈ ls → latency_bucket l ∈ b :: bs ∨ Forall (Z.lt (latency_bucket l)) (b :: bs)) →
  Forall (Z.lt b) bs → outside (b :: bs) = below b ls.
Proof.
  intros Hin Hb. unfold outside, below. f_equal. apply filter_ext_elem.
  intros l Hl. rewrite Forall_forall in Hb. destruct (Hin l Hl) as [Hbs|Hbs].
  - split; [done|]. intros Hlt Hn. apply elem_of_cons in Hbs as [Heq|Hbs]; [lia|].
    specialize (Hb _ Hbs). lia.
  - apply Forall_cons in Hbs as [Hlt Hbs]. split; [done|]. intros _.
    rewrite Forall_forall in Hbs. intros [Heq|Hl']%elem_of_cons; [lia|].
    specialize (Hbs _ Hl'). lia.
Qed.

Lemma first_reaching_order thr rank x bs :
  (∀ c : nat, (0 < c)%nat → thr ≤ Z.of_nat c ↔ (rank ≤ c)%nat) → (0 < rank)%nat →
  order_statistic rank ls = Some x → StronglySorted Z.lt bs →
  (∀ l, l ∈ ls → latency_bucket l ∈ bs ∨ Forall (Z.lt (latency_bucket l)) bs) →
  (outside bs < rank)%nat → first_reaching thr (outside bs) bs = latency_bucket x * Microsecond.
Proof.
  clear Hcount Htotal Hsmall. intros Hthr Hr Hx Hs. induction Hs as [|b bs Hs IH Hb]; intros Hin Hout.
  { apply lookup_lt_Some in Hx. rewrite merge_sort_Permutation in Hx.
    unfold outside in Hout. rewrite filter_all in Hout; [lia|].
    apply Forall_forall. set_solver. }
  assert (b ∉ bs) as Hnb. { rewrite Forall_forall in Hb. intros Hbs. specialize (Hb b Hbs). lia. }
  pose proof (outside_cons b bs Hnb) as Hcons. pose proof (outside_below b bs Hin Hb) as Hbelow.
  cbn [first_reaching]. rewrite <- Hcons.
  assert (∀ l, l ∈ ls → latency_bucket l ∈ bs ∨ Forall (Z.lt (latency_bucket l)) bs) as Hin'.
  { intros l Hl. destruct (Hin l Hl) as [[Heq|?]%elem_of_cons|[_ ?]%Forall_cons]; auto. rewrite Heq. auto. }
  destruct (Nat.eqb_spec (in_bucket b ls) 0) as [H0|H0].
  { rewrite H0, Nat.add_0_r in Hcons. rewrite <- Hcons. apply IH; [done|lia]. }
  destruct (Z.leb_spec thr (Z.of_nat (outside bs))) as [Hle|Hgt].
  - apply Hthr in Hle; [|lia]. rewrite (order_statistic_bucket rank ls x b); [done..|].
    rewrite up_to_split. lia.
  - apply IH; [done|]. destruct (decide (rank ≤ outside bs)%nat) as [Hk|]; [|lia].
    apply Hthr in Hk; lia.
Qed.
End Percentiles.

(** ** What the collector holds *)

Lemma collect_snoc now obs o : collect now (obs ++ [o]) = observe (collect now obs) o.
Proof. unfold collect. by rewrite foldl_app. Qed.

Lemma latencies_snoc obs o : latencies (obs ++ [o]) = latencies obs ++ option_list o.
Proof. unfold latencies. rewrite omap_app. by destruct o. Qed.

Lemma in_bucket_snoc b ls l :
  in_bucket b (ls ++ [l]) = (in_bucket b ls + if decide (latency_bucket l = b) then 1 else 0)%nat.
Proof. unfold in_bucket. rewrite filter_app, length_app. rewrite filter_cons. by case_decide. Qed.

Lemma latencies_length obs : (length (latencies obs) ≤ length obs)%nat.
Proof. induction obs as [|[l|] obs IH]; simpl; lia. Qed.

Lemma in_bucket_length b ls : (in_bucket b ls ≤ length ls)%nat.
Proof. apply length_filter. Qed.

(** The counters and the histogram of a collector, against the results it recorded. *)
Definition collected (obs : list (option Z)) (m : MetricsCollector) : Prop :=
  let ls := latencies obs in
  mc_TotalRequests m = Z.of_nat (length obs) ∧
  mc_SuccessfulReqs m = Z.of_nat (length ls) ∧
  mc_FailedReqs m = Z.of_nat (length obs) - Z.of_nat (length ls) ∧
  mc_TotalLatencyNs m = wrap64 (foldr Z.add 0 ls) ∧
  mc_MinLatencyNs m = foldl Z.min max_int64 ls ∧
  mc_MaxLatencyNs m = foldl Z.max 0 ls ∧
  (∀ b, bucket_count (mc_LatencyBuckets m) b = Z.of_nat (in_bucket b ls)).

Lemma wrap64_succ (n : nat) : Z.of_nat n < max_int64 → wrap64 (Z.of_nat n + 1) = Z.of_nat (n + 1).
Proof.
  intros. rewrite wrap64_id; [lia|]. unfold in_int64, min_int64, max_int64 in *. lia.
Qed.

Lemma collected_observe obs m o : Z.of_nat (S (length obs)) ≤ max_int64 →
  collected obs m → collected (obs ++ [o]) (observe m o).
Proof.
  intros Hn (Ht & Hs & Hf & Hsum & Hmin & Hmax & Hb). pose proof (latencies_length obs).
  unfold collected. rewrite latencies_snoc, !length_app. destruct o as [l|]; simpl.
  - rewrite Ht, Hs, Hf, Hsum, Hmin, Hmax, !foldl_app, foldr_add_snoc, wrap64_add. simpl.
    split_and!; try (apply wrap64_succ; lia); try done; try lia.
    + case_match; bool_to_prop; lia.
    + case_match; bool_to_prop; lia.
    + intros b. rewrite in_bucket_snoc. unfold bucket_count at 1. case_decide as Hd; subst.
      * rewrite lookup_insert_eq. simpl. rewrite Hb.
        pose proof (in_bucket_length (latency_bucket l) (latencies obs)). apply wrap64_succ. lia.
      * rewrite lookup_insert_ne by done. fold (bucket_count (mc_LatencyBuckets m) b). rewrite Hb. lia.
  - rewrite app_nil_r, Ht, Hs, Hf, Hsum, Hmin, Hmax.
    split_and!; try done; try (apply wrap64_succ; lia); try lia.
    rewrite wrap64_id; [lia|]. unfold in_int64, min_int64, max_int64 in *. lia.
Qed.

Lemma collected_collect now obs :
  Z.of_nat (length obs) ≤ max_int64 → collected obs (collect now obs).
Proof.
  induction obs as [|o obs IH] using rev_ind; intros Hn.
  { unfold collected. simpl. split_and!; try done. }
  rewrite length_app in Hn. simpl in Hn. rewrite collect_snoc. apply collected_observe; [lia|].
  apply IH. lia.
Qed.

Lemma latency_bucket_bound l : latency_bucket l ∈ bucket_bounds.
Proof.
  unfold latency_bucket, getLatencyBucket, bucket_bounds.
  repeat case_match; repeat (apply list_elem_of_here || apply list_elem_of_further).
Qed.

Lemma bucket_bounds_sorted : StronglySorted Z.lt bucket_bounds.
Proof. repeat constructor. Qed.

Lemma bucket_bounds_visits : visits bucket_bounds.
Proof. unfold bucket_bounds. simpl. split_and!; done || lia. Qed.

Lemma outside_none ls : outside ls bucket_bounds = 0%nat.
Proof.
  unfold outside. rewrite filter_none; [done|]. apply Forall_forall. intros l _ Hl.
  apply Hl, latency_bucket_bound.
Qed.

(** The buckets partition the latencies. *)
Lemma in_bucket_sum ls bs : NoDup bs →
  (sum_list_with (λ b, in_bucket b ls) bs + outside ls bs = length ls)%nat.
Proof.
  induction 1 as [|b bs Hb _ IH]; simpl.
  - unfold outside. rewrite filter_all; [done|]. apply Forall_forall. set_solver.
  - rewrite (outside_cons ls b bs Hb) in IH. lia.
Qed.

Lemma bucket_sum ls : sum_list_with (λ b, in_bucket b ls) bucket_bounds = length ls.
Proof.
  rewrite <- (in_bucket_sum ls bucket_bounds), outside_none, Nat.add_0_r; [done|].
  unfold bucket_bounds. repeat constructor; set_solver.
Qed.

(** [thr] and the rank are reached at the same counts. *)
Lemma rank_threshold n pct c : (0 < c)%nat →
  Z.of_nat n * Z.of_nat pct / 100 ≤ Z.of_nat c ↔ (percentile_rank n pct ≤ c)%nat.
Proof.
  intros Hc. unfold percentile_rank.
  replace (Z.of_nat n * Z.of_nat pct / 100) with (Z.of_nat (n * pct / 100)).
  - lia.
  - rewrite Nat2Z.inj_div. by rewrite Nat2Z.inj_mul.
Qed.

Lemma rank_bounds n pct : (0 < n)%nat → (pct ≤ 100)%nat → (0 < percentile_rank n pct ≤ n)%nat.
Proof.
  intros Hn Hp. unfold percentile_rank.
  assert (n * pct / 100 ≤ n)%nat by (apply Nat.Div0.div_le_upper_bound; nia). lia.
Qed.

Lemma order_statistic_some rank ls :
  (0 < rank ≤ length ls)%nat → ∃ x, order_statistic rank ls = Some x.
Proof.
  intros Hr. unfold order_statistic. apply lookup_lt_is_Some.
  rewrite merge_sort_Permutation. lia.
Qed.

(** The latency a percentile is about. *)
Definition percentile_latency (pct : nat) (ls : list Z) : Z :=
  default 0 (order_statistic (percentile_rank (length ls) pct) ls).

Lemma first_reaching_percentile ls pct : ls ≠ [] → (pct ≤ 100)%nat →
  first_reaching ls (Z.of_nat (length ls) * Z.of_nat pct / 100) 0 bucket_bounds =
    latency_bucket (percentile_latency pct ls) * Microsecond.
Proof.
  intros Hne Hp. assert (0 < length ls)%nat by (destruct ls; [done|simpl; lia]).
  pose proof (rank_bounds (length ls) pct ltac:(done) Hp) as Hr.
  destruct (order_statistic_some _ _ Hr) as [x Hx].
  unfold percentile_latency. rewrite Hx. change (default 0 (Some x)) with x.
  replace 0%nat with (outside ls bucket_bounds) by apply outside_none. eapply first_reaching_order; [|apply Hr|exact Hx|apply bucket_bounds_sorted|..].
  - intros c Hc. by apply rank_threshold.
  - intros l _. left. apply latency_bucket_bound.
  - rewrite outside_none. lia.
Qed.

Lemma percentile_loop_skip fuel buckets total bucket cum p :
  bucket ≤ 100000 → bucket_count buckets bucket = 0 →
  percentile_loop (S fuel) buckets total bucket cum p =
    percentile_loop fuel buckets total (nextBucket bucket) cum p.
Proof. intros Hb H0. simpl. by rewrite (proj2 (Z.ltb_ge _ _)), H0 by lia. Qed.

(** [calculatePercentiles] on the results [obs]. *)
Lemma percentiles_exact now obs :
  latencies obs ≠ [] → Z.of_nat (length obs) * 99 ≤ max_int64 →
  let p pct := latency_bucket (percentile_latency pct (latencies obs)) * Microsecond in
  calculatePercentiles (collect now obs) = Some (mkPercentiles (p 50%nat) (p 95%nat) (p 99%nat)).
Proof.
  intros Hne Hn p. pose proof (latencies_length obs).
  destruct (collected_collect now obs) as (_ & Hs & _ & _ & _ & _ & Hb);
    [unfold max_int64 in *; lia|].
  unfold calculatePercentiles. rewrite Hs. set (n := Z.of_nat (length (latencies obs))).
  assert (n * 99 ≤ max_int64) as Hsmall by (unfold max_int64 in *; lia).
  unfold percentile_fuel. rewrite percentile_loop_skip; [|lia|].
  2: { rewrite Hb. unfold in_bucket. rewrite filter_none; [done|]. apply Forall_forall. intros l _ Hl.
       pose proof (latency_bucket_bound l) as Hin. rewrite Hl in Hin. set_solver. }
  change (nextBucket 0) with (default 100001 (head bucket_bounds)). change 0 with (Z.of_nat 0) at 1.
  rewrite (percentile_loop_list (latencies obs) _ n Hb eq_refl Hsmall bucket_bounds 10 0 (mkPercentiles 0 0 0));
    [|simpl; lia|apply bucket_bounds_visits|done|rewrite bucket_sum; unfold max_int64 in *; lia].
  unfold reached. cbn [pc_p50 pc_p95 Z.eqb]. rewrite !(threshold_exact (latencies obs)) by (done || lia).
  unfold p. rewrite <- !first_reaching_percentile by (done || lia). done.
Qed.

(** A bucket bound is above its latencies, by a factor of five at most, until the last. *)
Lemma latency_bucket_close l : 0 ≤ l →
  (l < 100 * Millisecond → l < latency_bucket l * Microsecond ≤ Z.max (10 * Microsecond) (5 * l)) ∧
  (50 * Millisecond ≤ l → latency_bucket l * Microsecond = 100 * Millisecond).
Proof.
  intros Hl. unfold latency_bucket, getLatencyBucket, Microsecond, Millisecond.
  rewrite Z.quot_div_nonneg by lia. pose proof (Z.div_mod l 1000 ltac:(lia)).
  pose proof (Z.mod_pos_bound l 1000 ltac:(lia)).
  repeat case_match; bool_to_prop; lia.
Qed.

Lemma percentile_latency_in pct ls : ls ≠ [] → (pct ≤ 100)%nat → percentile_latency pct ls ∈ ls.
Proof.
  intros Hne Hp. assert (0 < length ls)%nat by (destruct ls; [done|simpl; lia]).
  destruct (order_statistic_some _ _ (rank_bounds (length ls) pct ltac:(done) Hp)) as [x Hx].
  unfold percentile_latency. rewrite Hx. simpl.
  apply list_elem_of_lookup_2 in Hx. by rewrite merge_sort_Permutation in Hx.
Qed.

(** C20. The percentiles a load test reports are those of its requests: whatever results
    the workers recorded, in whatever order, the 50th, 95th and 99th percentile printed
    are the bounds of the histogram buckets of the latencies with rank [n * pct / 100] (at
    least 1) among the [n] sorted latencies of the successful requests.  A reported value
    is above the latency it stands for, by a factor of five at most (or is 10
    microseconds), except that every latency from 50 milliseconds on is reported as 100
    milliseconds, however slow the request was. *)
Theorem percentiles_correct now obs :
  latencies obs ≠ [] → Z.of_nat (length obs) * 99 ≤ max_int64 →
  Forall (Z.le 0) (latencies obs) →
  ∃ p : nat → Z,
    calculatePercentiles (collect now obs) = Some (mkPercentiles (p 50%nat) (p 95%nat) (p 99%nat)) ∧
    ∀ pct, (pct ≤ 100)%nat →
      ∃ x, order_statistic (percentile_rank (length (latencies obs)) pct) (latencies obs) = Some x ∧
        p pct = latency_bucket x * Microsecond ∧
        (x < 100 * Millisecond → x < p pct ≤ Z.max (10 * Microsecond) (5 * x)) ∧
        (50 * Millisecond ≤ x → p pct = 100 * Millisecond).
Proof.
  intros Hne Hn Hpos.
  exists (λ pct, latency_bucket (percentile_latency pct (latencies obs)) * Microsecond).
  split; [by apply percentiles_exact|]. intros pct Hp.
  assert (0 < length (latencies obs))%nat by (destruct (latencies obs); [done|simpl; lia]).
  destruct (order_statistic_some _ _ (rank_bounds (length (latencies obs)) pct ltac:(done) Hp)) as [x Hx].
  pose proof (percentile_latency_in pct _ Hne Hp) as Hin. unfold percentile_latency in *. rewrite Hx in *.
  exists x. split; [done|]. split; [done|]. rewrite Forall_forall in Hpos.
  apply latency_bucket_close. by apply Hpos.
Qed.

Lemma collected_histogram obs m m' : collected obs m → collected obs m' →
  calculatePercentiles m = calculatePercentiles m'.
Proof.
  intros (_ & Hs & _ & _ & _ & _ & Hb) (_ & Hs' & _ & _ & _ & _ & Hb').
  unfold calculatePercentiles. rewrite Hs, Hs'. generalize percentile_fuel, 0, (mkPercentiles 0 0 0).
  intros fuel z. generalize z at 2 4. generalize z. clear z.
  induction fuel as [|fuel IH]; intros b cum p; [done|]. simpl. rewrite Hb, Hb'. by rewrite !IH.
Qed.

Lemma latencies_perm obs obs' : obs ≡ₚ obs' → latencies obs ≡ₚ latencies obs'.
Proof. intros Hp. unfold latencies. by rewrite Hp. Qed.

Lemma fold_min_perm ls ls' a : ls ≡ₚ ls' → foldl Z.min a ls = foldl Z.min a ls'.
Proof.
  intros Hp. revert a. induction Hp as [| |x y l|]; intros a; simpl; [done|auto| |etrans; eauto].
  f_equal. lia.
Qed.
Lemma fold_max_perm ls ls' a : ls ≡ₚ ls' → foldl Z.max a ls = foldl Z.max a ls'.
Proof.
  intros Hp. revert a. induction Hp as [| |x y l|]; intros a; simpl; [done|auto| |etrans; eauto].
  f_equal. lia.
Qed.
Lemma collected_perm obs obs' m : obs ≡ₚ obs' → collected obs m → collected obs' m.
Proof.
  intros Hp (Ht & Hs & Hf & Hsum & Hmin & Hmax & Hb). pose proof (latencies_perm _ _ Hp) as Hl.
  pose proof (Permutation_length Hp). pose proof (Permutation_length Hl).
  unfold collected. rewrite <- (foldr_add_perm _ _ Hl), <- (fold_min_perm _ _ _ Hl),
    <- (fold_max_perm _ _ _ Hl).
  split_and!; try done; try congruence. intros b. rewrite Hb. unfold in_bucket. by rewrite Hl.
Qed.

(** The report of a load test does not depend on the order in which the workers came to
    record their results. *)
Theorem report_order_independent start now obs obs' :
  obs ≡ₚ obs' → Z.of_nat (length obs) ≤ max_int64 →
  Report now (collect start obs) = Report now (collect start obs') ∧
  printOperationStats (collect start obs) = printOperationStats (collect start obs').
Proof.
  intros Hp Hn. pose proof (collected_perm _ _ _ Hp (collected_collect start obs Hn)) as H1.
  rewrite Hp in Hn. pose proof (collected_collect start obs' Hn) as H2.
  pose proof (collected_histogram _ _ _ H1 H2) as Hc.
  assert (∀ l, mc_StartTime (collect start l) = start) as Hstart.
  { intros l. unfold collect. assert (∀ m, mc_StartTime (foldl observe m l) = mc_StartTime m) as ->; [|done].
    induction l as [|[] l IH]; intros m; simpl; [done|by rewrite IH..]. }
  destruct H1 as (Ht & Hs & Hf & Hsum & Hmin & Hmax & _), H2 as (Ht' & Hs' & Hf' & Hsum' & Hmin' & Hmax' & _).
  unfold Report, printOperationStats, avg_latency, success_rate.
  by rewrite Hc, !Hstart, Ht, Ht', Hs, Hs', Hf, Hf', Hsum, Hsum', Hmin, Hmin', Hmax, Hmax'.
Qed.

(** A test in which nothing succeeded reports the largest duration as its minimal
    latency, and without any request the success rate is not a number. *)
Theorem empty_report start now :
  let r := Report now (NewMetricsCollector start) in
  rp_Min r = max_int64 ∧ rp_SuccessRate r = SpecFloat.S754_nan ∧ rp_Percentiles r = None ∧
  rp_Min (Report now (collect start [None; None])) = max_int64.
Proof. done. Qed.

(** ** Witnesses *)

Definition some_results : list (option Z) :=
  [Some 3000; None; Some 70000000; Some 42000; Some 2000000000; Some 9999].

Lemma percentiles_correct_witness :
  calculatePercentiles (collect 0 some_results) =
    Some (mkPercentiles (10 * Microsecond) (100 * Millisecond) (100 * Millisecond)) ∧
  ∃ p : nat → Z,
    calculatePercentiles (collect 0 some_results) = Some (mkPercentiles (p 50%nat) (p 95%nat) (p 99%nat)) ∧
    ∃ x, order_statistic (percentile_rank (length (latencies some_results)) 50) (latencies some_results)
      = Some x ∧ p 50%nat = latency_bucket x * Microsecond.
Proof.
  split; [by vm_compute|].
  destruct (percentiles_correct 0 some_results) as (p & Hp & Hx).
  - by vm_compute.
  - by vm_compute.
  - by repeat constructor.
  - exists p. split; [exact Hp|]. destruct (Hx 50%nat) as (x & Hx1 & Hx2 & _); [lia|].
    exists x. exact (conj Hx1 Hx2).
Defined.
