(* ===== verification/LoadTest.v ===== *)
(** * cmd/prism-loadtest: the load test commands

    register.go, enumerate.go, multicast.go and mixed.go: a main loop that launches one
    worker goroutine per permitted request until the test's time is up, waits for the
    workers and prints the report.  The workers share one coordinator, the metrics
    collectors and atomic counters.  A run is a sequence of labels: the main loop launches
    a worker or leaves the loop, a worker makes its next atomic step (an atomic add, a call
    under the coordinator's or a collector's lock, one delivery attempt of a multicast), or
    the coordinator's cleanup goroutine runs.  The rate limiter only decides when the main
    loop goes on, so a launch may happen at any time. *)

From stdpp Require Import pretty functions.
From S2P Require Import Prelude Backoff Slots Filter Coordinator RedisRegistry LoadMetrics.
Import GoFloat.
Local Open Scope Z_scope.

(** ** The commands and their flags *)

Inductive operation := OperationRegister | OperationEnumerate | OperationMulticast.

#[export] Instance operation_eq_dec : EqDecision operation.
Proof. solve_decision. Defined.

Inductive command :=
  | RegisterCommand
  | EnumerateCommand (useFilter : bool) (status : string)
  | MulticastCommand (useFilter : bool) (status : string)
  | MixedCommand (registerPct enumeratePct multicastPct : Z).

Definition is_mixed (cmd : command) : bool :=
  match cmd with MixedCommand _ _ _ => true | _ => false end.

Definition status_filter (status : string) : Filter :=
  NewFilter {[ "status"%string := VString status ]}.

(** The filter of the workers; [nil] without the [--filter] flag. *)
Definition worker_filter (cmd : command) : option Filter :=
  match cmd with
  | RegisterCommand => None
  | EnumerateCommand useFilter status | MulticastCommand useFilter status =>
      if useFilter then Some (status_filter status) else None
  | MixedCommand _ _ _ => Some (status_filter "online")
  end.

(** runMixed: the check of the percentages; [int]s are 64 bits wide. *)
Definition mixed_percentages_ok (registerPct enumeratePct multicastPct : Z) : bool :=
  wrap64 (wrap64 (registerPct + enumeratePct) + multicastPct) =? 100.

(** runMixed: the operation chosen by [roll := rng.Intn(100)]. *)
Definition select_operation (registerPct enumeratePct roll : Z) : operation :=
  if roll <? registerPct then OperationRegister
  else if roll <? wrap64 (registerPct + enumeratePct) then OperationEnumerate
  else OperationMulticast.

Definition command_operation (cmd : command) (roll : Z) : operation :=
  match cmd with
  | RegisterCommand => OperationRegister
  | EnumerateCommand _ _ => OperationEnumerate
  | MulticastCommand _ _ => OperationMulticast
  | MixedCommand registerPct enumeratePct _ => select_operation registerPct enumeratePct roll
  end.

(** ** What a worker sends *)

Definition loadtest_identity (idNum : Z) : string := "loadtest-user-" +:+ pretty idNum.

(** [unix]: [time.Now().Unix()]. *)
Definition loadtest_metadata (unix idNum : Z) : metadata :=
  {[ "status"%string := VString "online"; "loadtest"%string := VBool true;
     "timestamp"%string := VInt64 unix; "worker_id"%string := VInt64 (Z.rem idNum 100) ]}.

(** A double quote. *)
Definition dquote : string := String (Ascii.ascii_of_nat 34) "".

Definition quoted (s : string) : string := dquote +:+ s +:+ dquote.

Definition loadtest_payload (unix : Z) : list Z :=
  string_bytes ("{" +:+ quoted "type" +:+ ":" +:+ quoted "loadtest" +:+ "," +:+ quoted "timestamp" +:+
              ":" +:+ pretty unix +:+ "}").

(** ** setupCoordinator *)

Definition loadtest_config : Config :=
  mkConfig 1000000 (cf_TopicPrefix DefaultConfig) (cf_RetryAttempts DefaultConfig).

Inductive setup_error :=
  | ErrRedisBackend
  | ErrNatsBackend
  | ErrCoordinator (e : coordinator_error).

(** The backends that were closed on the way out. *)
Inductive closed_backend := ClosedRegistry | ClosedMessaging.

(** [redis] and [nats]: what the two constructors returned, [None] an error. *)
Definition setupCoordinator {R M} (redis : option R) (nats : option M)
    : (Config * @Coordinator R * M + setup_error) * list closed_backend :=
  match redis with
  | None => (inr ErrRedisBackend, [])
  | Some registry =>
      match nats with
      | None => (inr ErrNatsBackend, [ClosedRegistry])
      | Some messaging =>
          match NewCoordinator (Some loadtest_config) (Some registry) (Some messaging) with
          | Ok c => (inl c, [])
          | Err e => (inr (ErrCoordinator e), [ClosedRegistry; ClosedMessaging])
          | Panic => (inr (ErrCoordinator ErrRegistryRequired), [])
          end
      end
  end.

(** ** The state of a test *)

(** The atomic counters. *)
Inductive counter :=
  | OperationCount (op : operation)  (* registerCount, enumerateCount, multicastCount *)
  | IdentityCounter
  | TotalResults
  | TotalTargets
  | TotalDelivered
  | TotalFailed.

#[export] Instance counter_eq_dec : EqDecision counter.
Proof. solve_decision. Defined.

(** Where a worker is: launched; about to do its operation; about to register with the
    number it has drawn; in the fan-out of a multicast to [n] targets; about to record its
    result ([err]: the call failed); about to add to counters.  With nothing left to add it
    has finished. *)
Inductive worker :=
  | WStart (op : operation)
  | WCall (op : operation)
  | WRegister (idNum : Z)
  | WFanout (payload : list Z) (n : nat) (ds : list delivery) (rs : list DeliveryResult)
  | WRecord (op : operation) (err : bool) (adds : list (counter * Z))
  | WAdd (op : operation) (adds : list (counter * Z)).

Definition worker_operation (w : worker) : operation :=
  match w with
  | WStart op | WCall op | WRecord op _ _ | WAdd op _ => op
  | WRegister _ => OperationRegister
  | WFanout _ _ _ _ => OperationMulticast
  end.

Definition worker_done (w : worker) : bool :=
  match w with WAdd _ [] => true | _ => false end.

(** What the environment answers to a worker's step: the clock ([tk_now], [tk_unix], and
    [tk_clock] for the readings of an enumeration), the measured latency, and the delivery
    goroutine that runs next. *)
Record tick := mkTick {
  tk_now : Z;
  tk_unix : Z;
  tk_clock : string → Z;
  tk_latency : Z;
  tk_pick : nat }.

Inductive load_label :=
  | Launch (roll : Z)
  | Leave
  | Step (i : nat) (t : tick)
  | Cleanup (now : Z).

Section Load.
Context {R M : Type} `{!RegistryBackend R, !MessagingBackend M}.
Context (config : Config) (cmd : command) (registerTTL : Z).

(** [ld_left]: the main loop has been left; [ld_panicked]: a worker panicked, which ends
    the program. *)
Record load := mkLoad {
  ld_co : @Coordinator R;
  ld_msg : M;
  ld_metrics : operation → MetricsCollector;
  ld_counters : counter → Z;
  ld_workers : list worker;
  ld_left : bool;
  ld_panicked : bool }.

Definition start_load (now : Z) (co : @Coordinator R) (msg : M) : load :=
  mkLoad co msg (λ _, NewMetricsCollector now) (λ _, 0) [] false false.

Definition set_co (co : @Coordinator R) (s : load) : load :=
  mkLoad co (ld_msg s) (ld_metrics s) (ld_counters s) (ld_workers s) (ld_left s) (ld_panicked s).
Definition set_msg (m : M) (s : load) : load :=
  mkLoad (ld_co s) m (ld_metrics s) (ld_counters s) (ld_workers s) (ld_left s) (ld_panicked s).
Definition set_workers (ws : list worker) (s : load) : load :=
  mkLoad (ld_co s) (ld_msg s) (ld_metrics s) (ld_counters s) ws (ld_left s) (ld_panicked s).
Definition panic_load (s : load) : load :=
  mkLoad (ld_co s) (ld_msg s) (ld_metrics s) (ld_counters s) (ld_workers s) (ld_left s) true.

(** [counter.Add(n)]. *)
Definition add (c : counter) (n : Z) (s : load) : load :=
  mkLoad (ld_co s) (ld_msg s) (ld_metrics s) (<[c := wrap64 (ld_counters s c + n)]> (ld_counters s))
    (ld_workers s) (ld_left s) (ld_panicked s).

Definition record (op : operation) (o : option Z) (s : load) : load :=
  mkLoad (ld_co s) (ld_msg s) (<[op := observe (ld_metrics s op) o]> (ld_metrics s)) (ld_counters s)
    (ld_workers s) (ld_left s) (ld_panicked s).

(** What a worker adds after a success: enumerate.go counts the identities it was given,
    mixed.go does not. *)
Definition enumerate_adds (ids : list Identity) : list (counter * Z) :=
  if is_mixed cmd then [] else [(TotalResults, Z.of_nat (length ids))].

Definition multicast_adds (r : MulticastResponse) : list (counter * Z) :=
  [(TotalTargets, Z.of_nat (mr_TargetCount r)); (TotalDelivered, Z.of_nat (mr_DeliveredCount r));
   (TotalFailed, Z.of_nat (mr_FailedCount r))].

(** The next step of a worker: its new place and the new state, [inr] a panic. *)
Definition worker_step (t : tick) (w : worker) (s : load) : option (worker * load + unit) :=
  match w with
  | WStart op => Some (inl (WCall op, if is_mixed cmd then add (OperationCount op) 1 s else s))
  | WCall OperationRegister =>
      let s := add IdentityCounter 1 s in
      Some (inl (WRegister (ld_counters s IdentityCounter), s))
  | WRegister idNum =>
      let '(co, err) := Register config (tk_now t) (loadtest_identity idNum)
        (loadtest_metadata (tk_unix t) idNum) (wrap64 (registerTTL * Second)) (ld_co s) in
      Some (inl (WRecord OperationRegister (match err with Some _ => true | None => false end) [],
                 set_co co s))
  | WCall OperationEnumerate =>
      match Enumerate (tk_clock t) (worker_filter cmd) (ld_co s) with
      | None => Some (inr ())
      | Some ids => Some (inl (WRecord OperationEnumerate false (enumerate_adds ids), s))
      end
  | WCall OperationMulticast =>
      match Enumerate (tk_clock t) (worker_filter cmd) (ld_co s) with
      | None => Some (inr ())
      | Some targets =>
          Some (inl (WFanout (loadtest_payload (tk_unix t)) (length targets)
                       (fo_deliveries (start_fanout config targets (ld_msg s))) [], s))
      end
  | WFanout payload n ds rs =>
      let f := mkFanout ds rs (ld_msg s) in
      if all_sent f then
        Some (inl (WRecord OperationMulticast false (multicast_adds (aggregate n rs)), s))
      else
        f' ← deliver config payload (tk_pick t) f;
        Some (inl (WFanout payload n (fo_deliveries f') (fo_results f'), set_msg (fo_messaging f') s))
  | WRecord op err adds =>
      Some (inl (WAdd op (if err then [] else adds),
                 record op (if err then None else Some (tk_latency t)) s))
  | WAdd op ((c, n) :: adds) => Some (inl (WAdd op adds, add c n s))
  | WAdd _ [] => None
  end.

(** A latency is a measured duration: [time.Since] of a monotonic clock. *)
Definition tick_ok (t : tick) : bool := (0 <=? tk_latency t) && (tk_latency t <=? max_int64).

Definition load_exec (l : load_label) (s : load) : option load :=
  if ld_panicked s then None else
  match l with
  | Launch roll =>
      if ld_left s || negb ((0 <=? roll) && (roll <? 100)) then None
      else Some (set_workers (ld_workers s ++ [WStart (command_operation cmd roll)]) s)
  | Leave =>
      if ld_left s then None
      else Some (mkLoad (ld_co s) (ld_msg s) (ld_metrics s) (ld_counters s) (ld_workers s) true false)
  | Step i t =>
      w ← ld_workers s !! i;
      if negb (tick_ok t) then None
      else
        r ← worker_step t w s;
        match r with
        | inl (w', s') => Some (set_workers (<[i := w']> (ld_workers s')) s')
        | inr () => Some (panic_load s)
        end
  | Cleanup now => Some (set_co (performCleanup now (ld_co s)) s)
  end.

(** [workerWg.Wait()] has returned after the loop. *)
Definition load_finished (s : load) : bool := ld_left s && forallb worker_done (ld_workers s).

(** ** Reports *)

Record enumerate_report := mkEnumerateReport {
  er_report : report;
  er_TotalResults : Z;
  er_AvgPerQuery : float64 }.

Definition enumerateReport (now : Z) (s : load) : enumerate_report :=
  let m := ld_metrics s OperationEnumerate in
  mkEnumerateReport (Report now m) (ld_counters s TotalResults)
    (average (ld_counters s TotalResults) (mc_SuccessfulReqs m)).

(** [float64(a) / float64(b) * 100] where [b] is positive, 0 otherwise. *)
Definition delivery_rate (a b : Z) : float64 := if 0 <? b then percentage a b else f64_zero.

Record multicast_report := mkMulticastReport {
  mr_report : report;
  mr_TotalTargets : Z;
  mr_Delivered : Z;
  mr_DeliveryRate : float64;
  mr_Failed : Z;
  mr_AvgPerMulticast : float64 }.

Definition multicastReport (now : Z) (s : load) : multicast_report :=
  let m := ld_metrics s OperationMulticast in
  mkMulticastReport (Report now m) (ld_counters s TotalTargets) (ld_counters s TotalDelivered)
    (delivery_rate (ld_counters s TotalDelivered) (ld_counters s TotalTargets))
    (ld_counters s TotalFailed)
    (average (ld_counters s TotalTargets) (mc_SuccessfulReqs m)).

(** The sections about an operation that was never launched are left out. *)
Record mixed_report := mkMixedReport {
  xr_TotalOperations : Z;
  xr_Counts : operation → Z * float64;
  xr_Stats : operation → option operation_stats;
  xr_Delivery : option (Z * Z * float64 * Z) }.

Definition printMixedReport (s : load) : mixed_report :=
  let count op := ld_counters s (OperationCount op) in
  let totalRequests := wrap64 (wrap64 (count OperationRegister + count OperationEnumerate)
                               + count OperationMulticast) in
  mkMixedReport totalRequests
    (λ op, (count op, percentage (count op) totalRequests))
    (λ op, if 0 <? count op then Some (printOperationStats (ld_metrics s op)) else None)
    (if 0 <? count OperationMulticast then
       Some (ld_counters s TotalTargets, ld_counters s TotalDelivered,
             delivery_rate (ld_counters s TotalDelivered) (ld_counters s TotalTargets),
             ld_counters s TotalFailed)
     else None).

(** *** Progress *)

(** reportProgress and its variants: a line per tick until the context is done or the test
    has stopped.  They read the collectors without their lock, at [s]. *)
Inductive reporter_event := ReporterDone | ReporterStop | ReporterTick (now : Z) (s : load).

Record progress_line := mkProgress {
  pl_elapsed : Z;
  pl_requests : Z;
  pl_success : float64;
  pl_throughput : float64;
  pl_extra : list float64 }.

Fixpoint report_loop {A} (line : Z → load → A) (events : list reporter_event) : list A :=
  match events with
  | ReporterTick now s :: events => line now s :: report_loop line events
  | _ => []
  end.

Definition progress_of (op : operation) (extra : load → list float64) (now : Z) (s : load)
    : progress_line :=
  let m := ld_metrics s op in
  let elapsed := now - mc_StartTime m in
  mkProgress (Round elapsed Second) (mc_TotalRequests m) (success_rate m)
    (f64_div (f64_of_int (mc_TotalRequests m)) (Seconds elapsed)) (extra s).

Definition reportProgress : list reporter_event → list progress_line :=
  report_loop (progress_of OperationRegister (λ _, [])).

Definition reportProgressWithResults : list reporter_event → list progress_line :=
  report_loop (progress_of OperationEnumerate (λ s,
    [average (ld_counters s TotalResults) (mc_SuccessfulReqs (ld_metrics s OperationEnumerate))])).

Definition reportProgressWithDelivery : list reporter_event → list progress_line :=
  report_loop (progress_of OperationMulticast (λ s,
    [average (ld_counters s TotalTargets) (mc_SuccessfulReqs (ld_metrics s OperationMulticast));
     delivery_rate (ld_counters s TotalDelivered) (ld_counters s TotalTargets)])).

Record mixed_progress := mkMixedProgress {
  mp_elapsed : Z;
  mp_total : Z;
  mp_throughput : float64;
  mp_counts : operation → Z }.

Definition reportMixedProgress : list reporter_event → list mixed_progress :=
  report_loop (λ now s,
    let count op := ld_counters s (OperationCount op) in
    let elapsed := now - mc_StartTime (ld_metrics s OperationRegister) in
    let totalRequests := wrap64 (wrap64 (count OperationRegister + count OperationEnumerate)
                                 + count OperationMulticast) in
    mkMixedProgress (Round elapsed Second) totalRequests
      (f64_div (f64_of_int totalRequests) (Seconds elapsed)) count).
End Load.

(** ** Running a command *)

Inductive run_error :=
  | ErrPercentages (total : Z)
  | ErrSetup (e : setup_error).

(** Up to the launch loop: the validation of the percentages, the coordinator, and the
    state the loop starts in.  [inl (config, s)]: the loop runs on the coordinator's
    configuration from [s]. *)
Definition start_command {R M} (cmd : command) (now : Z) (redis : option R) (nats : option M)
    : Config * @load R M + run_error :=
  let go :=
    match (setupCoordinator redis nats).1 with
    | inl (config, co, msg) => inl (config, start_load now co msg)
    | inr e => inr (ErrSetup e)
    end in
  match cmd with
  | MixedCommand r e m =>
      if mixed_percentages_ok r e m then go
      else inr (ErrPercentages (wrap64 (wrap64 (r + e) + m)))
  | _ => go
  end.

Section Run.
Context {R M : Type} `{!RegistryBackend R, !MessagingBackend M}.

(** A whole command: the loop and the workers run as [labels] say, and once every worker
    has finished the report is printed.  [None]: [labels] is not a complete run. *)
Definition run_command {A} (cmd : command) (registerTTL start : Z) (redis : option R) (nats : option M)
    (print : @load R M → A) (labels : list load_label) : option (A + run_error) :=
  match start_command cmd start redis nats with
  | inr e => Some (inr e)
  | inl (config, s) =>
      s' ← run_labels (load_exec config cmd registerTTL) labels s;
      if load_finished s' then Some (inl (print s')) else None
  end.

Context (registerTTL start : Z) (redis : option R) (nats : option M) (now : Z).

Definition runRegister : list load_label → option (report + run_error) :=
  run_command RegisterCommand registerTTL start redis nats
    (λ s, Report now (ld_metrics s OperationRegister)).

Definition runEnumerate (enumerateFilter : bool) (enumerateStatus : string)
    : list load_label → option (enumerate_report + run_error) :=
  run_command (EnumerateCommand enumerateFilter enumerateStatus) registerTTL start redis nats
    (enumerateReport now).

Definition runMulticast (multicastFilter : bool) (multicastStatus : string)
    : list load_label → option (multicast_report + run_error) :=
  run_command (MulticastCommand multicastFilter multicastStatus) registerTTL start redis nats
    (multicastReport now).

Definition runMixed (mixedRegisterPct mixedEnumeratePct mixedMulticastPct : Z)
    : list load_label → option (mixed_report + run_error) :=
  run_command (MixedCommand mixedRegisterPct mixedEnumeratePct mixedMulticastPct) registerTTL start
    redis nats printMixedReport.
End Run.
