(* ===== verification/LoadTestSpec.v ===== *)
(** * Correctness of the load test commands

    Whatever the interleaving of the workers: every launched request is recorded once, the
    identities registered are all different, the delivery totals add up, no worker panics,
    and once the main loop has been left the test ends. *)

From stdpp Require Import pretty functions.
From S2P Require Import Prelude Filter Coordinator CoordinatorSpec LoadMetrics LoadTest.
Local Open Scope Z_scope.

(** ** Counting workers *)

Definition count (P : worker → bool) (ws : list worker) : nat :=
  sum_list_with (λ w, if P w then 1%nat else 0%nat) ws.

Lemma count_app P ws ws' : count P (ws ++ ws') = (count P ws + count P ws')%nat.
Proof. unfold count. by rewrite sum_list_with_app. Qed.

Lemma count_insert P ws i w w' : ws !! i = Some w →
  (count P (<[i := w']> ws) + (if P w then 1 else 0) = count P ws + (if P w' then 1 else 0))%nat.
Proof. apply (sum_insert (λ w, if P w then 1%nat else 0%nat)). Qed.

Lemma count_same P ws i w w' : ws !! i = Some w → P w = P w' → count P (<[i := w']> ws) = count P ws.
Proof. intros Hi HP. pose proof (count_insert P ws i w w' Hi) as H. rewrite HP in H. lia. Qed.

Lemma count_more P ws i w w' :
  ws !! i = Some w → P w = false → P w' = true → count P (<[i := w']> ws) = S (count P ws).
Proof. intros Hi Hw Hw'. pose proof (count_insert P ws i w w' Hi) as H. rewrite Hw, Hw' in H. lia. Qed.

Lemma count_le P ws : (count P ws ≤ length ws)%nat.
Proof. unfold count. induction ws as [|w ws IH]; simpl; [done|]. case_match; lia. Qed.

Lemma count_impl (P Q : worker → bool) ws : (∀ w, P w → Q w) → (count P ws ≤ count Q ws)%nat.
Proof.
  intros HPQ. unfold count. induction ws as [|w ws IH]; simpl; [done|].
  specialize (HPQ w). destruct (P w), (Q w); simpl in *; try lia; by destruct HPQ.
Qed.

Definition of_op (op : operation) (w : worker) : bool := bool_decide (worker_operation w = op).
Definition recorded (w : worker) : bool := match w with WAdd _ _ => true | _ => false end.
Definition started (w : worker) : bool := match w with WStart _ => false | _ => true end.

(** A registering worker that has drawn its number. *)
Definition drawn (w : worker) : bool :=
  of_op OperationRegister w && match w with WStart _ | WCall _ => false | _ => true end.

Section Spec.
Context {R M : Type} `{!RegistryBackend R, !MessagingBackend M}.
Context (config : Config) (cmd : command) (ttl : Z).
Implicit Types (s : @load R M).

Abbreviation exec := (load_exec config cmd ttl).
Abbreviation wstep := (worker_step config cmd ttl).

(** ** The shape of a step *)

Inductive exec_cases (l : load_label) s s' : Prop :=
  | ex_launch roll : l = Launch roll → ld_left s = false → 0 ≤ roll < 100 →
      s' = set_workers (ld_workers s ++ [WStart (command_operation cmd roll)]) s → exec_cases l s s'
  | ex_leave : l = Leave →
      s' = mkLoad (ld_co s) (ld_msg s) (ld_metrics s) (ld_counters s) (ld_workers s) true false →
      exec_cases l s s'
  | ex_cleanup now : l = Cleanup now → s' = set_co (performCleanup now (ld_co s)) s → exec_cases l s s'
  | ex_step i t w w' s1 : l = Step i t → ld_workers s !! i = Some w → 0 ≤ tk_latency t ≤ max_int64 →
      wstep t w s = Some (inl (w', s1)) →
      s' = set_workers (<[i := w']> (ld_workers s)) s1 → exec_cases l s s'
  | ex_panic i t w : l = Step i t → ld_workers s !! i = Some w →
      wstep t w s = Some (inr ()) → s' = panic_load s → exec_cases l s s'.

Lemma wstep_frame t w s w' s1 : wstep t w s = Some (inl (w', s1)) →
  ld_workers s1 = ld_workers s ∧ ld_left s1 = ld_left s ∧ ld_panicked s1 = ld_panicked s ∧
  worker_operation w' = worker_operation w.
Proof.
  destruct w as [op|[]|idNum|pl n ds rs|op err adds|op [|[c n] adds]]; simpl;
    unfold Coordinator.start_fanout; intros H; split_match_in H; simplify_eq/=; try done.
  apply bind_Some in H as (f & _ & ?). by simplify_eq/=.
Qed.

Lemma exec_inv l s s' : exec l s = Some s' → ld_panicked s = false ∧ exec_cases l s s'.
Proof.
  unfold load_exec. destruct (ld_panicked s); [done|]. intros H. split; [done|].
  destruct l as [roll| |i t|now].
  - destruct (ld_left s) eqn:Hl; [done|]. simpl in H. case_match eqn:Hr; [done|]. bool_to_prop.
    injection H as <-. by eapply ex_launch.
  - destruct (ld_left s); [done|]. injection H as <-. by apply ex_leave.
  - apply bind_Some in H as (w & Hw & H). case_match eqn:Ht; [done|]. bool_to_prop.
    unfold tick_ok in Ht. bool_to_prop.
    apply bind_Some in H as ([[w' s1]|[]] & Hs & H); injection H as <-.
    + pose proof (wstep_frame _ _ _ _ _ Hs) as (Hws & _).
      eapply (ex_step _ _ _ i t w w' s1); [done..|]. by rewrite Hws.
    + by eapply ex_panic.
  - injection H as <-. by eapply ex_cleanup.
Qed.

(** ** Every launched request is recorded once *)

(** The results recorded for [op]: one per worker of [op] that has recorded, with latencies
    in range, and only registrations fail. *)
Definition metrics_inv (start : Z) s : Prop :=
  ∀ op, ∃ obs, ld_metrics s op = collect start obs ∧
    length obs = count (λ w, of_op op w && recorded w) (ld_workers s) ∧
    Forall (λ o, ∀ l, o = Some l → 0 ≤ l ≤ max_int64) obs ∧
    (op ≠ OperationRegister → Forall is_Some obs).

(** Only registrations can fail, and they have nothing to add. *)
Definition failing_inv s : Prop :=
  ∀ i op adds, ld_workers s !! i = Some (WRecord op true adds) → op = OperationRegister ∧ adds = [].

Lemma wstep_failing t w s w' s1 : wstep t w s = Some (inl (w', s1)) →
  ∀ op adds, w' = WRecord op true adds → op = OperationRegister ∧ adds = [].
Proof.
  destruct w as [op|[]|idNum|pl n ds rs|op err adds|op [|[c n] adds]]; simpl; intros H op' adds' ->;
    split_match_in H; simplify_eq/=; try done.
  by apply bind_Some in H as (f & _ & ?).
Qed.

Lemma failing_step l s s' : failing_inv s → exec l s = Some s' → failing_inv s'.
Proof.
  intros Hf (_ & Hc)%exec_inv. unfold failing_inv in *.
  destruct Hc as [roll _ _ _ ->|_ ->|now _ ->|i t w w' s1 _ Hi _ Hs ->|i t w _ Hi _ ->];
    intros j op adds; simpl; eauto.
  - intros [[_ ?]|[_ ?]]%lookup_snoc_Some; [eauto|done].
  - intros [(-> & -> & _)|[_ ?]]%list_lookup_insert_Some; [|eauto].
    by eapply wstep_failing.
Qed.

(** A step changes a collector only when it records. *)
Lemma wstep_metrics t w s w' s1 op : wstep t w s = Some (inl (w', s1)) →
  match w with
  | WRecord op0 err _ =>
      recorded w' = true ∧
      ld_metrics s1 op = if decide (op0 = op)
        then observe (ld_metrics s op) (if err then None else Some (tk_latency t))
        else ld_metrics s op
  | _ => ld_metrics s1 op = ld_metrics s op ∧ recorded w' = recorded w
  end.
Proof.
  destruct w as [op'|[]|idNum|pl n ds rs|op' err adds|op' [|[c n] adds]]; simpl; intros H;
    split_match_in H; simplify_eq/=; try done.
  - apply bind_Some in H as (f & _ & ?). by simplify_eq/=.
  - split; [done|]. case_decide; subst; [by rewrite fn_lookup_insert|by rewrite fn_lookup_insert_ne].
  - split; [done|]. case_decide; subst; [by rewrite fn_lookup_insert|by rewrite fn_lookup_insert_ne].
Qed.

Lemma metrics_step start l s s' :
  failing_inv s → metrics_inv start s → exec l s = Some s' → metrics_inv start s'.
Proof.
  intros Hf Hm (_ & Hc)%exec_inv. unfold metrics_inv in *.
  destruct Hc as [roll _ _ _ ->|_ ->|now _ ->|i t w w' s1 _ Hi Ht Hs ->|i t w _ Hi _ ->];
    simpl; [|done|done| |done].
  { intros op. destruct (Hm op) as (obs & ? & Hlen & ?). exists obs. split; [done|].
    rewrite count_app. unfold count at 2. simpl. by rewrite andb_false_r, !Nat.add_0_r. }
  intros op. destruct (Hm op) as (obs & Hobs & Hlen & Hr & Hok).
  pose proof (wstep_metrics t w s w' s1 op Hs) as He.
  destruct (wstep_frame _ _ _ _ _ Hs) as (_ & _ & _ & Hop).
  assert (recorded w' = recorded w → ld_metrics s1 op = ld_metrics s op → ∃ obs, ld_metrics s1 op = collect start obs ∧
    length obs = count (λ w, of_op op w && recorded w) (<[i:=w']> (ld_workers s)) ∧
    Forall (λ o, ∀ l, o = Some l → 0 ≤ l ≤ max_int64) obs ∧
    (op ≠ OperationRegister → Forall is_Some obs)) as Hsame.
  { intros Hrec Heq. exists obs. rewrite Heq. split; [done|]. split; [|done].
    rewrite (count_same _ _ _ w); [done|done|]. unfold of_op. by rewrite Hop, Hrec. }
  destruct w as [op'|op'|idNum|pl n ds rs|op' err adds|op' adds]; try (destruct He as [? ?]; by apply Hsame).
  destruct He as [Hrec He]. case_decide as Hd; subst.
  - exists (obs ++ [if err then None else Some (tk_latency t)]). rewrite collect_snoc, <- Hobs.
    split; [done|]. rewrite length_app, Hlen. simpl. split_and!.
    + rewrite (count_more _ _ _ (WRecord op err adds)); [lia|done| |].
      * by rewrite andb_false_r.
      * rewrite Hrec. unfold of_op. by rewrite Hop, bool_decide_true.
    + apply Forall_app_2; [done|]. apply Forall_singleton. intros l'. destruct err; [done|]. by intros [= <-].
    + intros Hne. apply Forall_app_2; [by apply Hok|]. apply Forall_singleton.
      destruct err; [|done]. destruct Hne. by eapply (Hf i).
  - exists obs. rewrite He. split; [done|]. split; [|done].
    rewrite (count_same _ _ _ (WRecord op' err adds)); [done|done|]. unfold of_op. simpl in *.
    rewrite Hop. by rewrite bool_decide_false.
Qed.

(** ** The counters of the operations *)

(** A worker adds to the totals only. *)
Definition totals_only (adds : list (counter * Z)) : Prop :=
  Forall (λ a, a.1 ∈ [TotalResults; TotalTargets; TotalDelivered; TotalFailed]) adds.
Definition worker_adds (w : worker) : list (counter * Z) :=
  match w with WRecord _ _ adds | WAdd _ adds => adds | _ => [] end.
Definition adds_inv s : Prop := ∀ i w, ld_workers s !! i = Some w → totals_only (worker_adds w).

Lemma wstep_adds t w s w' s1 : wstep t w s = Some (inl (w', s1)) →
  totals_only (worker_adds w) → totals_only (worker_adds w').
Proof.
  unfold totals_only.
  destruct w as [op|[]|idNum|pl n ds rs|op err adds|op [|[c n] adds]]; simpl; intros H Hw;
    split_match_in H; simplify_eq/=; try done.
  - unfold enumerate_adds. case_match; [done|]. repeat constructor.
  - repeat constructor; simpl; set_solver.
  - apply bind_Some in H as (f & _ & ?). by simplify_eq/=.
  - by apply Forall_cons in Hw as [_ ?].
Qed.

Lemma adds_step l s s' : adds_inv s → exec l s = Some s' → adds_inv s'.
Proof.
  intros Hf (_ & Hc)%exec_inv. unfold adds_inv in *.
  destruct Hc as [roll _ _ _ ->|_ ->|now _ ->|i t w w' s1 _ Hi _ Hs ->|i t w _ Hi _ ->];
    intros j w0; simpl; eauto.
  - intros [[_ ?]|[_ <-]]%lookup_snoc_Some; [eauto|constructor].
  - intros [(-> & -> & _)|[_ ?]]%list_lookup_insert_Some; [|eauto].
    eapply wstep_adds; eauto.
Qed.

Definition counts_inv s : Prop :=
  is_mixed cmd = true → ∀ op,
    ld_counters s (OperationCount op) = wrap64 (Z.of_nat (count (λ w, of_op op w && started w) (ld_workers s))).

Lemma wstep_count t w s w' s1 op : wstep t w s = Some (inl (w', s1)) →
  is_mixed cmd = true → totals_only (worker_adds w) →
  started w' = true ∧
  ld_counters s1 (OperationCount op) =
    if of_op op w && negb (started w) then wrap64 (ld_counters s (OperationCount op) + 1)
    else ld_counters s (OperationCount op).
Proof.
  intros H Hmix Hw.
  destruct w as [op'|[]|idNum|pl n ds rs|op' err adds|op' [|[c n] adds]]; simpl in H;
    rewrite ?andb_false_r; split_match_in H; simplify_eq/=; try done.
  - unfold of_op. simpl. split; [done|]. case_bool_decide as Hd; subst; simpl.
    + by rewrite fn_lookup_insert.
    + rewrite fn_lookup_insert_ne; [done|]. congruence.
  - by apply bind_Some in H as (f & _ & [= <- <-]).
  - apply Forall_cons in Hw as [Hc _]. split; [done|]. rewrite fn_lookup_insert_ne; [done|].
    intros ->. simpl in Hc. set_solver.
Qed.

Lemma counts_step l s s' : adds_inv s → counts_inv s → exec l s = Some s' → counts_inv s'.
Proof.
  intros Ha Hc0 (_ & Hc)%exec_inv. unfold counts_inv in *. intros Hmix op. specialize (Hc0 Hmix op).
  destruct Hc as [roll _ _ _ ->|_ ->|now _ ->|i t w w' s1 _ Hi _ Hs ->|i t w _ Hi _ ->];
    simpl; [|done|done| |done].
  - rewrite Hc0, count_app. do 2 f_equal. unfold count at 3. simpl. rewrite andb_false_r. simpl. lia.
  - destruct (wstep_count t w s w' s1 op Hs Hmix (Ha _ _ Hi)) as [Hst ->].
    destruct (wstep_frame _ _ _ _ _ Hs) as (_ & _ & _ & Hop).
    destruct (of_op op w && negb (started w)) eqn:E.
    + apply andb_true_iff in E as [E1 E2%negb_true_iff]. rewrite Hc0, wrap64_add.
      rewrite (count_more _ _ _ w); [f_equal; lia|done| |].
      * by rewrite E2, andb_false_r.
      * unfold of_op in *. by rewrite Hop, E1, Hst.
    + rewrite Hc0, (count_same _ _ _ w); [done|done|]. unfold of_op in *. rewrite Hop, Hst.
      destruct (bool_decide _); [|done]. simpl in *. by apply negb_false_iff in E.
Qed.

(** ** Deliveries add up *)

Definition pending (c : counter) (w : worker) : Z :=
  foldr (λ a z, if decide (a.1 = c) then a.2 + z else z) 0 (worker_adds w).
Definition total_pending (c : counter) (ws : list worker) : Z := foldr (λ w z, pending c w + z) 0 ws.

(** Targets that are neither delivered nor failed. *)
Definition unaccounted (f : counter → Z) : Z := f TotalTargets - f TotalDelivered - f TotalFailed.

Definition balance s : Z := unaccounted (λ c, ld_counters s c + total_pending c (ld_workers s)).

Definition fanout_ok (w : worker) : Prop :=
  match w with
  | WFanout _ n ds rs =>
      length ds = n ∧ length rs = length (sent_ids ds)
  | _ => True
  end.

(** The totals a worker has to add are balanced before the first of them is added. *)
Definition delivery_inv s : Prop :=
  balance s mod 2 ^ 64 = 0 ∧ ∀ i w, ld_workers s !! i = Some w → fanout_ok w.

Lemma total_pending_insert c ws i w w' : ws !! i = Some w →
  total_pending c (<[i := w']> ws) = total_pending c ws - pending c w + pending c w'.
Proof.
  revert i. induction ws as [|x ws IH]; intros [|i] Hi; simplify_eq/=; [lia|].
  rewrite (IH i Hi). lia.
Qed.

Lemma total_pending_snoc c ws w : pending c w = 0 → total_pending c (ws ++ [w]) = total_pending c ws.
Proof. intros Hw. unfold total_pending. rewrite foldr_app. simpl. by rewrite Hw. Qed.

Lemma deliver_fanout_ok payload pick n ds rs m f' :
  deliver config payload pick (mkFanout ds rs m) = Some f' →
  fanout_ok (WFanout payload n ds rs) → fanout_ok (WFanout payload n (fo_deliveries f') (fo_results f')).
Proof.
  intros Hd%deliver_delivered [Hn Hr]. simpl in *.
  destruct Hd as [id k Hi _ -> ->|id k Hi _ -> ->|id Hi _ -> ->]; simpl in *;
    rewrite length_insert; (split; [done|]); rewrite (sent_ids_insert _ _ _ _ Hi) by done;
    rewrite ?length_app, Hr; simpl; lia.
Qed.

Lemma wrap64_mod z : ∃ k, wrap64 z = z + k * 2 ^ 64.
Proof.
  unfold wrap64, wrap_signed. exists (- ((z + 2 ^ (64 - 1)) / 2 ^ 64)).
  pose proof (Z.div_mod (z + 2 ^ (64 - 1)) (2 ^ 64) ltac:(lia)). lia.
Qed.

Lemma fanout_start targets (m : M) payload :
  fanout_ok (WFanout payload (length targets) (fo_deliveries (start_fanout config targets m)) []).
Proof.
  unfold start_fanout. simpl. rewrite length_fmap. split; [done|].
  unfold sent_ids. induction targets as [|x targets IH]; [done|]. done.
Qed.

(** The counts of a complete fan-out are balanced. *)
Lemma aggregate_balanced payload n ds rs (m : M) :
  fanout_ok (WFanout payload n ds rs) → all_sent (mkFanout ds rs m) = true →
  let r := aggregate n rs in
  mr_TargetCount r = (mr_DeliveredCount r + mr_FailedCount r)%nat.
Proof.
  intros [Hn Hr] Hs%sent_ids_all. simpl in *. rewrite aggregate_spec. simpl.
  rewrite Hs, length_fmap in Hr. pose proof (filter_length_le is_delivered rs). lia.
Qed.

Lemma wstep_balance t w s w' s1 : wstep t w s = Some (inl (w', s1)) → fanout_ok w →
  (∀ op adds, w = WRecord op true adds → adds = []) →
  fanout_ok w' ∧
  ∃ k, unaccounted (λ c, ld_counters s1 c + pending c w') =
       unaccounted (λ c, ld_counters s c + pending c w) + k * 2 ^ 64.
Proof.
  intros H Hw Herr. unfold unaccounted.
  destruct w as [op|[]|idNum|pl n ds rs|op err adds|op [|[c n] adds]]; simpl in H.
  - simplify_eq/=. split; [done|]. exists 0. unfold pending. case_match; simpl; unfold insert, fn_insert; simpl; lia.
  - simplify_eq/=. split; [done|]. exists 0. unfold pending, insert, fn_insert. simpl. lia.
  - split_match_in H; simplify_eq/=. split; [done|]. exists 0. unfold enumerate_adds, pending.
    simpl. case_match; simpl; lia.
  - split_match_in H; simplify_eq/=. split; [by apply (fanout_start _ (ld_msg s1) (loadtest_payload (tk_unix t)))|]. exists 0. unfold pending. simpl. lia.
  - split_match_in H; simplify_eq/=. split; [done|]. exists 0. unfold pending. simpl. lia.
  - destruct (all_sent _) eqn:Ha; simplify_eq/=.
    + split; [done|]. exists 0. pose proof (aggregate_balanced pl _ _ _ _ Hw Ha) as Hb. simpl in Hb.
      unfold pending. simpl. lia.
    + apply bind_Some in H as (f & Hd & ?). simplify_eq/=. split; [by eapply (deliver_fanout_ok pl)|].
      exists 0. unfold pending. simpl. lia.
  - simplify_eq/=. split; [done|]. exists 0. unfold pending. simpl.
    destruct err; [|lia]. rewrite (Herr op adds eq_refl). simpl. lia.
  - done.
  - simplify_eq/=. split; [done|]. destruct (wrap64_mod (ld_counters s c + n)) as [k Hk].
    unfold pending. simpl.
    exists (match c with TotalTargets => k | TotalDelivered | TotalFailed => - k | _ => 0 end).
    destruct c; unfold insert, fn_insert; simpl; rewrite ?Hk; lia.
Qed.

Lemma delivery_step l s s' : failing_inv s → delivery_inv s → exec l s = Some s' → delivery_inv s'.
Proof.
  intros Hf [Hb Hw] (_ & Hc)%exec_inv. unfold delivery_inv in *.
  destruct Hc as [roll _ _ _ ->|_ ->|now _ ->|i t w w' s1 _ Hi _ Hs ->|i t w _ Hi _ ->]; simpl;
    try done.
  - split.
    + unfold balance in *. simpl. unfold unaccounted. by rewrite !total_pending_snoc.
    + intros j w [[_ ?]|[_ <-]]%lookup_snoc_Some; [eauto|done].
  - destruct (wstep_balance t w s w' s1 Hs (Hw _ _ Hi)) as [Hok [k Hk]].
    { intros op adds ->. by eapply Hf. }
    split.
    + unfold balance in *. simpl. rewrite <- (Z_mod_plus_full _ k) in Hb. etrans; [|exact Hb].
      f_equal. unfold unaccounted in *. rewrite !(total_pending_insert _ _ _ _ _ Hi). lia.
    + intros j w0 [(-> & -> & _)|[_ ?]]%list_lookup_insert_Some; [done|eauto].
Qed.

(** ** Identities *)

(** The worker is about to register number [n]. *)
Definition registering (n : Z) s : Prop := ∃ i, ld_workers s !! i = Some (WRegister n).

Record identities_inv s : Prop := {
  ii_counter : ld_counters s IdentityCounter = Z.of_nat (count drawn (ld_workers s));
  ii_pending i n : ld_workers s !! i = Some (WRegister n) → 1 ≤ n ≤ ld_counters s IdentityCounter;
  ii_unique i j n : ld_workers s !! i = Some (WRegister n) → ld_workers s !! j = Some (WRegister n) → i = j;
  ii_key k x : co_identities (ld_co s) !! k = Some x →
    id_Metadata x !! "status"%string = Some (VString "online") ∧
    ∃ n, k = loadtest_identity n ∧ 1 ≤ n ≤ ld_counters s IdentityCounter ∧ ¬ registering n s }.

(** The numbers do not wrap around while there are fewer workers than 64-bit numbers. *)
Definition numbered_inv s : Prop :=
  Z.of_nat (length (ld_workers s)) ≤ max_int64 → identities_inv s.

Lemma loadtest_identity_inj n n' : loadtest_identity n = loadtest_identity n' → n = n'.
Proof. unfold loadtest_identity. intros H. by apply (inj pretty), (inj (String.app "loadtest-user-")). Qed.

(** What a registration changes. *)
Lemma Register_cases now id md d (c : @Coordinator R) :
  let '(c', err) := Register config now id md d c in
  (co_identities c' = co_identities c ∧ err ≠ None) ∨
  (co_identities c !! id = None ∧ co_identities c' = <[id := new_identity now id md d]> (co_identities c) ∧ err = None).
Proof.
  unfold Register. destruct (co_identities c !! id) eqn:Hl; [by left|].
  destruct (_ && _); [by left|]. destruct (rb_Set _ _ _ _ _) as [r []]; simpl; [by right|by left].
Qed.

(** Steps that neither draw a number nor register. *)
Lemma identities_other s s' :
  co_identities (ld_co s') ⊆ co_identities (ld_co s) →
  ld_counters s' IdentityCounter = ld_counters s IdentityCounter →
  count drawn (ld_workers s') = count drawn (ld_workers s) →
  (∀ i n, ld_workers s' !! i = Some (WRegister n) → ld_workers s !! i = Some (WRegister n)) →
  identities_inv s → identities_inv s'.
Proof.
  intros Hco Hc Hd Hr [H1 H2 H3 H4]. split; rewrite ?Hc, ?Hd; eauto.
  intros k x Hk. destruct (H4 k x) as (? & n & -> & ? & Hn); [by eapply lookup_weaken|].
  split; [done|]. exists n. split; [done|]. split; [done|]. intros [i Hi]. apply Hn. exists i. by apply Hr.
Qed.

Lemma insert_not_register (ws : list worker) (i : nat) w' : (∀ n, w' ≠ WRegister n) →
  ∀ (j : nat) n, <[i := w']> ws !! j = Some (WRegister n) → ws !! j = Some (WRegister n).
Proof. intros Hw j n [(_ & -> & _)|[_ ?]]%list_lookup_insert_Some; [by destruct (Hw n)|done]. Qed.

Lemma performCleanup_subseteq now (c : @Coordinator R) :
  co_identities (performCleanup now c) ⊆ co_identities c.
Proof.
  apply map_subseteq_spec. intros k x. rewrite performCleanup_correct.
  destruct (co_identities c !! k); [|done]. by case_match.
Qed.

(** A worker draws the next number. *)
Lemma identities_draw s i :
  ld_workers s !! i = Some (WCall OperationRegister) →
  Z.of_nat (length (ld_workers s)) ≤ max_int64 → identities_inv s →
  let n := wrap64 (ld_counters s IdentityCounter + 1) in
  identities_inv (set_workers (<[i := WRegister n]> (ld_workers s)) (add IdentityCounter 1 s)).
Proof.
  intros Hi Hlen [H1 H2 H3 H4] n.
  assert (n = ld_counters s IdentityCounter + 1) as Hn.
  { pose proof (count_more drawn _ _ _ (WRegister 0) Hi eq_refl eq_refl) as Hd.
    pose proof (count_le drawn (<[i := WRegister 0]> (ld_workers s))) as Hle.
    rewrite length_insert in Hle.
    unfold n. apply wrap64_id. unfold in_int64, min_int64 in *. lia. }
  split; simpl; rewrite ?fn_lookup_insert; fold n.
  - rewrite (count_more _ _ _ (WCall OperationRegister)) by done. lia.
  - intros j m [(-> & [= <-] & _)|[_ Hj]]%list_lookup_insert_Some; [lia|]. specialize (H2 _ _ Hj). lia.
  - intros j j' m [(-> & [= <-] & _)|[? Hj]]%list_lookup_insert_Some
      [(-> & ? & _)|[? Hj']]%list_lookup_insert_Some; try done; simplify_eq.
    + specialize (H2 _ _ Hj'). lia.
    + specialize (H2 _ _ Hj). lia.
    + eauto.
  - intros k x Hk. destruct (H4 k x Hk) as (? & m & -> & ? & Hm). split; [done|]. exists m.
    split_and!; [done|lia|lia|]. intros [j [(_ & [= <-] & _)|[_ Hj]]%list_lookup_insert_Some]; [lia|].
    apply Hm. by exists j.
Qed.

(** A worker registers the number it has drawn. *)
Lemma identities_register s i n now unix d w' :
  ld_workers s !! i = Some (WRegister n) → (∀ m, w' ≠ WRegister m) → drawn w' = true →
  identities_inv s →
  identities_inv (set_workers (<[i := w']> (ld_workers s))
    (set_co (Register config now (loadtest_identity n) (loadtest_metadata unix n) d (ld_co s)).1 s)).
Proof.
  intros Hi Hw Hdr Hinv. pose proof Hinv as [H1 H2 H3 H4].
  pose proof (Register_cases now (loadtest_identity n) (loadtest_metadata unix n) d (ld_co s)) as Hc.
  destruct (Register _ _ _ _ _ _) as [co err]. simpl.
  destruct Hc as [[Hc _]|(Hnone & Hc & _)].
  { eapply identities_other; [..|exact Hinv]; simpl; [by rewrite Hc|done|by eapply count_same|].
    by apply insert_not_register. }
  split; simpl.
  - by rewrite (count_same _ _ _ _ w' Hi).
  - intros j m Hj%insert_not_register; eauto.
  - intros j j' m Hj%insert_not_register Hj'%insert_not_register; eauto.
  - rewrite Hc. intros k x [[<- <-]|[Hne Hk]]%lookup_insert_Some.
    + split; [done|]. exists n. split; [done|]. split; [by eapply H2|].
      intros [j Hj]. simpl in Hj. apply list_lookup_insert_Some in Hj as [(_ & -> & _)|[Hne Hj]]; [by destruct (Hw n)|].
      by destruct (H3 _ _ _ Hi Hj).
    + destruct (H4 k x Hk) as (? & m & -> & ? & Hm). split; [done|]. exists m. split; [done|]. split; [done|].
      intros [j Hj%insert_not_register]; [|done]. apply Hm. by exists j.
Qed.

(** The other steps of a worker. *)
Lemma wstep_identities t w s w' s1 : wstep t w s = Some (inl (w', s1)) →
  totals_only (worker_adds w) → w ≠ WCall OperationRegister → (∀ n, w ≠ WRegister n) →
  ld_co s1 = ld_co s ∧ ld_counters s1 IdentityCounter = ld_counters s IdentityCounter ∧
  drawn w' = drawn w ∧ ∀ n, w' ≠ WRegister n.
Proof.
  intros H Hw Hne Hnr.
  destruct w as [op|[]|idNum|pl n ds rs|op err adds|op [|[c n] adds]]; simpl in H;
    try (by destruct (Hnr idNum)); split_match_in H; simplify_eq/=; try done.
  - apply bind_Some in H as (f & _ & ?). by simplify_eq/=.
  - apply Forall_cons in Hw as [Hc _]. split_and!; try done.
    rewrite fn_lookup_insert_ne; [done|]. intros ->. simpl in Hc. set_solver.
Qed.

Lemma numbered_step l s s' : adds_inv s → numbered_inv s → exec l s = Some s' → numbered_inv s'.
Proof.
  intros Ha Hn (_ & Hc)%exec_inv. unfold numbered_inv in *. intros Hlen.
  destruct Hc as [roll _ _ _ ->|_ ->|now _ ->|i t w w' s1 _ Hi _ Hs ->|i t w _ Hi _ ->]; simpl in Hlen.
  - rewrite length_app in Hlen. simpl in Hlen. eapply identities_other; [..|apply Hn; lia]; simpl; try done.
    + rewrite count_app. unfold count at 2. simpl. unfold drawn. rewrite andb_false_r. lia.
    + intros j n [[_ ?]|[_ ?]]%lookup_snoc_Some; done.
  - eapply identities_other; [..|apply Hn, Hlen]; done.
  - eapply identities_other; [..|apply Hn, Hlen]; try done. simpl. apply performCleanup_subseteq.
  - rewrite length_insert in Hlen. specialize (Hn Hlen).
    assert (w = WCall OperationRegister ∨ w ≠ WCall OperationRegister) as [->|Hne].
    { destruct w as [|[]| | | |]; auto. }
    { injection Hs as <- <-. rewrite fn_lookup_insert. by apply identities_draw. }
    destruct w as [op|op|idNum|pl n ds rs|op err adds|op adds];
      try (destruct (wstep_identities _ _ _ _ _ Hs (Ha _ _ Hi) Hne ltac:(done)) as (Hco & Hcn & Hd & Hr);
           eapply identities_other; [..|exact Hn]; simpl;
             [by rewrite Hco|done|by eapply count_same|by apply insert_not_register]).
    simpl in Hs. destruct (Register _ _ _ _ _ _) as [co err] eqn:HR. injection Hs as <- <-.
    replace co with (Register config (tk_now t) (loadtest_identity idNum)
      (loadtest_metadata (tk_unix t) idNum) (wrap64 (ttl * Second)) (ld_co s)).1 by by rewrite HR.
    by eapply identities_register.
  - eapply identities_other; [..|apply Hn, Hlen]; done.
Qed.

(** ** No panic *)

Lemma status_matches status md : md !! "status"%string = Some (VString "online") →
  Matches (Some (status_filter status)) md ≠ None.
Proof.
  intros Hmd. unfold Matches, status_filter, NewFilter. cbn [fl_Conditions].
  rewrite map_to_list_singleton. simpl. rewrite Hmd. simpl. by case_match.
Qed.

Lemma select_online clock filter ids :
  (∀ md, md !! "status"%string = Some (VString "online") → Matches filter md ≠ None) →
  Forall (λ x, id_Metadata x !! "status"%string = Some (VString "online")) ids →
  select clock filter ids ≠ None.
Proof.
  intros Hf. induction 1 as [|x ids Hx _ IH]; [done|]. simpl. case_match; [done|].
  specialize (Hf _ Hx). destruct (Matches _ _) as [[]|]; [|done..].
  by destruct (select clock filter ids).
Qed.

Lemma enumerate_no_panic clock s : identities_inv s → Enumerate clock (worker_filter cmd) (ld_co s) ≠ None.
Proof.
  intros [_ _ _ Hk]. unfold Enumerate. destruct (rb_Enumerate _ _); [done|].
  apply select_online.
  - intros md Hmd. unfold worker_filter. destruct cmd as [|[] st|[] st|];
      [discriminate|exact (status_matches st md Hmd)|discriminate|exact (status_matches st md Hmd)
      |discriminate|exact (status_matches "online" md Hmd)].
  - apply Forall_forall. intros x Hx. apply list_elem_of_fmap in Hx as ([k x'] & Hxx & Hx).
    apply elem_of_map_to_list in Hx. destruct (Hk _ _ Hx) as [Hst _]. by rewrite Hxx.
Qed.

(** ** The invariant of a load test *)

Record load_inv (start : Z) s : Prop := {
  li_failing : failing_inv s;
  li_adds : adds_inv s;
  li_metrics : metrics_inv start s;
  li_counts : counts_inv s;
  li_delivery : delivery_inv s;
  li_numbered : numbered_inv s;
  li_running : Z.of_nat (length (ld_workers s)) ≤ max_int64 → ld_panicked s = false }.

Lemma load_inv_start start co msg : co_identities co = ∅ → load_inv start (start_load start co msg).
Proof.
  intros Hco. split; try done.
  - intros op. exists []. by split_and!.
  - intros _. split; simpl; try done. intros k x. rewrite Hco. by rewrite lookup_empty.
Qed.

Lemma load_inv_step start l s s' : load_inv start s → exec l s = Some s' → load_inv start s'.
Proof.
  intros [H1 H2 H3 H4 H5 H6 H7] He. split.
  - by eapply failing_step.
  - by eapply adds_step.
  - by eapply metrics_step.
  - by eapply counts_step.
  - by eapply delivery_step.
  - by eapply numbered_step.
  - apply exec_inv in He as [Hp Hc]. intros Hlen.
    destruct Hc as [roll _ _ _ ->|_ ->|now _ ->|i t w w' s1 _ Hi _ Hs ->|i t w _ Hi Hs ->]; simpl in *; try done.
    + destruct (wstep_frame _ _ _ _ _ Hs) as (_ & _ & -> & _). done.
    + exfalso. specialize (H6 Hlen).
      destruct w as [op|[]|idNum|pl n ds rs|op err adds|op [|[c n] adds]]; simpl in Hs;
        split_match_in Hs; simplify_eq/=; try (by eapply enumerate_no_panic).
      by apply bind_Some in Hs as (f & _ & ?).
Qed.

Lemma load_inv_run start labels s s' :
  load_inv start s → run_labels exec labels s = Some s' → load_inv start s'.
Proof. apply run_labels_invariant. intros ?? ? . apply load_inv_step. Qed.

(** ** The counters stay in range *)

Definition range_inv s : Prop := ∀ c, in_int64 (ld_counters s c).

Lemma wrap64_in z : in_int64 (wrap64 z).
Proof.
  unfold in_int64, min_int64, max_int64, wrap64. pose proof (wrap_signed_range 64 z ltac:(lia)).
  simpl in *. lia.
Qed.

Lemma add_range c n s : range_inv s → range_inv (add c n s).
Proof.
  intros Hr c'. unfold add. simpl. destruct (decide (c = c')) as [->|].
  - rewrite fn_lookup_insert. apply wrap64_in.
  - by rewrite fn_lookup_insert_ne.
Qed.

Lemma range_step l s s' : range_inv s → exec l s = Some s' → range_inv s'.
Proof.
  intros Hr (_ & Hc)%exec_inv.
  destruct Hc as [roll _ _ _ ->|_ ->|now _ ->|i t w w' s1 _ Hi _ Hs ->|i t w _ Hi _ ->]; try done.
  change (range_inv s1).
  destruct w as [op|[]|idNum|pl n ds rs|op err adds|op [|[c n] adds]]; simpl in Hs;
    split_match_in Hs; simplify_eq/=; try done; try by apply add_range.
  by apply bind_Some in Hs as (f & _ & [= <- <-]).
Qed.

(** ** Launches *)

(** The operations launched by [labels], in order. *)
Definition launched (labels : list load_label) : list operation :=
  omap (λ l, match l with Launch roll => Some (command_operation cmd roll) | _ => None end) labels.

Definition launches (op : operation) (labels : list load_label) : nat :=
  length (filter (λ op', op' = op) (launched labels)).

Lemma exec_workers l s s' : exec l s = Some s' →
  worker_operation <$> ld_workers s' = (worker_operation <$> ld_workers s) ++ launched [l].
Proof.
  intros (_ & Hc)%exec_inv.
  destruct Hc as [roll -> _ _ ->| -> -> |now -> ->|i t w w' s1 -> Hi _ Hs ->|i t w -> Hi _ ->]; simpl;
    rewrite ?app_nil_r; try done.
  - by rewrite fmap_app.
  - destruct (wstep_frame _ _ _ _ _ Hs) as (_ & _ & _ & Hop).
    rewrite list_fmap_insert, Hop. apply list_insert_id. by rewrite list_lookup_fmap, Hi.
Qed.

Lemma run_workers labels s s' : run_labels exec labels s = Some s' →
  worker_operation <$> ld_workers s' = (worker_operation <$> ld_workers s) ++ launched labels.
Proof.
  revert s. induction labels as [|l labels IH]; intros s; simpl; [intros [= ->]; by rewrite app_nil_r|].
  intros (s1 & H1 & H2)%bind_Some. rewrite (IH _ H2), (exec_workers _ _ _ H1), <- app_assoc. f_equal.
  unfold launched. simpl. by destruct l.
Qed.

Lemma count_of_op op ws : count (of_op op) ws = length (filter (λ op', op' = op) (worker_operation <$> ws)).
Proof.
  unfold count, of_op. induction ws as [|w ws IH]; [done|]. simpl. rewrite IH, filter_cons.
  by case_bool_decide; case_decide.
Qed.

Lemma count_finished (P : worker → bool) (Q : worker → bool) ws :
  forallb worker_done ws = true → (∀ op, P (WAdd op []) = Q (WAdd op [])) → count P ws = count Q ws.
Proof.
  intros Hd HPQ. unfold count. induction ws as [|w ws IH]; [done|]. simpl in *.
  apply andb_true_iff in Hd as [Hw Hd]. rewrite (IH Hd).
  destruct w as [| | | | |op [|a adds]]; try done. by rewrite HPQ.
Qed.

Lemma pending_finished c ws : forallb worker_done ws = true → total_pending c ws = 0.
Proof.
  induction ws as [|w ws IH]; [done|]. simpl. intros [Hw Hd]%andb_true_iff.
  rewrite (IH Hd). by destruct w as [| | | | |op [|a adds]].
Qed.

Lemma wrap64_congruent a b : in_int64 a → (a - b) mod 2 ^ 64 = 0 → a = wrap64 b.
Proof.
  intros Ha Hm. rewrite <- (wrap64_id a Ha). unfold wrap64, wrap_signed. f_equal.
  apply Z.mod_divide in Hm as [k Hk]; [|lia]. replace a with (b + k * 2 ^ 64) by lia.
  replace (b + k * 2 ^ 64 + 2 ^ (64 - 1)) with (b + 2 ^ (64 - 1) + k * 2 ^ 64) by lia.
  apply Z_mod_plus_full.
Qed.

Lemma latencies_all obs : Forall is_Some obs → length (latencies obs) = length obs.
Proof. unfold latencies. induction 1 as [|o obs Ho _ IH]; simpl; [done|]. destruct Ho as [l ->].
  simpl. f_equal. exact IH. Qed.

(** What the collectors and the counters hold at the end. *)
Record accounted (start : Z) (labels : list load_label) s : Prop := {
  ac_metrics op : ∃ obs, ld_metrics s op = collect start obs ∧ collected obs (ld_metrics s op) ∧
    length obs = launches op labels ∧ (op ≠ OperationRegister → length (latencies obs) = length obs);
  ac_counts op : is_mixed cmd = true →
    ld_counters s (OperationCount op) = Z.of_nat (launches op labels);
  ac_delivery : ld_counters s TotalTargets = wrap64 (ld_counters s TotalDelivered + ld_counters s TotalFailed) }.

Lemma launched_le labels : (length (launched labels) ≤ length labels)%nat.
Proof.
  induction labels as [|[] labels IH]; [done|..];
    unfold launched in *; simpl in *; unfold omap in *; lia.
Qed.

Lemma launches_le op labels : (launches op labels ≤ length labels)%nat.
Proof. unfold launches. etrans; [apply length_filter|apply launched_le]. Qed.

Lemma finished_accounted start labels s s' :
  ld_workers s = [] → load_inv start s → range_inv s → Z.of_nat (length labels) ≤ max_int64 →
  run_labels exec labels s = Some s' → load_finished s' = true → accounted start labels s'.
Proof.
  intros Hw Hinv Hr Hlen Hrun Hfin. apply andb_true_iff in Hfin as [_ Hdone].
  pose proof (run_workers _ _ _ Hrun) as Hws. rewrite Hw in Hws. simpl in Hws.
  pose proof (load_inv_run _ _ _ _ Hinv Hrun) as Hinv'.
  assert (range_inv s') as Hr' by (eapply run_labels_invariant; [|exact Hr|exact Hrun]; eauto using range_step).
  assert (∀ op, count (of_op op) (ld_workers s') = launches op labels) as Hcount.
  { intros op. by rewrite count_of_op, Hws. }
  split.
  - intros op. destruct (li_metrics _ _ Hinv' op) as (obs & Hm & Hl & _ & Hok). exists obs.
    rewrite (count_finished _ (of_op op)), Hcount in Hl; [|done|intros; simpl; by rewrite andb_true_r].
    pose proof (launches_le op labels). rewrite Hm. split_and!; [done|apply collected_collect; lia|done|].
    intros Hne. by apply latencies_all, Hok.
  - intros op Hmix. rewrite (li_counts _ _ Hinv' Hmix op).
    rewrite (count_finished _ (of_op op)), Hcount; [|done|intros; simpl; by rewrite andb_true_r].
    pose proof (launches_le op labels). apply wrap64_id. unfold in_int64, min_int64 in *. lia.
  - apply wrap64_congruent; [apply Hr'|]. destruct (li_delivery _ _ Hinv') as [Hb _].
    unfold balance, unaccounted in Hb. rewrite !pending_finished in Hb by done. rewrite <- Hb. f_equal. lia.
Qed.

(** ** The workers finish *)

(** How far a worker is from its end: its stage, and the delivery attempts that are left. *)
Definition stage (w : worker) : nat :=
  match w with
  | WStart _ => 7
  | WCall _ => 6
  | WRegister _ | WFanout _ _ _ _ => 5
  | WRecord _ _ adds => 1 + length adds
  | WAdd _ adds => length adds
  end.
Definition attempts_left (w : worker) : nat :=
  match w with WFanout _ _ ds _ => sum_list_with work ds | _ => 0 end.

Definition stages s : nat := sum_list_with stage (ld_workers s).
Definition all_attempts s : nat := sum_list_with attempts_left (ld_workers s).

Lemma wstep_progress t w s w' s1 : wstep t w s = Some (inl (w', s1)) →
  (stage w' < stage w)%nat ∨ (stage w' = stage w ∧ (attempts_left w' < attempts_left w)%nat).
Proof.
  destruct w as [op|[]|idNum|pl n ds rs|op err adds|op [|[c n] adds]]; simpl; intros H;
    split_match_in H; simplify_eq/=; try (left; lia).
  - left. unfold enumerate_adds. case_match; simpl; lia.
  - apply bind_Some in H as (f & Hd & ?). simplify_eq/=. right. split; [done|].
    apply (deliver_work config pl) in Hd. exact Hd.
Qed.

Definition worker_steps : relation load := λ s' s, ∃ i t, exec (Step i t) s = Some s'.

Lemma worker_steps_measure s s' i t : exec (Step i t) s = Some s' →
  ld_panicked s' = true ∨ (stages s' < stages s)%nat ∨
  (stages s' = stages s ∧ (all_attempts s' < all_attempts s)%nat).
Proof.
  intros (_ & Hc)%exec_inv.
  destruct Hc as [| | |i' t' w w' s1 _ Hi _ Hs ->|? ? ? _ _ _ ->]; try done; [|by left]. right.
  pose proof (sum_insert stage _ _ _ w' Hi). pose proof (sum_insert attempts_left _ _ _ w' Hi).
  unfold stages, all_attempts. simpl. destruct (wstep_progress _ _ _ _ _ Hs) as [?|[? ?]]; lia.
Qed.

Lemma panicked_stuck s s' : ld_panicked s = true → ¬ worker_steps s' s.
Proof. intros Hp (i & t & H). unfold load_exec in H. by rewrite Hp in H. Qed.

Lemma worker_steps_wf : well_founded worker_steps.
Proof.
  assert (∀ s, ld_panicked s = true → Acc worker_steps s) as Hstuck.
  { intros s Hp. constructor. intros s' Hs. by destruct (panicked_stuck s s' Hp). }
  intros s. remember (stages s) as m eqn:Hm. revert s Hm.
  induction m as [m IHm] using lt_wf_ind. intros s Hm.
  remember (all_attempts s) as k eqn:Hk. revert s Hm Hk.
  induction k as [k IHk] using lt_wf_ind. intros s -> ->. constructor.
  intros s' (i & t & Hs). destruct (worker_steps_measure _ _ _ _ Hs) as [Hp|[Hlt|[Heq Hlt]]].
  - by apply Hstuck.
  - by apply (IHm (stages s')).
  - by apply (IHk (all_attempts s')).
Qed.

(** A worker that has not finished can go on. *)
Lemma worker_can_step s i w : ld_panicked s = false → ld_workers s !! i = Some w → worker_done w = false →
  ∃ t s', exec (Step i t) s = Some s'.
Proof.
  intros Hp Hi Hd. unfold load_exec. rewrite Hp.
  assert (∃ pick, wstep (mkTick 0 0 (λ _, 0) 0 pick) w s ≠ None) as [pick Hw].
  { destruct w as [op|[]|idNum|pl n ds rs|op err adds|op [|[c n] adds]]; simpl in *; try (by exists 0%nat).
    - exists 0%nat. by destruct (Enumerate _ _ _).
    - exists 0%nat. by destruct (Enumerate _ _ _).
    - exists 0%nat. by destruct (Register _ _ _ _ _ _).
    - destruct (all_sent _) eqn:Ha; [by exists 0%nat|].
      destruct (deliver_progress config pl _ Ha) as (j & f & Hf). exists j. by rewrite Hf. }
  exists (mkTick 0 0 (λ _, 0) 0 pick). rewrite Hi. simpl.
  destruct (wstep _ w s) as [[[w' s1]|[]]|]; [by eexists..|done].
Qed.

Lemma steps_drain start s : load_inv start s → ld_left s = true →
  Z.of_nat (length (ld_workers s)) ≤ max_int64 →
  ∃ labels s', Forall (λ l, ∃ i t, l = Step i t) labels ∧ run_labels exec labels s = Some s' ∧
    load_finished s' = true.
Proof.
  induction s as [s IH] using (well_founded_induction worker_steps_wf). intros Hinv Hl Hlen.
  destruct (forallb worker_done (ld_workers s)) eqn:Hd.
  { exists [], s. split_and!; [done..|]. unfold load_finished. by rewrite Hl. }
  assert (∃ i w, ld_workers s !! i = Some w ∧ worker_done w = false) as (i & w & Hi & Hw).
  { clear -Hd. induction (ld_workers s) as [|w ws IH]; [done|]. simpl in Hd.
    destruct (worker_done w) eqn:Hw; [|by exists 0%nat, w].
    destruct (IH Hd) as (i & w' & ? & ?). by exists (S i), w'. }
  destruct (worker_can_step s i w (li_running _ _ Hinv Hlen) Hi Hw) as (t & s1 & H1).
  pose proof (exec_workers _ _ _ H1) as Hws. simpl in Hws. rewrite app_nil_r in Hws.
  apply (f_equal length) in Hws. rewrite !length_fmap in Hws.
  destruct (IH s1) as (labels & s' & Hall & Hrun & Hfin).
  - by exists i, t.
  - by eapply load_inv_step.
  - apply exec_inv in H1 as [_ [| | |i' t' ? w' s2 _ _ _ Hs ->|? ? ? _ _ _ ->]]; try done. simpl.
    by destruct (wstep_frame _ _ _ _ _ Hs) as (_ & -> & _).
  - by rewrite Hws.
  - exists (Step i t :: labels), s'. split_and!; [|by simpl; rewrite H1|done].
    constructor; [by eauto|done].
Qed.
End Spec.

(** ** The commands *)

Section Commands.
Context {R M : Type} `{!RegistryBackend R, !MessagingBackend M}.
Context (cmd : command) (ttl start : Z) (redis : option R) (nats : option M).
Implicit Types (s : @load R M).

(** A command that gets to its loop starts from an empty coordinator. *)
Lemma start_command_inv config s : start_command cmd start redis nats = inl (config, s) →
  config = loadtest_config ∧ ∃ r m, redis = Some r ∧ nats = Some m ∧
    s = start_load start (new_coordinator r) m.
Proof.
  intros H.
  assert ((setupCoordinator redis nats).1 = inl (config, ld_co s, ld_msg s) ∧
          s = start_load start (ld_co s) (ld_msg s)) as [Hs ->].
  { unfold start_command in H. destruct (setupCoordinator redis nats).1 as [[[c co] m]|e];
      destruct cmd; try case_match; by simplify_eq. }
  unfold setupCoordinator in Hs. destruct redis as [r|]; [|done]. destruct nats as [m|]; [|done].
  cbn in Hs. injection Hs as <- <- <-. split; [done|]. by exists r, m.
Qed.

Lemma start_invariants config s : start_command cmd start redis nats = inl (config, s) →
  ld_workers s = [] ∧ load_inv cmd start s ∧ range_inv s.
Proof.
  intros (_ & r & m & _ & _ & ->)%start_command_inv. split; [done|]. split; [by apply load_inv_start|].
  intros c. unfold in_int64, min_int64, max_int64. simpl. lia.
Qed.

Lemma workers_bounded config s labels s' : ld_workers s = [] →
  run_labels (load_exec config cmd ttl) labels s = Some s' → Z.of_nat (length labels) ≤ max_int64 →
  Z.of_nat (length (ld_workers s')) ≤ max_int64.
Proof.
  intros Hw Hrun Hlen. pose proof (run_workers config cmd ttl _ _ _ Hrun) as Hws. rewrite Hw in Hws.
  apply (f_equal length) in Hws. rewrite length_fmap in Hws. simpl in Hws.
  pose proof (launched_le cmd labels). lia.
Qed.

(** C21. A load test accounts for every request it launched: however the workers, the
    deliveries of their multicasts and the coordinator's cleanup interleave, when the
    command prints its report each collector holds exactly one result per launched request
    of its operation, successes and failures add up to them, only registrations were
    counted as failures (a multicast of which no delivery succeeded is a success), the
    counters of a mixed test are the numbers of launches, and the targets are those
    delivered plus those failed. *)
Theorem load_test_accounting config s labels s' :
  start_command cmd start redis nats = inl (config, s) →
  run_labels (load_exec config cmd ttl) labels s = Some s' → load_finished s' = true →
  Z.of_nat (length labels) ≤ max_int64 →
  (∀ op, let m := ld_metrics s' op in
     mc_TotalRequests m = Z.of_nat (launches cmd op labels) ∧
     mc_SuccessfulReqs m + mc_FailedReqs m = mc_TotalRequests m ∧
     0 ≤ mc_SuccessfulReqs m ∧ 0 ≤ mc_FailedReqs m ∧
     (op ≠ OperationRegister → mc_FailedReqs m = 0)) ∧
  (is_mixed cmd = true → ∀ op, ld_counters s' (OperationCount op) = Z.of_nat (launches cmd op labels)) ∧
  ld_counters s' TotalTargets = wrap64 (ld_counters s' TotalDelivered + ld_counters s' TotalFailed).
Proof.
  intros (Hw & Hinv & Hr)%start_invariants Hrun Hfin Hlen.
  destruct (finished_accounted config cmd ttl start labels s s' Hw Hinv Hr Hlen Hrun Hfin) as [Hm Hc Hd].
  split_and!; [|auto|done]. intros op. destruct (Hm op) as (obs & _ & Hcol & Hl & Hok).
  destruct Hcol as (Ht & Hs & Hf & _). pose proof (latencies_length obs).
  cbn. rewrite Ht, Hs, Hf, Hl in *. split_and!; try lia. intros Hne. rewrite (Hok Hne). lia.
Qed.

(** The identities a load test registers are all different: a worker that has drawn
    its number finds it unregistered, whatever the other workers and the cleanup have done,
    so that a registration fails only for the limit of identities or for an error of the
    registry backend. *)
Theorem registrations_never_collide config s labels s' i n now unix d :
  start_command cmd start redis nats = inl (config, s) →
  run_labels (load_exec config cmd ttl) labels s = Some s' →
  Z.of_nat (length labels) ≤ max_int64 →
  ld_workers s' !! i = Some (WRegister n) →
  co_identities (ld_co s') !! loadtest_identity n = None ∧
  match (Register config now (loadtest_identity n) (loadtest_metadata unix n) d (ld_co s')).2 with
  | Some (ErrMaxIdentities _) | Some ErrRegistrySet | None => True
  | _ => False
  end.
Proof.
  intros (Hw & Hinv & _)%start_invariants Hrun Hlen Hi.
  pose proof (load_inv_run config cmd ttl start labels s s' Hinv Hrun) as Hinv'.
  pose proof (workers_bounded config s labels s' Hw Hrun Hlen) as Hws.
  pose proof (li_numbered _ _ _ Hinv' Hws) as [_ _ _ Hk].
  assert (co_identities (ld_co s') !! loadtest_identity n = None) as Hn.
  { destruct (co_identities (ld_co s') !! loadtest_identity n) as [x|] eqn:Hx; [|done].
    destruct (Hk _ _ Hx) as (_ & m & Heq%loadtest_identity_inj & _ & Hm). subst m.
    destruct Hm. by exists i. }
  split; [done|]. unfold Register. rewrite Hn. destruct (_ && _); [done|].
  by destruct (rb_Set _ _ _ _ _) as [r []].
Qed.

(** C38. A load test ends: in every reachable state no sequence of worker steps is
    infinite, and once the main loop has been left every worker can be brought to its end
    by steps of the workers alone, without a panic; the command then prints its report. *)
Theorem load_test_ends config s labels s' :
  start_command cmd start redis nats = inl (config, s) →
  run_labels (load_exec config cmd ttl) labels s = Some s' →
  Z.of_nat (length labels) ≤ max_int64 → ld_left s' = true →
  Acc (worker_steps config cmd ttl) s' ∧
  ∃ rest s'', Forall (λ l, ∃ i t, l = Step i t) rest ∧
    run_labels (load_exec config cmd ttl) rest s' = Some s'' ∧ load_finished s'' = true ∧
    ld_panicked s'' = false.
Proof.
  intros (Hw & Hinv & _)%start_invariants Hrun Hlen Hleft. split; [apply worker_steps_wf|].
  pose proof (load_inv_run config cmd ttl start labels s s' Hinv Hrun) as Hinv'.
  pose proof (workers_bounded config s labels s' Hw Hrun Hlen) as Hws.
  destruct (steps_drain config cmd ttl start s' Hinv' Hleft Hws) as (rest & s'' & Hall & Hrest & Hfin).
  exists rest, s''. split_and!; [done..|].
  apply (li_running cmd start s''); [by eapply load_inv_run|].
  pose proof (run_workers config cmd ttl _ _ _ Hrest) as Hl.
  apply (f_equal length) in Hl. rewrite length_app, !length_fmap in Hl.
  rewrite Hl. assert (launched cmd rest = []) as ->; [|simpl; lia].
  clear -Hall. induction Hall as [|l rest (i & t & ->) _ IH]; done.
Qed.
End Commands.

(** ** The mix of a mixed test *)

Lemma count_rolls (P : Z → Prop) `{∀ x, Decision (P x)} lo hi (n : nat) :
  0 ≤ lo ≤ hi → hi ≤ Z.of_nat n → (∀ x, 0 ≤ x < Z.of_nat n → P x ↔ lo ≤ x < hi) →
  Z.of_nat (length (filter P (seqZ 0 (Z.of_nat n)))) = hi - lo.
Proof.
  revert lo hi. induction n as [|n IH]; intros lo hi Hlo Hhi HP; [simpl; lia|].
  rewrite seqZ_S. rewrite filter_app, length_app, filter_cons, filter_nil.
  pose proof (HP (0 + Z.of_nat n) ltac:(lia)) as Hn.
  destruct (decide (P (0 + Z.of_nat n))) as [Hy|Hy]; simpl.
  - apply Hn in Hy. rewrite Nat2Z.inj_add, (IH lo (Z.of_nat n)); [simpl; lia|lia|lia|].
    intros x Hx. rewrite HP by lia. lia.
  - rewrite Nat2Z.inj_add. destruct (decide (hi = lo)) as [->|].
    + rewrite (IH 0 0); [simpl; lia|lia|lia|]. intros x Hx. rewrite HP by lia. lia.
    + rewrite (IH lo hi); [simpl; lia|lia| |].
      * rewrite Hn in Hy. lia.
      * intros x Hx. rewrite HP by lia. lia.
Qed.

(** The percentage asked for an operation. *)
Definition asked (r e m : Z) (op : operation) : Z :=
  match op with OperationRegister => r | OperationEnumerate => e | OperationMulticast => m end.

(** The mix of a mixed test is the one asked for: with percentages that are not
    negative and that the command accepts, of the hundred rolls exactly as many choose an
    operation as its percentage says. *)
Theorem mixed_rolls_exact r e m op :
  mixed_percentages_ok r e m = true → 0 ≤ r ≤ max_int64 → 0 ≤ e ≤ max_int64 → 0 ≤ m ≤ max_int64 →
  r + e + m ≤ max_int64 →
  Z.of_nat (length (filter (λ roll, select_operation r e roll = op) (seqZ 0 100))) = asked r e m op.
Proof.
  unfold mixed_percentages_ok. intros Hok Hr He Hm Hsum.
  assert (wrap64 (r + e) = r + e) as Hre by (apply wrap64_id; unfold in_int64, min_int64; lia).
  rewrite Hre, wrap64_id in Hok by (unfold in_int64, min_int64; lia). bool_to_prop.
  change 100 with (Z.of_nat 100). destruct op; simpl asked.
  - rewrite (count_rolls _ 0 r); [lia|lia|lia|]. intros x Hx. unfold select_operation. rewrite Hre.
    repeat case_match; bool_to_prop; split; intros; try done; lia.
  - rewrite (count_rolls _ r (r + e)); [lia|lia|lia|]. intros x Hx. unfold select_operation. rewrite Hre.
    repeat case_match; bool_to_prop; split; intros; try done; lia.
  - rewrite (count_rolls _ (r + e) 100); [lia|lia|lia|]. intros x Hx. unfold select_operation. rewrite Hre.
    repeat case_match; bool_to_prop; split; intros; try done; lia.
Qed.

(** Only the sum of the percentages is checked: 150% registrations and -50% enumerations
    are accepted. *)
Theorem negative_percentages_accepted :
  mixed_percentages_ok 150 (-50) 0 = true ∧
  ∀ roll, 0 ≤ roll < 100 → select_operation 150 (-50) roll = OperationRegister.
Proof.
  split; [done|]. intros roll Hr. unfold select_operation. by rewrite (proj2 (Z.ltb_lt _ _)) by lia.
Qed.

(** ** Witnesses *)

Definition demo_command : command := MixedCommand 50 30 20.
Definition demo_tick : tick := mkTick 1000 7 (λ _, 1000) 42000 0.
Definition demo_labels : list load_label :=
  [Launch 10; Launch 60; Launch 90] ++ replicate 4 (Step 0 demo_tick) ++ replicate 3 (Step 2 demo_tick)
    ++ [Cleanup 2000; Leave] ++ replicate 3 (Step 1 demo_tick) ++ replicate 5 (Step 2 demo_tick).
Definition demo_start : Config * @load MockRegistryBackend MockMessagingBackend + run_error :=
  start_command demo_command 0 (Some ∅) (Some ∅).
Definition demo_load : @load MockRegistryBackend MockMessagingBackend :=
  start_load 0 (new_coordinator ∅) ∅.

Definition demo_end (labels : list load_label) : @load MockRegistryBackend MockMessagingBackend :=
  default demo_load (run_labels (load_exec loadtest_config demo_command 300) labels demo_load).

Lemma demo_run labels :
  match run_labels (load_exec loadtest_config demo_command 300) labels demo_load with Some _ => true | None => false end = true →
  run_labels (load_exec loadtest_config demo_command 300) labels demo_load = Some (demo_end labels).
Proof. unfold demo_end. by destruct (run_labels _ _ _). Qed.

Lemma load_test_accounting_witness :
  mc_TotalRequests (ld_metrics (demo_end demo_labels) OperationMulticast) = 1 ∧
  ld_counters (demo_end demo_labels) TotalTargets = 1 ∧
  (is_mixed demo_command = true → ∀ op, ld_counters (demo_end demo_labels) (OperationCount op) =
     Z.of_nat (launches demo_command op demo_labels)).
Proof.
  split_and!; [by vm_compute|by vm_compute|].
  apply (load_test_accounting demo_command 300 0 (Some (∅ : MockRegistryBackend))
    (Some (∅ : MockMessagingBackend)) loadtest_config demo_load demo_labels); [done| | |].
  - apply demo_run. by vm_compute.
  - by vm_compute.
  - by vm_compute.
Defined.

Lemma registrations_never_collide_witness :
  co_identities (ld_co (demo_end (take 5 demo_labels))) !! loadtest_identity 1 = None.
Proof.
  apply (registrations_never_collide demo_command 300 0 (Some (∅ : MockRegistryBackend))
    (Some (∅ : MockMessagingBackend)) loadtest_config demo_load (take 5 demo_labels) _ 0%nat 1 0 0 0); [done| | |].
  - apply demo_run. by vm_compute.
  - by vm_compute.
  - by vm_compute.
Defined.

Lemma load_test_ends_witness :
  ∃ rest s'', Forall (λ l, ∃ i t, l = Step i t) rest ∧
    run_labels (load_exec loadtest_config demo_command 300) rest (demo_end (take 12 demo_labels)) = Some s'' ∧
    load_finished s'' = true ∧ ld_panicked s'' = false.
Proof.
  apply (load_test_ends demo_command 300 0 (Some (∅ : MockRegistryBackend))
    (Some (∅ : MockMessagingBackend)) loadtest_config demo_load (take 12 demo_labels)); [done| | |].
  - apply demo_run. by vm_compute.
  - by vm_compute.
  - by vm_compute.
Defined.

Lemma mixed_rolls_exact_witness :
  Z.of_nat (length (filter (λ roll, select_operation 50 30 roll = OperationEnumerate) (seqZ 0 100))) = 30.
Proof.
  apply (mixed_rolls_exact 50 30 20 OperationEnumerate); unfold max_int64; [by vm_compute|lia..].
Defined.
